(* ===== verification/_CoqProject ===== *)
-Q . S2P
Prelude.v
GoString.v
Utf8.v
ToolOutput.v
Json.v
Decimal.v
JsonProps.v
Base64.v
Autonomy.v
AutonomyProps.v
Risk.v
RiskProps.v
Perms.v
ConfirmBus.v
Grants.v
GrantsProps.v
Hlc.v
HlcProps.v
Memory.v
MemoryProps.v
MemoryMerge.v
MemorySync.v
MemorySyncProps.v
Elicitation.v
ElicitationProps.v
AgentGraph.v
EventLog.v
RunState.v
Kernel.v
KernelSafety.v
KernelForward.v
Rebuild.v
KernelDemo.v
KernelProps.v
Registry.v
Ladder.v
Branch.v
BranchProps.v
Containers.v
ContainersProps.v
Routing.v
Acyclic.v
Validator.v
ValidatorProps.v
Gates.v
GatesProps.v
Fork.v
ToolArgs.v
Dispatch.v
DispatchProps.v
Consent.v
ConsentProps.v
ToolGate.v
ToolGateProps.v
PlanMode.v
PlanModeProps.v
AuditLog.v
AuditBackends.v
AuditLogProps.v
Io.v
Catalog.v
ModelErr.v
ModelGates.v
CatalogProps.v
ModelReg.v
ModelRegProps.v
ModelCall.v
ModelCallProps.v
ModelCallSafety.v
ModelCallShown.v
ModelCallRetry.v
Exposure.v
ExposureProps.v
LoadTools.v
LoadToolsProps.v
ExposureTurn.v
ExposureTurnProps.v
Watermark.v
Dials.v
DialsProps.v
