(* ===== verification/Prelude.v ===== *)
(** * Kenaz Harness: the agent-graph engine and the gates around it

    Kenaz Harness runs agents as graphs: nodes are model calls, tool calls,
    routing decisions and recovery steps, edges carry values between ports.  This
    library models the engine, the Go package under src/core/agentgraph, and
    proves what its run loop, its recovery machinery, its routing executors, its
    tool dispatch, its human gates and its validator guarantee, and where they fall
    short of it; with it comes the store of pending questions (src/core/elicitation)
    that the gates wait on.  Around the engine it models what decides how freely an
    agent may act: the autonomy dial (src/core/autonomy), the permission rules, risk
    ratings, confirmations and grants that stand before every tool call (src/core/toolloop,
    src/core/policy), and plan mode (src/core/tools/planmode).  Beside it stand two stores
    whose contents must be trusted later: the hash-chained audit log (src/core/event/log)
    and the learned memory with its clock and its sync to Fleet (src/core/memory,
    src/core/fleet/memory_sync.go).  What the engine asks most of is a language model: the
    path of one model request through gates, retries and fallbacks is modelled from the
    chat adapter down to the provider adapters (src/core/llm).  Which tools such a request
    carries, and how a tool left out comes back, is a component of its own
    (src/core/toolexposure, src/core/tools/loadtools, chat/tool_exposure.go).

    ** How the program fits together

    A [Graph] (spec.go) is checked once by [Validate] (validator.go; edges also
    one at a time by edgecheck.go while an author draws them) and then executed by
    [Kernel.Run] (kernel.go).  Run starts a goroutine per ready node; each looks up
    an executor in a registry (executor.go), builds its inputs from the recorded
    outputs of the predecessors, executes, appends the events of the execution to
    an event log (events.go) as one batch, and then, under a mutex, updates the
    traversal maps and launches the successors that became ready.  An executor
    that implements [EdgeRouter] (the decision and router executors,
    exec_control.go and exec_router.go) tells the kernel which out-edges of its node are
    alive.  A result may ask to rewind the run to an earlier node (a backtrack);
    the escalation ladder (exec_escalation_ladder.go) drives that.  The run state
    (executor.go, task_state.go, doomloop.go) is shared by the kernel and the
    executors; after a pause it is rebuilt from the log (RebuildState).

    Inside a node, an executor may fan out on its own: a parallel runs target nodes,
    a tool_dispatch runs the tool calls a model emitted, each in goroutines under a
    limit.  An ask or an approval registers its question through an AskBus (seams.go),
    behind which stands one registry of pending questions; the run pauses, a person's
    answer is recorded in the registry, and the resumed run fires the node again, which
    finds the answer.  Tool results are capped (tool_output_cap.go) before they reach
    the conversation, and automatic compaction is gated by the conversation's growth
    (compaction_watermark.go).

    A chat turn (core/rpc/views/agentgraph/chat) resolves the autonomy knobs of its
    session from three layers, folds them into the budget and the graph of the run, and
    hands the kernel a tool registry whose calls go through one adapter
    (kernel_tool_adapter.go): it locates the tool, asks the permission resolver, and on a
    confirm-each verdict either asks the Cedar gate and the risk rater or walks a ladder of
    skip set, toggle, session grant, durable grant and headless policy down to a prompt on
    the confirmation bus.  Workflows and slash commands have ladders of their own
    (core/rpc/wf_adapters.go).  Plan mode is a posture on the session's layer: two tools
    enter and leave it and the user approves, discards or edits the plan in between.

    A model node asks the chat adapter's Generate (llm_provider_adapter.go).  It wraps the
    registry's Stream (llm/registry) in a retry of whole streams (llm/retry) and, when the
    node names one, in a walk along a fallback chain (llm/fallback).  Stream finds the
    profile, checks capabilities, attachments and knobs against a catalog of models
    (llm/capabilities) with what a probe of the endpoint found laid over it, asks the policy
    guard, reads the credential, and calls the provider adapter under a retry middleware of
    its own; a JSON reply that does not fit its schema costs one corrective call.  Probes
    run in the background, one at a time for a profile and model, and fill a cache.

    The tools of a request are chosen call by call.  A tool's tier comes from the first of
    five layers that speaks (organisation pin, session, project, user, organisation default);
    full tools are sent, off tools never, summary tools once they are loaded: by the load
    tool, by the user, or by the gate that meets a call to one of them.  The definitions are
    fitted to a schema budget, the core and pinned ones in front as a cached prefix; what is
    not sent is listed in a digest.  Loaded tools expire when they are not used.

    What the gates decide is appended to the audit log, a chain of digests per session over
    one of two backends, which a verifier and a retention sweep read.  Learned notes are
    rows of one store; each change stamps its field with a hybrid logical clock, and the
    memory sync lane pulls pages of records from Fleet, merges them by those stamps, pushes
    what the account may send, and keeps a queue of forgets.

    ** Files

    - Prelude: results as a sum, Go's map default, list counting, tactics.
    - GoString: the string functions of Go's library that the code calls.
    - Utf8: UTF-8 as package unicode/utf8 decodes it, forwards and backwards.
    - ToolOutput: the cap on tool results.
    - Json, JsonProps: Go's encoding/json, the grammar it accepts and the text it
      writes; what it writes it reads back.
    - Decimal, Base64: the number and byte-string texts Go's JSON uses.
    - Autonomy, AutonomyProps: tiers, knobs, layers with their JSON form, presets and
      their resolution (src/core/autonomy).
    - Risk, RiskProps: the families of tools, the prompt-skip set, floors, and the rater
      with its prompt, reply and cache (toolloop/promptskip.go, policy/risk).
    - Perms: permission rules and resolvers (toolloop/perms.go).
    - ConfirmBus: the bus of parked calls (toolloop/confirm.go).
    - Grants, GrantsProps: session grants, the headless policy, and durable grants as
      Cedar files behind the class [PersistentGrantStore] (toolloop/grants.go,
      policy/cedar/toolgrant.go).
    - Hlc, HlcProps: stamps and the hybrid logical clock (memory/hlc.go).
    - Memory, MemoryProps, MemoryMerge: notes, their owners, the store, the forget outbox
      and the store's side of the sync; what the sync leaves alone, well-formedness, and
      the convergence of merges (memory/chunk.go, account.go, store.go, sync_outbox.go,
      store_sync.go).
    - MemorySync, MemorySyncProps: the sync lane, one run of it and its accounts
      (fleet/memory_sync.go, memory_sync_account.go).
    - AuditLog, AuditBackends, AuditLogProps: rows, the class [Backend] with its laws, the
      memory and SQL backends that fulfil them, appending, verifying, retention and the
      fleet's check of a batch (event/log, fleet/audit_chain_verifier.go).
    - Elicitation, ElicitationProps: questions, answers and the registry of pending
      asks, each critical section an operation.
    - AgentGraph: the specification types of spec.go and the graph helpers of
      kernel.go (nodesByID, bodyNodeIDs, buildEdges, descendantsInclusive, Leaves).
    - EventLog: events, the interface a log promises its clients (the classes
      [EventLog], [EventLogLaws], under which an append may fail with a prefix of its batch
      stored, and [EventLogTotal], under which it does not), the in-memory log and the SQL
      log that implement it (Modules MemLog and SqlLog, events.go and eventlog_sql.go).
    - RunState: the doom-loop guard (Module DoomLoop), the task state (Module
      TaskState), counters and the shared run state.
    - Kernel: Kernel.Run as a transition system (below), its start [kinit] and end
      [kfinish], the budget check, task-state arming.
    - KernelSafety, KernelForward: invariants of every interleaving; the
      specification of runs without rewinds and the proof that every schedule
      meets it; the potential that bounds them.
    - Rebuild: RebuildState and Resume; the writers of the task state and of the failure
      annotations as steps of their own (Section Writers): the update under the state's
      lock, the append of its event later, in any order and perhaps never; what the log
      gives back of it.
    - KernelDemo: small concrete graphs and schedules that witnesses evaluate.
    - KernelProps: the theorems about the kernel.
    - Registry: the executor registry.
    - Ladder: the escalation ladder, and any number of ladders that share one
      escalation slot.
    - Branch, BranchProps: the condition language of decision nodes: scanner,
      evaluator, comparison rules; its grammar and meaning.
    - Containers, ContainersProps: the loop and retry executors of exec_control.go,
      which fire hidden body nodes inline, and the text of adapted errors.
    - Routing: the decision and router executors and the routing rules of the edge
      check.
    - Acyclic: the validator's depth-first search for cycles.
    - Validator, ValidatorProps: the other checks, Validate, CheckEdge; what they
      guarantee, also to the kernel.
    - Gates, GatesProps: the interface AskBus with its laws, the in-memory bus and the
      per-run bus of src/core/rpc/views/agentgraph/manager.go that implement it, the ask
      and approval executors against the interface, approval verdicts.
    - Fork: the parallel executor as steps of its goroutines, and the join executor.
    - ToolArgs: reading, checking and classifying tool calls.
    - Dispatch, DispatchProps: the tool_dispatch executor as steps of its goroutines.
    - Consent, ConsentProps: the adapter in front of every tool call of a chat, with its
      audit records (kernel_tool_adapter.go, policy/cedar/risk_layer.go).
    - ToolGate, ToolGateProps: the ladders of slash commands and workflows.
    - PlanMode, PlanModeProps: the plan-mode tools over the class
      [SessionPostureManager], the stores that implement it, and the plan-mode gate.
    - Io: programs as trees of requests to their environment, their runs, and rules for
      what all runs of a program satisfy.
    - Catalog, ModelErr, ModelGates, CatalogProps: the records of models and their lookups
      (capabilities/loader.go); errors, their classes and fallback triggers (llm/errors.go,
      classifystatus.go, failure.go, fallback/chain.go, evaluator.go); requests and the
      gates they pass (llm/llm.go, capabilities/gate.go, knob_policy.go,
      registry/knob_params.go).
    - ModelReg, ModelRegProps: profiles, their table, the capability cache and its
      background refreshes as steps (llm/profile_schema.go, registry/registry.go,
      capabilities/cache.go, refresh.go).
    - ModelCall: retry policies and both retry layers (llm/retry), Stream and its audited
      and structured streams (llm/registry, llm/structured), the fallback runner
      (llm/fallback), and Generate.  ModelCallProps, ModelCallSafety, ModelCallShown,
      ModelCallRetry: how often, after what, whose text, how patiently.
    - Exposure, ExposureProps: tiers, layers, the organisation's pins, resolution, the
      segments of a call and the schema budget (toolexposure), the order of a request's
      tools (llm/prompt_cache.go).
    - LoadTools, LoadToolsProps: a session's stored exposure (session/tool_exposure.go), the
      load core, expiry, the write guard, the digest (tools/loadtools).
    - ExposureTurn, ExposureTurnProps: a turn's view of it all (chat/tool_exposure.go).
    - Watermark: the gate of automatic compaction.
    - Dials, DialsProps: settings and knobs folded into the budget, the graph and the
      policies of a run (rpc/api.go, chat_runner.go).

    ** The kernel as a transition system

    [KState] holds the variables that Run's goroutines share, and the list of live
    goroutines, each at a [Phase].  A step ([kstep]) takes one goroutine through one
    stretch of code that the source runs under the mutex or that touches no shared
    traversal map, so every interleaving of the critical sections is a sequence of
    steps; the stretch before the stale check, the one between the two critical
    sections and the waits for a semaphore slot are steps of their own.  What an
    executor returns, what it did to the run state meanwhile and the time are
    arguments of the step ([Oracle]), so theorems hold for every executor.  A
    goroutine that waits for a semaphore slot has no step.  In [kstep] a
    task-state setter and the append of its event are one step; the code updates the
    state and appends afterwards, outside the mutex, and [wstep] of Rebuild models that.

    ** What is shown

    - Kernel, every interleaving: at most one execution per node and at most
      maxInFlight goroutines; rewinds per node bounded; a run can only hang with all
      slots held by launching goroutines, and a concrete graph does; a stale result
      can overwrite a rewind; budget checks; the worklist drains; the rewind set is exact.
    - Kernel, runs without rewinds: completed and executed nodes are a function of
      the graph and of the liveness of its edges, whatever the schedule; executors run
      after all predecessors; such a run has at most nine steps a node.
    - Log: numbering, partial append of a rejected batch; replay gives back each update of
      the task state and of the failure annotations whose append has succeeded, once, and
      what is missing is exactly what has not been appended; with none missing, goal and
      sets are those of the live state.  The order of updates that raced is that of their
      appends.  Resume starts again from the entrypoints.
    - Registry, doom-loop guard, task state: functional specifications.
    - Ladder: bounded number of firings, one escalation per run, replan repeated after
      a resume.
    - Condition language: scanning and evaluation end on every text, printed
      expressions evaluate to their meaning, equality of large numbers fails.
    - Routing: live edges agree with the attributes; the anti-thrash cap; a choice
      named next loses its verdict.
    - Containers: body fires are bounded and bracketed in the log; the adapt policy
      keeps a loop going; the attempts and the backoff of a retry; error text cannot
      leave its fence.  A retry ignores pauses and restarts from partial payloads, a
      pausing loop drops the question.
    - Validator: the cycle pass decides reachability of a cycle in any node order;
      the edge check decides its declarative condition and keeps graphs acyclic; a
      validated graph without reviews, whose entrypoints have no predecessors and whose other
      nodes have one, while executors succeed, ends within nine steps a node with every
      node completed, and cannot hang with fewer than two nodes a slot; a review feeding
      back to its upstream node validates and never runs.

    - Pending questions: an accepted answer is final and reaches its waiter, deferred
      asks stay under their cap (though expired ones may fill it), a blocking ask ends by
      an answer only.
    - Human gates: a fire follows a recorded answer and decides nothing itself; a
      verdict survives its encoding and reaches the one node it is for.  The kernel runs
      the approved branch of a rejected gate all the same.
    - Fan-out: a parallel and a tool dispatch give the same results under every schedule,
      keep their limits and end; mutating tools run one at a time; a denied call never
      reaches its tool; the tool-call cap holds.  A mutating tool that panics hangs the
      dispatch.
    - Tool text: validation accepts exactly what it should but for the empty object; the
      cap keeps UTF-8 whole and accounts for every byte; the compaction gate opens exactly
      on growth.
    - Autonomy: the documented precedence, exactly; typed knobs; layers survive their
      JSON form; the tiers are ordered.  The permission mode stands in where no layer
      chooses a threshold; the settings, not the tiers, decide the turns of a run.
    - Consent: a tool runs only on an allow verdict or with consent, once, with the
      arguments of its call; a dangerous call that the policy does not allow outright needs
      Cedar's permit or a person up to threshold 81; every decision is on record; an unattended run never waits; with a
      gate wired the grants are not consulted.  The three ladders agree.
    - Ratings, grants, bus: a rating, a grant and a decision reach the call they were
      given for; names that hold the separator of a tool id break that for durable grants.
    - Plan mode: over the stores the program has it never takes effect; what these stores
      keep of a layer, its level and overrides, is loaded as it was saved.
    - Dials: caps are only ever lowered; an unattended turn asks nobody.
    - Audit log: the verifier decides the chain condition page by page; appends in the
      order of the ids keep it under interference that does; tampering needs a collision.  Ids out of order, a sweep and a
      batch of two sessions make an intact log look broken.
    - Model calls: the number of provider calls of one request is bounded, by a product of
      the two retry budgets; each call was admitted by every gate for exactly its request,
      on every retry and fallback hop, but for the one that repairs a JSON reply, which is
      asked of nobody; the text shown is that of one stream, and the answer is its reply or,
      when that did not fit its schema, the repaired one; Retry-After is kept between the
      middleware's attempts, not by the retry above it; a fallback walk passes over exactly
      the entries that do not apply, each hop with its own request, and records what it did;
      what is told as temporary is what is retried, for errors with a status.
    - Capabilities and profiles: both projections of the catalog agree, a probe changes
      only what it determined, knobs a model does not support are not sent, switched-off
      attachments pass only by a vision hint; the profile table and the table of refreshes
      are consistent under every interleaving, but a refresh outlives the eviction of its
      profile.
    - Tool exposure: a call carries only tools that may be sent, each once, those called
      this turn among them, within the budget unless only core and called tools are left;
      the budget evicts as little as it can, in its order; loading makes exactly what was
      asked for sendable, and never an off tool; a tool the gate answers as loaded may be
      sent from then on, and the next call carries it if it fits, though the budget may
      evict it; the cached prefix does not move while tools
      are loaded; a pinned tier cannot be changed from below; the load tool stays in reach;
      a used tool lives through its TTL; a fork keeps the parent's opinions.  A glob is
      checked by its first separator only, so it can reach another server's tools.
    - Memory clock: stamps order as text, parse back, and come after all that was seen,
      through restarts and recovery, while saves succeed and walls are in range; one foreign
      stamp at the end of the range breaks that.
    - Memory: the sync leaves other accounts' notes alone, ids stay distinct and totals
      exact, deliveries of records without aliases commute; a forgotten note stays
      forgotten, a reset leaves exactly the snapshot and the unsent notes of the device, a
      push sends only what may leave, an opt-out holds, a returning account
      finds its state.

    ** Bounds and fuel

    Recursion that is not structural takes fuel computed from its input, and a
    theorem shows that it is enough: the scanner (one round per character) and the
    condition parser (four levels per token; branch_evaluation_ends), the breadth-first
    walk (one round per edge and one; rewind_set_exact), the promotion worklist (the
    same; promotion_drains), the cycle search (one level per node; cycle_pass_decides),
    the JSON parser (two rounds per byte; parse_text_ends), the decoder of nested
    questions (one level per level of the value; decode_question_fuel), the page loop of
    the audit verifier (one round per row and two; verify_decides).  The pages of a pull
    and the attempts of an append are limited as in the code, to forty and sixty-four, and
    the retries and hops of a model request by its policies and the length of its chain.  The goroutines
    of a fan-out are steps, with a bound on their number (parallel_bounded_and_ends,
    dispatch_ends).
    Go ints are Z; the wall-clock arithmetic of the budget check wraps at 64 bits
    ([int64]) and so do the delays of the retry layers, token sums of a model call and the
    window's share of the schema budget; counters and definition sizes do not, since no run reaches 2^63 increments.  Costs are exact
    numbers.  A float64 in a condition is a decimal of at most 15 digits ([dec]).
    Strings are byte strings; rune-wise scans treat bytes as characters, which agrees
    with the code on ASCII delimiters.  Go map iteration orders are arguments or
    irrelevant to the statements.

    ** Not modelled

    Logging, tracing, hooks of the kernel, the recorded spec snapshot and alias events
    of a run; encoding of graphs and payloads (payloads are association lists; that
    encoding/json replaces invalid UTF-8 is in the writers of Rebuild only); transactions
    and the schema of the SQL log; node executors other than those above (branch, merge, review, planner, reflect,
    compact, model, the state executors: theorems quantify over their results); the
    attribute rules driven by node manifests (a parameter of Validate); the timers that
    resolve an unattended approval; JSON numbers as floats (a literal stays text).
    The Cedar engine and its snippet parser are third-party: a gate is a function from
    action and resource to a decision.  SHA-256, the model stream of the rater, files,
    SQL rows and clocks are arguments.  A call on the confirmation bus inside the consent
    gate is atomic with the answer it gets; the interleavings of the bus itself are those
    of ConfirmBus.  Of chat_runner.go only the dials are modelled, of api.go the knob
    resolution and the durable-grant store, of wf_adapters.go the tool gates.  Of the audit
    log, full-text search, the other selects and the archive file are left out; of memory,
    vector search, retrieval, pruning, narratives and failures of the disk; of the sync
    lane, the waiting times, the lane board and HTTP.  Of a model
    call, the adapters of the providers with their wire formats, tracing, per-chunk audit,
    costs (the estimate for tool definitions apart), the text of error messages but for the summary, the schema validator (the
    environment answers whether a reply fits), the YAML decoding of the catalog, the SQL
    cache, and the building of the request before Generate's retries are left out; an
    opened stream is its list of events with its final answer, so cancelling it half-way
    is not modelled.  Of tool exposure, the JSON columns, the settings page's views and the
    discovery of the catalog are left out; the service's lock makes each of its operations
    one step.  The other packages (storage, transport, scheduling, user interface)
    are not modelled. *)
From stdpp Require Export base tactics list gmap strings sorting.
From Stdlib Require Export ZArith Lia.

#[global] Set Default Goal Selector "1".

Declare Scope kenaz_scope.
Delimit Scope kenaz_scope with kenaz.
#[global] Open Scope kenaz_scope.

(** * Go-style fallible results *)

(** A Go pair [(T, error)]: [Ok v] is [(v, nil)], [Err e] is [(_, e)]. *)
Inductive result (A E : Type) : Type :=
| Ok (a : A)
| Err (e : E).
Arguments Ok {A E} _.
Arguments Err {A E} _.

Definition is_ok {A E} (r : result A E) : bool :=
  match r with Ok _ => true | Err _ => false end.

Definition rbind {A B E} (r : result A E) (k : A -> result B E) : result B E :=
  match r with Ok a => k a | Err e => Err e end.

Notation "'let!' x ':=' r 'in' k" := (rbind r (fun x => k))
  (at level 10, x pattern, r at level 100, k at level 200,
   format "'[v' 'let!'  x  ':='  r  'in' '/' k ']'") : kenaz_scope.

Lemma rbind_ok {A B E} (r : result A E) (k : A -> result B E) b :
  rbind r k = Ok b <-> exists a, r = Ok a /\ k a = Ok b.
Proof. destruct r; simpl; naive_solver. Qed.

(** * Go maps with a zero value *)

(** [m[k]] on a Go [map[string]int]: a missing key reads as 0. *)
Definition zget (m : gmap string Z) (k : string) : Z := default 0%Z (m !! k).

Lemma zget_insert m k v k' :
  zget (<[k:=v]> m) k' = if decide (k = k') then v else zget m k'.
Proof. unfold zget. rewrite lookup_insert. by case_decide. Qed.

Lemma zget_insert_eq m k v : zget (<[k:=v]> m) k = v.
Proof. rewrite zget_insert. by rewrite decide_True. Qed.

Lemma zget_insert_ne m k v k' : k <> k' -> zget (<[k:=v]> m) k' = zget m k'.
Proof. intros H. rewrite zget_insert. by rewrite decide_False. Qed.

(** * Machine integers *)

(** Two's-complement wrap-around to a signed 64-bit integer (Go's [int64], and
    [int] on the platforms the harness ships for). *)
Definition int64 (z : Z) : Z := ((z + 2 ^ 63) mod 2 ^ 64 - 2 ^ 63)%Z.

Lemma int64_small z : (- 2 ^ 63 <= z < 2 ^ 63)%Z -> int64 z = z.
Proof. intros H. unfold int64. rewrite Z.mod_small; lia. Qed.

Lemma int64_range z : (- 2 ^ 63 <= int64 z < 2 ^ 63)%Z.
Proof. unfold int64. pose proof (Z.mod_pos_bound (z + 2 ^ 63) (2 ^ 64)). lia. Qed.

(** * Counting in lists *)

(** Number of elements of [l] that satisfy [f]. *)
Definition countb {A} (f : A -> bool) (l : list A) : nat :=
  length (List.filter f l).

Lemma countb_nil {A} (f : A -> bool) : countb f [] = 0.
Proof. reflexivity. Qed.

Lemma countb_cons {A} (f : A -> bool) x l :
  countb f (x :: l) = (if f x then 1 else 0) + countb f l.
Proof. unfold countb. simpl. by destruct (f x). Qed.

Lemma countb_app {A} (f : A -> bool) l1 l2 :
  countb f (l1 ++ l2) = countb f l1 + countb f l2.
Proof. induction l1 as [|x l1 IH]; [done|]. rewrite <- app_comm_cons, !countb_cons, IH. lia. Qed.

Lemma countb_le_length {A} (f : A -> bool) l : countb f l <= length l.
Proof. induction l as [|x l IH]; [done|]. rewrite countb_cons. simpl. destruct (f x); lia. Qed.

Lemma countb_zero {A} (f : A -> bool) l :
  countb f l = 0 <-> forall x, x ∈ l -> f x = false.
Proof.
  induction l as [|x l IH]; [set_solver|].
  rewrite countb_cons. setoid_rewrite elem_of_cons.
  destruct (f x) eqn:Hx; split; intros H; try lia.
  - specialize (H x (or_introl eq_refl)). congruence.
  - intros y [->|Hy]; [done|]. by apply IH.
  - apply IH. naive_solver.
Qed.

Lemma countb_pos {A} (f : A -> bool) l :
  0 < countb f l <-> exists x, x ∈ l /\ f x = true.
Proof.
  induction l as [|x l IH].
  - split; [cbn; lia|]. intros (x & Hx & _). set_solver.
  - rewrite countb_cons. destruct (f x) eqn:Hx; split.
    + intros _. exists x. set_solver.
    + intros _. lia.
    + intros H. apply IH in H as (y & ? & ?). exists y. set_solver.
    + intros (y & [->|Hy]%elem_of_cons & Hf); [congruence|].
      assert (0 < countb f l) by (apply IH; eauto). lia.
Qed.

Lemma countb_ext {A} (f g : A -> bool) l :
  (forall x, x ∈ l -> f x = g x) -> countb f l = countb g l.
Proof.
  induction l as [|x l IH]; intros H; [done|].
  rewrite !countb_cons, (H x), IH; set_solver.
Qed.

Lemma countb_filter {A} (f h : A -> bool) l :
  countb f (List.filter h l) = countb (fun x => h x && f x) l.
Proof.
  induction l as [|x l IH]; [done|]. rewrite countb_cons. cbn [List.filter].
  destruct (h x); rewrite ?countb_cons, IH; done.
Qed.

Lemma countb_split {A} (f f1 f2 : A -> bool) l :
  (forall x, x ∈ l -> (if f x then 1 else 0) = (if f1 x then 1 else 0) + (if f2 x then 1 else 0)) ->
  countb f l = countb f1 l + countb f2 l.
Proof.
  induction l as [|x l IH]; intros Hx; [done|]. rewrite !countb_cons, IH, (Hx x); [lia|by left|].
  intros y Hy. apply Hx. by right.
Qed.

Lemma countb_impl {A} (f1 f2 : A -> bool) l :
  (forall x, f1 x = true -> f2 x = true) -> countb f1 l <= countb f2 l.
Proof.
  intros Hi. induction l as [|x l IH]; [done|]. rewrite !countb_cons.
  destruct (f1 x) eqn:E; [rewrite (Hi _ E)|]; lia.
Qed.

Lemma elem_of_filter_bool {A} (f : A -> bool) (l : list A) x :
  x ∈ List.filter f l <-> x ∈ l /\ f x = true.
Proof. rewrite !list_elem_of_In. apply filter_In. Qed.

Lemma filter_bool_perm {A} (f : A -> bool) (l l' : list A) : l ≡ₚ l' -> List.filter f l ≡ₚ List.filter f l'.
Proof. induction 1; cbn; repeat case_match; eauto using Permutation. Qed.

Lemma filter_bool_all {A} (f : A -> bool) (l : list A) : (forall x, x ∈ l -> f x = true) -> List.filter f l = l.
Proof. induction l as [|x l IH]; intros H; [done|]. cbn. rewrite H by by left. f_equal. apply IH. intros y Hy. apply H. by right. Qed.

Lemma filter_bool_none {A} (f : A -> bool) (l : list A) : (forall x, x ∈ l -> f x = false) -> List.filter f l = [].
Proof. induction l as [|x l IH]; intros H; [done|]. cbn. rewrite H by by left. apply IH. intros y Hy. apply H. by right. Qed.

Lemma filter_bool_ext {A} (f g : A -> bool) (l : list A) : (forall x, x ∈ l -> f x = g x) -> List.filter f l = List.filter g l.
Proof. induction l as [|x l IH]; intros H; [done|]. cbn. rewrite H, IH; [done|intros; apply H; by right|by left]. Qed.

Lemma filter_bool_filter {A} (f g : A -> bool) (l : list A) : List.filter f (List.filter g l) = List.filter (fun x => g x && f x) l.
Proof. induction l as [|x l IH]; [done|]. cbn. destruct (g x); cbn; by rewrite IH. Qed.

(** A separator that neither left part contains cuts a list in one way. *)
Lemma split_at_sep {A} (x : A) a a' b b' : x ∉ a -> x ∉ a' -> a ++ x :: b = a' ++ x :: b' -> a = a' /\ b = b'.
Proof.
  revert a'. induction a as [|c a IH]; intros [|c' a'] Ha Ha' Heq; cbn in Heq; simplify_eq; try set_solver.
  destruct (IH a') as [-> ->]; set_solver.
Qed.

(** * Small facts shared by the components *)

Lemma bool_decide_same (P Q : Prop) `{!Decision P, !Decision Q} :
  (P <-> Q) -> bool_decide P = bool_decide Q.
Proof. intros H. by apply bool_decide_ext. Qed.

(** Splits every boolean test of the goal into its two cases. *)
Ltac case_if :=
  match goal with
  | |- context [if ?b then _ else _] => destruct b eqn:?
  end.

(** Inverts hypotheses built from the [result] and [option] constructors. *)
Ltac inv_ok :=
  repeat match goal with
  | H : Ok _ = Ok _ |- _ => injection H as H; subst
  | H : Err _ = Err _ |- _ => injection H as H; subst
  | H : Some _ = Some _ |- _ => injection H as H; subst
  | H : Ok _ = Err _ |- _ => discriminate H
  | H : Err _ = Ok _ |- _ => discriminate H
  | H : Some _ = None |- _ => discriminate H
  | H : None = Some _ |- _ => discriminate H
  | H : (_, _) = (_, _) |- _ => injection H as H; subst
  end.

Create HintDb kenaz.
Create Rewrite HintDb kenaz.
#[export] Hint Resolve countb_le_length : kenaz.
#[export] Hint Rewrite @countb_nil @countb_cons @countb_app : kenaz.
#[export] Hint Rewrite zget_insert_eq : kenaz.
