(* ===== verification/GoString.v ===== *)
(** The string functions of Go's standard library that the modelled code calls,
    on byte strings.  Case folding and white space are the ASCII ones: the
    identifiers, kinds and keywords the code compares are ASCII. *)
From S2P Require Import Prelude.
From stdpp Require Export pretty.
From Stdlib Require Import Ascii String.
Open Scope string_scope.
Open Scope list_scope.

Definition list_of (s : string) : list ascii := list_ascii_of_string s.
Definition of_list (l : list ascii) : string := string_of_list_ascii l.

Lemma of_list_of s : of_list (list_of s) = s.
Proof. apply string_of_list_ascii_of_string. Qed.
Lemma list_of_of_list l : list_of (of_list l) = l.
Proof. apply list_ascii_of_string_of_list_ascii. Qed.

Lemma list_of_app s1 s2 : list_of (s1 +:+ s2) = list_of s1 ++ list_of s2.
Proof. induction s1 as [|c s1 IH]; [done|]. simpl. by rewrite <- IH. Qed.

Lemma list_of_inj s1 s2 : list_of s1 = list_of s2 -> s1 = s2.
Proof. intros H. by rewrite <- (of_list_of s1), H, of_list_of. Qed.

Lemma append_assoc (a b c : string) : (a +:+ b) +:+ c = a +:+ b +:+ c.
Proof. apply list_of_inj. by rewrite !list_of_app, app_assoc. Qed.

Lemma append_inj (a b c : string) : a +:+ b = a +:+ c -> b = c.
Proof. intros H%(f_equal list_of). rewrite !list_of_app in H. by apply list_of_inj, (app_inv_head (list_of a)). Qed.

(** Keys are joined at NUL bytes. *)
Definition nul : string := String (ascii_of_N 0) "".
Definition nul_free (s : string) : Prop := ascii_of_N 0 ∉ list_of s.

Lemma nul_cut s s' r r' : nul_free s -> nul_free s' -> s +:+ nul +:+ r = s' +:+ nul +:+ r' -> s = s' /\ r = r'.
Proof.
  intros Hs Hs' Heq%(f_equal list_of). rewrite !list_of_app in Heq. change (list_of nul) with [ascii_of_N 0] in Heq.
  cbn [app] in Heq. destruct (split_at_sep _ _ _ _ _ Hs Hs' Heq) as [H1 H2]. split; by apply list_of_inj.
Qed.

Lemma length_list_of s : List.length (list_of s) = String.length s.
Proof. induction s as [|c s IH]; [done|]. simpl. by rewrite <- IH. Qed.

(** * Character classes *)

Definition is_space (c : ascii) : bool :=
  let n := N_of_ascii c in ((9 <=? n) && (n <=? 13) || (n =? 32))%N.
Definition is_upper (c : ascii) : bool :=
  let n := N_of_ascii c in ((65 <=? n) && (n <=? 90))%N.
Definition is_lower (c : ascii) : bool :=
  let n := N_of_ascii c in ((97 <=? n) && (n <=? 122))%N.
Definition is_digit (c : ascii) : bool :=
  let n := N_of_ascii c in ((48 <=? n) && (n <=? 57))%N.
Definition lower_char (c : ascii) : ascii :=
  if is_upper c then ascii_of_N (N_of_ascii c + 32) else c.

(** [strings.ToLower] and [strings.EqualFold]. *)
Definition ToLower (s : string) : string := of_list (map lower_char (list_of s)).
Definition EqualFold (a b : string) : bool := bool_decide (ToLower a = ToLower b).

(** [strings.TrimSpace], [strings.TrimRight(s, cutset)] on one character. *)
Fixpoint drop_while (f : ascii -> bool) (l : list ascii) : list ascii :=
  match l with
  | [] => []
  | c :: l' => if f c then drop_while f l' else l
  end.
Definition drop_while_end (f : ascii -> bool) (l : list ascii) : list ascii :=
  rev (drop_while f (rev l)).
Definition TrimSpace (s : string) : string :=
  of_list (drop_while_end is_space (drop_while is_space (list_of s))).
Definition newline : ascii := ascii_of_N 10.
Definition nl : string := String newline "".
Definition TrimRightNL (s : string) : string :=
  of_list (drop_while_end (fun c => bool_decide (c = newline)) (list_of s)).

(** [strings.Join] *)
Fixpoint Join (l : list string) (sep : string) : string :=
  match l with
  | [] => ""
  | [s] => s
  | s :: l' => s +:+ sep +:+ Join l' sep
  end.

(** [strings.HasPrefix], [strings.HasSuffix], [strings.Contains] *)
Fixpoint prefixb (p l : list ascii) : bool :=
  match p, l with
  | [], _ => true
  | c :: p, d :: l => bool_decide (c = d) && prefixb p l
  | _ :: _, [] => false
  end.
Definition HasPrefix (s p : string) : bool := prefixb (list_of p) (list_of s).
Definition HasSuffix (s p : string) : bool := prefixb (rev (list_of p)) (rev (list_of s)).
Fixpoint infixb (p l : list ascii) : bool :=
  prefixb p l || match l with [] => false | _ :: l => infixb p l end.
Definition Contains (s p : string) : bool := infixb (list_of p) (list_of s).

(** [fmt]'s %d and %q.  %q escapes the quote, the backslash and the control
    characters Go names; the other bytes are taken to be printable. *)
Definition fmt_d (z : Z) : string := pretty z.
Definition quote_char (c : ascii) : string :=
  let n := N_of_ascii c in
  if (n =? 34)%N then String (ascii_of_N 92) (String c "")
  else if (n =? 92)%N then String c (String c "")
  else if (n =? 10)%N then "\n" else if (n =? 9)%N then "\t" else if (n =? 13)%N then "\r"
  else String c "".
Definition dquote : string := String (ascii_of_N 34) "".
Definition fmt_q (s : string) : string :=
  dquote +:+ String.concat "" (map quote_char (list_of s)) +:+ dquote.

(** [sort.Strings] *)
Definition sort_strings (l : list string) : list string := merge_sort String.le l.

Lemma sort_strings_perm l : sort_strings l ≡ₚ l.
Proof. apply merge_sort_Permutation. Qed.

Lemma elem_of_sort_strings x l : x ∈ sort_strings l <-> x ∈ l.
Proof. by rewrite (sort_strings_perm l). Qed.

Lemma prefixb_spec p l : prefixb p l = true <-> exists k, l = p ++ k.
Proof.
  revert l. induction p as [|c p IH]; intros [|d l]; simpl; split; try naive_solver.
  - rewrite andb_true_iff, bool_decide_eq_true, IH. intros [-> [k ->]]. by exists k.
  - intros [k [= -> ->]]. rewrite andb_true_iff, bool_decide_eq_true, IH. eauto.
Qed.

Lemma HasPrefix_spec s p : HasPrefix s p = true <-> exists k, s = p +:+ k.
Proof.
  unfold HasPrefix. rewrite prefixb_spec. split.
  - intros [k H]. exists (of_list k). apply list_of_inj. by rewrite list_of_app, list_of_of_list.
  - intros [k ->]. exists (list_of k). apply list_of_app.
Qed.

Lemma drop_while_id f l : (forall c, c ∈ l -> f c = false) -> drop_while f l = l.
Proof. destruct l as [|c l]; intros H; [done|]. simpl. by rewrite H by set_solver. Qed.
