(* ===== verification/Utf8.v ===== *)
(** UTF-8 as Go's [unicode/utf8] and [range] read it: the first and the last rune of
    a byte string, well-formed text, and the cuts that respect rune boundaries. *)
From S2P Require Import Prelude GoString.
From Stdlib Require Import Ascii.
Open Scope list_scope.

(** * Byte classes *)

Definition in_range (lo hi : N) (c : ascii) : bool := let n := N_of_ascii c in (lo <=? n)%N && (n <=? hi)%N.
Definition cont : ascii -> bool := in_range 128 191.
Definition lead2 (a b : ascii) : bool := in_range 194 223 a && cont b.
Definition lead3 (a b : ascii) : bool :=
  in_range 224 224 a && in_range 160 191 b || in_range 225 236 a && cont b ||
  in_range 237 237 a && in_range 128 159 b || in_range 238 239 a && cont b.
Definition lead4 (a b : ascii) : bool :=
  in_range 240 240 a && in_range 144 191 b || in_range 241 243 a && cont b || in_range 244 244 a && in_range 128 143 b.

(** [utf8.RuneError] as bytes. *)
Definition rune_error : list ascii := map ascii_of_N [239; 191; 189]%N.

(** Width of the well-formed sequence a text starts with; 0 when there is none. *)
Definition rune_width (l : list ascii) : nat :=
  match l with
  | [] => 0
  | a :: r1 =>
      if in_range 0 127 a then 1
      else match r1 with
           | [] => 0
           | b :: r2 =>
               if lead2 a b then 2
               else match r2 with
                    | [] => 0
                    | c :: r3 =>
                        if lead3 a b && cont c then 3
                        else match r3 with
                             | [] => 0
                             | d :: _ => if lead4 a b && cont c && cont d then 4 else 0
                             end
                    end
           end
  end.

(** What [range] over a string reads and [WriteRune] writes back: well-formed UTF-8
    as it is, and U+FFFD for every byte that starts no valid sequence. *)
Fixpoint range_bytes (l : list ascii) : list ascii :=
  match l with
  | [] => []
  | a :: r1 =>
      if in_range 0 127 a then a :: range_bytes r1
      else match r1 with
           | b :: r2 =>
               if lead2 a b then a :: b :: range_bytes r2
               else match r2 with
                    | c :: r3 =>
                        if lead3 a b && cont c then a :: b :: c :: range_bytes r3
                        else match r3 with
                             | d :: r4 =>
                                 if lead4 a b && cont c && cont d then a :: b :: c :: d :: range_bytes r4
                                 else rune_error ++ range_bytes r1
                             | [] => rune_error ++ range_bytes r1
                             end
                    | [] => rune_error ++ range_bytes r1
                    end
           | [] => rune_error ++ range_bytes r1
           end
  end.

(** One well-formed sequence. *)
Definition rune (p : list ascii) : bool := negb (bool_decide (p = [])) && Nat.eqb (rune_width p) (length p).

(** Well-formed text. *)
Inductive utf8 : list ascii -> Prop :=
| utf8_nil : utf8 []
| utf8_rune p l : rune p = true -> utf8 l -> utf8 (p ++ l).

(** * Decoding at the two ends *)

(** [utf8.RuneStart] *)
Definition RuneStart (c : ascii) : bool := negb (cont c).

(** [DecodeRuneInString]: the bytes of the first rune, or an error and the width it
    consumes. *)
Definition DecodeRune (l : list ascii) : option (list ascii) * nat :=
  match l with
  | [] => (None, 0)
  | _ => match rune_width l with 0 => (None, 1) | w => (Some (take w l), w) end
  end.

(** The backward search of [DecodeLastRuneInString]: the start it settles on, at most
    [steps] bytes before [start]. *)
Fixpoint last_start (l : list ascii) (steps start : nat) : nat :=
  match steps with
  | 0 => start - 1
  | S steps => match start with
               | 0 => 0
               | S p => match nth_error l p with
                        | Some c => if RuneStart c then p else last_start l steps p
                        | None => p
                        end
               end
  end.

(** [DecodeLastRuneInString] *)
Definition DecodeLastRune (l : list ascii) : option (list ascii) * nat :=
  match last l with
  | None => (None, 0)
  | Some c =>
      if in_range 0 127 c then (Some [c], 1)
      else
        let start := last_start l 3 (length l - 1) in
        let '(r, size) := DecodeRune (drop start l) in
        if Nat.eqb (start + size) (length l) then (r, size) else (None, 1)
  end.

(** * Facts *)

Lemma rune_error_rune : rune rune_error = true.
Proof. reflexivity. Qed.

Lemma rune_width_le l : rune_width l <= length l.
Proof.
  unfold rune_width. destruct l as [|a [|b [|c [|d l]]]]; cbn; repeat case_match; lia.
Qed.

Lemma rune_width_take l : rune_width (take (rune_width l) l) = rune_width l.
Proof.
  destruct l as [|a [|b [|c [|d l]]]]; cbn; repeat (case_match; cbn; try done);
    repeat match goal with H : ?x = true |- context [?x] => rewrite H end; done.
Qed.

Lemma rune_take l : rune_width l <> 0 -> rune (take (rune_width l) l) = true.
Proof.
  intros H. unfold rune. rewrite rune_width_take, length_take, Nat.min_l by apply rune_width_le.
  rewrite Nat.eqb_refl, andb_true_r, negb_true_iff, bool_decide_eq_false.
  intros He. apply (f_equal length) in He. rewrite length_take in He. pose proof (rune_width_le l). cbn in He. lia.
Qed.

Lemma rune_width_app p l : rune p = true -> rune_width (p ++ l) = length p.
Proof.
  unfold rune. rewrite andb_true_iff, negb_true_iff, bool_decide_eq_false. intros [Hne Hw%Nat.eqb_eq].
  destruct p as [|a [|b [|c [|d [|e p]]]]]; [done|..]; cbn in *;
    repeat (case_match; cbn in *; try done);
    repeat match goal with H : ?x = true, H' : ?x = false |- _ => congruence end.
Qed.

Lemma range_bytes_step l : l <> [] ->
  range_bytes l = match rune_width l with
                  | 0 => rune_error ++ range_bytes (tail l)
                  | w => take w l ++ range_bytes (drop w l)
                  end.
Proof.
  intros Hl. destruct l as [|a [|b [|c [|d l]]]]; [done|..]; cbn [range_bytes rune_width tail];
    repeat (case_match; try done).
Qed.

Lemma range_bytes_rune p l : rune p = true -> range_bytes (p ++ l) = p ++ range_bytes l.
Proof.
  intros Hp. pose proof (rune_width_app p l Hp) as Hw. rewrite range_bytes_step.
  - rewrite Hw. destruct p as [|a p]; [done|]. cbn [length].
    change (S (length p)) with (length (a :: p)). by rewrite take_app_length, drop_app_length.
  - destruct p; [done|]. done.
Qed.

Lemma range_bytes_id l : utf8 l -> range_bytes l = l.
Proof. induction 1 as [|p l Hp Hl IH]; [done|]. by rewrite range_bytes_rune, IH. Qed.

Lemma utf8_app l1 l2 : utf8 l1 -> utf8 l2 -> utf8 (l1 ++ l2).
Proof. induction 1 as [|p l Hp Hl IH]; [done|]. intros H2. rewrite <- app_assoc. by constructor; [|apply IH]. Qed.

Lemma utf8_one p : rune p = true -> utf8 p.
Proof. intros Hp. rewrite <- (app_nil_r p). by constructor; [|constructor]. Qed.

(** What [range] writes back is well-formed, whatever it read. *)
Lemma range_bytes_utf8 l : utf8 (range_bytes l).
Proof.
  induction l as [l IH] using (induction_ltof1 _ (@length ascii)). unfold ltof in IH.
  destruct l as [|a l]; [constructor|]. rewrite range_bytes_step by done.
  destruct (rune_width (a :: l)) as [|w] eqn:Hw.
  - constructor; [apply rune_error_rune|]. apply IH. cbn. lia.
  - constructor; [rewrite <- Hw; apply rune_take; lia|]. apply IH. rewrite length_drop. cbn. lia.
Qed.

Lemma utf8_iff l : utf8 l <-> range_bytes l = l.
Proof. split; [apply range_bytes_id|]. intros <-. apply range_bytes_utf8. Qed.

#[export] Instance utf8_dec l : Decision (utf8 l).
Proof. refine (cast_if (decide (range_bytes l = l))); by rewrite utf8_iff. Defined.

(** ** The shape of a rune *)

Lemma in_range_spec lo hi c : in_range lo hi c = true <-> (lo <= N_of_ascii c <= hi)%N.
Proof. unfold in_range. rewrite andb_true_iff, !N.leb_le. lia. Qed.

Lemma in_range_false lo hi lo' hi' c : (hi < lo' \/ hi' < lo)%N -> in_range lo hi c = true -> in_range lo' hi' c = false.
Proof. intros Hr Hc%in_range_spec. apply not_true_iff_false. rewrite in_range_spec. lia. Qed.

Lemma in_range_weaken lo hi lo' hi' c : (lo' <= lo)%N -> (hi <= hi')%N -> in_range lo hi c = true -> in_range lo' hi' c = true.
Proof. rewrite !in_range_spec. lia. Qed.

Lemma lead_shape a b :
  lead2 a b || lead3 a b || lead4 a b = true -> cont b = true /\ in_range 194 244 a = true.
Proof.
  unfold lead2, lead3, lead4, cont. rewrite !orb_true_iff, !andb_true_iff, !in_range_spec. lia.
Qed.

Lemma rune_shape p : rune p = true ->
  exists a q, p = a :: q /\ Forall (fun c => cont c = true) q /\ length q <= 3 /\
  (q = [] /\ in_range 0 127 a = true \/ q <> [] /\ in_range 194 244 a = true).
Proof.
  unfold rune. rewrite andb_true_iff, negb_true_iff, bool_decide_eq_false. intros [Hne Hw%Nat.eqb_eq].
  pose proof (lead_shape) as Hs.
  destruct p as [|a [|b [|c [|d [|e p]]]]]; [done|..]; cbn in Hw;
    (repeat (case_match; try done)); exists a; eexists; (split; [done|]);
    try specialize (Hs a b);
    repeat match goal with
           | H : lead2 a b = ?x |- _ => rewrite H in Hs; clear H
           | H : lead3 a b && _ = true |- _ => apply andb_true_iff in H as [H ?]; rewrite H in Hs; clear H
           | H : lead4 a b && _ && _ = true |- _ =>
               apply andb_true_iff in H as [H ?]; apply andb_true_iff in H as [H ?]; rewrite H in Hs; clear H
           end;
    rewrite ?orb_true_r, ?orb_true_l in Hs; try (specialize (Hs eq_refl) as [? ?]);
    (split; [by repeat constructor|]); (split; [cbn; lia|]); naive_solver.
Qed.

Lemma RuneStart_lead a : in_range 0 127 a = true \/ in_range 194 244 a = true -> RuneStart a = true.
Proof.
  intros H. unfold RuneStart, cont. apply negb_true_iff.
  destruct H as [H|H]; (eapply in_range_false; [|exact H]); lia.
Qed.

(** The backward search stops at a lead byte within reach. *)
Lemma last_start_lead l a q steps :
  RuneStart a = true -> Forall (fun c => cont c = true) q -> q <> [] -> length q <= steps ->
  forall more, last_start (l ++ a :: q ++ more) steps (length l + length q) = length l.
Proof.
  intros Ha. revert steps. induction q as [|c q IH] using rev_ind; [done|]. intros steps Hq _ Hlen more.
  rewrite length_app in *. cbn [length] in *. apply Forall_app in Hq as [Hq Hc].
  destruct steps as [|steps]; [lia|]. replace (length l + (length q + 1)) with (S (length l + length q)) by lia.
  cbn [last_start].
  destruct q as [|d q] using rev_ind; [|clear IHq].
  - cbn. rewrite Nat.add_0_r. rewrite nth_error_app2, Nat.sub_diag by lia. cbn. by rewrite Ha.
  - apply Forall_app in Hq as [Hq Hd]. apply Forall_cons_1 in Hd as [Hd _].
    rewrite length_app. cbn [length].
    replace (nth_error (l ++ a :: ((q ++ [d]) ++ [c]) ++ more) (length l + (length q + 1))) with (Some d).
    + unfold RuneStart. rewrite Hd. cbn [negb].
      rewrite <- (app_assoc (q ++ [d])). replace (length q + 1) with (length (q ++ [d])) by (rewrite length_app; cbn; lia).
      apply IH; [by apply Forall_app; split; [|constructor]|by destruct q|rewrite length_app in *; cbn in *; lia].
    + rewrite nth_error_app2 by lia. replace (length l + (length q + 1) - length l) with (S (length q)) by lia.
      cbn. rewrite <- !app_assoc. rewrite nth_error_app2, Nat.sub_diag by lia. done.
Qed.

Lemma last_app_cons {A} (l : list A) x q : last (l ++ x :: q) = last (x :: q).
Proof. by rewrite last_app_cons. Qed.

Lemma last_cont a q : q <> [] -> Forall (fun c => cont c = true) q ->
  exists c, last (a :: q) = Some c /\ cont c = true.
Proof.
  intros Hq Hf. destruct q as [|c q] using rev_ind; [done|]. clear IHq.
  apply Forall_app in Hf as [_ [Hc _]%Forall_cons_1]. exists c. split; [|done].
  change (a :: q ++ [c]) with ((a :: q) ++ [c]). apply last_snoc.
Qed.

Lemma cont_not_ascii c : cont c = true -> in_range 0 127 c = false.
Proof. apply in_range_false. lia. Qed.

(** The last rune of a text that ends with one. *)
Lemma decode_last_whole l p : rune p = true -> DecodeLastRune (l ++ p) = (Some p, length p).
Proof.
  intros Hp. pose proof (rune_width_app p [] Hp) as Hw. rewrite app_nil_r in Hw.
  destruct (rune_shape p Hp) as (a & q & -> & Hq & Hlen & Hcase). unfold DecodeLastRune.
  rewrite last_app_cons. destruct Hcase as [[-> Ha]|[Hne Ha]]; [cbn; by rewrite Ha|].
  destruct (last_cont a q Hne Hq) as (c & -> & Hc). rewrite (cont_not_ascii c Hc).
  assert (length (l ++ a :: q) - 1 = length l + length q) as -> by (rewrite length_app; cbn; lia).
  pose proof (last_start_lead l a q 3 (RuneStart_lead a (or_intror Ha)) Hq Hne Hlen []) as Hs.
  rewrite app_nil_r in Hs. rewrite Hs, drop_app_length. unfold DecodeRune. rewrite Hw. cbn [length].
  rewrite firstn_all2 by (cbn; lia). rewrite length_app. cbn [length]. by rewrite Nat.eqb_refl.
Qed.

Lemma rune_width_partial p k : rune p = true -> 0 < k < length p -> rune_width (take k p) = 0.
Proof.
  unfold rune. rewrite andb_true_iff, negb_true_iff, bool_decide_eq_false. intros [_ Hw%Nat.eqb_eq] Hk.
  destruct p as [|a [|b [|c [|d [|e p]]]]]; cbn in Hw, Hk; try lia;
    (repeat (case_match; cbn in *; try lia));
    destruct k as [|[|[|[|k]]]]; try lia; cbn;
    repeat match goal with H : ?x = _ |- context [?x] => rewrite H end; try done;
    repeat (case_match; try done).
Qed.

(** A text cut inside its last rune ends in no rune. *)
Lemma decode_last_partial l p k :
  rune p = true -> 0 < k < length p -> (DecodeLastRune (l ++ take k p)).1 = None.
Proof.
  intros Hp Hk. pose proof (rune_width_partial p k Hp Hk) as Hw.
  destruct (rune_shape p Hp) as (a & q & -> & Hq & Hlen & Hcase).
  destruct Hcase as [[-> _]|[_ Ha]]; [cbn in Hk; lia|].
  destruct k as [|k]; [lia|]. cbn [take] in *. cbn [length] in Hk.
  assert (Forall (fun c => cont c = true) (take k q)) as Hqk by by apply Forall_take.
  unfold DecodeLastRune. rewrite last_app_cons.
  destruct k as [|k].
  - rewrite take_0 in *. change (last [a]) with (Some a). cbv iota beta. rewrite (in_range_false 194 244 0 127 a) by (done || lia).
    set (s := last_start _ _ _). unfold DecodeRune.
    destruct (drop s (l ++ [a])) as [|x y] eqn:Hd; [by case_match|].
    destruct (rune_width (x :: y)) as [|w] eqn:Hxy; [by case_match|].
    destruct (Nat.eqb_spec (s + S w) (length (l ++ [a]))) as [He|]; [|done]. exfalso.
    assert (length (x :: y) = S w) as Hl.
    { rewrite <- Hd, length_drop, <- He. lia. }
    assert (rune (x :: y) = true) as Hr.
    { rewrite <- (firstn_all (x :: y)), Hl, <- Hxy. apply rune_take. lia. }
    assert (last (x :: y) = Some a) as Hlast.
    { pose proof (last_snoc a l) as Hs. rewrite <- (take_drop s (l ++ [a])), Hd, last_app_cons in Hs. exact Hs. }
    destruct (rune_shape _ Hr) as (x' & y' & [= <- <-] & Hy & _ & [[-> Hx]|[Hne _]]).
    + cbn in Hlast. injection Hlast as ->. rewrite (in_range_false 194 244 0 127 a) in Hx by (done || lia). done.
    + destruct (last_cont x y Hne Hy) as (c & Hc & Hcc). rewrite Hc in Hlast. injection Hlast as ->.
      unfold cont in Hcc. rewrite (in_range_false 194 244 128 191 a) in Hcc by (done || lia). done.
  - assert (take (S k) q <> []) as Hne by (destruct q; [cbn in Hk; lia|done]).
    destruct (last_cont a _ Hne Hqk) as (c & -> & Hc). rewrite (cont_not_ascii c Hc).
    assert (length (l ++ a :: take (S k) q) - 1 = length l + length (take (S k) q)) as -> by (rewrite length_app; cbn [length]; lia).
    pose proof (last_start_lead l a _ 3 (RuneStart_lead a (or_intror Ha)) Hqk Hne) as Hs.
    rewrite length_take in Hs. specialize (Hs ltac:(lia) []). rewrite app_nil_r, <- length_take in Hs.
    rewrite Hs, drop_app_length. cbn [DecodeRune]. rewrite Hw. by case_match.
Qed.

(** ** Prefixes of well-formed text *)

(** Every cut of a well-formed text is a well-formed text and a proper part of a rune. *)
Lemma utf8_cut l n : utf8 l ->
  exists a p k, utf8 a /\ rune p = true /\ k < length p /\ take n l = a ++ take k p /\
    (n < length l -> n = length a + k).
Proof.
  intros Hl. revert n. induction Hl as [|p l Hp Hl IH]; intros n.
  - exists [], rune_error, 0. split_and!; [constructor|done|cbn; lia|by rewrite take_nil, take_0|cbn; lia].
  - destruct (decide (n < length p)) as [Hn|Hn].
    + exists [], p, n. split_and!; [constructor|done|done|by rewrite take_app_le by lia|done].
    + destruct (IH (n - length p)) as (a & p' & k & Ha & Hp' & Hk & Ht & Hnl).
      exists (p ++ a), p', k. split_and!; [by constructor|done|done| |].
      * rewrite take_app_ge by lia. by rewrite Ht, app_assoc.
      * rewrite !length_app. intros. lia.
Qed.

Lemma decode_first_whole p l : rune p = true -> DecodeRune (p ++ l) = (Some p, length p).
Proof.
  intros Hp. pose proof (rune_width_app p l Hp) as Hw. unfold DecodeRune.
  destruct p as [|a p]; [done|]. cbn [app]. change (a :: p ++ l) with ((a :: p) ++ l). rewrite Hw.
  cbn [length]. change (S (length p)) with (length (a :: p)). by rewrite take_app_length.
Qed.

Lemma decode_first_cont c l : cont c = true -> DecodeRune (c :: l) = (None, 1).
Proof.
  intros Hc. assert (rune_width (c :: l) = 0) as Hw; [|by unfold DecodeRune; rewrite Hw].
  assert (forall lo hi, (hi < 128 \/ 191 < lo)%N -> in_range lo hi c = false) as Hf.
  { intros lo hi Hr. unfold cont in Hc. apply (in_range_false 128 191); [lia|done]. }
  cbn [rune_width]. rewrite Hf by lia. destruct l as [|b [|d [|e l]]]; [done|..];
    unfold lead2, lead3, lead4; rewrite !Hf by lia; done.
Qed.

Lemma Forall_drop {A} (P : A -> Prop) n l : Forall P l -> Forall P (drop n l).
Proof. by apply Forall_drop. Qed.

(** Every cut of a well-formed text leaves at most three continuation bytes before
    well-formed text. *)
Lemma utf8_cut_suffix l n : utf8 l ->
  exists q b, utf8 b /\ Forall (fun c => cont c = true) q /\ length q <= 3 /\ drop n l = q ++ b.
Proof.
  intros Hl. revert n. induction Hl as [|p l Hp Hl IH]; intros n.
  - exists [], []. split_and!; [constructor|constructor|cbn; lia|by rewrite drop_nil].
  - destruct (decide (n < length p)) as [Hn|Hn].
    + destruct n as [|n].
      { exists [], (p ++ l). split_and!; [by constructor|constructor|cbn; lia|done]. }
      exists (drop (S n) p), l. rewrite drop_app_le by lia.
      destruct (rune_shape p Hp) as (a & q & -> & Hq & Hlen & _). cbn [drop].
      split_and!; [done|by apply Forall_drop|rewrite length_drop; lia|done].
    + destruct (IH (n - length p)) as (q & b & Hb & Hq & Hlen & Hd).
      exists q, b. split_and!; [done|done|done|]. by rewrite drop_app_ge by lia.
Qed.

(** ** ASCII text *)

Definition is_ascii (c : ascii) : bool := in_range 0 127 c.

Lemma rune_ascii c : is_ascii c = true -> rune [c] = true.
Proof. intros Hc. unfold rune. cbn. unfold is_ascii in Hc. by rewrite Hc. Qed.

Lemma utf8_ascii l : Forall (fun c => is_ascii c = true) l -> utf8 l.
Proof.
  induction 1 as [|c l Hc Hl IH]; [constructor|]. change (c :: l) with ([c] ++ l).
  constructor; [by apply rune_ascii|done].
Qed.

(** Text taken apart from the front. *)
Lemma utf8_cons_ascii c l : is_ascii c = true -> utf8 (c :: l) <-> utf8 l.
Proof.
  intros Hc. rewrite !utf8_iff. cbn [range_bytes]. unfold is_ascii in Hc. rewrite Hc.
  split; [by intros [=]|by intros ->].
Qed.

Lemma utf8_last l : utf8 l -> l = [] \/ exists a p, utf8 a /\ rune p = true /\ l = a ++ p.
Proof.
  induction 1 as [|p l Hp Hl [->|(a & q & Ha & Hq & ->)]]; [by left|right..].
  - exists [], p. split_and!; [constructor|done|by rewrite app_nil_r].
  - exists (p ++ a), q. split_and!; [by constructor|done|by rewrite app_assoc].
Qed.

Lemma DecodeRune_none l size : DecodeRune l = (None, size) -> size <= 1.
Proof. unfold DecodeRune. destruct l; [by intros [= <-]; lia|]. case_match; intros [= <-]. lia. Qed.

Lemma DecodeLastRune_none l size : DecodeLastRune l = (None, size) -> size <= 1.
Proof.
  unfold DecodeLastRune. destruct (last l) as [c|]; [|intros [= <-]; lia].
  case_if; [done|]. destruct (DecodeRune _) as [r n] eqn:Hd.
  case_if; [|intros [= <-]; lia]. intros [= -> ->]. by eapply DecodeRune_none.
Qed.
