(* ===== verification/ToolOutput.v ===== *)
(** The byte cap on tool results (core/agentgraph/tool_output_cap.go): head and tail
    are kept on rune boundaries, the elided middle is replaced by a marker that says
    how much is missing and where the full output went. *)
From S2P Require Import Prelude GoString Utf8.
From Stdlib Require Import Ascii.
Open Scope Z_scope.

Definition DefaultToolResultMaxBytes : Z := 64 * 1024.
Definition DefaultToolResultHeadBytes : Z := 24 * 1024.
Definition DefaultToolResultTailBytes : Z := 40 * 1024.

Record ToolResultCap := { MaxBytes : Z; HeadBytes : Z; TailBytes : Z }.

(** The maximum, the head and the tail budget, and whether the cap is active.  Sums
    and products wrap as Go's [int] does. *)
Definition resolved (c : ToolResultCap) : Z * Z * Z * bool :=
  if MaxBytes c <? 0 then (0, 0, 0, false)
  else
    let maxBytes := if MaxBytes c =? 0 then DefaultToolResultMaxBytes else MaxBytes c in
    let head := if HeadBytes c =? 0 then DefaultToolResultHeadBytes else HeadBytes c in
    let tail := if TailBytes c =? 0 then DefaultToolResultTailBytes else TailBytes c in
    let head := if head <? 0 then 0 else head in
    let tail := if tail <? 0 then 0 else tail in
    if maxBytes <? int64 (head + tail) then
      let total := int64 (head + tail) in
      let head := Z.quot (int64 (maxBytes * head)) total in
      (maxBytes, head, maxBytes - head, true)
    else (maxBytes, head, tail, true).

Definition Exceeds (c : ToolResultCap) (n : Z) : bool :=
  let '(maxBytes, _, _, active) := resolved c in active && (maxBytes <? n).

Definition bytes (s : string) : Z := Z.of_nat (length (list_of s)).

(** [utf8.UTFMax] rounds of dropping the last byte while no rune ends there. *)
Fixpoint back_off (rounds : nat) (cut : list ascii) : list ascii :=
  match rounds with
  | 0%nat => cut
  | S rounds =>
      match cut with
      | [] => cut
      | _ => match DecodeLastRune cut with
             | (Some _, _) => cut
             | (None, size) => if Nat.ltb 1 size then cut else back_off rounds (removelast cut)
             end
      end
  end.

Fixpoint back_on (rounds : nat) (cut : list ascii) : list ascii :=
  match rounds with
  | 0%nat => cut
  | S rounds =>
      match cut with
      | [] => cut
      | _ => match DecodeRune cut with
             | (Some _, _) => cut
             | (None, size) => if Nat.ltb 1 size then cut else back_on rounds (tail cut)
             end
      end
  end.

Definition UTFMax : nat := 4.

Definition safeUTF8Prefix (s : list ascii) (n : Z) : list ascii :=
  if Z.of_nat (length s) <=? n then s else back_off UTFMax (take (Z.to_nat n) s).

Definition safeUTF8Suffix (s : list ascii) (n : Z) : list ascii :=
  if Z.of_nat (length s) <=? n then s else back_on UTFMax (drop (length s - Z.to_nat n) s).

Definition toolResultElisionMarker (total head tail elided : Z) (handle : string) : string :=
  let recovery :=
    if bool_decide (handle = "") then "The elided bytes were not retained and cannot be recovered."
    else "The full " +:+ fmt_d total +:+ "-byte output is stored under handle " +:+ fmt_q handle +:+
         " — re-read it with read_bash_output (bash_run_id=" +:+ fmt_q handle +:+
         ") if you need the elided region." in
  nl +:+ nl +:+ "[... tool output truncated by the harness: " +:+ fmt_d total +:+ " bytes total, " +:+
  fmt_d (head + tail) +:+ " retained (first " +:+ fmt_d head +:+ " + last " +:+ fmt_d tail +:+ "), " +:+
  fmt_d elided +:+ " elided. " +:+ recovery +:+ " ...]" +:+ nl +:+ nl.

(** [ToolResultCap.Apply] *)
Definition Apply (c : ToolResultCap) (content handle : string) : string * Z :=
  let '(maxBytes, head, tail, active) := resolved c in
  let n := bytes content in
  if negb active || (n <=? maxBytes) then (content, 0)
  else
    let head := Z.min head n in
    let tail := Z.min tail (n - head) in
    let h := safeUTF8Prefix (list_of content) head in
    let t := safeUTF8Suffix (list_of content) tail in
    let elided := n - Z.of_nat (length h) - Z.of_nat (length t) in
    if elided <=? 0 then (content, 0)
    else (of_list h +:+ toolResultElisionMarker n (Z.of_nat (length h)) (Z.of_nat (length t)) elided handle +:+
          of_list t, elided).

Record ToolOutputRef := { to_RunID : string; to_NodeID : string; to_Tool : string; to_CallID : string }.

(** [capToolOutput]: archive first, truncate second.  The archive is a parameter; the
    result is the output, the elided bytes, the handle and the archive's error. *)
Definition capToolOutput {X} (c : ToolResultCap) (archive : option (ToolOutputRef -> string -> X -> X * result string string))
    (ref : ToolOutputRef) (content : string) (w : X) : X * (string * Z * string * option string) :=
  if negb (Exceeds c (bytes content)) then (w, (content, 0, "", None))
  else
    let '(w, handle, err) :=
      match archive with
      | None => (w, "", None)
      | Some f => match f ref content w with
                  | (w, Ok h) => (w, h, None)
                  | (w, Err e) => (w, "", Some e)
                  end
      end in
    let '(out, elided) := Apply c content handle in
    (w, (out, elided, handle, err)).

(** * The budget *)

Definition small_cap (c : ToolResultCap) : Prop :=
  MaxBytes c < 2 ^ 31 /\ HeadBytes c < 2 ^ 31 /\ TailBytes c < 2 ^ 31.

Lemma resolved_budget c maxBytes head tail active :
  small_cap c -> resolved c = (maxBytes, head, tail, active) ->
  0 <= head /\ 0 <= tail /\ head + tail <= maxBytes.
Proof.
  intros (Hm & Hh & Ht). unfold resolved, DefaultToolResultMaxBytes, DefaultToolResultHeadBytes, DefaultToolResultTailBytes.
  destruct (Z.ltb_spec (MaxBytes c) 0); [intros [= <- <- <- <-]; lia|].
  set (m := if MaxBytes c =? 0 then _ else _). set (h := if HeadBytes c =? 0 then _ else _).
  set (t := if TailBytes c =? 0 then _ else _).
  assert (0 <= m < 2 ^ 31) by (subst m; case_if; lia).
  set (h' := if h <? 0 then 0 else h). set (t' := if t <? 0 then 0 else t).
  assert (0 <= h' < 2 ^ 31) by (subst h' h; repeat case_if; lia).
  assert (0 <= t' < 2 ^ 31) by (subst t' t; repeat case_if; lia).
  clearbody m h' t'. rewrite int64_small by lia. rewrite int64_small by nia.
  destruct (Z.ltb_spec m (h' + t')); intros [= <- <- <- <-]; [|lia].
  pose proof (Z.quot_pos (m * h') (h' + t')) as Hq.
  assert (Z.quot (m * h') (h' + t') <= m); [|lia].
  rewrite Z.quot_div_nonneg by nia. apply Z.div_le_upper_bound; nia.
Qed.

(** * Cuts *)

Lemma back_off_prefix rounds cut : exists k, back_off rounds cut = take k cut.
Proof.
  revert cut. induction rounds as [|rounds IH]; intros cut; cbn [back_off].
  { exists (length cut). by rewrite firstn_all. }
  destruct cut as [|c cut]; [by exists 0%nat|].
  destruct (DecodeLastRune _) as [[r|] size]; [by exists (length (c :: cut)); rewrite firstn_all|].
  case_if; [by exists (length (c :: cut)); rewrite firstn_all|].
  destruct (IH (removelast (c :: cut))) as [k ->]. rewrite removelast_firstn_len, take_take. by eexists.
Qed.

Lemma back_on_suffix rounds cut : exists k, back_on rounds cut = drop k cut.
Proof.
  revert cut. induction rounds as [|rounds IH]; intros cut; cbn [back_on]; [by exists 0%nat|].
  destruct cut as [|c cut]; [by exists 0%nat|].
  destruct (DecodeRune _) as [[r|] size]; [by exists 0%nat|].
  case_if; [by exists 0%nat|].
  destruct (IH (tail (c :: cut))) as [k ->]. exists (S k). done.
Qed.

Lemma prefix_is_prefix s n : exists k, safeUTF8Prefix s n = take k s.
Proof.
  unfold safeUTF8Prefix. case_if; [by exists (length s); rewrite firstn_all|].
  destruct (back_off_prefix UTFMax (take (Z.to_nat n) s)) as [k ->]. rewrite take_take. by eexists.
Qed.

Lemma prefix_length s n : 0 <= n -> Z.of_nat (length (safeUTF8Prefix s n)) <= n.
Proof.
  intros Hn. unfold safeUTF8Prefix. case_if; [lia|].
  destruct (back_off_prefix UTFMax (take (Z.to_nat n) s)) as [k ->]. rewrite !length_take. lia.
Qed.

Lemma suffix_is_suffix s n : exists k, safeUTF8Suffix s n = drop k s.
Proof.
  unfold safeUTF8Suffix. case_if; [by exists 0%nat|].
  destruct (back_on_suffix UTFMax (drop (length s - Z.to_nat n) s)) as [k ->]. rewrite drop_drop. by eexists.
Qed.

Lemma suffix_length s n : 0 <= n -> Z.of_nat (length (safeUTF8Suffix s n)) <= n.
Proof.
  intros Hn. unfold safeUTF8Suffix. case_if; [lia|].
  destruct (back_on_suffix UTFMax (drop (length s - Z.to_nat n) s)) as [k ->]. rewrite !length_drop. lia.
Qed.

Lemma back_off_utf8 rounds a : utf8 a -> back_off rounds a = a.
Proof.
  destruct rounds as [|rounds]; [done|]. intros [->|(b & p & Hb & Hp & ->)]%utf8_last; [done|].
  cbn [back_off]. rewrite decode_last_whole by done. by destruct (b ++ p).
Qed.

Lemma back_off_partial a p k rounds :
  utf8 a -> rune p = true -> (k < length p)%nat -> (k <= rounds)%nat -> back_off rounds (a ++ take k p) = a.
Proof.
  intros Ha Hp. revert rounds. induction k as [|k IH]; intros rounds Hk Hr.
  - rewrite take_0, app_nil_r. by apply back_off_utf8.
  - destruct rounds as [|rounds]; [lia|]. cbn [back_off].
    pose proof (decode_last_partial a p (S k) Hp) as Hd.
    destruct (DecodeLastRune (a ++ take (S k) p)) as [r size] eqn:E. cbn in Hd. rewrite Hd in E by lia.
    pose proof (DecodeLastRune_none _ _ E) as Hs. rewrite Hd by lia.
    assert (removelast (a ++ take (S k) p) = a ++ take k p) as Hrm.
    { rewrite removelast_app by (destruct p; cbn in *; [lia|done]). f_equal.
      rewrite removelast_firstn_len, length_take, take_take. f_equal. lia. }
    destruct (Nat.ltb_spec 1 size); [lia|]. rewrite Hrm, IH by lia.
    destruct (a ++ take (S k) p) eqn:He; [|done].
    apply (f_equal length) in He. rewrite length_app, length_take in He. cbn [length] in He. lia.
Qed.

(** The head cut of well-formed text is well-formed and loses at most three bytes. *)
Lemma safe_prefix_utf8 s n : utf8 s -> 0 <= n ->
  utf8 (safeUTF8Prefix s n) /\
  (n <= Z.of_nat (length s) -> n - 3 <= Z.of_nat (length (safeUTF8Prefix s n))).
Proof.
  intros Hs Hn. unfold safeUTF8Prefix. destruct (Z.leb_spec (Z.of_nat (length s)) n); [split; [done|lia]|].
  destruct (utf8_cut s (Z.to_nat n) Hs) as (a & p & k & Ha & Hp & Hk & -> & Hlen).
  destruct (rune_shape p Hp) as (x & q & -> & _ & Hq & _). cbn [length] in Hk.
  rewrite back_off_partial; [|done|done|cbn [length]; lia|unfold UTFMax; lia].
  split; [done|]. specialize (Hlen ltac:(lia)). lia.
Qed.

Lemma back_on_utf8 rounds a : utf8 a -> back_on rounds a = a.
Proof.
  destruct rounds as [|rounds]; [done|]. destruct 1 as [|p a Hp Ha]; [done|].
  cbn [back_on]. rewrite decode_first_whole by done. by destruct (p ++ a).
Qed.

Lemma back_on_partial q b rounds :
  utf8 b -> Forall (fun c => cont c = true) q -> (length q <= rounds)%nat -> back_on rounds (q ++ b) = b.
Proof.
  intros Hb Hq. revert rounds. induction Hq as [|c q Hc Hq IH]; intros rounds Hr; cbn [app].
  - by apply back_on_utf8.
  - cbn in Hr. destruct rounds as [|rounds]; [lia|]. cbn [back_on]. rewrite decode_first_cont by done.
    cbn. apply IH. lia.
Qed.

Lemma safe_suffix_utf8 s n : utf8 s -> 0 <= n ->
  utf8 (safeUTF8Suffix s n) /\
  (n <= Z.of_nat (length s) -> n - 3 <= Z.of_nat (length (safeUTF8Suffix s n))).
Proof.
  intros Hs Hn. unfold safeUTF8Suffix. destruct (Z.leb_spec (Z.of_nat (length s)) n); [split; [done|lia]|].
  destruct (utf8_cut_suffix s (length s - Z.to_nat n) Hs) as (q & b & Hb & Hq & Hlen & Hd).
  rewrite Hd, back_on_partial by (done || unfold UTFMax; lia).
  split; [done|]. apply (f_equal length) in Hd. rewrite length_drop, length_app in Hd. lia.
Qed.

(** * The marker *)

Definition ascii_text (s : string) : Prop := Forall (fun c => is_ascii c = true) (list_of s).
Definition utf8_text (s : string) : Prop := utf8 (list_of s).

Lemma ascii_cons c s : is_ascii c = true -> ascii_text s -> ascii_text (String c s).
Proof. by constructor. Qed.

Lemma ascii_digit x : is_ascii (pretty_N_char x) = true.
Proof. unfold pretty_N_char. by repeat case_match. Qed.

Lemma ascii_pretty_N_go x s : ascii_text s -> ascii_text (pretty_N_go x s).
Proof.
  revert s. induction (N.lt_wf_0 x) as [x _ IH]; intros s Hs.
  destruct (decide (x = 0%N)) as [->|Hx]; [by rewrite pretty_N_go_0|].
  rewrite pretty_N_go_step by lia. apply IH; [apply N.div_lt; lia|].
  apply ascii_cons; [apply ascii_digit|done].
Qed.

Lemma ascii_pretty_N (x : N) : ascii_text (pretty x).
Proof.
  unfold pretty, pretty_N. case_decide; [by repeat constructor|]. apply ascii_pretty_N_go. constructor.
Qed.

Lemma ascii_fmt_d z : ascii_text (fmt_d z).
Proof.
  unfold fmt_d. destruct z as [|p|p]; [by repeat constructor|apply (ascii_pretty_N (N.pos p))|].
  apply ascii_cons; [done|]. apply (ascii_pretty_N (N.pos p)).
Qed.

Lemma utf8_text_app a b : utf8_text a -> utf8_text b -> utf8_text (a +:+ b).
Proof. unfold utf8_text. rewrite list_of_app. apply utf8_app. Qed.

Lemma utf8_fmt_d z : utf8_text (fmt_d z).
Proof. apply utf8_ascii, ascii_fmt_d. Qed.

Lemma list_of_concat l : list_of (String.concat "" l) = List.concat (map list_of l).
Proof.
  induction l as [|s [|s' l] IH]; [done|by cbn; rewrite app_nil_r|].
  change (String.concat "" (s :: s' :: l)) with (s +:+ "" +:+ String.concat "" (s' :: l)).
  rewrite list_of_app. cbn [map List.concat]. f_equal. exact IH.
Qed.

Lemma quote_char_high c : in_range 128 255 c = true -> quote_char c = String c "".
Proof.
  intros Hc%in_range_spec. unfold quote_char. set (n := N_of_ascii c) in *.
  repeat (match goal with |- context [(?a =? ?b)%N] => destruct (N.eqb_spec a b); [lia|] end). done.
Qed.

Lemma quote_char_ascii c : is_ascii c = true -> ascii_text (quote_char c).
Proof.
  intros Hc. unfold quote_char.
  repeat case_if; (apply ascii_cons; [done|]); try (apply ascii_cons; [done|]); constructor.
Qed.

Lemma high_bytes p : rune p = true -> (exists c, p = [c] /\ is_ascii c = true) \/ Forall (fun c => in_range 128 255 c = true) p.
Proof.
  intros Hp. destruct (rune_shape p Hp) as (a & q & -> & Hq & _ & [[-> Ha]|[_ Ha]]); [left; by exists a|right].
  constructor; [by eapply (in_range_weaken 194 244)|].
  eapply Forall_impl; [exact Hq|]. intros c Hc. by eapply (in_range_weaken 128 191).
Qed.

Lemma utf8_fmt_q s : utf8_text s -> utf8_text (fmt_q s).
Proof.
  intros Hs. unfold fmt_q. repeat apply utf8_text_app; [by apply utf8_ascii; repeat constructor| |by apply utf8_ascii; repeat constructor].
  unfold utf8_text. rewrite list_of_concat, map_map. unfold utf8_text in Hs.
  induction Hs as [|p l Hp Hl IH]; [constructor|].
  rewrite map_app, List.concat_app. apply utf8_app; [|done].
  destruct (high_bytes p Hp) as [(c & -> & Hc)|Hh].
  - cbn. rewrite app_nil_r. by apply utf8_ascii, quote_char_ascii.
  - assert (List.concat (map (fun c => list_of (quote_char c)) p) = p) as ->; [|by apply utf8_one].
    clear Hp IH. induction Hh as [|c p Hc Hh IH]; [done|]. cbn [map List.concat].
    rewrite quote_char_high by done. cbn. by rewrite IH.
Qed.

Lemma utf8_marker total head tail elided handle :
  utf8_text handle -> utf8_text (toolResultElisionMarker total head tail elided handle).
Proof.
  intros Hh. unfold toolResultElisionMarker.
  assert (forall s, range_bytes (list_of s) = list_of s -> utf8_text s) as Hlit by (intros; by apply utf8_iff).
  repeat (apply utf8_text_app; [first [apply utf8_fmt_d | by apply Hlit]|]).
  apply utf8_text_app; [|by apply Hlit].
  case_if; [by apply Hlit|].
  repeat (apply utf8_text_app; [first [apply utf8_fmt_d | by apply utf8_fmt_q | by apply Hlit]|]). by apply Hlit.
Qed.

(** * What the cap guarantees *)

(** A tool result is either passed on unchanged, exactly when the cap is off or
    the result fits, or it becomes a prefix, the marker and a suffix of it, whose
    sizes and the elided count add up to the whole; what is kept never exceeds the
    cap. *)
Theorem cap_accounts c content handle maxBytes head tail active :
  small_cap c -> resolved c = (maxBytes, head, tail, active) ->
  let '(out, elided) := Apply c content handle in
  if active && (maxBytes <? bytes content)
  then exists h m t, list_of content = h ++ m ++ t /\ elided = Z.of_nat (length m) /\ 0 < elided /\
       Z.of_nat (length h) <= head /\ Z.of_nat (length t) <= tail /\ Z.of_nat (length h + length t) <= maxBytes /\
       list_of out = h ++ list_of (toolResultElisionMarker (bytes content) (Z.of_nat (length h)) (Z.of_nat (length t)) elided handle) ++ t
  else out = content /\ elided = 0.
Proof.
  intros Hc Hr. pose proof (resolved_budget _ _ _ _ _ Hc Hr) as (Hh & Ht & Hm).
  unfold Apply. rewrite Hr. destruct active; [|done]. cbn [negb orb andb].
  destruct (Z.leb_spec (bytes content) maxBytes) as [|Hover]; [by rewrite (proj2 (Z.ltb_ge _ _)) by lia|].
  rewrite (proj2 (Z.ltb_lt _ _)) by lia. unfold bytes in *. set (s := list_of content) in *.
  rewrite !Z.min_l by lia.
  pose proof (prefix_length s head Hh) as Hlp. pose proof (suffix_length s tail Ht) as Hls.
  destruct (prefix_is_prefix s head) as [i Hi]. destruct (suffix_is_suffix s tail) as [j Hj].
  set (h := safeUTF8Prefix s head) in *. set (t := safeUTF8Suffix s tail) in *.
  destruct (Z.leb_spec (Z.of_nat (length s) - Z.of_nat (length h) - Z.of_nat (length t)) 0); [lia|].
  assert (length h = Nat.min i (length s)) as Hlh by (rewrite Hi; apply length_take).
  assert (length t = (length s - j)%nat) as Hlt by (rewrite Hj; apply length_drop).
  exists h, (take (j - length h) (drop (length h) s)), t.
  rewrite !list_of_app, !list_of_of_list, length_take, length_drop.
  split_and!; [|lia|lia|lia|lia|lia|done].
  rewrite Hj. replace (drop j s) with (drop (j - length h) (drop (length h) s)) by (rewrite drop_drop; f_equal; lia).
  rewrite take_drop. replace h with (take (length h) s) at 1 by (rewrite Hlh, Hi; by rewrite take_min_length || (f_equal; lia)).
  by rewrite take_drop.
Qed.

(** On well-formed UTF-8 the capped result is well-formed again, and each cut
    gives up at most three bytes of its budget, so the elision is at most six bytes
    longer than the budgets ask for. *)
Theorem cap_keeps_utf8 c content handle maxBytes head tail active :
  small_cap c -> resolved c = (maxBytes, head, tail, active) -> active && (maxBytes <? bytes content) = true ->
  utf8_text content -> utf8_text handle ->
  utf8_text (Apply c content handle).1 /\
  bytes content - head - tail <= (Apply c content handle).2 <= bytes content - head - tail + 6.
Proof.
  intros Hc Hr Ho Hs Hhd. pose proof (resolved_budget _ _ _ _ _ Hc Hr) as (Hh & Ht & Hm).
  apply andb_true_iff in Ho as [-> Ho%Z.ltb_lt]. unfold Apply. rewrite Hr. cbn [negb orb].
  rewrite (proj2 (Z.leb_gt _ _)) by lia. unfold bytes in *. unfold utf8_text in Hs.
  set (s := list_of content) in *. rewrite !Z.min_l by lia.
  pose proof (prefix_length s head Hh) as Hlp. pose proof (suffix_length s tail Ht) as Hls.
  rewrite (proj2 (Z.leb_gt _ _)) by lia.
  pose proof (safe_prefix_utf8 s head Hs Hh) as [Hp Hpl]. pose proof (safe_suffix_utf8 s tail Hs Ht) as [Hq Hql].
  split.
  - cbn [fst]. apply utf8_text_app; [unfold utf8_text; by rewrite list_of_of_list|].
    apply utf8_text_app; [by apply utf8_marker|unfold utf8_text; by rewrite list_of_of_list].
  - cbn [snd]. lia.
Qed.

(** * Concrete results *)

Definition d_cap : ToolResultCap := {| MaxBytes := 8; HeadBytes := 3; TailBytes := 5 |}.

(** Four two-byte runes and a letter: the head budget of three bytes cuts the second
    rune, so two bytes are kept. *)
Definition d_text : string := "éééé!".

Lemma cap_accounts_witness :
  exists h m t, list_of d_text = h ++ m ++ t /\ (Apply d_cap d_text "").2 = Z.of_nat (length m) /\
    (length h + length t <= 8)%nat.
Proof.
  pose proof (cap_accounts d_cap d_text "" 8 3 5 true) as H.
  destruct (Apply d_cap d_text "") as [out elided].
  destruct H as (h & m & t & Hs & He & _ & _ & _ & Hm & _); [repeat split; reflexivity|reflexivity|].
  exists h, m, t. split; [exact Hs|]. split; [exact He|]. lia.
Defined.

Lemma cap_keeps_utf8_witness :
  utf8_text (Apply d_cap d_text "b1").1 /\ (Apply d_cap d_text "b1").2 = 2.
Proof.
  split; [|reflexivity].
  apply (cap_keeps_utf8 d_cap d_text "b1" 8 3 5 true);
    [repeat split; reflexivity|reflexivity|reflexivity|by apply utf8_iff|by apply utf8_iff].
Defined.

(** The marker is not part of the budget: a result one byte over the cap comes back
    longer than it was. *)
Example truncation_lengthens : bytes d_text = 9 /\ 150 < bytes (Apply d_cap d_text "").1.
Proof. split; vm_compute; reflexivity. Qed.
