(* ===== verification/Json.v ===== *)
(** Go's [encoding/json] as far as the modelled code uses it: the grammar its scanner
    accepts, decoding into [any], and the encoding of strings.  Number literals stay
    text; object members keep their order, so that a later duplicate can win. *)
From S2P Require Import Prelude GoString Utf8.
From Stdlib Require Import Ascii.

Inductive json :=
| JNull
| JBool (b : bool)
| JNum (text : string)
| JStr (s : string)
| JArr (l : list json)
| JObj (l : list (string * json)).

(** * Characters *)

Definition isc (n : N) (c : ascii) : bool := (N_of_ascii c =? n)%N.
Definition chr (n : N) : ascii := ascii_of_N n.

Definition json_space (c : ascii) : bool := isc 32 c || isc 9 c || isc 10 c || isc 13 c.

Fixpoint skip_ws (l : list ascii) : list ascii :=
  match l with
  | c :: l' => if json_space c then skip_ws l' else l
  | [] => []
  end.

(** The value of a hexadecimal digit. *)
Definition hex_digit (c : ascii) : option N :=
  let n := N_of_ascii c in
  if in_range 48 57 c then Some (n - 48)%N
  else if in_range 97 102 c then Some (n - 87)%N
  else if in_range 65 70 c then Some (n - 55)%N else None.

Definition hex4 (a b c d : ascii) : option N :=
  match hex_digit a, hex_digit b, hex_digit c, hex_digit d with
  | Some a, Some b, Some c, Some d => Some (((a * 16 + b) * 16 + c) * 16 + d)%N
  | _, _, _, _ => None
  end.

(** * Strings *)

(** What one character after a backslash stands for; [u] is separate. *)
Definition simple_escape (c : ascii) : option ascii :=
  if isc 34 c then Some (chr 34) else if isc 92 c then Some (chr 92) else if isc 47 c then Some (chr 47)
  else if isc 98 c then Some (chr 8) else if isc 102 c then Some (chr 12) else if isc 110 c then Some (chr 10)
  else if isc 114 c then Some (chr 13) else if isc 116 c then Some (chr 9) else None.

(** The raw content up to the closing quote, and what follows it. *)
Fixpoint scan_string (l : list ascii) : option (list ascii * list ascii) :=
  match l with
  | [] => None
  | c :: r =>
      if isc 34 c then Some ([], r)
      else if isc 92 c then
        match r with
        | [] => None
        | e :: r1 =>
            if isc 117 e then
              match r1 with
              | x1 :: x2 :: x3 :: x4 :: r2 =>
                  match hex4 x1 x2 x3 x4, scan_string r2 with
                  | Some _, Some (raw, rest) => Some (c :: e :: x1 :: x2 :: x3 :: x4 :: raw, rest)
                  | _, _ => None
                  end
              | _ => None
              end
            else
              match simple_escape e, scan_string r1 with
              | Some _, Some (raw, rest) => Some (c :: e :: raw, rest)
              | _, _ => None
              end
        end
      else if in_range 0 31 c then None
      else match scan_string r with Some (raw, rest) => Some (c :: raw, rest) | None => None end
  end.

(** The UTF-8 bytes of a code point outside the surrogates. *)
Definition encode_rune (n : N) : list ascii :=
  (if n <? 128 then [chr n]
   else if n <? 2048 then [chr (192 + n / 64); chr (128 + n mod 64)]
   else if n <? 65536 then [chr (224 + n / 4096); chr (128 + n / 64 mod 64); chr (128 + n mod 64)]
   else [chr (240 + n / 262144); chr (128 + n / 4096 mod 64); chr (128 + n / 64 mod 64); chr (128 + n mod 64)])%N.

Definition high_surrogate (n : N) : bool := ((55296 <=? n) && (n <? 56320))%N.
Definition low_surrogate (n : N) : bool := ((56320 <=? n) && (n <? 57344))%N.

(** [unquote] on content without invalid UTF-8: a surrogate without its partner
    becomes U+FFFD. *)
Fixpoint unescape (l : list ascii) : list ascii :=
  match l with
  | [] => []
  | c :: r =>
      if isc 92 c then
        match r with
        | [] => []
        | e :: r1 =>
            if isc 117 e then
              match r1 with
              | x1 :: x2 :: x3 :: x4 :: r2 =>
                  let n := default 0%N (hex4 x1 x2 x3 x4) in
                  if high_surrogate n then
                    match r2 with
                    | b :: u :: y1 :: y2 :: y3 :: y4 :: r3 =>
                        let m := default 0%N (hex4 y1 y2 y3 y4) in
                        if isc 92 b && isc 117 u && low_surrogate m
                        then encode_rune (65536 + (n - 55296) * 1024 + (m - 56320))%N ++ unescape r3
                        else rune_error ++ unescape r2
                    | _ => rune_error ++ unescape r2
                    end
                  else if low_surrogate n then rune_error ++ unescape r2
                  else encode_rune n ++ unescape r2
              | _ => []
              end
            else default [] ((fun d => [d]) <$> simple_escape e) ++ unescape r1
        end
      else c :: unescape r
  end.

Definition decode_string (raw : list ascii) : string := of_list (unescape (range_bytes raw)).

(** * Numbers *)

Definition digit : ascii -> bool := in_range 48 57.

Fixpoint digits (l : list ascii) : list ascii * list ascii :=
  match l with
  | c :: r => if digit c then let '(d, rest) := digits r in (c :: d, rest) else ([], l)
  | [] => ([], [])
  end.

Record number := { num_sign : list ascii; num_int : list ascii; num_frac : list ascii; num_exp : list ascii }.

Definition num_text (n : number) : list ascii := num_sign n ++ num_int n ++ num_frac n ++ num_exp n.

Definition scan_sign (l : list ascii) : list ascii * list ascii :=
  match l with c :: r => if isc 45 c then ([c], r) else ([], l) | [] => ([], []) end.

Definition scan_int (l : list ascii) : option (list ascii * list ascii) :=
  match l with
  | c :: r => if isc 48 c then Some ([c], r) else if digit c then Some (digits l) else None
  | [] => None
  end.

Definition scan_frac (l : list ascii) : option (list ascii * list ascii) :=
  match l with
  | c :: r => if isc 46 c then match digits r with ([], _) => None | (d, rest) => Some (c :: d, rest) end
              else Some ([], l)
  | [] => Some ([], [])
  end.

Definition scan_exp (l : list ascii) : option (list ascii * list ascii) :=
  match l with
  | c :: r =>
      if isc 101 c || isc 69 c then
        let '(s, r1) := match r with x :: r1 => if isc 43 x || isc 45 x then ([x], r1) else ([], r) | [] => ([], []) end in
        match digits r1 with ([], _) => None | (d, rest) => Some (c :: s ++ d, rest) end
      else Some ([], l)
  | [] => Some ([], [])
  end.

Definition scan_number (l : list ascii) : option (number * list ascii) :=
  let '(s, l) := scan_sign l in
  match scan_int l with
  | None => None
  | Some (i, l) =>
      match scan_frac l with
      | None => None
      | Some (f, l) =>
          match scan_exp l with
          | None => None
          | Some (e, l) => Some ({| num_sign := s; num_int := i; num_frac := f; num_exp := e |}, l)
          end
      end
  end.

Fixpoint digits_value (acc : Z) (l : list ascii) : Z :=
  match l with
  | c :: l => digits_value (acc * 10 + (Z.of_N (N_of_ascii c) - 48)) l
  | [] => acc
  end.

Definition exp_value (e : list ascii) : Z :=
  match e with
  | _ :: x :: r => if isc 45 x then - digits_value 0 r else if isc 43 x then digits_value 0 r else digits_value 0 (x :: r)
  | _ => 0
  end%Z.

(** Whether [strconv.ParseFloat] keeps the literal finite: below the midpoint between
    the largest float64 and the next power of two. *)
Definition finite (n : number) : bool :=
  (let m := digits_value 0 (num_int n ++ tail (num_frac n)) in
   let e := exp_value (num_exp n) - Z.of_nat (length (tail (num_frac n))) in
   let limit := 2 ^ 1024 - 2 ^ 970 in
   if m =? 0 then true
   else if 0 <=? e then if 400 <=? e then false else m * 10 ^ e <? limit
   else if Z.of_nat (length (num_int n ++ num_frac n)) <=? - e then true
   else m <? limit * 10 ^ (- e))%Z.

(** * Values *)

Inductive pres (A : Type) :=
| PFuel
| PErr
| POk (a : A) (rest : list ascii).
Arguments PFuel {A}.
Arguments PErr {A}.
Arguments POk {A} _ _.

Definition pmap {A B} (f : A -> B) (p : pres A) : pres B :=
  match p with PFuel => PFuel | PErr => PErr | POk a rest => POk (f a) rest end.

Definition maxNestingDepth : N := 10000.

Definition expect (w : string) (j : json) (l : list ascii) : pres json :=
  if prefixb (list_of w) l then POk j (drop (length (list_of w)) l) else PErr.

Fixpoint parse_value (fuel : nat) (depth : N) (l : list ascii) : pres json :=
  match fuel with
  | 0 => PFuel
  | S fuel =>
      match skip_ws l with
      | [] => PErr
      | c :: r =>
          if isc 123 c then
            if (maxNestingDepth <=? depth)%N then PErr
            else match skip_ws r with
                 | d :: r' => if isc 125 d then POk (JObj []) r'
                              else pmap JObj (parse_members fuel (depth + 1)%N r)
                 | [] => PErr
                 end
          else if isc 91 c then
            if (maxNestingDepth <=? depth)%N then PErr
            else match skip_ws r with
                 | d :: r' => if isc 93 d then POk (JArr []) r'
                              else pmap JArr (parse_elems fuel (depth + 1)%N r)
                 | [] => PErr
                 end
          else if isc 34 c then
            match scan_string r with
            | Some (raw, rest) => POk (JStr (decode_string raw)) rest
            | None => PErr
            end
          else if isc 116 c then expect "true" (JBool true) (c :: r)
          else if isc 102 c then expect "false" (JBool false) (c :: r)
          else if isc 110 c then expect "null" JNull (c :: r)
          else match scan_number (c :: r) with
               | Some (n, rest) => POk (JNum (of_list (num_text n))) rest
               | None => PErr
               end
      end
  end
with parse_elems (fuel : nat) (depth : N) (l : list ascii) : pres (list json) :=
  match fuel with
  | 0 => PFuel
  | S fuel =>
      match parse_value fuel depth l with
      | PFuel => PFuel
      | PErr => PErr
      | POk v r =>
          match skip_ws r with
          | c :: r' => if isc 44 c then pmap (cons v) (parse_elems fuel depth r')
                       else if isc 93 c then POk [v] r' else PErr
          | [] => PErr
          end
      end
  end
with parse_members (fuel : nat) (depth : N) (l : list ascii) : pres (list (string * json)) :=
  match fuel with
  | 0 => PFuel
  | S fuel =>
      match skip_ws l with
      | q :: r =>
          if isc 34 q then
            match scan_string r with
            | None => PErr
            | Some (raw, r) =>
                match skip_ws r with
                | c :: r =>
                    if isc 58 c then
                      match parse_value fuel depth r with
                      | PFuel => PFuel
                      | PErr => PErr
                      | POk v r =>
                          match skip_ws r with
                          | c :: r' => if isc 44 c then pmap (cons (decode_string raw, v)) (parse_members fuel depth r')
                                       else if isc 125 c then POk [(decode_string raw, v)] r' else PErr
                          | [] => PErr
                          end
                      end
                    else PErr
                | [] => PErr
                end
            end
          else PErr
      | [] => PErr
      end
  end.

Definition json_fuel (l : list ascii) : nat := 2 * length l + 2.

(** The whole text is one value. *)
Definition parse_text (l : list ascii) : option json :=
  match parse_value (json_fuel l) 0 l with
  | POk v rest => match skip_ws rest with [] => Some v | _ => None end
  | _ => None
  end.

Definition json_valid (text : string) : option json := parse_text (list_of text).

Fixpoint all_finite (j : json) : bool :=
  match j with
  | JNum t => match scan_number (list_of t) with Some (n, _) => finite n | None => false end
  | JArr l => forallb all_finite l
  | JObj l => forallb (fun kv => all_finite kv.2) l
  | _ => true
  end.

(** [json.Unmarshal] into an [any]. *)
Definition Unmarshal (text : string) : option json :=
  match json_valid text with Some j => if all_finite j then Some j else None | None => None end.

(** [json.Unmarshal] into a string: null leaves it empty. *)
Definition unmarshal_string (text : string) : option string :=
  match json_valid text with
  | Some (JStr s) => Some s
  | Some JNull => Some ""
  | _ => None
  end.

(** [m[k]] after decoding into a map: the last member wins. *)
Definition member (k : string) (l : list (string * json)) : option json :=
  snd <$> last (List.filter (fun kv => bool_decide (kv.1 = k)) l).

(** A struct field by its JSON name: case-insensitive, the last match wins. *)
Definition field (k : string) (l : list (string * json)) : option json :=
  snd <$> last (List.filter (fun kv => EqualFold kv.1 k) l).

(** * Encoding *)

Definition hex_char (n : N) : ascii := if (n <? 10)%N then chr (48 + n) else chr (87 + n).

(** A control character or one that HTML would read: [\u00XX]. *)
Definition u00 (c : ascii) : list ascii :=
  let n := N_of_ascii c in [chr 92; chr 117; chr 48; chr 48; hex_char (n / 16); hex_char (n mod 16)].

Definition enc_ascii (c : ascii) : list ascii :=
  if isc 34 c || isc 92 c then [chr 92; c]
  else if isc 8 c then [chr 92; chr 98] else if isc 12 c then [chr 92; chr 102]
  else if isc 10 c then [chr 92; chr 110] else if isc 13 c then [chr 92; chr 114]
  else if isc 9 c then [chr 92; chr 116]
  else if in_range 0 31 c || isc 60 c || isc 62 c || isc 38 c then u00 c else [c].

Definition u_fffd : list ascii := list_of "\ufffd".

(** U+2028 and U+2029 end a line in JavaScript and are escaped. *)
Definition enc3 (a b c : ascii) : list ascii :=
  if isc 226 a && isc 128 b && (isc 168 c || isc 169 c)
  then list_of "\u202" ++ [if isc 168 c then chr 56 else chr 57]
  else [a; b; c].

Fixpoint enc_bytes (l : list ascii) : list ascii :=
  match l with
  | [] => []
  | a :: r1 =>
      if in_range 0 127 a then enc_ascii a ++ enc_bytes r1
      else match r1 with
           | [] => u_fffd ++ enc_bytes r1
           | b :: r2 =>
               if lead2 a b then a :: b :: enc_bytes r2
               else match r2 with
                    | [] => u_fffd ++ enc_bytes r1
                    | c :: r3 =>
                        if lead3 a b && cont c then enc3 a b c ++ enc_bytes r3
                        else match r3 with
                             | [] => u_fffd ++ enc_bytes r1
                             | d :: r4 =>
                                 if lead4 a b && cont c && cont d then a :: b :: c :: d :: enc_bytes r4
                                 else u_fffd ++ enc_bytes r1
                             end
                    end
           end
  end.

Definition enc_string (s : string) : list ascii := chr 34 :: enc_bytes (list_of s) ++ [chr 34].

Section Print.
Variable print_json : json -> list ascii.

Fixpoint print_elems (l : list json) : list ascii :=
  match l with
  | [] => []
  | [j] => print_json j
  | j :: l => print_json j ++ chr 44 :: print_elems l
  end.

Fixpoint print_members (l : list (string * json)) : list ascii :=
  match l with
  | [] => []
  | [(k, j)] => enc_string k ++ chr 58 :: print_json j
  | (k, j) :: l => enc_string k ++ chr 58 :: print_json j ++ chr 44 :: print_members l
  end.
End Print.

(** Without white space, members in the order given. *)
Fixpoint print_json (j : json) : list ascii :=
  match j with
  | JNull => list_of "null"
  | JBool b => list_of (if b then "true" else "false")
  | JNum t => list_of t
  | JStr s => enc_string s
  | JArr l => chr 91 :: print_elems print_json l ++ [chr 93]
  | JObj l => chr 123 :: print_members print_json l ++ [chr 125]
  end.

(** * Strings read back *)

Definition enc_ok (p e : list ascii) : Prop :=
  utf8 e /\ (forall l, unescape (e ++ l) = p ++ unescape l) /\
  (forall l, scan_string (e ++ l) = match scan_string l with Some (raw, rest) => Some (e ++ raw, rest) | None => None end).

Lemma enc_ok_app p e p' e' : enc_ok p e -> enc_ok p' e' -> enc_ok (p ++ p') (e ++ e').
Proof.
  intros (Hu & He & Hs) (Hu' & He' & Hs'). split_and!; [by apply utf8_app|..]; intros l; rewrite <- app_assoc.
  - by rewrite He, He', app_assoc.
  - rewrite Hs, Hs'. destruct (scan_string l) as [[raw rest]|]; [|done]. by rewrite app_assoc.
Qed.

(** A byte that stands for itself. *)
Definition plain_char (c : ascii) : bool := negb (isc 34 c || isc 92 c || in_range 0 31 c).

Lemma plain_char_scan c l : plain_char c = true ->
  scan_string (c :: l) = match scan_string l with Some (raw, rest) => Some (c :: raw, rest) | None => None end.
Proof.
  unfold plain_char. rewrite negb_true_iff, !orb_false_iff. intros [[H1 H2] H3]. cbn [scan_string]. by rewrite H1, H2, H3.
Qed.

Lemma plain_char_unescape c l : plain_char c = true -> unescape (c :: l) = c :: unescape l.
Proof. unfold plain_char. rewrite negb_true_iff, !orb_false_iff. intros [[H1 H2] H3]. cbn [unescape]. by rewrite H2. Qed.

Lemma enc_ok_plain p : utf8 p -> Forall (fun c => plain_char c = true) p -> enc_ok p p.
Proof.
  intros Hu Hp. split; [done|]. clear Hu. induction Hp as [|c p Hc Hp [IH1 IH2]].
  - split; [done|]. intros l. cbn. by destruct (scan_string l) as [[raw rest]|].
  - split; intros l; cbn [app].
    + by rewrite plain_char_unescape, IH1.
    + rewrite plain_char_scan, IH2 by done. by destruct (scan_string l) as [[raw rest]|].
Qed.

Lemma enc_ok_esc e d : is_ascii e = true -> isc 117 e = false -> simple_escape e = Some d -> enc_ok [d] [chr 92; e].
Proof.
  intros Ha Hu Hd. split_and!.
  - apply utf8_ascii. by repeat constructor.
  - intros l. cbn [app unescape]. change (isc 92 (chr 92)) with true. cbn iota. by rewrite Hu, Hd.
  - intros l. cbn [app scan_string]. change (isc 34 (chr 92)) with false. change (isc 92 (chr 92)) with true. cbn iota.
    by rewrite Hu, Hd.
Qed.

Lemma enc_ok_u x1 x2 x3 x4 n :
  Forall (fun c => is_ascii c = true) [x1; x2; x3; x4] -> hex4 x1 x2 x3 x4 = Some n ->
  high_surrogate n = false -> low_surrogate n = false -> enc_ok (encode_rune n) [chr 92; chr 117; x1; x2; x3; x4].
Proof.
  intros Ha Hx Hh Hl. split_and!.
  - apply utf8_ascii. constructor; [done|]. by constructor.
  - intros l. cbn [app unescape]. change (isc 92 (chr 92)) with true. change (isc 117 (chr 117)) with true.
    cbn iota. rewrite Hx. cbn [default from_option id]. by rewrite Hh, Hl.
  - intros l. cbn [app scan_string]. change (isc 34 (chr 92)) with false. change (isc 92 (chr 92)) with true.
    change (isc 117 (chr 117)) with true. cbn iota. by rewrite Hx.
Qed.

Lemma enc_ok_ascii c : is_ascii c = true -> enc_ok [c] (enc_ascii c).
Proof.
  intros Hc. destruct c as [[] [] [] [] [] [] [] []]; try discriminate Hc;
    match goal with |- enc_ok _ ?e => let v := eval vm_compute in e in change e with v end.
  all: try (apply enc_ok_plain; [by apply utf8_ascii; repeat constructor|by repeat constructor]).
  all: try (eapply (enc_ok_esc _ _); reflexivity).
  all: match goal with |- enc_ok [?c] _ => let n := eval vm_compute in (N_of_ascii c) in change [c] with (encode_rune n) end.
  all: apply enc_ok_u; [by repeat constructor|reflexivity..].
Qed.

Lemma plain_high c : in_range 128 255 c = true -> plain_char c = true.
Proof.
  intros Hc%in_range_spec. unfold plain_char, isc, in_range. rewrite negb_true_iff, !orb_false_iff.
  rewrite !N.eqb_neq, andb_false_iff, !N.leb_gt. lia.
Qed.

Lemma enc_bytes_rune p l : rune p = true -> exists e, enc_bytes (p ++ l) = e ++ enc_bytes l /\ enc_ok p e.
Proof.
  intros Hp. destruct (rune_shape p Hp) as (a & q & -> & Hq & Hlen & [[-> Ha]|[Hne Ha]]).
  { exists (enc_ascii a). split; [cbn; by rewrite Ha|]. by apply enc_ok_ascii. }
  assert (in_range 0 127 a = false) as Hn by (eapply in_range_false; [|exact Ha]; lia).
  assert (enc_ok (a :: q) (a :: q)) as Hplain.
  { apply enc_ok_plain; [by apply utf8_one|]. constructor; [by apply plain_high; eapply (in_range_weaken 194 244)|].
    eapply Forall_impl; [exact Hq|]. intros c Hc. apply plain_high. by eapply (in_range_weaken 128 191). }
  pose proof Hp as Hw. unfold rune in Hw. apply andb_true_iff in Hw as [_ Hw%Nat.eqb_eq].
  destruct q as [|b [|c [|d [|? ?]]]]; [done|..|cbn in Hlen; lia]; cbn in Hw; rewrite Hn in Hw; cbn [app enc_bytes]; rewrite Hn.
  - destruct (lead2 a b); [|done]. by exists [a; b].
  - destruct (lead2 a b); [done|]. destruct (lead3 a b && cont c); [|done]. exists (enc3 a b c). split; [done|].
    unfold enc3. destruct (isc 226 a && isc 128 b && (isc 168 c || isc 169 c)) eqn:Hx; [|done].
    rewrite !andb_true_iff, orb_true_iff in Hx. unfold isc in Hx. rewrite !N.eqb_eq in Hx.
    destruct Hx as [[Hx1 Hx2] Hx3].
    assert (a = chr 226) as -> by (rewrite <- Hx1; symmetry; apply ascii_N_embedding).
    assert (b = chr 128) as -> by (rewrite <- Hx2; symmetry; apply ascii_N_embedding).
    assert (c = chr 168 \/ c = chr 169) as [->| ->].
    { destruct Hx3 as [Hx3|Hx3]; [left|right]; rewrite <- Hx3; symmetry; apply ascii_N_embedding. }
    + refine (enc_ok_u (chr 50) (chr 48) (chr 50) (chr 56) 8232 _ _ _ _); [by repeat constructor|reflexivity..].
    + refine (enc_ok_u (chr 50) (chr 48) (chr 50) (chr 57) 8233 _ _ _ _); [by repeat constructor|reflexivity..].
  - destruct (lead2 a b); [done|]. destruct (lead3 a b && cont c); [done|].
    destruct (lead4 a b && cont c && cont d); [|done]. by exists [a; b; c; d].
Qed.

Lemma enc_bytes_ok l : utf8 l -> enc_ok l (enc_bytes l).
Proof.
  induction 1 as [|p l Hp Hl IH].
  - apply enc_ok_plain; constructor.
  - destruct (enc_bytes_rune p l Hp) as (e & -> & He). by apply enc_ok_app.
Qed.

Lemma scan_enc_string s rest : utf8 (list_of s) ->
  exists raw, scan_string (enc_bytes (list_of s) ++ chr 34 :: rest) = Some (raw, rest) /\ decode_string raw = s.
Proof.
  intros Hs. destruct (enc_bytes_ok _ Hs) as (Hu & He & Hscan).
  exists (enc_bytes (list_of s)). rewrite Hscan. cbn [scan_string]. change (isc 34 (chr 34)) with true. cbn iota.
  rewrite app_nil_r. split; [done|]. unfold decode_string. rewrite range_bytes_id by done.
  pose proof (He []) as H. rewrite app_nil_r in H. rewrite H. cbn [unescape]. by rewrite app_nil_r, of_list_of.
Qed.
