(* ===== verification/Decimal.v ===== *)
(** Integers as decimal text: what [strconv.Itoa] prints is a JSON number literal that
    [strconv.ParseInt] reads back. *)
From S2P Require Import Prelude GoString Utf8 Json.
From Stdlib Require Import Ascii.

(** [strconv.ParseInt(text, 10, 64)] on a JSON number literal. *)
Definition ParseInt (text : string) : option Z :=
  match scan_number (list_of text) with
  | Some (n, []) =>
      match num_frac n, num_exp n with
      | [], [] =>
          let m := digits_value 0 (num_int n) in
          let z := (match num_sign n with [] => m | _ => - m end)%Z in
          if ((- 2 ^ 63 <=? z) && (z <? 2 ^ 63))%Z then Some z else None
      | _, _ => None
      end
  | _ => None
  end.

Definition in_int64 (z : Z) : Prop := (- 2 ^ 63 <= z < 2 ^ 63)%Z.

Lemma digits_value_app l1 l2 acc : digits_value acc (l1 ++ l2) = digits_value (digits_value acc l1) l2.
Proof. revert acc. induction l1 as [|c l1 IH]; intros acc; [done|]. apply IH. Qed.

Lemma pretty_char d : (d < 10)%N -> digit (pretty_N_char d) = true /\ N_of_ascii (pretty_N_char d) = (48 + d)%N.
Proof.
  intros Hd.
  assert (d = 0 \/ d = 1 \/ d = 2 \/ d = 3 \/ d = 4 \/ d = 5 \/ d = 6 \/ d = 7 \/ d = 8 \/ d = 9)%N as H by lia.
  by repeat (destruct H as [->|H]; [done|]); subst.
Qed.

(** The digits of a positive number. *)
Lemma pretty_go_digits x s : (0 < x)%N -> exists c ds, list_of (pretty_N_go x s) = (c :: ds) ++ list_of s /\
  isc 48 c = false /\ Forall (fun c => digit c = true) (c :: ds) /\ digits_value 0 (c :: ds) = Z.of_N x.
Proof.
  revert s. induction x as [x IH] using (well_founded_induction N.lt_wf_0). intros s Hx.
  destruct (pretty_char (x mod 10)) as [Hd Hv]; [apply N.mod_lt; lia|].
  rewrite pretty_N_go_step by done. destruct (decide (x < 10)%N) as [Hs|Hs].
  - rewrite N.div_small, pretty_N_go_0 by done. exists (pretty_N_char (x mod 10)), [].
    split_and!; [done| |by repeat constructor|].
    + unfold isc. rewrite Hv, N.mod_small by done. apply N.eqb_neq. lia.
    + cbn [digits_value]. rewrite Hv, N.mod_small by done. lia.
  - assert (10 * (x / 10) + x mod 10 = x)%N as Hdm by (symmetry; apply N.div_mod'; lia).
    destruct (IH (x / 10)%N) with (s := String (pretty_N_char (x mod 10)) s) as (c & ds & Heq & Hc & Hf & Hval);
      [apply N.div_lt; lia|apply N.div_str_pos; lia|].
    exists c, (ds ++ [pretty_N_char (x mod 10)]). split_and!; [|done| |].
    + rewrite Heq. cbn [app]. by rewrite <- app_assoc.
    + change (c :: ds ++ [pretty_N_char (x mod 10)]) with ((c :: ds) ++ [pretty_N_char (x mod 10)]).
      apply Forall_app. split; [done|by repeat constructor].
    + change (c :: ds ++ [pretty_N_char (x mod 10)]) with ((c :: ds) ++ [pretty_N_char (x mod 10)]).
      rewrite digits_value_app, Hval. cbn [digits_value]. rewrite Hv. lia.
Qed.

(** * Scanning *)

(** What follows a printed number does not continue it. *)
Definition stops (rest : list ascii) : Prop :=
  match rest with
  | [] => True
  | c :: _ => digit c = false /\ isc 46 c = false /\ isc 101 c = false /\ isc 69 c = false
  end.

Lemma digits_stop ds rest : Forall (fun c => digit c = true) ds -> stops rest -> digits (ds ++ rest) = (ds, rest).
Proof.
  intros Hds Hr. induction Hds as [|c ds Hc _ IH].
  - destruct rest as [|c rest]; [done|]. destruct Hr as (Hc & _). cbn. by rewrite Hc.
  - cbn [app digits]. by rewrite Hc, IH.
Qed.

Definition sign_of (z : Z) : list ascii := if (z <? 0)%Z then [chr 45] else [].

(** The literal of [z]. *)
Lemma fmt_d_literal z : exists ds, list_of (fmt_d z) = sign_of z ++ ds /\ ds <> [] /\
  (forall c r, ds = c :: r -> isc 45 c = false) /\ digits_value 0 ds = Z.abs z /\
  (forall rest, stops rest -> scan_int (ds ++ rest) = Some (ds, rest)).
Proof.
  assert (forall x, (0 < x)%N -> exists ds, list_of (pretty_N_go x "") = ds /\ ds <> [] /\
    (forall c r, ds = c :: r -> isc 45 c = false) /\ digits_value 0 ds = Z.of_N x /\
    (forall rest, stops rest -> scan_int (ds ++ rest) = Some (ds, rest))) as Hpos.
  { intros x Hx. destruct (pretty_go_digits x "" Hx) as (c & ds & Heq & Hc & Hf & Hv).
    change (list_of "") with (@nil ascii) in Heq. rewrite app_nil_r in Heq.
    exists (c :: ds). split_and!; [done|done| |done|].
    - intros ? ? [= <- <-]. apply Forall_cons_1 in Hf as [Hd _]. unfold digit, in_range in Hd. unfold isc.
      apply andb_true_iff in Hd as [Hd _]. apply N.leb_le in Hd. apply N.eqb_neq. lia.
    - intros rest Hr. unfold scan_int. cbn [app]. rewrite Hc.
      pose proof (Forall_inv Hf) as Hd. cbn beta in Hd. rewrite Hd. f_equal. by apply (digits_stop (c :: ds)). }
  unfold fmt_d, pretty, pretty_Z, sign_of. destruct z as [|p|p].
  - exists [chr 48]. split_and!; [done|done|by intros ? ? [= <- <-]|done|done].
  - destruct (Hpos (N.pos p)) as (ds & Heq & H); [lia|]. exists ds. rewrite <- Heq in *.
    change (pretty (N.pos p)) with (pretty_N_go (N.pos p) ""). split_and!; [done|by apply H..].
  - destruct (Hpos (N.pos p)) as (ds & Heq & H); [lia|]. exists ds. rewrite <- Heq in *.
    change (pretty (N.pos p)) with (pretty_N_go (N.pos p) ""). split_and!; [done|by apply H..].
Qed.

Lemma fmt_d_head z : exists c l, list_of (fmt_d z) = c :: l /\ (N_of_ascii c = 45 \/ 48 <= N_of_ascii c <= 57)%N.
Proof.
  destruct (fmt_d_literal z) as (ds & -> & Hne & _ & _ & Hs). unfold sign_of.
  destruct (z <? 0)%Z; [by eexists _, _; split; [|left]|]. destruct ds as [|c r]; [done|]. exists c, r. split; [done|]. right.
  specialize (Hs [] I). rewrite app_nil_r in Hs. unfold scan_int in Hs.
  destruct (isc 48 c) eqn:H48; [apply N.eqb_eq in H48; lia|destruct (digit c) eqn:Hd; [|done]].
  unfold digit, in_range in Hd. apply andb_true_iff in Hd as [H1 H2]. apply N.leb_le in H1, H2. lia.
Qed.

Lemma fmt_d_chars z : Forall (fun c => isc 45 c = true \/ digit c = true) (list_of (fmt_d z)).
Proof.
  assert (Hpos : forall x, (0 < x)%N -> Forall (fun c => isc 45 c = true \/ digit c = true) (list_of (pretty_N_go x ""))).
  { intros x Hx. destruct (pretty_go_digits x "" Hx) as (c & ds & Heq & _ & Hf & _). rewrite Heq. change (list_of "") with (@nil ascii).
    rewrite app_nil_r. eapply Forall_impl; [exact Hf|]. tauto. }
  unfold fmt_d, pretty, pretty_Z. destruct z as [|p|p]; [constructor; [by right|constructor]|apply (Hpos (N.pos p)); lia|].
  constructor; [by left|apply (Hpos (N.pos p)); lia].
Qed.

Lemma scan_fmt_d z rest : stops rest -> exists ds, digits_value 0 ds = Z.abs z /\ list_of (fmt_d z) = sign_of z ++ ds /\
  scan_number (list_of (fmt_d z) ++ rest) =
    Some ({| num_sign := sign_of z; num_int := ds; num_frac := []; num_exp := [] |}, rest).
Proof.
  intros Hr. destruct (fmt_d_literal z) as (ds & Heq & Hne & Hm & Hv & Hs). exists ds. split_and!; [done|done|].
  rewrite Heq. unfold scan_number. rewrite <- app_assoc.
  assert (scan_sign (sign_of z ++ ds ++ rest) = (sign_of z, ds ++ rest)) as ->.
  { unfold sign_of. destruct (z <? 0)%Z; [done|]. destruct ds as [|c r]; [done|]. cbn. by rewrite (Hm c r). }
  rewrite Hs by done.
  assert (scan_frac rest = Some ([], rest)) as ->
    by (destruct rest as [|c rest]; [done|]; destruct Hr as (_ & H & _); cbn; by rewrite H).
  assert (scan_exp rest = Some ([], rest)) as ->
    by (destruct rest as [|c rest]; [done|]; destruct Hr as (_ & _ & H1 & H2); cbn; by rewrite H1, H2).
  done.
Qed.

(** Reading back what was printed. *)
Lemma ParseInt_fmt_d z : in_int64 z -> ParseInt (fmt_d z) = Some z.
Proof.
  intros Hz. destruct (scan_fmt_d z [] I) as (ds & Hv & _ & Hs). unfold ParseInt.
  rewrite app_nil_r in Hs. rewrite Hs. cbn [num_frac num_exp num_int num_sign]. rewrite Hv. unfold sign_of, in_int64 in *.
  destruct (Z.ltb_spec z 0); cbn iota.
  - replace (- Z.abs z)%Z with z by lia. by rewrite (proj2 (andb_true_iff _ _)) by lia.
  - replace (Z.abs z)%Z with z by lia. by rewrite (proj2 (andb_true_iff _ _)) by lia.
Qed.

Lemma ParseInt_range t z : ParseInt t = Some z -> in_int64 z.
Proof.
  unfold ParseInt, in_int64. destruct (scan_number _) as [[n [|]]|]; [|done..].
  destruct (num_frac n), (num_exp n); try done. case_match eqn:H; [|done]. intros [= <-].
  apply andb_true_iff in H. lia.
Qed.
