(* ===== verification/JsonProps.v ===== *)
(** The JSON decoder ends on every text, and reads back what the encoder writes. *)
From S2P Require Import Prelude GoString Utf8 Json Decimal.
From Stdlib Require Import Ascii.

(** * The decoder ends *)

Lemma skip_ws_length l : length (skip_ws l) <= length l.
Proof. induction l as [|c l IH]; [done|]. cbn. case_if; cbn; lia. Qed.

Lemma scan_string_length l raw rest : scan_string l = Some (raw, rest) -> length rest < length l.
Proof.
  revert raw rest. induction l as [l IH] using (induction_ltof1 _ (@length ascii)). unfold ltof in IH. intros raw rest.
  destruct l as [|c r]; [done|]. cbn [scan_string length].
  case_if; [intros [= <- <-]; lia|]. case_if.
  - destruct r as [|e r1]; [done|]. case_if.
    + destruct r1 as [|x1 [|x2 [|x3 [|x4 r2]]]]; try done. destruct (hex4 x1 x2 x3 x4); [|done].
      destruct (scan_string r2) as [[raw' rest']|] eqn:Hs; [|done]. intros [= <- <-].
      apply IH in Hs; cbn in *; lia.
    + destruct (simple_escape e); [|done]. destruct (scan_string r1) as [[raw' rest']|] eqn:Hs; [|done].
      intros [= <- <-]. apply IH in Hs; cbn in *; lia.
  - case_if; [done|]. destruct (scan_string r) as [[raw' rest']|] eqn:Hs; [|done].
    intros [= <- <-]. apply IH in Hs; cbn in *; lia.
Qed.

Lemma digits_length l : length (digits l).2 <= length l.
Proof.
  induction l as [|c l IH]; [done|]. cbn. destruct (digit c); [|done].
  destruct (digits l) as [d rest]. cbn in *. lia.
Qed.

Lemma scan_number_length l n rest : scan_number l = Some (n, rest) -> length rest < length l.
Proof.
  unfold scan_number. destruct (scan_sign l) as [s l1] eqn:Hs.
  assert (length l1 <= length l) as H1.
  { unfold scan_sign in Hs. destruct l as [|c r]; [by injection Hs as <- <-|]. destruct (isc 45 c); injection Hs as <- <-; cbn; lia. }
  destruct (scan_int l1) as [[i l2]|] eqn:Hi; [|done].
  assert (length l2 < length l1) as H2.
  { unfold scan_int in Hi. destruct l1 as [|c r]; [done|]. destruct (isc 48 c); [injection Hi as <- <-; cbn; lia|].
    destruct (digit c) eqn:Hd; [|done]. injection Hi as Hi. cbn in Hi. rewrite Hd in Hi.
    pose proof (digits_length r). destruct (digits r). injection Hi as <- <-. cbn in *. lia. }
  destruct (scan_frac l2) as [[f l3]|] eqn:Hf; [|done].
  assert (length l3 <= length l2) as H3.
  { unfold scan_frac in Hf. destruct l2 as [|c r]; [by injection Hf as <- <-|]. destruct (isc 46 c); [|injection Hf as <- <-; lia].
    pose proof (digits_length r). destruct (digits r) as [[|x d] t]; [done|]. injection Hf as <- <-. cbn in *. lia. }
  destruct (scan_exp l3) as [[e l4]|] eqn:He; [|done].
  assert (length l4 <= length l3) as H4.
  { unfold scan_exp in He. destruct l3 as [|c r]; [by injection He as <- <-|]. destruct (isc 101 c || isc 69 c); [|injection He as <- <-; lia].
    destruct r as [|x r].
    - by cbn in He.
    - destruct (isc 43 x || isc 45 x); [pose proof (digits_length r) as Hd; destruct (digits r) as [[|y d] t]
               |pose proof (digits_length (x :: r)) as Hd; destruct (digits (x :: r)) as [[|y d] t]];
        try done; injection He as <- <-; cbn [length snd] in *; lia. }
  intros [= <- <-]. lia.
Qed.

Definition total {A} (l : list ascii) (p : pres A) : Prop :=
  match p with PFuel => False | PErr => True | POk _ rest => length rest < length l end.

Lemma total_map {A B} (f : A -> B) l p : total l p -> total l (pmap f p).
Proof. by destruct p. Qed.

Lemma total_longer {A} l l' (p : pres A) : total l p -> length l <= length l' -> total l' p.
Proof. destruct p; cbn; [done|done|lia]. Qed.

Lemma expect_total w j l : 0 < length (list_of w) -> total l (expect w j l).
Proof.
  intros Hw. unfold expect. destruct (prefixb (list_of w) l) eqn:Hp; [|done]. cbn.
  apply prefixb_spec in Hp as [k ->]. rewrite drop_app_length, length_app. lia.
Qed.

Lemma parse_ends fuel :
  (forall d l, 2 * length l + 1 <= fuel -> total l (parse_value fuel d l)) /\
  (forall d l, 2 * length l + 2 <= fuel -> total l (parse_elems fuel d l)) /\
  (forall d l, 2 * length l + 2 <= fuel -> total l (parse_members fuel d l)).
Proof.
  induction fuel as [|fuel (IHv & IHe & IHm)]; [split_and!; intros; lia|]. split_and!; intros d l Hf.
  - cbn [parse_value]. pose proof (skip_ws_length l) as Hl. destruct (skip_ws l) as [|c r]; [done|]. cbn [length] in Hl.
    apply (total_longer (c :: r)); [|done].
    pose proof (skip_ws_length r) as Hr.
    case_if; [case_if; [done|]; destruct (skip_ws r) as [|x r']; [done|]; case_if; [cbn in *; lia|];
      apply total_map, (total_longer r); [apply IHm; lia|cbn; lia]|].
    case_if; [case_if; [done|]; destruct (skip_ws r) as [|x r']; [done|]; case_if; [cbn in *; lia|];
      apply total_map, (total_longer r); [apply IHe; lia|cbn; lia]|].
    case_if; [destruct (scan_string r) as [[raw rest]|] eqn:Hs; [|done]; apply scan_string_length in Hs; cbn; lia|].
    case_if; [apply expect_total; cbn; lia|]. case_if; [apply expect_total; cbn; lia|]. case_if; [apply expect_total; cbn; lia|].
    destruct (scan_number (c :: r)) as [[n rest]|] eqn:Hs; [|done]. by apply scan_number_length in Hs.
  - cbn [parse_elems]. specialize (IHv d l ltac:(lia)). destruct (parse_value fuel d l) as [| |v r]; [done|done|]. cbn in IHv.
    pose proof (skip_ws_length r) as Hr. destruct (skip_ws r) as [|c r']; [done|]. cbn [length] in Hr.
    case_if; [apply total_map, (total_longer r'); [apply IHe; lia|lia]|]. case_if; [cbn; lia|done].
  - cbn [parse_members]. pose proof (skip_ws_length l) as Hl. destruct (skip_ws l) as [|q r]; [done|]. cbn [length] in Hl.
    case_if; [|done]. destruct (scan_string r) as [[raw r0]|] eqn:Hs; [|done]. apply scan_string_length in Hs.
    pose proof (skip_ws_length r0) as Hr0. destruct (skip_ws r0) as [|c r1]; [done|]. cbn [length] in Hr0.
    case_if; [|done]. specialize (IHv d r1 ltac:(lia)). destruct (parse_value fuel d r1) as [| |v r2]; [done|done|]. cbn in IHv.
    pose proof (skip_ws_length r2) as Hr2. destruct (skip_ws r2) as [|x r3]; [done|]. cbn [length] in Hr2.
    case_if; [apply total_map, (total_longer r3); [apply IHm; lia|lia]|]. case_if; [cbn; lia|done].
Qed.

(** The fuel of [parse_text] is never used up. *)
Lemma parse_text_ends l : parse_value (json_fuel l) 0 l <> PFuel.
Proof.
  pose proof (proj1 (parse_ends (json_fuel l)) 0%N l) as H. unfold json_fuel in *.
  destruct (parse_value _ _ _); [|done..]. exfalso. apply H. lia.
Qed.

(** * Round trip *)

Section Induction.
Variable P : json -> Prop.
Hypotheses (Hnull : P JNull) (Hbool : forall b, P (JBool b)) (Hnum : forall t, P (JNum t)) (Hstr : forall s, P (JStr s))
  (Harr : forall l, Forall P l -> P (JArr l)) (Hobj : forall l, Forall (fun kv => P kv.2) l -> P (JObj l)).

Fixpoint json_rect' (j : json) : P j :=
  match j with
  | JNull => Hnull
  | JBool b => Hbool b
  | JNum t => Hnum t
  | JStr s => Hstr s
  | JArr l => Harr l ((fix go l : Forall P l :=
      match l with [] => Forall_nil_2 _ | j :: l => Forall_cons_2 _ _ _ (json_rect' j) (go l) end) l)
  | JObj l => Hobj l ((fix go l : Forall (fun kv => P kv.2) l :=
      match l with [] => Forall_nil_2 _ | kv :: l => Forall_cons_2 _ _ _ (json_rect' kv.2) (go l) end) l)
  end.
End Induction.

(** Well-formed strings everywhere, and no numbers but 64-bit integers in decimal. *)
Fixpoint textual (j : json) : Prop :=
  match j with
  | JNum t => exists z, in_int64 z /\ t = fmt_d z
  | JStr s => utf8 (list_of s)
  | JArr l => (fix go l := match l with [] => True | j :: l => textual j /\ go l end) l
  | JObj l => (fix go l := match l with [] => True | (k, j) :: l => utf8 (list_of k) /\ textual j /\ go l end) l
  | _ => True
  end.

Fixpoint nesting (j : json) : N :=
  match j with
  | JArr l => 1 + foldr N.max 0 (map nesting l)
  | JObj l => 1 + foldr N.max 0 (map (fun kv => nesting kv.2) l)
  | _ => 0
  end%N.

Definition not_space (c : ascii) : bool := negb (json_space c).

Lemma skip_ws_id c l : json_space c = false -> skip_ws (c :: l) = c :: l.
Proof. intros H. cbn. by rewrite H. Qed.

Lemma expect_app w j l : expect w j (list_of w ++ l) = POk j l.
Proof.
  unfold expect. assert (prefixb (list_of w) (list_of w ++ l) = true) as -> by (apply prefixb_spec; by eexists).
  by rewrite drop_app_length.
Qed.

(** Every printed value starts with a character that is no space. *)
Lemma print_head j : textual j -> exists c l, print_json j = c :: l /\ json_space c = false /\ isc 93 c = false /\ isc 125 c = false.
Proof.
  destruct j as [|[]|t|s|l|l]; intros Ht; try by eexists _, _. destruct Ht as (z & _ & ->).
  destruct (fmt_d_head z) as (c & l & Heq & Hc). exists c, l. split; [done|].
  unfold json_space, isc. split_and!; rewrite ?orb_false_iff, ?N.eqb_neq; lia.
Qed.

Definition reads_back (j : json) : Prop := textual j -> forall fuel d rest, stops rest ->
  2 * length (print_json j ++ rest) + 1 <= fuel -> (d + nesting j <= maxNestingDepth)%N ->
  parse_value fuel d (print_json j ++ rest) = POk j rest.

Lemma reads_back_str s : reads_back (JStr s).
Proof.
  intros Hs fuel d rest _ Hf Hd. destruct fuel as [|fuel]; [cbn in Hf; lia|].
  cbn [print_json textual] in *. unfold enc_string. cbn [app parse_value].
  rewrite skip_ws_id by done. change (isc 123 (chr 34)) with false. change (isc 91 (chr 34)) with false.
  change (isc 34 (chr 34)) with true. cbn iota. rewrite <- app_assoc. cbn [app].
  destruct (scan_enc_string s rest Hs) as (raw & -> & Hraw). by rewrite Hraw.
Qed.

Lemma reads_back_word w j : In (w, j) [("null", JNull); ("true", JBool true); ("false", JBool false)] -> reads_back j.
Proof.
  intros Hin Ht fuel d rest _ Hf _. destruct fuel as [|fuel]; [lia|].
  cbn in Hin. destruct Hin as [[= <- <-]|[[= <- <-]|[[= <- <-]|[]]]].
  - apply (expect_app "null" JNull).
  - apply (expect_app "true" (JBool true)).
  - apply (expect_app "false" (JBool false)).
Qed.

(** A number literal is told from the other values by its first character. *)
Lemma reads_back_num t : reads_back (JNum t).
Proof.
  intros (z & _ & ->) fuel d rest Hr Hf _. destruct fuel as [|fuel]; [lia|]. cbn [print_json] in *.
  destruct (scan_fmt_d z rest Hr) as (ds & _ & Heq & Hs). destruct (fmt_d_head z) as (c & l & Hc & Hrange).
  assert (forall n, (n < 45 \/ 57 < n)%N -> isc n c = false) as Hno by (intros n Hn; apply N.eqb_neq; lia).
  rewrite Hc in *. cbn [app] in *. cbn [parse_value].
  rewrite skip_ws_id by (unfold json_space; by rewrite !Hno by lia). rewrite !Hno, Hs by lia. unfold num_text.
  cbn [num_sign num_int num_frac num_exp]. by rewrite !app_nil_r, <- Heq, <- Hc, of_list_of.
Qed.

Lemma reads_back_elems l : l <> [] -> Forall reads_back l -> Forall textual l -> forall fuel d rest,
  2 * length (print_elems print_json l ++ chr 93 :: rest) + 2 <= fuel ->
  (d + foldr N.max 0 (map nesting l) <= maxNestingDepth)%N ->
  parse_elems fuel d (print_elems print_json l ++ chr 93 :: rest) = POk l rest.
Proof.
  intros Hne Hl. destruct l as [|j l]; [done|]. clear Hne. revert j Hl.
  induction l as [|j' l IH]; intros j Hl Ht fuel d rest Hf Hd; destruct fuel as [|fuel]; try lia;
    apply Forall_cons_1 in Hl as [Hj Hl]; apply Forall_cons_1 in Ht as [Htj Htl]; cbn [parse_elems].
  - cbn [print_elems] in *. rewrite Hj; [|done|by repeat split|lia|cbn in Hd; lia].
    rewrite skip_ws_id by done. reflexivity.
  - change (print_elems print_json (j :: j' :: l)) with (print_json j ++ chr 44 :: print_elems print_json (j' :: l)) in *.
    rewrite <- app_assoc in *. cbn [app] in *. rewrite length_app in Hf. cbn [length] in Hf.
    rewrite Hj; [|done|by repeat split|rewrite length_app; cbn [length]; lia|cbn [map foldr] in Hd; lia].
    rewrite skip_ws_id by done. change (isc 44 (chr 44)) with true. cbn iota.
    rewrite IH; [done|done|done|lia|cbn [map foldr] in *; lia].
Qed.

Lemma reads_back_members l : l <> [] -> Forall (fun kv => reads_back kv.2) l ->
  Forall (fun kv => utf8 (list_of kv.1) /\ textual kv.2) l -> forall fuel d rest,
  2 * length (print_members print_json l ++ chr 125 :: rest) + 2 <= fuel ->
  (d + foldr N.max 0 (map (fun kv => nesting kv.2) l) <= maxNestingDepth)%N ->
  parse_members fuel d (print_members print_json l ++ chr 125 :: rest) = POk l rest.
Proof.
  intros Hne Hl. destruct l as [|[k j] l]; [done|]. clear Hne. revert k j Hl.
  assert (forall k j more fuel d, utf8 (list_of k) -> textual j -> reads_back j -> stops more ->
    2 * length (enc_string k ++ chr 58 :: print_json j ++ more) + 2 <= S fuel -> (d + nesting j <= maxNestingDepth)%N ->
    parse_members (S fuel) d (enc_string k ++ chr 58 :: print_json j ++ more) =
    match skip_ws more with
    | c :: r' => if isc 44 c then pmap (cons (k, j)) (parse_members fuel d r')
                 else if isc 125 c then POk [(k, j)] r' else PErr
    | [] => PErr
    end) as Hstep.
  { intros k j more fuel d Hk Hj Hb Hm Hf Hd. unfold enc_string in *. cbn [app parse_members].
    rewrite skip_ws_id by done. change (isc 34 (chr 34)) with true. cbn iota. rewrite <- app_assoc. cbn [app].
    destruct (scan_enc_string k (chr 58 :: print_json j ++ more) Hk) as (raw & -> & ->).
    rewrite skip_ws_id by done. change (isc 58 (chr 58)) with true. cbn iota.
    rewrite Hb; [done|done|done| |done]. cbn [app length] in Hf. rewrite !length_app in *. cbn [length] in Hf. rewrite length_app in Hf. lia. }
  induction l as [|[k' j'] l IH]; intros k j Hl Ht fuel d rest Hf Hd; (destruct fuel as [|fuel]; [lia|]);
    apply Forall_cons_1 in Hl as [Hj Hl]; apply Forall_cons_1 in Ht as [[Hk Htj] Htl]; cbn [fst snd] in *.
  - cbn [print_members] in *. rewrite <- app_assoc in *. cbn [app] in *.
    rewrite Hstep; [|done|done|done|by repeat split|lia|cbn in Hd; lia]. rewrite skip_ws_id by done. reflexivity.
  - change (print_members print_json ((k, j) :: (k', j') :: l)) with
      (enc_string k ++ chr 58 :: print_json j ++ chr 44 :: print_members print_json ((k', j') :: l)) in *.
    rewrite <- app_assoc in *. cbn [app] in *. rewrite <- app_assoc in *. cbn [app] in *.
    rewrite Hstep; [|done|done|done|by repeat split|lia|cbn [map foldr snd] in Hd; lia].
    rewrite skip_ws_id by done. change (isc 44 (chr 44)) with true. cbn iota.
    rewrite IH; [done|done|done| |cbn [map foldr snd] in *; lia].
    rewrite length_app in Hf. cbn [length] in Hf. rewrite length_app in Hf. cbn [length] in Hf. lia.
Qed.

Lemma textual_arr l : textual (JArr l) -> Forall textual l.
Proof. cbn. induction l as [|j l IH]; [by constructor|]. intros [Hj Hl]. constructor; [done|by apply IH]. Qed.

Lemma textual_obj l : textual (JObj l) -> Forall (fun kv => utf8 (list_of kv.1) /\ textual kv.2) l.
Proof. cbn. induction l as [|[k j] l IH]; [by constructor|]. intros (Hk & Hj & Hl). constructor; [done|by apply IH]. Qed.

Lemma reads_back_all j : reads_back j.
Proof.
  induction j as [| [] | t | s | l IH | l IH] using json_rect'.
  - apply (reads_back_word "null"). by left.
  - apply (reads_back_word "true"). by right; left.
  - apply (reads_back_word "false"). by right; right; left.
  - apply reads_back_num.
  - apply reads_back_str.
  - intros Ht%textual_arr fuel d rest _ Hf Hd. destruct fuel as [|fuel]; [lia|]. cbn [nesting] in Hd.
    change (print_json (JArr l)) with (chr 91 :: print_elems print_json l ++ [chr 93]) in *.
    cbn [app parse_value]. rewrite skip_ws_id by done. change (isc 123 (chr 91)) with false. change (isc 91 (chr 91)) with true.
    cbn iota. rewrite (proj2 (N.leb_gt _ _)) by lia. cbn [app length] in Hf. rewrite <- app_assoc in *. cbn [app] in *.
    destruct l as [|j l]; [reflexivity|].
    assert (exists c r, print_elems print_json (j :: l) ++ chr 93 :: rest = c :: r /\ json_space c = false /\ isc 93 c = false) as (c & r & Hc & Hs & H93).
    { destruct (print_head j) as (c & r & Hp & Hs & H93 & _); [by apply Forall_cons_1 in Ht as [? _]|].
      destruct l; cbn [print_elems]; rewrite Hp; by eexists _, _. }
    pose proof (reads_back_elems (j :: l) ltac:(done) IH Ht fuel (d + 1)%N rest ltac:(lia) ltac:(lia)) as Hr.
    rewrite Hc in *. rewrite skip_ws_id, H93 by done. by rewrite Hr.
  - intros Ht%textual_obj fuel d rest _ Hf Hd. destruct fuel as [|fuel]; [lia|]. cbn [nesting] in Hd.
    change (print_json (JObj l)) with (chr 123 :: print_members print_json l ++ [chr 125]) in *.
    cbn [app parse_value]. rewrite skip_ws_id by done. change (isc 123 (chr 123)) with true.
    cbn iota. rewrite (proj2 (N.leb_gt _ _)) by lia. cbn [app length] in Hf. rewrite <- app_assoc in *. cbn [app] in *.
    destruct l as [|[k j] l]; [reflexivity|].
    assert (exists r, print_members print_json ((k, j) :: l) ++ chr 125 :: rest = chr 34 :: r) as (r & Hc).
    { destruct l; unfold print_members, enc_string; by eexists. }
    pose proof (reads_back_members ((k, j) :: l) ltac:(done) IH Ht fuel (d + 1)%N rest ltac:(lia) ltac:(lia)) as Hr.
    rewrite Hc in *. rewrite skip_ws_id by done. change (isc 125 (chr 34)) with false. cbn iota. by rewrite Hr.
Qed.

Lemma textual_finite j : textual j -> all_finite j = true.
Proof.
  induction j as [| [] | t | s | l IH | l IH] using json_rect'; try done; intros Ht.
  - destruct Ht as (z & Hz & ->). destruct (scan_fmt_d z [] I) as (ds & Hv & _ & Hs). rewrite app_nil_r in Hs.
    cbn [all_finite]. rewrite Hs. unfold finite. cbn [num_int num_frac num_exp tail exp_value length].
    rewrite app_nil_r, Hv. destruct (Z.abs z =? 0)%Z; [done|]. cbn [Z.of_nat Z.leb Z.sub]. 
    unfold in_int64 in Hz. apply Z.ltb_lt. change (2 ^ 1024)%Z with (2 ^ 960 * 2 ^ 64)%Z. nia.
  - apply textual_arr in Ht. cbn. induction IH as [|j l Hj _ IHl]; [done|]. apply Forall_cons_1 in Ht as [? ?].
    cbn. by rewrite Hj, IHl.
  - apply textual_obj in Ht. cbn. induction IH as [|[k j] l Hj _ IHl]; [done|]. apply Forall_cons_1 in Ht as [[? ?] ?].
    cbn in *. by rewrite Hj, IHl.
Qed.

(** Decoding what was encoded. *)
Lemma Unmarshal_print j : textual j -> (nesting j <= maxNestingDepth)%N -> Unmarshal (of_list (print_json j)) = Some j.
Proof.
  intros Ht Hn. unfold Unmarshal, json_valid, parse_text. rewrite list_of_of_list.
  pose proof (reads_back_all j Ht (json_fuel (print_json j)) 0%N [] I) as H. rewrite app_nil_r in H.
  rewrite H; [|unfold json_fuel; lia|done]. cbn [skip_ws]. by rewrite textual_finite.
Qed.

Lemma Unmarshal_valid text j : Unmarshal text = Some j -> json_valid text = Some j.
Proof. unfold Unmarshal. destruct (json_valid text) as [j'|]; [|done]. case_match; congruence. Qed.

Lemma json_valid_print j : textual j -> (nesting j <= maxNestingDepth)%N -> json_valid (of_list (print_json j)) = Some j.
Proof. intros Ht Hn. by apply Unmarshal_valid, Unmarshal_print. Qed.

(** A value is nested one deeper than its members. *)
Lemma nesting_bound {A} (f : A -> N) b l : Forall (fun x => f x <= b)%N l -> (foldr N.max 0 (map f l) <= b)%N.
Proof. induction 1; cbn [map foldr]; lia. Qed.
