(* ===== verification/Base64.v ===== *)
(** [base64.StdEncoding], which [encoding/json] uses for a [[]byte]: three bytes become
    four letters, the last group is padded; decoding skips line breaks. *)
From S2P Require Import Prelude GoString Utf8 Json.
From Stdlib Require Import Ascii.
Local Open Scope N_scope.

(** The letter of a 6-bit value and back. *)
Definition letter (v : N) : ascii :=
  if v <? 26 then chr (65 + v) else if v <? 52 then chr (71 + v) else if v <? 62 then chr (v - 4)
  else if v =? 62 then chr 43 else chr 47.

Definition letter_value (c : ascii) : option N :=
  let n := N_of_ascii c in
  if in_range 65 90 c then Some (n - 65) else if in_range 97 122 c then Some (n - 71)
  else if in_range 48 57 c then Some (n + 4) else if n =? 43 then Some 62 else if n =? 47 then Some 63 else None.

Definition pad : ascii := chr 61.

Fixpoint b64_encode (l : list ascii) : list ascii :=
  match l with
  | [] => []
  | [a] => let a := N_of_ascii a in [letter (a / 4); letter (a mod 4 * 16); pad; pad]
  | [a; b] =>
      let a := N_of_ascii a in let b := N_of_ascii b in
      [letter (a / 4); letter (a mod 4 * 16 + b / 16); letter (b mod 16 * 4); pad]
  | a :: b :: c :: l =>
      let a := N_of_ascii a in let b := N_of_ascii b in let c := N_of_ascii c in
      letter (a / 4) :: letter (a mod 4 * 16 + b / 16) :: letter (b mod 16 * 4 + c / 64) :: letter (c mod 64) :: b64_encode l
  end.

Definition byte1 (x y : N) : ascii := chr (x * 4 + y / 16).
Definition byte2 (y z : N) : ascii := chr (y mod 16 * 16 + z / 4).
Definition byte3 (z w : N) : ascii := chr (z mod 4 * 64 + w).

(** Groups of four letters; padding only closes the text. *)
Fixpoint decode_groups (l : list ascii) : option (list ascii) :=
  match l with
  | [] => Some []
  | a :: b :: c :: d :: l =>
      match letter_value a, letter_value b with
      | Some x, Some y =>
          match letter_value c, letter_value d with
          | Some z, Some w => (fun r => byte1 x y :: byte2 y z :: byte3 z w :: r) <$> decode_groups l
          | Some z, None => if isc 61 d && bool_decide (l = []) then Some [byte1 x y; byte2 y z] else None
          | None, _ => if isc 61 c && isc 61 d && bool_decide (l = []) then Some [byte1 x y] else None
          end
      | _, _ => None
      end
  | _ => None
  end.

Definition b64_decode (l : list ascii) : option (list ascii) :=
  decode_groups (List.filter (fun c => negb (isc 10 c || isc 13 c)) l).

(** * Round trip *)

Lemma letter_back v : v < 64 -> letter_value (letter v) = Some v /\ isc 10 (letter v) = false /\ isc 13 (letter v) = false
  /\ in_range 0 127 (letter v) = true.
Proof.
  intros Hv.
  assert (forallb (fun v => bool_decide (letter_value (letter v) = Some v) && negb (isc 10 (letter v)) && negb (isc 13 (letter v))
    && in_range 0 127 (letter v)) (N.of_nat <$> seq 0 64) = true) as H by (vm_compute; reflexivity).
  rewrite forallb_forall in H. specialize (H v). rewrite !andb_true_iff, bool_decide_eq_true, !negb_true_iff in H.
  destruct H as (((H1 & H2) & H3) & H4); [|done]. apply list_elem_of_In, list_elem_of_fmap. exists (N.to_nat v).
  split; [lia|]. apply elem_of_seq. lia.
Qed.

Lemma byte_small c : N_of_ascii c < 256.
Proof. apply N_ascii_bounded. Qed.

Lemma chr_byte c n : n = N_of_ascii c -> chr n = c.
Proof. intros ->. apply ascii_N_embedding. Qed.

Local Ltac solve_div := zify; Z.to_euclidean_division_equations; lia.

Lemma byte1_back a b : N_of_ascii b < 256 -> byte1 (N_of_ascii a / 4) (N_of_ascii a mod 4 * 16 + N_of_ascii b / 16) = a.
Proof. intros Hb. apply chr_byte. pose proof (byte_small a). solve_div. Qed.
Lemma byte2_back a b c : N_of_ascii c < 256 ->
  byte2 (a mod 4 * 16 + N_of_ascii b / 16) (N_of_ascii b mod 16 * 4 + N_of_ascii c / 64) = b.
Proof. intros Hc. apply chr_byte. pose proof (byte_small b). solve_div. Qed.
Lemma byte3_back b c : byte3 (b mod 16 * 4 + N_of_ascii c / 64) (N_of_ascii c mod 64) = c.
Proof. apply chr_byte. pose proof (byte_small c). solve_div. Qed.

(** The four letters of a group: none is a line break, and they b64_decode to their values. *)
Lemma letters_small a b c :
  N_of_ascii a / 4 < 64 /\ N_of_ascii a mod 4 * 16 + N_of_ascii b / 16 < 64 /\
  N_of_ascii b mod 16 * 4 + N_of_ascii c / 64 < 64 /\ N_of_ascii c mod 64 < 64.
Proof. pose proof (byte_small a). pose proof (byte_small b). pose proof (byte_small c). split_and!; solve_div. Qed.

Section Induction.
Variable P : list ascii -> Prop.
Hypotheses (H0 : P []) (H1 : forall a, P [a]) (H2 : forall a b, P [a; b])
  (H3 : forall a b c l, P l -> P (a :: b :: c :: l)).

Fixpoint triples_ind (l : list ascii) : P l :=
  match l with
  | [] => H0
  | [a] => H1 a
  | [a; b] => H2 a b
  | a :: b :: c :: l => H3 a b c l (triples_ind l)
  end.
End Induction.

Definition clear_letter (c : ascii) : bool := negb (isc 10 c || isc 13 c) && in_range 0 127 c.

Lemma clear_letter_ok v : v < 64 -> clear_letter (letter v) = true.
Proof. intros Hv. destruct (letter_back v Hv) as (_ & H10 & H13 & Hr). unfold clear_letter. by rewrite H10, H13, Hr. Qed.

Lemma b64_clear l : Forall (fun c => clear_letter c = true) (b64_encode l).
Proof.
  induction l as [|a|a b|a b c l IH] using triples_ind; cbn [b64_encode]; [done|..].
  - destruct (letters_small a (chr 0) (chr 0)) as (Ha & Hb & _). change (N_of_ascii (chr 0) / 16) with 0 in Hb.
    rewrite N.add_0_r in Hb. repeat constructor; by apply clear_letter_ok.
  - destruct (letters_small a b (chr 0)) as (Ha & Hb & Hc & _). change (N_of_ascii (chr 0) / 64) with 0 in Hc.
    rewrite N.add_0_r in Hc. repeat constructor; by apply clear_letter_ok.
  - destruct (letters_small a b c) as (Ha & Hb & Hc & Hd). repeat (constructor; [by apply clear_letter_ok|]). done.
Qed.

Lemma decode_groups_encode l : decode_groups (b64_encode l) = Some l.
Proof.
  induction l as [|a|a b|a b c l IH] using triples_ind; cbn [b64_encode]; [done|..].
  - destruct (letters_small a (chr 0) (chr 0)) as (Ha & Hb & _).
    pose proof (byte1_back a (chr 0) (byte_small _)) as Hx. change (N_of_ascii (chr 0) / 16) with 0 in *.
    rewrite N.add_0_r in *. cbn [decode_groups].
    rewrite (proj1 (letter_back _ Ha)), (proj1 (letter_back _ Hb)). cbn. by rewrite Hx.
  - destruct (letters_small a b (chr 0)) as (Ha & Hb & Hc & _).
    pose proof (byte1_back a b (byte_small _)) as Hx. pose proof (byte2_back (N_of_ascii a) b (chr 0) (byte_small _)) as Hy.
    change (N_of_ascii (chr 0) / 64) with 0 in *. rewrite N.add_0_r in *. cbn [decode_groups].
    rewrite (proj1 (letter_back _ Ha)), (proj1 (letter_back _ Hb)), (proj1 (letter_back _ Hc)). cbn. by rewrite Hx, Hy.
  - destruct (letters_small a b c) as (Ha & Hb & Hc & Hd). cbn [decode_groups].
    rewrite (proj1 (letter_back _ Ha)), (proj1 (letter_back _ Hb)), (proj1 (letter_back _ Hc)), (proj1 (letter_back _ Hd)), IH.
    cbn. by rewrite byte1_back, byte2_back, byte3_back by apply byte_small.
Qed.

Lemma b64_round_trip l : b64_decode (b64_encode l) = Some l.
Proof.
  unfold b64_decode. assert (List.filter (fun c => negb (isc 10 c || isc 13 c)) (b64_encode l) = b64_encode l) as ->; [|apply decode_groups_encode].
  pose proof (b64_clear l) as H. induction H as [|c e Hc _ IH]; [done|]. cbn [List.filter].
  apply andb_true_iff in Hc as [Hc _]. by rewrite Hc, IH.
Qed.

(** The letters are ASCII. *)
Lemma b64_ascii l : Forall (fun c => is_ascii c = true) (b64_encode l).
Proof. eapply Forall_impl; [apply b64_clear|]. intros c Hc. by apply andb_true_iff in Hc as [_ Hc]. Qed.
