(* ===== verification/Autonomy.v ===== *)
(** The autonomy dial (core/autonomy): tiers and their presets, the three layers that
    override them, their JSON form, and the resolution of every knob.  A Go [any] that
    holds a knob value is [kval]; a nil Overrides map reads as an empty one everywhere
    and is modelled as such.  A FamilySet is a set or nil; resolution copies sets, so a
    value is enough.  The tables are Go map literals. *)
From S2P Require Import Prelude GoString Utf8 Json Decimal Base64.
From stdpp Require Import gmap.
From Stdlib Require Import Ascii.

(** * Tiers *)

(** Go's [Tier] is an int: any value can be stored. *)
Definition Tier : Type := Z.
Definition TierStrict : Tier := 0%Z.
Definition TierCautious : Tier := 1%Z.
Definition TierDefault : Tier := 2%Z.
Definition TierBold : Tier := 3%Z.
Definition TierAutonomous : Tier := 4%Z.

Definition Tier_String (t : Tier) : string :=
  if (t =? TierStrict)%Z then "strict" else if (t =? TierCautious)%Z then "cautious"
  else if (t =? TierDefault)%Z then "default" else if (t =? TierBold)%Z then "bold"
  else if (t =? TierAutonomous)%Z then "autonomous" else "tier(" +:+ fmt_d t +:+ ")".

Definition ParseTier (s : string) : result Tier string :=
  let w := ToLower (TrimSpace s) in
  if bool_decide (w = "strict") then Ok TierStrict
  else if bool_decide (w = "cautious") then Ok TierCautious
  else if bool_decide (w = "default") then Ok TierDefault
  else if bool_decide (w = "bold") then Ok TierBold
  else if bool_decide (w = "autonomous") then Ok TierAutonomous
  else Err ("autonomy: unknown tier " +:+ fmt_q s).

(** * Knobs and their values *)

(** Go's [Knob] is a string type. *)
Notation Knob := string (only parsing).
Definition KnobMaxIterations : Knob := "maxIterations".
Definition KnobAskOnAmbiguity : Knob := "askOnAmbiguity".
Definition KnobAutoApproveFamilies : Knob := "autoApproveFamilies".
Definition KnobTokenCeilingPerTurn : Knob := "tokenCeilingPerTurn".
Definition KnobRecapStyle : Knob := "recapStyle".
Definition KnobContinueOnError : Knob := "continueOnError".
Definition KnobDestructiveActionPosture : Knob := "destructiveActionPosture".
Definition KnobRiskThreshold : Knob := "riskThreshold".

Definition AskAlways : string := "always".
Definition AskHard : string := "hard".
Definition AskMajor : string := "major".
Definition AskProceed : string := "proceed".
Definition AskNever : string := "never".
Definition RecapNone : string := "none".
Definition RecapBrief : string := "brief".
Definition RecapFull : string := "full".
Definition ErrorStop : string := "stop".
Definition ErrorRetryOnce : string := "retry-once".
Definition ErrorAdapt : string := "adapt".
Definition DestructiveConfirm : string := "confirm".
Definition DestructiveCedarOnly : string := "cedar-only".

Definition FamilyRead : string := "read".
Definition FamilyWrite : string := "write".
Definition FamilyShellSafe : string := "shell-safe".
Definition FamilyNetwork : string := "network".

(** A set of families; [None] is the nil map. *)
Definition FamilySet : Type := option (gset string).

Definition NewFamilySet (families : list string) : FamilySet := Some (list_to_set families).
Definition fs_Has (fs : FamilySet) (family : string) : bool :=
  match fs with Some s => bool_decide (family ∈ s) | None => false end.
Definition fs_Add (fs : FamilySet) (family : string) : FamilySet := Some ({[family]} ∪ default ∅ fs).
Definition fs_Remove (fs : FamilySet) (family : string) : FamilySet := (fun s => s ∖ {[family]}) <$> fs.
Definition Sorted (fs : FamilySet) : list string :=
  match fs with Some s => sort_strings (elements s) | None => [] end.
Definition fs_Equal (fs other : FamilySet) : bool :=
  (size (default ∅ fs) =? size (default ∅ other))%nat &&
  forallb (fs_Has other) (elements (default ∅ fs : gset string)).

(** The dynamic values a knob can hold; [KOther] is a value of any further type, given
    by its JSON form, and [KNil] the nil interface. *)
Inductive kval :=
| KNil
| KInt (n : Z)
| KAsk (m : string)
| KFamilies (fs : FamilySet)
| KRecap (m : string)
| KError (m : string)
| KPosture (m : string)
| KOther (j : json).

(** * Layers *)

Record Layer := {
  l_Level : option Tier; l_Overrides : gmap Knob kval;
  l_PostureMode : option string; l_PrePlanLayer : option string
}.

Definition emptyLayer : Layer := {| l_Level := None; l_Overrides := ∅; l_PostureMode := None; l_PrePlanLayer := None |}.
Definition DefaultLayer : Layer :=
  {| l_Level := Some TierDefault; l_Overrides := ∅; l_PostureMode := None; l_PrePlanLayer := None |}.

Definition IsZero (l : Layer) : bool :=
  bool_decide (l_Level l = None) && (size (l_Overrides l) =? 0)%nat &&
  bool_decide (l_PostureMode l = None) && bool_decide (l_PrePlanLayer l = None).

(** * Encoding *)

Definition kval_json (v : kval) : json :=
  match v with
  | KNil => JNull
  | KInt n => JNum (fmt_d n)
  | KAsk m | KRecap m | KError m | KPosture m => JStr m
  | KFamilies None => JNull
  | KFamilies fs => JArr (JStr <$> Sorted fs)
  | KOther j => j
  end.

(** Map keys are printed in sorted order. *)
Definition marshalOverrides (m : gmap Knob kval) : json :=
  JObj (omap (fun k => (fun v => (k, kval_json v)) <$> m !! k) (sort_strings (elements (dom m)))).

Definition optional_str (k : string) (v : option string) : list (string * json) :=
  match v with Some s => [(k, JStr s)] | None => [] end.

Definition pre_plan_member (v : option string) : list (string * json) :=
  match v with
  | Some s => if bool_decide (s = "") then [] else [("pre_plan_layer", JStr (of_list (b64_encode (list_of s))))]
  | None => []
  end.

Definition layer_json (l : Layer) : json :=
  JObj (("level", match l_Level l with Some t => JStr (Tier_String t) | None => JNull end) ::
        ("overrides", marshalOverrides (l_Overrides l)) ::
        optional_str "posture_mode" (l_PostureMode l) ++ pre_plan_member (l_PrePlanLayer l)).

Definition MarshalJSON (l : Layer) : string := of_list (print_json (layer_json l)).

(** * Decoding *)

Definition decode_int (j : json) : option Z :=
  match j with JNum t => ParseInt t | JNull => Some 0%Z | _ => None end.
Definition decode_str (j : json) : option string :=
  match j with JStr s => Some s | JNull => Some "" | _ => None end.

(** [FamilySet.UnmarshalJSON], then the nil set is replaced by an empty one. *)
Definition decode_families (j : json) : option (gset string) :=
  match j with
  | JNull => Some ∅
  | JArr l => list_to_set <$> mapM decode_str l
  | _ => None
  end.

Definition decodeKnobValue (k : Knob) (j : json) : option kval :=
  if bool_decide (k = KnobMaxIterations \/ k = KnobTokenCeilingPerTurn \/ k = KnobRiskThreshold) then KInt <$> decode_int j
  else if bool_decide (k = KnobAskOnAmbiguity) then KAsk <$> decode_str j
  else if bool_decide (k = KnobRecapStyle) then KRecap <$> decode_str j
  else if bool_decide (k = KnobContinueOnError) then KError <$> decode_str j
  else if bool_decide (k = KnobDestructiveActionPosture) then KPosture <$> decode_str j
  else if bool_decide (k = KnobAutoApproveFamilies) then (fun s => KFamilies (Some s)) <$> decode_families j
  else None.

(** Decoding an object into a Go map: a later member with the same key wins. *)
Definition members_map (l : list (string * json)) : gmap string json :=
  foldl (fun m kv => <[kv.1 := kv.2]> m) ∅ l.

Definition unmarshalOverrides (j : json) : option (gmap Knob kval) :=
  match j with
  | JObj l =>
      let raw := members_map l in
      if bool_decide (map_Forall (fun k v => is_Some (decodeKnobValue k v)) raw)
      then Some (map_imap decodeKnobValue raw) else None
  | JNull => Some ∅
  | _ => None
  end.

(** [jsonLayer]: the raw members of a layer. *)
Record jsonLayer := {
  jl_Level : option string; jl_Overrides : option json; jl_PostureMode : option string; jl_PrePlanLayer : option string
}.

Definition zero_jsonLayer : jsonLayer :=
  {| jl_Level := None; jl_Overrides := None; jl_PostureMode := None; jl_PrePlanLayer := None |}.

Definition decode_str_ptr (j : json) : option (option string) :=
  match j with JNull => Some None | JStr s => Some (Some s) | _ => None end.

(** A byte in an array; null leaves the zero byte. *)
Definition decode_byte (j : json) : option ascii :=
  match j with
  | JNull => Some (chr 0)
  | JNum t => match ParseInt t with
              | Some n => if ((0 <=? n) && (n <? 256))%Z then Some (chr (Z.to_N n)) else None
              | None => None
              end
  | _ => None
  end.

(** A []byte: base64 text, or an array of numbers. *)
Definition decode_bytes (j : json) : option (option string) :=
  match j with
  | JNull => Some None
  | JStr s => (fun b => Some (of_list b)) <$> b64_decode (list_of s)
  | JArr l => (fun b => Some (of_list b)) <$> mapM decode_byte l
  | _ => None
  end.

(** One member of the object: field names are matched without case, others are skipped. *)
Definition decode_member (r : jsonLayer) (kv : string * json) : option jsonLayer :=
  let '(k, j) := kv in
  if EqualFold k "level" then
    (fun v => {| jl_Level := v; jl_Overrides := jl_Overrides r; jl_PostureMode := jl_PostureMode r; jl_PrePlanLayer := jl_PrePlanLayer r |})
      <$> decode_str_ptr j
  else if EqualFold k "overrides" then
    Some {| jl_Level := jl_Level r; jl_Overrides := Some j; jl_PostureMode := jl_PostureMode r; jl_PrePlanLayer := jl_PrePlanLayer r |}
  else if EqualFold k "posture_mode" then
    (fun v => {| jl_Level := jl_Level r; jl_Overrides := jl_Overrides r; jl_PostureMode := v; jl_PrePlanLayer := jl_PrePlanLayer r |})
      <$> decode_str_ptr j
  else if EqualFold k "pre_plan_layer" then
    (fun v => {| jl_Level := jl_Level r; jl_Overrides := jl_Overrides r; jl_PostureMode := jl_PostureMode r; jl_PrePlanLayer := v |})
      <$> decode_bytes j
  else Some r.

Definition decode_members (l : list (string * json)) : option jsonLayer :=
  foldl (fun r kv => r ≫= fun r => decode_member r kv) (Some zero_jsonLayer) l.

Definition decode_jsonLayer (j : json) : option jsonLayer :=
  match j with JNull => Some zero_jsonLayer | JObj l => decode_members l | _ => None end.

(** Why a layer text is refused; the message of the JSON package is not modelled. *)
Inductive LayerErr := ErrJSON | ErrTier (msg : string) | ErrOverrides.

Definition layer_of (raw : jsonLayer) : result Layer LayerErr :=
  let! level := match jl_Level raw with
                | None => Ok None
                | Some s => match ParseTier s with Ok t => Ok (Some t) | Err e => Err (ErrTier e) end
                end in
  let! ov := match jl_Overrides raw with
             | None | Some JNull => Ok ∅
             | Some j => match unmarshalOverrides j with Some m => Ok m | None => Err ErrOverrides end
             end in
  Ok {| l_Level := level; l_Overrides := ov; l_PostureMode := jl_PostureMode raw; l_PrePlanLayer := jl_PrePlanLayer raw |}.

Definition UnmarshalJSON (text : string) : result Layer LayerErr :=
  match json_valid text with
  | None => Err ErrJSON
  | Some j => match decode_jsonLayer j with None => Err ErrJSON | Some raw => layer_of raw end
  end.

(** * Presets *)

Definition preset (iters : Z) (ask : string) (families : list string) (tokens : Z) (recap err posture : string) (risk : Z) :
    gmap Knob kval :=
  list_to_map [
    (KnobMaxIterations, KInt iters); (KnobAskOnAmbiguity, KAsk ask);
    (KnobAutoApproveFamilies, KFamilies (NewFamilySet families)); (KnobTokenCeilingPerTurn, KInt tokens);
    (KnobRecapStyle, KRecap recap); (KnobContinueOnError, KError err);
    (KnobDestructiveActionPosture, KPosture posture); (KnobRiskThreshold, KInt risk)].

Definition PostureModePlanMode : string := "plan_mode".

Definition planModePreset : gmap Knob kval :=
  preset 50 AskAlways [] 131072 RecapFull ErrorStop DestructiveConfirm 0.

Definition presetTable (t : Tier) : option (gmap Knob kval) :=
  if (t =? TierStrict)%Z then Some (preset 5 AskAlways [] 8192 RecapNone ErrorStop DestructiveConfirm 0)
  else if (t =? TierCautious)%Z then Some (preset 15 AskHard [FamilyRead] 32768 RecapBrief ErrorStop DestructiveConfirm 20)
  else if (t =? TierDefault)%Z then
    Some (preset 40 AskMajor [FamilyRead; FamilyWrite] 131072 RecapBrief ErrorRetryOnce DestructiveConfirm 40)
  else if (t =? TierBold)%Z then
    Some (preset 100 AskProceed [FamilyRead; FamilyWrite; FamilyShellSafe] 524288 RecapFull ErrorAdapt DestructiveCedarOnly 60)
  else if (t =? TierAutonomous)%Z then
    Some (preset 0 AskNever [FamilyRead; FamilyWrite; FamilyShellSafe; FamilyNetwork] 2097152 RecapFull ErrorAdapt
            DestructiveCedarOnly 80)
  else None.

Definition PresetForTier (t : Tier) : option (gmap Knob kval) := presetTable t.

Definition PresetForPostureMode (mode : string) : option (gmap Knob kval) :=
  if bool_decide (mode = PostureModePlanMode) then Some planModePreset else None.

Record BudgetCeiling := { bc_MaxLLMCallsPerRun : Z; bc_MaxToolCallsPerRun : Z; bc_MaxCostUSDPerRun : Z }.

Definition budgetCeilingTable (t : Tier) : option BudgetCeiling :=
  let row l c d := Some {| bc_MaxLLMCallsPerRun := l; bc_MaxToolCallsPerRun := c; bc_MaxCostUSDPerRun := d |} in
  if (t =? TierStrict)%Z then row 150%Z 300%Z 1%Z else if (t =? TierCautious)%Z then row 500%Z 1000%Z 5%Z
  else if (t =? TierDefault)%Z then row 1500%Z 3000%Z 15%Z else if (t =? TierBold)%Z then row 3000%Z 6000%Z 50%Z
  else if (t =? TierAutonomous)%Z then row 5000%Z 10000%Z 0%Z else None.

Definition zeroCeiling : BudgetCeiling := {| bc_MaxLLMCallsPerRun := 0; bc_MaxToolCallsPerRun := 0; bc_MaxCostUSDPerRun := 0 |}.

Definition BudgetCeilingForTier (t : Tier) : BudgetCeiling :=
  match budgetCeilingTable t with Some c => c | None => default zeroCeiling (budgetCeilingTable TierDefault) end.

(** * Resolution *)

Inductive Source := SourceSession | SourceProject | SourceGlobal | SourceTierDefault | SourcePostureMode.

#[export] Instance Source_eq_dec : EqDecision Source.
Proof. solve_decision. Defined.

Record ResolvedKnobs := {
  rk_MaxIterations : Z; rk_AskOnAmbiguity : string; rk_AutoApproveFamilies : FamilySet; rk_TokenCeilingPerTurn : Z;
  rk_RecapStyle : string; rk_ContinueOnError : string; rk_DestructiveActionPosture : string; rk_RiskThreshold : Z;
  rk_SourceTrace : gmap Knob Source; rk_PostureMode : string; rk_EffectiveTier : Tier
}.

Definition allKnobs : list Knob :=
  [KnobMaxIterations; KnobAskOnAmbiguity; KnobAutoApproveFamilies; KnobTokenCeilingPerTurn; KnobRecapStyle;
   KnobContinueOnError; KnobDestructiveActionPosture; KnobRiskThreshold].

(** [map[k]] on the row of a table: a missing key is the nil interface. *)
Definition row_value (row : gmap Knob kval) (k : Knob) : kval := default KNil (row !! k).

Definition presetValue (t : Tier) (k : Knob) : kval :=
  row_value (match presetTable t with Some row => row | None => default ∅ (presetTable TierDefault) end) k.

Definition effectiveTierOf (global project session : Layer) : Tier :=
  match l_Level session with
  | Some t => t
  | None => match l_Level project with
            | Some t => t
            | None => match l_Level global with Some t => t | None => TierDefault end
            end
  end.

Definition resolveKnob (k : Knob) (global project session : Layer) : kval * Source :=
  match l_Overrides session !! k with Some v => (v, SourceSession) | None =>
  match l_Overrides project !! k with Some v => (v, SourceProject) | None =>
  match l_Overrides global !! k with Some v => (v, SourceGlobal) | None =>
  match l_Level session with Some t => (presetValue t k, SourceSession) | None =>
  match l_Level project with Some t => (presetValue t k, SourceProject) | None =>
  match l_Level global with Some t => (presetValue t k, SourceGlobal) | None =>
  (presetValue TierDefault k, SourceTierDefault) end end end end end end.

Definition zeroKnobs (mode : string) (tier : Tier) : ResolvedKnobs :=
  {| rk_MaxIterations := 0; rk_AskOnAmbiguity := ""; rk_AutoApproveFamilies := None; rk_TokenCeilingPerTurn := 0;
     rk_RecapStyle := ""; rk_ContinueOnError := ""; rk_DestructiveActionPosture := ""; rk_RiskThreshold := 0;
     rk_SourceTrace := ∅; rk_PostureMode := mode; rk_EffectiveTier := tier |}.

(** Writes the field of the knob; a value of another type leaves it. *)
Definition assignKnob (r : ResolvedKnobs) (k : Knob) (v : kval) : ResolvedKnobs :=
  let '{| rk_MaxIterations := mi; rk_AskOnAmbiguity := am; rk_AutoApproveFamilies := fs; rk_TokenCeilingPerTurn := tc;
          rk_RecapStyle := rs; rk_ContinueOnError := ce; rk_DestructiveActionPosture := dp; rk_RiskThreshold := rt;
          rk_SourceTrace := st; rk_PostureMode := pm; rk_EffectiveTier := et |} := r in
  let mk mi am fs tc rs ce dp rt :=
    {| rk_MaxIterations := mi; rk_AskOnAmbiguity := am; rk_AutoApproveFamilies := fs; rk_TokenCeilingPerTurn := tc;
       rk_RecapStyle := rs; rk_ContinueOnError := ce; rk_DestructiveActionPosture := dp; rk_RiskThreshold := rt;
       rk_SourceTrace := st; rk_PostureMode := pm; rk_EffectiveTier := et |} in
  if bool_decide (k = KnobMaxIterations) then match v with KInt n => mk n am fs tc rs ce dp rt | _ => r end
  else if bool_decide (k = KnobAskOnAmbiguity) then match v with KAsk m => mk mi m fs tc rs ce dp rt | _ => r end
  else if bool_decide (k = KnobAutoApproveFamilies) then match v with KFamilies s => mk mi am s tc rs ce dp rt | _ => r end
  else if bool_decide (k = KnobTokenCeilingPerTurn) then match v with KInt n => mk mi am fs n rs ce dp rt | _ => r end
  else if bool_decide (k = KnobRecapStyle) then match v with KRecap m => mk mi am fs tc m ce dp rt | _ => r end
  else if bool_decide (k = KnobContinueOnError) then match v with KError m => mk mi am fs tc rs m dp rt | _ => r end
  else if bool_decide (k = KnobDestructiveActionPosture) then match v with KPosture m => mk mi am fs tc rs ce m rt | _ => r end
  else if bool_decide (k = KnobRiskThreshold) then match v with KInt n => mk mi am fs tc rs ce dp n | _ => r end
  else r.

Definition traceKnob (r : ResolvedKnobs) (k : Knob) (src : Source) : ResolvedKnobs :=
  {| rk_MaxIterations := rk_MaxIterations r; rk_AskOnAmbiguity := rk_AskOnAmbiguity r;
     rk_AutoApproveFamilies := rk_AutoApproveFamilies r; rk_TokenCeilingPerTurn := rk_TokenCeilingPerTurn r;
     rk_RecapStyle := rk_RecapStyle r; rk_ContinueOnError := rk_ContinueOnError r;
     rk_DestructiveActionPosture := rk_DestructiveActionPosture r; rk_RiskThreshold := rk_RiskThreshold r;
     rk_SourceTrace := <[k := src]> (rk_SourceTrace r); rk_PostureMode := rk_PostureMode r; rk_EffectiveTier := rk_EffectiveTier r |}.

Definition fill (choose : Knob -> kval * Source) (r : ResolvedKnobs) : ResolvedKnobs :=
  foldl (fun r k => let '(v, src) := choose k in traceKnob (assignKnob r k v) k src) r allKnobs.

(** The first layer that names a posture mode, "" when none does. *)
Definition activePosture (global project session : Layer) : string :=
  match l_PostureMode session with
  | Some m => m
  | None => match l_PostureMode project with Some m => m | None => default "" (l_PostureMode global) end
  end.

Definition Resolve (global project session : Layer) : ResolvedKnobs :=
  let tier := effectiveTierOf global project session in
  let mode := activePosture global project session in
  let normal := fill (fun k => resolveKnob k global project session) (zeroKnobs "" tier) in
  if bool_decide (mode = "") then normal
  else match PresetForPostureMode mode with
       | Some row => fill (fun k => (row_value row k, SourcePostureMode)) (zeroKnobs mode tier)
       | None => normal
       end.
