(* ===== verification/AutonomyProps.v ===== *)
(** The autonomy dial resolves every knob by the documented precedence, keeps knob values
    well typed, survives its JSON form, and a plan-mode posture locks all of it. *)
From S2P Require Import Prelude GoString Utf8 Json Decimal JsonProps Base64 Autonomy.
From stdpp Require Import gmap.
From Stdlib Require Import Ascii.

(** * Reading a knob off the resolved record *)

Definition read_knob (r : ResolvedKnobs) (k : Knob) : kval :=
  if bool_decide (k = KnobMaxIterations) then KInt (rk_MaxIterations r)
  else if bool_decide (k = KnobAskOnAmbiguity) then KAsk (rk_AskOnAmbiguity r)
  else if bool_decide (k = KnobAutoApproveFamilies) then KFamilies (rk_AutoApproveFamilies r)
  else if bool_decide (k = KnobTokenCeilingPerTurn) then KInt (rk_TokenCeilingPerTurn r)
  else if bool_decide (k = KnobRecapStyle) then KRecap (rk_RecapStyle r)
  else if bool_decide (k = KnobContinueOnError) then KError (rk_ContinueOnError r)
  else if bool_decide (k = KnobDestructiveActionPosture) then KPosture (rk_DestructiveActionPosture r)
  else if bool_decide (k = KnobRiskThreshold) then KInt (rk_RiskThreshold r) else KNil.

(** The concrete type a knob has. *)
Definition knob_typed (k : Knob) (v : kval) : bool :=
  match v with
  | KInt _ => bool_decide (k = KnobMaxIterations \/ k = KnobTokenCeilingPerTurn \/ k = KnobRiskThreshold)
  | KAsk _ => bool_decide (k = KnobAskOnAmbiguity)
  | KFamilies _ => bool_decide (k = KnobAutoApproveFamilies)
  | KRecap _ => bool_decide (k = KnobRecapStyle)
  | KError _ => bool_decide (k = KnobContinueOnError)
  | KPosture _ => bool_decide (k = KnobDestructiveActionPosture)
  | _ => false
  end.

Definition zero_value (k : Knob) : kval := read_knob (zeroKnobs "" TierDefault) k.

(** What the strict assignment keeps of a value. *)
Definition coerce (k : Knob) (v : kval) : kval := if knob_typed k v then v else zero_value k.

Ltac each_knob H :=
  unfold allKnobs in H; repeat (apply elem_of_cons in H as [->|H]); [..|by apply elem_of_nil in H].

Lemma read_assign r k v k' : k ∈ allKnobs -> k' ∈ allKnobs ->
  read_knob (assignKnob r k v) k' = if bool_decide (k = k') then (if knob_typed k v then v else read_knob r k) else read_knob r k'.
Proof. intros Hk Hk'. destruct r. each_knob Hk; each_knob Hk'; by destruct v. Qed.

Lemma trace_assign r k v : rk_SourceTrace (assignKnob r k v) = rk_SourceTrace r /\
  rk_PostureMode (assignKnob r k v) = rk_PostureMode r /\ rk_EffectiveTier (assignKnob r k v) = rk_EffectiveTier r.
Proof. destruct r. unfold assignKnob. by repeat case_bool_decide; destruct v. Qed.

Lemma read_trace r k src k' : read_knob (traceKnob r k src) k' = read_knob r k'.
Proof. done. Qed.

Lemma fold_knobs choose ks r : NoDup ks -> (forall k, k ∈ ks -> k ∈ allKnobs) ->
  let r' := foldl (fun r k => let '(v, src) := choose k in traceKnob (assignKnob r k v) k src) r ks in
  rk_PostureMode r' = rk_PostureMode r /\ rk_EffectiveTier r' = rk_EffectiveTier r /\
  forall k, k ∈ allKnobs ->
    if bool_decide (k ∈ ks) then read_knob r' k = (if knob_typed k (choose k).1 then (choose k).1 else read_knob r k) /\
                                 rk_SourceTrace r' !! k = Some (choose k).2
    else read_knob r' k = read_knob r k /\ rk_SourceTrace r' !! k = rk_SourceTrace r !! k.
Proof.
  revert r. induction ks as [|k0 ks IH]; intros r Hnd Hin.
  - cbn. split_and!; [done|done|]. intros k _. by rewrite bool_decide_false by set_solver.
  - apply NoDup_cons in Hnd as [Hk0 Hnd]. cbn [foldl]. destruct (choose k0) as [v src] eqn:Hc.
    destruct (IH (traceKnob (assignKnob r k0 v) k0 src) Hnd) as (Hp & He & Hk); [set_solver|].
    destruct (trace_assign r k0 v) as (Ht & Hp' & He').
    split_and!; [by rewrite Hp|by rewrite He|]. intros k Hka. specialize (Hk k Hka).
    assert (k0 ∈ allKnobs) as Hk0a by set_solver. rewrite read_trace, read_assign in Hk by done.
    cbn [rk_SourceTrace traceKnob] in Hk. rewrite Ht, lookup_insert in Hk.
    destruct (decide (k0 = k)) as [->|Hne].
    + rewrite (bool_decide_true (k ∈ k :: ks)) by set_solver. rewrite bool_decide_false in Hk by done.
      rewrite bool_decide_true in Hk by done. by rewrite Hc.
    + rewrite (bool_decide_false (k0 = k)) in Hk by done.
      rewrite (bool_decide_same (k ∈ k0 :: ks) (k ∈ ks)) by set_solver. done.
Qed.

Lemma fill_knobs choose mode tier k : k ∈ allKnobs ->
  let r := fill choose (zeroKnobs mode tier) in
  read_knob r k = coerce k (choose k).1 /\ rk_SourceTrace r !! k = Some (choose k).2 /\
  rk_PostureMode r = mode /\ rk_EffectiveTier r = tier.
Proof.
  intros Hk. cbn zeta. assert (NoDup allKnobs) as Hnd by (apply (bool_decide_unpack _); vm_compute; done).
  destruct (fold_knobs choose allKnobs (zeroKnobs mode tier) Hnd) as (Hp & He & Hr); [done|].
  specialize (Hr k Hk). rewrite bool_decide_true in Hr by done. destruct Hr as [Hr Ht]. by split_and!.
Qed.

(** * Precedence *)

(** The layer nearest to the session for which [f] has a value. *)
Definition nearest {A} (f : Layer -> option A) (global project session : Layer) : option (A * Source) :=
  match f session, f project, f global with
  | Some v, _, _ => Some (v, SourceSession)
  | None, Some v, _ => Some (v, SourceProject)
  | None, None, Some v => Some (v, SourceGlobal)
  | None, None, None => None
  end.

(** The documented rule: an override at any layer beats a level at every layer; among
    overrides, and among levels, the nearest layer wins; then the default tier. *)
Definition knob_choice (k : Knob) (global project session : Layer) : kval * Source :=
  match nearest (fun l => l_Overrides l !! k) global project session with
  | Some vs => vs
  | None => match nearest l_Level global project session with
            | Some (t, src) => (presetValue t k, src)
            | None => (presetValue TierDefault k, SourceTierDefault)
            end
  end.

Lemma resolveKnob_choice k g p s : resolveKnob k g p s = knob_choice k g p s.
Proof. unfold resolveKnob, knob_choice, nearest. by repeat case_match. Qed.

Definition known_posture (mode : string) : bool := bool_decide (mode = PostureModePlanMode).

Lemma Resolve_normal g p s : known_posture (activePosture g p s) = false ->
  Resolve g p s = fill (fun k => knob_choice k g p s) (zeroKnobs "" (effectiveTierOf g p s)).
Proof.
  unfold known_posture, Resolve, PresetForPostureMode. intros Hm%bool_decide_eq_false_1.
  rewrite (bool_decide_false (_ = PostureModePlanMode)) by done.
  assert (forall r, fill (fun k => resolveKnob k g p s) r = fill (fun k => knob_choice k g p s) r) as Hf.
  { unfold fill. induction allKnobs as [|k ks IH]; intros r; [done|]. cbn [foldl]. by rewrite resolveKnob_choice, IH. }
  rewrite Hf. by case_bool_decide.
Qed.

Lemma resolve_precedence_value g p s k : k ∈ allKnobs -> known_posture (activePosture g p s) = false ->
  read_knob (Resolve g p s) k = coerce k (knob_choice k g p s).1.
Proof. intros Hk Hm. rewrite (Resolve_normal _ _ _ Hm). by apply fill_knobs. Qed.

(** C28: outside a posture mode every knob has the value its layers choose by the
    documented precedence (a value of another type reads as zero), the source trace says
    from where, and the effective tier is the nearest level. *)
Theorem resolve_precedence g p s k : k ∈ allKnobs -> known_posture (activePosture g p s) = false ->
  read_knob (Resolve g p s) k = coerce k (knob_choice k g p s).1 /\
  rk_SourceTrace (Resolve g p s) !! k = Some (knob_choice k g p s).2 /\
  rk_PostureMode (Resolve g p s) = "" /\
  rk_EffectiveTier (Resolve g p s) = match nearest l_Level g p s with Some (t, _) => t | None => TierDefault end.
Proof.
  intros Hk Hm. rewrite (Resolve_normal _ _ _ Hm).
  destruct (fill_knobs (fun k => knob_choice k g p s) "" (effectiveTierOf g p s) k Hk) as (Hv & Ht & Hp & He).
  split_and!; [done|done|done|]. rewrite He. unfold effectiveTierOf, nearest. by repeat case_match.
Qed.

Lemma plan_mode_knobs g p s k : k ∈ allKnobs -> activePosture g p s = PostureModePlanMode ->
  read_knob (Resolve g p s) k = row_value planModePreset k /\
  rk_SourceTrace (Resolve g p s) !! k = Some SourcePostureMode /\
  rk_PostureMode (Resolve g p s) = PostureModePlanMode /\ rk_EffectiveTier (Resolve g p s) = effectiveTierOf g p s.
Proof.
  intros Hk Hm. unfold Resolve. rewrite Hm. cbn [PresetForPostureMode].
  rewrite bool_decide_false by done. unfold PresetForPostureMode. rewrite bool_decide_true by done.
  destruct (fill_knobs (fun k => (row_value planModePreset k, SourcePostureMode)) PostureModePlanMode (effectiveTierOf g p s) k Hk)
    as (Hv & Ht & Hp & He).
  split_and!; [|done..]. rewrite Hv. each_knob Hk; by vm_compute.
Qed.

(** While the nearest posture mode is plan_mode every knob is the one of the plan-mode
    preset, whatever levels and overrides the layers hold. *)
Theorem plan_mode_locks g p s k : k ∈ allKnobs -> activePosture g p s = PostureModePlanMode ->
  read_knob (Resolve g p s) k = row_value planModePreset k /\
  rk_SourceTrace (Resolve g p s) !! k = Some SourcePostureMode /\
  rk_PostureMode (Resolve g p s) = PostureModePlanMode /\ rk_EffectiveTier (Resolve g p s) = effectiveTierOf g p s.
Proof. apply plan_mode_knobs. Qed.

(** * Types *)

Definition layer_typed (l : Layer) : Prop := map_Forall (fun k v => knob_typed k v = true) (l_Overrides l).

Lemma decodeKnobValue_typed k j v : decodeKnobValue k j = Some v -> knob_typed k v = true /\ k ∈ allKnobs.
Proof.
  unfold decodeKnobValue. intros Hv.
  repeat (case_bool_decide; [apply fmap_Some in Hv as (x & _ & ->); cbn [knob_typed]; rewrite bool_decide_true by done;
    split; [done|]; unfold allKnobs; set_solver|]). done.
Qed.

Lemma unmarshalOverrides_typed j m : unmarshalOverrides j = Some m ->
  map_Forall (fun k v => knob_typed k v = true /\ k ∈ allKnobs) m.
Proof.
  unfold unmarshalOverrides. destruct j as [| | | | |l]; try done.
  - intros [= <-]. apply map_Forall_empty.
  - case_bool_decide as Hall; [|done]. intros [= <-] k v Hv. rewrite map_lookup_imap in Hv.
    apply bind_Some in Hv as (j & _ & Hv). by apply decodeKnobValue_typed in Hv.
Qed.

Lemma UnmarshalJSON_typed text l : UnmarshalJSON text = Ok l ->
  map_Forall (fun k v => knob_typed k v = true /\ k ∈ allKnobs) (l_Overrides l).
Proof.
  unfold UnmarshalJSON. destruct (json_valid text) as [j|]; [|done]. destruct (decode_jsonLayer j) as [raw|]; [|done].
  unfold layer_of. rewrite rbind_ok. intros (lv & _ & H). rewrite rbind_ok in H. destruct H as (ov & Hov & [= <-]).
  cbn [l_Overrides]. repeat case_match; simplify_eq; try apply map_Forall_empty; by eapply unmarshalOverrides_typed.
Qed.

Lemma presetValue_typed t k : k ∈ allKnobs -> knob_typed k (presetValue t k) = true.
Proof. intros Hk. unfold presetValue, presetTable.
  destruct (t =? TierStrict)%Z, (t =? TierCautious)%Z, (t =? TierDefault)%Z, (t =? TierBold)%Z, (t =? TierAutonomous)%Z;
    each_knob Hk; by vm_compute. Qed.

Lemma knob_choice_typed g p s k : k ∈ allKnobs -> layer_typed g -> layer_typed p -> layer_typed s ->
  knob_typed k (knob_choice k g p s).1 = true.
Proof.
  intros Hk Hg Hp Hs. unfold knob_choice, nearest.
  destruct (l_Overrides s !! k) eqn:Es; [by apply (Hs k)|]. destruct (l_Overrides p !! k) eqn:Ep; [by apply (Hp k)|].
  destruct (l_Overrides g !! k) eqn:Eg; [by apply (Hg k)|].
  destruct (l_Level s), (l_Level p), (l_Level g); by apply presetValue_typed.
Qed.

(** C29: overrides read from JSON hold known knobs with values of the knob's type, so
    resolution over such layers drops none: every knob has exactly the chosen value. *)
Theorem decoded_layers_resolve_typed tg tp ts g p s k :
  UnmarshalJSON tg = Ok g -> UnmarshalJSON tp = Ok p -> UnmarshalJSON ts = Ok s ->
  k ∈ allKnobs -> known_posture (activePosture g p s) = false ->
  (forall l k v, l ∈ [g; p; s] -> l_Overrides l !! k = Some v -> k ∈ allKnobs /\ knob_typed k v = true) /\
  read_knob (Resolve g p s) k = (knob_choice k g p s).1.
Proof.
  intros Hg%UnmarshalJSON_typed Hp%UnmarshalJSON_typed Hs%UnmarshalJSON_typed Hk Hm. split.
  - intros l k' v Hl Hv. assert (map_Forall (fun k v => knob_typed k v = true /\ k ∈ allKnobs) (l_Overrides l)) as H by set_solver.
    apply H in Hv. tauto.
  - rewrite (resolve_precedence_value g p s k Hk Hm). unfold coerce.
    rewrite knob_choice_typed; [done|done|..]; intros k' v Hv; [apply Hg in Hv|apply Hp in Hv|apply Hs in Hv]; tauto.
Qed.

(** * The JSON form *)

(** A value as it survives JSON: 64-bit, UTF-8, a non-nil set. *)
Definition kval_wf (v : kval) : Prop :=
  match v with
  | KInt n => in_int64 n
  | KAsk m | KRecap m | KError m | KPosture m => utf8 (list_of m)
  | KFamilies (Some fs) => set_Forall (fun f => utf8 (list_of f)) fs
  | _ => False
  end.

Record layer_wf (l : Layer) : Prop := {
  wf_level : forall t, l_Level l = Some t -> (0 <= t <= 4)%Z;
  wf_overrides : map_Forall (fun k v => k ∈ allKnobs /\ knob_typed k v = true /\ kval_wf v) (l_Overrides l);
  wf_posture : forall m, l_PostureMode l = Some m -> utf8 (list_of m);
  wf_snapshot : l_PrePlanLayer l <> Some ""
}.

Lemma ParseTier_String t : (0 <= t <= 4)%Z -> ParseTier (Tier_String t) = Ok t.
Proof.
  intros Ht. assert (t = 0 \/ t = 1 \/ t = 2 \/ t = 3 \/ t = 4)%Z as H by lia.
  by repeat (destruct H as [->|H]; [reflexivity|]); subst.
Qed.

Lemma utf8_knob k : k ∈ allKnobs -> utf8 (list_of k).
Proof. intros Hk. apply utf8_ascii. each_knob Hk; by repeat constructor. Qed.

Lemma utf8_tier t : (0 <= t <= 4)%Z -> utf8 (list_of (Tier_String t)).
Proof.
  intros Ht. apply utf8_ascii. assert (t = 0 \/ t = 1 \/ t = 2 \/ t = 3 \/ t = 4)%Z as H by lia.
  by repeat (destruct H as [->|H]; [by repeat constructor|]); subst; repeat constructor.
Qed.

Lemma textual_arr_intro l : Forall textual l -> textual (JArr l).
Proof. induction 1; [done|]. by split. Qed.

Lemma textual_obj_intro l : Forall (fun kv => utf8 (list_of kv.1) /\ textual kv.2) l -> textual (JObj l).
Proof. induction 1 as [|[k j] l [Hk Hj] _ IH]; [done|]. by split_and!. Qed.

Lemma kval_textual v : kval_wf v -> textual (kval_json v) /\ (nesting (kval_json v) <= 1)%N.
Proof.
  destruct v as [|n|m|[fs|]|m|m|m|j]; try done; cbn [kval_wf]; intros Hv.
  - split; [by exists n|done].
  - split.
    + apply textual_arr_intro. apply Forall_fmap, Forall_forall. intros f Hf. apply elem_of_sort_strings, elem_of_elements in Hf.
      by apply Hv.
    + cbn [kval_json nesting]. pose proof (nesting_bound nesting 0 (JStr <$> Sorted (Some fs))) as H.
      rewrite Forall_fmap in H. specialize (H ltac:(by apply Forall_true)). lia.
Qed.

(** * Overrides *)

Definition override_members (m : gmap Knob kval) : list (string * json) :=
  omap (fun k => (fun v => (k, kval_json v)) <$> m !! k) (sort_strings (elements (dom m))).

Lemma elem_of_override_members (m : gmap Knob kval) k j :
  (k, j) ∈ override_members m <-> exists v, m !! k = Some v /\ j = kval_json v.
Proof.
  unfold override_members. rewrite list_elem_of_omap. setoid_rewrite elem_of_sort_strings. setoid_rewrite elem_of_elements. split.
  - intros (k' & _ & Hk). apply fmap_Some in Hk as (v & Hv & [= -> ->]). by exists v.
  - intros (v & Hv & ->). exists k. split; [by apply elem_of_dom|]. by rewrite Hv.
Qed.

Lemma override_keys (m : gmap Knob kval) : (override_members m).*1 = sort_strings (elements (dom m)).
Proof.
  unfold override_members. assert (Forall (fun k => is_Some (m !! k)) (sort_strings (elements (dom m)))) as H.
  { apply Forall_forall. intros k Hk. apply elem_of_sort_strings, elem_of_elements in Hk. by apply elem_of_dom. }
  induction H as [|k l [v Hv] _ IH]; [done|]. cbn [omap list_omap]. rewrite Hv. cbn. f_equal; exact IH.
Qed.

Lemma members_map_elem l k j : NoDup l.*1 -> members_map l !! k = Some j <-> (k, j) ∈ l.
Proof.
  unfold members_map. induction l as [|[k' j'] l IH] using rev_ind; [intros _; cbn; rewrite lookup_empty; set_solver|].
  rewrite fmap_app, foldl_app. intros (Hl & Hn & _)%NoDup_app. cbn [foldl fst snd]. rewrite lookup_insert, elem_of_app, list_elem_of_singleton.
  assert (k' ∉ l.*1) as Hk' by (intros H; apply (Hn k' H); cbn; set_solver).
  case_decide as Hk; subst; [|rewrite IH by done; naive_solver].
  split; [intros [= ->]; by right|]. intros [Hin|[= ->]]; [|done]. exfalso. apply Hk'. apply list_elem_of_fmap. by exists (k, j).
Qed.

Lemma mapM_decode_str l : mapM decode_str (JStr <$> l) = Some l.
Proof. induction l as [|s l IH]; [done|]. cbn. by rewrite IH. Qed.

Lemma decode_kval k v : knob_typed k v = true -> kval_wf v -> decodeKnobValue k (kval_json v) = Some v.
Proof.
  destruct v as [|n|m|[fs|]|m|m|m|j]; try done; cbn [knob_typed kval_wf]; intros Hk%bool_decide_eq_true_1 Hv.
  - unfold decodeKnobValue. rewrite bool_decide_true by done. cbn. by rewrite ParseInt_fmt_d.
  - by subst.
  - subst. change (decodeKnobValue _ _) with ((fun s => KFamilies (Some s)) <$> ((list_to_set : list string -> gset string) <$> mapM decode_str (JStr <$> Sorted (Some fs)))).
    rewrite mapM_decode_str. cbn [fmap option_fmap option_map Sorted]. do 3 f_equal. apply set_eq. intros f.
    by rewrite elem_of_list_to_set, elem_of_sort_strings, elem_of_elements.
  - by subst.
  - by subst.
  - by subst.
Qed.

Lemma overrides_round_trip m : map_Forall (fun k v => k ∈ allKnobs /\ knob_typed k v = true /\ kval_wf v) m ->
  unmarshalOverrides (marshalOverrides m) = Some m.
Proof.
  intros Hm. unfold unmarshalOverrides, marshalOverrides. fold (override_members m). cbn zeta.
  assert (forall k j, members_map (override_members m) !! k = Some j <-> exists v, m !! k = Some v /\ j = kval_json v) as Hl.
  { intros k j. rewrite members_map_elem, elem_of_override_members; [done|]. rewrite override_keys, sort_strings_perm.
    apply NoDup_elements. }
  rewrite bool_decide_true.
  - f_equal. apply map_eq. intros k. rewrite map_lookup_imap. destruct (members_map (override_members m) !! k) as [j|] eqn:Hj.
    + apply Hl in Hj as (v & Hv & ->). cbn. rewrite Hv. destruct (Hm k v Hv) as (_ & Ht & Hw). by apply decode_kval.
    + cbn. symmetry. apply eq_None_not_Some. intros [v Hv]. assert (members_map (override_members m) !! k = Some (kval_json v)) by (apply Hl; eauto).
      congruence.
  - intros k j (v & Hv & ->)%Hl. destruct (Hm k v Hv) as (_ & Ht & Hw). exists v. by apply decode_kval.
Qed.

Lemma overrides_textual m : map_Forall (fun k v => k ∈ allKnobs /\ knob_typed k v = true /\ kval_wf v) m ->
  textual (marshalOverrides m) /\ (nesting (marshalOverrides m) <= 2)%N.
Proof.
  intros Hm. unfold marshalOverrides. fold (override_members m).
  assert (Forall (fun kv => utf8 (list_of kv.1) /\ textual kv.2 /\ (nesting kv.2 <= 1)%N) (override_members m)) as H.
  { apply Forall_forall. intros [k j] (v & Hv & ->)%elem_of_override_members. destruct (Hm k v Hv) as (Hk & _ & Hw).
    split; [by apply utf8_knob|by apply kval_textual]. }
  split.
  - apply textual_obj_intro. eapply Forall_impl; [done|]. intros [k j]. cbn. tauto.
  - cbn [nesting]. pose proof (nesting_bound (fun kv => nesting kv.2) 1 (override_members m)) as Hb.
    specialize (Hb ltac:(eapply Forall_impl; [exact H|]; intros [k j]; cbn; tauto)). lia.
Qed.

Lemma fold_members_cons r r' kv l : decode_member r kv = Some r' ->
  foldl (fun r kv => r ≫= fun r => decode_member r kv) (Some r) (kv :: l) =
  foldl (fun r kv => r ≫= fun r => decode_member r kv) (Some r') l.
Proof. intros H. cbn [foldl mbind option_bind]. by rewrite H. Qed.

Lemma layer_members_decode lv ov pm pp : pp <> Some "" ->
  decode_members (("level", match lv with Some t => JStr (Tier_String t) | None => JNull end) :: ("overrides", ov) ::
                  optional_str "posture_mode" pm ++ pre_plan_member pp) =
  Some {| jl_Level := Tier_String <$> lv; jl_Overrides := Some ov; jl_PostureMode := pm; jl_PrePlanLayer := pp |}.
Proof.
  intros Hpp. unfold decode_members.
  rewrite (fold_members_cons _ {| jl_Level := Tier_String <$> lv; jl_Overrides := None; jl_PostureMode := None; jl_PrePlanLayer := None |})
    by (by destruct lv).
  rewrite (fold_members_cons _ {| jl_Level := Tier_String <$> lv; jl_Overrides := Some ov; jl_PostureMode := None; jl_PrePlanLayer := None |})
    by done.
  rewrite foldl_app.
  assert (foldl (fun r kv => r ≫= fun r => decode_member r kv)
      (Some {| jl_Level := Tier_String <$> lv; jl_Overrides := Some ov; jl_PostureMode := None; jl_PrePlanLayer := None |})
      (optional_str "posture_mode" pm) =
    Some {| jl_Level := Tier_String <$> lv; jl_Overrides := Some ov; jl_PostureMode := pm; jl_PrePlanLayer := None |}) as -> by (by destruct pm).
  destruct pp as [s|]; [|done]. cbn [pre_plan_member]. rewrite bool_decide_false by congruence.
  rewrite (fold_members_cons _ {| jl_Level := Tier_String <$> lv; jl_Overrides := Some ov; jl_PostureMode := pm; jl_PrePlanLayer := Some s |}); [done|].
  cbn [decode_member]. change (EqualFold "pre_plan_layer" "level") with false. change (EqualFold "pre_plan_layer" "overrides") with false.
  change (EqualFold "pre_plan_layer" "posture_mode") with false. change (EqualFold "pre_plan_layer" "pre_plan_layer") with true. cbn iota.
  cbn [decode_bytes]. rewrite list_of_of_list, b64_round_trip. cbn. by rewrite of_list_of.
Qed.

Lemma layer_json_textual l : layer_wf l -> textual (layer_json l) /\ (nesting (layer_json l) <= 3)%N.
Proof.
  intros [Hlv Hov Hpm _]. destruct (overrides_textual _ Hov) as [Hot Hon].
  assert (Forall (fun kv => utf8 (list_of kv.1) /\ textual kv.2 /\ (nesting kv.2 <= 2)%N)
    (("level", match l_Level l with Some t => JStr (Tier_String t) | None => JNull end) :: ("overrides", marshalOverrides (l_Overrides l)) ::
     optional_str "posture_mode" (l_PostureMode l) ++ pre_plan_member (l_PrePlanLayer l))) as H.
  { constructor; [|constructor; [|apply Forall_app; split]]; cbn [fst snd].
    - split; [by apply utf8_ascii; repeat constructor|]. destruct (l_Level l) as [t|]; [|done]. split; [by apply utf8_tier, Hlv|done].
    - split; [by apply utf8_ascii; repeat constructor|done].
    - destruct (l_PostureMode l) as [m|]; [|constructor]. constructor; [|constructor]. cbn [fst snd].
      split; [by apply utf8_ascii; repeat constructor|]. split; [by apply Hpm|done].
    - destruct (l_PrePlanLayer l) as [s|]; [|constructor]. cbn [pre_plan_member]. case_bool_decide; [constructor|].
      constructor; [|constructor]. cbn [fst snd textual]. split; [by apply utf8_ascii; repeat constructor|].
      split; [|done]. rewrite list_of_of_list. apply utf8_ascii, b64_ascii. }
  unfold layer_json. split.
  - apply textual_obj_intro. eapply Forall_impl; [done|]. intros [k j]. cbn. tauto.
  - cbn [nesting]. apply (Forall_impl _ (fun kv => nesting kv.2 <= 2)%N) in H; [|intros [k j]; cbn; tauto].
    apply (nesting_bound (fun kv => nesting kv.2)) in H. lia.
Qed.

Lemma layer_reads_back l : layer_wf l -> UnmarshalJSON (MarshalJSON l) = Ok l.
Proof.
  intros Hl. destruct (layer_json_textual l Hl) as [Ht Hn]. destruct Hl as [Hlv Hov _ Hpp].
  unfold UnmarshalJSON, MarshalJSON. rewrite json_valid_print by (done || (unfold maxNestingDepth; lia)).
  unfold layer_json. cbn [decode_jsonLayer]. rewrite layer_members_decode by done. unfold layer_of. cbn [jl_Level jl_Overrides jl_PostureMode jl_PrePlanLayer].
  rewrite (overrides_round_trip _ Hov). unfold marshalOverrides. destruct l as [[t|] ov pm pp]; cbn [fmap option_fmap option_map l_Level l_Overrides l_PostureMode l_PrePlanLayer] in *; [|done].
  by rewrite ParseTier_String by (by apply Hlv).
Qed.

(** C30: a layer survives its JSON form, plan-mode snapshot included, and no two layers
    share one. *)
Theorem layer_round_trip l : layer_wf l ->
  UnmarshalJSON (MarshalJSON l) = Ok l /\ forall l', layer_wf l' -> MarshalJSON l' = MarshalJSON l -> l' = l.
Proof.
  intros Hl. pose proof (layer_reads_back l Hl) as Hr. split; [done|]. intros l' Hl' Heq.
  pose proof (layer_reads_back l' Hl') as Hr'. rewrite Heq, Hr in Hr'. by injection Hr'.
Qed.

(** * The tier ladder *)

Definition at_tier (t : Tier) : ResolvedKnobs :=
  Resolve emptyLayer emptyLayer {| l_Level := Some t; l_Overrides := ∅; l_PostureMode := None; l_PrePlanLayer := None |}.

(** 0 means unbounded. *)
Definition cap_le (a b : Z) : bool := (b =? 0)%Z || (negb (a =? 0)%Z && (a <=? b)%Z).

Definition ladder_le (t t' : Tier) : bool :=
  let r := at_tier t in let r' := at_tier t' in
  let c := BudgetCeilingForTier t in let c' := BudgetCeilingForTier t' in
  bool_decide (default ∅ (rk_AutoApproveFamilies r) ⊆ default ∅ (rk_AutoApproveFamilies r')) &&
  (rk_RiskThreshold r <=? rk_RiskThreshold r')%Z && (rk_RiskThreshold r' <=? 80)%Z &&
  (rk_TokenCeilingPerTurn r <=? rk_TokenCeilingPerTurn r')%Z && cap_le (rk_MaxIterations r) (rk_MaxIterations r') &&
  (bc_MaxLLMCallsPerRun c <=? bc_MaxLLMCallsPerRun c')%Z && (bc_MaxToolCallsPerRun c <=? bc_MaxToolCallsPerRun c')%Z &&
  cap_le (bc_MaxCostUSDPerRun c) (bc_MaxCostUSDPerRun c').

Definition tiers : list Tier := [TierStrict; TierCautious; TierDefault; TierBold; TierAutonomous].

Lemma ladder_ordered : forallb (fun t => forallb (fun t' => implb (t <=? t')%Z (ladder_le t t')) tiers) tiers = true.
Proof. vm_compute. reflexivity. Qed.

Lemma elem_of_tiers t : (0 <= t <= 4)%Z -> t ∈ tiers.
Proof.
  intros Ht. assert (t = 0 \/ t = 1 \/ t = 2 \/ t = 3 \/ t = 4)%Z as H by lia. unfold tiers.
  destruct H as [->|[->|[->|[->| ->]]]]; set_solver.
Qed.

(** A higher tier never narrows: it approves every family the lower one does, and none
    of its caps is tighter; no tier has a risk threshold above 80. *)
Theorem tier_ladder_monotone t t' : (0 <= t <= t')%Z -> (t' <= 4)%Z ->
  (forall f, fs_Has (rk_AutoApproveFamilies (at_tier t)) f = true -> fs_Has (rk_AutoApproveFamilies (at_tier t')) f = true) /\
  (rk_RiskThreshold (at_tier t) <= rk_RiskThreshold (at_tier t') <= 80)%Z /\
  (rk_TokenCeilingPerTurn (at_tier t) <= rk_TokenCeilingPerTurn (at_tier t'))%Z /\
  cap_le (rk_MaxIterations (at_tier t)) (rk_MaxIterations (at_tier t')) = true /\
  (bc_MaxLLMCallsPerRun (BudgetCeilingForTier t) <= bc_MaxLLMCallsPerRun (BudgetCeilingForTier t'))%Z /\
  (bc_MaxToolCallsPerRun (BudgetCeilingForTier t) <= bc_MaxToolCallsPerRun (BudgetCeilingForTier t'))%Z /\
  cap_le (bc_MaxCostUSDPerRun (BudgetCeilingForTier t)) (bc_MaxCostUSDPerRun (BudgetCeilingForTier t')) = true.
Proof.
  intros Ht Ht'. pose proof ladder_ordered as H. rewrite forallb_forall in H.
  specialize (H t (proj1 (list_elem_of_In _ _) (elem_of_tiers t ltac:(lia)))). rewrite forallb_forall in H.
  specialize (H t' (proj1 (list_elem_of_In _ _) (elem_of_tiers t' ltac:(lia)))).
  rewrite (proj2 (Z.leb_le t t')) in H by lia. cbn [implb] in H. unfold ladder_le in H.
  rewrite !andb_true_iff, !Z.leb_le, bool_decide_eq_true in H. destruct H as (((((((Hf & H1) & H2) & H3) & H4) & H5) & H6) & H7).
  split_and!; try done. intros f. unfold fs_Has.
  destruct (rk_AutoApproveFamilies (at_tier t)) as [s|], (rk_AutoApproveFamilies (at_tier t')) as [s'|]; cbn in Hf;
    rewrite ?bool_decide_eq_true; set_solver.
Qed.

(** * Concrete layers *)

(** The example of resolve.go: a global override meets bolder and stricter levels. *)
Definition d_global : Layer :=
  {| l_Level := Some TierDefault; l_Overrides := {[KnobTokenCeilingPerTurn := KInt 1000000]};
     l_PostureMode := None; l_PrePlanLayer := None |}.
Definition d_project : Layer := {| l_Level := Some TierBold; l_Overrides := ∅; l_PostureMode := None; l_PrePlanLayer := None |}.
Definition d_session : Layer :=
  {| l_Level := Some TierStrict;
     l_Overrides := {[KnobAutoApproveFamilies := KFamilies (NewFamilySet [FamilyRead; FamilyNetwork])]};
     l_PostureMode := None; l_PrePlanLayer := Some "{}" |}.
Definition d_plan : Layer :=
  {| l_Level := Some TierAutonomous; l_Overrides := {[KnobRiskThreshold := KInt 100]};
     l_PostureMode := Some PostureModePlanMode; l_PrePlanLayer := None |}.

Lemma in_knobs k : bool_decide (k ∈ allKnobs) = true -> k ∈ allKnobs.
Proof. apply bool_decide_eq_true_1. Qed.

Lemma resolve_precedence_witness :
  read_knob (Resolve d_global d_project d_session) KnobTokenCeilingPerTurn = KInt 1000000 /\
  rk_SourceTrace (Resolve d_global d_project d_session) !! KnobTokenCeilingPerTurn = Some SourceGlobal /\
  read_knob (Resolve d_global d_project d_session) KnobMaxIterations = KInt 5.
Proof.
  destruct (resolve_precedence d_global d_project d_session KnobTokenCeilingPerTurn (in_knobs KnobTokenCeilingPerTurn eq_refl) eq_refl) as (Hv & Ht & _).
  destruct (resolve_precedence d_global d_project d_session KnobMaxIterations (in_knobs KnobMaxIterations eq_refl) eq_refl) as (Hi & _).
  rewrite Hv, Ht, Hi. vm_compute. by split_and!.
Defined.

Lemma plan_mode_locks_witness :
  read_knob (Resolve d_global d_project d_plan) KnobRiskThreshold = KInt 0 /\
  rk_PostureMode (Resolve d_global d_project d_plan) = PostureModePlanMode.
Proof.
  destruct (plan_mode_locks d_global d_project d_plan KnobRiskThreshold (in_knobs KnobRiskThreshold eq_refl) eq_refl) as (Hv & _ & Hp & _).
  rewrite Hv, Hp. vm_compute. by split.
Defined.

Lemma decoded_layers_resolve_typed_witness :
  read_knob (Resolve d_global d_project d_session) KnobAutoApproveFamilies =
    KFamilies (NewFamilySet [FamilyRead; FamilyNetwork]).
Proof.
  destruct (decoded_layers_resolve_typed (MarshalJSON d_global) (MarshalJSON d_project) (MarshalJSON d_session)
    d_global d_project d_session KnobAutoApproveFamilies) as [_ Hv];
    [vm_compute; reflexivity..|exact (in_knobs KnobAutoApproveFamilies eq_refl)|reflexivity|].
  rewrite Hv. vm_compute. reflexivity.
Defined.

Lemma d_session_wf : layer_wf d_session.
Proof.
  constructor; cbn [l_Level l_Overrides l_PostureMode l_PrePlanLayer d_session].
  - by intros t [= <-].
  - apply map_Forall_singleton. split_and!; [by apply in_knobs|done|]. cbn [kval_wf NewFamilySet].
    intros f Hf. apply elem_of_list_to_set in Hf. repeat (apply elem_of_cons in Hf as [->|Hf]; [by apply utf8_ascii; repeat constructor|]).
    by apply elem_of_nil in Hf.
  - done.
  - done.
Qed.

Lemma layer_round_trip_witness : UnmarshalJSON (MarshalJSON d_session) = Ok d_session /\ d_session <> emptyLayer.
Proof. split; [exact (proj1 (layer_round_trip d_session d_session_wf))|done]. Defined.

Lemma tier_ladder_monotone_witness : rk_RiskThreshold (at_tier TierCautious) = 20%Z /\
  (rk_RiskThreshold (at_tier TierCautious) <= rk_RiskThreshold (at_tier TierBold) <= 80)%Z.
Proof.
  split; [vm_compute; reflexivity|]. apply (tier_ladder_monotone TierCautious TierBold); unfold TierCautious, TierBold; lia.
Defined.
