(* ===== verification/Risk.v ===== *)
(** Rating a tool call: the families of tool names (core/toolloop/promptskip.go), and the
    risk rater with its floor, bands, cache and prompt (core/policy/risk).  Tool names are
    taken byte by byte, which agrees with the code on ASCII names. *)
From S2P Require Import Prelude GoString Utf8 Json Decimal Autonomy.
From stdpp Require Import gmap.
From Stdlib Require Import Ascii.

(** * Tool families *)

Definition FamilyDestructive : string := "destructive".
Definition FamilyUnknown : string := "unknown".

Definition tokenSet (names : list string) : gset string := list_to_set names.

Definition shellSafeWholeNames : gset string :=
  tokenSet ["echo"; "pwd"; "cwd"; "whoami"; "hostname"; "uname"; "date"; "uptime"; "which"; "version"].

Definition destructive_tokens : gset string :=
  tokenSet ["delete"; "destroy"; "drop"; "erase"; "purge"; "remove"; "rm"; "truncate"; "unlink"; "wipe"; "kill"; "revoke";
            "format"; "reset"; "prune"; "rmdir"; "uninstall"].

(** The buckets after the destructive one, in order. *)
Definition familyTokens : list (string * gset string) :=
  [(FamilyNetwork, tokenSet ["http"; "https"; "curl"; "download"; "browse"; "browser"; "crawl"; "scrape"; "webhook"; "url";
                             "api"; "net"; "network"; "socket"; "email"; "smtp"; "dns"; "ping"]);
   (FamilyWrite, tokenSet ["write"; "create"; "update"; "edit"; "insert"; "append"; "save"; "patch"; "mkdir"; "rename";
                           "move"; "mv"; "copy"; "cp"; "upload"; "put"; "post"; "set"; "publish"; "commit"; "apply";
                           "install"; "add"; "replace"; "modify"]);
   (FamilyRead, tokenSet ["read"; "get"; "list"; "ls"; "cat"; "view"; "show"; "describe"; "inspect"; "stat"; "find";
                          "search"; "grep"; "head"; "tail"; "count"; "info"; "status"; "tree"; "diff"; "log"; "fetch";
                          "lookup"; "load"; "open"; "peek"; "summarize"])].

Definition name_separator (c : ascii) : bool :=
  isc 95 c || isc 45 c || isc 46 c || isc 47 c || isc 32 c || isc 58 c.

Definition flush (cur : list ascii) : list string :=
  match cur with [] => [] | _ => [ToLower (of_list cur)] end.

Fixpoint split_name (l cur : list ascii) (last : ascii) : list string :=
  match l with
  | [] => flush cur
  | r :: l =>
      if name_separator r then flush cur ++ split_name l [] r
      else if is_upper r && is_lower last then flush cur ++ split_name l [r] r
      else split_name l (cur ++ [r]) r
  end.

Definition splitIdentifier (name : string) : list string := split_name (list_of name) [] (chr 0).

Definition normalizedWholeName (tool : string) : string := ToLower (TrimSpace tool).

Definition has_token (tokens : gset string) (segments : list string) : bool :=
  existsb (fun seg => bool_decide (seg ∈ tokens)) segments.

Fixpoint first_bucket (buckets : list (string * gset string)) (segments : list string) : string :=
  match buckets with
  | [] => FamilyUnknown
  | (family, tokens) :: buckets => if has_token tokens segments then family else first_bucket buckets segments
  end.

Definition ClassifyToolFamily (tool : string) : string :=
  let segments := splitIdentifier tool in
  match segments with
  | [] => FamilyUnknown
  | _ => if has_token destructive_tokens segments then FamilyDestructive
         else if bool_decide (normalizedWholeName tool ∈ shellSafeWholeNames) then FamilyShellSafe
         else first_bucket familyTokens segments
  end.

(** * The prompt-skip set *)

Definition skippable : list string := [FamilyRead; FamilyWrite; FamilyShellSafe; FamilyNetwork; FamilyDestructive].

(** [PromptSkipSet]; the nil set is empty. *)
Definition NewPromptSkipSet (families : list string) : gset string :=
  list_to_set (List.filter (fun f => bool_decide (f ∈ skippable)) families).

Definition skip_Add (s : gset string) (family : string) : gset string :=
  if bool_decide (family ∈ skippable) then {[family]} ∪ s else s.

Definition skip_Has (s : gset string) (family : string) : bool :=
  if bool_decide (family = "") || bool_decide (family = FamilyUnknown) then false else bool_decide (family ∈ s).

Definition SkipsTool (s : gset string) (tool : string) : bool := skip_Has s (ClassifyToolFamily tool).

Definition promptSkipSet (knobs : ResolvedKnobs) : gset string :=
  let set := NewPromptSkipSet (Sorted (rk_AutoApproveFamilies knobs)) in
  if bool_decide (rk_DestructiveActionPosture knobs = DestructiveCedarOnly) then skip_Add set FamilyDestructive else set.

(** * Scores *)

Definition familyFloorScore : Z := 81%Z.

Definition FamilyFloors (family : string) : option Z :=
  if bool_decide (family = FamilyDestructive \/ family = FamilyUnknown) then Some familyFloorScore else None.

Definition ApplyFamilyFloor (family : string) (score : Z) : Z :=
  match FamilyFloors family with
  | Some floor => if (score <? floor)%Z then floor else score
  | None => score
  end.

Definition BandAnchors : list (string * Z * Z) :=
  [("low", 0%Z, 19%Z); ("moderate", 20%Z, 39%Z); ("elevated", 40%Z, 59%Z); ("high", 60%Z, 79%Z); ("critical", 80%Z, 100%Z)].

Definition ValidateScore (score : Z) : bool := ((0 <=? score) && (score <=? 100))%Z.

Definition BandFor (score : Z) : string :=
  match find (fun a => (a.1.2 <=? score) && (score <=? a.2))%Z BandAnchors with
  | Some a => a.1.1
  | None => if (score <? 0)%Z then "low" else "critical"
  end.

(** * The rater's prompt *)

(** [strings.ReplaceAll] for a non-empty [old]: matches do not overlap. *)
Fixpoint replace_from (old new l : list ascii) (skip : nat) : list ascii :=
  match l with
  | [] => []
  | c :: r =>
      match skip with
      | S n => replace_from old new r n
      | 0 => if prefixb old l then new ++ replace_from old new r (pred (length old)) else c :: replace_from old new r 0
      end
  end.

Definition ReplaceAll (s old new : string) : string := of_list (replace_from (list_of old) (list_of new) (list_of s) 0).

Definition raterArgsDelimiterOpen : string := "<<<UNTRUSTED_TOOL_CALL_DATA>>>".
Definition raterArgsDelimiterClose : string := "<<<END_UNTRUSTED_TOOL_CALL_DATA>>>".
Definition escaped_marker : string := "<<<ESCAPED_MARKER>>>".

Definition escapeRaterData (s : string) : string :=
  ReplaceAll (ReplaceAll s raterArgsDelimiterOpen escaped_marker) raterArgsDelimiterClose escaped_marker.

Definition buildRaterUserPrompt (tool normalizedArgs : string) : string :=
  "Tool: " +:+ escapeRaterData tool +:+ nl +:+ "Arguments (canonical JSON):" +:+ nl +:+
  raterArgsDelimiterOpen +:+ nl +:+ escapeRaterData normalizedArgs +:+ nl +:+ raterArgsDelimiterClose.

(** * The rater's answer *)

Definition flattenRaterText (blocks : list (string * string)) : string :=
  TrimSpace (String.concat "" (map snd (List.filter (fun b => bool_decide (b.1 = "") || bool_decide (b.1 = "text")) blocks))).

Fixpoint index_byte (n : N) (l : list ascii) : option nat :=
  match l with
  | [] => None
  | c :: r => if isc n c then Some 0 else S <$> index_byte n r
  end.

Definition last_index_byte (n : N) (l : list ascii) : option nat :=
  (fun i => length l - 1 - i) <$> index_byte n (rev l).

(** [raterResponse]: a missing member leaves the zero value. *)
Definition response_member (r : Z * string) (kv : string * json) : option (Z * string) :=
  let '(k, j) := kv in
  if EqualFold k "score" then
    match j with
    | JNull => Some r
    | JNum t => (fun n => (n, r.2)) <$> ParseInt t
    | _ => None
    end
  else if EqualFold k "rationale" then
    match j with
    | JNull => Some r
    | JStr s => Some (r.1, s)
    | _ => None
    end
  else Some r.

Definition parseRaterResponse (text : string) : option (Z * string) :=
  let l := list_of text in
  match index_byte 123 l, last_index_byte 125 l with
  | Some start, Some stop =>
      if stop <? start then None
      else match parse_text (take (stop + 1 - start) (drop start l)) with
           | Some (JObj ms) => foldl (fun r kv => r ≫= fun r => response_member r kv) (Some (0%Z, "")) ms
           | _ => None
           end
  | _, _ => None
  end.

(** * Rate *)

Record Rating := {
  rt_Score : Z; rt_Rationale : string; rt_Model : string; rt_PromptVersion : string; rt_CacheHit : bool
}.

Definition llmRaterPromptVersion : string := "risk-rater-v1".

Record cacheKey := { ck_sessionID : string; ck_tool : string; ck_argsHash : string; ck_promptVersion : string }.

#[export] Instance cacheKey_eq_dec : EqDecision cacheKey.
Proof. solve_decision. Defined.

(** A failed rating; [re_Unreachable] is [errors.Is(err, ErrUnreachable)]. *)
Record RateErr := { re_Unreachable : bool; re_Msg : string }.

(** The cache: most recently used first. *)
Definition ratingCache : Type := list (cacheKey * Rating).

Definition defaultRaterCacheCapacity : nat := 512.

Definition without (key : cacheKey) (c : ratingCache) : ratingCache := List.filter (fun e => negb (bool_decide (e.1 = key))) c.

Definition cache_get (c : ratingCache) (key : cacheKey) : option Rating * ratingCache :=
  match find (fun e => bool_decide (e.1 = key)) c with
  | Some e => (Some e.2, e :: without key c)
  | None => (None, c)
  end.

Definition cache_put (capacity : nat) (c : ratingCache) (key : cacheKey) (r : Rating) : ratingCache :=
  match find (fun e => bool_decide (e.1 = key)) c with
  | Some _ => (key, r) :: without key c
  | None => (key, r) :: (if capacity <=? length c then removelast c else c)
  end.

(** What became of the model call: no stream, a stream that failed after so many events,
    or the content blocks of the answer. *)
Inductive RaterCall :=
| CallRefused (msg : string)
| CallBroken (events : nat) (msg : string)
| CallDone (blocks : list (string * string)).

Section Rate.
(** SHA-256 in hexadecimal, and the profile resolver with its result for this call. *)
Variable hash : string -> string.

Definition rate_key (tool args session : string) : cacheKey :=
  {| ck_sessionID := session; ck_tool := tool; ck_argsHash := hash args; ck_promptVersion := llmRaterPromptVersion |}.

Definition unreachable (msg : string) : RateErr := {| re_Unreachable := true; re_Msg := msg |}.
Definition failed (msg : string) : RateErr := {| re_Unreachable := false; re_Msg := msg |}.

(** The answer of the model alone. *)
Definition judge (model : string) (call : RaterCall) : result Rating RateErr :=
  match call with
  | CallRefused msg => Err (unreachable ("risk: rater call: " +:+ msg))
  | CallBroken events msg =>
      if events =? 0 then Err (unreachable ("risk: rater call (zero events received): " +:+ msg))
      else Err (failed ("risk: rater call: " +:+ msg))
  | CallDone blocks =>
      match parseRaterResponse (flattenRaterText blocks) with
      | None => Err (failed "risk: rater response")
      | Some (score, rationale) =>
          if ValidateScore score
          then Ok {| rt_Score := score; rt_Rationale := rationale; rt_Model := model;
                     rt_PromptVersion := llmRaterPromptVersion; rt_CacheHit := false |}
          else Err (failed ("risk: score " +:+ fmt_d score +:+ " out of range [0,100]"))
      end
  end.

Definition from_cache (r : Rating) : Rating :=
  {| rt_Score := rt_Score r; rt_Rationale := rt_Rationale r; rt_Model := rt_Model r;
     rt_PromptVersion := rt_PromptVersion r; rt_CacheHit := true |}.

Definition Rate (capacity : nat) (profile : option string) (call : RaterCall) (c : ratingCache) (tool args session : string) :
    result Rating RateErr * ratingCache :=
  let key := rate_key tool args session in
  match cache_get c key with
  | (Some r, c) => (Ok (from_cache r), c)
  | (None, c) =>
      match profile with
      | None => (Err (unreachable "no profile resolved for rater"), c)
      | Some model =>
          match judge model call with
          | Err e => (Err e, c)
          | Ok r => (Ok r, cache_put capacity c key r)
          end
      end
  end.
End Rate.
