(* ===== verification/RiskProps.v ===== *)
(** The risk rater: untrusted text cannot forge the prompt's markers, scores stay in range,
    cached ratings stay within their session, and families decide what the skip set skips. *)
From S2P Require Import Prelude GoString Utf8 Json Decimal Autonomy AutonomyProps Risk.
From stdpp Require Import gmap.
From Stdlib Require Import Ascii.

(** * Replacing a marker *)

(** Two texts that differ within their common length. *)
Fixpoint clash (a b : list ascii) : bool :=
  match a, b with
  | x :: a, y :: b => negb (bool_decide (x = y)) || clash a b
  | _, _ => false
  end.

Fixpoint suffixes {A} (l : list A) : list (list A) :=
  match l with [] => [] | _ :: r => l :: suffixes r end.

Definition all_clash (l m : list ascii) : bool := forallb (fun t => clash t m) (suffixes l).

Lemma clash_prefix a b rest : clash a b = true -> prefixb a (b ++ rest) = false.
Proof.
  revert b. induction a as [|x a IH]; intros [|y b]; try done. cbn. destruct (decide (x = y)) as [->|Hxy].
  - rewrite bool_decide_true by done. apply IH.
  - by rewrite bool_decide_false by done.
Qed.

Lemma clash_sym a b : clash a b = clash b a.
Proof. revert b. induction a as [|x a IH]; intros [|y b]; try done. cbn. rewrite IH.
  destruct (decide (x = y)) as [->|Hxy]; [done|]. by rewrite !bool_decide_false by congruence.
Qed.

Section Replace.
Variables old new : list ascii.
Hypothesis Hold : old <> [].

Lemma replace_skip l n : replace_from old new l n = replace_from old new (drop n l) 0.
Proof. revert n. induction l as [|c l IH]; intros [|n]; try done. apply IH. Qed.

Lemma replace_hit l : prefixb old l = true ->
  replace_from old new l 0 = new ++ replace_from old new (drop (length old) l) 0.
Proof.
  intros Hp. destruct l as [|c l]; [by destruct old|]. cbn [replace_from]. rewrite Hp. f_equal.
  rewrite replace_skip. by destruct old.
Qed.

Lemma replace_miss c l : prefixb old (c :: l) = false -> replace_from old new (c :: l) 0 = c :: replace_from old new l 0.
Proof. intros Hp. cbn [replace_from]. by rewrite Hp. Qed.

(** Induction along the replacement. *)
Lemma replace_ind (P : list ascii -> Prop) : P [] ->
  (forall l, prefixb old l = true -> P (drop (length old) l) -> P l) ->
  (forall c l, prefixb old (c :: l) = false -> P l -> P (c :: l)) -> forall l, P l.
Proof.
  intros H0 Hhit Hmiss l. induction l as [l IH] using (induction_ltof1 _ (@length ascii)). unfold ltof in IH.
  destruct l as [|c l]; [done|]. destruct (prefixb old (c :: l)) eqn:Hp; [|apply Hmiss; [done|apply IH; cbn; lia]].
  apply Hhit; [done|]. apply IH. rewrite length_drop. destruct old; [done|]. cbn. lia.
Qed.

Section Pattern.
Variable p : list ascii.
Hypotheses (Hpn : all_clash p new = true) (Hnp : all_clash new p = true).

(** Nothing that begins inside [p] can begin in the replacement. *)
Lemma replace_prefix t l : t = [] \/ t ∈ suffixes p -> prefixb t (replace_from old new l 0) = true -> prefixb t l = true.
Proof.
  intros Ht. revert t Ht. induction l as [|l Hp IH|c l Hp IH] using replace_ind; intros t Ht; try done.
  - rewrite replace_hit by done. destruct Ht as [->|Ht]; [by destruct l|]. rewrite clash_prefix; [done|].
    unfold all_clash in Hpn. rewrite forallb_forall in Hpn. apply Hpn. by apply list_elem_of_In.
  - rewrite replace_miss by done. destruct t as [|x t]; [done|]. cbn [prefixb]. rewrite !andb_true_iff. intros [Hx Hr].
    split; [done|]. apply IH; [|done]. destruct Ht as [Ht|Ht]; [done|]. clear -Ht.
    induction p as [|y q IHq]; [by apply elem_of_nil in Ht|]. cbn [suffixes] in Ht. apply elem_of_cons in Ht as [[= -> ->]|Ht].
    + destruct q; [by left|right; cbn; set_solver].
    + destruct (IHq Ht) as [->|H]; [by left|right; cbn [suffixes]; set_solver].
Qed.

Lemma infix_app_clash u r : all_clash u p = true -> infixb p (u ++ r) = infixb p r.
Proof.
  unfold all_clash. induction u as [|c u IH]; [done|]. cbn [suffixes forallb]. rewrite andb_true_iff. intros [Hc Hu].
  cbn [app infixb]. rewrite IH by done. change (c :: u ++ r) with ((c :: u) ++ r). by rewrite clash_prefix by (by rewrite clash_sym).
Qed.

(** [p] occurs in the result only where it occurred and was not replaced. *)
Lemma replace_infix l : p <> [] -> infixb p l = false \/ p = old -> infixb p (replace_from old new l 0) = false.
Proof.
  intros Hne. induction l as [|l Hp IH|c l Hp IH] using replace_ind; intros Hl.
  - cbn. by destruct p.
  - rewrite replace_hit by done. rewrite infix_app_clash by done. apply IH. destruct Hl as [Hl|Hl]; [left|by right].
    clear -Hl. revert l Hl. induction (length old) as [|n IHn]; intros [|c l] Hl; try done. cbn [drop]. apply IHn.
    cbn [infixb] in Hl. by apply orb_false_iff in Hl as [_ Hl].
  - rewrite replace_miss by done. cbn [infixb]. apply orb_false_iff. split.
    + apply not_true_iff_false. intros Hx. rewrite <- replace_miss in Hx by done.
      apply replace_prefix in Hx; [|destruct p as [|y q]; [done|right; cbn; set_solver]].
      destruct Hl as [Hl|Hl]; [|congruence]. cbn [infixb] in Hl. by rewrite Hx in Hl.
    + apply IH. destruct Hl as [Hl|Hl]; [left|by right]. cbn [infixb] in Hl. by apply orb_false_iff in Hl as [_ Hl].
Qed.
End Pattern.
End Replace.

(** Escaped text holds neither marker of the rater's prompt, so untrusted arguments
    cannot close the section they stand in. *)
Theorem escaped_data_has_no_markers s :
  Contains (escapeRaterData s) raterArgsDelimiterOpen = false /\ Contains (escapeRaterData s) raterArgsDelimiterClose = false.
Proof.
  unfold Contains, escapeRaterData, ReplaceAll. rewrite !list_of_of_list. split.
  - apply replace_infix; [done|vm_compute; reflexivity..|done|]. left.
    apply replace_infix; [done|vm_compute; reflexivity..|done|by right].
  - apply replace_infix; [done|vm_compute; reflexivity..|done|by right].
Qed.

(** * The cache *)

Lemma without_subset key c e : e ∈ without key c -> e ∈ c.
Proof. unfold without. rewrite !list_elem_of_In, filter_In. tauto. Qed.

Lemma without_length key c : length (without key c) <= length c.
Proof. unfold without. induction c as [|e c IH]; [done|]. cbn. destruct (negb _); cbn; lia. Qed.

Lemma find_spec {A} (f : A -> bool) l x : find f l = Some x -> x ∈ l /\ f x = true.
Proof. intros H. apply find_some in H as [H1 H2]. by rewrite list_elem_of_In. Qed.

Lemma without_shrinks key (c : ratingCache) e : find (fun e => bool_decide (e.1 = key)) c = Some e -> length (without key c) < length c.
Proof.
  induction c as [|e' c IH]; [done|]. cbn [find]. destruct (bool_decide (e'.1 = key)) eqn:He.
  - intros _. unfold without. cbn [List.filter length]. rewrite He. cbn [negb]. pose proof (without_length key c). unfold without in *. lia.
  - intros Hf. unfold without. cbn [List.filter]. rewrite He. cbn [negb length]. apply IH in Hf. unfold without in Hf. lia.
Qed.

Lemma cache_get_spec c key o c' : cache_get c key = (o, c') ->
  length c' <= length c /\ (forall e, e ∈ c' -> e ∈ c) /\ (forall r, o = Some r -> (key, r) ∈ c).
Proof.
  unfold cache_get. destruct (find _ c) as [e|] eqn:Hf; intros [= <- <-]; [|done].
  pose proof (without_shrinks _ _ _ Hf) as Hl. apply find_spec in Hf as [Hin He%bool_decide_eq_true_1].
  split_and!; [cbn; lia| |].
  - intros e' [->|H]%elem_of_cons; [done|]. by apply without_subset in H.
  - intros r [= <-]. rewrite <- He. by destruct e.
Qed.

Lemma elem_of_removelast {A} (l : list A) x : x ∈ removelast l -> x ∈ l.
Proof. induction l as [|y l IH]; [done|]. cbn [removelast]. destruct l; [set_solver|]. set_solver. Qed.

Lemma length_removelast {A} (l : list A) : l <> [] -> S (length (removelast l)) = length l.
Proof.
  induction l as [|y l IH]; [done|]. intros _. cbn [removelast]. destruct l as [|z l]; [done|].
  cbn [length] in *. by rewrite IH.
Qed.

Lemma cache_put_spec capacity c key r : 0 < capacity -> length c <= capacity ->
  length (cache_put capacity c key r) <= capacity /\ forall e, e ∈ cache_put capacity c key r -> e = (key, r) \/ e ∈ c.
Proof.
  intros Hc Hl. unfold cache_put. destruct (find _ c) as [e|] eqn:Hf.
  - apply without_shrinks in Hf. split; [cbn; lia|].
    intros e' [->|H]%elem_of_cons; [by left|]. right. by apply without_subset in H.
  - split.
    + cbn [length]. destruct (capacity <=? length c) eqn:Hle; [|apply Nat.leb_gt in Hle; lia].
      assert (c <> []) by (intros ->; apply Nat.leb_le in Hle; cbn in Hle; lia).
      pose proof (length_removelast c ltac:(done)). lia.
    + intros e' [->|H]%elem_of_cons; [by left|]. right. destruct (capacity <=? length c); [by apply elem_of_removelast|done].
Qed.

(** One call of the rater: what it was asked about, the profile it resolved, the model. *)
Record RateCall := { q_tool : string; q_args : string; q_session : string; q_profile : option string; q_model : RaterCall }.

Section History.
Context (hash : string -> string) (capacity : nat).

Definition ask_rater (c : ratingCache) (q : RateCall) : result Rating RateErr * ratingCache :=
  Rate hash capacity (q_profile q) (q_model q) c (q_tool q) (q_args q) (q_session q).

(** The cache after a sequence of calls. *)
Definition after_calls (qs : list RateCall) : ratingCache := foldl (fun c q => (ask_rater c q).2) [] qs.

Lemma after_calls_snoc qs q : after_calls (qs ++ [q]) = (ask_rater (after_calls qs) q).2.
Proof. unfold after_calls. by rewrite foldl_app. Qed.

(** The rating a call computes by itself, when it does. *)
Definition own_rating (q : RateCall) (r : Rating) : Prop :=
  exists model, q_profile q = Some model /\ judge model (q_model q) = Ok r.

Lemma cache_sound qs : 0 < capacity -> length (after_calls qs) <= capacity /\
  forall key r, (key, r) ∈ after_calls qs -> exists q, q ∈ qs /\ key = rate_key hash (q_tool q) (q_args q) (q_session q) /\ own_rating q r.
Proof.
  intros Hcap. induction qs as [|q qs IH] using rev_ind; [split; [cbn; lia|intros ? ? H; by apply elem_of_nil in H]|].
  destruct IH as [Hl Hin]. rewrite after_calls_snoc. unfold ask_rater, Rate.
  destruct (cache_get (after_calls qs) (rate_key hash (q_tool q) (q_args q) (q_session q))) as [o c1] eqn:Hg.
  apply cache_get_spec in Hg as (Hl1 & Hsub & _).
  assert (length c1 <= capacity /\ forall key r, (key, r) ∈ c1 -> exists q', q' ∈ qs ++ [q] /\ key = rate_key hash (q_tool q') (q_args q') (q_session q') /\ own_rating q' r) as [Hc1 Hin1].
  { split; [lia|]. intros key r Hk. destruct (Hin key r (Hsub _ Hk)) as (q' & Hq & H). exists q'. split; [set_solver|done]. }
  destruct o as [r0|]; [done|]. destruct (q_profile q) as [model|] eqn:Hp; [|done].
  destruct (judge model (q_model q)) as [r0|e] eqn:Hj; [|done]. cbn [snd].
  destruct (cache_put_spec capacity c1 (rate_key hash (q_tool q) (q_args q) (q_session q)) r0 Hcap Hc1) as [Hl2 Hin2].
  split; [done|]. intros key r Hk. apply Hin2 in Hk as [[= -> ->]|Hk]; [|by apply Hin1].
  exists q. split; [set_solver|]. split; [done|]. by exists model.
Qed.
End History.

Lemma judge_valid model call r : judge model call = Ok r ->
  (0 <= rt_Score r <= 100)%Z /\ rt_CacheHit r = false /\ rt_PromptVersion r = llmRaterPromptVersion.
Proof.
  destruct call as [|[|n]|blocks]; try done. cbn [judge]. destruct (parseRaterResponse _) as [[score rationale]|]; [|done].
  destruct (ValidateScore score) eqn:Hv; [|done]. intros [= <-]. cbn. unfold ValidateScore in Hv. split_and!; [lia|lia|done|done].
Qed.

(** Whatever calls went before, a rating is one the model gave for a call of the same
    session, tool, argument digest and prompt version (this call or, from the cache, an
    earlier one), its score is in range, and the cache stays within its capacity. *)
Theorem rating_is_of_the_same_call hash capacity qs q r c : 0 < capacity ->
  ask_rater hash capacity (after_calls hash capacity qs) q = (Ok r, c) ->
  (0 <= rt_Score r <= 100)%Z /\ length c <= capacity /\
  exists q' r', own_rating q' r' /\ (if rt_CacheHit r then q' ∈ qs else q' = q) /\
    q_session q' = q_session q /\ q_tool q' = q_tool q /\ hash (q_args q') = hash (q_args q) /\
    rt_Score r = rt_Score r' /\ rt_Rationale r = rt_Rationale r' /\ rt_Model r = rt_Model r'.
Proof.
  intros Hcap Hr. assert (length c <= capacity) as Hlen.
  { destruct (cache_sound hash capacity (qs ++ [q]) Hcap) as [Hl _].
    rewrite after_calls_snoc in Hl. by rewrite Hr in Hl. }
  destruct (cache_sound hash capacity qs Hcap) as [_ Hin]. unfold ask_rater, Rate in Hr.
  destruct (cache_get (after_calls hash capacity qs) (rate_key hash (q_tool q) (q_args q) (q_session q))) as [[r0|] c0] eqn:Hg.
  - injection Hr as <- <-. apply cache_get_spec in Hg as (_ & _ & Hk).
    destruct (Hin _ _ (Hk r0 eq_refl)) as (q' & Hq & Heq & Hown). injection Heq as Hs Ht Hh.
    destruct Hown as (model & Hp & Hj). destruct (judge_valid _ _ _ Hj) as (Hv & _).
    split_and!; [apply Hv..|done|]. exists q', r0. split_and!; try done. by exists model.
  - destruct (q_profile q) as [model|] eqn:Hp; [|done]. destruct (judge model (q_model q)) as [r0|e] eqn:Hj; [|done].
    injection Hr as <- <-. destruct (judge_valid _ _ _ Hj) as (Hv & Hch & _).
    split_and!; [apply Hv..|done|]. exists q, r0. rewrite Hch. split_and!; try done. by exists model.
Qed.

Lemma rating_is_of_the_same_call_witness :
  let q args := {| q_tool := "fs__read"; q_args := args; q_session := "s"; q_profile := Some "m";
                   q_model := CallDone [("text", "{" +:+ dquote +:+ "score" +:+ dquote +:+ ":7}")] |} in
  exists q', q' ∈ [q "{}"] /\ q_session q' = "s".
Proof.
  cbn zeta. set (q := {| q_tool := "fs__read"; q_args := "{}"; q_session := "s"; q_profile := Some "m";
    q_model := CallDone [("text", "{" +:+ dquote +:+ "score" +:+ dquote +:+ ":7}")] |}).
  destruct (ask_rater (fun s => s) 4 (after_calls (fun s => s) 4 [q]) q) as [[r|err] c] eqn:Hr; [|exfalso; vm_compute in Hr; discriminate Hr].
  destruct (rating_is_of_the_same_call (fun s => s) 4 [q] q r c ltac:(lia) Hr) as (_ & _ & q' & r' & _ & Hq & Hs & _).
  assert (rt_CacheHit r = true) as Hhit by (vm_compute in Hr; injection Hr as <- _; reflexivity).
  rewrite Hhit in Hq. exists q'. split; [exact Hq|exact Hs].
Defined.

(** An answer without a score is not refused: it counts as the lowest one. *)
Theorem missing_score_rates_zero model :
  judge model (CallDone [("text", "{}")]) =
  Ok {| rt_Score := 0; rt_Rationale := ""; rt_Model := model; rt_PromptVersion := llmRaterPromptVersion; rt_CacheHit := false |}.
Proof. reflexivity. Qed.

(** * Families and the skip set *)

(** A call skips its confirmation exactly when its family is one the posture approves
    by name, or it is destructive and the posture leaves destruction to Cedar; a name the
    classifier cannot place never skips. *)
Theorem skip_set_exact knobs tool :
  SkipsTool (promptSkipSet knobs) tool = true <->
  let family := ClassifyToolFamily tool in
  (fs_Has (rk_AutoApproveFamilies knobs) family = true \/
   family = FamilyDestructive /\ rk_DestructiveActionPosture knobs = DestructiveCedarOnly) /\ family <> FamilyUnknown.
Proof.
  cbn zeta. unfold SkipsTool, skip_Has. set (family := ClassifyToolFamily tool).
  assert (family ∈ FamilyUnknown :: skippable) as Hf.
  { unfold family, ClassifyToolFamily. destruct (splitIdentifier tool) as [|x l]; [set_solver|].
    destruct (has_token destructive_tokens (x :: l)); [unfold skippable; set_solver|].
    destruct (bool_decide _); [unfold skippable; set_solver|]. cbn [first_bucket familyTokens].
    unfold skippable. repeat case_match; set_solver. }
  assert (forall f, f ∈ NewPromptSkipSet (Sorted (rk_AutoApproveFamilies knobs)) <->
    f ∈ skippable /\ fs_Has (rk_AutoApproveFamilies knobs) f = true) as Hnew.
  { intros f. unfold NewPromptSkipSet. rewrite elem_of_list_to_set, list_elem_of_In, filter_In, bool_decide_eq_true, <- list_elem_of_In.
    destruct (rk_AutoApproveFamilies knobs) as [s|]; cbn [Sorted fs_Has].
    - rewrite elem_of_sort_strings, elem_of_elements, bool_decide_eq_true. tauto.
    - split; [intros [H _]; by apply elem_of_nil in H|intros [_ H]; done]. }
  destruct (bool_decide (family = "") || bool_decide (family = FamilyUnknown)) eqn:Hu.
  - split; [done|]. intros [_ Hne]. exfalso. apply orb_true_iff in Hu as [Hu%bool_decide_eq_true_1|Hu%bool_decide_eq_true_1]; [|done].
    rewrite Hu in Hf. unfold skippable, FamilyUnknown, FamilyRead, FamilyWrite, FamilyShellSafe, FamilyNetwork, FamilyDestructive in Hf. set_solver.
  - apply orb_false_iff in Hu as [_ Hu%bool_decide_eq_false_1]. apply elem_of_cons in Hf as [Hf|Hf]; [done|].
    rewrite bool_decide_eq_true. unfold promptSkipSet, skip_Add. case_bool_decide as Hp.
    + rewrite bool_decide_true by (unfold skippable; set_solver).
      rewrite elem_of_union, elem_of_singleton, Hnew. tauto.
    + rewrite Hnew. tauto.
Qed.

(** A destructive word anywhere in the name decides, whatever else the name says. *)
Lemma destructive_segment_wins tool seg : seg ∈ splitIdentifier tool -> seg ∈ destructive_tokens ->
  ClassifyToolFamily tool = FamilyDestructive.
Proof.
  intros Hin Ht. unfold ClassifyToolFamily. destruct (splitIdentifier tool) as [|x l] eqn:Hs; [by apply elem_of_nil in Hin|].
  assert (has_token destructive_tokens (x :: l) = true) as ->; [|done].
  unfold has_token. apply existsb_exists. exists seg. split; [by apply list_elem_of_In|by apply bool_decide_eq_true].
Qed.

Example family_examples :
  map ClassifyToolFamily ["delete_file"; "readFileSync"; "bash"; " Echo "; "echo_file"; "fetch_url"; "save_artifact"] =
  [FamilyDestructive; FamilyRead; FamilyUnknown; FamilyShellSafe; FamilyUnknown; FamilyNetwork; FamilyWrite].
Proof. vm_compute. reflexivity. Qed.

(** * The floor *)

Lemma floor_bounds family score : (score <= ApplyFamilyFloor family score)%Z /\
  (family = FamilyDestructive \/ family = FamilyUnknown -> familyFloorScore <= ApplyFamilyFloor family score)%Z.
Proof.
  unfold ApplyFamilyFloor, FamilyFloors. case_bool_decide as Hf.
  - destruct (Z.ltb_spec score familyFloorScore); split; intros; lia.
  - split; [lia|]. intros H. by destruct Hf.
Qed.

(** The bands cover the scores. *)
Lemma band_for_range score : (0 <= score <= 100)%Z ->
  exists lo hi, (BandFor score, lo, hi) ∈ BandAnchors /\ (lo <= score <= hi)%Z.
Proof.
  intros Hs. unfold BandFor. destruct (find _ BandAnchors) as [a|] eqn:Hf.
  - apply find_spec in Hf as [Hin Ha]. destruct a as [[b lo] hi]. exists lo, hi. cbn in *. split; [done|lia].
  - exfalso. assert (forall a, a ∈ BandAnchors -> (score < a.1.2 \/ a.2 < score)%Z) as H.
    { intros a Ha. apply list_elem_of_In in Ha. pose proof (find_none _ _ Hf a Ha) as Hn. cbn beta in Hn. lia. }
    unfold BandAnchors in H.
    pose proof (H ("low", 0%Z, 19%Z) ltac:(set_solver)). pose proof (H ("moderate", 20%Z, 39%Z) ltac:(set_solver)).
    pose proof (H ("elevated", 40%Z, 59%Z) ltac:(set_solver)). pose proof (H ("high", 60%Z, 79%Z) ltac:(set_solver)).
    pose proof (H ("critical", 80%Z, 100%Z) ltac:(set_solver)). cbn in *. lia.
Qed.
