(* ===== verification/Perms.v ===== *)
(** Tool permissions (core/toolloop/perms.go): static and session rules, their ranking, the
    merged resolver and the writer of the static rules.  Reading the rule file is an
    argument: the configuration it holds, or an error. *)
From S2P Require Import Prelude GoString.
Local Open Scope nat_scope.

Definition PolicyAutoAllow : string := "auto_allow".
Definition PolicyConfirmEach : string := "confirm_each".
Definition PolicyDeny : string := "deny".

Record permRule := { pr_Server : string; pr_Tool : string; pr_Policy : string; pr_Reason : string }.
Record Resolution := { rs_Policy : string; rs_Reason : string }.

#[export] Instance permRule_eq_dec : EqDecision permRule.
Proof. solve_decision. Defined.

Definition ruleRank (r : permRule) (server tool : string) : nat :=
  let srvExact := bool_decide (pr_Server r = server) in
  let srvWild := bool_decide (pr_Server r = "*") in
  let toolExact := bool_decide (pr_Tool r = tool) in
  let toolWild := bool_decide (pr_Tool r = "*") in
  if srvExact && toolExact then 4 else if srvExact && toolWild then 3
  else if srvWild && toolExact then 2 else if srvWild && toolWild then 1 else 0.

Definition matchStep (server tool : string) (best : option (permRule * nat)) (r : permRule) : option (permRule * nat) :=
  let rank := ruleRank r server tool in
  if rank =? 0 then best
  else match best with
       | None => Some (r, rank)
       | Some (_, bestRank) => if bestRank <? rank then Some (r, rank) else best
       end.

Definition matchRules (rules : list permRule) (server tool : string) : option permRule :=
  fst <$> foldl (matchStep server tool) None rules.

Definition validatePolicy (p : string) : bool := bool_decide (p ∈ [PolicyAutoAllow; PolicyConfirmEach; PolicyDeny]).

(** [staticResolver]; construction refuses an unknown policy. *)
Definition NewStaticResolver (rules : list permRule) : option (list permRule) :=
  if forallb (fun r => validatePolicy (pr_Policy r)) rules then Some rules else None.

Definition NewFailSafeStaticResolver (reason : string) : list permRule :=
  [{| pr_Server := "*"; pr_Tool := "*"; pr_Policy := PolicyConfirmEach; pr_Reason := reason |}].

Definition auto_allow : Resolution := {| rs_Policy := PolicyAutoAllow; rs_Reason := "" |}.

Definition of_rule (r : permRule) : Resolution := {| rs_Policy := pr_Policy r; rs_Reason := pr_Reason r |}.

Definition static_Resolve (rules : list permRule) (server tool : string) : Resolution :=
  match matchRules rules server tool with Some r => of_rule r | None => auto_allow end.

(** [resolveWithMatch] over the overrides read for the session, or the read error. *)
Definition resolveWithMatch (overrides : result (list permRule) string) (server tool : string) : result (Resolution * bool) string :=
  let! rules := overrides in
  match matchRules rules server tool with
  | Some r => Ok (of_rule r, true)
  | None => Ok (auto_allow, false)
  end.

(** A resolver of another type is taken to match when it says more than a plain allow. *)
Definition sessionResolverShim (res : result Resolution string) : result (Resolution * bool) string :=
  let! r := res in
  Ok (r, negb (bool_decide (rs_Policy r = PolicyAutoAllow)) || negb (bool_decide (rs_Reason r = ""))).

Definition merged_Resolve (session : result (Resolution * bool) string) (static : list permRule) (server tool : string) :
    result Resolution string :=
  let! (res, matched) := session in
  Ok (if matched then res else static_Resolve static server tool).

(** * The static rules on disk *)

Record staticConfig := { sc_Version : Z; sc_Rules : list permRule }.

(** A missing file reads as the zero configuration. *)
Definition zero_config : staticConfig := {| sc_Version := 0; sc_Rules := [] |}.

Definition same_pair (server tool : string) (r : permRule) : bool :=
  bool_decide (pr_Server r = server) && bool_decide (pr_Tool r = tool).

(** The loop over the rules: the first rule of the pair is replaced. *)
Fixpoint replace_rule (rule : permRule) (rules : list permRule) : option (list permRule) :=
  match rules with
  | [] => None
  | r :: rules =>
      if same_pair (pr_Server rule) (pr_Tool rule) r then Some (rule :: rules)
      else cons r <$> replace_rule rule rules
  end.

Definition SetStaticRule (dataDir : string) (read : result staticConfig string) (rule : permRule) : result staticConfig string :=
  if bool_decide (dataDir = "") then Err "toolloop/perms: SetStaticRule: empty data dir"
  else if bool_decide (pr_Server rule = "") || bool_decide (pr_Tool rule = "") then
    Err "toolloop/perms: SetStaticRule: server and tool are required"
  else if negb (validatePolicy (pr_Policy rule)) then
    Err ("toolloop/perms: SetStaticRule: toolloop/perms: unknown policy " +:+ fmt_q (pr_Policy rule))
  else
    let! cfg := read in
    Ok {| sc_Version := if (sc_Version cfg =? 0)%Z then 1%Z else sc_Version cfg;
          sc_Rules := default (sc_Rules cfg ++ [rule]) (replace_rule rule (sc_Rules cfg)) |}.

Definition RemoveStaticRule (dataDir : string) (read : result staticConfig string) (server tool : string) : result staticConfig string :=
  if bool_decide (dataDir = "") then Err "toolloop/perms: RemoveStaticRule: empty data dir"
  else
    let! cfg := read in
    Ok {| sc_Version := sc_Version cfg; sc_Rules := List.filter (fun r => negb (same_pair server tool r)) (sc_Rules cfg) |}.

(** * The rule that decides *)

(** [r] decides: it is the first rule of the highest rank among those that match. *)
Definition decides (rules : list permRule) (server tool : string) (r : permRule) : Prop :=
  exists before after, rules = before ++ r :: after /\ 0 < ruleRank r server tool /\
    (forall r', r' ∈ before -> ruleRank r' server tool < ruleRank r server tool) /\
    (forall r', r' ∈ after -> ruleRank r' server tool <= ruleRank r server tool).

Lemma match_fold rules server tool :
  match foldl (matchStep server tool) None rules with
  | None => forall r, r ∈ rules -> ruleRank r server tool = 0
  | Some (r, rank) => rank = ruleRank r server tool /\ decides rules server tool r
  end.
Proof.
  induction rules as [|x rules IH] using rev_ind; [intros r Hr; by apply elem_of_nil in Hr|].
  rewrite foldl_app. cbn [foldl]. unfold matchStep at 1. destruct (Nat.eqb_spec (ruleRank x server tool) 0) as [H0|H0].
  - destruct (foldl _ None rules) as [[r rank]|].
    + destruct IH as [-> (b & a & -> & Hp & Hb & Ha)]. split; [done|]. exists b, (a ++ [x]). split_and!; [by rewrite <- app_assoc|done|done|].
      intros r' [Hr|Hr]%elem_of_app; [by apply Ha|]. apply list_elem_of_singleton in Hr as ->. lia.
    + intros r [Hr|Hr]%elem_of_app; [by apply IH|]. by apply list_elem_of_singleton in Hr as ->.
  - destruct (foldl _ None rules) as [[r rank]|].
    + destruct IH as [-> (b & a & -> & Hp & Hb & Ha)]. destruct (Nat.ltb_spec (ruleRank r server tool) (ruleRank x server tool)) as [Hlt|Hle].
      * split; [done|]. exists (b ++ r :: a), []. split_and!; [done|lia| |by intros ? ?%elem_of_nil].
        intros r' [Hr|[->|Hr]%elem_of_cons]%elem_of_app; [apply Hb in Hr; lia|done|apply Ha in Hr; lia].
      * split; [done|]. exists b, (a ++ [x]). split_and!; [by rewrite <- app_assoc|done|done|].
        intros r' [Hr|Hr]%elem_of_app; [by apply Ha|]. by apply list_elem_of_singleton in Hr as ->.
    + split; [done|]. exists rules, []. split_and!; [done|lia| |by intros ? ?%elem_of_nil]. intros r Hr. rewrite IH by done. lia.
Qed.

Lemma decides_unique rules server tool r r' : decides rules server tool r -> decides rules server tool r' -> r = r'.
Proof.
  intros (b & a & -> & Hp & Hb & Ha) (b' & a' & Heq & Hp' & Hb' & Ha').
  destruct (lt_eq_lt_dec (length b) (length b')) as [[Hl|Hl]|Hl].
  - assert (r ∈ b') as Hin.
    { apply list_elem_of_lookup. exists (length b). rewrite <- (lookup_app_l b' (r' :: a')), <- Heq by done.
      by rewrite lookup_app_r, Nat.sub_diag by lia. }
    apply Hb' in Hin. assert (r' ∈ b ++ r :: a) as [H|[->|H]%elem_of_cons]%elem_of_app by (rewrite Heq; set_solver).
    + apply Hb in H. lia.
    + lia.
    + apply Ha in H. lia.
  - by destruct (app_inj_1 _ _ _ _ Hl Heq) as [_ [= -> _]].
  - assert (r' ∈ b) as Hin.
    { apply list_elem_of_lookup. exists (length b'). rewrite <- (lookup_app_l b (r :: a)), Heq by done.
      by rewrite lookup_app_r, Nat.sub_diag by lia. }
    apply Hb in Hin. assert (r ∈ b' ++ r' :: a') as [H|[->|H]%elem_of_cons]%elem_of_app by (rewrite <- Heq; set_solver).
    + apply Hb' in H. lia.
    + lia.
    + apply Ha' in H. lia.
Qed.

Lemma most_specific_rule_found rules server tool r : decides rules server tool r -> matchRules rules server tool = Some r.
Proof.
  intros Hd. pose proof (match_fold rules server tool) as H. unfold matchRules. destruct (foldl _ None rules) as [[r' rank]|]; cbn.
  - destruct H as [_ Hd']. f_equal. by eapply decides_unique.
  - destruct Hd as (b & a & -> & Hp & _). rewrite H in Hp by set_solver. lia.
Qed.

(** A tool's policy is that of the most specific matching rule, the first such rule on
    a tie; without a matching rule the call is allowed. *)
Theorem most_specific_rule_decides rules server tool :
  (forall r, matchRules rules server tool = Some r <-> decides rules server tool r) /\
  (matchRules rules server tool = None <-> forall r, r ∈ rules -> ruleRank r server tool = 0).
Proof.
  pose proof (match_fold rules server tool) as H. unfold matchRules. destruct (foldl _ None rules) as [[r rank]|]; cbn.
  - destruct H as [_ Hd]. split.
    + intros r'. split; [by intros [= <-]|]. intros Hd'. f_equal. by eapply decides_unique.
    + split; [done|]. intros Hz. destruct Hd as (b & a & -> & Hp & _). rewrite Hz in Hp by set_solver. lia.
  - split; [|done]. intros r. split; [done|]. intros (b & a & -> & Hp & _). rewrite H in Hp by set_solver. lia.
Qed.

(** * Writing a rule *)

Lemma ruleRank_le r server tool : ruleRank r server tool <= 4.
Proof. unfold ruleRank. repeat case_match; lia. Qed.

Lemma ruleRank_exact r server tool : ruleRank r server tool = 4 <-> same_pair server tool r = true.
Proof. unfold ruleRank, same_pair. by repeat case_match. Qed.

Lemma replace_rule_spec rule rules :
  match replace_rule rule rules with
  | None => forall r, r ∈ rules -> same_pair (pr_Server rule) (pr_Tool rule) r = false
  | Some rules' => exists before old after, rules = before ++ old :: after /\ rules' = before ++ rule :: after /\
      same_pair (pr_Server rule) (pr_Tool rule) old = true /\
      forall r, r ∈ before -> same_pair (pr_Server rule) (pr_Tool rule) r = false
  end.
Proof.
  induction rules as [|r rules IH]; [intros r Hr; by apply elem_of_nil in Hr|]. cbn [replace_rule].
  destruct (same_pair (pr_Server rule) (pr_Tool rule) r) eqn:Hr.
  - exists [], r, rules. split_and!; [done..|]. by intros ? ?%elem_of_nil.
  - destruct (replace_rule rule rules) as [rules'|]; cbn.
    + destruct IH as (b & o & a & -> & -> & Ho & Hb). exists (r :: b), o, a. split_and!; [done..|].
      intros r' [->|H]%elem_of_cons; [done|by apply Hb].
    + intros r' [->|H]%elem_of_cons; [done|by apply IH].
Qed.

Lemma match_skips rules server tool before r after r' : ruleRank r server tool = 0 -> ruleRank r' server tool = 0 ->
  rules = before ++ r :: after -> matchRules rules server tool = matchRules (before ++ r' :: after) server tool.
Proof.
  intros Hr Hr' ->. unfold matchRules. rewrite !foldl_app. cbn [foldl]. unfold matchStep at 2 5. by rewrite Hr, Hr'.
Qed.

Lemma match_skips_last rules server tool r : ruleRank r server tool = 0 ->
  matchRules (rules ++ [r]) server tool = matchRules rules server tool.
Proof. intros Hr. unfold matchRules. rewrite foldl_app. cbn [foldl]. unfold matchStep at 1. by rewrite Hr. Qed.

Lemma ruleRank_pair r r' server tool : same_pair (pr_Server r) (pr_Tool r) r' = true -> ruleRank r' server tool = ruleRank r server tool.
Proof.
  unfold same_pair. rewrite andb_true_iff, !bool_decide_eq_true. intros [Hs Ht]. unfold ruleRank. by rewrite Hs, Ht.
Qed.

(** A written rule decides for its own server and tool at once, and changes nothing
    for a pair it does not match. *)
Theorem written_rule_takes_effect dataDir cfg rule cfg' : SetStaticRule dataDir (Ok cfg) rule = Ok cfg' ->
  static_Resolve (sc_Rules cfg') (pr_Server rule) (pr_Tool rule) = of_rule rule /\
  (forall server tool, ruleRank rule server tool = 0 ->
     static_Resolve (sc_Rules cfg') server tool = static_Resolve (sc_Rules cfg) server tool) /\
  validatePolicy (pr_Policy rule) = true.
Proof.
  unfold SetStaticRule. case_bool_decide; [done|]. case_match; [done|]. destruct (validatePolicy (pr_Policy rule)); [|done].
  cbn [negb rbind]. intros [= <-]. cbn [sc_Rules].
  pose proof (replace_rule_spec rule (sc_Rules cfg)) as Hr.
  assert (ruleRank rule (pr_Server rule) (pr_Tool rule) = 4) as H4
    by (apply ruleRank_exact; unfold same_pair; by rewrite !bool_decide_true).
  assert (forall b a, (forall r, r ∈ b -> same_pair (pr_Server rule) (pr_Tool rule) r = false) ->
    static_Resolve (b ++ rule :: a) (pr_Server rule) (pr_Tool rule) = of_rule rule) as Hown.
  { intros b a Hb. unfold static_Resolve. rewrite (most_specific_rule_found _ _ _ rule); [done|].
    exists b, a. split_and!; [done|lia| |intros r' _; rewrite H4; apply ruleRank_le].
    intros r' Hin. specialize (Hb r' Hin). pose proof (ruleRank_le r' (pr_Server rule) (pr_Tool rule)).
    destruct (decide (ruleRank r' (pr_Server rule) (pr_Tool rule) = 4)) as [E|E]; [apply ruleRank_exact in E; congruence|lia]. }
  destruct (replace_rule rule (sc_Rules cfg)) as [rules'|]; cbn [default].
  - destruct Hr as (b & o & a & Heq & -> & Ho & Hb). split_and!; [by apply Hown| |done].
    intros server tool Hz. unfold static_Resolve. symmetry. erewrite (match_skips (sc_Rules cfg)); [done| | |done]; [|done].
    by rewrite (ruleRank_pair rule o server tool Ho).
  - split_and!; [by apply Hown| |done]. intros server tool Hz. unfold static_Resolve. by rewrite match_skips_last.
Qed.

(** Two rules of the same rank for one call: the first one decides. *)
Example first_rule_wins :
  let deny := {| pr_Server := "fs"; pr_Tool := "*"; pr_Policy := PolicyDeny; pr_Reason := "" |} in
  let allow := {| pr_Server := "fs"; pr_Tool := "*"; pr_Policy := PolicyAutoAllow; pr_Reason := "" |} in
  static_Resolve [deny; allow] "fs" "write_file" = of_rule deny.
Proof. reflexivity. Qed.

Lemma written_rule_takes_effect_witness :
  let rule := {| pr_Server := "fs"; pr_Tool := "rm"; pr_Policy := PolicyDeny; pr_Reason := "no" |} in
  let wild := {| pr_Server := "*"; pr_Tool := "*"; pr_Policy := PolicyConfirmEach; pr_Reason := "" |} in
  static_Resolve [wild; rule] "fs" "rm" = of_rule rule /\ static_Resolve [wild; rule] "fs" "ls" = of_rule wild.
Proof.
  destruct (written_rule_takes_effect "/data"
    {| sc_Version := 1; sc_Rules := [{| pr_Server := "*"; pr_Tool := "*"; pr_Policy := PolicyConfirmEach; pr_Reason := "" |};
                                     {| pr_Server := "fs"; pr_Tool := "rm"; pr_Policy := PolicyAutoAllow; pr_Reason := "" |}] |}
    {| pr_Server := "fs"; pr_Tool := "rm"; pr_Policy := PolicyDeny; pr_Reason := "no" |}
    {| sc_Version := 1; sc_Rules := [{| pr_Server := "*"; pr_Tool := "*"; pr_Policy := PolicyConfirmEach; pr_Reason := "" |};
                                     {| pr_Server := "fs"; pr_Tool := "rm"; pr_Policy := PolicyDeny; pr_Reason := "no" |}] |} eq_refl)
    as (H1 & H2 & _).
  split; [exact H1|]. etransitivity; [exact (H2 "fs" "ls" eq_refl)|reflexivity].
Defined.
