(* ===== verification/ConfirmBus.v ===== *)
(** The confirmation bus (core/toolloop/confirm.go): tool calls parked until the user
    answers, and the redacted summary of their arguments.  An entry is a Go pointer, here
    its number; its channel holds at most one decision.  Every critical section is one
    step, and so is the send that follows the one of a resolver. *)
From S2P Require Import Prelude GoString Json.
From stdpp Require Import gmap.
From Stdlib Require Import Ascii.
Local Open Scope nat_scope.

Record ConfirmRequest := {
  cq_SessionID : string; cq_CallID : string; cq_BatchID : string; cq_Server : string; cq_Tool : string;
  cq_ArgsSummary : string; cq_Reason : string; cq_HasRiskRating : bool; cq_RiskScore : Z; cq_RiskTier : string;
  cq_RiskThreshold : Z; cq_RiskRationale : string
}.

Record ConfirmDecision := { cd_Approved : bool; cd_Reason : string; cd_RememberSession : bool; cd_Persist : bool }.

Record confirmEntry := { ce_req : ConfirmRequest; ce_ch : option ConfirmDecision }.

Record ConfirmBus := {
  cb_entries : gmap nat confirmEntry; cb_pending : gmap string nat; cb_next : nat; cb_publish : bool
}.

Definition NewConfirmBus (publish : bool) : ConfirmBus :=
  {| cb_entries := ∅; cb_pending := ∅; cb_next := 0; cb_publish := publish |}.

Definition confirmKey (sessionID callID : string) : string := sessionID +:+ nul +:+ callID.
Definition req_key (req : ConfirmRequest) : string := confirmKey (cq_SessionID req) (cq_CallID req).

Definition ErrUnknownConfirmation : string := "toolloop: unknown or already-resolved confirmation".
Definition ErrDuplicateConfirmation : string := "toolloop: confirmation already pending for this call".
Definition ErrNilBus : string := "toolloop: nil ConfirmBus".

(** [Pending] up to the wait. *)
Definition park (b : ConfirmBus) (req : ConfirmRequest) : ConfirmBus * result nat string :=
  if bool_decide (cq_CallID req = "") then (b, Err "toolloop: ConfirmRequest.CallID is required")
  else match cb_pending b !! req_key req with
       | Some _ => (b, Err ErrDuplicateConfirmation)
       | None =>
           ({| cb_entries := <[cb_next b := {| ce_req := req; ce_ch := None |}]> (cb_entries b);
               cb_pending := <[req_key req := cb_next b]> (cb_pending b);
               cb_next := S (cb_next b); cb_publish := cb_publish b |}, Ok (cb_next b))
       end.

(** The wait of [Pending] ends with a decision ... *)
Definition receive (b : ConfirmBus) (id : nat) : option (ConfirmBus * ConfirmDecision) :=
  match cb_entries b !! id with
  | Some {| ce_ch := Some d |} =>
      Some ({| cb_entries := delete id (cb_entries b); cb_pending := cb_pending b; cb_next := cb_next b; cb_publish := cb_publish b |}, d)
  | _ => None
  end.

(** ... or with the context, which takes the entry off the bus if it is still there. *)
Definition leave (b : ConfirmBus) (id : nat) : ConfirmBus :=
  match cb_entries b !! id with
  | None => b
  | Some e =>
      {| cb_entries := delete id (cb_entries b);
         cb_pending := if bool_decide (cb_pending b !! req_key (ce_req e) = Some id)
                       then delete (req_key (ce_req e)) (cb_pending b) else cb_pending b;
         cb_next := cb_next b; cb_publish := cb_publish b |}
  end.

(** The buffered send: a full channel drops the decision. *)
Definition send (d : ConfirmDecision) (e : confirmEntry) : confirmEntry :=
  match ce_ch e with None => {| ce_req := ce_req e; ce_ch := Some d |} | Some _ => e end.

Definition Resolve (b : ConfirmBus) (sessionID callID : string) (d : ConfirmDecision) : ConfirmBus * option string :=
  match cb_pending b !! confirmKey sessionID callID with
  | None => (b, Some ErrUnknownConfirmation)
  | Some id =>
      ({| cb_entries := alter (send d) id (cb_entries b); cb_pending := delete (confirmKey sessionID callID) (cb_pending b);
          cb_next := cb_next b; cb_publish := cb_publish b |}, None)
  end.

Definition denial (reason : string) : ConfirmDecision :=
  {| cd_Approved := false; cd_Reason := if bool_decide (reason = "") then "cancelled by user" else reason;
     cd_RememberSession := false; cd_Persist := false |}.

Definition Cancel (b : ConfirmBus) (sessionID callID reason : string) : ConfirmBus * option string :=
  Resolve b sessionID callID (denial reason).

Definition in_batch (b : ConfirmBus) (batchID : string) (id : nat) : bool :=
  match cb_entries b !! id with Some e => bool_decide (cq_BatchID (ce_req e) = batchID) | None => false end.

Definition ResolveBatch (b : ConfirmBus) (batchID : string) (d : ConfirmDecision) : ConfirmBus * nat :=
  if bool_decide (batchID = "") then (b, 0)
  else
    let victims := filter (fun kv => in_batch b batchID kv.2 = true) (cb_pending b) in
    ({| cb_entries := map_imap (fun id e => Some (if bool_decide (id ∈ (map_to_list victims).*2) then send d e else e)) (cb_entries b);
        cb_pending := filter (fun kv => in_batch b batchID kv.2 = false) (cb_pending b);
        cb_next := cb_next b; cb_publish := cb_publish b |}, size victims).

Definition CancelBatch (b : ConfirmBus) (batchID reason : string) : ConfirmBus * nat := ResolveBatch b batchID (denial reason).

(** How the wait of [Pending] ends: with a decision delivered to the call, or with the
    context, whose error it returns. *)
Inductive wait_end := WAnswered (d : ConfirmDecision) | WEnded (err : string).

Definition ErrDeadline : string := "context deadline exceeded".
Definition ErrCancelled : string := "context canceled".

(** The whole call, with nothing else happening on the bus in between. *)
Definition Pending (bus : option ConfirmBus) (req : ConfirmRequest) (w : wait_end) :
    option ConfirmBus * result ConfirmDecision string :=
  match bus with
  | None => (None, Err ErrNilBus)
  | Some b =>
      match park b req, w with
      | (b, Err e), _ => (Some b, Err e)
      | (b, Ok id), WEnded err => (Some (leave b id), Err err)
      | (b, Ok id), WAnswered d =>
          let b := (Resolve b (cq_SessionID req) (cq_CallID req) d).1 in
          match receive b id with
          | Some (b, d) => (Some b, Ok d)
          | None => (Some b, Err ErrCancelled)
          end
      end
  end.

Definition HasChannel (b : ConfirmBus) : bool := cb_publish b.

Definition PendingCount (b : ConfirmBus) : nat := size (cb_pending b).

Definition req_le (x y : ConfirmRequest) : Prop :=
  if decide (cq_SessionID x <> cq_SessionID y) then String.le (cq_SessionID x) (cq_SessionID y)
  else if decide (cq_BatchID x <> cq_BatchID y) then String.le (cq_BatchID x) (cq_BatchID y)
  else String.le (cq_CallID x) (cq_CallID y).

#[export] Instance req_le_dec : RelDecision req_le.
Proof. intros x y. unfold req_le. repeat case_decide; apply _. Defined.

(** The requests parked on the bus, of one session when it is named. *)
Definition List_calls (b : ConfirmBus) (sessionID : string) : list ConfirmRequest :=
  merge_sort req_le
    (List.filter (fun q => bool_decide (sessionID = "") || bool_decide (cq_SessionID q = sessionID))
       (omap (fun kv => ce_req <$> cb_entries b !! kv.2) (map_to_list (cb_pending b)))).

(** * The summary of the arguments *)

Definition jsonKind (v : json) : string :=
  match v with
  | JNull => "null" | JBool _ => "boolean" | JNum _ => "number" | JStr _ => "string" | JArr _ => "array" | JObj _ => "object"
  end.

Definition SummarizeArgs (args : gmap string json) : string :=
  if size args =? 0 then "no arguments"
  else
    let names := sort_strings (elements (dom args)) in
    let parts := map (fun n => n +:+ " (" +:+ jsonKind (default JNull (args !! n)) +:+ ")") names in
    fmt_d (Z.of_nat (length names)) +:+ " " +:+ (if length names =? 1 then "argument" else "arguments") +:+ ": " +:+ GoString.Join parts ", ".

(** The summary shown to the user depends on the names and kinds of the arguments
    alone: no value can leak through it. *)
Theorem summary_hides_values (args args' : gmap string json) :
  jsonKind <$> args = jsonKind <$> args' -> SummarizeArgs args = SummarizeArgs args'.
Proof.
  intros Hk. assert (dom args = dom args') as Hd by (rewrite <- (dom_fmap_L jsonKind args), Hk; apply dom_fmap_L).
  assert (size args = size args') as Hs by (by rewrite <- !size_dom, Hd).
  unfold SummarizeArgs. rewrite Hs, Hd. destruct (size args' =? 0); [done|]. cbn zeta. do 4 f_equal. f_equal.
  apply map_ext. intros n. assert (jsonKind (default JNull (args !! n)) = jsonKind (default JNull (args' !! n))) as ->; [|done].
  assert (jsonKind <$> args !! n = jsonKind <$> args' !! n) as Hn by (by rewrite <- !lookup_fmap, Hk).
  destruct (args !! n), (args' !! n); cbn in *; congruence.
Qed.

Lemma summary_hides_values_witness :
  SummarizeArgs {["key" := JStr "hunter2"; "n" := JNum "1"]} = SummarizeArgs {["key" := JStr "other"; "n" := JNum "2"]} /\
  SummarizeArgs {["key" := JStr "hunter2"; "n" := JNum "1"]} = "2 arguments: key (string), n (number)".
Proof. split; [apply (summary_hides_values {["key" := JStr "hunter2"; "n" := JNum "1"]}); reflexivity|vm_compute; reflexivity]. Defined.

(** * Histories *)

Inductive bus_op :=
| OpPark (req : ConfirmRequest)
| OpResolve (sessionID callID : string) (d : ConfirmDecision)
| OpCancel (sessionID callID reason : string)
| OpResolveBatch (batchID : string) (d : ConfirmDecision)
| OpCancelBatch (batchID reason : string)
| OpReceive (id : nat)
| OpLeave (id : nat).

Definition bus_step (b : ConfirmBus) (op : bus_op) : ConfirmBus :=
  match op with
  | OpPark req => (park b req).1
  | OpResolve s c d => (Resolve b s c d).1
  | OpCancel s c reason => (Cancel b s c reason).1
  | OpResolveBatch batch d => (ResolveBatch b batch d).1
  | OpCancelBatch batch reason => (CancelBatch b batch reason).1
  | OpReceive id => match receive b id with Some (b, _) => b | None => b end
  | OpLeave id => leave b id
  end.

Definition bus_after (publish : bool) (ops : list bus_op) : ConfirmBus := foldl bus_step (NewConfirmBus publish) ops.

(** [op] gives decision [d] to the call parked as [req]. *)
Definition answers (op : bus_op) (req : ConfirmRequest) (d : ConfirmDecision) : Prop :=
  match op with
  | OpResolve s c d' => confirmKey s c = req_key req /\ d = d'
  | OpCancel s c reason => confirmKey s c = req_key req /\ d = denial reason
  | OpResolveBatch batch d' => batch = cq_BatchID req /\ d = d'
  | OpCancelBatch batch reason => batch = cq_BatchID req /\ d = denial reason
  | _ => False
  end.

Record bus_inv (ops : list bus_op) (b : ConfirmBus) : Prop := {
  bi_pending : forall k id, cb_pending b !! k = Some id ->
    exists e, cb_entries b !! id = Some e /\ ce_ch e = None /\ k = req_key (ce_req e);
  bi_waiting : forall id e, cb_entries b !! id = Some e -> ce_ch e = None -> cb_pending b !! req_key (ce_req e) = Some id;
  bi_decided : forall id e d, cb_entries b !! id = Some e -> ce_ch e = Some d -> exists op, op ∈ ops /\ answers op (ce_req e) d;
  bi_fresh : forall id e, cb_entries b !! id = Some e -> id < cb_next b
}.

Lemma answered_more ops op0 req d : (exists op, op ∈ ops /\ answers op req d) -> exists op, op ∈ ops ++ [op0] /\ answers op req d.
Proof. intros (op & Hin & Ha). exists op. split; [set_solver|done]. Qed.

Lemma inv_mono ops op b : bus_inv ops b -> bus_inv (ops ++ [op]) b.
Proof. intros [Hp Hw Hd Hf]. constructor; try done. intros id e d He Hc. by eapply answered_more, Hd. Qed.

Lemma inv_park ops b req : bus_inv ops b -> bus_inv ops (park b req).1.
Proof.
  intros Hi. pose proof Hi as [Hp Hw Hd Hf]. unfold park. case_bool_decide; [done|].
  destruct (cb_pending b !! req_key req) eqn:Hn; [done|]. cbn [fst].
  assert (cb_entries b !! cb_next b = None) as Hfresh.
  { apply eq_None_not_Some. intros [e He]. apply Hf in He. lia. }
  constructor; cbn [cb_entries cb_pending cb_next].
  - intros k id. rewrite lookup_insert. case_decide as Hk; [intros [= <-]; subst; eexists; by rewrite lookup_insert_eq|].
    intros Hid. destruct (Hp k id Hid) as (e & He & ?). exists e. rewrite lookup_insert_ne; [done|]. intros <-. congruence.
  - intros id e. rewrite lookup_insert. case_decide as Hk; [intros [= <-] _; subst; by rewrite lookup_insert_eq|].
    intros He Hc. rewrite lookup_insert_ne; [by apply Hw|]. intros Heq. apply (Hw id e He) in Hc. congruence.
  - intros id e d. rewrite lookup_insert. case_decide; [by intros [= <-]|]. apply Hd.
  - intros id e. rewrite lookup_insert. case_decide; [intros; lia|]. intros He. apply Hf in He. lia.
Qed.

Lemma inv_receive ops b id b' d : bus_inv ops b -> receive b id = Some (b', d) -> bus_inv ops b'.
Proof.
  intros [Hp Hw Hd Hf]. unfold receive. destruct (cb_entries b !! id) as [[req [d'|]]|] eqn:He; try done. intros [= <- <-].
  constructor; cbn [cb_entries cb_pending cb_next].
  - intros k id' Hk. destruct (Hp k id' Hk) as (e & He' & Hc & ->). exists e. rewrite lookup_delete_ne; [done|].
    intros ->. rewrite He in He'. injection He' as <-. done.
  - intros id' e. rewrite lookup_delete_Some. intros [_ H]. by apply Hw.
  - intros id' e d0. rewrite lookup_delete_Some. intros [_ H]. exact (Hd _ _ _ H).
  - intros id' e. rewrite lookup_delete_Some. intros [_ H]. by apply Hf in H.
Qed.

Lemma inv_leave ops b id : bus_inv ops b -> bus_inv ops (leave b id).
Proof.
  intros [Hp Hw Hd Hf]. unfold leave. destruct (cb_entries b !! id) as [e0|] eqn:He; [|done].
  constructor; cbn [cb_entries cb_pending cb_next].
  - intros k id' Hk. assert (cb_pending b !! k = Some id' /\ id' <> id) as [Hk' Hne].
    { case_bool_decide as Hc; [apply lookup_delete_Some in Hk as [Hne Hk]|].
      - split; [done|]. intros ->. destruct (Hp k id Hk) as (e & He' & _ & ->). congruence.
      - split; [done|]. intros ->. destruct (Hp k id Hk) as (e & He' & _ & ->). congruence. }
    destruct (Hp k id' Hk') as (e & He' & ?). exists e. by rewrite lookup_delete_ne by done.
  - intros id' e. rewrite lookup_delete_Some. intros [Hne H] Hc. pose proof (Hw id' e H Hc) as Hk.
    case_bool_decide as Hq; [|done]. rewrite lookup_delete_ne; [done|]. congruence.
  - intros id' e d0. rewrite lookup_delete_Some. intros [_ H]. exact (Hd _ _ _ H).
  - intros id' e. rewrite lookup_delete_Some. intros [_ H]. by apply Hf in H.
Qed.

Lemma inv_resolve ops op b s c d : bus_inv ops b ->
  (forall req, req_key req = confirmKey s c -> answers op req d) -> bus_inv (ops ++ [op]) (Resolve b s c d).1.
Proof.
  intros Hi Hop. pose proof Hi as [Hp Hw Hd Hf]. unfold Resolve.
  destruct (cb_pending b !! confirmKey s c) as [id|] eqn:Hk; [|by apply inv_mono].
  destruct (Hp _ _ Hk) as (e0 & He0 & Hc0 & Hkey). cbn [fst]. constructor; cbn [cb_entries cb_pending cb_next].
  - intros k id' [Hne Hid]%lookup_delete_Some. destruct (Hp k id' Hid) as (e & He & Hc & ->). exists e.
    rewrite lookup_alter_ne; [done|]. intros <-. congruence.
  - intros id' e He Hc. rewrite lookup_alter in He. case_decide as Hid; subst.
    + rewrite He0 in He. injection He as <-. unfold send in Hc. by rewrite Hc0 in Hc.
    + rewrite lookup_delete_ne; [by apply Hw|]. rewrite Hkey. intros Heq. pose proof (Hw id' e He Hc) as Hk'.
      pose proof (Hw id e0 He0 Hc0). congruence.
  - intros id' e d' He Hc. rewrite lookup_alter in He. case_decide as Hid; subst.
    + rewrite He0 in He. injection He as <-. unfold send in *. rewrite Hc0 in *. cbn in *. injection Hc as <-.
      exists op. split; [set_solver|]. by apply Hop.
    + by eapply answered_more, Hd.
  - intros id' e He. rewrite lookup_alter in He. case_decide; subst; [exact (Hf _ _ He0)|exact (Hf _ _ He)].
Qed.

Lemma elem_of_victims (b : ConfirmBus) batch id :
  id ∈ (map_to_list (filter (fun kv => in_batch b batch kv.2 = true) (cb_pending b))).*2 <->
  (exists k, cb_pending b !! k = Some id) /\ in_batch b batch id = true.
Proof.
  rewrite list_elem_of_fmap. split.
  - intros ([k id'] & -> & H). apply elem_of_map_to_list, map_lookup_filter_Some in H as [Hk Hb]. split; [by exists k|done].
  - intros [[k Hk] Hb]. exists (k, id). split; [done|]. by apply elem_of_map_to_list, map_lookup_filter_Some.
Qed.

Lemma inv_batch ops op b batch d : bus_inv ops b -> (forall req, cq_BatchID req = batch -> answers op req d) ->
  bus_inv (ops ++ [op]) (ResolveBatch b batch d).1.
Proof.
  intros Hi Hop. pose proof Hi as [Hp Hw Hd Hf]. unfold ResolveBatch. case_bool_decide as Hb; [by apply inv_mono|].
  constructor; cbn [fst cb_entries cb_pending cb_next].
  - intros k id [Hk Hb']%map_lookup_filter_Some. destruct (Hp k id Hk) as (e & He & Hc & ->). exists e.
    rewrite map_lookup_imap, He. cbn. rewrite bool_decide_false; [done|]. rewrite elem_of_victims. cbn in Hb'. intros [_ ?]. congruence.
  - intros id e He Hc. rewrite map_lookup_imap in He. destruct (cb_entries b !! id) as [e0|] eqn:He0; [|done]. cbn in He.
    case_bool_decide as Hv; injection He as <-.
    + apply elem_of_victims in Hv as [[k Hk] _]. destruct (Hp k id Hk) as (e1 & He1 & Hc1 & _). rewrite He0 in He1. injection He1 as <-.
      unfold send in Hc. by rewrite Hc1 in Hc.
    + apply map_lookup_filter_Some. split; [by apply Hw|]. cbn. apply not_true_iff_false. intros Hin. apply Hv, elem_of_victims.
      split; [|done]. eexists. by apply Hw.
  - intros id e d' He Hc. rewrite map_lookup_imap in He. destruct (cb_entries b !! id) as [e0|] eqn:He0; [|done]. cbn in He.
    case_bool_decide as Hv; injection He as <-; [|by eapply answered_more, Hd].
    apply elem_of_victims in Hv as [[k Hk] Hin]. destruct (Hp k id Hk) as (e1 & He1 & Hc1 & _). rewrite He0 in He1. injection He1 as <-.
    unfold send in *. rewrite Hc1 in *. cbn in *. injection Hc as <-. exists op. split; [set_solver|]. apply Hop.
    unfold in_batch in Hin. rewrite He0 in Hin. by apply bool_decide_eq_true in Hin.
  - intros id e He. rewrite map_lookup_imap in He. destruct (cb_entries b !! id) as [e0|] eqn:He0; [|done]. exact (Hf _ _ He0).
Qed.

Lemma bus_reachable publish ops : bus_inv ops (bus_after publish ops).
Proof.
  induction ops as [|op ops IH] using rev_ind; [constructor; cbn; intros *; by rewrite lookup_empty|].
  unfold bus_after. rewrite foldl_app. cbn [foldl]. fold (bus_after publish ops). destruct op; cbn [bus_step].
  - by apply inv_mono, inv_park.
  - apply inv_resolve; [done|]. intros req Hk. split; [by symmetry|done].
  - apply inv_resolve; [done|]. intros req Hk. split; [by symmetry|done].
  - apply inv_batch; [done|]. intros req Hk. split; [by symmetry|done].
  - apply inv_batch; [done|]. intros req Hk. split; [by symmetry|done].
  - destruct (receive _ id) as [[b' d]|] eqn:Hr; [|by apply inv_mono]. by apply inv_mono; eapply inv_receive.
  - by apply inv_mono, inv_leave.
Qed.

(** [Pending] refuses a call id that is empty or already parked; otherwise it returns what
    ended the wait and leaves the parked calls as they were. *)
Lemma Pending_spec b req w : exists b', Pending (Some b) req w = (Some b',
    if bool_decide (cq_CallID req = "") then Err "toolloop: ConfirmRequest.CallID is required"
    else if bool_decide (is_Some (cb_pending b !! req_key req)) then Err ErrDuplicateConfirmation
    else match w with WAnswered d => Ok d | WEnded e => Err e end) /\
  cb_publish b' = cb_publish b /\ cb_pending b' = cb_pending b.
Proof.
  unfold Pending, park. case_bool_decide as Hc; [by exists b|].
  destruct (cb_pending b !! req_key req) as [id|] eqn:Hk; [exists b; by rewrite bool_decide_true by done|].
  rewrite bool_decide_false by (by intros [? ?]). destruct w as [d|e].
  - unfold Resolve, receive. cbn [fst snd cb_pending cb_entries]. fold (req_key req). rewrite lookup_insert_eq. cbn [fst snd cb_pending cb_entries cb_next cb_publish].
    rewrite lookup_alter_eq, lookup_insert_eq. cbn. eexists. split_and!; [done|done|]. cbn. by rewrite delete_insert_id.
  - unfold leave. cbn [cb_entries cb_pending]. rewrite lookup_insert_eq. eexists. split_and!; [done|done|]. cbn [cb_pending ce_req].
    rewrite bool_decide_true by (by rewrite lookup_insert_eq). by rewrite delete_insert_id.
Qed.

Lemma elem_of_List b sessionID q : q ∈ List_calls b sessionID <->
  (sessionID = "" \/ cq_SessionID q = sessionID) /\
  exists k id e, cb_pending b !! k = Some id /\ cb_entries b !! id = Some e /\ ce_req e = q.
Proof.
  unfold List_calls. rewrite merge_sort_Permutation, list_elem_of_In, filter_In, <- list_elem_of_In, list_elem_of_omap.
  rewrite orb_true_iff, !bool_decide_eq_true. split.
  - intros [([k id] & Hk & He) Hs]. split; [done|]. apply elem_of_map_to_list in Hk. cbn in He. apply fmap_Some in He as (e & He & ->).
    by exists k, id, e.
  - intros [Hs (k & id & e & Hk & He & <-)]. split; [|done]. exists (k, id). split; [by apply elem_of_map_to_list|]. cbn. by rewrite He.
Qed.

(** Whatever calls are parked, answered, dismissed or torn down, a parked call only
    ever receives a decision given for its own session and call or for its batch, and it
    stays on the list until one is given or its run ends: no step but those removes it. *)
Theorem confirm_answer_is_its_own publish ops : let b := bus_after publish ops in
  (forall id b' d, receive b id = Some (b', d) ->
     exists e op, cb_entries b !! id = Some e /\ op ∈ ops /\ answers op (ce_req e) d) /\
  (forall id e, cb_entries b !! id = Some e -> ce_ch e = None -> ce_req e ∈ List_calls b "") /\
  (forall q, q ∈ List_calls b "" -> exists id e, cb_entries b !! id = Some e /\ ce_ch e = None /\ ce_req e = q) /\
  (forall batch reason q, batch <> "" -> q ∈ List_calls (CancelBatch b batch reason).1 "" -> cq_BatchID q <> batch) /\
  (forall batch reason id e, batch <> "" -> cb_entries b !! id = Some e -> ce_ch e = None -> cq_BatchID (ce_req e) = batch ->
     exists b', receive (CancelBatch b batch reason).1 id = Some (b', denial reason)).
Proof.
  cbn zeta. pose proof (bus_reachable publish ops) as Hi. set (b := bus_after publish ops) in *. pose proof Hi as [Hp Hw Hd Hf].
  split_and!.
  - intros id b' d Hr. unfold receive in Hr. destruct (cb_entries b !! id) as [[req [d'|]]|] eqn:He; try done. injection Hr as <- <-.
    destruct (Hd id _ d' He eq_refl) as (op & Hin & Ha). by eexists _, op.
  - intros id e He Hc. apply elem_of_List. split; [by left|]. exists (req_key (ce_req e)), id, e. split_and!; [by apply Hw|done..].
  - intros q [_ (k & id & e & Hk & He & <-)]%elem_of_List. destruct (Hp k id Hk) as (e' & He' & Hc & _).
    rewrite He in He'. injection He' as <-. by exists id, e.
  - intros batch reason q Hb [_ (k & id & e & Hk & He & <-)]%elem_of_List Hq.
    unfold CancelBatch, ResolveBatch in Hk, He. rewrite bool_decide_false in Hk, He by done. cbn [fst cb_pending cb_entries] in *.
    apply map_lookup_filter_Some in Hk as [Hk Hin]. cbn in Hin. rewrite map_lookup_imap in He.
    destruct (cb_entries b !! id) as [e0|] eqn:He0; [|done]. cbn in He. unfold in_batch in Hin. rewrite He0 in Hin.
    apply bool_decide_eq_false in Hin. apply Hin. rewrite <- Hq. injection He as <-. case_bool_decide; [|done].
    unfold send. by destruct (ce_ch e0).
  - intros batch reason id e Hb He Hc Hq. unfold CancelBatch, ResolveBatch. rewrite bool_decide_false by done. cbn [fst].
    unfold receive. cbn [cb_entries]. rewrite map_lookup_imap, He. cbn [mbind option_bind].
    rewrite bool_decide_true; [unfold send; rewrite Hc; by eexists|]. apply elem_of_victims. split; [eexists; by apply Hw|].
    unfold in_batch. rewrite He. by apply bool_decide_eq_true.
Qed.
