(* ===== verification/Grants.v ===== *)
(** Confirmations that outlive the question: the session grants and the headless policy
    (core/toolloop/grants.go), and the durable grants kept as Cedar snippets
    (core/policy/cedar/toolgrant.go, cedarToolGrantStore of core/rpc/api.go).  Names are
    scanned rune by rune; folding to lower case is the ASCII one. *)
From S2P Require Import Prelude GoString Utf8 Json ConfirmBus.
From stdpp Require Import gmap.
From Stdlib Require Import Ascii.
Local Open Scope nat_scope.

(** * Session grants *)

(** The nil cache is [None]. *)
Definition SessionGrantCache : Type := option (gset string).

Definition grantKey (sessionID server tool : string) : string := sessionID +:+ nul +:+ server +:+ nul +:+ tool.

Definition sg_Grant (c : SessionGrantCache) (sessionID server tool : string) : SessionGrantCache :=
  match c with
  | None => None
  | Some g => if bool_decide (tool = "") then Some g else Some ({[grantKey sessionID server tool]} ∪ g)
  end.

Definition sg_Has (c : SessionGrantCache) (sessionID server tool : string) : bool :=
  match c with None => false | Some g => bool_decide (grantKey sessionID server tool ∈ g) end.

Definition sg_RevokeSession (c : SessionGrantCache) (sessionID : string) : SessionGrantCache * nat :=
  match c with
  | None => (None, 0)
  | Some g =>
      let mine := filter (fun k => HasPrefix k (sessionID +:+ nul) = true) g in (Some (g ∖ mine), size mine)
  end.

(** * The headless policy *)

Definition HeadlessDeny : string := "deny".
Definition HeadlessAllow : string := "allow".

Definition ParseHeadlessConfirmPolicy (s : string) : string * bool :=
  let v := ToLower (TrimSpace s) in
  if bool_decide (v = HeadlessDeny) then (HeadlessDeny, true)
  else if bool_decide (v = HeadlessAllow) then (HeadlessAllow, true) else (HeadlessDeny, false).

Definition HeadlessConfirmPolicyFromEnv (raw : string) : string * bool * string :=
  if bool_decide (TrimSpace raw = "") then (HeadlessDeny, true, raw) else (ParseHeadlessConfirmPolicy raw, raw).

(** * Durable grants: the interface *)

(** A store [S]; [Io] is what the operating system makes of one write. *)
Class PersistentGrantStore (S Io : Type) := {
  HasGrant : S -> string -> string -> bool;
  WriteGrant : Io -> S -> string -> string -> S * option string;
  GrantID : S -> string -> string -> string
}.

(** The id of [cedar.ToolUID]. *)
Definition ToolID (server tool : string) : string := (if bool_decide (server = "") then "builtin" else server) +:+ "__" +:+ tool.

(** What a client may rely on: a successful write is found again, and no write grants more
    than the tool id it is for. *)
Class PersistentGrantLaws (S Io : Type) `{PersistentGrantStore S Io} := {
  written_is_found (io : Io) (s s' : S) server tool : WriteGrant io s server tool = (s', None) -> HasGrant s' server tool = true;
  write_is_narrow (io : Io) (s : S) server tool server' tool' :
    HasGrant (WriteGrant io s server tool).1 server' tool' = true ->
    HasGrant s server' tool' = true \/ ToolID server' tool' = ToolID server tool
}.

(** * Durable grants: the Cedar snippets *)

Definition ErrInvalidToolGrant : string := "cedar: invalid (server, tool) for a tool-allow grant".

Definition safe_filename_char (c : ascii) : bool := is_lower c || is_digit c || isc 45 c.

(** One underscore per rune that is not allowed; [skip] bytes of a rune are left. *)
Fixpoint sanitize_from (l : list ascii) (skip : nat) : list ascii :=
  match l with
  | [] => []
  | c :: r =>
      match skip with
      | S n => sanitize_from r n
      | 0 => if safe_filename_char c then c :: sanitize_from r 0 else chr 95 :: sanitize_from r (pred (rune_width l))
      end
  end.

Definition sanitizeToolIDForFilename (id : string) : string := of_list (sanitize_from (list_of (ToLower id)) 0).

Definition all_underscores (s : string) : bool := forallb (isc 95) (list_of s).

Definition ToolAllowGrantFilename (server tool : string) : option string :=
  if bool_decide (TrimSpace tool = "") then None
  else
    let server := if bool_decide (TrimSpace server = "") then "builtin" else server in
    let s := sanitizeToolIDForFilename server in
    let t := sanitizeToolIDForFilename tool in
    if all_underscores s || all_underscores t then None else Some ("tool_allow_" +:+ s +:+ "__" +:+ t +:+ ".cedar").

(** [strings.Index] *)
Fixpoint index_of (p l : list ascii) : option nat :=
  if prefixb p l then Some 0
  else match l with [] => None | _ :: l => S <$> index_of p l end.

Definition grant_marker : list ascii := list_of ("resource == Tool::" +:+ dquote).

Definition parseToolGrantResourceID (body : string) : option string :=
  match index_of grant_marker (list_of body) with
  | None => None
  | Some i =>
      let rest := drop (i + length grant_marker) (list_of body) in
      match index_of (list_of dquote) rest with
      | None | Some 0 => None
      | Some j => Some (of_list (take j rest))
      end
  end.

Definition SafeLiteralText (s : string) : bool :=
  bool_decide (range_bytes (list_of s) = list_of s) && negb (infixb rune_error (list_of s)).

Definition unquotable (c : ascii) : bool := isc 34 c || isc 92 c || isc 10 c || isc 13 c.

(** The policy directory: the readable regular files by name. *)
Abbreviation policy_dir := (gmap string string).

(** What became of the system calls of one write: the directory could not be made, the
    file was cut after so many bytes, the engine did not reload. *)
Record grant_io := { gi_Mkdir : option string; gi_Write : option (nat * string); gi_Reload : option string }.

Definition smooth : grant_io := {| gi_Mkdir := None; gi_Write := None; gi_Reload := None |}.

Section Cedar.
(** The body of a Cedar string literal and the parser's verdict on a generated snippet,
    both of the cedar-go library. *)
Context (escape : string -> string) (valid_snippet : string -> bool).

Definition toolGrantResourceID (server tool : string) : option string :=
  let id := escape (ToolID server tool) in
  if bool_decide (id = "") || existsb unquotable (list_of id) || negb (SafeLiteralText id) then None else Some id.

Definition HasToolAllowGrant (dataDir : string) (dir : policy_dir) (server tool : string) : bool :=
  if bool_decide (dataDir = "") then false
  else match ToolAllowGrantFilename server tool, toolGrantResourceID server tool with
       | Some filename, Some want => bool_decide (dir !! filename ≫= parseToolGrantResourceID = Some want)
       | _, _ => false
       end.

Definition grant_head : string :=
  "// Written by the confirm-each " +:+ dquote +:+ "always allow" +:+ dquote +:+ " control" +:+ nl +:+
  "// (confirm-each-enforcement-01PMAG05 WP03). Revoke from" +:+ nl +:+
  "// Settings → Permissions, or delete this file." +:+ nl +:+
  "permit(" +:+ nl +:+ "  principal," +:+ nl +:+
  "  action == Action::" +:+ dquote +:+ "use_tool" +:+ dquote +:+ "," +:+ nl +:+ "  ".

Definition grant_body (id : string) : string :=
  grant_head +:+ "resource == Tool::" +:+ dquote +:+ escape id +:+ dquote +:+ nl +:+ ");" +:+ nl.

Definition WriteToolAllowGrant (dataDir : string) (io : grant_io) (dir : policy_dir) (server tool : string) :
    policy_dir * result string string :=
  if bool_decide (dataDir = "") then (dir, Err "cedar: data dir not configured; cannot persist a tool grant")
  else match ToolAllowGrantFilename server tool, gi_Mkdir io, toolGrantResourceID server tool with
       | None, _, _ => (dir, Err ErrInvalidToolGrant)
       | _, Some e, _ => (dir, Err e)
       | _, _, None => (dir, Err ErrInvalidToolGrant)
       | Some filename, None, Some id =>
           let body := grant_body id in
           if negb (valid_snippet body) then (dir, Err "cedar: generated policy snippet rejected")
           else match gi_Write io with
                | Some (n, e) => (<[filename := of_list (take n (list_of body))]> dir, Err e)
                | None =>
                    (<[filename := body]> dir, match gi_Reload io with Some e => Err e | None => Ok filename end)
                end
       end.

Definition RemoveToolAllowGrant (dataDir : string) (dir : policy_dir) (server tool : string) : policy_dir :=
  if bool_decide (dataDir = "") then dir
  else match ToolAllowGrantFilename server tool with
       | None => dir
       | Some filename => if HasToolAllowGrant dataDir dir server tool then delete filename dir else dir
       end.

(** [cedarToolGrantStore]; its data directory is part of the state here. *)
Record cedarToolGrantStore := { cs_dataDir : string; cs_dir : policy_dir }.

#[export] Instance cedar_store : PersistentGrantStore cedarToolGrantStore grant_io := {
  HasGrant s server tool := HasToolAllowGrant (cs_dataDir s) (cs_dir s) server tool;
  WriteGrant io s server tool :=
    let '(dir, r) := WriteToolAllowGrant (cs_dataDir s) io (cs_dir s) server tool in
    ({| cs_dataDir := cs_dataDir s; cs_dir := dir |}, match r with Ok _ => None | Err e => Some e end);
  GrantID s server tool := default "" (ToolAllowGrantFilename server tool)
}.
End Cedar.
