(* ===== verification/GrantsProps.v ===== *)
(** What grants are worth: a session grant covers its session's tool until the session is
    revoked, and a durable grant never covers more than the tool id it was written for. *)
From S2P Require Import Prelude GoString Utf8 Json ConfirmBus Grants.
From stdpp Require Import gmap.
From Stdlib Require Import Ascii.
Local Open Scope nat_scope.

(** * Searching *)

Lemma index_of_split p l i : index_of p l = Some i ->
  prefixb p (drop i l) = true /\ (forall j, j < i -> prefixb p (drop j l) = false).
Proof.
  revert i. induction l as [|c l IH]; intros i; cbn [index_of].
  - destruct (prefixb p []) eqn:Hp; [|done]. intros [= <-]. split; [done|lia].
  - destruct (prefixb p (c :: l)) eqn:Hp; [intros [= <-]; split; [done|lia]|].
    destruct (index_of p l) as [k|] eqn:Hi; [|done]. intros [= <-]. destruct (IH k eq_refl) as [H1 H2].
    split; [done|]. intros [|j] Hj; [done|]. cbn [drop]. apply H2. lia.
Qed.

Lemma index_of_at p l i : prefixb p (drop i l) = true -> (forall j, j < i -> prefixb p (drop j l) = false) ->
  i <= length l -> index_of p l = Some i.
Proof.
  revert i. induction l as [|c l IH]; intros i Hp Hn Hi.
  - assert (i = 0) as -> by (cbn in Hi; lia). cbn [drop] in Hp. cbn [index_of]. by rewrite Hp.
  - cbn [index_of]. destruct i as [|i]; [cbn [drop] in Hp; by rewrite Hp|]. pose proof (Hn 0 ltac:(lia)) as H0. cbn [drop] in H0. rewrite H0.
    erewrite IH; [done|done| |cbn in Hi; lia]. intros j Hj. apply (Hn (S j)). lia.
Qed.

Lemma prefixb_app p a b : length p <= length a -> prefixb p (a ++ b) = prefixb p a.
Proof.
  revert a. induction p as [|c p IH]; [done|]. intros [|d a] Hl; cbn in Hl; [lia|]. cbn. by rewrite IH by lia.
Qed.

Lemma prefixb_length p l : prefixb p l = true -> length p <= length l.
Proof. intros [k ->]%prefixb_spec. rewrite length_app. lia. Qed.

Lemma prefixb_weaken p a b : prefixb p a = true -> prefixb p (a ++ b) = true.
Proof. intros [k ->]%prefixb_spec. apply prefixb_spec. exists (k ++ b). by rewrite app_assoc. Qed.

Lemma index_of_take p n l i : index_of p (take n l) = Some i -> index_of p l = Some i /\ i + length p <= n.
Proof.
  intros [Hp Hn]%index_of_split. pose proof (prefixb_length _ _ Hp) as Hl. rewrite length_drop, length_take in Hl.
  assert (p = [] \/ i + length p <= n /\ i <= length l) as [->|[Hin Hil]] by (destruct p; [by left|right; cbn in *; lia]).
  { destruct i as [|i]; [|specialize (Hn 0 ltac:(lia)); done]. split; [by destruct l|cbn; lia]. }
  split; [|done]. apply index_of_at; [|intros j Hj|done].
  - rewrite <- (take_drop n l). rewrite drop_app_le by (rewrite length_take; lia). by apply prefixb_weaken.
  - specialize (Hn j Hj). rewrite <- (take_drop n l). rewrite drop_app_le by (rewrite length_take; lia).
    rewrite prefixb_app; [done|]. rewrite length_drop, length_take. lia.
Qed.

Lemma index_quote e r : existsb (isc 34) e = false -> index_of (list_of dquote) (e ++ list_of dquote ++ r) = Some (length e).
Proof.
  induction e as [|c e IH]; [done|]. cbn [existsb]. intros [Hc He]%orb_false_elim. cbn [app index_of length].
  assert (prefixb (list_of dquote) (c :: e ++ list_of dquote ++ r) = false) as ->.
  { cbn. rewrite bool_decide_false; [done|]. intros <-. by vm_compute in Hc. }
  by rewrite IH.
Qed.

Section Cedar.
Context (escape : string -> string) (valid_snippet : string -> bool).
Local Notation body := (grant_body escape).

Lemma body_split id : list_of (body id) =
  list_of grant_head ++ grant_marker ++ list_of (escape id) ++ list_of dquote ++ list_of (nl +:+ ");" +:+ nl).
Proof. unfold grant_body, grant_marker. by rewrite !list_of_app. Qed.

Lemma index_marker r : index_of grant_marker (list_of grant_head ++ grant_marker ++ r) = Some (length (list_of grant_head)).
Proof. vm_compute. reflexivity. Qed.

Lemma after_marker id : drop (length (list_of grant_head) + length grant_marker) (list_of (body id)) =
  list_of (escape id) ++ list_of dquote ++ list_of (nl +:+ ");" +:+ nl).
Proof. rewrite body_split, <- drop_drop, drop_app_length. by rewrite drop_app_length. Qed.

Lemma parse_cut_body n id x : existsb (isc 34) (list_of (escape id)) = false ->
  parseToolGrantResourceID (of_list (take n (list_of (body id)))) = Some x -> x = escape id.
Proof.
  intros Hq. unfold parseToolGrantResourceID. rewrite list_of_of_list.
  destruct (index_of grant_marker (take n (list_of (body id)))) as [i|] eqn:Hi; [|done].
  apply index_of_take in Hi as [Hi _]. rewrite body_split in Hi at 1. rewrite index_marker in Hi. injection Hi as <-.
  rewrite skipn_firstn_comm, after_marker.
  destruct (index_of (list_of dquote) (take _ _)) as [j|] eqn:Hj; [|done].
  pose proof (index_of_take _ _ _ _ Hj) as [Hj' Hb]. rewrite index_quote in Hj' by done. injection Hj' as <-.
  destruct (length (list_of (escape id))) as [|m] eqn:Hm; [done|]. intros [= <-].
  rewrite take_take, Nat.min_l by (change (S m + 1 <= n - 235) in Hb; lia). rewrite <- Hm, take_app_length. apply of_list_of.
Qed.

Lemma parse_body id : existsb (isc 34) (list_of (escape id)) = false -> escape id <> "" ->
  parseToolGrantResourceID (body id) = Some (escape id).
Proof.
  intros Hq Hne. unfold parseToolGrantResourceID. rewrite body_split at 1. rewrite index_marker, after_marker, index_quote by done.
  destruct (length (list_of (escape id))) as [|m] eqn:Hm.
  - destruct (escape id); [done|]. by cbn in Hm.
  - rewrite <- Hm, take_app_length. by rewrite of_list_of.
Qed.

(** The library's escapes begin with a backslash: a literal without one is the text. *)
Hypothesis escape_marks : forall s, existsb (isc 92) (list_of (escape s)) = false -> escape s = s.

Lemma resource_id_plain server tool id : toolGrantResourceID escape server tool = Some id ->
  id = ToolID server tool /\ escape id = id /\ id <> "" /\ existsb (isc 34) (list_of id) = false.
Proof.
  unfold toolGrantResourceID. case_bool_decide as He; [done|]. cbn [orb].
  destruct (existsb unquotable _) eqn:Hu; [done|]. destruct (negb _); [done|]. intros [= <-].
  assert (forall n, (forall c, isc n c = true -> unquotable c = true) -> existsb (isc n) (list_of (escape (ToolID server tool))) = false) as Hno.
  { intros n Hn. apply not_true_iff_false. intros (c & Hin & Hc)%existsb_exists. apply not_true_iff_false in Hu. apply Hu, existsb_exists.
    exists c. split; [done|by apply Hn]. }
  assert (existsb (isc 92) (list_of (escape (ToolID server tool))) = false) as Hb
    by (apply Hno; intros c Hc; unfold unquotable; by rewrite Hc, orb_true_r).
  assert (existsb (isc 34) (list_of (escape (ToolID server tool))) = false) as Hq
    by (apply Hno; intros c Hc; unfold unquotable; by rewrite Hc).
  pose proof (escape_marks _ Hb) as Heq. split_and!; [done|by rewrite Heq|done|done].
Qed.

Lemma has_grant_spec dataDir dir server tool : HasToolAllowGrant escape dataDir dir server tool = true <->
  dataDir <> "" /\ exists filename, ToolAllowGrantFilename server tool = Some filename /\
    toolGrantResourceID escape server tool = Some (ToolID server tool) /\
    dir !! filename ≫= parseToolGrantResourceID = Some (ToolID server tool).
Proof.
  unfold HasToolAllowGrant. case_bool_decide as Hd; [naive_solver|].
  destruct (ToolAllowGrantFilename server tool) as [f|]; [|naive_solver].
  destruct (toolGrantResourceID escape server tool) as [id|] eqn:Hr; [|naive_solver].
  pose proof (resource_id_plain _ _ _ Hr) as (-> & _). rewrite bool_decide_eq_true. naive_solver.
Qed.

Lemma write_narrow dataDir io dir server tool server' tool' :
  HasToolAllowGrant escape dataDir (WriteToolAllowGrant escape valid_snippet dataDir io dir server tool).1 server' tool' = true ->
  HasToolAllowGrant escape dataDir dir server' tool' = true \/ ToolID server' tool' = ToolID server tool.
Proof.
  rewrite !has_grant_spec. intros (Hd & f & Hf & Hr & Hp). unfold WriteToolAllowGrant in Hp. rewrite bool_decide_false in Hp by done.  cbn zeta in Hp.
  destruct (ToolAllowGrantFilename server tool) as [f'|]; [|left; naive_solver].
  destruct (gi_Mkdir io); [left; naive_solver|].
  destruct (toolGrantResourceID escape server tool) as [id|] eqn:Hid; [|left; naive_solver].
  destruct (resource_id_plain _ _ _ Hid) as (-> & He & Hne & Hq).
  destruct (negb _); [left; naive_solver|]. destruct (decide (f' = f)) as [->|Hne'].
  - right. destruct (gi_Write io) as [[n e]|]; cbn [fst] in Hp; rewrite lookup_insert_eq in Hp; cbn in Hp.
    + apply parse_cut_body in Hp; [congruence|by rewrite He].
    + rewrite parse_body in Hp by (by rewrite He). congruence.
  - left. split; [done|]. exists f. split_and!; [done..|].
    destruct (gi_Write io) as [[n e]|]; cbn [fst] in Hp; by rewrite lookup_insert_ne in Hp by done.
Qed.

Lemma write_found dataDir io dir server tool dir' f :
  WriteToolAllowGrant escape valid_snippet dataDir io dir server tool = (dir', Ok f) ->
  HasToolAllowGrant escape dataDir dir' server tool = true.
Proof.
  rewrite has_grant_spec. unfold WriteToolAllowGrant. case_bool_decide as Hd; [done|].
  destruct (ToolAllowGrantFilename server tool) as [f'|]; [|done]. destruct (gi_Mkdir io); [done|].
  destruct (toolGrantResourceID escape server tool) as [id|] eqn:Hid; [|done].
  destruct (resource_id_plain _ _ _ Hid) as (-> & He & Hne & Hq).
  destruct (negb _); [done|]. destruct (gi_Write io) as [[n e]|]; [done|]. destruct (gi_Reload io); [done|].
  intros [= <- <-]. split; [done|]. exists f'. split_and!; [done..|]. rewrite lookup_insert_eq. cbn.
  rewrite parse_body by (by rewrite He). by rewrite He.
Qed.

#[export] Instance cedar_laws : @PersistentGrantLaws cedarToolGrantStore grant_io (cedar_store escape valid_snippet).
Proof.
  split.
  - intros io s s' server tool. cbn. destruct (WriteToolAllowGrant _ _ _ io _ server tool) as [dir [f|e]] eqn:Hw; [|done].
    intros [= <-]. cbn. by eapply write_found.
  - intros io s server tool server' tool'. cbn. pose proof (write_narrow (cs_dataDir s) io (cs_dir s) server tool server' tool') as Hn.
    by destruct (WriteToolAllowGrant _ _ _ io _ server tool) as [dir r].
Qed.

(** * Histories of the policy directory *)

Inductive grant_op :=
| GWrite (io : grant_io) (server tool : string)
| GRemove (server tool : string)
| GRevokeFile (filename : string).

Definition grant_step (dataDir : string) (dir : policy_dir) (op : grant_op) : policy_dir :=
  match op with
  | GWrite io server tool => (WriteToolAllowGrant escape valid_snippet dataDir io dir server tool).1
  | GRemove server tool => RemoveToolAllowGrant escape dataDir dir server tool
  | GRevokeFile filename => delete filename dir
  end.

Lemma delete_narrow dataDir dir f server tool : HasToolAllowGrant escape dataDir (delete f dir) server tool = true ->
  HasToolAllowGrant escape dataDir dir server tool = true.
Proof.
  rewrite !has_grant_spec. intros (Hd & f' & Hf & Hr & Hp). split; [done|]. exists f'. split_and!; [done..|].
  destruct (decide (f' = f)) as [->|Hne]; [by rewrite lookup_delete_eq in Hp|by rewrite lookup_delete_ne in Hp].
Qed.

(** Whatever was written, removed and revoked before, failed and cut-off writes
    included, a durable grant found for a tool comes from a write for that very tool id;
    a successful write is found, a removed grant is not, and the removal takes no other
    tool's grant away. *)
Theorem durable_grant_is_for_its_tool dataDir ops server tool :
  let dir := foldl (grant_step dataDir) ∅ ops in
  (HasToolAllowGrant escape dataDir dir server tool = true ->
     exists io server' tool', GWrite io server' tool' ∈ ops /\ ToolID server' tool' = ToolID server tool) /\
  (forall io dir' f, WriteToolAllowGrant escape valid_snippet dataDir io dir server tool = (dir', Ok f) ->
     HasToolAllowGrant escape dataDir dir' server tool = true) /\
  HasToolAllowGrant escape dataDir (RemoveToolAllowGrant escape dataDir dir server tool) server tool = false /\
  (forall server' tool', ToolID server' tool' <> ToolID server tool ->
     HasToolAllowGrant escape dataDir (RemoveToolAllowGrant escape dataDir dir server tool) server' tool' =
     HasToolAllowGrant escape dataDir dir server' tool').
Proof.
  cbn zeta. split_and!.
  - induction ops as [|op ops IH] using rev_ind.
    + rewrite has_grant_spec. intros (_ & f & _ & _ & Hp). cbn in Hp. by rewrite lookup_empty in Hp.
    + rewrite foldl_app. cbn [foldl]. intros H. assert (HasToolAllowGrant escape dataDir (foldl (grant_step dataDir) ∅ ops) server tool = true \/
        exists io server' tool', op = GWrite io server' tool' /\ ToolID server tool = ToolID server' tool') as [Ho|(io & s' & t' & -> & Hid)].
      { destruct op; cbn [grant_step] in H.
        - apply write_narrow in H as [?|?]; [by left|right; eauto].
        - left. unfold RemoveToolAllowGrant in H. case_bool_decide; [done|]. destruct (ToolAllowGrantFilename _ _); [|done].
          revert H. case_if; [apply delete_narrow|done].
        - left. by eapply delete_narrow. }
      * destruct (IH Ho) as (io & s' & t' & Hin & Hid). exists io, s', t'. set_solver.
      * exists io, s', t'. set_solver.
  - intros io dir' f. apply write_found.
  - generalize (foldl (grant_step dataDir) ∅ ops); intros dir. unfold RemoveToolAllowGrant.
    destruct (HasToolAllowGrant escape dataDir dir server tool) eqn:Hh.
    + pose proof Hh as (Hd & f & Hf & Hr & Hp)%has_grant_spec. case_bool_decide; [done|]. rewrite Hf.
      apply not_true_iff_false. rewrite has_grant_spec. intros (_ & f' & Hf' & _ & Hp'). rewrite Hf in Hf'. injection Hf' as <-.
      by rewrite lookup_delete_eq in Hp'.
    + case_bool_decide; [done|]. by destruct (ToolAllowGrantFilename server tool) eqn:Hf.
  - generalize (foldl (grant_step dataDir) ∅ ops); intros dir s' t' Hne. unfold RemoveToolAllowGrant. case_bool_decide as Hd; [done|]. destruct (ToolAllowGrantFilename server tool) as [f|] eqn:Hf; [|done].
    destruct (HasToolAllowGrant escape dataDir dir server tool) eqn:Hh; [|done]. pose proof Hh as (_ & f0 & Hf0 & _ & Hp)%has_grant_spec.
    rewrite Hf in Hf0. injection Hf0 as <-. apply eq_true_iff_eq. split; [apply delete_narrow|].
    rewrite !has_grant_spec. intros (_ & f' & Hf' & Hr' & Hp'). split; [done|]. exists f'. split_and!; [done..|].
    rewrite lookup_delete_ne; [done|]. intros <-. congruence.
Qed.
End Cedar.

(** Where a name holds the separator, two tools share an id: the durable grant of tool
    b__c of server a is one of tool c of server a__b too. *)
Theorem durable_grant_leaks :
  let dir := (WriteToolAllowGrant (fun s => s) (fun _ => true) "/data" smooth ∅ "a" "b__c").1 in
  HasToolAllowGrant (fun s => s) "/data" dir "a__b" "c" = true /\ sg_Has (sg_Grant (Some ∅) "s" "a" "b__c") "s" "a__b" "c" = false.
Proof. vm_compute. split; reflexivity. Qed.

(** * Session grants *)

Inductive session_op :=
| SGrant (sessionID server tool : string)
| SRevoke (sessionID : string).

Definition session_step (c : SessionGrantCache) (op : session_op) : SessionGrantCache :=
  match op with SGrant s srv t => sg_Grant c s srv t | SRevoke s => (sg_RevokeSession c s).1 end.

Definition op_nul_free (op : session_op) : Prop :=
  match op with SGrant s srv t => nul_free s /\ nul_free srv /\ nul_free t | SRevoke s => nul_free s end.

(** The reference: the tool was granted, and its session not revoked since. *)
Definition granted_step (s srv t : string) (acc : bool) (op : session_op) : bool :=
  match op with
  | SGrant s' srv' t' => acc || bool_decide ((s', srv', t') = (s, srv, t) /\ t <> "")
  | SRevoke s' => acc && negb (bool_decide (s' = s))
  end.

Definition granted (ops : list session_op) (s srv t : string) : bool := foldl (granted_step s srv t) false ops.

Lemma grantKey_inj s srv t s' srv' t' : nul_free s -> nul_free srv -> nul_free s' -> nul_free srv' ->
  grantKey s srv t = grantKey s' srv' t' -> (s, srv, t) = (s', srv', t').
Proof.
  intros Hs Hv Hs' Hv' Heq. unfold grantKey in Heq. apply nul_cut in Heq as [-> Heq]; [|done..].
  apply nul_cut in Heq as [-> ->]; done.
Qed.

Lemma grantKey_prefix s srv t s' : nul_free s -> nul_free s' ->
  HasPrefix (grantKey s srv t) (s' +:+ nul) = true <-> s' = s.
Proof.
  intros Hs Hs'. rewrite HasPrefix_spec. unfold grantKey. split.
  - intros [k Heq]. rewrite append_assoc in Heq. by apply nul_cut in Heq as [-> _].
  - intros ->. exists (srv +:+ nul +:+ t). by rewrite append_assoc.
Qed.

(** On names without NUL bytes a session grant is found exactly when it was given to
    that tool of that server in that session and the session was not revoked since. *)
Theorem session_grants_exact ops s srv t : Forall op_nul_free ops -> nul_free s -> nul_free srv -> nul_free t ->
  sg_Has (foldl session_step (Some ∅) ops) s srv t = granted ops s srv t.
Proof.
  intros Hops Hs Hv Ht. assert (exists g, foldl session_step (Some ∅) ops = Some g /\
    bool_decide (grantKey s srv t ∈ g) = granted ops s srv t) as (g & Hg & Heq); [|by rewrite Hg].
  induction ops as [|op ops IH] using rev_ind; [exists ∅; split; [done|by apply bool_decide_false; set_solver]|].
  apply Forall_app in Hops as [Hops Hop]. apply Forall_inv in Hop. destruct (IH Hops) as (g & Hg & Heq).
  unfold granted. rewrite !foldl_app, Hg. cbn [foldl]. fold (granted ops s srv t). rewrite <- Heq. clear IH Heq Hg Hops.
  destruct op as [s' srv' t'|s']; cbn [session_step sg_Grant sg_RevokeSession granted_step fst op_nul_free] in *.
  - destruct Hop as (Hs' & Hv' & Ht'). case_bool_decide as He; eexists; (split; [reflexivity|]).
    + subst t'. rewrite (bool_decide_false (_ /\ _)), orb_false_r; [done|]. intros [[= _ _ <-] Hne]. done.
    + rewrite orb_comm. apply eq_true_iff_eq. rewrite orb_true_iff, !bool_decide_eq_true.
      rewrite elem_of_union, elem_of_singleton. split; intros [H|H]; [left|by right|left|by right].
      * apply grantKey_inj in H; [|done..]. split; [done|]. congruence.
      * destruct H as [[= -> -> ->] _]. done.
  - eexists; split; [reflexivity|]. apply eq_true_iff_eq. rewrite andb_true_iff, negb_true_iff, bool_decide_eq_false, !bool_decide_eq_true.
    rewrite elem_of_difference, elem_of_filter, (grantKey_prefix s srv t s' Hs Hop). naive_solver.
Qed.

Lemma session_grants_exact_witness :
  sg_Has (foldl session_step (Some ∅) [SGrant "s1" "fs" "rm"; SGrant "s2" "fs" "rm"; SRevoke "s1"]) "s1" "fs" "rm" = false /\
  sg_Has (foldl session_step (Some ∅) [SGrant "s1" "fs" "rm"; SGrant "s2" "fs" "rm"; SRevoke "s1"]) "s2" "fs" "rm" = true.
Proof.
  split; (rewrite session_grants_exact; [reflexivity|repeat constructor; by apply (bool_decide_unpack _); vm_compute|
    by apply (bool_decide_unpack _); vm_compute..]).
Defined.

Lemma durable_grant_is_for_its_tool_witness :
  HasToolAllowGrant (fun s => s) "/data"
    (foldl (grant_step (fun s => s) (fun _ => true) "/data") ∅ [GWrite smooth "fs.v2" "write"; GWrite smooth "fs_v2" "write"]) "fs.v2" "write" = false /\
  ToolID "fs_v2" "write" = ToolID "fs_v2" "write".
Proof.
  split; [reflexivity|].
  destruct (durable_grant_is_for_its_tool (fun s => s) (fun _ => true) (fun s _ => eq_refl) "/data"
    [GWrite smooth "fs.v2" "write"; GWrite smooth "fs_v2" "write"] "fs_v2" "write") as [H _].
  destruct (H ltac:(vm_compute; reflexivity)) as (io & s' & t' & _ & Hid). reflexivity.
Defined.
