(* ===== verification/Hlc.v ===== *)
(** The hybrid logical clock of learned memory (core/memory/hlc.go): stamps as fixed-width
    text whose byte order is the order of events, the ticking and observing clock, its
    state file and its recovery.  A time is a number of milliseconds; the error of a save
    is an argument of the operation that saves. *)
From S2P Require Import Prelude GoString Json.
From Stdlib Require Import Ascii.
Local Open Scope nat_scope.

Definition HLCMaxCounter : Z := 999999.
(** Five minutes; no code of the clock reads it. *)
Definition HLCMaxSkew : Z := 300000.

(** * Stamps *)

(** [%0wd]: the sign comes first, and counts. *)
Definition pad_d (w : nat) (z : Z) : string :=
  let ds := list_of (fmt_d (Z.abs z)) in
  let sign := if (z <? 0)%Z then [chr 45] else [] in
  of_list (sign ++ repeat (chr 48) (w - (length sign + length ds)) ++ ds).

Definition FormatHLC (wallMS counter : Z) (node : string) : string :=
  pad_d 16 wallMS +:+ ":" +:+ pad_d 6 counter +:+ ":" +:+ node.

(** [A-Za-z0-9._-] *)
Definition node_char (c : ascii) : bool := is_upper c || is_lower c || is_digit c || isc 46 c || isc 95 c || isc 45 c.

(** [nodeRe]: one to sixty-four of them. *)
Definition valid_node (node : string) : bool :=
  (1 <=? String.length node) && (String.length node <=? 64) && forallb node_char (list_of node).

(** [\d{n}] and a colon: the digits' value, and what follows. *)
Definition read_field (n : nat) (l : list ascii) : option (Z * list ascii) :=
  let ds := take n l in
  if (length ds =? n) && forallb digit ds then
    match drop n l with
    | c :: rest => if isc 58 c then Some (digits_value 0 ds, rest) else None
    | [] => None
    end
  else None.

Definition ParseHLC (s : string) : option (Z * Z * string) :=
  match read_field 16 (list_of s) with
  | Some (w, l) =>
      match read_field 6 l with
      | Some (c, l) => if valid_node (of_list l) then Some (w, c, of_list l) else None
      | None => None
      end
  | None => None
  end.

Definition HLCAfter (a b : string) : bool := negb (bool_decide (String.le a b)).

(** * The clock *)

(** What the state file holds. *)
Record hlcState := { hl_WallMS : Z; hl_Counter : Z }.

Record HLC := { h_node : string; h_path : string; h_wallMS : Z; h_counter : Z; h_saveErr : option string; h_recovered : bool }.

Definition at_ (h : HLC) (wall counter : Z) : HLC :=
  {| h_node := h_node h; h_path := h_path h; h_wallMS := wall; h_counter := counter; h_saveErr := h_saveErr h; h_recovered := h_recovered h |}.

(** Reading the state file: missing, unreadable, not JSON, or decoded. *)
Inductive StateFile := FileMissing | FileUnreadable (err : string) | FileCorrupt (err : string) | FileState (st : hlcState).

Definition hlc_new (node path : string) : HLC :=
  {| h_node := node; h_path := path; h_wallMS := 0; h_counter := 0; h_saveErr := None; h_recovered := false |}.

Definition ErrInvalidHLCNode : string := "memory: hlc node id must match [A-Za-z0-9._-]{1,64}".

Definition NewHLC (node path : string) (file : StateFile) : result HLC string :=
  if negb (valid_node node) then Err ErrInvalidHLCNode
  else
    let h := hlc_new node path in
    if bool_decide (path = "") then Ok h
    else
      match file with
      | FileMissing => Ok h
      | FileUnreadable err => Err ("memory: read hlc state: " +:+ err)
      | FileCorrupt err => Err ("memory: decode hlc state " +:+ path +:+ ": " +:+ err)
      | FileState st =>
          if ((hl_WallMS st <? 0) || (hl_Counter st <? 0) || (HLCMaxCounter <? hl_Counter st))%Z
          then Err ("memory: hlc state " +:+ path +:+ " out of range")
          else Ok (at_ h (hl_WallMS st) (hl_Counter st))
      end.

Definition bumpLocked (h : HLC) : HLC :=
  let counter := int64 (h_counter h + 1) in
  if (HLCMaxCounter <? counter)%Z then at_ h (int64 (h_wallMS h + 1)) 0 else at_ h (h_wallMS h) counter.

(** [err] is what writing the file answers; the state file becomes [snd] of the result when
    it is written. *)
Definition saveLocked (h : HLC) (err : option string) : HLC * option hlcState :=
  if bool_decide (h_path h = "") then (h, None)
  else
    ({| h_node := h_node h; h_path := h_path h; h_wallMS := h_wallMS h; h_counter := h_counter h; h_saveErr := err;
        h_recovered := if err then h_recovered h else false |},
     if err then None else Some {| hl_WallMS := h_wallMS h; hl_Counter := h_counter h |}).

(** [Tick]: the stamp, the clock and the file written. *)
Definition advance (h : HLC) (now : Z) : HLC := if (h_wallMS h <? now)%Z then at_ h now 0 else bumpLocked h.

Definition stamp_of (h : HLC) : string := FormatHLC (h_wallMS h) (h_counter h) (h_node h).

Definition Tick (h : HLC) (now : Z) (err : option string) : string * (HLC * option hlcState) :=
  let h := advance h now in (stamp_of h, saveLocked h err).

(** [Observe]: the receive rule. *)
Definition receive (h : HLC) (now rw rc : Z) : HLC :=
  let last := h_wallMS h in
  let lc := h_counter h in
  let wall := Z.max (Z.max last rw) now in
  if ((wall =? last) && (wall =? rw))%Z then bumpLocked (at_ h wall (Z.max lc rc))
  else if (wall =? last)%Z then bumpLocked h
  else if (wall =? rw)%Z then bumpLocked (at_ h wall rc)
  else at_ h wall 0.

Definition Observe (h : HLC) (remote : string) (now : Z) (err : option string) : HLC * option hlcState :=
  match ParseHLC remote with
  | None => (h, None)
  | Some (rw, rc, _) => saveLocked (receive h now rw rc) err
  end.

(** How far ahead of a reference time, in nanoseconds of 64 bits. *)
Definition AheadOf (h : HLC) (ref : Z) : Z :=
  let d := int64 (int64 (h_wallMS h - ref) * 1000000) in if (d <? 0)%Z then 0 else d.

Definition HealthErr (h : HLC) : option string :=
  match h_saveErr h with
  | Some err => Some ("memory clock state not saved: " +:+ err)
  | None => if h_recovered h
            then Some "memory clock state was unreadable and was rebuilt from stamped memory; waiting for a clean save"
            else None
  end.

(** One stamp of [RecoverHLC]'s loop. *)
Definition raise_to (h : HLC) (st : string) : HLC :=
  match ParseHLC st with
  | Some (w, c, _) => if ((h_wallMS h <? w) || ((w =? h_wallMS h) && (h_counter h <? c)))%Z then at_ h w c else h
  | None => h
  end.

Definition RecoverHLC (node path : string) (stamps : list string) : result HLC string :=
  match NewHLC node "" FileMissing with
  | Err e => Err e
  | Ok h =>
      let h := foldl raise_to {| h_node := h_node h; h_path := path; h_wallMS := h_wallMS h; h_counter := h_counter h;
                                 h_saveErr := None; h_recovered := false |} stamps in
      Ok {| h_node := h_node h; h_path := path; h_wallMS := h_wallMS h; h_counter := h_counter h; h_saveErr := h_saveErr h; h_recovered := true |}
  end.
