(* ===== verification/HlcProps.v ===== *)
(** The byte order of stamps is the order of wall, counter and node; parsing inverts
    formatting; a tick comes after everything the clock ticked or observed before, through
    restarts and clocks that step back; a stamp at the end of the format breaks both. *)
From S2P Require Import Prelude GoString Utf8 Json Decimal Hlc.
From Stdlib Require Import Ascii.
Local Open Scope nat_scope.

(** * Digits of a fixed width *)

Notation all_digits l := (Forall (fun c => digit c = true) l).

Lemma digit_range c : digit c = true -> (0 <= Z.of_N (N_of_ascii c) - 48 <= 9)%Z.
Proof. unfold digit, in_range. intros [H1%N.leb_le H2%N.leb_le]%andb_true_iff. lia. Qed.

Lemma pow10_S n : (10 ^ Z.of_nat (S n) = 10 * 10 ^ Z.of_nat n)%Z.
Proof. rewrite Nat2Z.inj_succ, Z.pow_succ_r; lia. Qed.

Lemma pow10_pos n : (0 < 10 ^ Z.of_nat n)%Z.
Proof. apply Z.pow_pos_nonneg; lia. Qed.

Lemma digits_value_bounds l acc : all_digits l ->
  (acc * 10 ^ Z.of_nat (length l) <= digits_value acc l < (acc + 1) * 10 ^ Z.of_nat (length l))%Z.
Proof.
  intros Hl. revert acc. induction Hl as [|c l Hc Hl IH]; intros acc; [cbn; lia|].
  cbn [digits_value length]. rewrite pow10_S. specialize (IH (acc * 10 + (Z.of_N (N_of_ascii c) - 48))%Z).
  apply digit_range in Hc. pose proof (pow10_pos (length l)). nia.
Qed.

(** Equal numbers of digits compare as their values. *)
Lemma compare_digits a b x y acc : all_digits a -> all_digits b -> length a = length b ->
  String.compare (of_list (a ++ x)) (of_list (b ++ y)) =
    match Z.compare (digits_value acc a) (digits_value acc b) with Eq => String.compare (of_list x) (of_list y) | c => c end.
Proof.
  intros Ha. revert b acc. induction Ha as [|c a Hc Ha IH]; intros [|c' b] acc Hb Hl; try done; [by rewrite Z.compare_refl|].
  apply Forall_cons in Hb as [Hc' Hb]. injection Hl as Hl. cbn. unfold Ascii.compare.
  pose proof (digit_range c Hc). pose proof (digit_range c' Hc').
  pose proof (digits_value_bounds a (acc * 10 + (Z.of_N (N_of_ascii c) - 48)) Ha) as B1.
  pose proof (digits_value_bounds b (acc * 10 + (Z.of_N (N_of_ascii c') - 48)) Hb) as B2. rewrite <- Hl in B2.
  pose proof (pow10_pos (length a)). destruct (N.compare_spec (N_of_ascii c) (N_of_ascii c')) as [He|Hlt|Hgt].
  - rewrite He. by apply IH.
  - replace (Z.compare _ _) with Lt; [done|]. symmetry. apply Z.compare_lt_iff. nia.
  - replace (Z.compare _ _) with Gt; [done|]. symmetry. apply Z.compare_gt_iff. nia.
Qed.

Lemma digits_value_inj a b : all_digits a -> all_digits b -> length a = length b -> digits_value 0 a = digits_value 0 b -> a = b.
Proof.
  intros Ha Hb Hl Hv. pose proof (compare_digits a b [] [] 0 Ha Hb Hl) as H. rewrite Hv, Z.compare_refl, !app_nil_r in H.
  apply String.compare_eq_iff in H. apply (f_equal list_of) in H. by rewrite !list_of_of_list in H.
Qed.

Lemma digits_value_zeros n l : digits_value 0 (repeat (chr 48) n ++ l) = digits_value 0 l.
Proof. induction n as [|n IH]; [done|]. exact IH. Qed.

Lemma zeros_digits n : all_digits (repeat (chr 48) n).
Proof. induction n; constructor; done. Qed.

(** The literal of a number below [10 ^ w] has at most [w] digits. *)
Lemma fmt_d_digits w z : 1 <= w -> (0 <= z < 10 ^ Z.of_nat w)%Z ->
  all_digits (list_of (fmt_d z)) /\ digits_value 0 (list_of (fmt_d z)) = z /\ length (list_of (fmt_d z)) <= w.
Proof.
  intros Hw [Hz Hlt]. destruct z as [|p|p]; [split_and!; [by repeat constructor|done|done]| |lia].
  destruct (pretty_go_digits (N.pos p) "" ltac:(lia)) as (c & ds & Heq & Hc & Hf & Hv).
  change (list_of (fmt_d (Z.pos p))) with (list_of (pretty_N_go (N.pos p) "")). rewrite Heq. change (list_of "") with (@nil ascii). rewrite app_nil_r.
  split_and!; [done|done|]. cbn [digits_value] in Hv. apply Forall_cons in Hf as [Hd Hds].
  pose proof (digits_value_bounds ds (0 * 10 + (Z.of_N (N_of_ascii c) - 48)) Hds) as [Hb _]. rewrite Hv in Hb.
  apply digit_range in Hd. unfold isc in Hc. apply N.eqb_neq in Hc. pose proof (pow10_pos (length ds)).
  cbn [length]. assert (10 ^ Z.of_nat (length ds) < 10 ^ Z.of_nat w)%Z as Hpow by nia. apply Z.pow_lt_mono_r_iff in Hpow; lia.
Qed.

Lemma pad_digits w z : 1 <= w -> (0 <= z < 10 ^ Z.of_nat w)%Z ->
  exists ds, pad_d w z = of_list ds /\ all_digits ds /\ length ds = w /\ digits_value 0 ds = z.
Proof.
  intros Hw Hz. destruct (fmt_d_digits w z Hw Hz) as (Hd & Hv & Hl). unfold pad_d. destruct (Z.ltb_spec z 0); [lia|].
  rewrite Z.abs_eq by lia. eexists. split; [done|]. cbn [app length]. split_and!.
  - apply Forall_app. split; [apply zeros_digits|done].
  - rewrite length_app, repeat_length. lia.
  - by rewrite digits_value_zeros.
Qed.

Lemma pad_of_digits ds : 1 <= length ds -> all_digits ds -> pad_d (length ds) (digits_value 0 ds) = of_list ds.
Proof.
  intros Hl Hd. pose proof (digits_value_bounds ds 0 Hd) as Hb.
  destruct (pad_digits (length ds) (digits_value 0 ds) Hl ltac:(lia)) as (ds' & -> & Hd' & Hl' & Hv). f_equal. by apply digits_value_inj.
Qed.

(** * Stamps *)

(** What the sixteen and six digits can carry. *)
Definition in_fields (w c : Z) : Prop := (0 <= w < 10 ^ 16)%Z /\ (0 <= c < 10 ^ 6)%Z.

Definition string_lt (a b : string) : Prop := String.compare a b = Lt.

(** Wall, then counter, then node. *)
Definition stamp_lt (s s' : Z * Z * string) : Prop :=
  let '(w, c, n) := s in let '(w', c', n') := s' in
  (w < w')%Z \/ (w = w' /\ ((c < c')%Z \/ (c = c' /\ string_lt n n'))).

Lemma HLCAfter_compare a b : HLCAfter a b = true <-> String.compare a b = Gt.
Proof.
  unfold HLCAfter. rewrite negb_true_iff, bool_decide_eq_false. unfold String.le, String.leb. destruct (String.compare a b); naive_solver.
Qed.

Lemma string_compare_gt a b : String.compare a b = Gt <-> string_lt b a.
Proof. unfold string_lt. rewrite String.compare_antisym. by destruct (String.compare b a). Qed.

Lemma format_fields w c n : in_fields w c ->
  exists dw dc, FormatHLC w c n = of_list (dw ++ chr 58 :: dc ++ chr 58 :: list_of n) /\
    all_digits dw /\ length dw = 16 /\ digits_value 0 dw = w /\ all_digits dc /\ length dc = 6 /\ digits_value 0 dc = c.
Proof.
  intros [Hw Hc]. destruct (pad_digits 16 w ltac:(lia) Hw) as (dw & Ew & ?). destruct (pad_digits 6 c ltac:(lia) Hc) as (dc & Ec & ?).
  exists dw, dc. unfold FormatHLC. rewrite Ew, Ec. split; [|tauto]. apply list_of_inj. by rewrite !list_of_app, !list_of_of_list.
Qed.

Lemma compare_colon x y : String.compare (of_list (chr 58 :: x)) (of_list (chr 58 :: y)) = String.compare (of_list x) (of_list y).
Proof. done. Qed.

(** Plain string comparison is the total order.  Two stamps whose parts fit their fields
    compare, as strings, by wall, then by counter, then by node. *)
Theorem stamps_order w c n w' c' n' : in_fields w c -> in_fields w' c' ->
  HLCAfter (FormatHLC w c n) (FormatHLC w' c' n') = true <-> stamp_lt (w', c', n') (w, c, n).
Proof.
  intros H H'. destruct (format_fields w c n H) as (a & b & -> & Ha & La & Va & Hb & Lb & Vb).
  destruct (format_fields w' c' n' H') as (a' & b' & -> & Ha' & La' & Va' & Hb' & Lb' & Vb').
  rewrite HLCAfter_compare, (compare_digits a a' _ _ 0), compare_colon, (compare_digits b b' _ _ 0), compare_colon by congruence.
  rewrite Va, Va', Vb, Vb', !of_list_of. unfold stamp_lt. rewrite <- string_compare_gt.
  destruct (Z.compare_spec w w'), (Z.compare_spec c c'); intuition (try lia; try done).
Qed.

Lemma valid_node_chars n : valid_node n = true -> n <> "".
Proof. by intros H ->. Qed.

Lemma read_field_some n l v rest : read_field n l = Some (v, rest) ->
  exists ds, l = ds ++ chr 58 :: rest /\ length ds = n /\ all_digits ds /\ digits_value 0 ds = v.
Proof.
  unfold read_field. destruct ((_ =? _) && _) eqn:E; [|done]. apply andb_true_iff in E as [E1%Nat.eqb_eq E2].
  destruct (drop n l) as [|c r] eqn:Ed; [done|]. destruct (isc 58 c) eqn:Ec; [|done]. intros [= <- <-].
  exists (take n l). split_and!; [|done| |done].
  - rewrite <- (take_drop n l) at 1. rewrite Ed. f_equal. f_equal. apply N.eqb_eq in Ec. rewrite <- (ascii_N_embedding c), Ec. done.
  - apply Forall_forall. rewrite forallb_forall in E2. intros x Hx. apply E2. by apply list_elem_of_In.
Qed.

Lemma read_field_digits n ds rest : length ds = n -> all_digits ds ->
  read_field n (ds ++ chr 58 :: rest) = Some (digits_value 0 ds, rest).
Proof.
  intros <- Hd. unfold read_field. rewrite take_app_length, drop_app_length, Nat.eqb_refl. cbn [andb].
  replace (forallb digit ds) with true; [done|]. symmetry. apply forallb_forall. rewrite Forall_forall in Hd.
  intros x Hx. apply Hd. by apply list_elem_of_In.
Qed.

(** Parsing accepts exactly what formatting prints of parts that fit and a node of the
    grammar, and gives the parts back. *)
Theorem parse_iff_format s w c n :
  ParseHLC s = Some (w, c, n) <-> s = FormatHLC w c n /\ in_fields w c /\ valid_node n = true.
Proof.
  split.
  - unfold ParseHLC. destruct (read_field 16 _) as [[w0 l]|] eqn:E1; [|done]. destruct (read_field 6 l) as [[c0 l']|] eqn:E2; [|done].
    destruct (valid_node (of_list l')) eqn:Hn; [|done]. intros [= <- <- <-].
    apply read_field_some in E1 as (dw & Hl & Lw & Hdw & Vw). apply read_field_some in E2 as (dc & -> & Lc & Hdc & Vc).
    pose proof (digits_value_bounds dw 0 Hdw) as Bw. pose proof (digits_value_bounds dc 0 Hdc) as Bc. rewrite Lw in Bw. rewrite Lc in Bc.
    split_and!; [|split; lia|done]. unfold FormatHLC. rewrite <- Vw, <- Vc, <- Lw, <- Lc.
    rewrite !pad_of_digits by (done || lia). apply list_of_inj. rewrite Hl. by rewrite !list_of_app, !list_of_of_list.
  - intros (-> & Hf & Hn). destruct (format_fields w c n Hf) as (dw & dc & -> & Hdw & Lw & Vw & Hdc & Lc & Vc).
    unfold ParseHLC. rewrite list_of_of_list, (read_field_digits 16), (read_field_digits 6) by done. by rewrite of_list_of, Hn, Vw, Vc.
Qed.

(** * The clock *)

(** The clock's position, and the order of positions. *)
Definition pos (h : HLC) : Z * Z := (h_wallMS h, h_counter h).
Definition pos_lt (p q : Z * Z) : Prop := (p.1 < q.1)%Z \/ (p.1 = q.1 /\ (p.2 < q.2)%Z).
Definition pos_le (p q : Z * Z) : Prop := p = q \/ pos_lt p q.

(** The counter fits its field, the wall is far below 64 bits. *)
Definition hlc_ok (h : HLC) : Prop := (0 <= h_counter h <= HLCMaxCounter)%Z /\ (0 <= h_wallMS h < 2 ^ 62)%Z.

Ltac hlc_arith :=
  unfold hlc_ok, pos_le, pos_lt, pos, at_, HLCMaxCounter in *; cbn [fst snd h_wallMS h_counter h_node h_path] in *.

Lemma bump_spec h : hlc_ok h ->
  h_node (bumpLocked h) = h_node h /\ h_path (bumpLocked h) = h_path h /\ pos_lt (pos h) (pos (bumpLocked h)) /\
  (0 <= h_counter (bumpLocked h) <= HLCMaxCounter)%Z /\ (h_wallMS h <= h_wallMS (bumpLocked h) <= h_wallMS h + 1)%Z.
Proof.
  intros Hok. unfold bumpLocked. rewrite int64_small by (hlc_arith; lia). destruct (Z.ltb_spec HLCMaxCounter (h_counter h + 1)).
  - rewrite int64_small by (hlc_arith; lia). hlc_arith. split_and!; try done; lia.
  - hlc_arith. split_and!; try done; lia.
Qed.

Lemma advance_spec h now : hlc_ok h -> (now < 2 ^ 62)%Z ->
  h_node (advance h now) = h_node h /\ h_path (advance h now) = h_path h /\ pos_lt (pos h) (pos (advance h now)) /\
  (0 <= h_counter (advance h now) <= HLCMaxCounter)%Z /\ (h_wallMS h <= h_wallMS (advance h now) <= Z.max (h_wallMS h) now + 1)%Z.
Proof.
  intros Hok Hnow. unfold advance. destruct (Z.ltb_spec (h_wallMS h) now); [hlc_arith; split_and!; try done; lia|].
  destruct (bump_spec h Hok) as (-> & -> & H1 & H2 & H3). split_and!; try done; lia.
Qed.

Lemma receive_spec h now rw rc : hlc_ok h -> (now < 2 ^ 62)%Z -> (0 <= rw < 2 ^ 62)%Z -> (0 <= rc <= HLCMaxCounter)%Z ->
  h_node (receive h now rw rc) = h_node h /\ h_path (receive h now rw rc) = h_path h /\
  pos_lt (pos h) (pos (receive h now rw rc)) /\ pos_lt (rw, rc) (pos (receive h now rw rc)) /\
  (0 <= h_counter (receive h now rw rc) <= HLCMaxCounter)%Z /\
  (h_wallMS h <= h_wallMS (receive h now rw rc) <= Z.max (Z.max (h_wallMS h) rw) now + 1)%Z.
Proof.
  intros Hok Hnow Hrw Hrc. unfold receive. set (wall := Z.max (Z.max (h_wallMS h) rw) now).
  destruct (Z.eqb_spec wall (h_wallMS h)) as [E1|E1], (Z.eqb_spec wall rw) as [E2|E2]; cbn [andb].
  - destruct (bump_spec (at_ h wall (Z.max (h_counter h) rc))) as (-> & -> & H1 & H2 & H3); [hlc_arith; lia|].
    hlc_arith. split_and!; try done; lia.
  - destruct (bump_spec h Hok) as (-> & -> & H1 & H2 & H3). hlc_arith. split_and!; try done; lia.
  - destruct (bump_spec (at_ h wall rc)) as (-> & -> & H1 & H2 & H3); [hlc_arith; lia|]. hlc_arith. split_and!; try done; lia.
  - hlc_arith. split_and!; try done; lia.
Qed.

(** * What a device does with its clock *)

Inductive clock_event := Ticked (now : Z) (err : option string) | Observed (remote : string) (now : Z) (err : option string) | Restarted.

Definition written (f : StateFile) (w : option hlcState) : StateFile := from_option FileState f w.

(** The clock, its file and the stamps seen: those handed out and those observed. *)
Definition clock_step (s : HLC * StateFile * list string) (e : clock_event) : HLC * StateFile * list string :=
  let '(h, f, seen) := s in
  match e with
  | Ticked now err => let '(t, (h, w)) := Tick h now err in (h, written f w, t :: seen)
  | Observed remote now err => let '(h, w) := Observe h remote now err in (h, written f w, if ParseHLC remote then remote :: seen else seen)
  | Restarted => match NewHLC (h_node h) (h_path h) f with Ok h => (h, f, seen) | Err _ => s end
  end.

(** Clock readings and remote walls at most [B], every save written. *)
Definition event_within (B : Z) (e : clock_event) : Prop :=
  match e with
  | Ticked now err => (now <= B)%Z /\ err = None
  | Observed remote now err => (now <= B)%Z /\ err = None /\ forall w c n, ParseHLC remote = Some (w, c, n) -> (w <= B)%Z
  | Restarted => True
  end.

Definition before_clock (h : HLC) (s : string) : Prop := exists w c n, s = FormatHLC w c n /\ in_fields w c /\ pos_le (w, c) (pos h).

Definition file_matches (h : HLC) (f : StateFile) : Prop :=
  f = FileState {| hl_WallMS := h_wallMS h; hl_Counter := h_counter h |} \/ (f = FileMissing /\ pos h = (0, 0)%Z).

Record clock_inv (node path : string) (top : Z) (s : HLC * StateFile * list string) : Prop := {
  ci_ok : hlc_ok s.1.1;
  ci_node : h_node s.1.1 = node;
  ci_path : h_path s.1.1 = path;
  ci_top : (h_wallMS s.1.1 <= top)%Z;
  ci_file : file_matches s.1.1 s.1.2;
  ci_seen : Forall (before_clock s.1.1) s.2
}.

Lemma before_mono h h' s : pos_le (pos h) (pos h') -> before_clock h s -> before_clock h' s.
Proof.
  intros Hle (w & c & n & -> & Hf & Hp). exists w, c, n. split_and!; [done|done|].
  destruct h, h'. hlc_arith. destruct Hle as [[= <- <-]|Hle], Hp as [[= <- <-]|Hp]; [by left|right..]; try done; lia.
Qed.

(** The next tick comes after the position. *)
Lemma tick_after h now err s : hlc_ok h -> (Z.max (h_wallMS h) now + 1 < 10 ^ 16)%Z -> before_clock h s ->
  HLCAfter (fst (Tick h now err)) s = true.
Proof.
  intros Hok Hnow (w & c & n & -> & Hf & Hp). unfold Tick, stamp_of. cbn [fst].
  destruct (advance_spec h now Hok ltac:(lia)) as (-> & _ & Hlt & Hc & Hw).
  apply stamps_order; [split; [|unfold HLCMaxCounter in Hc; lia]|done|].
  - hlc_arith. lia.
  - unfold stamp_lt. hlc_arith. destruct Hp as [[= -> ->]|Hp]; lia.
Qed.

Lemma saved_fields h err :
  h_wallMS (fst (saveLocked h err)) = h_wallMS h /\ h_counter (fst (saveLocked h err)) = h_counter h /\
  h_node (fst (saveLocked h err)) = h_node h /\ h_path (fst (saveLocked h err)) = h_path h.
Proof. unfold saveLocked. by case_bool_decide. Qed.

Lemma saved_inv node path top h f seen : path <> "" -> hlc_ok h -> h_node h = node -> h_path h = path -> (h_wallMS h <= top)%Z ->
  Forall (before_clock h) seen -> clock_inv node path top (fst (saveLocked h None), written f (snd (saveLocked h None)), seen).
Proof.
  intros Hpath Hok Hn Hp Ht Hs. destruct (saved_fields h None) as (E1 & E2 & E3 & E4).
  constructor; cbn [fst snd]; rewrite ?E1, ?E3, ?E4; try done.
  - destruct h. hlc_arith. by rewrite E1, E2.
  - left. unfold saveLocked. rewrite bool_decide_eq_false_2 by congruence. done.
  - eapply Forall_impl; [done|]. intros s. apply before_mono. left. unfold pos. by rewrite E1, E2.
Qed.

Lemma clock_step_inv node path B top s e : path <> "" -> (B <= top)%Z -> (top + 1 < 2 ^ 62)%Z -> (top + 1 < 10 ^ 16)%Z -> event_within B e ->
  clock_inv node path top s -> clock_inv node path (top + 1) (clock_step s e).
Proof.
  intros Hpath HB Htop Hwide He Hinv. destruct s as [[h f] seen]. destruct Hinv as [Hok Hnode Hp Ht Hfile Hseen]. cbn [fst snd] in *.
  destruct e as [now err|remote now err|]; cbn [event_within clock_step] in *.
  - destruct He as [Hnow ->]. destruct (advance_spec h now Hok ltac:(lia)) as (En & Ep & Hlt & Hc & Hw).
    unfold Tick. pose proof (saved_inv node path (top + 1) (advance h now) f (stamp_of (advance h now) :: seen) Hpath) as Hs.
    destruct (saveLocked (advance h now) None) as [h' w] eqn:E. apply Hs; try congruence; [hlc_arith; lia|lia|]. constructor.
    + exists (h_wallMS (advance h now)), (h_counter (advance h now)), (h_node (advance h now)). split_and!; [done| |by left].
      split; hlc_arith; lia.
    + eapply Forall_impl; [done|]. intros s. apply before_mono. by right.
  - destruct He as (Hnow & -> & Hremote). unfold Observe. destruct (ParseHLC remote) as [[[rw rc] rn]|] eqn:Hparse.
    2: { constructor; cbn [fst snd]; try done; lia. }
    specialize (Hremote _ _ _ eq_refl). apply parse_iff_format in Hparse as (Hr & [Hrw Hrc] & _).
    destruct (receive_spec h now rw rc Hok ltac:(lia) ltac:(lia) ltac:(unfold HLCMaxCounter; lia)) as (En & Ep & Hlt & Hlt' & Hc & Hw).
    pose proof (saved_inv node path (top + 1) (receive h now rw rc) f (remote :: seen) Hpath) as Hs.
    destruct (saveLocked (receive h now rw rc) None) as [h' w] eqn:E. apply Hs; try congruence; [hlc_arith; lia|lia|]. constructor.
    + exists rw, rc, rn. split_and!; [done|done|by right].
    + eapply Forall_impl; [done|]. intros s. apply before_mono. by right.
  - assert (Hnew : exists h', NewHLC (h_node h) (h_path h) f = Ok h' /\ pos h' = pos h /\ h_node h' = h_node h /\ h_path h' = h_path h \/
              clock_step (h, f, seen) Restarted = (h, f, seen)).
    { cbn [clock_step]. unfold NewHLC. destruct (negb (valid_node (h_node h))); [by exists h; right|]. rewrite bool_decide_eq_false_2 by congruence.
      destruct Hfile as [->|[-> Hz]]; [|eexists; left; done]. cbn [hl_WallMS hl_Counter].
      replace (_ || _) with false by (symmetry; rewrite !orb_false_iff, !Z.ltb_ge; hlc_arith; lia). eexists. left. done. }
    destruct Hnew as (h' & [(Hh & Hpos & Hn' & Hp')|Hsame]).
    + rewrite Hh. unfold pos in Hpos. injection Hpos as Hw' Hc'. constructor; cbn [fst snd]; try congruence.
      * hlc_arith. by rewrite Hw', Hc'.
      * lia.
      * unfold file_matches, pos. by rewrite Hw', Hc'.
      * eapply Forall_impl; [done|]. intros s. apply before_mono. left. unfold pos. by rewrite Hw', Hc'.
    + cbn [clock_step] in Hsame. rewrite Hsame. constructor; cbn [fst snd]; try done; lia.
Qed.

Lemma clock_run_inv node path B top es s : path <> "" -> (B <= top)%Z -> (top + Z.of_nat (length es) + 1 < 10 ^ 16)%Z -> Forall (event_within B) es ->
  clock_inv node path top s -> clock_inv node path (top + Z.of_nat (length es)) (foldl clock_step s es).
Proof.
  intros Hpath HB Hwide Hes. revert s top HB Hwide. induction Hes as [|e es He Hes IH]; intros s top HB Hwide Hinv.
  - cbn. by rewrite Z.add_0_r.
  - cbn [foldl length] in *. replace (top + Z.of_nat (S (length es)))%Z with ((top + 1) + Z.of_nat (length es))%Z by lia.
    apply IH; [lia|lia|]. eapply clock_step_inv; try done; lia.
Qed.

(** C35: While its saves succeed, a tick comes after everything.  Take a clock opened on its
    state file and any ticks, observations and restarts since, in which (1) every save of
    the state file succeeded, and (2) the clock readings and the walls of the observed
    stamps leave the sixteen digits room for one millisecond a step.  Then a tick, its own
    save written or not, sorts strictly after every stamp handed out or observed before,
    even when the system clock steps back.  Without (1) a restart loses what was not
    saved ([unsaved_tick_is_reissued]), without (2) the order ends
    ([last_stamp_ends_order]). *)
Theorem tick_comes_after node path f h B es now err s :
  path <> "" -> NewHLC node path f = Ok h -> (h_wallMS h <= B)%Z -> (B + Z.of_nat (length es) + 1 < 10 ^ 16)%Z ->
  Forall (event_within B) es -> (now <= B)%Z ->
  let '(h', _, seen) := foldl clock_step (h, f, []) es in
  s ∈ seen -> HLCAfter (fst (Tick h' now err)) s = true.
Proof.
  intros Hpath Hnew HB Hwide Hes Hnow.
  assert (Hinv : clock_inv node path B (h, f, [])).
  { unfold NewHLC in Hnew. destruct (negb (valid_node node)); [done|]. rewrite bool_decide_eq_false_2 in Hnew by done.
    destruct f as [| | |st]; try done.
    - injection Hnew as <-. constructor; try done. by right.
    - destruct (_ || _) eqn:E; [done|]. injection Hnew as <-. rewrite !orb_false_iff, !Z.ltb_ge in E. cbn [at_ h_wallMS] in HB.
      constructor; try done; [hlc_arith; cbn; lia|]. left. by destruct st. }
  apply (clock_run_inv node path B B es) in Hinv; [|done|lia|lia|done].
  destruct (foldl clock_step (h, f, []) es) as [[h' f'] seen]. destruct Hinv as [Hok _ _ Ht _ Hseen]. cbn [fst snd] in *.
  intros Hs. rewrite Forall_forall in Hseen. apply tick_after; [done|lia|by apply Hseen].
Qed.

Definition demo_events : list clock_event :=
  [Ticked 1700000000000 None; Observed "0001700000000500:000007:laptop" 1700000000001 None; Restarted; Ticked 1600000000000 None].
Definition demo_clock : HLC * StateFile * list string := foldl clock_step (hlc_new "desk" "hlc.json", FileMissing, []) demo_events.

Example demo_stamps :
  demo_clock.2 = ["0001700000000500:000009:desk"; "0001700000000500:000007:laptop"; "0001700000000000:000000:desk"].
Proof. by vm_compute. Qed.

(** A stamp whose save failed is handed out once more after a restart within the same
    millisecond. *)
Example unsaved_tick_is_reissued :
  let '(h, _, seen) := foldl clock_step (hlc_new "desk" "hlc.json", FileMissing, []) [Ticked 1700000000000 (Some "disk full"); Restarted] in
  seen = ["0001700000000000:000000:desk"] /\ fst (Tick h 1700000000000 None) = "0001700000000000:000000:desk".
Proof. split; by vm_compute. Qed.

Lemma tick_comes_after_witness :
  HLCAfter (fst (Tick demo_clock.1.1 0 (Some "disk full"))) "0001700000000500:000007:laptop" = true.
Proof.
  assert (Hes : Forall (event_within 1700000000500) demo_events).
  { repeat constructor; try lia. intros w c n H. vm_compute in H. by injection H as <- _ _. }
  pose proof (tick_comes_after "desk" "hlc.json" FileMissing (hlc_new "desk" "hlc.json") 1700000000500 demo_events 0 (Some "disk full")
    "0001700000000500:000007:laptop" ltac:(done) eq_refl ltac:(cbn; lia) ltac:(cbn; lia) Hes ltac:(lia)) as H.
  pose proof demo_stamps as Hs. unfold demo_clock in *. destruct (foldl clock_step _ demo_events) as [[h' f'] seen]. cbn [fst snd] in *.
  apply H. rewrite Hs. by right; left.
Defined.

Lemma stamps_order_witness :
  in_fields 1700000000000 999999 /\ in_fields 1700000000001 0 /\
  (HLCAfter (FormatHLC 1700000000001 0 "a") (FormatHLC 1700000000000 999999 "b") = true <->
   stamp_lt (1700000000000, 999999, "b")%Z (1700000000001, 0, "a")%Z).
Proof. split; [split; lia|]. split; [split; lia|]. apply stamps_order; split; lia. Defined.

(** ** Recovery *)

Lemma raise_to_spec h s : hlc_ok h -> let h' := raise_to h s in
  hlc_ok h' /\ h_node h' = h_node h /\ pos_le (pos h) (pos h') /\ (h_wallMS h < 10 ^ 16 -> h_wallMS h' < 10 ^ 16)%Z /\
  (ParseHLC s <> None -> before_clock h' s).
Proof.
  intros Hok. cbn. unfold raise_to. destruct (ParseHLC s) as [[[w c] n]|] eqn:Hp; [|split_and!; try done; by left].
  apply parse_iff_format in Hp as (-> & [Hw Hc] & _). destruct (_ || _) eqn:E.
  - rewrite orb_true_iff, andb_true_iff, !Z.ltb_lt, Z.eqb_eq in E. split_and!; [hlc_arith; lia|done|right; hlc_arith; lia|hlc_arith; lia|].
    intros _. exists w, c, n. split_and!; [done|done|by left].
  - rewrite orb_false_iff, andb_false_iff, !Z.ltb_ge, Z.eqb_neq in E. split_and!; try done; [by left|]. intros _. exists w, c, n.
    split_and!; [done|done|]. hlc_arith.
    destruct (decide (w = h_wallMS h /\ c = h_counter h)) as [[-> ->]|Hne]; [by left|right; cbn; lia].
Qed.

Lemma raise_all stamps h : hlc_ok h -> let h' := foldl raise_to h stamps in
  hlc_ok h' /\ h_node h' = h_node h /\ pos_le (pos h) (pos h') /\ (h_wallMS h < 10 ^ 16 -> h_wallMS h' < 10 ^ 16)%Z /\
  forall s, s ∈ stamps -> ParseHLC s <> None -> before_clock h' s.
Proof.
  revert h. induction stamps as [|s stamps IH]; intros h Hok; [split_and!; try done; [by left|]; intros s Hs; by apply elem_of_nil in Hs|].
  destruct (raise_to_spec h s Hok) as (H1 & H2 & H3 & H4 & H5). destruct (IH _ H1) as (K1 & K2 & K3 & K4 & K5). cbn in *.
  split_and!; [done|congruence| |tauto|].
  - destruct H3 as [->|H3]; [done|]. destruct K3 as [<-|K3]; [by right|right]. unfold pos_lt in *. lia.
  - intros t [->|Ht]%elem_of_cons Hp; [|by apply K5]. eapply before_mono; [exact K3|by apply H5].
Qed.

(** A clock rebuilt from stamped memory comes after all of it: the next tick sorts strictly
    after every well-formed stamp it was rebuilt from, and the clock reports itself
    unhealthy until its first clean save. *)
Theorem recovery_comes_after node path stamps h now err s :
  RecoverHLC node path stamps = Ok h -> s ∈ stamps -> ParseHLC s <> None -> (Z.max (h_wallMS h) now + 1 < 10 ^ 16)%Z ->
  HLCAfter (fst (Tick h now err)) s = true /\ HealthErr h <> None /\
  (path <> "" -> HealthErr (fst (snd (Tick h now None))) = None).
Proof.
  unfold RecoverHLC, NewHLC. destruct (negb (valid_node node)); [done|]. rewrite bool_decide_eq_true_2 by done. intros [= <-] Hs Hp Hw.
  set (h0 := foldl raise_to _ stamps) in *. destruct (raise_all stamps (hlc_new node path)) as (Hok & _ & _ & _ & Hall); [by hlc_arith; cbn|].
  assert (Hh0 : h0 = foldl raise_to (hlc_new node path) stamps) by done. rewrite <- Hh0 in *.
  split_and!.
  - apply tick_after; [done|done|]. destruct (Hall s Hs Hp) as (w & c & n & Hs'). by exists w, c, n.
  - unfold HealthErr. cbn. by destruct (h_saveErr h0).
  - intros Hpath. unfold Tick, saveLocked. cbn [snd]. set (h' := advance _ now).
    assert (Hpp : h_path h' = path).
    { unfold h', advance. destruct (_ <? _)%Z; [done|]. unfold bumpLocked. cbn. by destruct (_ <? _)%Z. }
    rewrite bool_decide_eq_false_2 by congruence. done.
Qed.

Definition demo_memory : list string := ["not a stamp"; "0001700000000500:000007:desk"; ""].
Definition recovered_clock : HLC :=
  {| h_node := "desk"; h_path := "hlc.json"; h_wallMS := 1700000000500; h_counter := 7; h_saveErr := None; h_recovered := true |}.

Lemma recovery_comes_after_witness :
  RecoverHLC "desk" "hlc.json" demo_memory = Ok recovered_clock /\
  HLCAfter (fst (Tick recovered_clock 0 None)) "0001700000000500:000007:desk" = true /\ HealthErr recovered_clock <> None /\
  ("hlc.json" <> "" -> HealthErr (fst (snd (Tick recovered_clock 0 None))) = None).
Proof.
  assert (Hr : RecoverHLC "desk" "hlc.json" demo_memory = Ok recovered_clock) by by vm_compute.
  split; [exact Hr|].
  apply (recovery_comes_after "desk" "hlc.json" demo_memory recovered_clock 0 None "0001700000000500:000007:desk" Hr);
    [by right; left|by vm_compute|by vm_compute].
Defined.

(** ** The end of the format *)

Lemma wide_text n : FormatHLC (10 ^ 16) 1 n = "10000000000000000:000001:" +:+ n.
Proof. unfold FormatHLC. replace (pad_d 16 (10 ^ 16)) with "10000000000000000" by by vm_compute. by replace (pad_d 6 1) with "000001" by by vm_compute. Qed.

Lemma last_text n : FormatHLC (10 ^ 16 - 1) 999999 n = "9999999999999999:999999:" +:+ n.
Proof. unfold FormatHLC. replace (pad_d 16 (10 ^ 16 - 1)) with "9999999999999999" by by vm_compute. by replace (pad_d 6 999999) with "999999" by by vm_compute. Qed.

(** One observed stamp ends the order.  Observing the last stamp of the format, well formed
    and with any node, moves the wall to seventeen digits: the next tick does not parse,
    and sorts before the stamp observed.  No bound on the skew is checked. *)
Theorem last_stamp_ends_order h n now now' err err' :
  let last_ := FormatHLC (10 ^ 16 - 1) 999999 n in
  let t := fst (Tick (fst (Observe h last_ now err)) now' err') in
  hlc_ok h -> (h_wallMS h < 10 ^ 16 - 1)%Z -> valid_node n = true -> (0 <= now < 10 ^ 16 - 1)%Z -> (now' < 10 ^ 16)%Z ->
  ParseHLC last_ <> None /\ ParseHLC t = None /\ HLCAfter t last_ = false.
Proof.
  intros last_ t Hok Hw Hn Hnow Hnow'.
  assert (Hparse : ParseHLC last_ = Some (10 ^ 16 - 1, 999999, n)%Z) by (apply parse_iff_format; split_and!; [done|split; lia|done]).
  assert (Ht : t = FormatHLC (10 ^ 16) 1 (h_node h)).
  { unfold t, Observe. rewrite Hparse. destruct (saved_fields (receive h now (10 ^ 16 - 1) 999999) err) as (E1 & E2 & E3 & _).
    assert (Hr : receive h now (10 ^ 16 - 1) 999999 = at_ (at_ h (10 ^ 16 - 1) 999999) (10 ^ 16) 0).
    { unfold receive. replace (Z.max (Z.max (h_wallMS h) (10 ^ 16 - 1)) now) with (10 ^ 16 - 1)%Z by lia.
      destruct (Z.eqb_spec (10 ^ 16 - 1) (h_wallMS h)); [lia|]. cbn [andb]. rewrite Z.eqb_refl. reflexivity. }
    rewrite Hr in *. set (h1 := fst _) in *. unfold Tick, stamp_of, advance. cbn [fst]. rewrite E1. cbn [at_ h_wallMS].
    destruct (Z.ltb_spec (10 ^ 16) now'); [lia|]. unfold bumpLocked. rewrite E2. cbn [at_ h_counter].
    replace (HLCMaxCounter <? int64 (0 + 1))%Z with false by reflexivity. cbn [at_ h_wallMS h_counter h_node]. by rewrite E1, E3. }
  rewrite Ht, Hparse. split_and!; [done| |].
  - rewrite wide_text. reflexivity.
  - rewrite wide_text. unfold last_. rewrite last_text. apply not_true_iff_false. by intros H%HLCAfter_compare.
Qed.

Lemma last_stamp_ends_order_witness :
  let last_ := FormatHLC (10 ^ 16 - 1) 999999 "peer" in
  let t := fst (Tick (fst (Observe (hlc_new "desk" "hlc.json") last_ 1700000000000 None)) 1700000000001 None) in
  ParseHLC last_ <> None /\ ParseHLC t = None /\ HLCAfter t last_ = false.
Proof. apply (last_stamp_ends_order (hlc_new "desk" "hlc.json") "peer"); [by hlc_arith; cbn|by cbn|done|lia|lia]. Defined.
