(* ===== verification/Memory.v ===== *)
(** Learned memory: the chunk (core/memory/chunk.go), its owner (account.go), the store's
    operations (store.go), the forget outbox (sync_outbox.go) and the operations of the
    Fleet sync on the store (store_sync.go).  A time is nanoseconds since the zero time.
    The chunk's fields that no operation changes one by one are its body; a float is its
    bits.  The disk does not fail; the clock reads one time within an operation.  SHA-256
    and the policy gate are parameters. *)
From S2P Require Import Prelude GoString Json Hlc.
From stdpp Require Import gmap.
Local Open Scope nat_scope.

(** * Chunks *)

Definition ScopeKindGlobal : string := "global".
Definition ScopeKindProject : string := "project".
Definition ScopeKindSession : string := "session".
Definition ScopeKindLongTerm : string := "long_term".

Record Body := {
  b_SessionID : string; b_SourceTurn : string; b_Content : string; b_ContentHash : string; b_ToolName : string;
  b_FilesRead : list string; b_FilesModified : list string; b_CreatedAt : Z; b_Source : string; b_Kind : string;
  b_RetrievalWeight : Z; b_TurnID : string
}.

Record Recall := { RecallCount : Z; RecallOwn : Z; RecallOthers : Z; RecallFolded : Z }.

Record SyncMarks := { SyncDirty : bool; SyncSentAt : Z; SyncedAt : Z; SyncBlocked : string; SyncGen : Z }.

Record Chunk := {
  c_ID : string; c_Account : string; c_body : Body; c_ProjectID : string;
  c_ScopeKind : string; c_ScopeID : string; c_ScopeHLC : string; c_Title : string; c_TitleHLC : string;
  c_Pinned : bool; c_PinnedHLC : string; c_CreatedHLC : string; c_recall : Recall; c_LastAccessed : Z;
  c_Embedding : list Z; c_EmbedPending : bool; c_sync : SyncMarks
}.

Definition with_id (c : Chunk) (id : string) : Chunk :=
  {| c_ID := id; c_Account := c_Account c; c_body := c_body c; c_ProjectID := c_ProjectID c;
     c_ScopeKind := c_ScopeKind c; c_ScopeID := c_ScopeID c; c_ScopeHLC := c_ScopeHLC c; c_Title := c_Title c;
     c_TitleHLC := c_TitleHLC c; c_Pinned := c_Pinned c; c_PinnedHLC := c_PinnedHLC c;
     c_CreatedHLC := c_CreatedHLC c; c_recall := c_recall c; c_LastAccessed := c_LastAccessed c;
     c_Embedding := c_Embedding c; c_EmbedPending := c_EmbedPending c; c_sync := c_sync c |}.

Definition with_account (c : Chunk) (account : string) : Chunk :=
  {| c_ID := c_ID c; c_Account := account; c_body := c_body c; c_ProjectID := c_ProjectID c;
     c_ScopeKind := c_ScopeKind c; c_ScopeID := c_ScopeID c; c_ScopeHLC := c_ScopeHLC c; c_Title := c_Title c;
     c_TitleHLC := c_TitleHLC c; c_Pinned := c_Pinned c; c_PinnedHLC := c_PinnedHLC c;
     c_CreatedHLC := c_CreatedHLC c; c_recall := c_recall c; c_LastAccessed := c_LastAccessed c;
     c_Embedding := c_Embedding c; c_EmbedPending := c_EmbedPending c; c_sync := c_sync c |}.

Definition with_body (c : Chunk) (b : Body) : Chunk :=
  {| c_ID := c_ID c; c_Account := c_Account c; c_body := b; c_ProjectID := c_ProjectID c;
     c_ScopeKind := c_ScopeKind c; c_ScopeID := c_ScopeID c; c_ScopeHLC := c_ScopeHLC c; c_Title := c_Title c;
     c_TitleHLC := c_TitleHLC c; c_Pinned := c_Pinned c; c_PinnedHLC := c_PinnedHLC c;
     c_CreatedHLC := c_CreatedHLC c; c_recall := c_recall c; c_LastAccessed := c_LastAccessed c;
     c_Embedding := c_Embedding c; c_EmbedPending := c_EmbedPending c; c_sync := c_sync c |}.

Definition with_scope (c : Chunk) (kind id hlc : string) : Chunk :=
  {| c_ID := c_ID c; c_Account := c_Account c; c_body := c_body c; c_ProjectID := c_ProjectID c; c_ScopeKind := kind;
     c_ScopeID := id; c_ScopeHLC := hlc; c_Title := c_Title c; c_TitleHLC := c_TitleHLC c; c_Pinned := c_Pinned c;
     c_PinnedHLC := c_PinnedHLC c; c_CreatedHLC := c_CreatedHLC c; c_recall := c_recall c;
     c_LastAccessed := c_LastAccessed c; c_Embedding := c_Embedding c; c_EmbedPending := c_EmbedPending c;
     c_sync := c_sync c |}.

Definition with_project (c : Chunk) (id : string) : Chunk :=
  {| c_ID := c_ID c; c_Account := c_Account c; c_body := c_body c; c_ProjectID := id; c_ScopeKind := c_ScopeKind c;
     c_ScopeID := c_ScopeID c; c_ScopeHLC := c_ScopeHLC c; c_Title := c_Title c; c_TitleHLC := c_TitleHLC c;
     c_Pinned := c_Pinned c; c_PinnedHLC := c_PinnedHLC c; c_CreatedHLC := c_CreatedHLC c; c_recall := c_recall c;
     c_LastAccessed := c_LastAccessed c; c_Embedding := c_Embedding c; c_EmbedPending := c_EmbedPending c;
     c_sync := c_sync c |}.

Definition with_title (c : Chunk) (title hlc : string) : Chunk :=
  {| c_ID := c_ID c; c_Account := c_Account c; c_body := c_body c; c_ProjectID := c_ProjectID c;
     c_ScopeKind := c_ScopeKind c; c_ScopeID := c_ScopeID c; c_ScopeHLC := c_ScopeHLC c; c_Title := title;
     c_TitleHLC := hlc; c_Pinned := c_Pinned c; c_PinnedHLC := c_PinnedHLC c; c_CreatedHLC := c_CreatedHLC c;
     c_recall := c_recall c; c_LastAccessed := c_LastAccessed c; c_Embedding := c_Embedding c;
     c_EmbedPending := c_EmbedPending c; c_sync := c_sync c |}.

Definition with_pinned (c : Chunk) (pinned : bool) (hlc : string) : Chunk :=
  {| c_ID := c_ID c; c_Account := c_Account c; c_body := c_body c; c_ProjectID := c_ProjectID c;
     c_ScopeKind := c_ScopeKind c; c_ScopeID := c_ScopeID c; c_ScopeHLC := c_ScopeHLC c; c_Title := c_Title c;
     c_TitleHLC := c_TitleHLC c; c_Pinned := pinned; c_PinnedHLC := hlc; c_CreatedHLC := c_CreatedHLC c;
     c_recall := c_recall c; c_LastAccessed := c_LastAccessed c; c_Embedding := c_Embedding c;
     c_EmbedPending := c_EmbedPending c; c_sync := c_sync c |}.

Definition with_created (c : Chunk) (hlc : string) : Chunk :=
  {| c_ID := c_ID c; c_Account := c_Account c; c_body := c_body c; c_ProjectID := c_ProjectID c;
     c_ScopeKind := c_ScopeKind c; c_ScopeID := c_ScopeID c; c_ScopeHLC := c_ScopeHLC c; c_Title := c_Title c;
     c_TitleHLC := c_TitleHLC c; c_Pinned := c_Pinned c; c_PinnedHLC := c_PinnedHLC c; c_CreatedHLC := hlc;
     c_recall := c_recall c; c_LastAccessed := c_LastAccessed c; c_Embedding := c_Embedding c;
     c_EmbedPending := c_EmbedPending c; c_sync := c_sync c |}.

Definition with_recall (c : Chunk) (r : Recall) : Chunk :=
  {| c_ID := c_ID c; c_Account := c_Account c; c_body := c_body c; c_ProjectID := c_ProjectID c;
     c_ScopeKind := c_ScopeKind c; c_ScopeID := c_ScopeID c; c_ScopeHLC := c_ScopeHLC c; c_Title := c_Title c;
     c_TitleHLC := c_TitleHLC c; c_Pinned := c_Pinned c; c_PinnedHLC := c_PinnedHLC c;
     c_CreatedHLC := c_CreatedHLC c; c_recall := r; c_LastAccessed := c_LastAccessed c; c_Embedding := c_Embedding c;
     c_EmbedPending := c_EmbedPending c; c_sync := c_sync c |}.

Definition with_access (c : Chunk) (at_ : Z) : Chunk :=
  {| c_ID := c_ID c; c_Account := c_Account c; c_body := c_body c; c_ProjectID := c_ProjectID c;
     c_ScopeKind := c_ScopeKind c; c_ScopeID := c_ScopeID c; c_ScopeHLC := c_ScopeHLC c; c_Title := c_Title c;
     c_TitleHLC := c_TitleHLC c; c_Pinned := c_Pinned c; c_PinnedHLC := c_PinnedHLC c;
     c_CreatedHLC := c_CreatedHLC c; c_recall := c_recall c; c_LastAccessed := at_; c_Embedding := c_Embedding c;
     c_EmbedPending := c_EmbedPending c; c_sync := c_sync c |}.

Definition with_embedding (c : Chunk) (vec : list Z) (pending : bool) : Chunk :=
  {| c_ID := c_ID c; c_Account := c_Account c; c_body := c_body c; c_ProjectID := c_ProjectID c;
     c_ScopeKind := c_ScopeKind c; c_ScopeID := c_ScopeID c; c_ScopeHLC := c_ScopeHLC c; c_Title := c_Title c;
     c_TitleHLC := c_TitleHLC c; c_Pinned := c_Pinned c; c_PinnedHLC := c_PinnedHLC c;
     c_CreatedHLC := c_CreatedHLC c; c_recall := c_recall c; c_LastAccessed := c_LastAccessed c; c_Embedding := vec;
     c_EmbedPending := pending; c_sync := c_sync c |}.

Definition with_sync (c : Chunk) (m : SyncMarks) : Chunk :=
  {| c_ID := c_ID c; c_Account := c_Account c; c_body := c_body c; c_ProjectID := c_ProjectID c;
     c_ScopeKind := c_ScopeKind c; c_ScopeID := c_ScopeID c; c_ScopeHLC := c_ScopeHLC c; c_Title := c_Title c;
     c_TitleHLC := c_TitleHLC c; c_Pinned := c_Pinned c; c_PinnedHLC := c_PinnedHLC c;
     c_CreatedHLC := c_CreatedHLC c; c_recall := c_recall c; c_LastAccessed := c_LastAccessed c;
     c_Embedding := c_Embedding c; c_EmbedPending := c_EmbedPending c; c_sync := m |}.

Definition no_marks : SyncMarks := {| SyncDirty := false; SyncSentAt := 0; SyncedAt := 0; SyncBlocked := ""; SyncGen := 0 |}.

Definition IsZero (t : Z) : bool := (t =? 0)%Z.
Definition After (t u : Z) : bool := (u <? t)%Z.

Definition FleetMayKnow (c : Chunk) : bool := negb (IsZero (SyncedAt (c_sync c))) || negb (IsZero (SyncSentAt (c_sync c))).

(** [recomputeRecall] on the components. *)
Definition recall_of (own others folded : Z) : Recall :=
  {| RecallCount := int64 (int64 (own + others) + folded); RecallOwn := own; RecallOthers := others; RecallFolded := folded |}.

Definition normalizeRecall (r : Recall) : Recall :=
  if ((RecallOwn r =? 0) && (RecallOthers r =? 0) && (RecallFolded r =? 0) && (0 <? RecallCount r))%Z
  then recall_of (RecallCount r) 0 0 else recall_of (RecallOwn r) (RecallOthers r) (RecallFolded r).

Record ScopeFilter := { sf_Kind : string; sf_ID : string }.

Definition matchesScope (c : Chunk) (filters : list ScopeFilter) : bool :=
  match filters with
  | [] => true
  | _ => existsb (fun f => bool_decide (sf_Kind f = c_ScopeKind c) && (bool_decide (sf_ID f = "") || bool_decide (sf_ID f = c_ScopeID c))) filters
  end.

(** * Accounts *)

Definition AccountSignedOut : string := "signed-out".
Definition AccountUnresolved : string := "unresolved".
Definition AccountUnknown : string := "unknown".
Definition PendingAccount (tokenKey : string) : string := "pending:" +:+ tokenKey.

Definition unstamped (account : string) : bool := bool_decide (account = "") || bool_decide (account = AccountUnknown).
Definition AccountUnstamped (c : Chunk) : bool := unstamped (c_Account c).

Record AccountScope := { as_Account : string; as_LegacyOwner : string; as_TokenKey : string }.

(** [Owns] looks only at the account of the chunk. *)
Definition owns_account (s : AccountScope) (account : string) : bool :=
  if bool_decide (as_Account s = "") then false
  else if unstamped account then bool_decide (as_LegacyOwner s = as_Account s)
  else if negb (bool_decide (as_TokenKey s = "")) && bool_decide (account = PendingAccount (as_TokenKey s)) then true
  else bool_decide (account = as_Account s).

Definition Owns (s : AccountScope) (c : Chunk) : bool := owns_account s (c_Account c).

(** * Helpers of the store *)

Definition touchLocked (c : Chunk) : Chunk :=
  let m := c_sync c in
  with_sync c {| SyncDirty := true; SyncSentAt := SyncSentAt m; SyncedAt := SyncedAt m; SyncBlocked := SyncBlocked m; SyncGen := int64 (SyncGen m + 1) |}.

(** Milliseconds since 1970 of a time. *)
Definition unix_ms (t : Z) : Z := (t / 1000000 - 62135596800000)%Z.

(** A nil clock ticks to the empty stamp. *)
Definition tick (clock : option HLC) (now : Z) : string * option HLC :=
  match clock with
  | None => ("", None)
  | Some h => let '(s, (h, _)) := Tick h (unix_ms now) None in (s, Some h)
  end.

(** [indexLocked]: the last row of an id. *)
Fixpoint last_index (id : string) (l : list Chunk) : option nat :=
  match l with
  | [] => None
  | c :: l => match last_index id l with
              | Some i => Some (S i)
              | None => if bool_decide (c_ID c = id) then Some 0 else None
              end
  end.

(** The first row of an id, as the loops find it. *)
Fixpoint first_index (id : string) (l : list Chunk) : option nat :=
  match l with
  | [] => None
  | c :: l => if bool_decide (c_ID c = id) then Some 0 else S <$> first_index id l
  end.

(** [removeIdxLocked]; the list is from row [i] on. *)
Fixpoint remove_rows (i : nat) (drop : list nat) (l : list Chunk) : list Chunk :=
  match l with
  | [] => []
  | c :: l => if existsb (Nat.eqb i) drop then remove_rows (S i) drop l else c :: remove_rows (S i) drop l
  end.

(** * The store *)

(** The chunks, the clock the store and the outbox share, and the queued forgets. *)
Record ForgetOp := { fo_ID : string; fo_HLC : string; fo_QueuedAt : Z; fo_Account : string }.
Record Device := { d_chunks : list Chunk; d_clock : option HLC; d_ops : list ForgetOp }.

Definition with_chunks (d : Device) (l : list Chunk) : Device := {| d_chunks := l; d_clock := d_clock d; d_ops := d_ops d |}.
Definition with_clock (d : Device) (k : option HLC) : Device := {| d_chunks := d_chunks d; d_clock := k; d_ops := d_ops d |}.
Definition with_ops (d : Device) (ops : list ForgetOp) : Device := {| d_chunks := d_chunks d; d_clock := d_clock d; d_ops := ops |}.

Definition ErrDuplicate : string := "memory: duplicate chunk within dedup window".
Definition ErrEmbeddingRequired : string := "memory: chunk embedding required".
Definition not_found (id : string) : string := "memory: chunk " +:+ fmt_q id +:+ " not found".

(** The bits of 1.0 and of the zeros of a 32-bit float. *)
Definition weight_one : Z := 1065353216.
Definition weight_zero (w : Z) : bool := ((w =? 0) || (w =? 2147483648))%Z.

Definition is_nil {A} (l : list A) : bool := match l with [] => true | _ => false end.

Section Store.
Variable HashContent : string -> string.
(** The policy gate: the error of a refused write; a nil gate refuses none. *)
Variable gate : string -> option string.

Definition with_hash (b : Body) : Body :=
  {| b_SessionID := b_SessionID b; b_SourceTurn := b_SourceTurn b; b_Content := b_Content b;
     b_ContentHash := if bool_decide (b_ContentHash b = "") then HashContent (b_Content b) else b_ContentHash b;
     b_ToolName := b_ToolName b; b_FilesRead := b_FilesRead b; b_FilesModified := b_FilesModified b; b_CreatedAt := b_CreatedAt b;
     b_Source := b_Source b; b_Kind := b_Kind b; b_RetrievalWeight := b_RetrievalWeight b; b_TurnID := b_TurnID b |}.

Definition with_narrative (b : Body) : Body :=
  {| b_SessionID := b_SessionID b; b_SourceTurn := b_SourceTurn b; b_Content := b_Content b; b_ContentHash := b_ContentHash b;
     b_ToolName := b_ToolName b; b_FilesRead := b_FilesRead b; b_FilesModified := b_FilesModified b; b_CreatedAt := b_CreatedAt b;
     b_Source := b_Source b; b_Kind := if bool_decide (b_Kind b = "") then "raw" else b_Kind b;
     b_RetrievalWeight := if weight_zero (b_RetrievalWeight b) then weight_one else b_RetrievalWeight b; b_TurnID := b_TurnID b |}.

(** An empty scope is the chunk's session. *)
Definition default_scope (c : Chunk) : Chunk :=
  if bool_decide (c_ScopeKind c = "")
  then with_scope c ScopeKindSession (if bool_decide (c_ScopeID c = "") then b_SessionID (c_body c) else c_ScopeID c) (c_ScopeHLC c)
  else c.

Definition default_access (c : Chunk) : Chunk := if IsZero (c_LastAccessed c) then with_access c (b_CreatedAt (c_body c)) else c.

Definition backfillChunkDefaults (c : Chunk) : Chunk :=
  let c := default_scope c in
  let c := with_body c (with_hash (c_body c)) in
  let c := default_access c in
  let c := with_body c (with_narrative (c_body c)) in
  with_recall c (normalizeRecall (c_recall c)).

(** What [load] makes of the decoded file. *)
Definition load (chunks : list Chunk) : list Chunk := map backfillChunkDefaults chunks.

(** Thirty seconds. *)
Definition DedupWindow : Z := 30000000000.

Definition stampCreateLocked (k : option HLC) (now : Z) (c : Chunk) : Chunk * option HLC :=
  let '(c, k) := if bool_decide (c_CreatedHLC c = "") then let '(s, k) := tick k now in (with_created c s, k) else (c, k) in
  let c := if bool_decide (c_ScopeHLC c = "") then with_scope c (c_ScopeKind c) (c_ScopeID c) (c_CreatedHLC c) else c in
  let c := if bool_decide (c_TitleHLC c = "") && negb (bool_decide (c_Title c = "")) then with_title c (c_Title c) (c_CreatedHLC c) else c in
  let c := if bool_decide (c_PinnedHLC c = "") && c_Pinned c then with_pinned c (c_Pinned c) (c_CreatedHLC c) else c in
  (touchLocked c, k).

(** The closure [stamp] of [replaceLocked]. *)
Definition restamp (k : option HLC) (now : Z) (changed : bool) (cur prev : string) : string * option HLC :=
  if changed then tick k now else (if bool_decide (prev = "") then cur else prev, k).

Definition replaceLocked (k : option HLC) (now : Z) (old in_ : Chunk) : Chunk * option HLC :=
  let out := with_account in_ (c_Account old) in
  let out := with_created out (if bool_decide (c_CreatedHLC old = "") then c_CreatedHLC in_ else c_CreatedHLC old) in
  let m := c_sync old in
  let out := with_sync out {| SyncDirty := SyncDirty (c_sync in_); SyncSentAt := SyncSentAt m; SyncedAt := SyncedAt m;
                              SyncBlocked := SyncBlocked m; SyncGen := SyncGen m |} in
  let r := c_recall in_ in
  let out := with_recall out (normalizeRecall
    (if ((RecallOwn r =? 0) && (RecallOthers r =? 0) && (RecallFolded r =? 0))%Z
     then {| RecallCount := RecallCount r; RecallOwn := RecallOwn (c_recall old); RecallOthers := RecallOthers (c_recall old);
             RecallFolded := RecallFolded (c_recall old) |}
     else r)) in
  let '(s, k) := restamp k now (negb (bool_decide (c_Title in_ = c_Title old))) (c_TitleHLC out) (c_TitleHLC old) in
  let out := with_title out (c_Title out) s in
  let '(s, k) := restamp k now (negb (bool_decide (c_Pinned in_ = c_Pinned old))) (c_PinnedHLC out) (c_PinnedHLC old) in
  let out := with_pinned out (c_Pinned out) s in
  let '(s, k) := restamp k now (negb (bool_decide (c_ScopeKind in_ = c_ScopeKind old))) (c_ScopeHLC out) (c_ScopeHLC old) in
  let out := with_scope out (c_ScopeKind out) (c_ScopeID out) s in
  (touchLocked out, k).

(** The loop of [Add] over the rows: a row to replace, or a duplicate. *)
Inductive AddScan := ScanReplace (i : nat) (old : Chunk) | ScanDuplicate | ScanNew.

Fixpoint add_scan (i : nat) (cutoff : Z) (chunk : Chunk) (l : list Chunk) : AddScan :=
  match l with
  | [] => ScanNew
  | c :: l =>
      if bool_decide (c_ID c = c_ID chunk) then ScanReplace i c
      else if bool_decide (b_ContentHash (c_body c) = b_ContentHash (c_body chunk)) && bool_decide (c_ScopeKind c = c_ScopeKind chunk) &&
              bool_decide (c_ScopeID c = c_ScopeID chunk) && After (b_CreatedAt (c_body c)) cutoff
      then ScanDuplicate
      else add_scan (S i) cutoff chunk l
  end.

(** [account] is the account source, when one is installed. *)
Definition Add (account : option string) (now : Z) (chunk : Chunk) (d : Device) : Device * option string :=
  if bool_decide (c_ID chunk = "") then (d, Some "memory: chunk id required")
  else if is_nil (c_Embedding chunk) && negb (c_EmbedPending chunk) then (d, Some ErrEmbeddingRequired)
  else
    let chunk := default_scope chunk in
    let chunk := with_body chunk (with_hash (c_body chunk)) in
    let chunk := with_recall chunk (normalizeRecall (c_recall chunk)) in
    match gate (c_ScopeKind chunk) with
    | Some err => (d, Some err)
    | None =>
        let chunk := match account with
                     | Some a => if bool_decide (c_Account chunk = "")
                                 then with_account chunk (if bool_decide (a = "") then AccountSignedOut else a) else chunk
                     | None => chunk
                     end in
        match add_scan 0 (now - DedupWindow)%Z chunk (d_chunks d) with
        | ScanReplace i old =>
            let '(c, k) := replaceLocked (d_clock d) now old chunk in
            (with_clock (with_chunks d (<[i := c]> (d_chunks d))) k, None)
        | ScanDuplicate => (d, Some ErrDuplicate)
        | ScanNew =>
            let '(c, k) := stampCreateLocked (d_clock d) now chunk in
            (with_clock (with_chunks d (d_chunks d ++ [c])) k, None)
        end
    end.

(** [Remove], and [Delete] without the row. *)
Definition Remove (id : string) (d : Device) : Device * result Chunk string :=
  match first_index id (d_chunks d) with
  | Some i =>
      match d_chunks d !! i with
      | Some c => (with_chunks d (delete i (d_chunks d)), Ok c)
      | None => (d, Err (not_found id))
      end
  | None => (d, Err (not_found id))
  end.

Definition valid_scope_kind (kind : string) : bool :=
  bool_decide (kind ∈ [ScopeKindGlobal; ScopeKindProject; ScopeKindSession; ScopeKindLongTerm]).

(** An update of the first row of an id. *)
Definition update_row (id : string) (f : option HLC -> Chunk -> Chunk * option HLC) (d : Device) : Device * option string :=
  match first_index id (d_chunks d) with
  | Some i =>
      match d_chunks d !! i with
      | Some c => let '(c, k) := f (d_clock d) c in (with_clock (with_chunks d (<[i := c]> (d_chunks d))) k, None)
      | None => (d, Some (not_found id))
      end
  | None => (d, Some (not_found id))
  end.

Definition PromoteScope (now : Z) (id kind scopeID : string) (d : Device) : Device * option string :=
  if bool_decide (id = "") then (d, Some "memory: promote: id required")
  else if negb (valid_scope_kind kind) then (d, Some ("memory: promote: invalid scope kind " +:+ fmt_q kind))
  else update_row id (fun k c =>
    if bool_decide (c_ScopeKind c = kind) && bool_decide (c_ScopeID c = scopeID) then (c, k)
    else
      let c := if bool_decide (kind = ScopeKindProject) then with_project c scopeID else c in
      let '(s, k) := tick k now in (touchLocked (with_scope c kind scopeID s), k)) d.

Definition SetPinned (now : Z) (id : string) (pinned : bool) (d : Device) : Device * option string :=
  if bool_decide (id = "") then (d, Some "memory: pin: id required")
  else update_row id (fun k c =>
    if Bool.eqb (c_Pinned c) pinned then (c, k)
    else let '(s, k) := tick k now in (touchLocked (with_pinned c pinned s), k)) d.

Definition access_row (at_ : Z) (c : Chunk) : Chunk :=
  let r := c_recall c in
  touchLocked (with_access (with_recall c (recall_of (int64 (RecallOwn r + 1)) (RecallOthers r) (RecallFolded r))) at_).

Definition MarkAccessed (now : Z) (ids : list string) (at_ : Z) (d : Device) : Device :=
  let at_ := if IsZero at_ then now else at_ in
  with_chunks d (map (fun c => if bool_decide (c_ID c ∈ ids) then access_row at_ c else c) (d_chunks d)).

Definition SetEmbedding (id : string) (vec : list Z) (d : Device) : Device * option string :=
  if is_nil vec then (d, Some "memory: set embedding: empty vector")
  else update_row id (fun k c => (with_embedding c vec false, k)) d.

Definition FoldRecall (id : string) (n at_ : Z) (d : Device) : Device * option string :=
  update_row id (fun k c =>
    let r := c_recall c in
    let c := if (0 <? n)%Z then with_recall c (recall_of (RecallOwn r) (RecallOthers r) (int64 (RecallFolded r + n))) else c in
    (if After at_ (c_LastAccessed c) then with_access c at_ else c, k)) d.

(** The rows that go, and the rest. *)
Definition DeleteScope (scope : ScopeFilter) (d : Device) : Device * list Chunk :=
  if bool_decide (sf_Kind scope = "") then (d, [])
  else (with_chunks d (List.filter (fun c => negb (matchesScope c [scope])) (d_chunks d)),
        List.filter (fun c => matchesScope c [scope]) (d_chunks d)).

(** * The forget outbox *)

Definition Has (id : string) (ops : list ForgetOp) : bool := existsb (fun op => bool_decide (fo_ID op = id)) ops.

Definition enqueue (now : Z) (id account : string) (d : Device) : Device :=
  if bool_decide (id = "") || Has id (d_ops d) then d
  else
    let '(s, k) := tick (d_clock d) now in
    with_clock (with_ops d (d_ops d ++ [{| fo_ID := id; fo_HLC := s; fo_QueuedAt := now; fo_Account := account |}])) k.

Definition RecordDelete (now : Z) (deleted : Chunk) (d : Device) : Device :=
  if bool_decide (c_ID deleted = "") || negb (FleetMayKnow deleted) then d else enqueue now (c_ID deleted) (c_Account deleted) d.

Definition OwnsForget (s : AccountScope) (op : ForgetOp) : bool := owns_account s (fo_Account op).
Definition PendingFor (s : AccountScope) (ops : list ForgetOp) : list ForgetOp := List.filter (OwnsForget s) ops.
Definition Ack (ids : list string) (ops : list ForgetOp) : list ForgetOp := List.filter (fun op => negb (bool_decide (fo_ID op ∈ ids))) ops.

(** The removal and the queuing of its forget are one step here; the code takes the store's
    lock and then the outbox's, so a page can be applied in between
    ([page_between_removal_and_queue] of MemorySyncProps.v). *)
Definition RemoveForSync (now : Z) (id : string) (d : Device) : Device * option string :=
  match Remove id d with
  | (d, Err e) => (d, Some e)
  | (d, Ok gone) => (RecordDelete now gone d, None)
  end.

Fixpoint remove_all (now : Z) (nextID : string) (oldIDs : list string) (d : Device) : Device * option string :=
  match oldIDs with
  | [] => (d, None)
  | id :: ids =>
      if bool_decide (id = "") || bool_decide (id = nextID) then remove_all now nextID ids d
      else match RemoveForSync now id d with
           | (d, Some e) => (d, Some e)
           | (d, None) => remove_all now nextID ids d
           end
  end.

Definition ReplaceForSync (account : option string) (now : Z) (next : Chunk) (oldIDs : list string) (d : Device) : Device * option string :=
  match Add account now next d with
  | (d, Some e) => (d, Some e)
  | (d, None) => remove_all now (c_ID next) oldIDs d
  end.

Definition FreshIdentity (c : Chunk) (newID : string) : Chunk :=
  let out := with_id c newID in
  let out := with_title out (c_Title c) "" in
  let out := with_pinned out (c_Pinned c) "" in
  let out := with_scope out (c_ScopeKind c) (c_ScopeID c) "" in
  let out := with_created out "" in
  let out := if bool_decide (c_Account c = "") then with_account out AccountUnknown else out in
  let out := with_sync out no_marks in
  with_recall out (recall_of (RecallOwn (c_recall c)) 0 (int64 (RecallFolded (c_recall c) + RecallOthers (c_recall c)))).

Definition DeleteSessionMemory (now : Z) (sessionID : string) (d : Device) : Device * list string :=
  if bool_decide (sessionID = "") then (d, [])
  else
    let '(d, gone) := DeleteScope {| sf_Kind := ScopeKindSession; sf_ID := sessionID |} d in
    (foldl (fun d c => RecordDelete now c d) d gone, map c_ID gone).

(** * The operations of the sync *)

Definition IsSyncScope (kind : string) : bool := bool_decide (kind = ScopeKindGlobal) || bool_decide (kind = ScopeKindLongTerm).

Definition stamp_if (missing : bool) (set : string -> Chunk -> Chunk) (now : Z) (p : Chunk * option HLC) : Chunk * option HLC :=
  if missing then let '(s, k) := tick p.2 now in (set s p.1, k) else p.

Definition mark_sent (now at_ : Z) (k : option HLC) (c : Chunk) : Chunk * option HLC :=
  let '(c, k) := stamp_if (bool_decide (c_CreatedHLC c = "")) (fun s c => with_created c s) now (c, k) in
  let '(c, k) := stamp_if (bool_decide (c_ScopeHLC c = "")) (fun s c => with_scope c (c_ScopeKind c) (c_ScopeID c) s) now (c, k) in
  let '(c, k) := stamp_if (bool_decide (c_TitleHLC c = "") && negb (bool_decide (c_Title c = ""))) (fun s c => with_title c (c_Title c) s) now (c, k) in
  let '(c, k) := stamp_if (bool_decide (c_PinnedHLC c = "") && c_Pinned c) (fun s c => with_pinned c (c_Pinned c) s) now (c, k) in
  let m := c_sync c in
  (if IsZero (SyncSentAt m)
   then with_sync c {| SyncDirty := SyncDirty m; SyncSentAt := at_; SyncedAt := SyncedAt m; SyncBlocked := SyncBlocked m; SyncGen := SyncGen m |}
   else c, k).

(** The rows as sent, by id. *)
Definition MarkSyncSent (now : Z) (ids : list string) (at_ : Z) (d : Device) : Device * gmap string Chunk :=
  foldl (fun (st : Device * gmap string Chunk) id =>
    let '(d, out) := st in
    match last_index id (d_chunks d) with
    | Some i =>
        match d_chunks d !! i with
        | Some c => let '(c, k) := mark_sent now at_ (d_clock d) c in (with_clock (with_chunks d (<[i := c]> (d_chunks d))) k, <[id := c]> out)
        | None => st
        end
    | None => st
    end) (d, ∅) ids.

Inductive SyncOutcomeKind := OutcomeSynced | OutcomeLeftScope | OutcomeBlocked | OutcomeDelete | OutcomeRekey | OutcomeResendContent.

Record SyncOutcome := { oc_ID : string; oc_Gen : Z; oc_Kind : SyncOutcomeKind; oc_Code : string; oc_CanonicalID : string }.

(** The newer value of each field goes to the canonical row. *)
Definition lww_title (title hlc : string) (c : Chunk) : Chunk := if HLCAfter hlc (c_TitleHLC c) then with_title c title hlc else c.
Definition lww_pinned (pinned : bool) (hlc : string) (c : Chunk) : Chunk := if HLCAfter hlc (c_PinnedHLC c) then with_pinned c pinned hlc else c.
Definition lww_scope (kind id hlc : string) (c : Chunk) : Chunk := if HLCAfter hlc (c_ScopeHLC c) then with_scope c kind id hlc else c.
Definition later_access (at_ : Z) (c : Chunk) : Chunk := if After at_ (c_LastAccessed c) then with_access c at_ else c.

Definition mergeAliasInto (canon alias : Chunk) : Chunk :=
  let canon := if is_nil (c_Embedding canon) && negb (is_nil (c_Embedding alias)) then with_embedding canon (c_Embedding alias) false else canon in
  let canon := lww_title (c_Title alias) (c_TitleHLC alias) canon in
  let canon := lww_pinned (c_Pinned alias) (c_PinnedHLC alias) canon in
  let canon := lww_scope (c_ScopeKind alias) (c_ScopeID alias) (c_ScopeHLC alias) canon in
  let r := c_recall canon in
  let canon := with_recall canon (recall_of (Z.max (RecallOwn r) (RecallOwn (c_recall alias))) (RecallOthers r)
                                    (int64 (RecallFolded r + RecallFolded (c_recall alias)))) in
  later_access (c_LastAccessed alias) canon.

Definition settle (settled : bool) (sent synced : Z) (blocked : string) (c : Chunk) : Chunk :=
  let m := c_sync c in
  with_sync c {| SyncDirty := if settled then false else SyncDirty m; SyncSentAt := sent; SyncedAt := synced; SyncBlocked := blocked; SyncGen := SyncGen m |}.

(** One outcome on the rows and the indexes to drop. *)
Definition apply_outcome (at_ : Z) (scope : AccountScope) (st : list Chunk * list nat) (o : SyncOutcome) : list Chunk * list nat :=
  let '(l, drop) := st in
  match last_index (oc_ID o) l with
  | None => st
  | Some i =>
      if existsb (Nat.eqb i) drop then st
      else
        match l !! i with
        | None => st
        | Some c =>
            let m := c_sync c in
            let settled := (SyncGen m =? oc_Gen o)%Z in
            match oc_Kind o with
            | OutcomeSynced => (<[i := settle settled (SyncSentAt m) at_ "" c]> l, drop)
            | OutcomeLeftScope => (<[i := settle settled 0 0 (SyncBlocked m) c]> l, drop)
            | OutcomeBlocked => (<[i := settle settled (SyncSentAt m) (SyncedAt m) (oc_Code o) c]> l, drop)
            | OutcomeResendContent => (<[i := settle false (SyncSentAt m) 0 (SyncBlocked m) c]> l, drop)
            | OutcomeDelete => (l, i :: drop)
            | OutcomeRekey =>
                if bool_decide (oc_CanonicalID o = "") || bool_decide (oc_CanonicalID o = oc_ID o) then st
                else
                  let rename := (<[i := settle settled (SyncSentAt m) at_ "" (with_id c (oc_CanonicalID o))]> l, drop) in
                  match last_index (oc_CanonicalID o) l with
                  | Some j =>
                      if existsb (Nat.eqb j) drop then rename
                      else match l !! j with
                           | Some canon => if Owns scope canon then (<[j := mergeAliasInto canon c]> l, i :: drop) else st
                           | None => st
                           end
                  | None => rename
                  end
            end
        end
  end.

Definition ApplySyncOutcomes (outs : list SyncOutcome) (at_ : Z) (scope : AccountScope) (l : list Chunk) : list Chunk :=
  let '(l, drop) := foldl (apply_outcome at_ scope) (l, []) outs in remove_rows 0 drop l.

(** ** Applying a page *)

Definition TombstoneForgotten : string := "forgotten".
Definition TombstoneSuperseded : string := "superseded".
Definition TombstoneLeftSyncScope : string := "left_sync_scope".

Record RemoteRecord := {
  rm_ID : string; rm_Tombstone : bool; rm_Reason : string; rm_Chunk : Chunk; rm_OwnRecall : Z; rm_Aliases : list string
}.

Definition with_marks (c : Chunk) (sent synced : Z) : Chunk :=
  let m := c_sync c in
  with_sync c {| SyncDirty := SyncDirty m; SyncSentAt := sent; SyncedAt := synced; SyncBlocked := SyncBlocked m; SyncGen := SyncGen m |}.

Definition apply_tombstone (scope : AccountScope) (r : RemoteRecord) (l : list Chunk) : list Chunk :=
  match last_index (rm_ID r) l with
  | None => l
  | Some i =>
      match l !! i with
      | None => l
      | Some c =>
          if negb (Owns scope c) then l
          else if bool_decide (rm_Reason r = TombstoneLeftSyncScope) && (negb (IsSyncScope (c_ScopeKind c)) || negb (FleetMayKnow c))
          then <[i := with_marks c 0 0]> l
          else delete i l
      end
  end.

(** A local row under an alias folds into the record's row, or becomes it. *)
Definition fold_alias (scope : AccountScope) (id : string) (l : list Chunk) (a : string) : list Chunk :=
  match last_index a l with
  | None => l
  | Some j =>
      match l !! j with
      | None => l
      | Some alias =>
          if bool_decide (a = id) || negb (Owns scope alias) then l
          else
            match last_index id l with
            | Some k =>
                match l !! k with
                | Some canon => if Owns scope canon then delete j (<[k := mergeAliasInto canon alias]> l) else l
                | None => l
                end
            | None => <[j := with_id alias id]> l
            end
      end
  end.

(** The record merges into the row: the fields by their stamps, the counters. *)
Definition merge_remote (at_ : Z) (r : RemoteRecord) (c : Chunk) : Chunk :=
  let in_ := rm_Chunk r in
  let c := lww_title (c_Title in_) (c_TitleHLC in_) c in
  let c := lww_pinned (c_Pinned in_) (c_PinnedHLC in_) c in
  let c := lww_scope (c_ScopeKind in_) "" (c_ScopeHLC in_) c in
  let c := if (rm_OwnRecall r <? RecallOwn (c_recall c))%Z then touchLocked c else c in
  let c := with_recall c (recall_of (Z.max (RecallOwn (c_recall c)) (rm_OwnRecall r)) (RecallOthers (c_recall in_)) (RecallFolded (c_recall c))) in
  let c := later_access (c_LastAccessed in_) c in
  with_marks c (SyncSentAt (c_sync c)) at_.

(** The row a new record becomes. *)
Definition insert_remote (at_ : Z) (scope : AccountScope) (r : RemoteRecord) : Chunk :=
  let c := with_account (with_id (rm_Chunk r) (rm_ID r)) (as_Account scope) in
  let c := with_scope c (c_ScopeKind c) "" (c_ScopeHLC c) in
  let c := with_embedding c [] true in
  let c := with_recall c (recall_of (rm_OwnRecall r) (RecallOthers (c_recall c)) 0) in
  let c := with_body c (with_narrative (with_hash (c_body c))) in
  let c := default_access c in
  with_sync c {| SyncDirty := false; SyncSentAt := 0; SyncedAt := at_; SyncBlocked := ""; SyncGen := 0 |}.

Definition apply_live (at_ : Z) (scope : AccountScope) (r : RemoteRecord) (l : list Chunk) : list Chunk :=
  let l := foldl (fold_alias scope (rm_ID r)) l (rm_Aliases r) in
  match last_index (rm_ID r) l with
  | Some i =>
      match l !! i with
      | Some c => if Owns scope c then <[i := merge_remote at_ r c]> l else l
      | None => l
      end
  | None => l ++ [insert_remote at_ scope r]
  end.

(** The gate is asked for every live record before any is applied. *)
Definition gate_allows (r : RemoteRecord) : bool := rm_Tombstone r || bool_decide (gate (c_ScopeKind (rm_Chunk r)) = None).

Definition apply_record (at_ : Z) (scope : AccountScope) (l : list Chunk) (r : RemoteRecord) : list Chunk :=
  if rm_Tombstone r then apply_tombstone scope r l
  else if gate_allows r then apply_live at_ scope r l else l.

Definition ApplyRemote (recs : list RemoteRecord) (at_ : Z) (scope : AccountScope) (l : list Chunk) : list Chunk :=
  foldl (apply_record at_ scope) l recs.

(** ** Sweeps and claims *)

Definition ClaimPendingAccount (tokenKey account : string) (l : list Chunk) : list Chunk :=
  if bool_decide (tokenKey = "") || bool_decide (account = "") then l
  else map (fun c => if bool_decide (c_Account c = PendingAccount tokenKey) then with_account c account else c) l.

Definition claim_forgets (tokenKey account : string) (ops : list ForgetOp) : list ForgetOp :=
  if bool_decide (tokenKey = "") || bool_decide (account = "") then ops
  else map (fun op => if bool_decide (fo_Account op = PendingAccount tokenKey)
                      then {| fo_ID := fo_ID op; fo_HLC := fo_HLC op; fo_QueuedAt := fo_QueuedAt op; fo_Account := account |} else op) ops.

Definition LatestSyncedAt (l : list Chunk) : Z :=
  foldl (fun t c => if After (SyncedAt (c_sync c)) t then SyncedAt (c_sync c) else t) 0%Z l.

Definition swept_synced (epoch : Z) (scope : AccountScope) (c : Chunk) : bool :=
  Owns scope c && negb (IsZero (SyncedAt (c_sync c))) && (SyncedAt (c_sync c) <? epoch)%Z.

Definition DeleteSyncedBefore (epoch : Z) (scope : AccountScope) (l : list Chunk) : list Chunk :=
  List.filter (fun c => negb (swept_synced epoch scope c)) l.

Definition swept_erased (hlc : string) (epoch : Z) (scope : AccountScope) (c : Chunk) : bool :=
  if negb (IsZero (SyncedAt (c_sync c))) && negb (SyncedAt (c_sync c) <? epoch)%Z then false
  else Owns scope c && IsSyncScope (c_ScopeKind c) && HLCAfter hlc (c_CreatedHLC c).

Definition DeleteCreatedBefore (hlc : string) (epoch : Z) (scope : AccountScope) (l : list Chunk) : list Chunk :=
  if bool_decide (hlc = "") then l else List.filter (fun c => negb (swept_erased hlc epoch scope c)) l.

Definition ClearSyncMarkers (scope : AccountScope) (l : list Chunk) : list Chunk :=
  map (fun c => if Owns scope c then with_marks c 0 0 else c) l.
End Store.
