(* ===== verification/MemoryProps.v ===== *)
(** The note store under the sync: rows keep unique ids and true totals, another account's
    rows are never touched, and what is merged does not depend on the order or the number
    of deliveries. *)
From S2P Require Import Prelude GoString Hlc Memory.
From stdpp Require Import gmap.
Local Open Scope nat_scope.

Notation row_ids l := (map c_ID l).

(** * Rows by their ids *)

Lemma last_index_some id l i : last_index id l = Some i -> exists c, l !! i = Some c /\ c_ID c = id.
Proof.
  revert i. induction l as [|c l IH]; intros i; [done|]. cbn. destruct (last_index id l) as [j|] eqn:E.
  - intros [= <-]. apply (IH j). done.
  - case_bool_decide; [|done]. intros [= <-]. by exists c.
Qed.

Lemma last_index_none id l : last_index id l = None <-> id ∉ row_ids l.
Proof.
  induction l as [|c l IH]; cbn; [split; [intros _; apply not_elem_of_nil|done]|]. rewrite not_elem_of_cons.
  destruct (last_index id l) as [j|]; [split; [done|]|].
  - intros [_ H]. apply IH in H. done.
  - case_bool_decide; naive_solver.
Qed.

Lemma last_index_unique id l i c : NoDup (row_ids l) -> l !! i = Some c -> c_ID c = id -> last_index id l = Some i.
Proof.
  intros Hn Hi <-. destruct (last_index (c_ID c) l) as [j|] eqn:E.
  - apply last_index_some in E as (c' & Hj & He). f_equal. eapply (NoDup_lookup _ _ _ (c_ID c) Hn);
      rewrite list_lookup_fmap; [by rewrite Hj; cbn; rewrite He|by rewrite Hi].
  - apply last_index_none in E. destruct E. apply list_elem_of_fmap_2. by eapply list_elem_of_lookup_2.
Qed.

Lemma first_index_some id l i : first_index id l = Some i -> exists c, l !! i = Some c /\ c_ID c = id.
Proof.
  revert i. induction l as [|c l IH]; intros i; [done|]. cbn. case_bool_decide; [intros [= <-]; by exists c|].
  destruct (first_index id l); [|done]. intros [= <-]. by apply IH.
Qed.

Lemma first_index_unique id l i c : NoDup (row_ids l) -> l !! i = Some c -> c_ID c = id -> first_index id l = Some i.
Proof.
  revert i. induction l as [|x l IH]; intros [|i] Hn Hi He; cbn in *; simplify_eq; [by rewrite bool_decide_eq_true_2|].
  apply NoDup_cons in Hn as [Hx Hn]. rewrite bool_decide_eq_false_2; [by erewrite IH|].
  intros He. apply Hx. rewrite He. apply list_elem_of_fmap_2. by eapply list_elem_of_lookup_2.
Qed.

Lemma delete_absent l i c : NoDup (row_ids l) -> l !! i = Some c -> c_ID c ∉ row_ids (delete i l).
Proof.
  revert i. induction l as [|x l IH]; intros [|i] Hn Hi; cbn in *; simplify_eq; apply NoDup_cons in Hn as [Hx Hn]; [done|].
  apply not_elem_of_cons. split; [|by apply IH]. intros He. apply Hx. rewrite <- He. apply list_elem_of_fmap_2. by eapply list_elem_of_lookup_2.
Qed.

(** ** One row replaced or removed *)

Lemma filter_insert_out {A} (p : A -> bool) l i x y : l !! i = Some x -> p x = false -> p y = false -> List.filter p (<[i:=y]> l) = List.filter p l.
Proof.
  revert i. induction l as [|z l IH]; intros [|i] Hi Hx Hy; cbn in *; simplify_eq; [by rewrite Hx, Hy|]. destruct (p z); by rewrite IH.
Qed.

Lemma filter_delete_out {A} (p : A -> bool) l i x : l !! i = Some x -> p x = false -> List.filter p (delete i l) = List.filter p l.
Proof.
  revert i. induction l as [|z l IH]; intros [|i] Hi Hx; cbn in *; simplify_eq; [by rewrite Hx|]. destruct (p z); by rewrite IH.
Qed.

Lemma ids_insert_same l i c c' : l !! i = Some c -> c_ID c' = c_ID c -> row_ids (<[i:=c']> l) = row_ids l.
Proof. revert i. induction l as [|x l IH]; intros [|i] Hi He; cbn in *; simplify_eq; [by rewrite He|]. by rewrite IH. Qed.

Lemma ids_insert l i c : row_ids (<[i:=c]> l) = <[i:=c_ID c]> (row_ids l).
Proof. apply list_fmap_insert. Qed.

Lemma delete_sublist {A} (l : list A) i : delete i l `sublist_of` l.
Proof. revert i. induction l as [|x l IH]; intros [|i]; cbn; [done|done|by apply sublist_cons|by apply sublist_skip]. Qed.

Lemma ids_delete l i : row_ids (delete i l) `sublist_of` row_ids l.
Proof. apply (fmap_sublist c_ID). apply delete_sublist. Qed.

Lemma nodup_insert_new {A} (l : list A) i x : NoDup l -> x ∉ l -> NoDup (<[i:=x]> l).
Proof.
  intros Hn Hx. revert i. induction Hn as [|y l Hy Hn IH]; intros [|i]; cbn; [constructor|constructor|..].
  - constructor; [|done]. intros H. apply Hx. by right.
  - constructor; [|apply IH; intros H; apply Hx; by right]. intros [j Hj]%list_elem_of_lookup_1.
    apply list_lookup_insert_Some in Hj as [(_ & -> & _)|[_ Hj]]; [apply Hx; by left|]. apply Hy. by eapply list_elem_of_lookup_2.
Qed.

(** * Other accounts *)

(** The rows the sync of a scope may not touch. *)
Definition others (s : AccountScope) (l : list Chunk) : list Chunk := List.filter (fun c => negb (Owns s c)) l.

Lemma owned_out s c : Owns s c = true -> negb (Owns s c) = false.
Proof. by intros ->. Qed.

Lemma others_insert s l i c c' : l !! i = Some c -> Owns s c = true -> c_Account c' = c_Account c -> others s (<[i:=c']> l) = others s l.
Proof. intros Hi Ho Ha. unfold others. eapply filter_insert_out; [done|by rewrite Ho|]. unfold Owns in *. by rewrite Ha, Ho. Qed.

Lemma others_delete s l i c : l !! i = Some c -> Owns s c = true -> others s (delete i l) = others s l.
Proof. intros Hi Ho. eapply filter_delete_out; [done|by rewrite Ho]. Qed.

(** Which fields an operation leaves: the account and the id. *)
Definition same_owner (f : Chunk -> Chunk) : Prop := forall c, c_Account (f c) = c_Account c.
Definition same_id (f : Chunk -> Chunk) : Prop := forall c, c_ID (f c) = c_ID c.

Ltac row_cases := unfold lww_title, lww_pinned, lww_scope, later_access, touchLocked, with_marks, settle; repeat (case_match || case_bool_decide); try done.

Lemma lww_title_keeps t h c : c_Account (lww_title t h c) = c_Account c /\ c_ID (lww_title t h c) = c_ID c. Proof. by row_cases. Qed.
Lemma lww_pinned_keeps p h c : c_Account (lww_pinned p h c) = c_Account c /\ c_ID (lww_pinned p h c) = c_ID c. Proof. by row_cases. Qed.
Lemma lww_scope_keeps k i h c : c_Account (lww_scope k i h c) = c_Account c /\ c_ID (lww_scope k i h c) = c_ID c. Proof. by row_cases. Qed.
Lemma later_access_keeps t c : c_Account (later_access t c) = c_Account c /\ c_ID (later_access t c) = c_ID c. Proof. by row_cases. Qed.

Lemma merge_alias_keeps canon alias : c_Account (mergeAliasInto canon alias) = c_Account canon /\ c_ID (mergeAliasInto canon alias) = c_ID canon.
Proof.
  unfold mergeAliasInto. edestruct later_access_keeps as [-> ->]. cbn. edestruct lww_scope_keeps as [-> ->].
  edestruct lww_pinned_keeps as [-> ->]. edestruct lww_title_keeps as [-> ->]. by destruct (_ && _).
Qed.

Lemma merge_remote_keeps at_ r c : c_Account (merge_remote at_ r c) = c_Account c /\ c_ID (merge_remote at_ r c) = c_ID c.
Proof.
  unfold merge_remote. cbn. edestruct later_access_keeps as [-> ->]. cbn. destruct (_ <? _)%Z; cbn;
    (edestruct lww_scope_keeps as [-> ->]; edestruct lww_pinned_keeps as [-> ->]; edestruct lww_title_keeps as [-> ->]; done).
Qed.

Section Sync.
Variable HashContent : string -> string.
Variable gate : string -> option string.
Notation ApplyRemote := (ApplyRemote HashContent gate).
Notation apply_record := (apply_record HashContent gate).
Notation apply_live := (apply_live HashContent).

Lemma others_fold_alias s id l a : others s (fold_alias s id l a) = others s l.
Proof.
  unfold fold_alias. destruct (last_index a l) as [j|]; [|done]. destruct (l !! j) as [alias|] eqn:Hj; [|done].
  destruct (bool_decide (a = id) || negb (Owns s alias)) eqn:E; [done|]. apply orb_false_iff in E as [E1%bool_decide_eq_false E2%negb_false_iff].
  destruct (last_index id l) as [k|] eqn:Hk; [|by eapply others_insert].
  destruct (l !! k) as [canon|] eqn:Hl; [|done]. destruct (Owns s canon) eqn:Ho; [|done].
  rewrite (others_delete s _ _ (if decide (j = k) then mergeAliasInto canon alias else alias)).
  - eapply others_insert; [done|done|]. apply merge_alias_keeps.
  - case_decide as Hjk; [subst; apply list_lookup_insert_eq; by eapply lookup_lt_Some|by rewrite list_lookup_insert_ne].
  - case_decide; [|done]. unfold Owns in *. by rewrite (proj1 (merge_alias_keeps _ _)).
Qed.

Lemma others_fold_aliases s id al l : others s (foldl (fold_alias s id) l al) = others s l.
Proof. revert l. induction al as [|a al IH]; intros l; [done|]. etransitivity; [apply IH|apply others_fold_alias]. Qed.

Lemma insert_remote_keeps at_ s r : c_Account (insert_remote HashContent at_ s r) = as_Account s /\ c_ID (insert_remote HashContent at_ s r) = rm_ID r.
Proof. unfold insert_remote, default_access. by destruct (IsZero _). Qed.

Lemma owns_own s : unstamped (as_Account s) = false -> owns_account s (as_Account s) = true.
Proof.
  intros Hu. unfold owns_account. rewrite Hu. unfold unstamped in Hu. apply orb_false_iff in Hu as [Hu _]. rewrite Hu.
  rewrite (bool_decide_eq_true_2 (as_Account s = as_Account s)) by done. by destruct (_ && _).
Qed.

Lemma others_apply_record s at_ l r : unstamped (as_Account s) = false -> others s (apply_record at_ s l r) = others s l.
Proof.
  intros Hs. unfold Memory.apply_record. destruct (rm_Tombstone r).
  - unfold apply_tombstone. destruct (last_index (rm_ID r) l) as [i|]; [|done]. destruct (l !! i) as [c|] eqn:Hi; [|done].
    destruct (Owns s c) eqn:Ho; [|done]. cbn [negb]. destruct (_ && _); [by eapply others_insert|by eapply others_delete].
  - destruct (gate_allows gate r); [|done]. unfold Memory.apply_live. rewrite <- (others_fold_aliases s (rm_ID r) (rm_Aliases r) l).
    destruct (last_index (rm_ID r) _) as [i|] eqn:Hi.
    + destruct (_ !! i) as [c|] eqn:Hc; [|done]. destruct (Owns s c) eqn:Ho; [|done]. eapply others_insert; [done|done|]. apply merge_remote_keeps.
    + unfold others. rewrite List.filter_app. cbn. unfold Owns at 2. by rewrite (proj1 (insert_remote_keeps _ _ _)), owns_own, app_nil_r.
Qed.
End Sync.

(** C36: The sync never touches another account's notes.  Applying a page, sweeping after a
    reset or an erase and clearing the markers leave the rows the account does not own as
    they were, in number, order and every field. *)
Theorem sync_keeps_other_accounts hash gate recs at_ hlc epoch s l :
  unstamped (as_Account s) = false ->
  others s (ApplyRemote hash gate recs at_ s l) = others s l /\
  others s (DeleteSyncedBefore epoch s l) = others s l /\
  others s (DeleteCreatedBefore hlc epoch s l) = others s l /\
  others s (ClearSyncMarkers s l) = others s l.
Proof.
  intros Hs. split_and!.
  - unfold ApplyRemote. revert l. induction recs as [|r recs IH]; intros l; [done|]. etransitivity; [apply IH|by apply others_apply_record].
  - unfold others, DeleteSyncedBefore. rewrite filter_bool_filter. apply filter_bool_ext. intros c _. unfold swept_synced.
    destruct (Owns s c); [by rewrite andb_false_r|done].
  - unfold others, DeleteCreatedBefore. case_bool_decide; [done|]. rewrite filter_bool_filter. apply filter_bool_ext. intros c _. unfold swept_erased.
    destruct (Owns s c); [by rewrite andb_false_r|]. by destruct (negb (IsZero (SyncedAt (c_sync c))) && _).
  - unfold others, ClearSyncMarkers. induction l as [|c l IH]; [done|]. cbn. destruct (Owns s c) eqn:Ho; cbn; [|by rewrite Ho; cbn; rewrite IH].
    unfold Owns in *. cbn. by rewrite Ho.
Qed.

(** * Well-formed stores *)

(** The total of a row is the sum of its counters. *)
Definition recall_ok (c : Chunk) : Prop := c_recall c = recall_of (RecallOwn (c_recall c)) (RecallOthers (c_recall c)) (RecallFolded (c_recall c)).

Record rows_wf (l : list Chunk) : Prop := { rw_ids : NoDup (row_ids l); rw_recall : Forall recall_ok l }.

Record device_ok (d : Device) : Prop := { do_rows : rows_wf (d_chunks d); do_ops : NoDup (map fo_ID (d_ops d)) }.

Lemma recall_of_ok c a b f : recall_ok (with_recall c (recall_of a b f)).
Proof. done. Qed.

Lemma normalize_ok c r : recall_ok (with_recall c (normalizeRecall r)).
Proof. unfold normalizeRecall. by destruct (_ && _). Qed.

(** An update that keeps the id and the total. *)
Definition keeps (f : Chunk -> Chunk) : Prop := forall c, c_ID (f c) = c_ID c /\ (recall_ok c -> recall_ok (f c)).

Lemma wf_insert l i c c' : rows_wf l -> l !! i = Some c -> c_ID c' = c_ID c -> recall_ok c' -> rows_wf (<[i:=c']> l).
Proof. intros [Hn Hr] Hi He Ho. constructor; [by erewrite ids_insert_same|by apply Forall_insert]. Qed.

Lemma wf_rename l i c : rows_wf l -> c_ID c ∉ row_ids l -> recall_ok c -> rows_wf (<[i:=c]> l).
Proof. intros [Hn Hr] Hc Ho. constructor; [rewrite ids_insert; by apply nodup_insert_new|by apply Forall_insert]. Qed.

Lemma wf_append l c : rows_wf l -> c_ID c ∉ row_ids l -> recall_ok c -> rows_wf (l ++ [c]).
Proof.
  intros [Hn Hr] Hc Ho. constructor; [rewrite map_app; apply NoDup_app; split_and!; [done| |by apply NoDup_singleton]|by apply Forall_app; split; [|constructor]].
  intros x Hx ->%list_elem_of_singleton. done.
Qed.

Lemma wf_sublist l l' : l' `sublist_of` l -> rows_wf l -> rows_wf l'.
Proof.
  intros Hs [Hn Hr]. constructor; [eapply sublist_NoDup; [exact Hn|exact (fmap_sublist c_ID _ _ Hs)]|].
  rewrite Forall_forall in Hr |- *. intros c Hc. apply Hr. eapply elem_of_submseteq; [exact Hc|by apply sublist_submseteq].
Qed.

Lemma wf_delete l i : rows_wf l -> rows_wf (delete i l).
Proof. apply wf_sublist, delete_sublist. Qed.

Lemma filter_sublist {A} (p : A -> bool) l : List.filter p l `sublist_of` l.
Proof. induction l as [|x l IH]; [done|]. cbn. destruct (p x); [by apply sublist_skip|by apply sublist_cons]. Qed.

Lemma wf_filter p l : rows_wf l -> rows_wf (List.filter p l).
Proof. apply wf_sublist, filter_sublist. Qed.

Lemma wf_map f l : keeps f -> rows_wf l -> rows_wf (map f l).
Proof.
  intros Hf [Hn Hr]. constructor.
  - rewrite map_map, (map_ext _ c_ID); [done|]. intros c. apply Hf.
  - apply Forall_map. eapply Forall_impl; [exact Hr|]. intros c. apply Hf.
Qed.

(** A row update of a device. *)
Lemma update_row_wf id f d : (forall k, keeps (fun c => fst (f k c))) -> device_ok d -> device_ok (fst (update_row id f d)).
Proof.
  intros Hf [Hr Ho]. unfold update_row. destruct (first_index id (d_chunks d)) as [i|]; [|done].
  destruct (d_chunks d !! i) as [c|] eqn:Hi; [|done]. pose proof (Hf (d_clock d) c) as [H1 H2]. destruct (f (d_clock d) c) as [c' k].
  constructor; [|done]. cbn in *. eapply wf_insert; [done|done|done|]. apply H2. destruct Hr as [_ Hr]. rewrite Forall_forall in Hr. apply Hr.
  by eapply list_elem_of_lookup_2.
Qed.

Lemma keeps_id : keeps (fun c => c). Proof. done. Qed.

Lemma scan_replace n cutoff chunk l i old : add_scan n cutoff chunk l = ScanReplace i old ->
  exists j, i = n + j /\ l !! j = Some old /\ c_ID old = c_ID chunk.
Proof.
  revert n. induction l as [|c l IH]; intros n; [done|]. cbn. case_bool_decide as Hc.
  - intros [= <- <-]. exists 0. by rewrite Nat.add_0_r.
  - destruct (_ && _); [done|]. intros H. destruct (IH _ H) as (j & -> & ?). exists (S j). split; [lia|done].
Qed.

Lemma scan_new n cutoff chunk l : add_scan n cutoff chunk l = ScanNew -> c_ID chunk ∉ row_ids l.
Proof.
  revert n. induction l as [|c l IH]; intros n; [intros _; apply not_elem_of_nil|]. cbn. case_bool_decide as Hc; [done|].
  destruct (_ && _); [done|]. intros H%IH. apply not_elem_of_cons. split; [congruence|done].
Qed.

Lemma replace_row k now old in_ c k' : replaceLocked k now old in_ = (c, k') -> c_ID c = c_ID in_ /\ recall_ok c.
Proof.
  unfold replaceLocked. destruct (restamp k now _ _ _) as [s1 k1]. destruct (restamp k1 now _ _ _) as [s2 k2]. destruct (restamp k2 now _ _ _) as [s3 k3].
  intros [= <- <-]. split; [done|]. apply (normalize_ok in_).
Qed.

Lemma stamp_create_row k now c c' k' : stampCreateLocked k now c = (c', k') -> c_ID c' = c_ID c /\ c_recall c' = c_recall c.
Proof.
  unfold stampCreateLocked. destruct (if bool_decide (c_CreatedHLC c = "") then _ else _) as [c1 k1] eqn:E. intros [= <- <-].
  assert (c_ID c1 = c_ID c /\ c_recall c1 = c_recall c) as [E1 E2].
  { case_bool_decide; [destruct (tick k now)|]; by injection E as <- <-. }
  row_cases; cbn in *; done.
Qed.

Lemma enqueue_ok now id account d : device_ok d -> device_ok (enqueue now id account d) /\ d_chunks (enqueue now id account d) = d_chunks d.
Proof.
  intros [Hr Ho]. unfold enqueue. destruct (bool_decide (id = "") || Has id (d_ops d)) eqn:E; [done|]. apply orb_false_iff in E as [_ Hh].
  destruct (tick (d_clock d) now) as [s k]. split; [|done]. constructor; [done|]. cbn. rewrite map_app. apply NoDup_app. split_and!; [done| |by apply NoDup_singleton].
  intros x Hx ->%list_elem_of_singleton. apply list_elem_of_fmap in Hx as (op & He & Hop). cbn in He.
  assert (Has id (d_ops d) = true) by (apply existsb_exists; exists op; split; [by apply list_elem_of_In|by apply bool_decide_eq_true]). congruence.
Qed.

Lemma record_delete_ok now c d : device_ok d -> device_ok (RecordDelete now c d) /\ d_chunks (RecordDelete now c d) = d_chunks d.
Proof. intros Hd. unfold RecordDelete. destruct (_ || _); [done|by apply enqueue_ok]. Qed.

Lemma remove_ok id d : device_ok d -> device_ok (fst (Remove id d)).
Proof.
  intros [Hr Ho]. unfold Remove. destruct (first_index id (d_chunks d)) as [i|]; [|done]. destruct (d_chunks d !! i); [|done].
  constructor; [by apply wf_delete|done].
Qed.

Lemma remove_for_sync_ok now id d : device_ok d -> device_ok (fst (RemoveForSync now id d)).
Proof.
  intros Hd. unfold RemoveForSync. pose proof (remove_ok id d Hd) as H. destruct (Remove id d) as [d' [c|e]]; [|done].
  by apply record_delete_ok.
Qed.

Lemma remove_all_ok now next ids d : device_ok d -> device_ok (fst (remove_all now next ids d)).
Proof.
  revert d. induction ids as [|id ids IH]; intros d Hd; [done|]. cbn. destruct (_ || _); [by apply IH|].
  pose proof (remove_for_sync_ok now id d Hd) as H. destruct (RemoveForSync now id d) as [d' [e|]]; [done|by apply IH].
Qed.

Section Steps.
Variable HashContent : string -> string.
Variable gate : string -> option string.

Lemma add_ok account now chunk d : device_ok d -> device_ok (fst (Memory.Add HashContent gate account now chunk d)).
Proof.
  intros [Hr Ho]. unfold Memory.Add. destruct (bool_decide _); [done|]. destruct (_ && _); [done|]. destruct (gate _); [done|].
  set (c := match account with Some _ => _ | None => _ end).
  assert (Hc : recall_ok c).
  { unfold c. destruct account as [a|]; [|apply normalize_ok]. case_bool_decide; apply (normalize_ok (with_body _ _)). }
  destruct (add_scan 0 _ c (d_chunks d)) as [i old| |] eqn:Hs; [| |].
  - apply scan_replace in Hs as (j & -> & Hj & He). destruct (replaceLocked (d_clock d) now old c) as [c' k] eqn:E. apply replace_row in E as [E1 E2].
    constructor; [|done]. cbn. eapply wf_insert; [done|done|congruence|done].
  - done.
  - apply scan_new in Hs. destruct (stampCreateLocked (d_clock d) now c) as [c' k] eqn:E. apply stamp_create_row in E as [E1 E2].
    constructor; [|done]. cbn. apply wf_append; [done|by rewrite E1|]. unfold recall_ok in *. congruence.
Qed.

Lemma fold_alias_wf s id l a : rows_wf l -> rows_wf (fold_alias s id l a).
Proof.
  intros Hl. unfold fold_alias. destruct (last_index a l) as [j|] eqn:Hj; [|done]. destruct (l !! j) as [alias|] eqn:Hja; [|done]. destruct (_ || _); [done|].
  destruct (last_index id l) as [k|] eqn:Hk.
  - destruct (l !! k) as [canon|] eqn:Hkc; [|done]. destruct (Owns s canon); [|done]. apply wf_delete.
    eapply wf_insert; [done|done|apply merge_alias_keeps|]. unfold mergeAliasInto, later_access. by destruct (After _ _).
  - apply last_index_none in Hk. apply wf_rename; [done|done|]. destruct Hl as [_ Hr]. rewrite Forall_forall in Hr.
    apply (Hr alias). by eapply list_elem_of_lookup_2.
Qed.

Lemma apply_record_wf at_ s l r : rows_wf l -> rows_wf (apply_record HashContent gate at_ s l r).
Proof.
  intros Hl. unfold apply_record. destruct (rm_Tombstone r).
  - unfold apply_tombstone. destruct (last_index (rm_ID r) l) as [i|]; [|done]. destruct (l !! i) as [c|] eqn:Hi; [|done].
    destruct (negb _); [done|]. destruct (_ && _); [|by apply wf_delete]. eapply wf_insert; [done|done|done|].
    destruct Hl as [_ Hr]. rewrite Forall_forall in Hr. apply (Hr c). by eapply list_elem_of_lookup_2.
  - destruct (gate_allows gate r); [|done]. unfold apply_live.
    assert (Ha : rows_wf (foldl (fold_alias s (rm_ID r)) l (rm_Aliases r))).
    { revert l Hl. induction (rm_Aliases r) as [|a al IH]; intros l Hl; [done|]. apply IH. by apply fold_alias_wf. }
    destruct (last_index (rm_ID r) _) as [i|] eqn:Hi.
    + destruct (_ !! i) as [c|] eqn:Hc; [|done]. destruct (Owns s c); [|done].
      eapply wf_insert; [done|exact Hc|apply merge_remote_keeps|]. unfold merge_remote, later_access. by destruct (After _ _).
    + apply last_index_none in Hi. apply wf_append; [done|by rewrite (proj2 (insert_remote_keeps _ _ _ _))|].
      unfold insert_remote, default_access. by destruct (IsZero _).
Qed.

Lemma mark_sent_keeps now at_ k c : c_ID (fst (mark_sent now at_ k c)) = c_ID c /\ c_recall (fst (mark_sent now at_ k c)) = c_recall c.
Proof.
  unfold mark_sent.
  assert (Hstamp : forall b set p, (forall s c, c_ID (set s c) = c_ID c /\ c_recall (set s c) = c_recall c) ->
            c_ID (fst (stamp_if b set now p)) = c_ID p.1 /\ c_recall (fst (stamp_if b set now p)) = c_recall p.1).
  { intros b set p Hset. unfold stamp_if. destruct b; [|done]. destruct (tick p.2 now) as [s k']. apply Hset. }
  repeat match goal with
  | |- context [stamp_if ?b ?f now ?p] =>
      let H := fresh in pose proof (Hstamp b f p ltac:(done)) as H; destruct (stamp_if b f now p) as [? ?]; cbn [fst] in H
  end.
  destruct (IsZero _); cbn; destruct_and?; split; congruence.
Qed.

Lemma mark_sync_sent_ok now ids at_ d : device_ok d -> device_ok (fst (MarkSyncSent now ids at_ d)).
Proof.
  unfold MarkSyncSent. generalize (∅ : gmap string Chunk). revert d. induction ids as [|id ids IH]; intros d out Hd; [done|]. cbn.
  destruct (last_index id (d_chunks d)) as [i|] eqn:Hi; [|by apply IH]. destruct (d_chunks d !! i) as [c|] eqn:Hc; [|by apply IH].
  pose proof (mark_sent_keeps now at_ (d_clock d) c) as [E1 E2]. destruct (mark_sent now at_ (d_clock d) c) as [c' k]. cbn in E1, E2.
  apply IH. destruct Hd as [Hr Ho]. constructor; [|done]. cbn. eapply wf_insert; [done|done|done|]. unfold recall_ok. rewrite E2.
  destruct Hr as [_ Hr]. rewrite Forall_forall in Hr. apply (Hr c). by eapply list_elem_of_lookup_2.
Qed.

(** ** The results of a push *)

(** No row that a result renames to, or folds into, has a result of its own. *)
Definition targets_free (outs : list SyncOutcome) : Prop :=
  forall o o', o ∈ outs -> o' ∈ outs -> oc_Kind o = OutcomeRekey -> oc_ID o' <> oc_CanonicalID o.

Definition drop_inv (outs : list SyncOutcome) (st : list Chunk * list nat) : Prop :=
  rows_wf st.1 /\ forall i, i ∈ st.2 -> exists c, st.1 !! i = Some c /\ exists o, o ∈ outs /\ oc_ID o = c_ID c.

Lemma existsb_eqb i drop : existsb (Nat.eqb i) drop = true <-> i ∈ drop.
Proof. rewrite existsb_exists, list_elem_of_In. split; [by intros (x & Hx & ->%Nat.eqb_eq)|intros H; exists i; by rewrite Nat.eqb_refl]. Qed.

Lemma drop_inv_insert outs l drop i c c' : drop_inv outs (l, drop) -> l !! i = Some c -> i ∉ drop -> rows_wf (<[i:=c']> l) -> drop_inv outs (<[i:=c']> l, drop).
Proof.
  intros [Hl Hd] Hi Hn Hw. split; [done|]. intros j Hj. destruct (Hd j Hj) as (x & Hx & ?). exists x. split; [|done]. cbn.
  rewrite list_lookup_insert_ne; [done|]. by intros ->.
Qed.

Lemma settle_keeps b s1 s2 s3 c : c_ID (settle b s1 s2 s3 c) = c_ID c /\ (recall_ok c -> recall_ok (settle b s1 s2 s3 c)).
Proof. done. Qed.

Lemma apply_outcome_inv at_ s outs st o : targets_free outs -> o ∈ outs -> drop_inv outs st -> drop_inv outs (apply_outcome at_ s st o).
Proof.
  intros Hfree Ho Hinv. destruct st as [l drop]. unfold apply_outcome. destruct (last_index (oc_ID o) l) as [i|] eqn:Hi; [|done].
  destruct (existsb (Nat.eqb i) drop) eqn:Hdr; [done|]. assert (Hnd : i ∉ drop) by (rewrite <- existsb_eqb; congruence).
  destruct (l !! i) as [c|] eqn:Hc; [|done]. pose proof Hinv as [Hwf Hdrop]. cbn in Hwf, Hdrop.
  assert (Hrc : recall_ok c) by (destruct Hwf as [_ Hr]; rewrite Forall_forall in Hr; apply Hr; by eapply list_elem_of_lookup_2).
  assert (Hset : forall b s1 s2 s3, drop_inv outs (<[i := settle b s1 s2 s3 c]> l, drop)).
  { intros. eapply drop_inv_insert; [done|done|done|]. by eapply wf_insert. }
  destruct (oc_Kind o) eqn:Hk; try apply Hset.
  - split; [done|]. intros j [->|Hj]%elem_of_cons; [|by apply Hdrop]. exists c. split; [done|]. exists o. split; [done|].
    apply last_index_some in Hi as (c' & Hc' & <-). cbn in Hc. congruence.
  - destruct (bool_decide (oc_CanonicalID o = "") || bool_decide (oc_CanonicalID o = oc_ID o)) eqn:E; [done|].
    apply orb_false_iff in E as [_ E%bool_decide_eq_false].
    destruct (last_index (oc_CanonicalID o) l) as [j|] eqn:Hj.
    + pose proof Hj as (x & Hx & Hxid)%last_index_some.
      assert (Hjd : j ∉ drop). { intros (y & Hy & o' & Ho' & He)%Hdrop. apply (Hfree o o'); [done|done|done|congruence]. }
      destruct (existsb (Nat.eqb j) drop) eqn:Hje; [by apply existsb_eqb in Hje|]. rewrite Hx. destruct (Owns s x); [|done].
      assert (i <> j). { intros ->. apply last_index_some in Hi as (c' & Hc' & Hid). congruence. }
      split.
      * cbn. eapply wf_insert; [done|done|apply merge_alias_keeps|]. unfold mergeAliasInto, later_access. by destruct (After _ _).
      * cbn. intros n [->|Hn]%elem_of_cons.
        -- exists c. split; [by rewrite list_lookup_insert_ne|]. exists o. split; [done|]. apply last_index_some in Hi as (c' & Hc' & <-). congruence.
        -- destruct (Hdrop n Hn) as (y & Hy & ?). exists y. split; [|done]. rewrite list_lookup_insert_ne; [done|]. by intros ->.
    + eapply drop_inv_insert; [done|done|done|]. apply last_index_none in Hj. by apply wf_rename.
Qed.

Lemma remove_rows_sublist n drop l : remove_rows n drop l `sublist_of` l.
Proof. revert n. induction l as [|c l IH]; intros n; [done|]. cbn. destruct (existsb _ _); [by apply sublist_cons|by apply sublist_skip]. Qed.

Lemma outcomes_wf at_ s outs l : targets_free outs -> rows_wf l -> rows_wf (ApplySyncOutcomes outs at_ s l).
Proof.
  intros Hfree Hl. unfold ApplySyncOutcomes.
  assert (H : drop_inv outs (foldl (apply_outcome at_ s) (l, []) outs)).
  { assert (Hsub : forall os st, (forall o, o ∈ os -> o ∈ outs) -> drop_inv outs st -> drop_inv outs (foldl (apply_outcome at_ s) st os)).
    { induction os as [|o os IH]; intros st Hos Hst; [done|]. cbn. apply IH; [intros; apply Hos; by right|].
      apply apply_outcome_inv; [done|apply Hos; by left|done]. }
    apply Hsub; [done|]. split; [done|]. intros i Hi. by apply elem_of_nil in Hi. }
  destruct (foldl _ (l, []) outs) as [l' drop]. eapply wf_sublist; [apply remove_rows_sublist|apply H].
Qed.
End Steps.

(** What a device does with its notes. *)
Inductive store_step (hash : string -> string) (gate : string -> option string) : Device -> Device -> Prop :=
| step_add account now chunk d : store_step hash gate d (fst (Memory.Add hash gate account now chunk d))
| step_replace account now next ids d : store_step hash gate d (fst (ReplaceForSync hash gate account now next ids d))
| step_remove now id d : store_step hash gate d (fst (RemoveForSync now id d))
| step_prune id d : store_step hash gate d (fst (Remove id d))
| step_promote now id kind scopeID d : store_step hash gate d (fst (PromoteScope now id kind scopeID d))
| step_pin now id pinned d : store_step hash gate d (fst (SetPinned now id pinned d))
| step_access now ids at_ d : store_step hash gate d (MarkAccessed now ids at_ d)
| step_embed id vec d : store_step hash gate d (fst (SetEmbedding id vec d))
| step_fold id n at_ d : store_step hash gate d (fst (FoldRecall id n at_ d))
| step_session now id d : store_step hash gate d (fst (DeleteSessionMemory now id d))
| step_sent now ids at_ d : store_step hash gate d (fst (MarkSyncSent now ids at_ d))
| step_outcomes outs at_ s d : targets_free outs -> store_step hash gate d (with_chunks d (ApplySyncOutcomes outs at_ s (d_chunks d)))
| step_remote recs at_ s d : store_step hash gate d (with_chunks d (ApplyRemote hash gate recs at_ s (d_chunks d)))
| step_claim token account d : store_step hash gate d (with_ops (with_chunks d (ClaimPendingAccount token account (d_chunks d))) (claim_forgets token account (d_ops d)))
| step_sweep epoch s d : store_step hash gate d (with_chunks d (DeleteSyncedBefore epoch s (d_chunks d)))
| step_erase hlc epoch s d : store_step hash gate d (with_chunks d (DeleteCreatedBefore hlc epoch s (d_chunks d)))
| step_clear s d : store_step hash gate d (with_chunks d (ClearSyncMarkers s (d_chunks d)))
| step_ack ids d : store_step hash gate d (with_ops d (Ack ids (d_ops d))).

Inductive store_run (hash : string -> string) (gate : string -> option string) : Device -> Device -> Prop :=
| run_none d : store_run hash gate d d
| run_step d d' d'' : store_run hash gate d d' -> store_step hash gate d' d'' -> store_run hash gate d d''.

Lemma with_chunks_ok d l : device_ok d -> rows_wf l -> device_ok (with_chunks d l).
Proof. intros [_ Ho] Hl. by constructor. Qed.

Lemma filter_ops_ok p (ops : list ForgetOp) : NoDup (map fo_ID ops) -> NoDup (map fo_ID (List.filter p ops)).
Proof. intros H. eapply sublist_NoDup; [exact H|]. exact (fmap_sublist fo_ID _ _ (filter_sublist p ops)). Qed.

Lemma record_deletes_ok now gone d : device_ok d -> device_ok (foldl (fun d c => RecordDelete now c d) d gone).
Proof. revert d. induction gone as [|c gone IH]; intros d Hd; [done|]. apply IH. by apply record_delete_ok. Qed.

Lemma store_step_ok hash gate d d' : store_step hash gate d d' -> device_ok d -> device_ok d'.
Proof.
  intros Hs Hd. destruct Hs; cbn [fst].
  - by apply add_ok.
  - unfold ReplaceForSync. pose proof (add_ok hash gate account now next d Hd) as H. destruct (Memory.Add hash gate account now next d) as [d' [e|]]; [done|by apply remove_all_ok].
  - by apply remove_for_sync_ok.
  - by apply remove_ok.
  - unfold PromoteScope. case_bool_decide; [done|]. destruct (negb _); [done|]. apply update_row_wf; [|done]. intros k c.
    destruct (_ && _); [done|]. destruct (tick k now) as [h k']. by case_bool_decide.
  - unfold SetPinned. case_bool_decide; [done|]. apply update_row_wf; [|done]. intros k c. destruct (Bool.eqb _ _); [done|]. by destruct (tick k now).
  - unfold MarkAccessed. apply with_chunks_ok; [done|]. apply wf_map; [|by apply Hd]. intros c. by case_bool_decide.
  - unfold SetEmbedding. destruct (is_nil vec); [done|]. by apply update_row_wf.
  - unfold FoldRecall. apply update_row_wf; [|done]. intros k c. by destruct (0 <? n)%Z, (After _ _).
  - unfold DeleteSessionMemory, DeleteScope. case_bool_decide; [done|]. apply record_deletes_ok, with_chunks_ok; [done|]. apply wf_filter, Hd.
  - by apply mark_sync_sent_ok.
  - apply with_chunks_ok; [done|]. apply outcomes_wf; [done|apply Hd].
  - apply with_chunks_ok; [done|]. unfold ApplyRemote. assert (Hw : rows_wf (d_chunks d)) by apply Hd. revert Hw. generalize (d_chunks d).
    induction recs as [|r recs IH]; intros l Hl; [done|]. apply IH. by apply apply_record_wf.
  - destruct Hd as [Hr Ho]. constructor; cbn.
    + unfold ClaimPendingAccount. destruct (_ || _); [done|]. apply wf_map; [|done]. intros c. by case_bool_decide.
    + unfold claim_forgets. destruct (_ || _); [done|]. rewrite map_map. erewrite map_ext; [exact Ho|]. intros op. by case_bool_decide.
  - apply with_chunks_ok; [done|]. apply wf_filter, Hd.
  - apply with_chunks_ok; [done|]. unfold DeleteCreatedBefore. case_bool_decide; [apply Hd|apply wf_filter, Hd].
  - apply with_chunks_ok; [done|]. apply wf_map; [|apply Hd]. intros c. by destruct (Owns s c).
  - destruct Hd as [Hr Ho]. constructor; [done|]. by apply filter_ops_ok.
Qed.

(** The store stays well formed.  From a file whose rows have distinct ids, whatever the
    device and the sync do to the notes and the queue, ids stay distinct, every total is
    the sum of its counters, and no id is queued for forgetting twice, as long as no push
    answers a row both with a result of its own and as the target of a merge. *)
Theorem store_stays_well_formed hash gate file clock d' :
  NoDup (row_ids file) -> store_run hash gate {| d_chunks := load hash file; d_clock := clock; d_ops := [] |} d' -> device_ok d'.
Proof.
  intros Hn Hrun. remember {| d_chunks := load hash file; d_clock := clock; d_ops := [] |} as d eqn:Hd.
  induction Hrun as [d|d d1 d2 Hrun IH Hs]; subst; [|by eapply store_step_ok; [exact Hs|apply IH]].
  constructor; [|constructor]. constructor; cbn.
  - unfold load. rewrite map_map. erewrite map_ext; [exact Hn|]. intros c. unfold backfillChunkDefaults, default_access, default_scope.
    by destruct (IsZero _); case_bool_decide.
  - apply Forall_map, Forall_forall. intros c _. apply normalize_ok.
Qed.

(** * A small device *)

Definition plain_body (content : string) : Body :=
  {| b_SessionID := "s1"; b_SourceTurn := ""; b_Content := content; b_ContentHash := ""; b_ToolName := ""; b_FilesRead := []; b_FilesModified := [];
     b_CreatedAt := 1000; b_Source := ""; b_Kind := ""; b_RetrievalWeight := 0; b_TurnID := "" |}.

Definition note (id account kind title titleHLC : string) (synced : Z) : Chunk :=
  {| c_ID := id; c_Account := account; c_body := plain_body id; c_ProjectID := ""; c_ScopeKind := kind; c_ScopeID := ""; c_ScopeHLC := ""; c_Title := title;
     c_TitleHLC := titleHLC; c_Pinned := false; c_PinnedHLC := ""; c_CreatedHLC := ""; c_recall := recall_of 2 0 0; c_LastAccessed := 1000;
     c_Embedding := [1065353216%Z]; c_EmbedPending := false;
     c_sync := {| SyncDirty := false; SyncSentAt := 0; SyncedAt := synced; SyncBlocked := ""; SyncGen := 0 |} |}.

Definition ada : AccountScope := {| as_Account := "acme:ada"; as_LegacyOwner := "acme:ada"; as_TokenKey := "" |}.

Definition demo_notes : list Chunk :=
  [note "n1" "acme:ada" "global" "first" "0000000000000001:000000:desk" 5; note "n2" "acme:bob" "global" "second" "" 5; note "n3" "" "session" "" "" 0].

(** A record of a note, as another device left it. *)
Definition delivered (id title titleHLC : string) : RemoteRecord :=
  {| rm_ID := id; rm_Tombstone := false; rm_Reason := ""; rm_Chunk := note "" "" "global" title titleHLC 0; rm_OwnRecall := 1; rm_Aliases := [] |}.
Definition retitled : RemoteRecord := delivered "n1" "newer" "0000000000000002:000000:laptop".
Definition retitled_again : RemoteRecord := delivered "n1" "newest" "0000000000000003:000000:phone".

Definition no_hash (s : string) : string := s.
Definition no_gate (kind : string) : option string := None.

Lemma sync_keeps_other_accounts_witness :
  length (others ada demo_notes) = 1 /\
  others ada (ApplyRemote no_hash no_gate [retitled; delivered "n2" "stolen" "0000000000000009:000000:x"] 9 ada demo_notes) = others ada demo_notes /\
  others ada (DeleteSyncedBefore 9 ada demo_notes) = others ada demo_notes /\
  others ada (DeleteCreatedBefore "0000000000000009:000000:x" 9 ada demo_notes) = others ada demo_notes /\
  others ada (ClearSyncMarkers ada demo_notes) = others ada demo_notes.
Proof. split; [by vm_compute|]. apply (sync_keeps_other_accounts no_hash no_gate); by vm_compute. Defined.

Lemma store_stays_well_formed_witness :
  let d0 := {| d_chunks := load no_hash demo_notes; d_clock := Some (hlc_new "desk" ""); d_ops := [] |} in
  device_ok (fst (RemoveForSync 8 "n1" (fst (SetPinned 7 "n2" true d0)))).
Proof.
  intros d0. apply (store_stays_well_formed no_hash no_gate demo_notes (Some (hlc_new "desk" ""))).
  - apply (bool_decide_unpack _). by vm_compute.
  - eapply run_step; [eapply run_step; [apply run_none|]|].
    + exact (step_pin no_hash no_gate 7 "n2" true d0).
    + apply step_remove.
Defined.

(** An id that is gone ends a replacement with an error: the ids after it are not removed. *)
Example missing_id_stops_replacement :
  let '(d, e) := ReplaceForSync no_hash no_gate None 9 (note "n9" "acme:ada" "global" "" "" 0) ["gone"; "n1"]
                   {| d_chunks := demo_notes; d_clock := None; d_ops := [] |} in
  row_ids (d_chunks d) = ["n1"; "n2"; "n3"; "n9"] /\ e = Some (not_found "gone").
Proof. by vm_compute. Qed.
