(* ===== verification/MemoryMerge.v ===== *)
(** Merging the records Fleet delivers: a field is a register whose newest stamp wins, a
    counter a maximum, so what the rows hold does not depend on the order of the deliveries,
    nor on how often a record is delivered. *)
From S2P Require Import Prelude GoString Hlc Memory MemoryProps.
From stdpp Require Import gmap.
Local Open Scope nat_scope.

(** * Registers *)

Section Register.
Context {V : Type}.

Definition newer (v a : string * V) : string * V := if HLCAfter a.1 v.1 then a else v.

Lemma after_irrefl h : HLCAfter h h = false.
Proof. unfold HLCAfter. by rewrite bool_decide_eq_true_2 by reflexivity. Qed.

Lemma after_spec a b : HLCAfter a b = false <-> String.le a b.
Proof. unfold HLCAfter. by rewrite negb_false_iff, bool_decide_eq_true. Qed.

Lemma after_true a b : HLCAfter a b = true <-> ~ String.le a b.
Proof. unfold HLCAfter. by rewrite negb_true_iff, bool_decide_eq_false. Qed.

Lemma newer_max rs v : let w := foldl newer v rs in
  (w = v \/ w ∈ rs) /\ (forall x, x ∈ v :: rs -> String.le x.1 w.1) /\ (w = v \/ HLCAfter w.1 v.1 = true).
Proof.
  revert v. induction rs as [|r rs IH]; intros v; cbn.
  - split_and!; [by left| |by left]. intros x ->%list_elem_of_singleton. reflexivity.
  - destruct (IH (newer v r)) as (H1 & H2 & H3). set (w := foldl newer (newer v r) rs) in *.
    assert (Hv : String.le v.1 (newer v r).1 /\ String.le r.1 (newer v r).1).
    { unfold newer. destruct (HLCAfter r.1 v.1) eqn:E; split; try reflexivity.
      - apply after_true in E. destruct (total String.le v.1 r.1); [done|by destruct E].
      - by apply after_spec. }
    assert (Hw : String.le (newer v r).1 w.1) by (apply H2; by left). split_and!.
    + destruct H1 as [->|H1]; [|by right; right]. unfold newer. destruct (HLCAfter r.1 v.1); [by right; left|by left].
    + intros x [->|[->|Hx]%elem_of_cons]%elem_of_cons; [etransitivity; [apply Hv|done]..|]. apply H2. by right.
    + unfold newer in H3. destruct (HLCAfter r.1 v.1) eqn:E; [|done]. right. destruct H3 as [->|H3]; [done|].
      apply after_true. intros Hle. apply after_true in E. apply E. etransitivity; [apply Hv|]. by etransitivity.
Qed.

(** The same writes, in any order and number, with one value to a stamp. *)
Lemma newer_same rs rs' v : (forall x, x ∈ rs <-> x ∈ rs') -> (forall x y, x ∈ rs -> y ∈ rs -> x.1 = y.1 -> x = y) ->
  foldl newer v rs = foldl newer v rs'.
Proof.
  intros Hset Hval. destruct (newer_max rs v) as (H1 & H2 & H3), (newer_max rs' v) as (K1 & K2 & K3).
  set (w := foldl newer v rs) in *. set (w' := foldl newer v rs') in *.
  assert (Hw : String.le w.1 w'.1) by (apply K2; destruct H1 as [->|H1]; [by left|right; by apply Hset]).
  assert (Hw' : String.le w'.1 w.1) by (apply H2; destruct K1 as [->|K1]; [by left|right; by apply Hset]).
  assert (He : w.1 = w'.1) by by apply (anti_symm String.le).
  destruct H3 as [H3|H3], K3 as [K3|K3]; [congruence|..].
  - exfalso. rewrite <- He, H3 in K3. by rewrite after_irrefl in K3.
  - exfalso. rewrite He, K3 in H3. by rewrite after_irrefl in H3.
  - apply Hval; [| |done].
    + destruct H1 as [H1|]; [|done]. rewrite H1 in H3. by rewrite after_irrefl in H3.
    + apply Hset. destruct K1 as [K1|]; [|done]. rewrite K1 in K3. by rewrite after_irrefl in K3.
Qed.
End Register.

Lemma max_bound rs v : let w := foldl Z.max v rs in (w = v \/ w ∈ rs) /\ forall x, x ∈ v :: rs -> (x <= w)%Z.
Proof.
  revert v. induction rs as [|r rs IH]; intros v; cbn.
  - split; [by left|]. intros x ->%list_elem_of_singleton. lia.
  - destruct (IH (Z.max v r)) as (H1 & H2). split.
    + destruct H1 as [->|H1]; [|by right; right]. destruct (Z.max_spec v r) as [[_ ->]|[_ ->]]; [by right; left|by left].
    + assert (Z.max v r <= foldl Z.max (Z.max v r) rs)%Z by (apply H2; by left).
      intros x [->|[->|Hx]%elem_of_cons]%elem_of_cons; [lia..|]. apply H2. by right.
Qed.

Lemma max_same rs rs' v : (forall x, x ∈ rs <-> x ∈ rs') -> foldl Z.max v rs = foldl Z.max v rs'.
Proof.
  intros Hset. destruct (max_bound rs v) as [H1 H2], (max_bound rs' v) as [K1 K2].
  assert (foldl Z.max v rs <= foldl Z.max v rs')%Z by (apply K2; destruct H1 as [->|H1]; [by left|right; by apply Hset]).
  assert (foldl Z.max v rs' <= foldl Z.max v rs)%Z by (apply H2; destruct K1 as [->|K1]; [by left|right; by apply Hset]). lia.
Qed.

(** * The fields of a row *)

Definition title_of (c : Chunk) : string * string := (c_TitleHLC c, c_Title c).
Definition pinned_of (c : Chunk) : string * bool := (c_PinnedHLC c, c_Pinned c).
Definition scope_of (c : Chunk) : string * (string * string) := (c_ScopeHLC c, (c_ScopeKind c, c_ScopeID c)).

Definition title_in (r : RemoteRecord) : string * string := title_of (rm_Chunk r).
Definition pinned_in (r : RemoteRecord) : string * bool := pinned_of (rm_Chunk r).
Definition scope_in (r : RemoteRecord) : string * (string * string) := (c_ScopeHLC (rm_Chunk r), (c_ScopeKind (rm_Chunk r), "")).
Definition access_in (r : RemoteRecord) : Z := c_LastAccessed (rm_Chunk r).

(** What the sync merges of a row. *)
Record merged := { md_title : string * string; md_pinned : string * bool; md_scope : string * (string * string); md_own : Z; md_access : Z }.

Definition merged_of (c : Chunk) : merged :=
  {| md_title := title_of c; md_pinned := pinned_of c; md_scope := scope_of c; md_own := RecallOwn (c_recall c); md_access := c_LastAccessed c |}.

Definition merge_in (m : merged) (r : RemoteRecord) : merged :=
  {| md_title := newer (md_title m) (title_in r); md_pinned := newer (md_pinned m) (pinned_in r); md_scope := newer (md_scope m) (scope_in r);
     md_own := Z.max (md_own m) (rm_OwnRecall r); md_access := Z.max (md_access m) (access_in r) |}.

Lemma lww_title_merged t h c : merged_of (lww_title t h c) =
  let m := merged_of c in {| md_title := newer (md_title m) (h, t); md_pinned := md_pinned m; md_scope := md_scope m; md_own := md_own m; md_access := md_access m |}.
Proof. unfold merged_of, lww_title, newer. cbn. by destruct (HLCAfter _ _). Qed.

Lemma lww_pinned_merged p h c : merged_of (lww_pinned p h c) =
  let m := merged_of c in {| md_title := md_title m; md_pinned := newer (md_pinned m) (h, p); md_scope := md_scope m; md_own := md_own m; md_access := md_access m |}.
Proof. unfold merged_of, lww_pinned, newer. cbn. by destruct (HLCAfter _ _). Qed.

Lemma lww_scope_merged k i h c : merged_of (lww_scope k i h c) =
  let m := merged_of c in {| md_title := md_title m; md_pinned := md_pinned m; md_scope := newer (md_scope m) (h, (k, i)); md_own := md_own m; md_access := md_access m |}.
Proof. unfold merged_of, lww_scope, newer. cbn. by destruct (HLCAfter _ _). Qed.

Lemma later_access_merged t c : merged_of (later_access t c) =
  let m := merged_of c in {| md_title := md_title m; md_pinned := md_pinned m; md_scope := md_scope m; md_own := md_own m; md_access := Z.max (md_access m) t |}.
Proof. unfold merged_of, later_access, After. destruct (Z.ltb_spec (c_LastAccessed c) t); cbn; f_equal; lia. Qed.

Lemma with_recall_merged c n o f : merged_of (with_recall c (recall_of (Z.max (RecallOwn (c_recall c)) n) o f)) =
  let m := merged_of c in {| md_title := md_title m; md_pinned := md_pinned m; md_scope := md_scope m; md_own := Z.max (md_own m) n; md_access := md_access m |}.
Proof. done. Qed.

Lemma merge_fields at_ r c : merged_of (merge_remote at_ r c) = merge_in (merged_of c) r.
Proof.
  unfold merge_remote. set (c3 := lww_scope _ _ _ _). set (c4 := if (_ <? _)%Z then touchLocked c3 else c3).
  assert (H4 : merged_of c4 = merged_of c3) by (unfold c4; by destruct (_ <? _)%Z).
  change (merged_of (with_marks ?x ?y ?z)) with (merged_of x). rewrite later_access_merged, with_recall_merged, H4.
  unfold c3. by rewrite lww_scope_merged, lww_pinned_merged, lww_title_merged.
Qed.

Lemma merged_fold at_ rs c : merged_of (foldl (fun c r => merge_remote at_ r c) c rs) = foldl merge_in (merged_of c) rs.
Proof. revert c. induction rs as [|r rs IH]; intros c; [done|]. cbn. by rewrite IH, merge_fields. Qed.

Lemma merge_in_fold rs m : foldl merge_in m rs =
  {| md_title := foldl newer (md_title m) (map title_in rs); md_pinned := foldl newer (md_pinned m) (map pinned_in rs);
     md_scope := foldl newer (md_scope m) (map scope_in rs); md_own := foldl Z.max (md_own m) (map rm_OwnRecall rs);
     md_access := foldl Z.max (md_access m) (map access_in rs) |}.
Proof. revert m. induction rs as [|r rs IH]; intros m; [by destruct m|]. cbn. by rewrite IH. Qed.

(** * Deliveries *)

(** A record that is no tombstone and names no alias. *)
Definition plain (r : RemoteRecord) : Prop := rm_Tombstone r = false /\ rm_Aliases r = [].

(** The records that reach a row. *)
Definition for_row (gate : string -> option string) (id : string) (recs : list RemoteRecord) : list RemoteRecord :=
  List.filter (fun r => gate_allows gate r && bool_decide (rm_ID r = id)) recs.

Lemma record_row hash gate at_ s l r i c : rows_wf l -> l !! i = Some c -> Owns s c = true -> plain r ->
  apply_record hash gate at_ s l r !! i = Some (if gate_allows gate r && bool_decide (rm_ID r = c_ID c) then merge_remote at_ r c else c).
Proof.
  intros Hl Hi Ho [Ht Ha]. unfold apply_record. rewrite Ht. destruct (gate_allows gate r); [|done]. cbn. unfold apply_live. rewrite Ha. cbn.
  case_bool_decide as Hid.
  - rewrite (last_index_unique (rm_ID r) l i c) by (done || apply Hl). rewrite Hi, Ho. apply list_lookup_insert_eq. by eapply lookup_lt_Some.
  - destruct (last_index (rm_ID r) l) as [j|] eqn:Hj; [|rewrite lookup_app_l; [done|by eapply lookup_lt_Some]].
    apply last_index_some in Hj as (x & Hx & Hxid). rewrite Hx. destruct (Owns s x); [|done]. rewrite list_lookup_insert_ne; [done|]. congruence.
Qed.

Lemma deliver_row hash gate at_ s recs l i c : rows_wf l -> l !! i = Some c -> Owns s c = true -> Forall plain recs ->
  ApplyRemote hash gate recs at_ s l !! i = Some (foldl (fun c r => merge_remote at_ r c) c (for_row gate (c_ID c) recs)).
Proof.
  intros Hl Hi Ho Hp. revert l c Hl Hi Ho. induction Hp as [|r recs Hr Hp IH]; intros l c Hl Hi Ho; [done|].
  change (ApplyRemote hash gate (r :: recs) at_ s l) with (ApplyRemote hash gate recs at_ s (apply_record hash gate at_ s l r)).
  pose proof (record_row hash gate at_ s l r i c Hl Hi Ho Hr) as Hrow. cbn. destruct (_ && _) eqn:E.
  - rewrite (IH _ _ (apply_record_wf hash gate at_ s l r Hl) Hrow).
    + by rewrite (proj2 (merge_remote_keeps at_ r c)).
    + unfold Owns in *. by rewrite (proj1 (merge_remote_keeps at_ r c)).
  - by apply IH; [apply apply_record_wf| |].
Qed.

(** One value to a stamp, among the records of an id. *)
Definition stamps_agree (recs : list RemoteRecord) : Prop := forall r r', r ∈ recs -> r' ∈ recs -> rm_ID r = rm_ID r' ->
  ((title_in r).1 = (title_in r').1 -> title_in r = title_in r') /\ ((pinned_in r).1 = (pinned_in r').1 -> pinned_in r = pinned_in r') /\
  ((scope_in r).1 = (scope_in r').1 -> scope_in r = scope_in r').

Lemma map_same {A B} (f : A -> B) l l' : (forall x, x ∈ l <-> x ∈ l') -> forall y, y ∈ map f l <-> y ∈ map f l'.
Proof. intros H y. rewrite !list_elem_of_fmap. naive_solver. Qed.

(** C37: Deliveries of plain records commute.  Let two devices, or one twice, hold the same row
    and be delivered the same live records that name no alias, in which, for an id, a stamp
    of the title, the pin or the scope comes with one value.  In any order, any number of
    times and at any times, they end with the same title, pin, scope, own recalls and last
    access of that row.  Records that name aliases do not commute
    ([aliases_do_not_commute]). *)
Theorem deliveries_commute hash gate s recs recs' at_ at' l i c :
  rows_wf l -> l !! i = Some c -> Owns s c = true -> Forall plain recs -> Forall plain recs' ->
  (forall r, r ∈ recs <-> r ∈ recs') -> stamps_agree recs ->
  exists x x', ApplyRemote hash gate recs at_ s l !! i = Some x /\ ApplyRemote hash gate recs' at' s l !! i = Some x' /\
    merged_of x = merged_of x'.
Proof.
  intros Hl Hi Ho Hp Hp' Hset Hagree.
  assert (Hrow : forall r, r ∈ for_row gate (c_ID c) recs <-> r ∈ for_row gate (c_ID c) recs').
  { intros r. unfold for_row. rewrite !elem_of_filter_bool. by rewrite Hset. }
  assert (Hin : forall r, r ∈ for_row gate (c_ID c) recs -> r ∈ recs /\ rm_ID r = c_ID c).
  { intros r [Hr [_ He%bool_decide_eq_true]%andb_true_iff]%elem_of_filter_bool. done. }
  eexists _, _. split; [by apply deliver_row|]. split; [by apply deliver_row|].
  rewrite !merged_fold, !merge_in_fold. f_equal; [apply newer_same..|apply max_same|apply max_same]; try by apply map_same.
  all: intros x y (r & -> & [Hr He]%Hin)%list_elem_of_fmap (r' & -> & [Hr' He']%Hin)%list_elem_of_fmap;
    apply (Hagree r r' Hr Hr'); congruence.
Qed.

Lemma demo_wf : rows_wf demo_notes.
Proof. constructor; [apply (bool_decide_unpack _); by vm_compute|]. repeat constructor. Qed.

Lemma deliveries_commute_witness :
  exists x x', ApplyRemote no_hash no_gate [retitled; retitled_again; retitled] 9 ada demo_notes !! 0 = Some x /\
    ApplyRemote no_hash no_gate [retitled_again; retitled] 12 ada demo_notes !! 0 = Some x' /\ merged_of x = merged_of x'.
Proof.
  apply (deliveries_commute no_hash no_gate ada [retitled; retitled_again; retitled] [retitled_again; retitled] 9 12 demo_notes 0
           (note "n1" "acme:ada" "global" "first" "0000000000000001:000000:desk" 5)).
  - apply demo_wf.
  - done.
  - by vm_compute.
  - by repeat constructor.
  - by repeat constructor.
  - intros r. rewrite !elem_of_cons. tauto.
  - intros r r' Hr Hr' _. rewrite !elem_of_cons in Hr, Hr'.
    destruct Hr as [->|[->|[->|Hr]]]; [..|by apply elem_of_nil in Hr]; (destruct Hr' as [->|[->|[->|Hr']]]; [..|by apply elem_of_nil in Hr']); done.
Defined.

Example newest_title_wins :
  (fun c => title_of c) <$> ApplyRemote no_hash no_gate [retitled_again; retitled] 9 ada demo_notes !! 0
  = Some ("0000000000000003:000000:phone", "newest").
Proof. by vm_compute. Qed.

(** A record with the newest title of n4, and one of n1 that names n4 as an alias: folded
    into n1 after the retitling, n4 passes its title on; folded before, the retitled record
    comes to a row of its own. *)
Definition far_note : RemoteRecord := delivered "n4" "newest" "0000000000000003:000000:phone".
Definition merged_note : RemoteRecord :=
  {| rm_ID := rm_ID retitled; rm_Tombstone := false; rm_Reason := ""; rm_Chunk := rm_Chunk retitled; rm_OwnRecall := 1; rm_Aliases := ["n4"] |}.

Example aliases_do_not_commute :
  map c_Title (ApplyRemote no_hash no_gate [far_note; merged_note] 9 ada demo_notes) = ["newest"; "second"; ""] /\
  map c_Title (ApplyRemote no_hash no_gate [merged_note; far_note] 9 ada demo_notes) = ["newer"; "second"; ""; "newest"].
Proof. split; by vm_compute. Qed.
