(* ===== verification/MemorySync.v ===== *)
(** The memory sync lane (core/fleet/memory_sync.go, memory_sync_account.go): pulling pages
    and resets, choosing and building what is pushed, applying the results of a push, and
    whose state the lane acts on.  A Fleet answer is decoded; each answer comes with the
    time at which it is handled.  The state file is always written. *)
From S2P Require Import Prelude GoString Hlc Memory.
From stdpp Require Import gmap.
Local Open Scope nat_scope.

Definition memoryPushMaxItems : nat := 100.
Definition memoryPushBudget : Z := 1572864.
Definition memoryPullPagesPerCycle : nat := 40.
Definition memoryMaxFiles : nat := 64.
Definition memoryMaxFileBytes : nat := 1024.
Definition memoryMaxResetRestarts : Z := 5.

(** * The lane's state *)

Record memSyncAccountState := {
  sa_Enabled : bool; sa_Scopes : list string; sa_ConsentVersion : string; sa_Cursor : string; sa_ResetPending : string;
  sa_ErasedBefore : string; sa_ResetEpoch : Z; sa_ResetCursor : string; sa_ResetRestarts : Z; sa_DisablePending : bool; sa_ForgetAllPending : bool
}.

Definition fresh_account : memSyncAccountState :=
  {| sa_Enabled := false; sa_Scopes := []; sa_ConsentVersion := ""; sa_Cursor := ""; sa_ResetPending := ""; sa_ErasedBefore := "";
     sa_ResetEpoch := 0; sa_ResetCursor := ""; sa_ResetRestarts := 0; sa_DisablePending := false; sa_ForgetAllPending := false |}.

Record memSyncState := {
  ss_Account : string; ss_LegacyOwner : string; ss_OlderNotesAck : bool; ss_InheritedErase : bool; ss_InheritedOptOut : bool;
  ss_Parked : gmap string memSyncAccountState; ss_acct : memSyncAccountState
}.

Definition with_acct (st : memSyncState) (a : memSyncAccountState) : memSyncState :=
  {| ss_Account := ss_Account st; ss_LegacyOwner := ss_LegacyOwner st; ss_OlderNotesAck := ss_OlderNotesAck st;
     ss_InheritedErase := ss_InheritedErase st; ss_InheritedOptOut := ss_InheritedOptOut st; ss_Parked := ss_Parked st; ss_acct := a |}.

(** The device, the state, the token last confirmed, the chunks refused at a generation,
    and Fleet's cached settings. *)
Record MemorySyncSettings := { set_Enabled : bool; set_Scopes : list string }.
Record MemorySync := {
  ms_dev : Device; ms_st : memSyncState; ms_tokenKey : string; ms_skipped : gmap string Z; ms_settings : option MemorySyncSettings
}.

Definition with_dev (m : MemorySync) (d : Device) : MemorySync :=
  {| ms_dev := d; ms_st := ms_st m; ms_tokenKey := ms_tokenKey m; ms_skipped := ms_skipped m; ms_settings := ms_settings m |}.
Definition with_state (m : MemorySync) (st : memSyncState) : MemorySync :=
  {| ms_dev := ms_dev m; ms_st := st; ms_tokenKey := ms_tokenKey m; ms_skipped := ms_skipped m; ms_settings := ms_settings m |}.
Definition with_skipped (m : MemorySync) (s : gmap string Z) : MemorySync :=
  {| ms_dev := ms_dev m; ms_st := ms_st m; ms_tokenKey := ms_tokenKey m; ms_skipped := s; ms_settings := ms_settings m |}.
Definition invalidateSettings (m : MemorySync) : MemorySync :=
  {| ms_dev := ms_dev m; ms_st := ms_st m; ms_tokenKey := ms_tokenKey m; ms_skipped := ms_skipped m; ms_settings := None |}.
Definition with_account_state (m : MemorySync) (a : memSyncAccountState) : MemorySync := with_state m (with_acct (ms_st m) a).
Definition acct (m : MemorySync) : memSyncAccountState := ss_acct (ms_st m).

Definition scope (m : MemorySync) : AccountScope :=
  {| as_Account := ss_Account (ms_st m); as_LegacyOwner := ss_LegacyOwner (ms_st m); as_TokenKey := ms_tokenKey m |}.

Inductive SyncErr :=
| ErrNoAccount | ErrDisabledOnFleet | ErrResetChurn | ErrInvalidBaseCursor | ErrResyncRequired | ErrRetry (code : string)
| ErrClockInFuture (ahead : Z) | ErrHTTP (status : Z) (code : string) | ErrTransport (err : string) | ErrOther (err : string).

(** Fleet's 400 invalid_cursor. *)
Definition isInvalidCursor (e : SyncErr) : bool :=
  match e with ErrHTTP status code => (status =? 400)%Z && bool_decide (code = "invalid_cursor") | _ => false end.

Definition orDefault (s def : string) : string := if bool_decide (s = "") then def else s.

(** * Whose state it is *)

(** The identity, when it was enrolled with the current token: its key and the token's. *)
Definition Identity : Type := option (string * string).

Definition AccountKey (org user : string) : string :=
  if bool_decide (org = "") || bool_decide (user = "") then "" else org +:+ ":" +:+ user.

Definition recordAccount (id : Identity) (m : MemorySync) : MemorySync * result AccountScope SyncErr :=
  match id with
  | None => (m, Err ErrNoAccount)
  | Some (key, tokenKey) =>
      let st := ms_st m in
      if bool_decide (ss_Account st = key)
      then let m := {| ms_dev := ms_dev m; ms_st := st; ms_tokenKey := tokenKey; ms_skipped := ms_skipped m; ms_settings := ms_settings m |} in
           (m, Ok (scope m))
      else
        let st :=
          if bool_decide (ss_Account st = "")
          then
            let a := ss_acct st in
            {| ss_Account := key; ss_LegacyOwner := key; ss_OlderNotesAck := ss_OlderNotesAck st;
               ss_InheritedErase := sa_ForgetAllPending a; ss_InheritedOptOut := sa_DisablePending a; ss_Parked := ss_Parked st;
               ss_acct := {| sa_Enabled := sa_Enabled a; sa_Scopes := sa_Scopes a; sa_ConsentVersion := sa_ConsentVersion a;
                             sa_Cursor := sa_Cursor a; sa_ResetPending := sa_ResetPending a; sa_ErasedBefore := sa_ErasedBefore a;
                             sa_ResetEpoch := sa_ResetEpoch a; sa_ResetCursor := sa_ResetCursor a; sa_ResetRestarts := sa_ResetRestarts a;
                             sa_DisablePending := sa_DisablePending a; sa_ForgetAllPending := false |} |}
          else
            let parked := <[ss_Account st := ss_acct st]> (ss_Parked st) in
            {| ss_Account := key; ss_LegacyOwner := ss_LegacyOwner st; ss_OlderNotesAck := ss_OlderNotesAck st;
               ss_InheritedErase := ss_InheritedErase st; ss_InheritedOptOut := ss_InheritedOptOut st;
               ss_Parked := delete key parked; ss_acct := default fresh_account (parked !! key) |} in
        let m := {| ms_dev := ms_dev m; ms_st := st; ms_tokenKey := tokenKey; ms_skipped := ∅; ms_settings := None |} in
        (m, Ok (scope m))
  end.

Definition ensureAccount (id : Identity) (m : MemorySync) : MemorySync * result AccountScope SyncErr :=
  match recordAccount id m with
  | (m, Err e) => (m, Err e)
  | (m, Ok s) =>
      let d := ms_dev m in
      (with_dev m {| d_chunks := ClaimPendingAccount (as_TokenKey s) (as_Account s) (d_chunks d); d_clock := d_clock d;
                     d_ops := claim_forgets (as_TokenKey s) (as_Account s) (d_ops d) |}, Ok s)
  end.

(** * Pulling *)

Record memPullRecord := {
  pr_ID : string; pr_State : string; pr_Reason : string; pr_Body : Body; pr_Title : string; pr_TitleHLC : string;
  pr_Pinned : bool; pr_PinnedHLC : string; pr_ScopeKind : string; pr_ScopeHLC : string; pr_RecallCount : Z;
  pr_RecallCountOthers : Z; pr_LastAccessed : Z; pr_Aliases : list string
}.

Record memPullResponse := {
  pl_Enabled : bool; pl_Reset : bool; pl_ResetReason : string; pl_ErasedBefore : string; pl_Records : list memPullRecord;
  pl_Cursor : string; pl_HasMore : bool
}.

(** The record's chunk; its body names no session. *)
Definition remoteChunk (r : memPullRecord) : Chunk :=
  {| c_ID := ""; c_Account := ""; c_body := pr_Body r; c_ProjectID := ""; c_ScopeKind := pr_ScopeKind r; c_ScopeID := "";
     c_ScopeHLC := pr_ScopeHLC r; c_Title := pr_Title r; c_TitleHLC := pr_TitleHLC r; c_Pinned := pr_Pinned r;
     c_PinnedHLC := pr_PinnedHLC r; c_CreatedHLC := "";
     c_recall := {| RecallCount := 0; RecallOwn := 0; RecallOthers := pr_RecallCountOthers r; RecallFolded := 0 |};
     c_LastAccessed := pr_LastAccessed r; c_Embedding := []; c_EmbedPending := false; c_sync := no_marks |}.

Definition observe (now : Z) (k : option HLC) (remote : string) : option HLC := (fun h => fst (Observe h remote (unix_ms now) None)) <$> k.

Definition observe_record (now : Z) (k : option HLC) (r : memPullRecord) : option HLC :=
  foldl (observe now) k [pr_TitleHLC r; pr_PinnedHLC r; pr_ScopeHLC r].

Definition is_tombstone (r : memPullRecord) : bool := bool_decide (pr_State r = "tombstone").

(** What a record of the page becomes, given the queued forgets: nothing when it left the
    sync's scopes or was deleted here. *)
Definition remote_record (ops : list ForgetOp) (r : memPullRecord) : option RemoteRecord :=
  if is_tombstone r
  then Some {| rm_ID := pr_ID r; rm_Tombstone := true; rm_Reason := pr_Reason r; rm_Chunk := remoteChunk r; rm_OwnRecall := 0; rm_Aliases := [] |}
  else if negb (IsSyncScope (pr_ScopeKind r)) then None
  else if Has (pr_ID r) ops then None
  else Some {| rm_ID := pr_ID r; rm_Tombstone := false; rm_Reason := ""; rm_Chunk := remoteChunk r;
               rm_OwnRecall := Z.max (int64 (pr_RecallCount r - pr_RecallCountOthers r)) 0; rm_Aliases := pr_Aliases r |}.

(** The queued forget the record answers. *)
Definition acked (ops : list ForgetOp) (r : memPullRecord) : bool :=
  is_tombstone r && bool_decide (pr_Reason r = TombstoneForgotten) && Has (pr_ID r) ops.

Section Lane.
Variable HashContent : string -> string.
Variable gate : string -> option string.

Definition applyPage (now : Z) (recs : list memPullRecord) (at_ : Z) (scope : AccountScope) (d : Device) : Device * nat :=
  let k := foldl (observe_record now) (d_clock d) recs in
  let out := omap (remote_record (d_ops d)) recs in
  let acks := map pr_ID (List.filter (acked (d_ops d)) recs) in
  ({| d_chunks := ApplyRemote HashContent gate out at_ scope (d_chunks d); d_clock := k;
      d_ops := match acks with [] => d_ops d | _ => Ack acks (d_ops d) end |}, length out).

Definition beginReset (now : Z) (reason erasedBefore : string) (m : MemorySync) : MemorySync :=
  let last := LatestSyncedAt (d_chunks (ms_dev m)) in
  let epoch := if negb (last <? now)%Z then (last + 1000)%Z else now in
  let a := acct m in
  let keep := bool_decide (sa_ResetPending a = "erased") && negb (bool_decide (reason = "erased")) in
  with_account_state m
    {| sa_Enabled := sa_Enabled a; sa_Scopes := sa_Scopes a; sa_ConsentVersion := sa_ConsentVersion a; sa_Cursor := "";
       sa_ResetPending := if keep then "erased" else reason;
       sa_ErasedBefore := if keep then sa_ErasedBefore a else if bool_decide (erasedBefore = "") then sa_ErasedBefore a else erasedBefore;
       sa_ResetEpoch := epoch; sa_ResetCursor := "";
       sa_ResetRestarts := if bool_decide (sa_ResetPending a = "") then sa_ResetRestarts a else int64 (sa_ResetRestarts a + 1);
       sa_DisablePending := sa_DisablePending a; sa_ForgetAllPending := sa_ForgetAllPending a |}.

Definition sweep (a : memSyncAccountState) (s : AccountScope) (l : list Chunk) : list Chunk :=
  let l := DeleteSyncedBefore (sa_ResetEpoch a) s l in
  if bool_decide (sa_ResetPending a = "erased") && negb (bool_decide (sa_ErasedBefore a = ""))
  then DeleteCreatedBefore (sa_ErasedBefore a) (sa_ResetEpoch a) s l else l.

Definition finishReset (cursor : string) (m : MemorySync) : MemorySync :=
  let a := acct m in
  let m := with_dev m (with_chunks (ms_dev m) (sweep a (scope m) (d_chunks (ms_dev m)))) in
  with_account_state m
    {| sa_Enabled := sa_Enabled a; sa_Scopes := sa_Scopes a; sa_ConsentVersion := sa_ConsentVersion a; sa_Cursor := cursor;
       sa_ResetPending := ""; sa_ErasedBefore := ""; sa_ResetEpoch := 0; sa_ResetCursor := ""; sa_ResetRestarts := 0;
       sa_DisablePending := sa_DisablePending a; sa_ForgetAllPending := sa_ForgetAllPending a |}.

Definition set_cursor (resetting : bool) (cursor : string) (a : memSyncAccountState) : memSyncAccountState :=
  {| sa_Enabled := sa_Enabled a; sa_Scopes := sa_Scopes a; sa_ConsentVersion := sa_ConsentVersion a;
     sa_Cursor := if resetting then sa_Cursor a else cursor; sa_ResetPending := sa_ResetPending a; sa_ErasedBefore := sa_ErasedBefore a;
     sa_ResetEpoch := sa_ResetEpoch a; sa_ResetCursor := if resetting then cursor else sa_ResetCursor a;
     sa_ResetRestarts := sa_ResetRestarts a; sa_DisablePending := sa_DisablePending a; sa_ForgetAllPending := sa_ForgetAllPending a |}.

(** What a refused cursor is taken for. *)
Definition cursor_expired : memPullResponse :=
  {| pl_Enabled := true; pl_Reset := true; pl_ResetReason := "cursor_expired"; pl_ErasedBefore := ""; pl_Records := []; pl_Cursor := ""; pl_HasMore := false |}.

(** One page per answer, at most [pages] of them: whether a record was applied, and whether
    the pull is caught up. *)
Fixpoint pull_pages (pages : nat) (answers : list (Z * result memPullResponse SyncErr)) (resetting : bool) (applied : bool) (m : MemorySync) :
    MemorySync * bool * result bool SyncErr :=
  match pages with
  | 0 => (m, applied, Ok false)
  | S pages =>
      match answers with
      | [] => (m, applied, Err (ErrTransport "no answer"))
      | (now, answer) :: answers =>
          let answer := match answer with Err e => if isInvalidCursor e then Ok cursor_expired else Err e | Ok r => Ok r end in
          match answer with
          | Err e => (m, applied, Err e)
          | Ok resp =>
              if negb (pl_Enabled resp) then (m, applied, Err ErrDisabledOnFleet)
              else if pl_Reset resp then
                let m := beginReset now (orDefault (pl_ResetReason resp) "cursor_expired") (pl_ErasedBefore resp) m in
                if (memoryMaxResetRestarts <? sa_ResetRestarts (acct m))%Z then (m, applied, Err ErrResetChurn)
                else pull_pages pages answers true applied m
              else
                let at_ := if resetting && (now <? sa_ResetEpoch (acct m))%Z then sa_ResetEpoch (acct m) else now in
                let '(d, n) := applyPage now (pl_Records resp) at_ (scope m) (ms_dev m) in
                let m := with_dev m d in
                let applied := applied || (0 <? n) in
                let m := with_account_state m (set_cursor resetting (pl_Cursor resp) (acct m)) in
                if pl_HasMore resp then pull_pages pages answers resetting applied m
                else ((if resetting then finishReset (pl_Cursor resp) m else m), applied, Ok true)
          end
      end
  end.

Definition pull (answers : list (Z * result memPullResponse SyncErr)) (m : MemorySync) : MemorySync * bool * result bool SyncErr :=
  pull_pages memoryPullPagesPerCycle answers (negb (bool_decide (sa_ResetPending (acct m) = ""))) false m.

(** * Pushing *)

Definition enabledScopes (set : MemorySyncSettings) : list string := List.filter IsSyncScope (set_Scopes set).

Definition olderNoteToUpload (c : Chunk) : bool := AccountUnstamped c && IsSyncScope (c_ScopeKind c) && IsZero (SyncedAt (c_sync c)).
Definition mayPush (c : Chunk) (s : AccountScope) (olderOK : bool) : bool := Owns s c && (olderOK || negb (olderNoteToUpload c)).

Definition pushCandidate (c : Chunk) (scopes : list string) : bool :=
  let m := c_sync c in
  if IsSyncScope (c_ScopeKind c)
  then bool_decide (SyncBlocked m = "") && bool_decide (c_ScopeKind c ∈ scopes) && (SyncDirty m || IsZero (SyncedAt m))
  else SyncDirty m && FleetMayKnow c.

Definition wireScope (kind : string) : string := if bool_decide (kind = ScopeKindProject) then ScopeKindSession else kind.

(** An item: a forget, or an upsert with its fields.  [up_Fields] are title, pinned and
    scope with their stamps; the body is absent from a demotion, the content from a record
    Fleet holds. *)
Record Fields := { fl_scope : string * string; fl_title : option (string * string); fl_pinned : option (bool * string) }.
Record memPushItem := {
  it_Forget : bool; it_ID : string; it_HLC : string; it_Fields : option Fields; it_Body : option Body; it_Content : option string;
  it_RecallOwn : option Z; it_LastAccessed : Z
}.
Record pushEntry := { pe_item : memPushItem; pe_gen : Z; pe_forget : bool; pe_demote : bool }.

(** [HomeDir], with its trailing separators removed, hides behind a tilde. *)
Variable home : string.
Definition hygiene (f : string) : string :=
  if negb (bool_decide (home = "")) && (bool_decide (f = home) || HasPrefix f (home +:+ "/"))
  then "~" +:+ of_list (drop (String.length home) (list_of f)) else f.
Definition normFiles (files : list string) : list string :=
  take memoryMaxFiles (List.filter (fun f => negb (memoryMaxFileBytes <? String.length f)) (map hygiene files)).

Definition push_body (c : Chunk) : Body :=
  let b := c_body c in
  {| b_SessionID := ""; b_SourceTurn := b_SourceTurn b; b_Content := "";
     b_ContentHash := if bool_decide (b_ContentHash b = "") then HashContent (b_Content b) else b_ContentHash b;
     b_ToolName := b_ToolName b; b_FilesRead := normFiles (b_FilesRead b); b_FilesModified := normFiles (b_FilesModified b);
     b_CreatedAt := b_CreatedAt b; b_Source := b_Source b; b_Kind := orDefault (b_Kind b) "raw";
     b_RetrievalWeight := if ((0 <? b_RetrievalWeight b) && (b_RetrievalWeight b <=? 1092616192))%Z then b_RetrievalWeight b else weight_one;
     b_TurnID := b_TurnID b |}.

Definition buildItem (c : Chunk) : memPushItem * bool :=
  let scope_field := (wireScope (c_ScopeKind c), c_ScopeHLC c) in
  if negb (IsSyncScope (c_ScopeKind c))
  then ({| it_Forget := false; it_ID := c_ID c; it_HLC := ""; it_Fields := Some {| fl_scope := scope_field; fl_title := None; fl_pinned := None |};
           it_Body := None; it_Content := None; it_RecallOwn := None; it_LastAccessed := 0 |}, true)
  else
    ({| it_Forget := false; it_ID := c_ID c; it_HLC := "";
        it_Fields := Some {| fl_scope := scope_field;
                             fl_title := if bool_decide (c_TitleHLC c = "") then None else Some (c_Title c, c_TitleHLC c);
                             fl_pinned := if bool_decide (c_PinnedHLC c = "") then None else Some (c_Pinned c, c_PinnedHLC c) |};
        it_Body := Some (push_body c);
        it_Content := if IsZero (SyncedAt (c_sync c)) then Some (b_Content (c_body c)) else None;
        it_RecallOwn := Some (RecallOwn (c_recall c)); it_LastAccessed := c_LastAccessed c |}, false).

Definition forget_entry (f : ForgetOp) : pushEntry :=
  {| pe_item := {| it_Forget := true; it_ID := fo_ID f; it_HLC := fo_HLC f; it_Fields := None; it_Body := None; it_Content := None;
                   it_RecallOwn := None; it_LastAccessed := 0 |}; pe_gen := 0; pe_forget := true; pe_demote := false |}.

Definition upsert_entry (c : Chunk) : pushEntry :=
  let '(item, demote) := buildItem c in {| pe_item := item; pe_gen := SyncGen (c_sync c); pe_forget := false; pe_demote := demote |}.

(** The loop over the listed rows: those to push, and the refusals still standing. *)
Definition select_row (s : AccountScope) (olderOK : bool) (scopes : list string) (st : list string * gmap string Z) (c : Chunk) : list string * gmap string Z :=
  let '(ids, skipped) := st in
  if negb (mayPush c s olderOK) then st
  else if bool_decide (skipped !! c_ID c = Some (SyncGen (c_sync c))) then st
  else ((if pushCandidate c scopes then ids ++ [c_ID c] else ids), delete (c_ID c) skipped).

(** The entries of a push, the rows marked sent.  The code takes the store's lock twice: [all]
    are the rows as List read them, the rows of [m] those that MarkSyncSent finds. *)
Definition push_entries (now : Z) (set : MemorySyncSettings) (all : list Chunk) (m : MemorySync) : MemorySync * list pushEntry :=
  let s := scope m in
  let forgets := PendingFor s (d_ops (ms_dev m)) in
  let '(ids, skipped) := foldl (select_row s (ss_OlderNotesAck (ms_st m)) (enabledScopes set)) ([], ms_skipped m) all in
  let m := with_skipped m skipped in
  match forgets, ids with
  | [], [] => (m, [])
  | _, _ =>
      let '(d, sent) := MarkSyncSent now ids now (ms_dev m) in
      (with_dev m d, map forget_entry forgets ++ omap (fun id => upsert_entry <$> sent !! id) ids)
  end.

(** The next batch: at most a hundred items, within the budget but for a first item. *)
Fixpoint next_batch (size : memPushItem -> Z) (room : nat) (first : bool) (used : Z) (entries : list pushEntry) : list pushEntry * list pushEntry :=
  match room, entries with
  | S room, e :: rest =>
      if negb first && (memoryPushBudget <? used + size (pe_item e))%Z then ([], entries)
      else let '(batch, rest) := next_batch size room false (used + size (pe_item e)) rest in (e :: batch, rest)
  | _, _ => ([], entries)
  end.

Record memPushResult := { rs_ID : string; rs_Status : string; rs_CanonicalID : string; rs_Code : string; rs_Field : string; rs_Retry : option bool }.

(** What one result asks for. *)
Inductive Action :=
| ActNone | ActAck | ActOutcome (o : SyncOutcome) | ActClockFuture | ActInvalidate | ActResync | ActDisabled | ActRetry (code : string) | ActSkip.

Definition retries (r : memPushResult) : bool := bool_decide (rs_Retry r = Some true).

Definition result_action (e : pushEntry) (r : memPushResult) : Action :=
  if pe_forget e then (if negb (bool_decide (rs_Status r = "rejected")) || negb (retries r) then ActAck else ActNone)
  else
    let outcome k code canonical := ActOutcome {| oc_ID := rs_ID r; oc_Gen := pe_gen e; oc_Kind := k; oc_Code := code; oc_CanonicalID := canonical |} in
    if bool_decide (rs_Status r ∈ ["accepted"; "unchanged"]) then outcome (if pe_demote e then OutcomeLeftScope else OutcomeSynced) "" ""
    else if bool_decide (rs_Status r = "merged") then outcome OutcomeRekey "" (rs_CanonicalID r)
    else if bool_decide (rs_Status r ∈ ["superseded"; "forgotten"]) then outcome (if pe_demote e then OutcomeLeftScope else OutcomeDelete) "" ""
    else if bool_decide (rs_Status r = "rejected") then
      if bool_decide (rs_Code r = "clock_in_future") then ActClockFuture
      else if bool_decide (rs_Code r = "scope_not_enabled") then ActInvalidate
      else if bool_decide (rs_Code r = "resync_required") then ActResync
      else if bool_decide (rs_Code r = "sync_disabled") then ActDisabled
      else if bool_decide (rs_Code r = "invalid_field") && bool_decide (rs_Field r = "content") && negb (pe_demote e) then outcome OutcomeResendContent "" ""
      else if pe_demote e then outcome OutcomeLeftScope "" ""
      else if retries r then ActRetry (rs_Code r)
      else if bool_decide (rs_Code r = "secret_detected") then outcome OutcomeBlocked (rs_Code r) ""
      else ActSkip
    else ActNone.

(** [byID]: the last entry of an id. *)
Definition entry_of (entries : list pushEntry) (id : string) : option pushEntry :=
  last (List.filter (fun e => bool_decide (it_ID (pe_item e) = id)) entries).

Record ResultsState := { rt_m : MemorySync; rt_outs : list SyncOutcome; rt_acks : list string; rt_future : bool; rt_later : option SyncErr }.

(** The loop over the results; [None] when one says the sync is off. *)
Fixpoint results_loop (now : Z) (entries : list pushEntry) (results : list memPushResult) (st : ResultsState) : option ResultsState * MemorySync :=
  match results with
  | [] => (Some st, rt_m st)
  | r :: results =>
      let go st := results_loop now entries results st in
      let upd m outs acks future later := {| rt_m := m; rt_outs := outs; rt_acks := acks; rt_future := future; rt_later := later |} in
      match entry_of entries (rs_ID r) with
      | None => go st
      | Some e =>
          match result_action e r with
          | ActNone => go st
          | ActAck => go (upd (rt_m st) (rt_outs st) (rt_acks st ++ [rs_ID r]) (rt_future st) (rt_later st))
          | ActOutcome o => go (upd (rt_m st) (rt_outs st ++ [o]) (rt_acks st) (rt_future st) (rt_later st))
          | ActClockFuture => go (upd (rt_m st) (rt_outs st) (rt_acks st) true (rt_later st))
          | ActInvalidate => go (upd (invalidateSettings (rt_m st)) (rt_outs st) (rt_acks st) (rt_future st) (rt_later st))
          | ActResync => go (upd (beginReset now "cursor_expired" "" (rt_m st)) (rt_outs st) (rt_acks st) (rt_future st) (Some ErrResyncRequired))
          | ActDisabled => (None, rt_m st)
          | ActRetry code => go (upd (rt_m st) (rt_outs st) (rt_acks st) (rt_future st) (Some (ErrRetry code)))
          | ActSkip => go (upd (with_skipped (rt_m st) (<[rs_ID r := pe_gen e]> (ms_skipped (rt_m st)))) (rt_outs st) (rt_acks st) (rt_future st) (rt_later st))
          end
      end
  end.

(** [ref] is Fleet's last date. *)
Definition applyResults (now ref : Z) (entries : list pushEntry) (results : list memPushResult) (m : MemorySync) : MemorySync * option SyncErr :=
  match results_loop now entries results {| rt_m := m; rt_outs := []; rt_acks := []; rt_future := false; rt_later := None |} with
  | (None, m) => (m, Some ErrDisabledOnFleet)
  | (Some st, m) =>
      let d := ms_dev m in
      let d := {| d_chunks := ApplySyncOutcomes (rt_outs st) now (scope m) (d_chunks d); d_clock := d_clock d; d_ops := Ack (rt_acks st) (d_ops d) |} in
      (with_dev m d,
       if rt_future st
       then Some (ErrClockInFuture (Z.max (from_option (fun h => AheadOf h (unix_ms (if IsZero ref then now else ref))) 0%Z (d_clock d)) 300000000000))
       else rt_later st)
  end.

(** A batch that Fleet found malformed or too large. *)
Definition dropBatch (status : Z) (entries : list pushEntry) (m : MemorySync) : MemorySync :=
  let acks := map (fun e => it_ID (pe_item e)) (List.filter pe_forget entries) in
  let m := with_skipped m (foldl (fun s e => if pe_forget e then s else <[it_ID (pe_item e) := pe_gen e]> s) (ms_skipped m) entries) in
  if (status =? 400)%Z then with_dev m (with_ops (ms_dev m) (Ack acks (d_ops (ms_dev m)))) else m.

Definition pushBatch (now ref : Z) (entries : list pushEntry) (answer : result (list memPushResult) SyncErr) (m : MemorySync) : MemorySync * option SyncErr :=
  match answer with
  | Ok results => applyResults now ref entries results m
  | Err e =>
      if isInvalidCursor e then (beginReset now "cursor_expired" "" m, Some ErrInvalidBaseCursor)
      else match e with
           | ErrHTTP status _ => if ((status =? 400) || (status =? 413))%Z then (dropBatch status entries m, None) else (m, Some e)
           | _ => (m, Some e)
           end
  end.

Fixpoint push_batches (fuel : nat) (now ref : Z) (size : memPushItem -> Z) (entries : list pushEntry) (answers : list (result (list memPushResult) SyncErr))
    (m : MemorySync) : MemorySync * option SyncErr :=
  match fuel, entries with
  | S fuel, _ :: _ =>
      let '(batch, rest) := next_batch size memoryPushMaxItems true 0 entries in
      match pushBatch now ref batch (hd (Err (ErrTransport "no answer")) answers) m with
      | (m, Some e) => (m, Some e)
      | (m, None) => push_batches fuel now ref size rest (tl answers) m
      end
  | _, _ => (m, None)
  end.

Definition push (now ref : Z) (size : memPushItem -> Z) (set : MemorySyncSettings) (all : list Chunk) (answers : list (result (list memPushResult) SyncErr))
    (m : MemorySync) : MemorySync * option SyncErr :=
  let '(m, entries) := push_entries now set all m in push_batches (length entries) now ref size entries answers m.

(** ** A cycle *)

Definition cycle (now ref : Z) (size : memPushItem -> Z) (settings : result MemorySyncSettings SyncErr)
    (pages : list (Z * result memPullResponse SyncErr)) (all : MemorySync -> list Chunk)
    (answers : list (result (list memPushResult) SyncErr)) (m : MemorySync) : MemorySync * option SyncErr :=
  match settings with
  | Err e => (m, Some e)
  | Ok set =>
      if negb (set_Enabled set) then (m, Some ErrDisabledOnFleet)
      else
        match pull pages m with
        | (m, _, Err e) => (m, Some e)
        | (m, _, Ok complete) => if complete then push now ref size set (all m) answers m else (m, None)
        end
  end.

(** ** Turning the sync on and off *)

Definition set_optin (a : memSyncAccountState) (enabled : bool) (scopes : list string) (consent : string) (disabling erasing : bool) : memSyncAccountState :=
  {| sa_Enabled := enabled; sa_Scopes := scopes; sa_ConsentVersion := consent; sa_Cursor := sa_Cursor a; sa_ResetPending := sa_ResetPending a;
     sa_ErasedBefore := sa_ErasedBefore a; sa_ResetEpoch := sa_ResetEpoch a; sa_ResetCursor := sa_ResetCursor a;
     sa_ResetRestarts := sa_ResetRestarts a; sa_DisablePending := disabling; sa_ForgetAllPending := erasing |}.

Definition with_notices (st : memSyncState) (erase optout : bool) : memSyncState :=
  {| ss_Account := ss_Account st; ss_LegacyOwner := ss_LegacyOwner st; ss_OlderNotesAck := ss_OlderNotesAck st;
     ss_InheritedErase := erase; ss_InheritedOptOut := optout; ss_Parked := ss_Parked st; ss_acct := ss_acct st |}.

Definition is_legacy (st : memSyncState) : bool := bool_decide (ss_Account st = ss_LegacyOwner st).

Inductive EnableErr := EnNoAccount | EnPaused | EnNotInTier | EnConsent | EnScope (scope : string) | EnNoScope | EnRequest (e : SyncErr).

Fixpoint unsupported (scopes : list string) : option string :=
  match scopes with [] => None | s :: scopes => if IsSyncScope s then unsupported scopes else Some s end.

Definition Enable (id : Identity) (paused entitled : bool) (scopes : list string) (consent : string) (put : result MemorySyncSettings SyncErr)
    (m : MemorySync) : MemorySync * result MemorySyncSettings EnableErr :=
  match ensureAccount id m with
  | (m, Err _) => (m, Err EnNoAccount)
  | (m, Ok _) =>
      if paused then (m, Err EnPaused)
      else if negb entitled then (m, Err EnNotInTier)
      else if bool_decide (consent = "") then (m, Err EnConsent)
      else match unsupported scopes with
           | Some s => (m, Err (EnScope s))
           | None =>
               if is_nil scopes then (m, Err EnNoScope)
               else match put with
                    | Err e => (m, Err (EnRequest e))
                    | Ok set =>
                        let m := {| ms_dev := ms_dev m; ms_st := ms_st m; ms_tokenKey := ms_tokenKey m; ms_skipped := ms_skipped m; ms_settings := Some set |} in
                        let st := with_acct (ms_st m) (set_optin (acct m) true scopes consent false false) in
                        (with_state m (with_notices st (ss_InheritedErase st) (ss_InheritedOptOut st && negb (is_legacy st))), Ok set)
                    end
           end
  end.

Definition chunks_of {A} (n : nat) : nat -> list A -> list (list A) :=
  fix go fuel l := match fuel, l with S fuel, _ :: _ => take n l :: go fuel (drop n l) | _, _ => [] end.

Fixpoint flush_batches (now ref : Z) (batches : list (list pushEntry)) (answers : list (result (list memPushResult) SyncErr)) (m : MemorySync) : MemorySync :=
  match batches with
  | [] => m
  | b :: batches =>
      match pushBatch now ref b (hd (Err (ErrTransport "no answer")) answers) m with
      | (m, Some _) => m
      | (m, None) => flush_batches now ref batches (tl answers) m
      end
  end.

Definition flushForgets (now ref : Z) (answers : list (result (list memPushResult) SyncErr)) (m : MemorySync) : MemorySync :=
  let pend := map forget_entry (PendingFor (scope m) (d_ops (ms_dev m))) in
  flush_batches now ref (chunks_of memoryPushMaxItems (length pend) pend) answers m.

Definition finishDisable (put : option SyncErr) (forgetAll : result Z SyncErr) (m : MemorySync) : MemorySync * result Z SyncErr :=
  let a := acct m in
  match (if sa_DisablePending a then put else None) with
  | Some e => (m, Err e)
  | None =>
      let m := with_account_state m (set_optin a (sa_Enabled a) (sa_Scopes a) (sa_ConsentVersion a) false (sa_ForgetAllPending a)) in
      if negb (sa_ForgetAllPending a) then (m, Ok 0%Z)
      else match forgetAll with
           | Err e => (m, Err e)
           | Ok erased =>
               let d := ms_dev m in
               let ids := map fo_ID (PendingFor (scope m) (d_ops d)) in
               let d := {| d_chunks := ClearSyncMarkers (scope m) (d_chunks d); d_clock := d_clock d; d_ops := Ack ids (d_ops d) |} in
               let a := acct m in
               let m := with_account_state (with_dev m d)
                 {| sa_Enabled := sa_Enabled a; sa_Scopes := sa_Scopes a; sa_ConsentVersion := sa_ConsentVersion a; sa_Cursor := "";
                    sa_ResetPending := ""; sa_ErasedBefore := ""; sa_ResetEpoch := 0; sa_ResetCursor := ""; sa_ResetRestarts := 0;
                    sa_DisablePending := sa_DisablePending a; sa_ForgetAllPending := false |} in
               let st := ms_st m in
               (with_state m (with_notices st (ss_InheritedErase st && negb (is_legacy st)) (ss_InheritedOptOut st)), Ok erased)
           end
  end.

Inductive DisableErr := DisConfirm | DisNoAccount | DisFleetDisabled | DisRequest (e : SyncErr).

(** [nop] is a client that reaches no Fleet. *)
Definition Disable (now ref : Z) (id : Identity) (nop deleteFromFleet : bool) (confirm : string)
    (answers : list (result (list memPushResult) SyncErr)) (put : option SyncErr) (forgetAll : result Z SyncErr) (m : MemorySync) :
    MemorySync * result Z DisableErr :=
  if deleteFromFleet && negb (bool_decide (confirm = "forget-all")) then (m, Err DisConfirm)
  else
    let '(m, account) := ensureAccount id m in
    let lost := match account with Err _ => true | Ok _ => false end in
    if lost && deleteFromFleet then (m, Err DisNoAccount)
    else
      let a := acct m in
      let m := with_account_state m (set_optin a false (sa_Scopes a) (sa_ConsentVersion a) true (sa_ForgetAllPending a || deleteFromFleet)) in
      let m := invalidateSettings m in
      if nop then (m, if deleteFromFleet then Err DisFleetDisabled else Ok 0%Z)
      else if lost then (m, Ok 0%Z)
      else
        match finishDisable put forgetAll (flushForgets now ref answers m) with
        | (m, Ok n) => (m, Ok n)
        | (m, Err e) => (m, Err (DisRequest e))
        end.

(** ** One run of the lane *)

(** [fail], but for the wait before the next attempt: a sync that is off on Fleet is off
    here. *)
Definition fail (e : SyncErr) (m : MemorySync) : MemorySync :=
  match e with
  | ErrDisabledOnFleet =>
      let a := acct m in
      with_account_state m (set_optin a false (sa_Scopes a) (sa_ConsentVersion a) (sa_DisablePending a) (sa_ForgetAllPending a))
  | _ => m
  end.

Inductive RunOutcome := RunOff (reason : string) | RunWaiting | RunCycle (err : option SyncErr) | RunFinished (res : option (result Z SyncErr)).

(** Paused, only the opt-out and the queued forgets go; off, only the opt-out. *)
Definition RunOnce (now ref : Z) (id : Identity) (nop paused entitled waiting : bool) (size : memPushItem -> Z)
    (answers : list (result (list memPushResult) SyncErr)) (put : option SyncErr) (forgetAll : result Z SyncErr)
    (settings : result MemorySyncSettings SyncErr) (pages : list (Z * result memPullResponse SyncErr)) (all : MemorySync -> list Chunk)
    (m : MemorySync) : MemorySync * RunOutcome :=
  if nop then (m, RunOff "fleet_disabled")
  else
    match ensureAccount id m with
    | (m, Err _) => (m, RunOff "signed_out")
    | (m, Ok _) =>
        let finish m := if negb (sa_Enabled (acct m)) && (sa_DisablePending (acct m) || sa_ForgetAllPending (acct m))
                        then let '(m, r) := finishDisable put forgetAll m in (m, RunFinished (Some r)) else (m, RunFinished None) in
        if paused then finish (flushForgets now ref answers m)
        else if negb entitled then (m, RunOff "not_entitled")
        else if negb (sa_Enabled (acct m)) then finish m
        else if waiting then (m, RunWaiting)
        else let '(m, e) := cycle now ref size settings pages all answers m in (match e with Some e => fail e m | None => m end, RunCycle e)
    end.
End Lane.
