(* ===== verification/MemorySyncProps.v ===== *)
(** The memory sync lane: a note forgotten here is not pulled back, a reset leaves what its
    snapshot held, a push carries only what may leave the device, and an account that
    returns finds its own state. *)
From S2P Require Import Prelude GoString Hlc Memory MemoryProps MemorySync.
From stdpp Require Import gmap.
Local Open Scope nat_scope.

(** * Forgotten notes *)

Section Page.
Variable HashContent : string -> string.
Variable gate : string -> option string.
Notation apply_record := (apply_record HashContent gate).
Notation pull_pages := (pull_pages HashContent gate).
Notation applyPage := (applyPage HashContent gate).

Lemma elem_insert_inv {A} (l : list A) i x y : y ∈ <[i:=x]> l -> y = x \/ y ∈ l.
Proof. intros [j Hj]%list_elem_of_lookup_1. apply list_lookup_insert_Some in Hj as [(_ & -> & _)|[_ Hj]]; [by left|right; by eapply list_elem_of_lookup_2]. Qed.

Lemma elem_delete_inv {A} (l : list A) i y : y ∈ delete i l -> y ∈ l.
Proof. intros H. eapply elem_of_submseteq; [exact H|]. apply sublist_submseteq, delete_sublist. Qed.

(** A row after an alias folds: a row before, merged or renamed. *)
Lemma fold_alias_row s id l a c : c ∈ fold_alias s id l a ->
  c ∈ l \/ (exists canon alias, canon ∈ l /\ Owns s canon = true /\ c = mergeAliasInto canon alias) \/ (exists alias, alias ∈ l /\ Owns s alias = true /\ c = with_id alias id).
Proof.
  unfold fold_alias. destruct (last_index a l) as [j|]; [|by left]. destruct (l !! j) as [alias|] eqn:Hj; [|by left].
  destruct (bool_decide (a = id) || negb (Owns s alias)) eqn:E; [by left|]. apply orb_false_iff in E as [_ Ho%negb_false_iff].
  destruct (last_index id l) as [k|].
  - destruct (l !! k) as [canon|] eqn:Hk; [|by left]. destruct (Owns s canon) eqn:Hoc; [|by left]. intros [->|H]%elem_delete_inv%elem_insert_inv; [|by left].
    right. left. exists canon, alias. split_and!; [by eapply list_elem_of_lookup_2|done|done].
  - intros [->|H]%elem_insert_inv; [|by left]. right. right. exists alias. split_and!; [by eapply list_elem_of_lookup_2|done|done].
Qed.

(** A property of rows that the sync's operations on one row keep, for the records at hand. *)
Record row_inv (at_ : Z) (s : AccountScope) (rs : RemoteRecord -> Prop) (P : Chunk -> Prop) : Prop := {
  ri_alias canon alias : Owns s canon = true -> P canon -> P (mergeAliasInto canon alias);
  ri_rename alias r : rs r -> rm_Tombstone r = false -> Owns s alias = true -> P alias -> P (with_id alias (rm_ID r));
  ri_merge r c : rs r -> rm_Tombstone r = false -> c_ID c = rm_ID r -> Owns s c = true -> P c -> P (merge_remote at_ r c);
  ri_insert r : rs r -> rm_Tombstone r = false -> P (insert_remote HashContent at_ s r);
  ri_unmark c : Owns s c = true -> P c -> P (with_marks c 0 0)
}.

Lemma apply_record_inv at_ s rs P l r : row_inv at_ s rs P -> rs r -> (forall c, c ∈ l -> P c) -> forall c, c ∈ apply_record at_ s l r -> P c.
Proof.
  intros [Ha Hn Hm Hi Hu] Hr Hl c. unfold Memory.apply_record. destruct (rm_Tombstone r) eqn:Ht.
  - unfold apply_tombstone. destruct (last_index (rm_ID r) l) as [i|]; [|apply Hl]. destruct (l !! i) as [x|] eqn:Hx; [|apply Hl].
    destruct (Owns s x) eqn:Ho; [|apply Hl]. cbn [negb]. destruct (_ && _).
    + intros [->|H]%elem_insert_inv; [|by apply Hl]. apply Hu; [done|]. apply Hl. by eapply list_elem_of_lookup_2.
    + intros H%elem_delete_inv. by apply Hl.
  - destruct (gate_allows gate r); [|apply Hl]. unfold apply_live.
    assert (Hal : forall c, c ∈ foldl (fold_alias s (rm_ID r)) l (rm_Aliases r) -> P c).
    { revert l Hl. induction (rm_Aliases r) as [|a al IH]; intros l Hl; [done|]. apply IH. intros x [H|[(canon & alias & H & Ho & ->)|(alias & H & Ho & ->)]]%fold_alias_row;
        [by apply Hl|apply Ha; [done|by apply Hl]|apply Hn; [done|done|done|by apply Hl]]. }
    set (l' := foldl _ l _) in *. destruct (last_index (rm_ID r) l') as [i|] eqn:Hix.
    + apply last_index_some in Hix as (x & Hx & Hid). rewrite Hx. destruct (Owns s x) eqn:Ho; [|apply Hal].
      intros [->|H]%elem_insert_inv; [|by apply Hal]. apply Hm; [done|done|done|done|]. apply Hal. by eapply list_elem_of_lookup_2.
    + intros [H| ->%list_elem_of_singleton]%elem_of_app; [by apply Hal|by apply Hi].
Qed.

Lemma apply_remote_inv at_ s (rs : RemoteRecord -> Prop) P recs l : row_inv at_ s rs P -> (forall r, r ∈ recs -> rs r) ->
  (forall c, c ∈ l -> P c) -> forall c, c ∈ ApplyRemote HashContent gate recs at_ s l -> P c.
Proof.
  intros Hinv. revert l. induction recs as [|r recs IH]; intros l Hrs Hl; [done|].
  change (ApplyRemote HashContent gate (r :: recs) at_ s l) with (ApplyRemote HashContent gate recs at_ s (apply_record at_ s l r)).
  apply IH; [intros; apply Hrs; by right|]. eapply apply_record_inv; [done|apply Hrs; by left|done].
Qed.

(** ** A queued forget *)

Definition absent (id : string) (l : list Chunk) : Prop := forall c, c ∈ l -> c_ID c <> id.

Lemma absent_ids id l : absent id l <-> id ∉ row_ids l.
Proof.
  unfold absent. rewrite list_elem_of_fmap. split; [intros H (c & -> & Hc); by apply (H c)|intros H c Hc He; apply H; by exists c].
Qed.

Lemma remote_records ops (recs : list memPullRecord) r : r ∈ omap (remote_record ops) recs -> rm_Tombstone r = false -> exists p, p ∈ recs /\ rm_ID r = pr_ID p /\ is_tombstone p = false /\ Has (rm_ID r) ops = false.
Proof.
  intros (p & Hp & Hr)%list_elem_of_omap Ht. exists p. unfold remote_record in Hr. destruct (is_tombstone p); [by injection Hr as <-|].
  destruct (negb _); [done|]. destruct (Has (pr_ID p) ops) eqn:Hh; [done|]. by injection Hr as <-.
Qed.

Lemma not_id_inv at_ s id : row_inv at_ s (fun r => rm_Tombstone r = false -> rm_ID r <> id) (fun c => c_ID c <> id).
Proof.
  constructor.
  - intros canon alias _ Hc. by rewrite (proj2 (merge_alias_keeps _ _)).
  - intros alias r Hr Ht _ _. by apply Hr.
  - intros r c _ _ _ _ Hc. by rewrite (proj2 (merge_remote_keeps _ _ _)).
  - intros r Hr Ht. rewrite (proj2 (insert_remote_keeps _ _ _ _)). by apply Hr.
  - done.
Qed.

(** No page answers the forget. *)
Definition unanswered (id : string) (recs : list memPullRecord) : Prop :=
  forall r, r ∈ recs -> is_tombstone r = true -> pr_Reason r = TombstoneForgotten -> pr_ID r <> id.

Lemma has_ack id ids ops : id ∉ ids -> Has id (Ack ids ops) = Has id ops.
Proof.
  intros Hid. unfold Has, Ack. induction ops as [|op ops IH]; [done|]. cbn. destruct (bool_decide (fo_ID op ∈ ids)) eqn:E; cbn; rewrite IH; [|done].
  rewrite bool_decide_eq_false_2; [done|]. intros He. apply bool_decide_eq_true in E. by rewrite He in E.
Qed.

Lemma page_forgotten id now recs at_ s d : Has id (d_ops d) = true -> absent id (d_chunks d) -> unanswered id recs ->
  let d' := fst (applyPage now recs at_ s d) in Has id (d_ops d') = true /\ absent id (d_chunks d').
Proof.
  intros Hh Ha Hu. unfold MemorySync.applyPage. cbn [fst d_ops d_chunks]. split.
  - destruct (map pr_ID (List.filter (acked (d_ops d)) recs)) as [|x xs] eqn:E; [done|]. rewrite has_ack; [done|]. rewrite <- E.
    intros (r & -> & [Hr Hk]%elem_of_filter_bool)%list_elem_of_fmap. unfold acked in Hk. apply andb_true_iff in Hk as [[Ht Hrs%bool_decide_eq_true]%andb_true_iff _].
    by apply (Hu r).
  - refine (apply_remote_inv at_ s _ (fun c => c_ID c <> id) _ _ (not_id_inv at_ s id) _ Ha). intros r Hr Ht He.
    destruct (remote_records _ _ _ Hr Ht) as (p & _ & _ & _ & H). rewrite He in H. congruence.
Qed.

Lemma enqueue_chunks now i account d : d_chunks (enqueue now i account d) = d_chunks d.
Proof. unfold enqueue. destruct (_ || _); [done|]. by destruct (tick _ _). Qed.

Lemma enqueue_has now i account d : i <> "" -> Has i (d_ops (enqueue now i account d)) = true.
Proof.
  intros Hi. unfold enqueue. rewrite (bool_decide_eq_false_2 (i = "")) by done. cbn [orb]. destruct (Has i (d_ops d)) eqn:E; [done|].
  destruct (tick (d_clock d) now). cbn. unfold Has. rewrite existsb_app. cbn. rewrite bool_decide_eq_true_2 by done. by rewrite orb_true_r.
Qed.

Lemma sweep_sublist a s l : sweep a s l `sublist_of` l.
Proof.
  unfold sweep, DeleteCreatedBefore. destruct (_ && _); [|apply filter_sublist]. case_bool_decide; [apply filter_sublist|].
  etransitivity; apply filter_sublist.
Qed.

Lemma sublist_elem {A} (l l' : list A) x : l `sublist_of` l' -> x ∈ l -> x ∈ l'.
Proof. intros Hs Hx. eapply elem_of_submseteq; [exact Hx|by apply sublist_submseteq]. Qed.

Lemma pull_forgotten id pages answers resetting applied m :
  Has id (d_ops (ms_dev m)) = true -> absent id (d_chunks (ms_dev m)) ->
  (forall now resp, (now, Ok resp) ∈ answers -> unanswered id (pl_Records resp)) ->
  let m' := fst (fst (pull_pages pages answers resetting applied m)) in
  Has id (d_ops (ms_dev m')) = true /\ absent id (d_chunks (ms_dev m')).
Proof.
  revert answers resetting applied m. induction pages as [|pages IH]; intros answers resetting applied m Hh Ha Hu; [done|].
  destruct answers as [|[now answer] answers]; [done|]. cbn [MemorySync.pull_pages].
  assert (Hu' : forall now resp, (now, Ok resp) ∈ answers -> unanswered id (pl_Records resp)) by (intros; eapply Hu; by right).
  set (answer' := match answer with Err e => if isInvalidCursor e then _ else _ | Ok r => Ok r end).
  assert (Hpage : forall resp, answer' = Ok resp -> unanswered id (pl_Records resp)).
  { intros resp. unfold answer'. destruct answer as [r|e]; [intros [= ->]; eapply Hu; by left|]. destruct (isInvalidCursor e); [|done].
    intros [= <-] r Hr. by apply elem_of_nil in Hr. }
  destruct answer' as [resp|e]; [|done]. specialize (Hpage resp eq_refl). destruct (negb (pl_Enabled resp)); [done|].
  destruct (pl_Reset resp).
  - destruct (_ <? _)%Z; [done|]. by apply IH.
  - set (at_ := if resetting && _ then _ else now).
    destruct (page_forgotten id now (pl_Records resp) at_ (scope m) (ms_dev m) Hh Ha Hpage) as [H1 H2].
    destruct (applyPage now (pl_Records resp) at_ (scope m) (ms_dev m)) as [d n]. cbn [fst] in H1, H2.
    destruct (pl_HasMore resp); [by apply IH|]. destruct resetting; cbn; [|done]. split; [done|].
    intros c Hc. apply H2. eapply sublist_elem; [apply sweep_sublist|exact Hc].
Qed.
End Page.

(** C38: A note forgotten here is not pulled back.  Removing a note that Fleet may know queues
    its id, and then no pull, whatever pages and resets Fleet answers with, brings a row of
    that id back or takes the id off the queue, until a page says the id is forgotten. *)
Theorem forgotten_stays_forgotten hash gate now id m answers :
  device_ok (ms_dev m) -> id <> "" -> (exists c, c ∈ d_chunks (ms_dev m) /\ c_ID c = id /\ FleetMayKnow c = true) ->
  (forall at_ resp, (at_, Ok resp) ∈ answers -> unanswered id (pl_Records resp)) ->
  let m1 := with_dev m (fst (RemoveForSync now id (ms_dev m))) in
  let m2 := fst (fst (pull hash gate answers m1)) in
  Has id (d_ops (ms_dev m2)) = true /\ id ∉ row_ids (d_chunks (ms_dev m2)).
Proof.
  intros [[Hn Hr] Hops] Hid (c & Hc & Hcid & Hk) Hu m1 m2. apply list_elem_of_lookup_1 in Hc as [i Hi].
  assert (Hrm : RemoveForSync now id (ms_dev m) = (RecordDelete now c (with_chunks (ms_dev m) (delete i (d_chunks (ms_dev m)))), None)).
  { unfold RemoveForSync, Remove. by rewrite (first_index_unique id _ i c Hn Hi Hcid), Hi. }
  assert (Hrec : RecordDelete now c (with_chunks (ms_dev m) (delete i (d_chunks (ms_dev m))))
                 = enqueue now id (c_Account c) (with_chunks (ms_dev m) (delete i (d_chunks (ms_dev m))))).
  { unfold RecordDelete. by rewrite Hk, Hcid, bool_decide_eq_false_2. }
  rewrite <- absent_ids. unfold m2, pull. refine (pull_forgotten hash gate id memoryPullPagesPerCycle answers _ false m1 _ _ Hu).
  - unfold m1. rewrite Hrm. cbn [fst with_dev ms_dev]. rewrite Hrec. by apply enqueue_has.
  - apply absent_ids. unfold m1. rewrite Hrm. cbn [fst with_dev ms_dev]. rewrite Hrec, enqueue_chunks, <- Hcid. by apply delete_absent.
Qed.

(** * Resets *)

Lemma latest_bound l : forall t, (t <= foldl (fun t c => if After (SyncedAt (c_sync c)) t then SyncedAt (c_sync c) else t) t l)%Z /\
  forall c, c ∈ l -> (SyncedAt (c_sync c) <= foldl (fun t c => if After (SyncedAt (c_sync c)) t then SyncedAt (c_sync c) else t) t l)%Z.
Proof.
  induction l as [|x l IH]; intros t; cbn; [split; [lia|]; intros c Hc; by apply elem_of_nil in Hc|].
  set (t' := if After (SyncedAt (c_sync x)) t then _ else t).
  assert (Ht : (t <= t')%Z /\ (SyncedAt (c_sync x) <= t')%Z) by (unfold t', After; destruct (Z.ltb_spec t (SyncedAt (c_sync x))); lia).
  destruct (IH t') as [H1 H2]. split; [lia|]. intros c [->|Hc]%elem_of_cons; [lia|by apply H2].
Qed.

(** What a reset has delivered, as pages come: [dl_ids], the ids that came live, and
    [dl_held], those of them whose rows must be there: taken by the sync, and afterwards
    neither forgotten or superseded by a tombstone nor named as an alias. *)
Record received := { dl_ids : list string; dl_held : gset string }.
Definition nothing : received := {| dl_ids := []; dl_held := ∅ |}.

Definition live_ids (recs : list memPullRecord) : list string := map pr_ID (List.filter (fun r => negb (is_tombstone r)) recs).

(** A live record in a sync scope that the gate allows and no queued forget [ops] holds back. *)
Definition takes (gate : string -> option string) (ops : list ForgetOp) (r : memPullRecord) : bool :=
  negb (is_tombstone r) && IsSyncScope (pr_ScopeKind r) && bool_decide (gate (pr_ScopeKind r) = None) && negb (Has (pr_ID r) ops).

Definition hold gate (ops : list ForgetOp) (K : gset string) (r : memPullRecord) : gset string :=
  if is_tombstone r then K ∖ {[pr_ID r]}
  else (K ∖ list_to_set (pr_Aliases r)) ∪ (if takes gate ops r then {[pr_ID r]} else ∅).

Definition take_page gate ops (T : received) (recs : list memPullRecord) : received :=
  {| dl_ids := dl_ids T ++ live_ids recs; dl_held := foldl (hold gate ops) (dl_held T) recs |}.

(** In the middle of a reset: the account's rows marked since its epoch are among those
    delivered, and those held are there, marked since the epoch unless they are another
    account's. *)
Record mid_reset (s : AccountScope) (epoch : Z) (T : received) (l : list Chunk) : Prop := {
  mr_epoch : (0 < epoch)%Z;
  mr_ids c : c ∈ l -> Owns s c = true -> (epoch <= SyncedAt (c_sync c))%Z -> c_ID c ∈ dl_ids T;
  mr_held id : id ∈ dl_held T -> exists c, c ∈ l /\ c_ID c = id /\ (Owns s c = true -> epoch <= SyncedAt (c_sync c))%Z
}.

Lemma begin_mid_reset now reason erased m : let m' := beginReset now reason erased m in
  scope m' = scope m /\ ms_dev m' = ms_dev m /\ mid_reset (scope m') (sa_ResetEpoch (acct m')) nothing (d_chunks (ms_dev m')).
Proof.
  split; [done|]. split; [done|]. unfold beginReset. cbn.
  destruct (latest_bound (d_chunks (ms_dev m)) 0) as [H1 H2]. fold (LatestSyncedAt (d_chunks (ms_dev m))) in *.
  destruct (Z.ltb_spec (LatestSyncedAt (d_chunks (ms_dev m))) now); cbn [negb]; (constructor; [lia| |by intros id Hid%elem_of_empty]);
    intros c Hc _ Hle; specialize (H2 c Hc); lia.
Qed.

Lemma page_ids hash gate now recs at_ s epoch (T : list string) d : (0 < epoch)%Z ->
  (forall c, c ∈ d_chunks d -> Owns s c = true -> (epoch <= SyncedAt (c_sync c))%Z -> c_ID c ∈ T) ->
  forall c, c ∈ d_chunks (fst (applyPage hash gate now recs at_ s d)) -> Owns s c = true -> (epoch <= SyncedAt (c_sync c))%Z -> c_ID c ∈ T ++ live_ids recs.
Proof.
  intros Hep Hl.
  assert (Hrs : forall r, r ∈ omap (remote_record (d_ops d)) recs -> rm_Tombstone r = false -> rm_ID r ∈ T ++ live_ids recs).
  { intros r Hr Ht. destruct (remote_records _ _ _ Hr Ht) as (p & Hp & -> & Hnt & _). apply elem_of_app. right. apply list_elem_of_fmap_2.
    apply elem_of_filter_bool. by rewrite Hnt. }
  refine (apply_remote_inv hash gate at_ s (fun r => rm_Tombstone r = false -> rm_ID r ∈ T ++ live_ids recs)
    (fun c => Owns s c = true -> (epoch <= SyncedAt (c_sync c))%Z -> c_ID c ∈ T ++ live_ids recs) _ _ _ Hrs _).
  - constructor.
    + intros canon alias _ Hc. unfold Owns. destruct (merge_alias_keeps canon alias) as [-> ->].
      replace (c_sync (mergeAliasInto canon alias)) with (c_sync canon); [done|].
      unfold mergeAliasInto, later_access, lww_scope, lww_pinned, lww_title. row_cases.
    + intros alias r Hr Ht _ _ _ _. by apply Hr.
    + intros r c Hr Ht Hid _ _ _ _. rewrite (proj2 (merge_remote_keeps _ _ _)), Hid. by apply Hr.
    + intros r Hr Ht _ _. rewrite (proj2 (insert_remote_keeps _ _ _ _)). by apply Hr.
    + intros c _ _ _. cbn. lia.
  - intros c Hc Ho Hle. apply elem_of_app. left. by apply Hl.
Qed.

(** ** Rows a record does not name *)

Lemma elem_insert_other {A} (l : list A) i (x y c : A) : l !! i = Some x -> c ∈ l -> c <> x -> c ∈ <[i:=y]> l.
Proof.
  intros Hi [j Hj]%list_elem_of_lookup_1 Hne. apply (list_elem_of_lookup_2 _ j). rewrite list_lookup_insert_ne; [done|]. intros ->. congruence.
Qed.

Lemma elem_delete_other {A} (l : list A) i (x c : A) : l !! i = Some x -> c ∈ l -> c <> x -> c ∈ delete i l.
Proof.
  intros Hi Hc Hne. rewrite (delete_take_drop l i). rewrite <- (take_drop_middle l i x Hi) in Hc.
  apply elem_of_app in Hc as [Hc|Hc]; apply elem_of_app; [by left|right]. by apply elem_of_cons in Hc as [->|Hc].
Qed.

Lemma fold_alias_other s id l a c : c ∈ l -> c_ID c <> id -> c_ID c <> a -> c ∈ fold_alias s id l a.
Proof.
  intros Hc Hid Ha. unfold fold_alias. destruct (last_index a l) as [j|] eqn:Hj; [|done].
  apply last_index_some in Hj as (alias & Hx & Hxa). rewrite Hx. destruct (_ || _); [done|].
  destruct (last_index id l) as [k|] eqn:Hk; [|apply (elem_insert_other l j alias); [done..|by intros ->]].
  apply last_index_some in Hk as (canon & Hy & Hyid). rewrite Hy. destruct (Owns s canon); [|done].
  assert (k <> j \/ k = j) as [Hkj|Hkj] by lia.
  - apply (elem_delete_other _ j alias); [by rewrite list_lookup_insert_ne| |by intros ->].
    apply (elem_insert_other l k canon); [done..|by intros ->].
  - subst k. apply (elem_delete_other _ j (mergeAliasInto canon alias)).
    + apply list_lookup_insert_eq. by eapply lookup_lt_Some.
    + apply (elem_insert_other l j canon); [done..|by intros ->].
    + intros ->. by rewrite (proj2 (merge_alias_keeps _ _)) in Hid.
Qed.

Lemma apply_record_other hash gate at_ s l r c : c ∈ l -> c_ID c <> rm_ID r -> (rm_Tombstone r = false -> c_ID c ∉ rm_Aliases r) ->
  c ∈ apply_record hash gate at_ s l r.
Proof.
  intros Hc Hid Ha. unfold apply_record. destruct (rm_Tombstone r).
  - unfold apply_tombstone. destruct (last_index (rm_ID r) l) as [i|] eqn:Hi; [|done]. apply last_index_some in Hi as (x & Hx & Hxid).
    rewrite Hx. destruct (negb _); [done|]. assert (c <> x) by (by intros ->).
    destruct (_ && _); [by eapply elem_insert_other|by eapply elem_delete_other].
  - destruct (gate_allows gate r); [|done]. specialize (Ha eq_refl). unfold apply_live.
    assert (Hc' : c ∈ foldl (fold_alias s (rm_ID r)) l (rm_Aliases r)).
    { clear -Hc Hid Ha. revert l Hc. induction (rm_Aliases r) as [|a al IH]; intros l Hc; [done|]. cbn.
      apply not_elem_of_cons in Ha as [Ha1 Ha2]. by apply IH, fold_alias_other. }
    set (l' := foldl _ _ _) in *. destruct (last_index (rm_ID r) l') as [i|] eqn:Hi; [|apply elem_of_app; by left].
    apply last_index_some in Hi as (x & Hx & Hxid). rewrite Hx. destruct (Owns s x); [|done].
    apply (elem_insert_other l' i x); [done..|by intros ->].
Qed.

(** A live record that is applied has its row, marked as of now. *)
Lemma apply_record_has hash gate at_ s l r : rm_Tombstone r = false -> gate_allows gate r = true ->
  exists c, c ∈ apply_record hash gate at_ s l r /\ c_ID c = rm_ID r /\ (Owns s c = true -> SyncedAt (c_sync c) = at_).
Proof.
  intros Ht Hg. unfold apply_record. rewrite Ht, Hg. unfold apply_live. set (l' := foldl _ _ _).
  destruct (last_index (rm_ID r) l') as [i|] eqn:Hi.
  - apply last_index_some in Hi as (x & Hx & Hxid). rewrite Hx. destruct (Owns s x) eqn:Ho.
    + exists (merge_remote at_ r x). split_and!; [|by rewrite (proj2 (merge_remote_keeps _ _ _))|done].
      apply (list_elem_of_lookup_2 _ i), list_lookup_insert_eq. by eapply lookup_lt_Some.
    + exists x. split_and!; [by eapply list_elem_of_lookup_2|done|congruence].
  - exists (insert_remote hash at_ s r). split_and!; [|by rewrite (proj2 (insert_remote_keeps _ _ _ _))|done].
    apply elem_of_app. right. by left.
Qed.

Definition held (s : AccountScope) (epoch : Z) (K : gset string) (l : list Chunk) : Prop :=
  forall id, id ∈ K -> exists c, c ∈ l /\ c_ID c = id /\ (Owns s c = true -> epoch <= SyncedAt (c_sync c))%Z.

Lemma held_weaken s epoch K K' l : K' ⊆ K -> held s epoch K l -> held s epoch K' l.
Proof. intros Hsub Hk id Hid. by apply Hk, Hsub. Qed.

Lemma page_held hash gate at_ s epoch ops ops' recs : (epoch <= at_)%Z -> (forall id, Has id ops = false -> Has id ops' = false) ->
  forall K l, held s epoch K l -> held s epoch (foldl (hold gate ops) K recs) (ApplyRemote hash gate (omap (remote_record ops') recs) at_ s l).
Proof.
  intros Hat Hops. induction recs as [|r recs IH]; intros K l Hk; [done|]. cbn [foldl omap list_omap].
  destruct (remote_record ops' r) as [rm|] eqn:Hr.
  - change (ApplyRemote hash gate (rm :: ?x) at_ s l) with (ApplyRemote hash gate x at_ s (apply_record hash gate at_ s l rm)).
    cbn [ApplyRemote foldl]. apply IH. intros id Hid. unfold hold in Hid. unfold remote_record in Hr.
    destruct (is_tombstone r) eqn:Ht.
    + injection Hr as <-. apply elem_of_difference in Hid as [Hid Hne%not_elem_of_singleton]. destruct (Hk id Hid) as (c & Hc & <- & Hm).
      exists c. split_and!; try done. apply apply_record_other; [done..|]. by cbn.
    + destruct (negb (IsSyncScope _)) eqn:Hs; [done|]. destruct (Has (pr_ID r) ops') eqn:Hh; [done|].
      set (rm' := {| rm_ID := _ |}) in Hr. injection Hr as <-. destruct (gate_allows gate rm') eqn:Hg.
      * destruct (decide (id = pr_ID r)) as [->|Hne].
        { destruct (apply_record_has hash gate at_ s l rm' eq_refl Hg) as (c & Hc & Hcid & Hm). exists c. split_and!; [done..|]. intros Ho. by rewrite (Hm Ho). }
        assert (Hid' : id ∈ K /\ id ∉ pr_Aliases r).
        { apply elem_of_union in Hid as [[? Hn]%elem_of_difference|Hid]; [split; [done|by rewrite elem_of_list_to_set in Hn]|].
          destruct (takes _ _ _); [by apply elem_of_singleton in Hid|by apply elem_of_empty in Hid]. }
        destruct Hid' as [HK Hal]. destruct (Hk id HK) as (c & Hc & <- & Hm). exists c. split_and!; try done. by apply apply_record_other.
      * assert (takes gate ops r = false) as Htk.
        { unfold takes. unfold gate_allows in Hg. cbn in Hg. rewrite Hg. by rewrite andb_false_r. }
        rewrite Htk in Hid. assert (HK : id ∈ K) by set_solver. unfold apply_record. cbn [rm_Tombstone rm']. rewrite Hg. by apply Hk.
  - apply IH. intros id Hid. unfold hold in Hid. unfold remote_record in Hr. destruct (is_tombstone r) eqn:Ht; [done|].
    assert (takes gate ops r = false) as Htk.
    { unfold takes. rewrite Ht. cbn. destruct (IsSyncScope (pr_ScopeKind r)); [|done]. cbn in Hr |- *. destruct (Has (pr_ID r) ops') eqn:Hh; [|done].
      destruct (Has (pr_ID r) ops) eqn:Hh'; [by rewrite andb_false_r|]. apply Hops in Hh'. congruence. }
    rewrite Htk in Hid. apply Hk. set_solver.
Qed.

Lemma page_mid_reset hash gate now recs at_ s epoch ops T d : (epoch <= at_)%Z -> (forall id, Has id ops = false -> Has id (d_ops d) = false) ->
  mid_reset s epoch T (d_chunks d) -> mid_reset s epoch (take_page gate ops T recs) (d_chunks (fst (applyPage hash gate now recs at_ s d))).
Proof.
  intros Hat Hops [Hep Hids Hheld]. constructor; [done| |].
  - by apply page_ids.
  - by apply page_held.
Qed.

(** ** The pull *)

(** The answers as the pull takes them: whether it is in a reset when it stops, how often
    one has begun anew, and what its snapshot has delivered. *)
Fixpoint snapshot gate ops (pages : nat) (answers : list (Z * result memPullResponse SyncErr)) (resetting : bool) (restarts : Z) (T : received) :
    bool * received :=
  match pages, answers with
  | S pages, (_, answer) :: answers =>
      match (match answer with Err e => if isInvalidCursor e then Ok cursor_expired else Err e | Ok r => Ok r end) with
      | Err _ => (resetting, T)
      | Ok resp =>
          if negb (pl_Enabled resp) then (resetting, T)
          else if pl_Reset resp then
            let restarts := if resetting then int64 (restarts + 1) else restarts in
            if (memoryMaxResetRestarts <? restarts)%Z then (true, nothing) else snapshot gate ops pages answers true restarts nothing
          else
            let T := take_page gate ops T (pl_Records resp) in
            if pl_HasMore resp then snapshot gate ops pages answers resetting restarts T else (resetting, T)
      end
  | _, _ => (resetting, T)
  end.

(** What a finished reset leaves: exactly the snapshot is marked synced, but for held ids
    that another account's row has. *)
Record reset_done (s : AccountScope) (T : received) (l : list Chunk) : Prop := {
  rd_ids c : c ∈ l -> Owns s c = true -> SyncedAt (c_sync c) <> 0%Z -> c_ID c ∈ dl_ids T;
  rd_held id : id ∈ dl_held T -> exists c, c ∈ l /\ c_ID c = id /\ (Owns s c = true -> SyncedAt (c_sync c) <> 0%Z)
}.

Definition reset_result (s : AccountScope) (T : received) (res : result bool SyncErr) (m : MemorySync) : Prop :=
  scope m = s /\
  match res with
  | Ok true => reset_done s T (d_chunks (ms_dev m))
  | _ => mid_reset s (sa_ResetEpoch (acct m)) T (d_chunks (ms_dev m))
  end.

(** A row marked since the epoch is not swept. *)
Lemma sweep_keeps a s l c : (0 < sa_ResetEpoch a)%Z -> c ∈ l -> (Owns s c = true -> sa_ResetEpoch a <= SyncedAt (c_sync c))%Z -> c ∈ sweep a s l.
Proof.
  intros Hep Hc Hm. assert (Hd : c ∈ DeleteSyncedBefore (sa_ResetEpoch a) s l).
  { apply elem_of_filter_bool. split; [done|]. unfold swept_synced. destruct (Owns s c); [|done]. specialize (Hm eq_refl).
    destruct (Z.ltb_spec (SyncedAt (c_sync c)) (sa_ResetEpoch a)); [lia|]. by rewrite andb_false_r. }
  unfold sweep, DeleteCreatedBefore. destruct (_ && _); [|done]. case_bool_decide; [done|]. apply elem_of_filter_bool. split; [done|].
  unfold swept_erased. destruct (Owns s c); [|by destruct (_ && _)]. specialize (Hm eq_refl).
  assert (IsZero (SyncedAt (c_sync c)) = false) as -> by (unfold IsZero; lia). by rewrite (proj2 (Z.ltb_ge _ _)).
Qed.

Lemma finish_result cursor T m : mid_reset (scope m) (sa_ResetEpoch (acct m)) T (d_chunks (ms_dev m)) -> reset_result (scope m) T (Ok true) (finishReset cursor m).
Proof.
  intros [Hep Hl Hheld]. split; [done|]. unfold finishReset. cbn [with_account_state with_state with_dev ms_dev d_chunks with_chunks]. constructor.
  - intros c Hc Ho Hs. pose proof (sublist_elem _ _ _ (sweep_sublist _ _ _) Hc) as Hc'. apply Hl; [done|done|].
    assert (Hd : c ∈ DeleteSyncedBefore (sa_ResetEpoch (acct m)) (scope m) (d_chunks (ms_dev m))).
    { unfold sweep, DeleteCreatedBefore in Hc. destruct (_ && _); [|done]. case_bool_decide; [done|]. by apply elem_of_filter_bool in Hc as [? _]. }
    apply elem_of_filter_bool in Hd as [_ Hd%negb_true_iff]. unfold swept_synced, IsZero in Hd. rewrite Ho in Hd. cbn in Hd.
    destruct (Z.eqb_spec (SyncedAt (c_sync c)) 0); [done|]. cbn in Hd. by apply Z.ltb_ge.
  - intros id Hid. destruct (Hheld id Hid) as (c & Hc & Hcid & Hm). exists c. split_and!; [by apply sweep_keeps|done|]. intros Ho. specialize (Hm Ho). lia.
Qed.

(** The pull is in a reset exactly while one is pending. *)
Definition pull_state (s : AccountScope) (ops : list ForgetOp) (resetting : bool) (restarts : Z) (T : received) (m : MemorySync) : Prop :=
  scope m = s /\ resetting = negb (bool_decide (sa_ResetPending (acct m) = "")) /\ restarts = sa_ResetRestarts (acct m) /\
  (forall id, Has id ops = false -> Has id (d_ops (ms_dev m)) = false) /\
  (resetting = true -> mid_reset s (sa_ResetEpoch (acct m)) T (d_chunks (ms_dev m))).

Lemma has_ack_sub id ids ops : Has id ops = false -> Has id (Ack ids ops) = false.
Proof.
  unfold Has, Ack. induction ops as [|op ops IH]; [done|]. cbn. intros [H1 H2]%orb_false_iff. destruct (negb _); cbn; [rewrite H1|]; by apply IH.
Qed.

Lemma page_ops hash gate now recs at_ s d id : Has id (d_ops d) = false -> Has id (d_ops (fst (applyPage hash gate now recs at_ s d))) = false.
Proof. intros Hh. unfold applyPage. cbn [fst d_ops]. destruct (map pr_ID _); [done|by apply has_ack_sub]. Qed.

Lemma begin_state s ops resetting restarts T now reason erased m : reason <> "" -> pull_state s ops resetting restarts T m ->
  pull_state s ops true (if resetting then int64 (restarts + 1) else restarts) nothing (beginReset now reason erased m).
Proof.
  intros Hne (Hs & Hr & Hn & Hops & _). destruct (begin_mid_reset now reason erased m) as (E1 & E2 & E3). split_and!.
  - by rewrite E1.
  - unfold beginReset. cbn. destruct (_ && _); [done|]. by rewrite bool_decide_eq_false_2.
  - unfold beginReset. cbn. rewrite Hr, Hn. by destruct (bool_decide (sa_ResetPending (acct m) = "")).
  - by rewrite E2.
  - intros _. by rewrite <- Hs, <- E1.
Qed.

Lemma reset_reason resp : orDefault (pl_ResetReason resp) "cursor_expired" <> "".
Proof. unfold orDefault. by case_bool_decide. Qed.

Lemma page_state s hash gate ops resetting restarts T now resp d n m : pull_state s ops resetting restarts T m ->
  applyPage hash gate now (pl_Records resp) (if resetting && (now <? sa_ResetEpoch (acct m))%Z then sa_ResetEpoch (acct m) else now) (scope m) (ms_dev m) = (d, n) ->
  pull_state s ops resetting restarts (take_page gate ops T (pl_Records resp))
    (with_account_state (with_dev m d) (set_cursor resetting (pl_Cursor resp) (acct (with_dev m d)))).
Proof.
  intros (Hs & Hr & Hn & Hops & Hmid) Hpage. set (at_ := if resetting && _ then _ else now) in *.
  pose proof (page_ops hash gate now (pl_Records resp) at_ (scope m) (ms_dev m)) as Hpo.
  pose proof (page_mid_reset hash gate now (pl_Records resp) at_ (scope m) (sa_ResetEpoch (acct m)) ops T (ms_dev m)) as Hpm.
  rewrite Hpage in Hpo, Hpm. cbn [fst] in *. split_and!; [done..| |].
  - intros id Hid. cbn. by apply Hpo, Hops.
  - intros Ht. cbn. rewrite <- Hs. apply Hpm; [|done|rewrite Hs; by apply Hmid]. unfold at_. rewrite Ht. cbn [andb].
    destruct (Z.ltb_spec now (sa_ResetEpoch (acct m))); lia.
Qed.

Lemma pull_reset hash gate s ops pages answers resetting restarts applied T m : pull_state s ops resetting restarts T m ->
  let '(m', _, res) := pull_pages hash gate pages answers resetting applied m in
  let '(in_reset, T') := snapshot gate ops pages answers resetting restarts T in
  in_reset = true -> reset_result s T' res m'.
Proof.
  revert answers resetting restarts applied T m.
  assert (Hstop : forall resetting restarts T m (res : result bool SyncErr), res <> Ok true -> pull_state s ops resetting restarts T m -> resetting = true -> reset_result s T res m).
  { intros resetting restarts T m res Hres (Hs & _ & _ & _ & Hmid) Hr. split; [done|]. destruct res as [[]|]; [done|by apply Hmid..]. }
  induction pages as [|pages IH]; intros answers resetting restarts applied T m Hst; [cbn; by apply (Hstop resetting restarts T m)|].
  destruct answers as [|[now answer] answers]; [cbn; by apply (Hstop resetting restarts T m)|]. cbn [pull_pages snapshot].
  destruct (match answer with Err e => if isInvalidCursor e then Ok cursor_expired else Err e | Ok r => Ok r end) as [resp|e]; [|cbn; by apply (Hstop resetting restarts T m)].
  destruct (negb (pl_Enabled resp)); [cbn; by apply (Hstop resetting restarts T m)|]. destruct (pl_Reset resp).
  - pose proof (begin_state s ops resetting restarts T now _ (pl_ErasedBefore resp) m (reset_reason resp) Hst) as Hb.
    set (m1 := beginReset _ _ _ m) in *. set (n' := if resetting then _ else restarts) in *.
    assert (sa_ResetRestarts (acct m1) = n') as -> by (symmetry; apply Hb). destruct (_ <? _)%Z; [cbn; by apply (Hstop true n' nothing m1)|by apply IH].
  - destruct (applyPage _ _ _ _ _ _ _) as [d n] eqn:Hpage. pose proof (page_state s hash gate ops resetting restarts T now resp d n m Hst Hpage) as Hp.
    set (m1 := with_account_state _ _) in *. destruct (pl_HasMore resp); [by apply IH|]. intros ->.
    destruct Hp as (Hs & _ & _ & _ & Hmid). rewrite <- Hs. apply (finish_result (pl_Cursor resp) _ m1). rewrite Hs. by apply Hmid.
Qed.

(** ** Notes of this device *)

(** No answer names the id or speaks of an erase. *)
Definition unnamed (id : string) (answers : list (Z * result memPullResponse SyncErr)) : Prop :=
  forall t resp, (t, Ok resp) ∈ answers -> pl_ResetReason resp <> "erased" /\ forall r, r ∈ pl_Records resp -> id <> pr_ID r /\ id ∉ pr_Aliases r.

Lemma page_other hash gate now recs at_ s d c : c ∈ d_chunks d -> (forall r, r ∈ recs -> c_ID c <> pr_ID r /\ c_ID c ∉ pr_Aliases r) ->
  c ∈ d_chunks (fst (applyPage hash gate now recs at_ s d)).
Proof.
  intros Hc Hrecs. unfold applyPage. cbn [fst d_chunks]. unfold ApplyRemote. generalize (d_ops d) as ops. intros ops. revert Hc Hrecs.
  generalize (d_chunks d) as l. induction recs as [|r recs IH]; intros l Hc Hrecs; [done|]. cbn [omap list_omap].
  assert (Hrec : forall x, x ∈ recs -> c_ID c <> pr_ID x /\ c_ID c ∉ pr_Aliases x) by (intros; apply Hrecs; by right).
  destruct (Hrecs r ltac:(by left)) as [H1 H2]. destruct (remote_record ops r) as [rm|] eqn:Hr; [|by apply IH]. cbn [foldl]. apply IH; [|done].
  unfold remote_record in Hr. destruct (is_tombstone r); [injection Hr as <-|destruct (negb _); [done|]; destruct (Has _ _); [done|]; injection Hr as <-];
    by apply apply_record_other.
Qed.

Lemma sweep_unmarked a s l c : sa_ResetPending a <> "erased" -> c ∈ l -> SyncedAt (c_sync c) = 0%Z -> c ∈ sweep a s l.
Proof.
  intros Hp Hc Hz. unfold sweep. rewrite (bool_decide_eq_false_2 _ Hp). cbn. apply elem_of_filter_bool. split; [done|].
  unfold swept_synced. rewrite Hz. cbn. by rewrite andb_false_r.
Qed.

Lemma pull_unnamed hash gate pages answers resetting applied m c : c ∈ d_chunks (ms_dev m) -> SyncedAt (c_sync c) = 0%Z ->
  sa_ResetPending (acct m) <> "erased" -> unnamed (c_ID c) answers ->
  c ∈ d_chunks (ms_dev (fst (fst (pull_pages hash gate pages answers resetting applied m)))).
Proof.
  revert answers resetting applied m. induction pages as [|pages IH]; intros answers resetting applied m Hc Hz He Hu; [done|].
  destruct answers as [|[now answer] answers]; [done|]. cbn [pull_pages].
  assert (Hu' : unnamed (c_ID c) answers) by (intros t resp Hin; apply (Hu t); by right).
  destruct (match answer with Err e => if isInvalidCursor e then Ok cursor_expired else Err e | Ok r => Ok r end) as [resp|e] eqn:Hans; [|done].
  assert (Hresp : pl_ResetReason resp <> "erased" /\ forall r, r ∈ pl_Records resp -> c_ID c <> pr_ID r /\ c_ID c ∉ pr_Aliases r).
  { destruct answer as [r|e]; [injection Hans as ->; apply (Hu now); by left|]. destruct (isInvalidCursor e); [|done]. injection Hans as <-.
    split; [done|]. intros r Hr. by apply elem_of_nil in Hr. }
  destruct Hresp as [Hreason Hrecs]. destruct (negb (pl_Enabled resp)); [done|]. destruct (pl_Reset resp).
  - set (m1 := beginReset _ _ _ m). assert (sa_ResetPending (acct m1) <> "erased") as He1.
    { unfold m1, beginReset. cbn. rewrite (bool_decide_eq_false_2 _ He). cbn. unfold orDefault. by case_bool_decide. }
    destruct (_ <? _)%Z; [done|]. by apply IH.
  - pose proof (page_other hash gate now (pl_Records resp) (if resetting && (now <? sa_ResetEpoch (acct m))%Z then sa_ResetEpoch (acct m) else now) (scope m) (ms_dev m) c Hc Hrecs) as Hp.
    destruct (applyPage _ _ _ _ _ _ _) as [d n]. cbn [fst] in Hp. destruct (pl_HasMore resp); [by apply IH|]. destruct resetting; [|done].
    unfold finishReset. cbn. by apply sweep_unmarked.
Qed.

(** C39: A finished reset leaves the snapshot.  Take a pull that is in a reset when it stops.
    (1) If it has caught up, the rows of the account that are marked synced are exactly
    those of the snapshot: each was delivered live by the pages since the reset began, and
    each record that the pages delivered and the sync takes is there and marked, unless a
    later record made it a tombstone or an alias, or another account's row has the id.
    (2) If it stops short of the last page, or with an error, what the rest of the snapshot
    needs holds, which is what (1) asks of the next pull.
    (3) However any pull ends, a note never sent to Fleet that no record names stays as it
    is, unless the account was erased. *)
Theorem reset_leaves_snapshot hash gate answers T m :
  (sa_ResetPending (acct m) <> "" -> mid_reset (scope m) (sa_ResetEpoch (acct m)) T (d_chunks (ms_dev m))) ->
  let '(m', _, res) := pull hash gate answers m in
  let '(in_reset, T') := snapshot gate (d_ops (ms_dev m)) memoryPullPagesPerCycle answers
                           (negb (bool_decide (sa_ResetPending (acct m) = ""))) (sa_ResetRestarts (acct m)) T in
  (in_reset = true -> reset_result (scope m) T' res m') /\
  forall c, c ∈ d_chunks (ms_dev m) -> SyncedAt (c_sync c) = 0%Z -> sa_ResetPending (acct m) <> "erased" -> unnamed (c_ID c) answers ->
    c ∈ d_chunks (ms_dev m').
Proof.
  intros Hmid. unfold pull.
  pose proof (pull_reset hash gate (scope m) (d_ops (ms_dev m)) memoryPullPagesPerCycle answers (negb (bool_decide (sa_ResetPending (acct m) = "")))
    (sa_ResetRestarts (acct m)) false T m) as H1.
  pose proof (pull_unnamed hash gate memoryPullPagesPerCycle answers (negb (bool_decide (sa_ResetPending (acct m) = ""))) false m) as H2.
  destruct (pull_pages _ _ _ _ _ _ m) as [[m' applied] res]. destruct (snapshot _ _ _ _ _ _ _) as [in_reset T']. split; [|exact H2].
  apply H1. split_and!; try done. intros H%negb_true_iff%bool_decide_eq_false. by apply Hmid.
Qed.

(** * What leaves the device *)











(** * Accounts *)

(** What no operation of the lane but [recordAccount] changes, and an opt-out that only
    [Enable] ends. *)
Record framed (m m' : MemorySync) : Prop := {
  fr_account : ss_Account (ms_st m') = ss_Account (ms_st m);
  fr_legacy : ss_LegacyOwner (ms_st m') = ss_LegacyOwner (ms_st m);
  fr_parked : ss_Parked (ms_st m') = ss_Parked (ms_st m);
  fr_off : sa_Enabled (acct m) = false -> sa_Enabled (acct m') = false
}.

#[export] Instance framed_refl : Reflexive framed.
Proof. by constructor. Qed.
#[export] Instance framed_trans : Transitive framed.
Proof. intros m m' m'' [] []. constructor; [congruence..|tauto]. Qed.

Section Framed.
Variable HashContent : string -> string.
Variable gate : string -> option string.
Variable home : string.

Lemma results_framed now entries results st : framed (rt_m st) (snd (results_loop now entries results st)) /\
  (forall st', fst (results_loop now entries results st) = Some st' -> rt_m st' = snd (results_loop now entries results st)).
Proof.
  revert st. induction results as [|r results IH]; intros st; cbn; [split; [reflexivity|by intros st' [= <-]]|].
  destruct (entry_of entries (rs_ID r)) as [e|]; [|apply IH].
  destruct (result_action e r); try apply IH; try (by split; [reflexivity|]).
  all: match goal with |- context [results_loop _ _ _ ?st'] => destruct (IH st') as [H1 H2] end.
  all: split; [etransitivity; [|exact H1]; by constructor|exact H2].
Qed.

Lemma apply_results_framed now ref entries results m : framed m (fst (applyResults now ref entries results m)).
Proof.
  unfold applyResults. set (st0 := {| rt_m := m |}). destruct (results_framed now entries results st0) as [H1 H2].
  destruct (results_loop now entries results st0) as [[st|] m']; cbn [fst snd] in *; [|done]. etransitivity; [exact H1|]. by constructor.
Qed.

Lemma push_batch_framed now ref entries answer m : framed m (fst (pushBatch now ref entries answer m)).
Proof.
  unfold pushBatch. destruct answer as [results|e]; [apply apply_results_framed|]. destruct (isInvalidCursor e); [by constructor|].
  destruct e as [| | | | | | |status code| |]; try reflexivity. destruct (_ || _); [|reflexivity]. unfold dropBatch. by destruct (status =? 400)%Z.
Qed.

Lemma push_batches_framed fuel now ref size entries answers m : framed m (fst (push_batches fuel now ref size entries answers m)).
Proof.
  revert entries answers m. induction fuel as [|fuel IH]; intros entries answers m; [reflexivity|]. destruct entries as [|e entries]; [reflexivity|].
  cbn [push_batches]. destruct (next_batch _ _ _ _ _) as [batch rest].
  pose proof (push_batch_framed now ref batch (hd (Err (ErrTransport "no answer")) answers) m) as H.
  destruct (pushBatch _ _ batch _ m) as [m' [e'|]]; [done|]. etransitivity; [exact H|apply IH].
Qed.

Lemma push_framed now ref size set all answers m : framed m (fst (push HashContent home now ref size set all answers m)).
Proof.
  unfold push. assert (H : framed m (fst (push_entries HashContent home now set all m))).
  { unfold push_entries. destruct (foldl _ _ all) as [ids skipped]. destruct (PendingFor _ _), ids; try by constructor.
    all: by destruct (MarkSyncSent _ _ _ _). }
  destruct (push_entries HashContent home now set all m) as [m' entries]. etransitivity; [exact H|apply push_batches_framed].
Qed.

Lemma pull_framed pages answers resetting applied m : framed m (fst (fst (pull_pages HashContent gate pages answers resetting applied m))).
Proof.
  revert answers resetting applied m. induction pages as [|pages IH]; intros answers resetting applied m; [reflexivity|].
  destruct answers as [|[now answer] answers]; [reflexivity|]. cbn [pull_pages].
  destruct (match answer with Err e => if isInvalidCursor e then Ok cursor_expired else Err e | Ok r => Ok r end) as [resp|e]; [|reflexivity].
  destruct (negb (pl_Enabled resp)); [reflexivity|]. destruct (pl_Reset resp).
  - destruct (_ <? _)%Z; [by constructor|]. etransitivity; [|apply IH]. by constructor.
  - destruct (applyPage _ _ _ _ _ _ _) as [d n]. destruct (pl_HasMore resp); [etransitivity; [|apply IH]; by constructor|]. by destruct resetting.
Qed.

Lemma cycle_framed now ref size settings pages all answers m : framed m (fst (cycle HashContent gate home now ref size settings pages all answers m)).
Proof.
  unfold cycle. destruct settings as [set|e]; [|reflexivity]. destruct (negb _); [reflexivity|].
  pose proof (pull_framed memoryPullPagesPerCycle pages (negb (bool_decide (sa_ResetPending (acct m) = ""))) false m) as H. unfold pull.
  destruct (pull_pages _ _ _ pages _ _ m) as [[m' applied] [complete|e]]; [|done]. cbn [fst] in H. destruct complete; [|done].
  etransitivity; [exact H|apply push_framed].
Qed.

Lemma flush_framed now ref batches answers m : framed m (flush_batches now ref batches answers m).
Proof.
  revert answers m. induction batches as [|b batches IH]; intros answers m; [reflexivity|]. cbn.
  pose proof (push_batch_framed now ref b (hd (Err (ErrTransport "no answer")) answers) m) as H. destruct (pushBatch _ _ b _ m) as [m' [e|]]; [done|].
  etransitivity; [exact H|apply IH].
Qed.

Lemma finish_framed put forgetAll m : framed m (fst (finishDisable put forgetAll m)).
Proof.
  unfold finishDisable. destruct (if sa_DisablePending (acct m) then put else None); [reflexivity|]. destruct (negb _); [by constructor|].
  destruct forgetAll; by constructor.
Qed.

Lemma fail_framed e m : framed m (fail e m).
Proof. by destruct e. Qed.

(** A run of the lane after the account is known. *)
Lemma run_framed now ref id nop paused entitled waiting size answers put forgetAll settings pages all m m1 s :
  ensureAccount id m = (m1, Ok s) -> nop = false ->
  framed m1 (fst (RunOnce HashContent gate home now ref id nop paused entitled waiting size answers put forgetAll settings pages all m)).
Proof.
  intros Hacc ->. unfold RunOnce. rewrite Hacc.
  assert (Hfin : forall m2, framed m2 (fst (if negb (sa_Enabled (acct m2)) && (sa_DisablePending (acct m2) || sa_ForgetAllPending (acct m2))
            then let '(m, r) := finishDisable put forgetAll m2 in (m, RunFinished (Some r)) else (m2, RunFinished None)))).
  { intros m2. destruct (_ && _); [|reflexivity]. pose proof (finish_framed put forgetAll m2) as H. by destruct (finishDisable put forgetAll m2). }
  destruct paused; [etransitivity; [apply flush_framed|apply Hfin]|]. destruct (negb entitled); [reflexivity|]. pose proof (Hfin m1) as Hf1. destruct (negb (sa_Enabled (acct m1))); [exact Hf1|].
  destruct waiting; [reflexivity|]. pose proof (cycle_framed now ref size settings pages all answers m1) as H.
  destruct (cycle _ _ _ _ _ _ _ _ _ _ m1) as [m2 [e|]]; [|done]. etransitivity; [exact H|apply fail_framed].
Qed.
End Framed.

(** The opt-in of an account, current or parked. *)
Definition opted_in (st : memSyncState) (account : string) : bool :=
  if bool_decide (ss_Account st = account) then sa_Enabled (ss_acct st) else from_option sa_Enabled false (ss_Parked st !! account).

(** The state of an account, current or parked. *)
Definition state_of (st : memSyncState) (account : string) : option memSyncAccountState :=
  if bool_decide (ss_Account st = account) then Some (ss_acct st) else ss_Parked st !! account.

Lemma record_keeps id m : ss_Account (ms_st m) <> "" -> forall account, opted_in (ms_st (fst (ensureAccount id m))) account = opted_in (ms_st m) account.
Proof.
  intros Hacc account. unfold ensureAccount, recordAccount. destruct id as [[key token]|]; [|done].
  case_bool_decide as Hk; [done|]. rewrite bool_decide_eq_false_2 by done. cbn. unfold opted_in. cbn.
  destruct (decide (key = account)) as [->|Hne].
  - rewrite (bool_decide_eq_true_2 (account = account)), (bool_decide_eq_false_2 (ss_Account (ms_st m) = account)) by done.
    rewrite lookup_insert_ne by done. by destruct (ss_Parked (ms_st m) !! account).
  - rewrite (bool_decide_eq_false_2 (key = account)), lookup_delete_ne by done.
    case_bool_decide as Ha; [subst; by rewrite lookup_insert_eq|by rewrite lookup_insert_ne].
Qed.

(** An opt-out holds.  Whoever is signed in, and whatever Fleet answers, no run of the lane
    turns the sync on for an account it is off for; and for the account it acts for, a run
    with the sync off pulls and pushes nothing: it is no cycle. *)
Theorem opt_out_holds hash gate home now ref id nop paused entitled waiting size answers put forgetAll settings pages all m account :
  ss_Account (ms_st m) <> "" -> opted_in (ms_st m) account = false ->
  let '(m', out) := RunOnce hash gate home now ref id nop paused entitled waiting size answers put forgetAll settings pages all m in
  opted_in (ms_st m') account = false /\ (ss_Account (ms_st m') = account -> forall e, out <> RunCycle e).
Proof.
  intros Hacc Hoff. destruct nop; [split; [done|by intros]|].
  pose proof (record_keeps id m Hacc account) as Hrec. rewrite Hoff in Hrec.
  destruct (ensureAccount id m) as [m1 [s|e]] eqn:He; cbn [fst] in Hrec.
  2: { unfold RunOnce. rewrite He. split; [done|by intros]. }
  pose proof (run_framed hash gate home now ref id false paused entitled waiting size answers put forgetAll settings pages all m m1 s He eq_refl) as Hf.
  assert (Hcycle : sa_Enabled (acct m1) = false -> forall e, snd (RunOnce hash gate home now ref id false paused entitled waiting size answers put forgetAll settings pages all m) <> RunCycle e).
  { intros Hd e. unfold RunOnce. rewrite He, Hd. cbn [negb].
    destruct paused; [destruct (_ && _); [by destruct (finishDisable _ _ _)|done]|]. destruct (negb entitled); [done|].
    destruct (_ && _); [by destruct (finishDisable _ _ _)|done]. }
  destruct (RunOnce hash gate home now ref id false paused entitled waiting size answers put forgetAll settings pages all m) as [m' out]. cbn [fst snd] in *.
  destruct Hf as [F1 F2 F3 F4]. unfold opted_in in Hrec |- *. rewrite F1, F3. split.
  - case_bool_decide; [|done]. by apply F4.
  - intros Ha. apply Hcycle. by rewrite bool_decide_eq_true_2 in Hrec by done.
Qed.

(** Runs of the lane while one account, or nobody, is signed in. *)
Inductive runs_as (hash : string -> string) (gate : string -> option string) (home : string) (key : string) : MemorySync -> MemorySync -> Prop :=
| as_none m : runs_as hash gate home key m m
| as_run m m' now ref id nop paused entitled waiting size answers put forgetAll settings pages all :
    (id = None \/ exists token, id = Some (key, token)) -> runs_as hash gate home key m m' ->
    runs_as hash gate home key m (fst (RunOnce hash gate home now ref id nop paused entitled waiting size answers put forgetAll settings pages all m')).

Lemma ensure_same key token m : ss_Account (ms_st m) = key -> exists m1 s, ensureAccount (Some (key, token)) m = (m1, Ok s) /\ ms_st m1 = ms_st m.
Proof. intros <-. unfold ensureAccount, recordAccount. rewrite bool_decide_eq_true_2 by done. by eexists _, _. Qed.

Lemma runs_keep hash gate home key m m' : ss_Account (ms_st m) = key -> runs_as hash gate home key m m' ->
  ss_Account (ms_st m') = key /\ ss_LegacyOwner (ms_st m') = ss_LegacyOwner (ms_st m) /\ ss_Parked (ms_st m') = ss_Parked (ms_st m).
Proof.
  intros Hk. induction 1 as [m|m m' now ref id nop paused entitled waiting size answers put forgetAll settings pages all Hid Hrun IH]; [done|].
  destruct (IH Hk) as (E1 & E2 & E3). destruct nop; [done|]. destruct Hid as [->|[token ->]].
  - unfold RunOnce, ensureAccount, recordAccount. by split_and!.
  - destruct (ensure_same key token m' E1) as (m1 & s & He & Hst).
    pose proof (run_framed hash gate home now ref _ false paused entitled waiting size answers put forgetAll settings pages all m' m1 s He eq_refl) as [F1 F2 F3 _].
    rewrite Hst in *. split_and!; congruence.
Qed.

(** An account that returns finds its own state.  When another account signs in, the lane
    runs for it any number of times, and the first returns, the first has its opt-in,
    cursor and pending work back exactly as it left them; the other started with the sync
    off unless it had a state of its own, and is parked in turn; the legacy owner is who
    it was. *)
Theorem account_returns hash gate home a b ta tb m m1 m2 m3 s1 s3 :
  ss_Account (ms_st m) = a -> a <> "" -> b <> "" -> a <> b ->
  ensureAccount (Some (b, tb)) m = (m1, Ok s1) -> runs_as hash gate home b m1 m2 -> ensureAccount (Some (a, ta)) m2 = (m3, Ok s3) ->
  ss_acct (ms_st m1) = default fresh_account (ss_Parked (ms_st m) !! b) /\
  state_of (ms_st m3) a = state_of (ms_st m) a /\ state_of (ms_st m3) b = Some (ss_acct (ms_st m2)) /\
  (forall c, c <> a -> c <> b -> state_of (ms_st m3) c = state_of (ms_st m) c) /\
  ss_LegacyOwner (ms_st m3) = ss_LegacyOwner (ms_st m) /\ as_Account s3 = a.
Proof.
  intros Ha Hne Hbne Hab H1 Hrun H3. set (P := <[a := ss_acct (ms_st m)]> (ss_Parked (ms_st m))).
  assert (Hm1 : ss_Account (ms_st m1) = b /\ ss_LegacyOwner (ms_st m1) = ss_LegacyOwner (ms_st m) /\ ss_Parked (ms_st m1) = delete b P /\
                ss_acct (ms_st m1) = default fresh_account (P !! b)).
  { unfold ensureAccount, recordAccount in H1. rewrite !bool_decide_eq_false_2 in H1 by congruence. injection H1 as <- _. unfold P. by rewrite <- Ha. }
  destruct Hm1 as (A1 & L1 & P1 & S1). destruct (runs_keep hash gate home b m1 m2 A1 Hrun) as (A2 & L2 & P2).
  set (Q := <[b := ss_acct (ms_st m2)]> (delete b P)).
  assert (Hm3 : ss_Account (ms_st m3) = a /\ ss_LegacyOwner (ms_st m3) = ss_LegacyOwner (ms_st m) /\ ss_Parked (ms_st m3) = delete a Q /\
                ss_acct (ms_st m3) = default fresh_account (Q !! a) /\ as_Account s3 = a).
  { unfold ensureAccount, recordAccount in H3. rewrite !bool_decide_eq_false_2 in H3 by congruence. injection H3 as <- <-. unfold Q. cbn.
    rewrite A2, P2, P1. split_and!; congruence. }
  destruct Hm3 as (A3 & L3 & P3 & S3 & Hs3). assert (HQa : Q !! a = Some (ss_acct (ms_st m))).
  { unfold Q, P. by rewrite lookup_insert_ne, lookup_delete_ne, lookup_insert_eq. }
  unfold state_of. rewrite A3, P3, S3, HQa, Ha. rewrite (bool_decide_eq_true_2 (a = a)), (bool_decide_eq_false_2 (a = b)) by done. split_and!.
  - rewrite S1. unfold P. by rewrite lookup_insert_ne.
  - done.
  - rewrite lookup_delete_ne by done. apply lookup_insert_eq.
  - intros c Hca Hcb. rewrite !(bool_decide_eq_false_2 (a = c)) by congruence. unfold Q, P.
    by rewrite lookup_delete_ne, lookup_insert_ne, lookup_delete_ne, lookup_insert_ne.
  - done.
  - done.
Qed.

(** * A small lane *)

Definition demo_account (enabled : bool) : memSyncAccountState :=
  {| sa_Enabled := enabled; sa_Scopes := ["global"]; sa_ConsentVersion := "2026-10-07"; sa_Cursor := "7"; sa_ResetPending := "";
     sa_ErasedBefore := ""; sa_ResetEpoch := 0; sa_ResetCursor := ""; sa_ResetRestarts := 0; sa_DisablePending := false; sa_ForgetAllPending := false |}.

Definition demo_lane : MemorySync :=
  {| ms_dev := {| d_chunks := demo_notes; d_clock := Some (hlc_new "desk" ""); d_ops := [] |};
     ms_st := {| ss_Account := "acme:ada"; ss_LegacyOwner := "acme:ada"; ss_OlderNotesAck := false; ss_InheritedErase := false;
                 ss_InheritedOptOut := false; ss_Parked := ∅; ss_acct := demo_account true |};
     ms_tokenKey := "t1"; ms_skipped := ∅; ms_settings := None |}.

Definition pulled (id title titleHLC : string) : memPullRecord :=
  {| pr_ID := id; pr_State := "live"; pr_Reason := ""; pr_Body := plain_body id; pr_Title := title; pr_TitleHLC := titleHLC; pr_Pinned := false;
     pr_PinnedHLC := ""; pr_ScopeKind := "global"; pr_ScopeHLC := titleHLC; pr_RecallCount := 3; pr_RecallCountOthers := 1; pr_LastAccessed := 2000; pr_Aliases := [] |}.

Definition page (reset : bool) (recs : list memPullRecord) (more : bool) : memPullResponse :=
  {| pl_Enabled := true; pl_Reset := reset; pl_ResetReason := ""; pl_ErasedBefore := ""; pl_Records := recs; pl_Cursor := "8"; pl_HasMore := more |}.

(** A reset whose snapshot holds one new note. *)
Definition demo_answers : list (Z * result memPullResponse SyncErr) :=
  [(10%Z, Ok (page true [] true)); (11%Z, Ok (page false [pulled "n9" "from afar" "0000000000000009:000000:laptop"] false))].

Example reset_of_demo :
  row_ids (d_chunks (ms_dev (fst (fst (pull no_hash no_gate demo_answers demo_lane))))) = ["n2"; "n3"; "n9"].
Proof. by vm_compute. Qed.

Lemma reset_leaves_snapshot_witness :
  exists T', snapshot no_gate [] memoryPullPagesPerCycle demo_answers false 0 nothing = (true, T') /\
  dl_ids T' = ["n9"] /\ "n9" ∈ dl_held T' /\
  let '(m', _, res) := pull no_hash no_gate demo_answers demo_lane in
  res = Ok true /\ reset_done (scope demo_lane) T' (d_chunks (ms_dev m')).
Proof.
  exists (snapshot no_gate [] memoryPullPagesPerCycle demo_answers false 0 nothing).2.
  pose proof (reset_leaves_snapshot no_hash no_gate demo_answers nothing demo_lane ltac:(done)) as H.
  assert (Hi : (snapshot no_gate [] memoryPullPagesPerCycle demo_answers false 0 nothing).1 = true) by by vm_compute.
  change (negb (bool_decide (sa_ResetPending (acct demo_lane) = ""))) with false in H. change (d_ops (ms_dev demo_lane)) with (@nil ForgetOp) in H.
  change (sa_ResetRestarts (acct demo_lane)) with 0%Z in H.
  assert (Hr : snd (pull no_hash no_gate demo_answers demo_lane) = Ok true) by by vm_compute.
  split; [by rewrite <- Hi, <- surjective_pairing|]. split; [by vm_compute|]. split; [apply (bool_decide_unpack _); by vm_compute|].
  destruct (snapshot _ _ _ demo_answers _ _ _) as [r T']. cbn [fst snd] in *. subst r.
  destruct (pull no_hash no_gate demo_answers demo_lane) as [[m' ap] res]. cbn in Hr. subst res. split; [done|]. by apply H.
Defined.

Lemma demo_device_ok : device_ok (ms_dev demo_lane).
Proof. constructor; [constructor; [apply (bool_decide_unpack _); by vm_compute|by repeat constructor]|constructor]. Qed.

(** The note forgotten here is in the page Fleet sends next. *)
Definition stale_answers : list (Z * result memPullResponse SyncErr) :=
  [(10%Z, Ok (page false [pulled "n1" "still here" "0000000000000009:000000:laptop"] false))].

Lemma forgotten_stays_forgotten_witness :
  let m1 := with_dev demo_lane (fst (RemoveForSync 8 "n1" (ms_dev demo_lane))) in
  let m2 := fst (fst (pull no_hash no_gate stale_answers m1)) in
  Has "n1" (d_ops (ms_dev m2)) = true /\ "n1" ∉ row_ids (d_chunks (ms_dev m2)).
Proof.
  refine (forgotten_stays_forgotten no_hash no_gate 8 "n1" demo_lane stale_answers demo_device_ok _ _ _).
  - done.
  - eexists. split; [by left|by vm_compute].
  - intros at_ resp [H|H]%elem_of_cons; [injection H as -> ->|by apply elem_of_nil in H].
    intros r [->|Hr]%elem_of_cons; [done|by apply elem_of_nil in Hr].
Defined.

Definition demo_settings : MemorySyncSettings := {| set_Enabled := true; set_Scopes := ["global"; "session"] |}.
Definition edited_lane : MemorySync := with_dev demo_lane (fst (SetPinned 7 "n1" true (ms_dev demo_lane))).


(** The push reads n1 in the global scope, which is enabled; before the rows are marked it is
    promoted to the long-term scope, which is not, and goes to Fleet with its body there. *)
Definition promoted_lane : MemorySync := with_dev edited_lane (fst (PromoteScope 8 "n1" ScopeKindLongTerm "" (ms_dev edited_lane))).

Example rescoped_in_between :
  let sent all m := map (fun e => (it_ID (pe_item e), fl_scope <$> it_Fields (pe_item e), bool_decide (it_Body (pe_item e) = None)))
    (snd (push_entries no_hash "/home/ada" 9 demo_settings all m)) in
  map (fun p => (fst <$> snd (fst p), snd p)) (sent (d_chunks (ms_dev edited_lane)) promoted_lane) = [(Some "long_term", false)] /\
  sent (d_chunks (ms_dev promoted_lane)) promoted_lane = [] /\ ScopeKindLongTerm ∉ set_Scopes demo_settings.
Proof. split; [by vm_compute|]. split; [by vm_compute|]. apply (bool_decide_unpack _). by vm_compute. Qed.

Lemma opt_out_holds_witness :
  let m := with_account_state demo_lane (demo_account false) in
  let '(m', out) := RunOnce no_hash no_gate "" 9 0 (Some ("acme:ada", "t1")) false false true false (fun _ => 1%Z) [] None (Ok 0%Z) (Ok demo_settings) demo_answers
                      (fun m => d_chunks (ms_dev m)) m in
  opted_in (ms_st m') "acme:ada" = false /\ (ss_Account (ms_st m') = "acme:ada" -> forall e, out <> RunCycle e).
Proof.
  refine (opt_out_holds no_hash no_gate "" 9 0 (Some ("acme:ada", "t1")) false false true false (fun _ => 1%Z) [] None (Ok 0%Z) (Ok demo_settings) demo_answers
            (fun m => d_chunks (ms_dev m)) (with_account_state demo_lane (demo_account false)) "acme:ada" _ _); done.
Defined.

Lemma account_returns_witness :
  let m1 := fst (ensureAccount (Some ("acme:bob", "t2")) demo_lane) in
  let m2 := fst (RunOnce no_hash no_gate "" 9 0 (Some ("acme:bob", "t2")) false false true false (fun _ => 1%Z) [] None (Ok 0%Z) (Ok demo_settings) [] (fun m => d_chunks (ms_dev m)) m1) in
  let m3 := fst (ensureAccount (Some ("acme:ada", "t1")) m2) in
  sa_Enabled (ss_acct (ms_st m1)) = false /\ state_of (ms_st m3) "acme:ada" = Some (demo_account true).
Proof.
  intros m1 m2 m3.
  destruct (account_returns no_hash no_gate "" "acme:ada" "acme:bob" "t1" "t2" demo_lane m1 m2 m3
              {| as_Account := "acme:bob"; as_LegacyOwner := "acme:ada"; as_TokenKey := "t2" |}
              {| as_Account := "acme:ada"; as_LegacyOwner := "acme:ada"; as_TokenKey := "t1" |}) as (H1 & H2 & _).
  - done.
  - done.
  - done.
  - done.
  - reflexivity.
  - eapply as_run; [right; by eexists|apply as_none].
  - reflexivity.
  - split; [by rewrite H1|exact H2].
Defined.

(** ** What the code does not guard *)

(** A push that deletes a row and merges two others into its id leaves two rows of one id. *)
Definition rekeyed (id canonical : string) : SyncOutcome := {| oc_ID := id; oc_Gen := 0; oc_Kind := OutcomeRekey; oc_Code := ""; oc_CanonicalID := canonical |}.
Definition deleted (id : string) : SyncOutcome := {| oc_ID := id; oc_Gen := 0; oc_Kind := OutcomeDelete; oc_Code := ""; oc_CanonicalID := "" |}.

Example two_rows_of_one_id :
  row_ids (ApplySyncOutcomes [deleted "b"; rekeyed "a" "b"; rekeyed "c" "b"] 9 ada
    [note "a" "acme:ada" "global" "" "" 5; note "b" "acme:ada" "global" "" "" 5; note "c" "acme:ada" "global" "" "" 5]) = ["b"; "b"].
Proof. by vm_compute. Qed.

(** The zero scope owns nothing, but a page applied for it inserts an unstamped row. *)
Example zero_scope_inserts :
  map (fun c => (c_ID c, c_Account c)) (ApplyRemote no_hash no_gate [retitled] 9 {| as_Account := ""; as_LegacyOwner := "acme:ada"; as_TokenKey := "" |} []) = [("n1", "")].
Proof. by vm_compute. Qed.

(** A note is removed, a page that holds it is applied before its forget is queued, and the
    note is back although its forget is on the way. *)
Example page_between_removal_and_queue :
  let d := ms_dev demo_lane in
  match Remove "n1" d with
  | (d1, Ok gone) =>
      let d2 := fst (applyPage no_hash no_gate 9 [pulled "n1" "still here" "0000000000000009:000000:laptop"] 9 ada d1) in
      let d3 := RecordDelete 10 gone d2 in
      "n1" ∈ row_ids (d_chunks d3) /\ Has "n1" (d_ops d3) = true
  | _ => False
  end.
Proof. vm_compute. split; [right; right; left|reflexivity]. Qed.
