(* ===== verification/Elicitation.v ===== *)
(** The one store of pending user questions (core/elicitation): question
    validation, answers, the registry as a state machine over its critical
    sections, and the buses the graph executors ask through (memAskBus of
    core/agentgraph/seams.go, runAskBus of core/rpc/views/agentgraph/manager.go). *)
From S2P Require Import Prelude GoString Utf8 Json.
From Stdlib Require Import Ascii.

(** * Questions *)

Record QOption := { op_Value : string; op_Label : string }.
Record Dependency := { dp_QuestionID : string; dp_Condition : string }.

(** The fields this package reads; the others only reach the dialog.  JSON texts are
    strings, the empty one is nil. *)
Inductive Question := MkQuestion {
  q_ID : string; q_Text : string; q_Kind : string; q_Options : list QOption;
  q_DependsOn : option Dependency; q_Batch : list Question
}.

Definition KindFreeform : string := "".
Definition structuredKinds : list string := ["radio"; "checkbox"; "text"; "number"; "slider"; "date"; "file"].
Definition Structured (k : string) : bool := bool_decide (k ∈ structuredKinds).

Definition errQuestionRequired : string := "question is required".
Definition unknownKindError (k : string) : string :=
  "unknown kind " +:+ fmt_q k +:+ "; must be one of radio, checkbox, text, number, slider, date, file".

Definition validateKindConstraints (q : Question) : option string :=
  if bool_decide (q_Kind q ∈ ["radio"; "checkbox"]) && bool_decide (length (q_Options q) = 0)
  then Some ("kind=" +:+ fmt_q (q_Kind q) +:+ " requires at least one option") else None.

Definition RequireStructured (q : Question) : option string :=
  if bool_decide (q_Text q = "") then Some errQuestionRequired
  else if negb (Structured (q_Kind q)) then Some (unknownKindError (q_Kind q))
  else validateKindConstraints q.

Fixpoint validate_batch (i : nat) (l : list Question) : option string :=
  match l with
  | [] => None
  | sub :: l =>
      if bool_decide (q_ID sub = "") then Some ("questions[" +:+ fmt_d (Z.of_nat i) +:+ "].id is required")
      else match RequireStructured sub with
           | Some e => Some ("questions[" +:+ fmt_d (Z.of_nat i) +:+ "]: " +:+ e)
           | None => validate_batch (S i) l
           end
  end.

(** [Question.Validate]; [None] is no error. *)
Definition Validate (q : Question) : option string :=
  match q_Batch q with
  | _ :: _ => validate_batch 0 (q_Batch q)
  | [] =>
      if bool_decide (q_Text q = "") then Some errQuestionRequired
      else if negb (bool_decide (q_Kind q = KindFreeform)) && negb (Structured (q_Kind q))
      then Some (unknownKindError (q_Kind q))
      else validateKindConstraints q
  end.

(** * Answers *)

Record Answer := { an_Text : string; an_Value : string; an_Cancelled : bool }.

#[export] Instance Answer_eq_dec : EqDecision Answer.
Proof. solve_decision. Defined.

Definition TextAnswer (s : string) : Answer := {| an_Text := s; an_Value := ""; an_Cancelled := false |}.

Definition JSONAnswer (v : string) : Answer :=
  {| an_Text := if bool_decide (v = "") then "" else default "" (unmarshal_string v);
     an_Value := v; an_Cancelled := false |}.

Definition answer_String (a : Answer) : string :=
  if bool_decide (an_Text a = "") then an_Value a else an_Text a.

(** [Decoded]: text, or the decoded JSON. *)
Definition Decoded (a : Answer) : string + json :=
  if bool_decide (an_Value a = "") then inl (an_Text a)
  else match Unmarshal (an_Value a) with Some j => inr j | None => inl (an_Value a) end.

(** * Batches *)

(** The raw text of every element of an array, as [[]json.RawMessage] holds it. *)
Fixpoint raw_elems (fuel : nat) (l : list ascii) : option (list string) :=
  match fuel with
  | 0 => None
  | S fuel =>
      let l := skip_ws l in
      match parse_value (json_fuel l) 1 l with
      | POk _ rest =>
          let raw := of_list (take (length l - length rest) l) in
          match skip_ws rest with
          | c :: r => if isc 44 c then (cons raw) <$> raw_elems fuel r else Some [raw]
          | [] => None
          end
      | _ => None
      end
  end.

Definition raw_array (text : string) : option (list string) :=
  match json_valid text with
  | Some JNull | Some (JArr []) => Some []
  | Some (JArr _) => raw_elems (length (list_of text)) (tail (skip_ws (list_of text)))
  | _ => None
  end.

(** The raw text of a struct field of type [json.RawMessage]: the value of the last
    member whose name folds to [k]. *)
Fixpoint raw_member (fuel : nat) (k : string) (acc : string) (l : list ascii) : option string :=
  match fuel with
  | 0 => None
  | S fuel =>
      match skip_ws l with
      | q :: r =>
          match scan_string r with
          | Some (name, r) =>
              let l := skip_ws (tail (skip_ws r)) in
              match parse_value (json_fuel l) 1 l with
              | POk _ rest =>
                  let raw := of_list (take (length l - length rest) l) in
                  let acc := if EqualFold (decode_string name) k then raw else acc in
                  match skip_ws rest with
                  | c :: r => if isc 44 c then raw_member fuel k acc r else Some acc
                  | [] => None
                  end
              | _ => None
              end
          | None => None
          end
      | [] => None
      end
  end.

(** The field of an object, empty when absent; [None] when the text is no object. *)
Definition raw_field (text k : string) : option string :=
  match json_valid text with
  | Some JNull | Some (JObj []) => Some ""
  | Some (JObj _) => raw_member (length (list_of text)) k "" (tail (skip_ws (list_of text)))
  | _ => None
  end.

Definition DependencyMet (condition priorAnswer : string) : bool :=
  let answered := negb (bool_decide (priorAnswer = "")) && negb (bool_decide (priorAnswer = "null")) in
  if bool_decide (condition = "") then answered
  else if bool_decide (unmarshal_string condition = Some "answered") then answered
  else match default "" (raw_field condition "equals") with
       | String _ _ as eq => bool_decide (eq = priorAnswer)
       | EmptyString =>
           match default "" (raw_field condition "includes") with
           | String _ _ as inc =>
               match raw_array priorAnswer with Some arr => bool_decide (inc ∈ arr) | None => false end
           | EmptyString => false
           end
       end.

Fixpoint BatchComplete (batch : list Question) (answers : gmap string string) : bool :=
  match batch with
  | [] => true
  | q :: batch =>
      let visible := match q_DependsOn q with
                     | None => true
                     | Some d => match answers !! dp_QuestionID d with
                                 | None => false
                                 | Some prior => DependencyMet (dp_Condition d) prior
                                 end
                     end in
      if visible && negb (bool_decide (is_Some (answers !! q_ID q))) then false
      else BatchComplete batch answers
  end.

(** * The registry *)

Inductive Status := StatusPending | StatusAnswered | StatusDeclined | StatusExpired.

#[export] Instance Status_eq_dec : EqDecision Status.
Proof. solve_decision. Defined.

Definition ModeBlocking : string := "blocking".
Definition ModeDeferred : string := "deferred".

Record Request := {
  rq_ID : string; rq_SessionID : string; rq_RunID : string; rq_NodeID : string;
  rq_Question : Question; rq_Mode : string
}.

Record Entry := {
  en_ID : string; en_SessionID : string; en_RunID : string; en_NodeID : string; en_Question : Question;
  en_Mode : string; en_Status : Status; en_CreatedAt : Z; en_ExpiresAt : option Z; en_Answer : Answer;
  en_DeclineReason : string; en_Partial : gmap string string
}.

Definition no_answer : Answer := {| an_Text := ""; an_Value := ""; an_Cancelled := false |}.

(** The internal record: the entry, its identity as a pointer, and the channel's one
    buffered answer. *)
Record slot := { sl_rec : Entry; sl_ptr : nat; sl_ch : option Answer }.

Record Registry := { rg_entries : gmap string slot; rg_expiry : Z; rg_maxDeferred : nat; rg_next : nat }.

Definition DefaultExpiry : Z := 24 * 3600 * 1000000000.
Definition MaxConcurrentDeferred : Z := 5.

Definition NewRegistry (expiry maxDeferred : Z) : Registry :=
  {| rg_entries := ∅; rg_expiry := if (expiry <=? 0)%Z then DefaultExpiry else expiry;
     rg_maxDeferred := Z.to_nat (if (maxDeferred <=? 0)%Z then MaxConcurrentDeferred else maxDeferred);
     rg_next := 0 |}.

Definition NodeAskID (runID nodeID : string) : string := "node" +:+ nul +:+ runID +:+ nul +:+ nodeID.

Inductive RegErr := ErrTooManyPending | ErrUnknown | ErrDuplicate.

Definition set_entries (r : Registry) (m : gmap string slot) : Registry :=
  {| rg_entries := m; rg_expiry := rg_expiry r; rg_maxDeferred := rg_maxDeferred r; rg_next := rg_next r |}.

Definition in_flight (session : string) (s : slot) : bool :=
  bool_decide (en_SessionID (sl_rec s) = session) && bool_decide (en_Mode (sl_rec s) = ModeDeferred) &&
  bool_decide (en_Status (sl_rec s) = StatusPending).

Definition deferred_pending (session : string) (m : gmap string slot) : nat :=
  size (filter (fun kv => in_flight session kv.2 = true) m).

(** [register]: the time and the generated id are arguments. *)
Definition register (r : Registry) (req : Request) (now : Z) (newAskID : string) : Registry * result Entry RegErr :=
  let mode := if bool_decide (rq_Mode req = "") then ModeBlocking else rq_Mode req in
  let deferred := bool_decide (mode = ModeDeferred) in
  if deferred && bool_decide (rg_maxDeferred r <= deferred_pending (rq_SessionID req) (rg_entries r))
  then (r, Err ErrTooManyPending)
  else
    let id := if bool_decide (rq_ID req = "") then newAskID else rq_ID req in
    match rg_entries r !! id with
    | Some _ => (r, Err ErrDuplicate)
    | None =>
        let rec := {| en_ID := id; en_SessionID := rq_SessionID req; en_RunID := rq_RunID req;
                      en_NodeID := rq_NodeID req; en_Question := rq_Question req; en_Mode := mode;
                      en_Status := StatusPending; en_CreatedAt := now;
                      en_ExpiresAt := if deferred then Some (now + rg_expiry r)%Z else None;
                      en_Answer := no_answer; en_DeclineReason := ""; en_Partial := ∅ |} in
        ({| rg_entries := <[id := {| sl_rec := rec; sl_ptr := rg_next r; sl_ch := None |}]> (rg_entries r);
            rg_expiry := rg_expiry r; rg_maxDeferred := rg_maxDeferred r; rg_next := S (rg_next r) |},
         Ok rec)
    end.

Definition set_outcome (e : Entry) (st : Status) (a : Answer) (reason : string) : Entry :=
  {| en_ID := en_ID e; en_SessionID := en_SessionID e; en_RunID := en_RunID e; en_NodeID := en_NodeID e;
     en_Question := en_Question e; en_Mode := en_Mode e; en_Status := st; en_CreatedAt := en_CreatedAt e;
     en_ExpiresAt := en_ExpiresAt e; en_Answer := a; en_DeclineReason := reason; en_Partial := en_Partial e |}.

(** The non-blocking send on the one-place channel: dropped when the place is taken. *)
Definition send (ch : option Answer) (a : Answer) : option Answer :=
  match ch with None => Some a | Some _ => ch end.

Definition with_pending (r : Registry) (id : string) (f : slot -> slot) : Registry * option RegErr :=
  match rg_entries r !! id with
  | Some s => if bool_decide (en_Status (sl_rec s) = StatusPending)
              then (set_entries r (<[id := f s]> (rg_entries r)), None) else (r, Some ErrUnknown)
  | None => (r, Some ErrUnknown)
  end.

Definition Resolve (r : Registry) (id : string) (a : Answer) : Registry * option RegErr :=
  with_pending r id (fun s =>
    {| sl_rec := set_outcome (sl_rec s) StatusAnswered a (en_DeclineReason (sl_rec s));
       sl_ptr := sl_ptr s; sl_ch := send (sl_ch s) a |}).

Definition cancelled_answer : Answer := {| an_Text := ""; an_Value := ""; an_Cancelled := true |}.

Definition Decline (r : Registry) (id reason : string) : Registry * option RegErr :=
  let reason := if bool_decide (reason = "") then "declined by user" else reason in
  with_pending r id (fun s =>
    {| sl_rec := set_outcome (sl_rec s) StatusDeclined cancelled_answer reason;
       sl_ptr := sl_ptr s; sl_ch := send (sl_ch s) cancelled_answer |}).

Definition set_partial (e : Entry) (p : gmap string string) : Entry :=
  {| en_ID := en_ID e; en_SessionID := en_SessionID e; en_RunID := en_RunID e; en_NodeID := en_NodeID e;
     en_Question := en_Question e; en_Mode := en_Mode e; en_Status := en_Status e; en_CreatedAt := en_CreatedAt e;
     en_ExpiresAt := en_ExpiresAt e; en_Answer := en_Answer e; en_DeclineReason := en_DeclineReason e; en_Partial := p |}.

(** The first critical section of [RecordStep]: the step is stored, and the answers so
    far and the batch are read out. *)
Definition record_step (r : Registry) (id questionID answer : string) (dismissed : bool)
    : Registry * result (gmap string string * list Question) RegErr :=
  let answer := if bool_decide (answer = "") then "null" else answer in
  match rg_entries r !! id with
  | Some s =>
      if bool_decide (en_Status (sl_rec s) = StatusPending) then
        let p := if dismissed then en_Partial (sl_rec s) else <[questionID := answer]> (en_Partial (sl_rec s)) in
        (set_entries r (<[id := {| sl_rec := set_partial (sl_rec s) p; sl_ptr := sl_ptr s; sl_ch := sl_ch s |}]> (rg_entries r)),
         Ok (p, q_Batch (en_Question (sl_rec s))))
      else (r, Err ErrUnknown)
  | None => (r, Err ErrUnknown)
  end.

(** [json.Marshal] of a map of raw messages whose texts are compact already. *)
Definition marshal_raw_map (m : gmap string string) : list ascii :=
  chr 123 :: List.concat (map (fun kv => (if Nat.eqb kv.1 0 then [] else [chr 44]) ++ enc_string kv.2.1 ++ chr 58 :: list_of kv.2.2)
    (imap pair (merge_sort (fun a b => String.le a.1 b.1) (map_to_list m)))) ++ [chr 125].

(** The [BatchAnswer] of a completed or a dismissed wizard, encoded. *)
Definition batch_answer (partial : gmap string string) (dismissed : bool) : string :=
  if dismissed then
    of_list (list_of "{" ++ enc_string "answers" ++ list_of ":null" ++
      (if bool_decide (partial = ∅) then [] else chr 44 :: enc_string "answered_so_far" ++ chr 58 :: marshal_raw_map partial) ++
      chr 44 :: enc_string "dismissed" ++ list_of ":true}")
  else
    of_list (list_of "{" ++ enc_string "answers" ++ chr 58 :: marshal_raw_map partial ++
      chr 44 :: enc_string "dismissed" ++ list_of ":false}").

(** The rest of [RecordStep], on what the first section read. *)
Definition finish_step (r : Registry) (id : string) (dismissed : bool) (partial : gmap string string) (batch : list Question)
    : Registry * bool * option RegErr :=
  if negb dismissed && negb (BatchComplete batch partial) then (r, false, None)
  else
    let '(r, e) := Resolve r id {| an_Text := ""; an_Value := batch_answer partial dismissed; an_Cancelled := dismissed |} in
    (r, true, e).

Definition RecordStep (r : Registry) (id questionID answer : string) (dismissed : bool) : Registry * bool * option RegErr :=
  match record_step r id questionID answer dismissed with
  | (r, Err e) => (r, false, Some e)
  | (r, Ok (partial, batch)) => finish_step r id dismissed partial batch
  end.

Definition Get (r : Registry) (id : string) : option Entry := sl_rec <$> rg_entries r !! id.

Definition Answered (r : Registry) (id : string) : option Answer :=
  match rg_entries r !! id with
  | Some s => if bool_decide (en_Status (sl_rec s) = StatusAnswered) then Some (en_Answer (sl_rec s)) else None
  | None => None
  end.

Definition expire (now : Z) (s : slot) : slot :=
  let e := sl_rec s in
  if bool_decide (en_Mode e = ModeDeferred) && bool_decide (en_Status e = StatusPending) &&
     match en_ExpiresAt e with Some t => (t <? now)%Z | None => false end
  then {| sl_rec := set_outcome e StatusExpired (en_Answer e) "expired"; sl_ptr := sl_ptr s; sl_ch := sl_ch s |}
  else s.

Definition SweepExpired (r : Registry) (now : Z) : Registry := set_entries r (expire now <$> rg_entries r).

Record Filter := { fl_SessionID : string; fl_RunID : string; fl_Mode : string }.

Definition matches (f : Filter) (e : Entry) : bool :=
  (bool_decide (fl_SessionID f = "") || bool_decide (en_SessionID e = fl_SessionID f)) &&
  (bool_decide (fl_RunID f = "") || bool_decide (en_RunID e = fl_RunID f)) &&
  (bool_decide (fl_Mode f = "") || bool_decide (en_Mode e = fl_Mode f)).

Definition listed (f : Filter) (s : slot) : bool :=
  bool_decide (en_Status (sl_rec s) = StatusPending) && matches f (sl_rec s).

(** [ListPending], in some order. *)
Definition ListPending (r : Registry) (f : Filter) (now : Z) : Registry * list Entry :=
  let r := SweepExpired r now in
  (r, sl_rec <$> List.filter (listed f) (map_to_list (rg_entries r)).*2).

Definition PendingCount (r : Registry) : nat :=
  length (List.filter (fun s => bool_decide (en_Status (sl_rec s) = StatusPending)) (map_to_list (rg_entries r)).*2).

(** [Park] after its registration: the waiter takes the answer off the channel, or
    drops its own entry when its context ends. *)
Definition park_receive (r : Registry) (id : string) (ptr : nat) : Registry * option Answer :=
  match rg_entries r !! id with
  | Some s => if Nat.eqb (sl_ptr s) ptr
              then (set_entries r (<[id := {| sl_rec := sl_rec s; sl_ptr := sl_ptr s; sl_ch := None |}]> (rg_entries r)), sl_ch s)
              else (r, None)
  | None => (r, None)
  end.

Definition park_cancel (r : Registry) (id : string) (ptr : nat) : Registry :=
  match rg_entries r !! id with
  | Some s => if Nat.eqb (sl_ptr s) ptr then set_entries r (delete id (rg_entries r)) else r
  | None => r
  end.
