(* ===== verification/ElicitationProps.v ===== *)
(** The registry of pending questions, over every interleaving of its critical
    sections: an ask has one outcome, an accepted answer reaches its waiter, deferred
    asks stay under their cap and only they expire. *)
From S2P Require Import Prelude GoString Utf8 Json Elicitation.

(** One critical section of the registry. *)
Inductive reg_op :=
| OpRegister (req : Request) (now : Z) (newAskID : string)
| OpResolve (id : string) (a : Answer)
| OpDecline (id reason : string)
| OpRecord (id questionID answer : string) (dismissed : bool)
| OpFinish (id : string) (dismissed : bool) (partial : gmap string string) (batch : list Question)
| OpSweep (now : Z)
| OpReceive (id : string) (ptr : nat)
| OpCancel (id : string) (ptr : nat).

Definition apply_op (r : Registry) (o : reg_op) : Registry :=
  match o with
  | OpRegister req now i => (register r req now i).1
  | OpResolve id a => (Resolve r id a).1
  | OpDecline id reason => (Decline r id reason).1
  | OpRecord id q a d => (record_step r id q a d).1
  | OpFinish id d p b => (finish_step r id d p b).1.1
  | OpSweep now => SweepExpired r now
  | OpReceive id ptr => (park_receive r id ptr).1
  | OpCancel id ptr => park_cancel r id ptr
  end.

Definition apply_ops (r : Registry) (os : list reg_op) : Registry := fold_left apply_op os r.

(** * What one step does to one entry *)

(** A pending entry is settled, expires or takes a step of its wizard. *)
Inductive entry_step : slot -> slot -> Prop :=
| entry_settle s st a reason : en_Status (sl_rec s) = StatusPending -> st = StatusAnswered \/ st = StatusDeclined ->
    entry_step s {| sl_rec := set_outcome (sl_rec s) st a reason; sl_ptr := sl_ptr s; sl_ch := send (sl_ch s) a |}
| entry_expire s : en_Status (sl_rec s) = StatusPending -> en_Mode (sl_rec s) = ModeDeferred ->
    entry_step s {| sl_rec := set_outcome (sl_rec s) StatusExpired (en_Answer (sl_rec s)) "expired";
                    sl_ptr := sl_ptr s; sl_ch := sl_ch s |}
| entry_partial s p : en_Status (sl_rec s) = StatusPending ->
    entry_step s {| sl_rec := set_partial (sl_rec s) p; sl_ptr := sl_ptr s; sl_ch := sl_ch s |}.

(** How an operation turns the slot at [id] into the slot after it. *)
Inductive slot_after (o : reg_op) (id : string) : option slot -> option slot -> Prop :=
| slot_same os : slot_after o id os os
| slot_step s s' : entry_step s s' -> slot_after o id (Some s) (Some s')
| slot_received s : o = OpReceive id (sl_ptr s) ->
    slot_after o id (Some s) (Some {| sl_rec := sl_rec s; sl_ptr := sl_ptr s; sl_ch := None |})
| slot_dropped s : o = OpCancel id (sl_ptr s) -> slot_after o id (Some s) None.

Lemma with_pending_after o id r j f :
  (forall s, en_Status (sl_rec s) = StatusPending -> entry_step s (f s)) ->
  slot_after o id (rg_entries r !! id) (rg_entries (with_pending r j f).1 !! id).
Proof.
  intros Hf. unfold with_pending. destruct (rg_entries r !! j) as [s|] eqn:Hj; [|constructor].
  case_bool_decide as Hp; [|constructor]. cbn. destruct (decide (j = id)) as [-> |Hne].
  - rewrite lookup_insert_eq, Hj. constructor. by apply Hf.
  - rewrite lookup_insert_ne by done. constructor.
Qed.

Lemma resolve_after o id r j a : slot_after o id (rg_entries r !! id) (rg_entries (Resolve r j a).1 !! id).
Proof. apply with_pending_after. intros s Hs. apply entry_settle; [done|by left]. Qed.

Definition is_register (o : reg_op) : bool := match o with OpRegister _ _ _ => true | _ => false end.

Lemma op_after r o id : is_register o = false -> slot_after o id (rg_entries r !! id) (rg_entries (apply_op r o) !! id).
Proof.
  destruct o as [|j a|j reason|j q a d|j d p b|now|j ptr|j ptr]; intros Ho; [done|cbn [apply_op]..].
  - apply resolve_after.
  - apply with_pending_after. intros s Hs. apply entry_settle; [done|by right].
  - unfold record_step. destruct (rg_entries r !! j) as [s|] eqn:Hj; [|constructor].
    case_bool_decide as Hp; [|constructor]. cbn. destruct (decide (j = id)) as [-> |Hne].
    + rewrite lookup_insert_eq, Hj. constructor. by apply entry_partial.
    + rewrite lookup_insert_ne by done. constructor.
  - unfold finish_step. case_if; [constructor|].
    pose proof (resolve_after (OpFinish j d p b) id r j
      {| an_Text := ""; an_Value := batch_answer p d; an_Cancelled := d |}) as H.
    by destruct (Resolve _ _ _).
  - unfold SweepExpired, expire. cbn. rewrite lookup_fmap. destruct (rg_entries r !! id) as [s|]; [|constructor]. cbn.
    case_if; [|constructor]. rewrite !andb_true_iff, !bool_decide_eq_true in Heqb. destruct Heqb as [[Hm Hs] _].
    constructor. by apply entry_expire.
  - unfold park_receive. destruct (rg_entries r !! j) as [s|] eqn:Hj; [|constructor].
    destruct (Nat.eqb_spec (sl_ptr s) ptr) as [<-|]; [|constructor]. cbn. destruct (decide (j = id)) as [-> |Hne].
    + rewrite lookup_insert_eq, Hj. by apply slot_received.
    + rewrite lookup_insert_ne by done. constructor.
  - unfold park_cancel. destruct (rg_entries r !! j) as [s|] eqn:Hj; [|constructor].
    destruct (Nat.eqb_spec (sl_ptr s) ptr) as [<-|]; [|constructor]. cbn. destruct (decide (j = id)) as [-> |Hne].
    + rewrite lookup_delete_eq, Hj. by apply slot_dropped.
    + rewrite lookup_delete_ne by done. constructor.
Qed.

(** The slot a registration adds. *)
Definition fresh_slot (r : Registry) (s : slot) : Prop :=
  sl_ptr s = rg_next r /\ sl_ch s = None /\ en_Status (sl_rec s) = StatusPending /\ en_Answer (sl_rec s) = no_answer.

Lemma register_after r req now i id :
  rg_entries (register r req now i).1 !! id = rg_entries r !! id \/
  rg_entries r !! id = None /\ exists s, rg_entries (register r req now i).1 !! id = Some s /\ fresh_slot r s.
Proof.
  unfold register. case_if; [by left|].
  set (key := if bool_decide (rq_ID req = "") then i else rq_ID req).
  destruct (rg_entries r !! key) as [s|] eqn:Hk; [by left|]. cbn [fst rg_entries].
  destruct (decide (key = id)) as [<-|Hne]; [right|left].
  - split; [done|]. eexists. rewrite lookup_insert_eq. split; [reflexivity|]. by split_and!.
  - by rewrite lookup_insert_ne.
Qed.

Lemma register_next r req now i : rg_next r <= rg_next (register r req now i).1.
Proof. unfold register. case_if; [cbn; lia|]. destruct (rg_entries r !! _); cbn; lia. Qed.

Lemma with_pending_next r id f : rg_next (with_pending r id f).1 = rg_next r.
Proof. unfold with_pending. case_match; [|done]. by case_bool_decide. Qed.

Lemma op_next r o : rg_next r <= rg_next (apply_op r o).
Proof.
  destruct o as [req now i|j a|j reason|j q a d|j d p b|now|j ptr|j ptr]; cbn [apply_op]; [apply register_next|..].
  - unfold Resolve. rewrite with_pending_next; lia.
  - unfold Decline. rewrite with_pending_next; lia.
  - unfold record_step. case_match; [|cbn; lia]. case_bool_decide; cbn; lia.
  - unfold finish_step. case_if; [cbn; lia|].
    set (a := {| an_Text := _ |}). pose proof (with_pending_next r j) as H. unfold Resolve.
    specialize (H (fun s => {| sl_rec := set_outcome (sl_rec s) StatusAnswered a (en_DeclineReason (sl_rec s));
       sl_ptr := sl_ptr s; sl_ch := send (sl_ch s) a |})).
    destruct (with_pending _ _ _). cbn in *. lia.
  - cbn. lia.
  - unfold park_receive. case_match; [|cbn; lia]. case_match; cbn; lia.
  - unfold park_cancel. case_match; [|cbn; lia]. case_match; cbn; lia.
Qed.

(** * The invariant of a slot *)

Record slot_ok (r : Registry) (s : slot) : Prop := {
  so_ptr : sl_ptr s < rg_next r;
  so_pending : en_Status (sl_rec s) = StatusPending -> sl_ch s = None /\ en_Answer (sl_rec s) = no_answer;
  so_channel : forall a, sl_ch s = Some a ->
    (en_Status (sl_rec s) = StatusAnswered \/ en_Status (sl_rec s) = StatusDeclined) /\ a = en_Answer (sl_rec s)
}.

Definition reg_ok (r : Registry) : Prop := map_Forall (fun _ => slot_ok r) (rg_entries r).

Lemma entry_step_ok r s s' : slot_ok r s -> entry_step s s' -> slot_ok r s'.
Proof.
  intros [Hp Hpend Hch]. destruct 1 as [s st a reason Hs Hst|s Hs Hm|s p Hs]; destruct (Hpend Hs) as [Hc Ha].
  - split; cbn; [done|by destruct Hst as [->| ->]|]. rewrite Hc. intros a' [= <-]. split; [|done]. naive_solver.
  - split; cbn; [done|done|]. by rewrite Hc.
  - split; cbn; [done|by rewrite Hs|]. by rewrite Hc.
Qed.

Lemma slot_ok_grows r r' s : rg_next r <= rg_next r' -> slot_ok r s -> slot_ok r' s.
Proof. intros Hn [Hp Hs Hc]. split; [lia|done|done]. Qed.

Lemma op_ok r o : reg_ok r -> reg_ok (apply_op r o).
Proof.
  intros Hr id s' Hs'. pose proof (op_next r o) as Hn. destruct (is_register o) eqn:Ho.
  - destruct o as [req now i| | | | | | |]; try done. cbn [apply_op] in *.
    destruct (register_after r req now i id) as [He|(_ & s & Hs & Hp & Hc & Hst & Ha)].
    + rewrite He in Hs'. by apply (slot_ok_grows r), Hr with id.
    + rewrite Hs in Hs'. injection Hs' as <-. split; [|done|by rewrite Hc].
      rewrite Hp. unfold register in *. case_if; [cbn in Hs|].
      { exfalso. apply (Hr id) in Hs as [Hlt _ _]. lia. }
      destruct (rg_entries r !! _) eqn:Hk; [|cbn; lia]. exfalso. cbn in Hs. apply (Hr id) in Hs as [Hlt _ _]. lia.
  - pose proof (op_after r o id Ho) as Ha. rewrite Hs' in Ha. apply (slot_ok_grows r); [done|].
    inversion Ha as [os Hos|s s'' Hst Hold|s Hrec Hold|]; subst.
    + by apply (Hr id).
    + eapply entry_step_ok; [|done]. by apply (Hr id).
    + assert (slot_ok r s) as [Hp Hpend Hch] by by apply (Hr id). split; cbn; [done| |done]. intros Hst. by apply Hpend in Hst as [_ ?].
Qed.

Lemma ops_ok r os : reg_ok r -> reg_ok (apply_ops r os).
Proof. revert r. induction os as [|o os IH]; intros r Hr; [done|]. by apply IH, op_ok. Qed.

Lemma new_ok e m : reg_ok (NewRegistry e m).
Proof. apply map_Forall_empty. Qed.

(** * The cap on deferred asks *)

Lemma pending_mono session (m m' : gmap string slot) :
  (forall id s', m' !! id = Some s' -> in_flight session s' = true -> exists s, m !! id = Some s /\ in_flight session s = true) ->
  deferred_pending session m' <= deferred_pending session m.
Proof.
  intros H. unfold deferred_pending. rewrite <- !size_dom. apply subseteq_size. intros id.
  rewrite !elem_of_dom. intros [s' [Hs' Hf]%map_lookup_filter_Some]. destruct (H id s' Hs' Hf) as (s & Hs & Hsf).
  exists s. by apply map_lookup_filter_Some.
Qed.

Lemma entry_step_in_flight session s s' : entry_step s s' -> in_flight session s' = true -> in_flight session s = true.
Proof.
  unfold in_flight. destruct 1 as [s st a reason Hs Hst|s Hs Hm|s p Hs]; cbn; rewrite !andb_true_iff, !bool_decide_eq_true; naive_solver.
Qed.

Lemma op_cap r o session : deferred_pending session (rg_entries r) <= rg_maxDeferred r ->
  deferred_pending session (rg_entries (apply_op r o)) <= rg_maxDeferred r.
Proof.
  intros Hcap. destruct (is_register o) eqn:Ho.
  - destruct o as [req now i| | | | | | |]; try done. cbn [apply_op]. unfold register. case_if; [done|].
    set (key := if bool_decide (rq_ID req = "") then i else rq_ID req). fold key.
    destruct (rg_entries r !! key) as [s|] eqn:Hk; [done|]. cbn [fst rg_entries].
    set (sl := {| sl_rec := _; sl_ptr := rg_next r; sl_ch := None |}).
    unfold deferred_pending in *. destruct (in_flight session sl) eqn:Hf.
    + rewrite map_filter_insert_True, map_size_insert_None by (done || by apply map_lookup_filter_None; left).
      unfold in_flight, sl in Hf. cbn [sl_rec en_SessionID en_Mode en_Status] in Hf.
      rewrite !andb_true_iff, !bool_decide_eq_true in Hf. destruct Hf as [[<- Hm] _].
      rewrite Hm in Heqb. rewrite bool_decide_eq_true_2 in Heqb by done. cbn in Heqb.
      apply bool_decide_eq_false in Heqb. lia.
    + rewrite map_filter_insert_False by (cbn; congruence). rewrite delete_id; done.
  - etrans; [|exact Hcap]. apply pending_mono. intros id s' Hs' Hf.
    pose proof (op_after r o id Ho) as Ha. rewrite Hs' in Ha.
    inversion Ha as [os Hos|s s'' Hst Hold|s Hrec Hold|]; subst; eexists; (split; [done|]); [done| |done].
    by eapply entry_step_in_flight.
Qed.

Lemma op_max r o : rg_maxDeferred (apply_op r o) = rg_maxDeferred r.
Proof.
  assert (forall id f, rg_maxDeferred (with_pending r id f).1 = rg_maxDeferred r) as Hw.
  { intros id f. unfold with_pending. case_match; [|done]. by case_bool_decide. }
  destruct o as [req now i|j a|j reason|j q a d|j d p b|now|j ptr|j ptr]; cbn [apply_op].
  - unfold register. case_if; [done|]. by destruct (rg_entries r !! _).
  - apply Hw.
  - apply Hw.
  - unfold record_step. case_match; [|done]. by case_bool_decide.
  - unfold finish_step. case_if; [done|]. unfold Resolve.
    match goal with |- context [with_pending r j ?f] => pose proof (Hw j f); by destruct (with_pending r j f) end.
  - done.
  - unfold park_receive. case_match; [|done]. by case_match.
  - unfold park_cancel. case_match; [|done]. by case_match.
Qed.

(** A session never has more deferred asks in flight than the cap, whatever the
    registry is put through. *)
Theorem deferred_asks_capped expiry maxDeferred os session :
  deferred_pending session (rg_entries (apply_ops (NewRegistry expiry maxDeferred) os)) <=
  rg_maxDeferred (NewRegistry expiry maxDeferred).
Proof.
  set (r0 := NewRegistry expiry maxDeferred).
  assert (forall r, rg_maxDeferred r = rg_maxDeferred r0 -> deferred_pending session (rg_entries r) <= rg_maxDeferred r0 ->
    deferred_pending session (rg_entries (apply_ops r os)) <= rg_maxDeferred r0) as H; [|by apply H; [|apply Nat.le_0_l]].
  induction os as [|o os IH]; intros r Hm Hc; [done|]. cbn. apply IH; [by rewrite op_max|].
  rewrite <- Hm in *. by apply op_cap.
Qed.

(** * One outcome *)

(** The operation ends the wait for the ask [id]. *)
Definition settles (id : string) (o : reg_op) : bool :=
  match o with
  | OpResolve j _ | OpDecline j _ | OpFinish j _ _ _ | OpCancel j _ => bool_decide (j = id)
  | _ => false
  end.

Definition cancels (id : string) (o : reg_op) : bool :=
  match o with OpCancel j _ => bool_decide (j = id) | _ => false end.

Definition receives (id : string) (o : reg_op) : bool :=
  match o with OpReceive j _ => bool_decide (j = id) | _ => false end.

(** A settled entry stays as it is; its channel only changes by being received. *)
Lemma settled_stays r o id s :
  rg_entries r !! id = Some s -> en_Status (sl_rec s) <> StatusPending -> cancels id o = false ->
  exists s', rg_entries (apply_op r o) !! id = Some s' /\ sl_rec s' = sl_rec s /\ sl_ptr s' = sl_ptr s /\
    (receives id o = false -> sl_ch s' = sl_ch s).
Proof.
  intros Hs Hst Hc. destruct (is_register o) eqn:Ho.
  - destruct o as [req now i| | | | | | |]; try done. exists s. cbn [apply_op].
    destruct (register_after r req now i id) as [->|[Hn _]]; [done|congruence].
  - pose proof (op_after r o id Ho) as Ha. rewrite Hs in Ha.
    inversion Ha as [os Hos|s0 s' Hstep Hold Hnew|s0 Hrec Hold Hnew|s0 Hd Hold Hnew]; subst.
    + by exists s.
    + destruct Hstep; congruence.
    + eexists. split; [done|]. split_and!; [done|done|]. cbn. by rewrite bool_decide_eq_true_2.
    + cbn in Hc. by rewrite bool_decide_eq_true_2 in Hc.
Qed.

Lemma settled_stays_ops os id : Forall (fun o => cancels id o = false) os -> forall r s,
  rg_entries r !! id = Some s -> en_Status (sl_rec s) <> StatusPending ->
  exists s', rg_entries (apply_ops r os) !! id = Some s' /\ sl_rec s' = sl_rec s /\ sl_ptr s' = sl_ptr s /\
    (Forall (fun o => receives id o = false) os -> sl_ch s' = sl_ch s).
Proof.
  induction 1 as [|o os Ho Hos IH]; intros r s Hs Hst; [by exists s|].
  destruct (settled_stays r o id s Hs Hst Ho) as (s1 & Hs1 & Hr1 & Hp1 & Hc1).
  destruct (IH (apply_op r o) s1 Hs1) as (s2 & Hs2 & Hr2 & Hp2 & Hc2); [by rewrite Hr1|].
  exists s2. split_and!; [done|congruence|congruence|]. intros [Hr Hrs]%Forall_cons_1. rewrite Hc2, Hc1 by done. done.
Qed.

(** An answer that [Resolve] accepted is final: whatever happens next short of
    the waiter giving up, the ask reads as answered with it, a second answer and a
    decline are rejected and change nothing, and the waiter receives exactly that
    answer. *)
Theorem accepted_answer_is_final expiry maxDeferred before r id a r1 after :
  r = apply_ops (NewRegistry expiry maxDeferred) before ->
  Resolve r id a = (r1, None) -> Forall (fun o => cancels id o = false) after ->
  Answered (apply_ops r1 after) id = Some a /\
  (forall b, Resolve (apply_ops r1 after) id b = (apply_ops r1 after, Some ErrUnknown)) /\
  (forall reason, Decline (apply_ops r1 after) id reason = (apply_ops r1 after, Some ErrUnknown)) /\
  (Forall (fun o => receives id o = false) after ->
   forall ptr, sl_ptr <$> rg_entries r !! id = Some ptr -> (park_receive (apply_ops r1 after) id ptr).2 = Some a).
Proof.
  intros -> Hr Hc. set (r := apply_ops _ before) in *.
  assert (reg_ok r) as Hok by apply ops_ok, new_ok.
  unfold Resolve, with_pending in Hr. destruct (rg_entries r !! id) as [s|] eqn:Hs; [|done].
  case_bool_decide as Hp; [|done]. injection Hr as <-.
  destruct (so_pending _ _ (Hok id s Hs) Hp) as [Hch _].
  set (s1 := {| sl_rec := _; sl_ptr := sl_ptr s; sl_ch := _ |}).
  destruct (settled_stays_ops after id Hc (set_entries r (<[id:=s1]> (rg_entries r))) s1) as (s2 & Hs2 & Hr2 & Hp2 & Hc2);
    [by cbn; rewrite lookup_insert_eq|done|].
  set (r2 := apply_ops _ after) in *.
  split_and!.
  - unfold Answered. by rewrite Hs2, Hr2.
  - intros b. unfold Resolve, with_pending. by rewrite Hs2, Hr2.
  - intros reason. unfold Decline, with_pending. by rewrite Hs2, Hr2.
  - intros Hrc ptr [= <-]. unfold park_receive. rewrite Hs2, Hp2. cbn. rewrite Nat.eqb_refl. cbn. rewrite Hc2 by done.
    unfold s1. cbn. by rewrite Hch.
Qed.

(** * Silence is no outcome *)

Lemma blocking_stays r o id s :
  rg_entries r !! id = Some s -> en_Status (sl_rec s) = StatusPending -> en_Mode (sl_rec s) <> ModeDeferred ->
  settles id o = false ->
  exists s', rg_entries (apply_op r o) !! id = Some s' /\ en_Status (sl_rec s') = StatusPending /\
    en_Mode (sl_rec s') <> ModeDeferred.
Proof.
  intros Hs Hst Hm Ho.
  assert (forall j f, j <> id -> rg_entries (with_pending r j f).1 !! id = Some s) as Hw.
  { intros j f Hj. unfold with_pending. case_match; [|done]. case_bool_decide; [|done]. cbn. by rewrite lookup_insert_ne. }
  destruct o as [req now i|j a|j reason|j q a d|j d p b|now|j ptr|j ptr]; cbn [apply_op settles] in *;
    try (apply bool_decide_eq_false in Ho).
  - exists s. destruct (register_after r req now i id) as [->|[Hn _]]; [done|congruence].
  - exists s. split; [by apply (Hw j)|done].
  - exists s. split; [by apply (Hw j)|done].
  - unfold record_step. destruct (rg_entries r !! j) as [s0|] eqn:Hj; [|by exists s].
    case_bool_decide; [|by exists s]. cbn. destruct (decide (j = id)) as [-> |Hne].
    + rewrite lookup_insert_eq. eexists. split; [done|]. cbn. naive_solver.
    + rewrite lookup_insert_ne by done. by exists s.
  - exists s. unfold finish_step. case_if; [done|].
    match goal with |- context [Resolve r j ?a] => pose proof (Hw j (fun s => {| sl_rec := set_outcome (sl_rec s) StatusAnswered a (en_DeclineReason (sl_rec s));
       sl_ptr := sl_ptr s; sl_ch := send (sl_ch s) a |}) Ho) as H; unfold Resolve; destruct (with_pending _ _ _) end. done.
  - cbn. rewrite lookup_fmap, Hs. cbn. exists s. split; [|done]. unfold expire.
    by rewrite (bool_decide_eq_false_2 (en_Mode (sl_rec s) = ModeDeferred)).
  - unfold park_receive. destruct (rg_entries r !! j) as [s0|] eqn:Hj; [|by exists s].
    case_match; [|by exists s]. cbn. destruct (decide (j = id)) as [-> |Hne].
    + rewrite lookup_insert_eq. eexists. split; [done|]. cbn. naive_solver.
    + rewrite lookup_insert_ne by done. by exists s.
  - exists s. unfold park_cancel. case_match; [|done]. case_match; [|done]. cbn. by rewrite lookup_delete_ne.
Qed.

(** A blocking ask waits: no sweep, however late, no other ask and no step of its
    own wizard ends it; only an answer, a decline, the end of its wizard or its waiter
    does. *)
Theorem blocking_ask_waits r os id e :
  Get r id = Some e -> en_Status e = StatusPending -> en_Mode e <> ModeDeferred ->
  Forall (fun o => settles id o = false) os ->
  exists e', Get (apply_ops r os) id = Some e' /\ en_Status e' = StatusPending /\ Answered (apply_ops r os) id = None.
Proof.
  unfold Get. intros Hg Hst Hm Hos. destruct (rg_entries r !! id) as [s|] eqn:Hs; [|done]. injection Hg as <-.
  revert r s Hs Hst Hm. induction Hos as [|o os Ho Hos IH]; intros r s Hs Hst Hm.
  - exists (sl_rec s). cbn. unfold Answered. rewrite Hs. cbn. by rewrite Hst.
  - destruct (blocking_stays r o id s Hs Hst Hm Ho) as (s' & Hs' & Hst' & Hm'). by apply (IH (apply_op r o) s').
Qed.

(** * A concrete ask *)

Definition d_question : Question :=
  {| q_ID := ""; q_Text := "Proceed?"; q_Kind := "radio"; q_Options := [{| op_Value := "y"; op_Label := "Yes" |}];
     q_DependsOn := None; q_Batch := [] |}.

Definition d_request (mode : string) : Request :=
  {| rq_ID := "q1"; rq_SessionID := "s"; rq_RunID := ""; rq_NodeID := ""; rq_Question := d_question; rq_Mode := mode |}.

Definition d_parked (mode : string) : Registry := apply_ops (NewRegistry 0 0) [OpRegister (d_request mode) 5 ""].

(** The answer survives a sweep and a second answer, and the waiter gets it. *)
Lemma accepted_answer_is_final_witness :
  let r1 := (Resolve (d_parked ModeDeferred) "q1" (TextAnswer "y")).1 in
  let r2 := apply_ops r1 [OpSweep (10 ^ 20); OpResolve "q1" (TextAnswer "n")] in
  Answered r2 "q1" = Some (TextAnswer "y") /\ (park_receive r2 "q1" 0).2 = Some (TextAnswer "y").
Proof.
  destruct (accepted_answer_is_final 0 0 [OpRegister (d_request ModeDeferred) 5 ""] (d_parked ModeDeferred) "q1"
    (TextAnswer "y") (Resolve (d_parked ModeDeferred) "q1" (TextAnswer "y")).1
    [OpSweep (10 ^ 20); OpResolve "q1" (TextAnswer "n")]) as (H1 & _ & _ & H2);
    [reflexivity|vm_compute; reflexivity|by repeat constructor|].
  split; [exact H1|]. apply H2; [by repeat constructor|vm_compute; reflexivity].
Defined.

Lemma blocking_ask_waits_witness :
  exists e, Get (apply_ops (d_parked "") [OpSweep (10 ^ 20)]) "q1" = Some e /\ en_Status e = StatusPending.
Proof.
  destruct (blocking_ask_waits (d_parked "") [OpSweep (10 ^ 20)] "q1"
    (default (sl_rec {| sl_rec := {| en_ID := ""; en_SessionID := ""; en_RunID := ""; en_NodeID := ""; en_Question := d_question;
       en_Mode := ""; en_Status := StatusPending; en_CreatedAt := 0; en_ExpiresAt := None; en_Answer := no_answer;
       en_DeclineReason := ""; en_Partial := ∅ |}; sl_ptr := 0; sl_ch := None |}) (Get (d_parked "") "q1")))
    as (e & He & Hs & _); [vm_compute; reflexivity|vm_compute; reflexivity|vm_compute; discriminate|by repeat constructor|].
  exists e. by split.
Defined.

(** The same question deferred is gone after a day. *)
Example deferred_ask_expires :
  en_Status <$> Get (apply_ops (d_parked ModeDeferred) [OpSweep (10 ^ 20)]) "q1" = Some StatusExpired.
Proof. vm_compute. reflexivity. Qed.

(** A registration does not sweep: asks whose day is over still fill the cap, until
    something lists the pending set. *)
Example expired_asks_hold_the_cap :
  let park id := OpRegister {| rq_ID := id; rq_SessionID := "s"; rq_RunID := ""; rq_NodeID := ""; rq_Question := d_question;
                               rq_Mode := ModeDeferred |} 0 "" in
  let full := apply_ops (NewRegistry 0 1) [park "q1"] in
  let late := (10 ^ 20)%Z in
  (register full (d_request ModeDeferred) late "").2 = Err ErrTooManyPending /\
  (match (register (SweepExpired full late) {| rq_ID := "q2"; rq_SessionID := "s"; rq_RunID := ""; rq_NodeID := "";
            rq_Question := d_question; rq_Mode := ModeDeferred |} late "").2 with Ok _ => True | Err _ => False end).
Proof. split; vm_compute; [reflexivity|exact I]. Qed.
