(* ===== verification/AgentGraph.v ===== *)
(** The graph specification the kernel walks (core/agentgraph/spec.go) and the
    graph helpers of core/agentgraph/kernel.go: edge maps, loop bodies,
    breadth-first descendants and leaves. *)
From S2P Require Import Prelude GoString Utf8 Json.

(** * Port values *)

(** One tool call a model emitted. *)
Record ToolCallRequest := { tq_ID : string; tq_Name : string; tq_Arguments : string; tq_IsError : bool }.

#[export] Instance ToolCallRequest_eq_dec : EqDecision ToolCallRequest.
Proof. solve_decision. Defined.

(** What a tool dispatch returns; [tr_Outcome] is empty when not stated. *)
Record ToolResult := { tr_Content : string; tr_IsError : bool; tr_Outcome : string }.

#[export] Instance ToolResult_eq_dec : EqDecision ToolResult.
Proof. solve_decision. Defined.

(** A chat message. *)
Record Message := {
  m_role : string; m_content : string; m_name : string; m_tool_call_id : string;
  m_tool_calls : list ToolCallRequest; m_is_error : bool
}.

#[export] Instance Message_eq_dec : EqDecision Message.
Proof. solve_decision. Defined.

(** A message of which only role and content are set. *)
Definition plain_message (role content : string) : Message :=
  {| m_role := role; m_content := content; m_name := ""; m_tool_call_id := ""; m_tool_calls := [];
     m_is_error := false |}.

(** A finite decimal number [d_man * 10 ^ d_exp]: what a float64 port value or
    a number literal denotes when it has at most 15 significant digits. *)
Record dec := { d_man : Z; d_exp : Z }.

(** Go's [any], as far as the graph code takes it apart with type switches:
    every other dynamic type is a [VOther]. *)
Inductive value :=
| VNil
| VStr (s : string)
| VBool (b : bool)
| VInt (z : Z)
| VFloat (d : dec)
| VMessage (m : Message)
| VMessages (l : list Message)
| VToolCall (c : ToolCallRequest)
| VToolCalls (l : list ToolCallRequest)
| VToolResults (l : list ToolResult)
| VList (l : list value)
| VMap (l : list (string * value))
| VPorts (l : list (string * value))
| VPortsList (l : list (list (string * value)))
| VOther (n : nat).

(** [PortValues] is a Go map from port name to [any]. *)
Abbreviation PortValues := (gmap string value).

(** Comma-ok type assertions: a failed assertion yields the zero value. *)
Definition as_string (v : option value) : string :=
  match v with Some (VStr s) => s | _ => "" end.
Definition as_bool (v : option value) : bool :=
  match v with Some (VBool b) => b | _ => false end.
Definition as_int (v : option value) : Z :=
  match v with Some (VInt z) => z | _ => 0%Z end.

Fixpoint assoc (k : string) (l : list (string * value)) : option value :=
  match l with
  | [] => None
  | (k', v) :: l' => if bool_decide (k = k') then Some v else assoc k l'
  end.

(** * Nodes, edges, graphs *)

Record DecisionAttrs := { da_condition : string; da_next_true : string; da_next_false : string }.
Record RouterChoice := { rc_id : string; rc_target : string; rc_description : string }.
Record RouterAttrs := {
  ra_choices : gmap string value;
  ra_default_choice : string; ra_replan_choice : string;
  ra_mode : string; ra_source_node : string; ra_choice_field : string;
  ra_fallback_to_standalone : bool; ra_max_consecutive_same : Z
}.
Record LadderAttrs := {
  la_target_model : string; la_upstream_node : string; la_max_retries : Z;
  la_planner_model : string; la_ask_question : string; la_fallback_chain_id : string
}.

Record LoopAttrs := { lo_Body : list string; lo_Condition : string; lo_MaxIterations : Z }.
Record RetryAttrs := {
  re_BackoffBaseMs : Z; re_BackoffMaxMs : Z; re_Body : list string; re_MaxAttempts : Z
}.

Record ApprovalAttrs := {
  ap_ApproverRole : string; ap_AutoApproveWindowSeconds : Z; ap_PolicyLabel : string; ap_Prompt : string
}.

(** [QuestionSpec] is a Go map; the list is the object [json.Marshal] makes of it. *)
Record AskAttrs := {
  ak_DefaultAnswer : string; ak_Question : string; ak_QuestionKind : string; ak_QuestionSpec : list (string * json)
}.
Record ParallelAttrs := { pa_FanOut : Z; pa_MaxConcurrency : Z; pa_Targets : list string }.
Record JoinAttrs := { jo_From : list string; jo_Order : string }.
Record ToolDispatchAttrs := { td_MaxConcurrent : Z }.

(** The attribute structs the modelled code asserts on; the struct of any other
    kind is [AOther]. *)
Inductive NodeAttrs :=
| ALoop (a : LoopAttrs)
| ARetry (a : RetryAttrs)
| AReview (upstream : string) (max_iterations : Z)
| ADecision (a : DecisionAttrs)
| ARouter (a : RouterAttrs)
| ALadder (a : LadderAttrs)
| AActivity (activity_id : string)
| AApproval (a : ApprovalAttrs)
| AAsk (a : AskAttrs)
| AParallel (a : ParallelAttrs)
| AJoin (a : JoinAttrs)
| AToolDispatch (a : ToolDispatchAttrs)
| AOther.

Record Port := { pt_Name : string; pt_Type : string; pt_Required : bool }.

(** Dial overrides are a Go map; the list is the order in which it is walked. *)
Record Node := {
  n_id : string; n_kind : string; n_title : string; n_inputs : list Port; n_outputs : list Port;
  n_attrs : NodeAttrs; n_dials : list (string * value)
}.

Record EndpointRef := { ep_node : string; ep_port : string }.
Record Edge := { e_from : EndpointRef; e_to : EndpointRef }.

#[export] Instance EndpointRef_eq_dec : EqDecision EndpointRef.
Proof. solve_decision. Defined.
#[export] Instance Edge_eq_dec : EqDecision Edge.
Proof. solve_decision. Defined.

Definition e_src (e : Edge) : string := ep_node (e_from e).
Definition e_dst (e : Edge) : string := ep_node (e_to e).

Record Budget := {
  b_MaxTokensPerRun : Z; b_MaxWallclockPerRunSecs : Z; b_MaxLLMCallsPerRun : Z;
  b_MaxToolCallsPerRun : Z; b_MaxCostUSDPerRun : Z;
  b_DoomLoopThreshold : Z; b_MaxBacktracksPerRun : Z
}.

Record Graph := {
  g_spec_version : string; g_id : string; g_nodes : list Node; g_edges : list Edge;
  g_entrypoints : list string; g_dials : list (string * value)
}.

Definition NodeKindLoop : string := "loop".
Definition NodeKindRetry : string := "retry".
Definition NodeKindReview : string := "review".
Definition NodeKindDecision : string := "decision".
Definition NodeKindRouter : string := "router".
Definition NodeKindHistoryRead : string := "history_read".
Definition NodeKindApproval : string := "approval".

(** [nodesByID]: a later node with the same id overwrites an earlier one. *)
Definition nodesByID (g : Graph) : gmap string Node :=
  foldl (fun m n => <[n_id n := n]> m) ∅ (g_nodes g).

Lemma nodesByID_fold l (m : gmap string Node) id n :
  foldl (fun m n => <[n_id n := n]> m) m l !! id = Some n ->
  m !! id = Some n \/ (n ∈ l /\ n_id n = id).
Proof.
  revert m. induction l as [|x l IH]; intros m Hl; [by left|].
  apply IH in Hl as [Hl|[Hl Hid]]; [|right; split; [by right|done]].
  apply lookup_insert_Some in Hl as [[<- <-]|[_ Hl]]; [right; split; [by left|done]|by left].
Qed.

Lemma nodesByID_id g id n : nodesByID g !! id = Some n -> n_id n = id.
Proof. intros [Hl|[_ Hid]]%nodesByID_fold; [|done]. by rewrite lookup_empty in Hl. Qed.

(** * Loop and Retry bodies *)

Definition addBody (inside : gset string) (n : Node) : gset string :=
  if bool_decide (n_kind n = NodeKindLoop) then
    match n_attrs n with ALoop a => inside ∪ list_to_set (lo_Body a) | _ => inside end
  else if bool_decide (n_kind n = NodeKindRetry) then
    match n_attrs n with ARetry a => inside ∪ list_to_set (re_Body a) | _ => inside end
  else inside.

Definition bodyNodeIDs (g : Graph) : gset string := foldl addBody ∅ (g_nodes g).

(** * Edge maps *)

Abbreviation EdgeMap := (gmap string (list Edge)).

Definition edges_at (m : EdgeMap) (k : string) : list Edge := default [] (m !! k).

(** [m[k] = append(m[k], e)] *)
Definition edge_append (m : EdgeMap) (k : string) (e : Edge) : EdgeMap :=
  <[k := edges_at m k ++ [e]]> m.

Definition addEdge (inside : gset string) (io : EdgeMap * EdgeMap) (e : Edge) : EdgeMap * EdgeMap :=
  if bool_decide (e_dst e ∈ inside) then io
  else if bool_decide (e_src e ∈ inside) then io
  else (edge_append io.1 (e_dst e) e, edge_append io.2 (e_src e) e).

Definition buildEdges (g : Graph) : EdgeMap * EdgeMap :=
  foldl (addEdge (bodyNodeIDs g)) (∅, ∅) (g_edges g).

Definition visible (g : Graph) (e : Edge) : bool :=
  negb (bool_decide (e_dst e ∈ bodyNodeIDs g)) && negb (bool_decide (e_src e ∈ bodyNodeIDs g)).

(** What the maps hold, edge order kept. *)
Definition inEdges (g : Graph) (id : string) : list Edge :=
  List.filter (fun e => visible g e && bool_decide (e_dst e = id)) (g_edges g).
Definition outEdges (g : Graph) (id : string) : list Edge :=
  List.filter (fun e => visible g e && bool_decide (e_src e = id)) (g_edges g).

Lemma edges_at_append m k e k' :
  edges_at (edge_append m k e) k' =
  if bool_decide (k = k') then edges_at m k' ++ [e] else edges_at m k'.
Proof.
  unfold edges_at at 1, edge_append. rewrite lookup_insert.
  case_decide as H; case_bool_decide; [by subst|done|done|done].
Qed.

Lemma addEdge_at g io e id :
  edges_at (addEdge (bodyNodeIDs g) io e).1 id =
    edges_at io.1 id ++ List.filter (fun e => visible g e && bool_decide (e_dst e = id)) [e] /\
  edges_at (addEdge (bodyNodeIDs g) io e).2 id =
    edges_at io.2 id ++ List.filter (fun e => visible g e && bool_decide (e_src e = id)) [e].
Proof.
  unfold addEdge, visible. simpl.
  destruct (bool_decide (e_dst e ∈ _)); [by rewrite !app_nil_r|].
  destruct (bool_decide (e_src e ∈ _)); [by rewrite !app_nil_r|].
  cbn [negb andb fst snd]. rewrite !edges_at_append.
  split; case_bool_decide; rewrite ?app_nil_r; done.
Qed.

Lemma filter_cons_app {A} (f : A -> bool) x l :
  List.filter f (x :: l) = List.filter f [x] ++ List.filter f l.
Proof. apply (List.filter_app f [x] l). Qed.

Lemma buildEdges_fold g es io id :
  edges_at (foldl (addEdge (bodyNodeIDs g)) io es).1 id =
    edges_at io.1 id ++ List.filter (fun e => visible g e && bool_decide (e_dst e = id)) es /\
  edges_at (foldl (addEdge (bodyNodeIDs g)) io es).2 id =
    edges_at io.2 id ++ List.filter (fun e => visible g e && bool_decide (e_src e = id)) es.
Proof.
  revert io. induction es as [|e es IH]; intros io; [by rewrite !app_nil_r|].
  cbn [foldl]. rewrite (filter_cons_app _ e es), (filter_cons_app (fun e => _ && _) e es).
  destruct (IH (addEdge (bodyNodeIDs g) io e)) as [-> ->].
  destruct (addEdge_at g io e id) as [-> ->]. by rewrite <- !app_assoc.
Qed.

Lemma buildEdges_in g id : edges_at (buildEdges g).1 id = inEdges g id.
Proof. exact (proj1 (buildEdges_fold g (g_edges g) (∅, ∅) id)). Qed.

Lemma buildEdges_out g id : edges_at (buildEdges g).2 id = outEdges g id.
Proof. exact (proj2 (buildEdges_fold g (g_edges g) (∅, ∅) id)). Qed.

Lemma elem_of_inEdges g id e :
  e ∈ inEdges g id <-> e ∈ g_edges g /\ visible g e = true /\ e_dst e = id.
Proof.
  unfold inEdges. rewrite elem_of_filter_bool, andb_true_iff, bool_decide_eq_true. naive_solver.
Qed.

Lemma elem_of_outEdges g id e :
  e ∈ outEdges g id <-> e ∈ g_edges g /\ visible g e = true /\ e_src e = id.
Proof.
  unfold outEdges. rewrite elem_of_filter_bool, andb_true_iff, bool_decide_eq_true. naive_solver.
Qed.

Lemma inEdges_outEdges g e : e ∈ inEdges g (e_dst e) <-> e ∈ outEdges g (e_src e).
Proof. rewrite elem_of_inEdges, elem_of_outEdges. naive_solver. Qed.

#[export] Hint Rewrite elem_of_inEdges elem_of_outEdges : kenaz.

(** * Descendants *)

(** One pass of the inner [for _, e := range outEdges[cur]] loop. *)
Definition bfs_visit (inside : gset string) (st : gset string * list string * list string) (e : Edge)
  : gset string * list string * list string :=
  let '(seen, order, queue) := st in
  let to := e_dst e in
  if bool_decide (to ∈ inside) then st
  else if bool_decide (to ∈ seen) then st
  else ({[to]} ∪ seen, order ++ [to], queue ++ [to]).

(** The queue loop; it gives up with [None] when the fuel runs out. *)
Fixpoint bfs_loop (out : EdgeMap) (inside : gset string) (fuel : nat)
    (seen : gset string) (order queue : list string) : option (list string) :=
  match queue with
  | [] => Some order
  | cur :: queue =>
      match fuel with
      | 0 => None
      | S fuel =>
          let '(seen, order, queue) :=
            foldl (bfs_visit inside) (seen, order, queue) (edges_at out cur) in
          bfs_loop out inside fuel seen order queue
      end
  end.

Definition descendantsInclusive (g : Graph) (target : string) : option (list string) :=
  bfs_loop (buildEdges g).2 (bodyNodeIDs g) (S (length (g_edges g))) {[target]} [target] [target].

(** * Leaves *)

Definition Leaves (g : Graph) : list string :=
  let hasOut : gset string := list_to_set (map e_src (g_edges g)) in
  let inside := bodyNodeIDs g in
  foldl (fun out n =>
           if bool_decide (n_id n ∈ inside) then out
           else if bool_decide (n_id n ∈ hasOut) then out
           else out ++ [n_id n]) [] (g_nodes g).

(** * Correctness of the breadth-first walk *)

Section Descendants.
Context (g : Graph).

(** One kernel-visible edge from [x] to [y]. *)
Definition edge_rel (x y : string) : Prop := exists e, e ∈ outEdges g x /\ e_dst e = y.

Definition reaches : string -> string -> Prop := rtc edge_rel.

Context (target : string).
Let universe : list string := target :: map e_dst (g_edges g).

Record bfs_inv (done queue order : list string) (seen : gset string) : Prop := {
  bi_split : order = done ++ queue;
  bi_seen : forall x, x ∈ seen <-> x ∈ order;
  bi_nodup : NoDup order;
  bi_target : target ∈ order;
  bi_univ : order ⊆ universe;
  bi_reach : forall x, x ∈ order -> reaches target x
}.

Lemma bfs_visit_inv done queue order seen e cur :
  bfs_inv done queue order seen -> cur ∈ order -> e ∈ outEdges g cur ->
  let '(seen', order', queue') := bfs_visit (bodyNodeIDs g) (seen, order, queue) e in
  bfs_inv done queue' order' seen' /\ e_dst e ∈ order' /\ (forall x, x ∈ order -> x ∈ order').
Proof.
  intros I Hcur He. unfold bfs_visit.
  pose proof He as (Hg & Hv & Hsrc)%elem_of_outEdges.
  unfold visible in Hv. apply andb_true_iff in Hv as [Hd _].
  apply negb_true_iff, bool_decide_eq_false in Hd.
  rewrite bool_decide_false by done. destruct I as [? Hs ? ? Hu Hr].
  case_bool_decide as Hseen; [split; [by constructor|]; split; [by apply Hs|done]|].
  assert (e_dst e ∉ order) by (by rewrite <- Hs).
  split; [|split; [apply elem_of_app; right; by left|intros; apply elem_of_app; by left]].
  constructor.
  - subst order. by rewrite app_assoc.
  - intros x. rewrite elem_of_union, elem_of_singleton, Hs, elem_of_app, list_elem_of_singleton. tauto.
  - apply NoDup_app. split; [done|]. split; [set_solver|apply NoDup_singleton].
  - set_solver.
  - intros x [?|Hx%list_elem_of_singleton]%elem_of_app; [by apply Hu|].
    subst x. right. apply list_elem_of_fmap. by exists e.
  - intros x [?|Hx%list_elem_of_singleton]%elem_of_app; [by apply Hr|]. subst x.
    unfold reaches. apply rtc_r with cur; [by apply Hr|]. by exists e.
Qed.

Lemma bfs_visits_inv es done queue order seen cur :
  bfs_inv done queue order seen -> cur ∈ order -> (forall e, e ∈ es -> e ∈ outEdges g cur) ->
  let '(seen', order', queue') := foldl (bfs_visit (bodyNodeIDs g)) (seen, order, queue) es in
  bfs_inv done queue' order' seen' /\ (forall e, e ∈ es -> e_dst e ∈ order') /\
  (forall x, x ∈ order -> x ∈ order').
Proof.
  revert queue order seen. induction es as [|e es IH]; intros queue order seen I Hcur Hes.
  { simpl. split; [done|]. split; [set_solver|done]. }
  cbn [foldl]. destruct (bfs_visit _ _ _) as [[seen1 order1] queue1] eqn:Hv.
  pose proof (bfs_visit_inv _ _ _ _ e cur I Hcur) as H1. rewrite Hv in H1.
  destruct H1 as (I1 & Hd & Hm); [apply Hes; by left|].
  specialize (IH queue1 order1 seen1 I1 (Hm _ Hcur)).
  destruct (foldl _ _ es) as [[seen2 order2] queue2].
  destruct IH as (I2 & Hd2 & Hm2); [intros; apply Hes; by right|].
  split; [done|]. split; [|auto]. intros e1 [-> | ?]%elem_of_cons; auto.
Qed.

Lemma bfs_inv_move done cur queue order seen :
  bfs_inv done (cur :: queue) order seen -> bfs_inv (done ++ [cur]) queue order seen.
Proof. intros []. constructor; auto. subst. by rewrite <- app_assoc. Qed.

Lemma closed_reaches (order : list string) x :
  (forall a b, a ∈ order -> edge_rel a b -> b ∈ order) ->
  target ∈ order -> reaches target x -> x ∈ order.
Proof. intros Hcl Ht Hr. induction Hr; eauto. Qed.

Lemma bfs_loop_spec fuel done queue order seen :
  bfs_inv done queue order seen ->
  fuel + length done = S (length (g_edges g)) ->
  (forall x y, x ∈ done -> edge_rel x y -> y ∈ order) ->
  exists l, bfs_loop (buildEdges g).2 (bodyNodeIDs g) fuel seen order queue = Some l /\
    NoDup l /\ forall x, x ∈ l <-> reaches target x.
Proof.
  revert done queue order seen.
  induction fuel as [|fuel IH]; intros done queue order seen I Hf Hcl;
    destruct queue as [|cur queue].
  1,3: exists order; destruct I as [Hsp ? ? ? ? ?]; rewrite app_nil_r in Hsp; subst done;
    (split; [done|]); (split; [done|]); intros x; split; [auto|]; by apply closed_reaches.
  - exfalso. assert (length order <= length universe) as Hlen.
    { apply submseteq_length, NoDup_submseteq; apply I. }
    unfold universe in Hlen. simpl in Hlen.
    rewrite (bi_split _ _ _ _ I), length_app, length_map in Hlen. simpl in Hlen. lia.
  - cbn [bfs_loop]. rewrite buildEdges_out.
    assert (cur ∈ order) as Hcur by (rewrite (bi_split _ _ _ _ I); set_solver).
    pose proof (bfs_visits_inv (outEdges g cur) _ _ _ _ cur (bfs_inv_move _ _ _ _ _ I) Hcur
                  (fun _ H => H)) as H.
    destruct (foldl _ _ _) as [[seen' order'] queue']. destruct H as (I' & Hd & Hm).
    apply (IH _ _ _ _ I'); [rewrite length_app; simpl; lia|].
    intros x y [Hx|Hx%list_elem_of_singleton]%elem_of_app Hxy; [by eauto|subst x].
    destruct Hxy as (e & He & <-). by apply Hd.
Qed.

Lemma bfs_inv_init : bfs_inv [] [target] [target] {[target]}.
Proof.
  constructor; [done|set_solver|apply NoDup_singleton|by left| |].
  - intros x Hx%list_elem_of_singleton. subst x. by left.
  - intros x Hx%list_elem_of_singleton. subst x. apply rtc_refl.
Qed.

(** [descendantsInclusive] terminates within its fuel and returns, without
    repetition, exactly the nodes reachable from the target. *)
Lemma descendantsInclusive_spec :
  exists l, descendantsInclusive g target = Some l /\ NoDup l /\
    forall x, x ∈ l <-> reaches target x.
Proof.
  apply (bfs_loop_spec (S (length (g_edges g))) [] [target] [target]);
    [apply bfs_inv_init|simpl; lia|set_solver].
Qed.
End Descendants.
