(* ===== verification/EventLog.v ===== *)
(** The event stream of a run (core/agentgraph/events.go): events, batches, the
    [EventLog] interface as a class, and the in-memory log that implements it. *)
From S2P Require Import Prelude AgentGraph.

(** An event; the wall-clock timestamp, which no code path reads back for
    control flow, is left out.  The JSON payload is kept as the object it
    encodes. *)
Record Event := {
  ev_Seq : Z; ev_RunID : string; ev_NodeID : string; ev_Kind : string;
  ev_Payload : list (string * value)
}.

Definition set_seq (n : Z) (e : Event) : Event :=
  {| ev_Seq := n; ev_RunID := ev_RunID e; ev_NodeID := ev_NodeID e; ev_Kind := ev_Kind e;
     ev_Payload := ev_Payload e |}.

(** Event kinds the kernel writes or replays. *)
Definition EventRunStart : string := "run_start".
Definition EventRunComplete : string := "run_complete".
Definition EventRunPaused : string := "run_paused".
Definition EventRunAbandoned : string := "run_abandoned".
Definition EventNodeStart : string := "node_start".
Definition EventNodeComplete : string := "node_complete".
Definition EventNodeError : string := "node_error".
Definition EventNodeSkipped : string := "node_skipped".
Definition EventBacktrackFired : string := "backtrack_fired".
Definition EventTaskGoalSet : string := "task_goal_set".
Definition EventTaskStepCompleted : string := "task_step_completed".
Definition EventTaskForbidden : string := "task_forbidden_added".
Definition EventAskPending : string := "ask_pending".
Definition EventAskAnswered : string := "ask_answered".
Definition EventLadderRung : string := "escalation_ladder_rung".
Definition EventEscalateTriggered : string := "escalate_triggered".
Definition EventPlanCreated : string := "plan_created".
Definition EventRetryAttempt : string := "retry_attempt".
Definition EventBudgetCapHit : string := "budget_cap_hit".
Definition EventCostCapHit : string := "cost_cap_hit".

Abbreviation EventBatch := (list Event).

(** [AppendKind]: the payloads the kernel passes always encode, so the marshal
    error it can return does not arise.  The payload keeps the texts as they are: the
    encoding replaces bytes that are not UTF-8 ([json_text] of Rebuild.v), so this is the
    stored payload of valid texts only. *)
Definition AppendKind (b : EventBatch) (run node kind : string) (payload : list (string * value))
  : EventBatch :=
  b ++ [{| ev_Seq := 0; ev_RunID := run; ev_NodeID := node; ev_Kind := kind; ev_Payload := payload |}].

(** * The interface *)

(** What [Append] and [Replay] promise a client.  [log_events l run] is what
    [Replay] walks. *)
Class EventLog (L : Type) := {
  log_append : L -> EventBatch -> L * result Z string;
  log_events : L -> string -> list Event
}.

(** A batch all of whose events carry the run id [run]. *)
Definition batch_of (run : string) (b : EventBatch) : Prop := Forall (fun e => ev_RunID e = run) b.

(** An append can fail: then a first part of the batch is in the log, possibly none of it
    and possibly all.  Neither log under src undoes that part. *)
Class EventLogLaws (L : Type) `{EventLog L} := {
  log_append_events : forall l b run, run <> "" -> batch_of run b ->
    exists n seqs, (is_ok (log_append l b).2 = true -> n = length b) /\ length seqs = length (take n b) /\
      log_events (log_append l b).1 run = log_events l run ++ zip_with set_seq seqs (take n b);
  log_append_other : forall l b run run', run <> "" -> batch_of run b -> run' <> run ->
    log_events (log_append l b).1 run' = log_events l run'
}.

(** A log that accepts every batch with a run id, as the in-memory log does. *)
Class EventLogTotal (L : Type) `{EventLogLaws L} :=
  log_append_ok : forall l b run, run <> "" -> batch_of run b -> is_ok (log_append l b).2 = true.

Lemma log_append_total {L} `{EventLogTotal L} l b run : run <> "" -> batch_of run b ->
  exists seqs, length seqs = length b /\ log_events (log_append l b).1 run = log_events l run ++ zip_with set_seq seqs b.
Proof.
  intros Hrun Hb. destruct (log_append_events l b run Hrun Hb) as (n & seqs & Hn & Hlen & He).
  rewrite (Hn (log_append_ok l b run Hrun Hb)), firstn_all in *. eauto.
Qed.

(** [Replay]: walks the run's events in order; an error from [fn] aborts. *)
Fixpoint replay_events {S E} (fn : S -> Event -> result S E) (s : S) (l : list Event) : S * option E :=
  match l with
  | [] => (s, None)
  | e :: l => match fn s e with Ok s' => replay_events fn s' l | Err err => (s, Some err) end
  end.

Definition Replay {L S E} `{EventLog L} (l : L) (run : string) (fn : S -> Event -> result S E) (s : S)
  : S * option E := replay_events fn s (log_events l run).

Lemma replay_events_app {S E} (fn : S -> Event -> result S E) s l1 l2 s1 :
  replay_events fn s l1 = (s1, None) ->
  replay_events fn s (l1 ++ l2) = replay_events fn s1 l2.
Proof.
  revert s. induction l1 as [|e l1 IH]; intros s H; simpl in *; [by inv_ok|].
  destruct (fn s e); [by apply IH|]. inv_ok.
Qed.

(** * The in-memory log *)

Module MemLog.
Record memEventLog := { rows : gmap string (list Event); nextSeq : gmap string Z }.

Definition NewMemoryEventLog : memEventLog := {| rows := ∅; nextSeq := ∅ |}.

Definition rows_of (l : memEventLog) (run : string) : list Event := default [] (rows l !! run).

(** One event of the [Append] loop. *)
Definition append_event (l : memEventLog) (e : Event) : memEventLog :=
  let seq := (zget (nextSeq l) (ev_RunID e) + 1)%Z in
  {| rows := <[ev_RunID e := rows_of l (ev_RunID e) ++ [set_seq seq e]]> (rows l);
     nextSeq := <[ev_RunID e := seq]> (nextSeq l) |}.

(** The loop returns at the first event without a run id; the events before
    it are already in the rows. *)
Fixpoint append_loop (l : memEventLog) (last : Z) (b : EventBatch) : memEventLog * result Z string :=
  match b with
  | [] => (l, Ok last)
  | e :: b =>
      if bool_decide (ev_RunID e = "") then (l, Err "missing run_id")
      else append_loop (append_event l e) (zget (nextSeq l) (ev_RunID e) + 1)%Z b
  end.

Definition Append (l : memEventLog) (b : EventBatch) : memEventLog * result Z string :=
  match b with [] => (l, Ok 0%Z) | _ => append_loop l 0 b end.

Definition Len (l : memEventLog) (run : string) : nat := length (rows_of l run).

Definition PausedRunIDs (l : memEventLog) : list string :=
  omap (fun '(run, evs) =>
          match last evs with
          | Some e => if bool_decide (ev_Kind e = EventRunPaused \/ ev_Kind e = EventRunAbandoned)
                      then Some run else None
          | None => None
          end) (map_to_list (rows l)).

#[global] Instance memEventLog_EventLog : EventLog memEventLog :=
  {| log_append := Append; log_events := rows_of |}.

(** ** Well-formedness: the rows of a run are numbered 1, 2, 3, ... *)

Definition wf (l : memEventLog) : Prop :=
  forall run, zget (nextSeq l) run = Z.of_nat (length (rows_of l run)) /\
    forall i e, rows_of l run !! i = Some e -> ev_Seq e = Z.of_nat (S i) /\ ev_RunID e = run.

Lemma rows_of_append_event l e run :
  rows_of (append_event l e) run =
  if bool_decide (ev_RunID e = run)
  then rows_of l run ++ [set_seq (zget (nextSeq l) run + 1) e] else rows_of l run.
Proof.
  unfold rows_of at 1, append_event. cbn [rows]. rewrite lookup_insert.
  case_decide; case_bool_decide; try done. by subst.
Qed.

Lemma wf_append_event l e : wf l -> wf (append_event l e).
Proof.
  intros Hwf run. destruct (Hwf run) as [Hn He].
  rewrite rows_of_append_event. cbn [nextSeq append_event]. rewrite zget_insert.
  case_bool_decide as Hr; [rewrite decide_True by done|rewrite decide_False by done; done].
  subst run. split; [rewrite length_app, Hn; simpl; lia|].
  intros i e' [Hl|[Hi Hl]]%lookup_app_Some; [by apply He|].
  assert (i = length (rows_of l (ev_RunID e))) as -> by (apply lookup_lt_Some in Hl; simpl in Hl; lia).
  rewrite Nat.sub_diag in Hl. injection Hl as <-. cbn. rewrite Hn. split; [lia|done].
Qed.

Lemma wf_append_loop b l last : wf l -> wf (append_loop l last b).1.
Proof.
  revert l last. induction b as [|e b IH]; intros l last Hwf; [done|].
  cbn [append_loop]. case_bool_decide; [done|]. by apply IH, wf_append_event.
Qed.

Lemma wf_Append b l : wf l -> wf (Append l b).1.
Proof. destruct b; [done|]. apply wf_append_loop. Qed.

Lemma append_loop_ok run b l last :
  run <> "" -> batch_of run b ->
  is_ok (append_loop l last b).2 = true /\
  (exists seqs, length seqs = length b /\
     rows_of (append_loop l last b).1 run = rows_of l run ++ zip_with set_seq seqs b) /\
  forall run', run' <> run -> rows_of (append_loop l last b).1 run' = rows_of l run'.
Proof.
  intros Hrun. revert l last. induction b as [|e b IH]; intros l last Hb.
  { split; [done|]. split; [|done]. exists []. by rewrite app_nil_r. }
  apply Forall_cons in Hb as [He Hb]. cbn [append_loop].
  rewrite bool_decide_false by congruence.
  destruct (IH (append_event l e) (zget (nextSeq l) (ev_RunID e) + 1)%Z Hb)
    as (Hok & (seqs & Hlen & Hrows) & Hother).
  split; [done|]. split.
  - exists ((zget (nextSeq l) run + 1)%Z :: seqs). split; [simpl; lia|].
    rewrite Hrows, rows_of_append_event, bool_decide_true by done. by rewrite <- app_assoc.
  - intros run' Hne. rewrite Hother by done. rewrite rows_of_append_event, bool_decide_false; congruence.
Qed.

Lemma Append_loop l b : (Append l b).1 = (append_loop l 0 b).1 /\ is_ok (Append l b).2 = is_ok (append_loop l 0 b).2.
Proof. by destruct b. Qed.

#[global] Instance memEventLog_laws : EventLogLaws memEventLog.
Proof.
  constructor; cbn [log_append log_events memEventLog_EventLog];
    intros l b run; intros; destruct (Append_loop l b) as [HA1 HA2]; rewrite ?HA1, ?HA2;
    edestruct (append_loop_ok run b l 0) as (? & (seqs & ? & ?) & Ho); eauto.
  exists (length b), seqs. by rewrite firstn_all.
Qed.

#[global] Instance memEventLog_total : EventLogTotal memEventLog.
Proof.
  intros l b run Hrun Hb. cbn [log_append memEventLog_EventLog]. destruct (Append_loop l b) as [_ ->].
  by destruct (append_loop_ok run b l 0 Hrun Hb).
Qed.

(** ** What a client sees *)

(** After any sequence of appends, rejected ones included, the events of a
    run are numbered 1, 2, 3, ... without a gap in the order Replay walks them,
    and carry that run's id. *)
Theorem memlog_numbers bs run i e :
  rows_of (foldl (fun l b => (Append l b).1) NewMemoryEventLog bs) run !! i = Some e ->
  ev_Seq e = Z.of_nat (S i) /\ ev_RunID e = run.
Proof.
  assert (forall l, wf l -> wf (foldl (fun l b => (Append l b).1) l bs)) as Hwf.
  { induction bs as [|b bs IH]; intros l Hl; [done|]. by apply IH, wf_Append. }
  apply Hwf. intros r. split; [done|]. intros j e'. by rewrite (lookup_nil (A := Event)).
Qed.

(** A batch with an event that has no run id is rejected, but the events
    before it are already in the log: the in-memory Append is not atomic. *)
Theorem memlog_append_partial l pre bad post :
  pre <> [] -> Forall (fun e => ev_RunID e <> "") pre -> ev_RunID bad = "" ->
  Append l (pre ++ bad :: post) = ((Append l pre).1, Err "missing run_id").
Proof.
  intros Hne Hpre Hbad.
  assert (forall l last, append_loop l last (pre ++ bad :: post) =
            ((append_loop l last pre).1, Err "missing run_id")) as Hloop.
  { clear Hne. induction Hpre as [|e pre He _ IH]; intros l' last; cbn.
    - by rewrite bool_decide_true.
    - rewrite bool_decide_false by done. apply IH. }
  destruct pre as [|e pre]; [done|]. apply Hloop.
Qed.

Definition d_event (run : string) : Event :=
  {| ev_Seq := 0; ev_RunID := run; ev_NodeID := "n"; ev_Kind := EventNodeStart; ev_Payload := [] |}.

Lemma memlog_numbers_witness :
  ev_Seq (set_seq 2 (d_event "r")) = 2%Z /\ ev_RunID (set_seq 2 (d_event "r")) = "r".
Proof.
  apply (memlog_numbers [[d_event "r"]; [d_event "s"; d_event "r"]] "r" 1 (set_seq 2 (d_event "r"))).
  vm_compute. reflexivity.
Defined.

Lemma memlog_append_partial_witness :
  Append NewMemoryEventLog [d_event "r"; d_event ""] =
    ((Append NewMemoryEventLog [d_event "r"]).1, Err "missing run_id") /\
  Len (Append NewMemoryEventLog [d_event "r"; d_event ""]).1 "r" = 1.
Proof.
  split; [|vm_compute; reflexivity].
  apply (memlog_append_partial NewMemoryEventLog [d_event "r"] (d_event "") []).
  - discriminate.
  - apply List.Forall_cons; [discriminate|apply List.Forall_nil].
  - reflexivity.
Defined.
End MemLog.

(** * The SQL log

    [SQLEventLog] (core/agentgraph/eventlog_sql.go): one query for the next number and one
    insert per event, each of which may fail; the rows of the events before stay.  The
    driver is third-party: [sq_faults] is the outcome of its next statements. *)

Module SqlLog.
Record SQLEventLog := { sq_rows : list Event; sq_faults : list bool }.

Definition run_rows (l : SQLEventLog) (run : string) : list Event :=
  List.filter (fun e => bool_decide (ev_RunID e = run)) (sq_rows l).

(** SELECT COALESCE(MAX(seq), 0) + 1 *)
Definition next_seq (l : SQLEventLog) (run : string) : Z := foldr (fun e m => Z.max (ev_Seq e) m) 0%Z (run_rows l run) + 1.

(** The outcome of a statement. *)
Definition statement (l : SQLEventLog) : bool * SQLEventLog :=
  match sq_faults l with
  | [] => (true, l)
  | fault :: faults => (negb fault, {| sq_rows := sq_rows l; sq_faults := faults |})
  end.

Definition insert_row (l : SQLEventLog) (e : Event) : SQLEventLog := {| sq_rows := sq_rows l ++ [e]; sq_faults := sq_faults l |}.

Fixpoint sql_append (l : SQLEventLog) (last : Z) (b : EventBatch) : SQLEventLog * result Z string :=
  match b with
  | [] => (l, Ok last)
  | e :: b =>
      if bool_decide (ev_RunID e = "") then (l, Err "missing run_id")
      else
        let '(queried, l) := statement l in
        if negb queried then (l, Err "next seq")
        else
          let seq := next_seq l (ev_RunID e) in
          let '(inserted, l) := statement l in
          if negb inserted then (l, Err "insert")
          else sql_append (insert_row l (set_seq seq e)) seq b
  end.

#[global] Instance SQLEventLog_EventLog : EventLog SQLEventLog :=
  {| log_append l b := match b with [] => (l, Ok 0%Z) | _ => sql_append l 0 b end; log_events := run_rows |}.

Lemma run_rows_statement l run : run_rows (statement l).2 run = run_rows l run.
Proof. unfold statement. by destruct (sq_faults l). Qed.

Lemma run_rows_insert_row l e n run :
  run_rows (insert_row l (set_seq n e)) run = run_rows l run ++ if bool_decide (ev_RunID e = run) then [set_seq n e] else [].
Proof. unfold run_rows, insert_row. cbn [sq_rows]. rewrite List.filter_app. cbn. by case_bool_decide. Qed.

Lemma sql_append_prefix run b l last : run <> "" -> batch_of run b ->
  (exists n seqs, (is_ok (sql_append l last b).2 = true -> n = length b) /\ length seqs = length (take n b) /\
     run_rows (sql_append l last b).1 run = run_rows l run ++ zip_with set_seq seqs (take n b)) /\
  forall run', run' <> run -> run_rows (sql_append l last b).1 run' = run_rows l run'.
Proof.
  intros Hrun. revert l last. induction b as [|e b IH]; intros l last Hb.
  { split; [|done]. exists 0, []. by rewrite app_nil_r. }
  apply Forall_cons in Hb as [He Hb]. cbn [sql_append]. rewrite bool_decide_false by congruence.
  pose proof (run_rows_statement l) as Hq. destruct (statement l) as [queried l1]. cbn [snd] in Hq.
  destruct queried; cbn [negb]; [|split; [exists 0, []; cbn; by rewrite app_nil_r, Hq|by intros; rewrite Hq]].
  pose proof (run_rows_statement l1) as Hi. generalize (next_seq l1 (ev_RunID e)) as seq. intros seq.
  destruct (statement l1) as [inserted l2]. cbn [snd] in Hi.
  destruct inserted; cbn [negb]; [|split; [exists 0, []; cbn; by rewrite app_nil_r, Hi, Hq|by intros; rewrite Hi, Hq]].
  destruct (IH (insert_row l2 (set_seq seq e)) seq Hb) as ((n & seqs & Hn & Hlen & Hrows) & Hother). split.
  - exists (S n), (seq :: seqs). split_and!; [intros Hok; cbn; by rewrite Hn|cbn; by rewrite Hlen|].
    rewrite Hrows, run_rows_insert_row, bool_decide_true, Hi, Hq by done. by rewrite <- app_assoc.
  - intros run' Hne. rewrite Hother by done. rewrite run_rows_insert_row, bool_decide_false by congruence.
    by rewrite app_nil_r, Hi, Hq.
Qed.

#[global] Instance SQLEventLog_laws : EventLogLaws SQLEventLog.
Proof.
  constructor; cbn [log_append log_events SQLEventLog_EventLog]; intros l b run.
  - intros Hrun Hb. destruct b as [|e b]; [exists 0, []; by rewrite app_nil_r|]. by apply sql_append_prefix.
  - intros run' Hrun Hb Hne. destruct b as [|e b]; [done|]. by apply (sql_append_prefix run (e :: b)).
Qed.

(** A failing insert half-way leaves the first events of the batch in the log. *)
Example sql_append_partial :
  let l := {| sq_rows := []; sq_faults := [false; false; false; true] |} in
  let r := log_append l [MemLog.d_event "r"; MemLog.d_event "r"] in
  r.2 = Err "insert" /\ length (log_events r.1 "r") = 1.
Proof. split; reflexivity. Qed.
End SqlLog.
