(* ===== verification/RunState.v ===== *)
(** The per-run state the kernel and the executors share: the tool-call history
    of the doom-loop guard (doomloop.go), the task state (task_state.go), the
    run counters and the run state (executor.go). *)
From S2P Require Import Prelude GoString AgentGraph.

(** * The doom-loop guard's bounded LRU *)

Module DoomLoop.
Definition doomLoopHistoryCapacity : Z := 128.
Definition DefaultDoomLoopThreshold : Z := 3.

(** [order], front first; [elems] is its index by key and holds nothing else. *)
Record toolCallHistory := { order : list (string * Z); capacity : Z }.

Definition newToolCallHistory (capacity : Z) : toolCallHistory :=
  {| order := [];
     capacity := if (capacity <=? 0)%Z then doomLoopHistoryCapacity else capacity |}.

Definition keys (h : toolCallHistory) : list string := (order h).*1.

Fixpoint find_entry (k : string) (l : list (string * Z)) : option Z :=
  match l with
  | [] => None
  | (k', n) :: l => if bool_decide (k = k') then Some n else find_entry k l
  end.

Definition remove_entry (k : string) (l : list (string * Z)) : list (string * Z) :=
  List.filter (fun kn => negb (bool_decide (k = kn.1))) l.

(** [touch]: bump and move to front, or evict the back and push front. *)
Definition touch (h : toolCallHistory) (key : string) : toolCallHistory * Z :=
  match find_entry key (order h) with
  | Some n =>
      ({| order := (key, (n + 1)%Z) :: remove_entry key (order h); capacity := capacity h |}, (n + 1)%Z)
  | None =>
      let kept := if (capacity h <=? Z.of_nat (length (order h)))%Z
                  then removelast (order h) else order h in
      ({| order := (key, 1%Z) :: kept; capacity := capacity h |}, 1%Z)
  end.

(** A whole run of touches; the counts come back in order. *)
Fixpoint touches (h : toolCallHistory) (ks : list string) : toolCallHistory * list Z :=
  match ks with
  | [] => (h, [])
  | k :: ks => let '(h1, n) := touch h k in let '(h2, ns) := touches h1 ks in (h2, n :: ns)
  end.
End DoomLoop.

(** * Failure annotations *)

(** [FailureAnnotation] without its wall-clock timestamp. *)
Record FailureAnnotation := {
  fa_Node : string; fa_Reason : string; fa_RejectedApproach : string; fa_Iteration : Z
}.

Definition render_annotation (a : FailureAnnotation) : string :=
  "- [backtrack " +:+ fmt_d (fa_Iteration a) +:+ "] node " +:+ fmt_q (fa_Node a) +:+
  " was rewound: " +:+ fa_Reason a +:+
  (if bool_decide (fa_RejectedApproach a = "") then ""
   else " (rejected approach: " +:+ fa_RejectedApproach a +:+ ")") +:+ nl.

Definition renderFailureAnnotations (anns : list FailureAnnotation) : string :=
  match anns with
  | [] => ""
  | _ => TrimRightNL ("Prior attempts were rejected and rewound — do not repeat them verbatim:" +:+ nl +:+
                      foldr (fun a s => render_annotation a +:+ s) "" anns)
  end.

(** * Task state *)

Module TaskState.
Definition maxTaskCompletedSteps : nat := 20.
Definition maxRenderedFailedAttempts : nat := 5.

Record t := {
  goal : string; completedSteps : list string; elidedCompleted : Z; forbidden : gset string
}.

Definition NewTaskState : t :=
  {| goal := ""; completedSteps := []; elidedCompleted := 0; forbidden := ∅ |}.

Definition SetGoal (ts : t) (g : string) : t :=
  {| goal := g; completedSteps := completedSteps ts; elidedCompleted := elidedCompleted ts;
     forbidden := forbidden ts |}.

Definition AddCompletedStep (ts : t) (summary : string) : t :=
  if bool_decide (summary = "") then ts else
  let steps := completedSteps ts ++ [summary] in
  let over := length steps - maxTaskCompletedSteps in
  if bool_decide (0 < over) then
    {| goal := goal ts; completedSteps := drop over steps;
       elidedCompleted := elidedCompleted ts + Z.of_nat over; forbidden := forbidden ts |}
  else
    {| goal := goal ts; completedSteps := steps; elidedCompleted := elidedCompleted ts;
       forbidden := forbidden ts |}.

Definition AddForbidden (ts : t) (actions : list string) : t :=
  {| goal := goal ts; completedSteps := completedSteps ts; elidedCompleted := elidedCompleted ts;
     forbidden := foldl (fun s a => if bool_decide (a = "") then s else {[a]} ∪ s)
                        (forbidden ts) actions |}.

Definition ForbiddenActions (ts : t) : list string := sort_strings (elements (forbidden ts)).

(** [renderTaskState]: the receiver methods of a nil [ts] read as empty. *)
Definition renderTaskState (ots : option t) (anns : list FailureAnnotation) : string :=
  match ots, anns with
  | None, [] => ""
  | _, _ =>
    let ts := default NewTaskState ots in
    let b1 := if bool_decide (goal ts = "") then "" else "Goal: " +:+ goal ts +:+ nl in
    let b2 :=
      if bool_decide (completedSteps ts <> [] \/ (0 < elidedCompleted ts)%Z) then
        "Completed so far" +:+
        (if bool_decide (0 < elidedCompleted ts)%Z
         then " (+" +:+ fmt_d (elidedCompleted ts) +:+ " earlier steps elided)" else "") +:+
        ": " +:+ Join (completedSteps ts) "; " +:+ nl
      else "" in
    let b3 := match ForbiddenActions ts with
              | [] => ""
              | f => "Forbidden actions (do not use): " +:+ Join f ", " +:+ nl
              end in
    let b4 := match anns with
              | [] => ""
              | _ =>
                let elided := length anns - maxRenderedFailedAttempts in
                (if bool_decide (0 < elided)
                 then "(+" +:+ fmt_d (Z.of_nat elided) +:+ " earlier rejected attempts elided)" +:+ nl
                 else "") +:+ renderFailureAnnotations (drop elided anns) +:+ nl
              end in
    TrimRightNL (b1 +:+ b2 +:+ b3 +:+ b4)
  end.
End TaskState.

(** * Run counters *)

(** The cost is an exact number of cost units where the code has a float64. *)
Record RunCounters := {
  rc_LLMTokensUsed : Z; rc_LLMCallsMade : Z; rc_ToolCallsMade : Z; rc_CostUSD : Z;
  rc_WallclockStart : Z; rc_BacktracksUsed : Z
}.

Definition AddLLM (c : RunCounters) (tokens : Z) : RunCounters :=
  {| rc_LLMTokensUsed := rc_LLMTokensUsed c + tokens; rc_LLMCallsMade := rc_LLMCallsMade c + 1;
     rc_ToolCallsMade := rc_ToolCallsMade c; rc_CostUSD := rc_CostUSD c;
     rc_WallclockStart := rc_WallclockStart c; rc_BacktracksUsed := rc_BacktracksUsed c |}.
Definition AddTool (c : RunCounters) : RunCounters :=
  {| rc_LLMTokensUsed := rc_LLMTokensUsed c; rc_LLMCallsMade := rc_LLMCallsMade c;
     rc_ToolCallsMade := rc_ToolCallsMade c + 1; rc_CostUSD := rc_CostUSD c;
     rc_WallclockStart := rc_WallclockStart c; rc_BacktracksUsed := rc_BacktracksUsed c |}.
Definition AddCost (c : RunCounters) (usd : Z) : RunCounters :=
  {| rc_LLMTokensUsed := rc_LLMTokensUsed c; rc_LLMCallsMade := rc_LLMCallsMade c;
     rc_ToolCallsMade := rc_ToolCallsMade c; rc_CostUSD := rc_CostUSD c + usd;
     rc_WallclockStart := rc_WallclockStart c; rc_BacktracksUsed := rc_BacktracksUsed c |}.
Definition AddBacktrack (c : RunCounters) : RunCounters * Z :=
  let n := (rc_BacktracksUsed c + 1)%Z in
  ({| rc_LLMTokensUsed := rc_LLMTokensUsed c; rc_LLMCallsMade := rc_LLMCallsMade c;
      rc_ToolCallsMade := rc_ToolCallsMade c; rc_CostUSD := rc_CostUSD c;
      rc_WallclockStart := rc_WallclockStart c; rc_BacktracksUsed := n |}, n).

(** * Run state *)

Record RunState := {
  rs_values : gmap string PortValues;
  rs_completed : gset string;
  rs_failed : gmap string string;
  rs_userAnswer : string;
  rs_toolCalls : DoomLoop.toolCallHistory;
  rs_failureAnnotations : list FailureAnnotation
}.

Definition NewRunState : RunState :=
  {| rs_values := ∅; rs_completed := ∅; rs_failed := ∅; rs_userAnswer := "";
     rs_toolCalls := DoomLoop.newToolCallHistory DoomLoop.doomLoopHistoryCapacity;
     rs_failureAnnotations := [] |}.

Definition SetOutputs (s : RunState) (id : string) (outputs : PortValues) : RunState :=
  {| rs_values := <[id := outputs]> (rs_values s); rs_completed := {[id]} ∪ rs_completed s;
     rs_failed := rs_failed s; rs_userAnswer := rs_userAnswer s; rs_toolCalls := rs_toolCalls s;
     rs_failureAnnotations := rs_failureAnnotations s |}.

Definition Outputs (s : RunState) (id : string) : PortValues := default ∅ (rs_values s !! id).

Definition MarkFailed (s : RunState) (id : string) (err : string) : RunState :=
  {| rs_values := rs_values s; rs_completed := rs_completed s;
     rs_failed := <[id := err]> (rs_failed s); rs_userAnswer := rs_userAnswer s;
     rs_toolCalls := rs_toolCalls s; rs_failureAnnotations := rs_failureAnnotations s |}.

Definition AddFailureAnnotation (s : RunState) (a : FailureAnnotation) : RunState :=
  {| rs_values := rs_values s; rs_completed := rs_completed s; rs_failed := rs_failed s;
     rs_userAnswer := rs_userAnswer s; rs_toolCalls := rs_toolCalls s;
     rs_failureAnnotations := rs_failureAnnotations s ++ [a] |}.

(** [CompareAndSetOnce] and [ReleaseOnce] *)
Definition CompareAndSetOnce (s : RunState) (key : string) : RunState * bool :=
  if as_bool (Outputs s key !! "fired") then (s, false)
  else (SetOutputs s key {[ "fired" := VBool true ]}, true).

Definition ReleaseOnce (s : RunState) (key : string) : RunState :=
  {| rs_values := delete key (rs_values s); rs_completed := rs_completed s ∖ {[key]};
     rs_failed := rs_failed s; rs_userAnswer := rs_userAnswer s; rs_toolCalls := rs_toolCalls s;
     rs_failureAnnotations := rs_failureAnnotations s |}.

(** [RecordToolCall]; [doomLoopKey] hashes a canonical encoding of the call, so
    the key function is a parameter. *)
Definition RecordToolCall {Args} (doomLoopKey : string -> Args -> string)
    (s : RunState) (tool : string) (args : Args) : RunState * Z :=
  let '(h, n) := DoomLoop.touch (rs_toolCalls s) (doomLoopKey tool args) in
  ({| rs_values := rs_values s; rs_completed := rs_completed s; rs_failed := rs_failed s;
      rs_userAnswer := rs_userAnswer s; rs_toolCalls := h;
      rs_failureAnnotations := rs_failureAnnotations s |}, n).

Lemma Outputs_SetOutputs s id outs id' :
  Outputs (SetOutputs s id outs) id' = if decide (id = id') then outs else Outputs s id'.
Proof. unfold Outputs. cbn. rewrite lookup_insert. by case_decide. Qed.

(** * Facts about the doom-loop history *)

Module DoomLoopFacts.
Import DoomLoop.

Record wf (h : toolCallHistory) : Prop := {
  wf_cap : (0 < capacity h)%Z;
  wf_nodup : NoDup (keys h);
  wf_len : (Z.of_nat (length (order h)) <= capacity h)%Z;
  wf_count : Forall (fun kn => (1 <= kn.2)%Z) (order h)
}.

(** Number of occurrences of [k] in a run of touches. *)
Definition occurrences (k : string) (ks : list string) : Z :=
  Z.of_nat (countb (fun k' => bool_decide (k = k')) ks).

(** The unbounded reference: the i-th touch of a key returns i. *)
Fixpoint ref_counts (seen ks : list string) : list Z :=
  match ks with
  | [] => []
  | k :: ks => (occurrences k seen + 1)%Z :: ref_counts (k :: seen) ks
  end.

Lemma find_entry_None k l : find_entry k l = None <-> k ∉ l.*1.
Proof.
  induction l as [|[k' n] l IH]; simpl; [set_solver|].
  rewrite not_elem_of_cons. case_bool_decide; naive_solver.
Qed.

Lemma find_entry_remove k k' l :
  find_entry k (remove_entry k' l) = if bool_decide (k = k') then None else find_entry k l.
Proof.
  induction l as [|[j n] l IH]; simpl; [by case_bool_decide|].
  destruct (bool_decide_reflect (k' = j)) as [->|Hne]; simpl; rewrite IH;
    repeat case_bool_decide; congruence.
Qed.

Lemma find_entry_removelast k l n :
  find_entry k (removelast l) = Some n -> find_entry k l = Some n.
Proof.
  induction l as [|[j m] l IH]; [done|]. destruct l as [|p l]; [done|].
  intros H. cbn [removelast find_entry] in *. case_bool_decide; auto.
Qed.

Lemma remove_entry_subset k l : remove_entry k l ⊆ l.
Proof. intros x [? _]%elem_of_filter_bool. done. Qed.

Lemma remove_entry_nodup k l : NoDup (l.*1) -> NoDup ((remove_entry k l).*1) /\ k ∉ (remove_entry k l).*1.
Proof.
  intros Hnd. split; [|apply find_entry_None; rewrite find_entry_remove; by rewrite bool_decide_true].
  induction l as [|[j n] l IH]; simpl in *; [constructor|].
  apply NoDup_cons in Hnd as [Hj Hnd]. case_bool_decide; simpl; [by apply IH|].
  apply NoDup_cons. split; [|by apply IH].
  rewrite list_elem_of_fmap in *. intros ([j' m] & -> & Hm%remove_entry_subset). eauto.
Qed.

Lemma remove_entry_length k l : k ∈ l.*1 -> NoDup (l.*1) -> S (length (remove_entry k l)) = length l.
Proof.
  induction l as [|[j n] l IH]; simpl; [by intros ?%elem_of_nil|]. intros Hk [Hj Hnd]%NoDup_cons.
  destruct (bool_decide_reflect (k = j)) as [->|Hne]; simpl; f_equal.
  - clear -Hj. induction l as [|[i m] l IHl]; simpl in *; [done|].
    apply not_elem_of_cons in Hj as [? Hj]. rewrite bool_decide_false by done. simpl. f_equal. auto.
  - apply elem_of_cons in Hk as [?|?]; [done|]. by apply IH.
Qed.

Lemma removelast_cons2 {A} (x y : A) l : removelast (x :: y :: l) = x :: removelast (y :: l).
Proof. done. Qed.

Lemma removelast_length {A} (l : list A) : length (removelast l) = length l - 1.
Proof. induction l as [|x [|y l] IH]; [done..|]. rewrite removelast_cons2. simpl length in *. lia. Qed.

Lemma removelast_subset {A} (l : list A) : removelast l ⊆ l.
Proof.
  induction l as [|x [|y l] IH]; [done|by intros ? ?%elem_of_nil|].
  intros z. rewrite removelast_cons2, !(elem_of_cons _ z x). naive_solver.
Qed.

Lemma removelast_nodup (l : list (string * Z)) : NoDup (l.*1) -> NoDup ((removelast l).*1).
Proof.
  induction l as [|x [|y l] IH]; [done..|intros _; constructor|].
  rewrite removelast_cons2, !(fmap_cons fst x), !NoDup_cons. intros [Hx Hnd]. split; [|by apply IH].
  intros (z & ? & Hz%removelast_subset)%list_elem_of_fmap. apply Hx.
  apply list_elem_of_fmap. exists z. by split.
Qed.

Lemma touch_wf h k : wf h -> wf (touch h k).1.
Proof.
  intros [Hc Hnd Hl Hn]. unfold touch. rewrite Forall_forall in Hn.
  destruct (find_entry k (order h)) as [n|] eqn:Hf.
  - destruct (remove_entry_nodup k (order h) Hnd) as [Hnd' Hk].
    constructor; cbn [order capacity fst]; [done|by apply NoDup_cons| |].
    + simpl. rewrite remove_entry_length; [done| |done].
      destruct (decide (k ∈ (order h).*1)) as [|Hno]; [done|].
      apply find_entry_None in Hno. congruence.
    + apply Forall_cons. split; cbn.
      * assert (exists kn, kn ∈ order h /\ kn.2 = n) as (kn & Hin & <-).
        { clear -Hf. induction (order h) as [|[j m] l IH]; simpl in *; [done|].
          case_bool_decide; [inv_ok; eexists; split; [left|done]|].
          destruct (IH Hf) as (kn & ? & ?). exists kn. split; [by right|done]. }
        specialize (Hn _ Hin). lia.
      * apply Forall_forall. intros x Hx%remove_entry_subset. auto.
  - apply find_entry_None in Hf.
    constructor; cbn [order capacity fst]; [done| | |].
    + cbn. apply NoDup_cons. case_match; [|by split].
      split; [|by apply removelast_nodup].
      intros (z & ? & Hz%removelast_subset)%list_elem_of_fmap. apply Hf.
      apply list_elem_of_fmap. exists z. by split.
    + simpl. case_match; rewrite ?removelast_length; lia.
    + apply Forall_cons. split; [cbn; lia|]. apply Forall_forall.
      intros x Hx. apply Hn. case_match; [by apply removelast_subset|done].
Qed.

Lemma new_wf cap : wf (newToolCallHistory cap).
Proof. constructor; cbn; [|constructor| |constructor]; case_match; unfold doomLoopHistoryCapacity; lia. Qed.

(** What the history knows about the touches [seen] so far (newest first). *)
Record tracks (h : toolCallHistory) (seen : list string) : Prop := {
  tr_wf : wf h;
  tr_le : forall k n, find_entry k (order h) = Some n -> (n <= occurrences k seen)%Z
}.

Record tracks_exactly (h : toolCallHistory) (seen : list string) : Prop := {
  te_tracks : tracks h seen;
  te_eq : forall k, k ∈ seen -> find_entry k (order h) = Some (occurrences k seen);
  te_keys : forall k, k ∈ keys h -> k ∈ seen
}.

Lemma occurrences_cons k j seen :
  occurrences k (j :: seen) = ((if bool_decide (k = j) then 1 else 0) + occurrences k seen)%Z.
Proof. unfold occurrences. rewrite countb_cons. case_bool_decide; lia. Qed.

Lemma touch_tracks h seen k : tracks h seen ->
  tracks (touch h k).1 (k :: seen) /\ ((touch h k).2 <= occurrences k seen + 1)%Z.
Proof.
  intros [Hwf Hle]. split; [constructor; [by apply touch_wf|]|].
  - intros j n. unfold touch. destruct (find_entry k (order h)) as [m|] eqn:Hf; cbn;
      rewrite occurrences_cons; destruct (bool_decide_reflect (j = k)) as [->|Hne].
    + intros [= <-]. apply Hle in Hf. lia.
    + rewrite find_entry_remove, bool_decide_false by done. apply Hle.
    + intros [= <-]. unfold occurrences. lia.
    + case_match; intros Hj; [apply find_entry_removelast in Hj|]; by apply Hle.
  - unfold touch. destruct (find_entry k (order h)) as [m|] eqn:Hf; cbn.
    + apply Hle in Hf. lia.
    + unfold occurrences. lia.
Qed.

Lemma touches_le h seen ks :
  tracks h seen -> Forall2 Z.le (touches h ks).2 (ref_counts seen ks).
Proof.
  revert h seen. induction ks as [|k ks IH]; intros h seen Ht; simpl; [constructor|].
  destruct (touch_tracks h seen k Ht) as [Ht' Hn].
  destruct (touch h k) as [h1 n]. cbn [fst snd] in *. pose proof (IH _ _ Ht') as Hle.
  destruct (touches h1 ks) as [h2 ns]. by constructor.
Qed.

Lemma order_length_distinct h seen :
  tracks_exactly h seen -> length (order h) <= size (list_to_set seen : gset string).
Proof.
  intros [[[_ Hnd _ _] _] _ Hk]. unfold keys in *.
  rewrite <- (length_fmap fst). rewrite <- (size_list_to_set (C:=gset string) (order h).*1) by done.
  apply subseteq_size. intros x. rewrite !elem_of_list_to_set. apply Hk.
Qed.

Lemma touch_exact h seen k :
  tracks_exactly h seen ->
  (Z.of_nat (size (list_to_set (k :: seen) : gset string)) <= capacity h)%Z ->
  tracks_exactly (touch h k).1 (k :: seen) /\ (touch h k).2 = (occurrences k seen + 1)%Z /\
  capacity (touch h k).1 = capacity h.
Proof.
  intros Hte Hcap. pose proof (order_length_distinct h seen Hte) as Hlen.
  pose proof Hte as [Ht Heq Hk].
  destruct (touch_tracks h seen k Ht) as [Ht' _].
  destruct (decide (k ∈ seen)) as [Hin|Hin].
  - pose proof (Heq k Hin) as Hf. unfold touch in *. rewrite Hf in *. cbn [fst snd] in *.
    split; [|done]. constructor; [done| |].
    + intros j Hj. cbn. rewrite occurrences_cons.
      destruct (bool_decide_reflect (j = k)) as [->|Hne]; [f_equal; lia|].
      rewrite find_entry_remove, bool_decide_false by done. apply Heq. set_solver.
    + intros j. unfold keys. cbn. rewrite elem_of_cons. intros [->|(z & -> & Hz%remove_entry_subset)%list_elem_of_fmap]; [by left|].
      right. apply Hk. apply list_elem_of_fmap. eauto.
  - assert (find_entry k (order h) = None) as Hf by (apply find_entry_None; naive_solver).
    assert (occurrences k seen = 0%Z) as Hz.
    { unfold occurrences. rewrite (proj2 (countb_zero _ seen)); [done|].
      intros j Hj. apply bool_decide_false. congruence. }
    unfold touch in *. rewrite Hf in *. cbn [fst snd] in *.
    assert ((capacity h <=? Z.of_nat (length (order h)))%Z = false) as Hc.
    { apply Z.leb_gt. cbn in Hcap. rewrite size_union in Hcap by set_solver.
      rewrite size_singleton in Hcap. lia. }
    rewrite Hc in *. split; [|split; [lia|done]]. constructor; [done| |].
    + intros j Hj. cbn. rewrite occurrences_cons.
      destruct (bool_decide_reflect (j = k)) as [->|Hne]; [f_equal; lia|]. apply Heq. set_solver.
    + intros j. unfold keys. cbn. rewrite elem_of_cons. intros [->|Hj]; [by left|]. right. by apply Hk.
Qed.

Lemma touches_exact h seen ks :
  tracks_exactly h seen ->
  (Z.of_nat (size (list_to_set (ks ++ seen) : gset string)) <= capacity h)%Z ->
  (touches h ks).2 = ref_counts seen ks.
Proof.
  revert h seen. induction ks as [|k ks IH]; intros h seen Ht Hcap; [done|].
  cbn [touches ref_counts].
  destruct (touch_exact h seen k Ht) as (Ht' & Hn & Hc).
  { etrans; [|exact Hcap]. apply inj_le, subseteq_size. intros x. rewrite !elem_of_list_to_set. set_solver. }
  destruct (touch h k) as [h1 n]. cbn [fst snd] in *. subst n.
  pose proof (IH h1 (k :: seen) Ht') as Hx. destruct (touches h1 ks) as [h2 ns]. cbn [snd] in *.
  rewrite Hx; [done|]. rewrite Hc. etrans; [|exact Hcap].
  apply inj_le, subseteq_size. intros x. rewrite !elem_of_list_to_set. set_solver.
Qed.

Lemma new_tracks cap : tracks_exactly (newToolCallHistory cap) [].
Proof. constructor; [constructor; [apply new_wf|done]|set_solver|done]. Qed.

(** The guard's repeat count is exact while the run uses no more distinct
    calls than the history holds, and is never above the true count: the
    guard cannot trip on a call that was not repeated that often. *)
Theorem doom_loop_counts cap ks :
  let h := newToolCallHistory cap in
  Forall2 Z.le (touches h ks).2 (ref_counts [] ks) /\
  ((Z.of_nat (size (list_to_set ks : gset string)) <= capacity h)%Z ->
   (touches h ks).2 = ref_counts [] ks).
Proof.
  split; [apply touches_le, new_tracks|].
  intros H. apply touches_exact; [apply new_tracks|]. by rewrite app_nil_r.
Qed.

Lemma doom_loop_counts_witness :
  let h := newToolCallHistory 128 in
  (touches h ["read:a"; "read:b"; "read:a"; "read:a"]).2 = [1; 1; 2; 3]%Z /\
  (touches h ["read:a"; "read:b"; "read:a"; "read:a"]).2 =
    ref_counts [] ["read:a"; "read:b"; "read:a"; "read:a"].
Proof.
  split; [vm_compute; reflexivity|].
  apply (doom_loop_counts 128). vm_compute. discriminate.
Defined.
End DoomLoopFacts.

Module TaskStateFacts.
Import TaskState.

(** The non-empty summaries, in order. *)
Definition recorded (ss : list string) : list string := List.filter (fun s => negb (bool_decide (s = ""))) ss.

(** The window over the summaries recorded so far. *)
Definition window_of (ts : t) (l : list string) : Prop :=
  completedSteps ts = drop (length l - maxTaskCompletedSteps) l /\
  elidedCompleted ts = Z.of_nat (length l - maxTaskCompletedSteps).

Lemma add_step_window ts l s :
  window_of ts l -> window_of (AddCompletedStep ts s) (if bool_decide (s = "") then l else l ++ [s]).
Proof.
  intros [Hc He]. unfold AddCompletedStep. case_bool_decide; [done|]. rewrite Hc.
  assert (length (drop (length l - maxTaskCompletedSteps) l ++ [s]) - maxTaskCompletedSteps =
          if decide (maxTaskCompletedSteps <= length l) then 1 else 0) as Hover.
  { rewrite length_app, length_drop. cbn [length]. case_decide; lia. }
  rewrite Hover. unfold window_of. rewrite length_app. cbn [length]. case_decide as Hd.
  - rewrite bool_decide_true by lia. cbn [completedSteps elidedCompleted]. rewrite He. split; [|lia].
    rewrite drop_app_le by (rewrite length_drop; unfold maxTaskCompletedSteps in *; lia).
    rewrite drop_drop. rewrite drop_app_le by (unfold maxTaskCompletedSteps in *; lia). do 2 f_equal. lia.
  - rewrite bool_decide_false by lia. cbn [completedSteps elidedCompleted]. rewrite He. split; [|lia].
    rewrite drop_app_le by lia. do 2 f_equal. lia.
Qed.

(** The task state keeps the last twenty non-empty step summaries in order,
    and its elided counter is exactly the number of the older ones, so that no
    recorded step is lost without being counted. *)
Theorem completed_steps_window ss :
  let ts := foldl AddCompletedStep NewTaskState ss in
  completedSteps ts = drop (length (recorded ss) - maxTaskCompletedSteps) (recorded ss) /\
  elidedCompleted ts = Z.of_nat (length (recorded ss) - maxTaskCompletedSteps).
Proof.
  assert (forall ss ts l, window_of ts l -> window_of (foldl AddCompletedStep ts ss) (l ++ recorded ss)) as Hall.
  { clear ss. induction ss as [|s ss IH]; intros ts l Hw; [by rewrite app_nil_r|]. cbn [foldl].
    apply (add_step_window _ _ s) in Hw. apply IH in Hw. unfold recorded in *. cbn [List.filter].
    case_bool_decide; cbn [negb]; [done|]. by rewrite <- app_assoc in Hw. }
  by apply (Hall ss NewTaskState []).
Qed.
End TaskStateFacts.
