(* ===== verification/Kernel.v ===== *)
(** The graph executor of core/agentgraph/kernel.go.

    [Kernel.Run] starts one goroutine per node dispatch and guards its traversal
    state with one mutex.  The model is a transition system: a state holds the
    mutex-guarded maps, the shared run state and the live goroutines; one step
    runs one goroutine through one stretch of code that the source executes
    under the mutex (or without touching shared maps), so every interleaving of
    the critical sections is a sequence of steps. *)
From S2P Require Import Prelude GoString AgentGraph EventLog RunState.

(** * Results, errors, executors *)

Record BacktrackRequest := { bt_TargetNode : string; bt_Reason : string; bt_RejectedApproach : string }.

Record Result := {
  r_Outputs : PortValues; r_Events : EventBatch; r_Pause : bool; r_PauseReason : string;
  r_Backtrack : option BacktrackRequest
}.

Definition NewResult : Result :=
  {| r_Outputs := ∅; r_Events := []; r_Pause := false; r_PauseReason := ""; r_Backtrack := None |}.

(** An error value: its text, whether [errors.Is] finds [ErrPaused] or
    [ErrBudgetExceeded] in it, and the summary when [errors.As] finds a policy
    denial. *)
Record KErr := {
  ke_msg : string; ke_paused : bool; ke_budget : bool; ke_denied : option string
}.

Definition plain_err (msg : string) : KErr :=
  {| ke_msg := msg; ke_paused := false; ke_budget := false; ke_denied := None |}.

(** The part of an executor the kernel consults besides running it: the optional
    [EdgeRouter] predicate.  A [None] answer means every out-edge is live. *)
Class EdgeRouter (X : Type) := LiveOutEdges : X -> Node -> PortValues -> option (Edge -> bool).

Record Executor := { ex_router : option (Node -> PortValues -> option (Edge -> bool)) }.

Record KConfig := {
  cfg_graph : Graph;
  cfg_registry : gmap string Executor;
  cfg_maxInFlight : nat;
  cfg_RunID : string;
  cfg_SessionID : string;
  cfg_Budget : Budget;
  cfg_armAlways : bool;
  cfg_history : option (list Message)
}.

(** * Backtrack requests *)

Definition DefaultMaxBacktracksPerRun : Z := 3.

Definition resolveBacktrack (r : Result) : option BacktrackRequest :=
  match r_Backtrack r with
  | Some b => Some b
  | None =>
      if as_bool (r_Outputs r !! "should_retry") then
        let target := as_string (r_Outputs r !! "retry_target") in
        if bool_decide (target = "") then None else
        let reason :=
          match r_Outputs r !! "verdict" with
          | Some (VMap v) =>
              match assoc "text" v with
              | Some (VStr txt) => if bool_decide (txt = "") then "verification failed" else txt
              | _ => "verification failed"
              end
          | _ => "verification failed"
          end in
        Some {| bt_TargetNode := target; bt_Reason := reason;
                bt_RejectedApproach := as_string (r_Outputs r !! "approved") |}
      else None
  end.

(** * Goal derivation *)

Definition maxTaskGoalRunes : nat := 400.

(** UTF-8: a byte 10xxxxxx continues the rune before it. *)
Definition is_cont (c : Ascii.ascii) : bool :=
  let n := Ascii.N_of_ascii c in ((128 <=? n) && (n <? 192))%N.
Definition rune_count (s : string) : nat := countb (fun c => negb (is_cont c)) (list_of s).
Fixpoint take_runes (n : nat) (l : list Ascii.ascii) : list Ascii.ascii :=
  match l with
  | [] => []
  | c :: l =>
      if is_cont c then c :: take_runes n l
      else match n with 0 => [] | S n => c :: take_runes n l end
  end.

Fixpoint goal_of (msgs : list Message) : string :=
  match msgs with
  | [] => ""
  | m :: msgs =>
      if EqualFold (m_role m) "user" then
        let goal := TrimSpace (m_content m) in
        if bool_decide (goal = "") then ""
        else if bool_decide (maxTaskGoalRunes < rune_count goal)
        then of_list (take_runes maxTaskGoalRunes (list_of goal)) +:+ "…"
        else goal
      else goal_of msgs
  end.

Definition goalFromMessages (v : option value) : string :=
  match v with
  | Some (VMessages l) => goal_of l
  | Some (VList l) => goal_of (omap (fun x => match x with VMessage m => Some m | _ => None end) l)
  | _ => ""
  end.

Definition firstUserTurnGoal (c : KConfig) : string :=
  if bool_decide (cfg_SessionID c = "") then "" else
  match cfg_history c with None => "" | Some msgs => goal_of msgs end.

Definition nonMeaningfulTaskStepKinds : list string :=
  ["decision"; "join"; "loop"; "retry"; "branch"; "merge"; "parallel"; "checkpoint"; "trace_write";
   "attachment"; "history_read"; "ask"; "compact"; "sleep"; "escalation_ladder"].

Definition isMeaningfulNodeKind (kind : string) : bool :=
  negb (bool_decide (kind ∈ nonMeaningfulTaskStepKinds)).

Definition completedStepSummary (nd : Node) : string :=
  let label := TrimSpace (n_title nd) in
  (if bool_decide (label = "") then n_id nd else label) +:+ " (" +:+ n_kind nd +:+ ")".

(** * Kernel state *)

(** Where a dispatch goroutine stands. *)
Inductive Phase :=
| PhSpawn                          (* started, holding a semaphore slot *)
| PhBudget                         (* past the firstErr / pause guard *)
| PhExec (inputs : PortValues)     (* its executor is running *)
| PhErr (e : KErr)                 (* failed; recovery bookkeeping left *)
| PhResult (r : Result)            (* outputs recorded; stale check left *)
| PhFresh (r : Result)             (* passed the stale check, mutex released *)
| PhTopo (r : Result) (valid : option string) (err : option KErr)
                                   (* backtrack resolved; topology update left *)
| PhPost (r : Result) (stepDone : bool) (skips : list (string * string * nat))
         (toLaunch : list (string * Z))
| PhLaunch (l : list (string * Z)).  (* acquiring slots for its children *)

Record Proc := { p_node : string; p_gen : Z; p_phase : Phase }.

Section State.
Context {L : Type}.

Record KState := {
  k_inDeg : gmap string Z; k_liveIn : gmap string Z;
  k_completed : gset string; k_skipped : gset string;
  k_inFlight : gset string; k_generation : gmap string Z;
  k_firstErr : option KErr; k_pause : bool; k_pauseReason : string;
  k_goalArmed : bool; k_recoveryArmed : bool;
  k_run : RunState; k_counters : RunCounters; k_task : TaskState.t;
  k_log : L;
  k_seeds : list (string * Z);
  k_procs : list Proc
}.

(** The mutex-guarded traversal maps. *)
Definition upd_maps (s : KState) inDeg liveIn completed skipped inFlight generation : KState :=
  {| k_inDeg := inDeg; k_liveIn := liveIn; k_completed := completed; k_skipped := skipped;
     k_inFlight := inFlight; k_generation := generation;
     k_firstErr := k_firstErr s; k_pause := k_pause s; k_pauseReason := k_pauseReason s;
     k_goalArmed := k_goalArmed s; k_recoveryArmed := k_recoveryArmed s;
     k_run := k_run s; k_counters := k_counters s; k_task := k_task s; k_log := k_log s;
     k_seeds := k_seeds s; k_procs := k_procs s |}.

Definition set_inFlight (s : KState) (f : gset string) : KState :=
  upd_maps s (k_inDeg s) (k_liveIn s) (k_completed s) (k_skipped s) f (k_generation s).

Definition upd_status (s : KState) firstErr pause pauseReason : KState :=
  {| k_inDeg := k_inDeg s; k_liveIn := k_liveIn s; k_completed := k_completed s;
     k_skipped := k_skipped s; k_inFlight := k_inFlight s; k_generation := k_generation s;
     k_firstErr := firstErr; k_pause := pause; k_pauseReason := pauseReason;
     k_goalArmed := k_goalArmed s; k_recoveryArmed := k_recoveryArmed s;
     k_run := k_run s; k_counters := k_counters s; k_task := k_task s; k_log := k_log s;
     k_seeds := k_seeds s; k_procs := k_procs s |}.

(** [if firstErr == nil { firstErr = err }] *)
Definition fail_with (s : KState) (e : KErr) : KState :=
  match k_firstErr s with
  | None => upd_status s (Some e) (k_pause s) (k_pauseReason s)
  | Some _ => s
  end.

(** The state outside the traversal: run state, counters, task state, log. *)
Definition upd_env (s : KState) run counters task log goalArmed recoveryArmed : KState :=
  {| k_inDeg := k_inDeg s; k_liveIn := k_liveIn s; k_completed := k_completed s;
     k_skipped := k_skipped s; k_inFlight := k_inFlight s; k_generation := k_generation s;
     k_firstErr := k_firstErr s; k_pause := k_pause s; k_pauseReason := k_pauseReason s;
     k_goalArmed := goalArmed; k_recoveryArmed := recoveryArmed;
     k_run := run; k_counters := counters; k_task := task; k_log := log;
     k_seeds := k_seeds s; k_procs := k_procs s |}.

Definition set_log (s : KState) (l : L) : KState :=
  upd_env s (k_run s) (k_counters s) (k_task s) l (k_goalArmed s) (k_recoveryArmed s).
Definition set_run (s : KState) (r : RunState) : KState :=
  upd_env s r (k_counters s) (k_task s) (k_log s) (k_goalArmed s) (k_recoveryArmed s).
Definition set_counters (s : KState) (c : RunCounters) : KState :=
  upd_env s (k_run s) c (k_task s) (k_log s) (k_goalArmed s) (k_recoveryArmed s).
Definition set_task (s : KState) (t : TaskState.t) : KState :=
  upd_env s (k_run s) (k_counters s) t (k_log s) (k_goalArmed s) (k_recoveryArmed s).
Definition set_armed (s : KState) (goalArmed recoveryArmed : bool) : KState :=
  upd_env s (k_run s) (k_counters s) (k_task s) (k_log s) goalArmed recoveryArmed.

Definition set_procs (s : KState) (seeds : list (string * Z)) (ps : list Proc) : KState :=
  {| k_inDeg := k_inDeg s; k_liveIn := k_liveIn s; k_completed := k_completed s;
     k_skipped := k_skipped s; k_inFlight := k_inFlight s; k_generation := k_generation s;
     k_firstErr := k_firstErr s; k_pause := k_pause s; k_pauseReason := k_pauseReason s;
     k_goalArmed := k_goalArmed s; k_recoveryArmed := k_recoveryArmed s;
     k_run := k_run s; k_counters := k_counters s; k_task := k_task s; k_log := k_log s;
     k_seeds := seeds; k_procs := ps |}.
End State.
Arguments KState : clear implicits.

(** * Task-state setters: update, then persist

    The code makes the update and the append one after the other, outside [mu]; here they
    are one step of the kernel, and [Writers] of Rebuild.v takes them apart. *)

Section Kernel.
Context {L : Type} `{EventLog L} (c : KConfig).
Let g := cfg_graph c.
Let run := cfg_RunID c.

(** [k.log.Append(batch)]: the state with the new log, and the error. *)
Definition k_append (s : KState L) (b : EventBatch) : KState L * option string :=
  let '(l, r) := log_append (k_log s) b in
  (set_log s l, match r with Ok _ => None | Err e => Some e end).

Definition SetTaskGoal (s : KState L) (goal : string) : KState L * option string :=
  let s := set_task s (TaskState.SetGoal (k_task s) goal) in
  k_append s (AppendKind [] run "" EventTaskGoalSet [("goal", VStr goal)]).

Definition AddTaskCompletedStep (s : KState L) (summary : string) : KState L * option string :=
  if bool_decide (summary = "") then (s, None) else
  let s := set_task s (TaskState.AddCompletedStep (k_task s) summary) in
  k_append s (AppendKind [] run "" EventTaskStepCompleted [("summary", VStr summary)]).

Definition AddTaskForbidden (s : KState L) (actions : list string) : KState L * option string :=
  match actions with
  | [] => (s, None)
  | _ =>
    let s := set_task s (TaskState.AddForbidden (k_task s) actions) in
    k_append s (AppendKind [] run "" EventTaskForbidden [("actions", VList (map VStr actions))])
  end.

(** [armTaskGoal], [armRecovery], [armGoalFromNode], [recordsCompletedSteps] *)
Definition armTaskGoal (s : KState L) (goal : string) : KState L :=
  if k_goalArmed s then s else
  let s := set_armed s true (k_recoveryArmed s) in
  if bool_decide (goal = "") then s else (SetTaskGoal s goal).1.

Definition armRecovery (s : KState L) : KState L :=
  if k_recoveryArmed s then s else
  armTaskGoal (set_armed s (k_goalArmed s) true) (firstUserTurnGoal c).

Definition armGoalFromNode (s : KState L) (nd : Node) (outs : PortValues) : KState L :=
  if negb (cfg_armAlways c) || negb (bool_decide (n_kind nd = NodeKindHistoryRead)) then s
  else armTaskGoal s (goalFromMessages (outs !! "messages")).

Definition recordsCompletedSteps (s : KState L) : bool := cfg_armAlways c || k_recoveryArmed s.

Definition recordStep (s : KState L) (nd : Node) (stepDone : bool) : KState L :=
  if stepDone && isMeaningfulNodeKind (n_kind nd) && recordsCompletedSteps s
  then (AddTaskCompletedStep s (completedStepSummary nd)).1 else s.

(** * Budget *)

(** The [PauseMarker] payload; used and limit are reported as exact numbers. *)
Definition pauseMarker (reason : string) (limit used : Z) : list (string * value) :=
  [("reason", VStr reason); ("limit", VInt limit); ("used", VInt used);
   ("resume_token", VStr (run +:+ ":" +:+ reason)); ("pause_pending_cap_increase", VBool true)].

Definition budget_err (reason : string) (limit used : Z) : KErr :=
  {| ke_msg := "agentgraph: budget exceeded (" +:+ reason +:+ ": " +:+ fmt_d used +:+ "/" +:+
               fmt_d limit +:+ ")";
     ke_paused := false; ke_budget := true; ke_denied := None |}.

Definition emitCapHit (s : KState L) (kind reason : string) (limit used : Z) : KState L * KErr :=
  ((k_append s (AppendKind [] run "" kind (pauseMarker reason limit used))).1,
   budget_err reason limit used).

Definition second : Z := 1000000000.

(** [checkBudget] at wall-clock time [now] (nanoseconds).  The used seconds in the record
    of a wall-clock hit are whole ones here, a float64 in the code; nothing reads them. *)
Definition checkBudget (now : Z) (s : KState L) : KState L * option KErr :=
  let b := cfg_Budget c in
  let cs := k_counters s in
  let over limit used := (0 <? limit)%Z && (limit <? used)%Z in
  let hit kind reason limit used :=
    let '(s, e) := emitCapHit s kind reason limit used in (s, Some e) in
  if over (b_MaxTokensPerRun b) (rc_LLMTokensUsed cs) then
    hit EventBudgetCapHit "max_tokens_per_run" (b_MaxTokensPerRun b) (rc_LLMTokensUsed cs)
  else if over (b_MaxLLMCallsPerRun b) (rc_LLMCallsMade cs) then
    hit EventBudgetCapHit "max_llm_calls_per_run" (b_MaxLLMCallsPerRun b) (rc_LLMCallsMade cs)
  else if over (b_MaxToolCallsPerRun b) (rc_ToolCallsMade cs) then
    hit EventBudgetCapHit "max_tool_calls_per_run" (b_MaxToolCallsPerRun b) (rc_ToolCallsMade cs)
  else if over (b_MaxCostUSDPerRun b) (rc_CostUSD cs) then
    hit EventCostCapHit "max_cost_usd_per_run" (b_MaxCostUSDPerRun b) (rc_CostUSD cs)
  else if (0 <? b_MaxWallclockPerRunSecs b)%Z && (0 <? rc_WallclockStart cs)%Z then
    let elapsed := int64 (now - rc_WallclockStart cs) in
    if (int64 (b_MaxWallclockPerRunSecs b * second) <? elapsed)%Z then
      hit EventBudgetCapHit "max_wallclock_per_run_seconds" (b_MaxWallclockPerRunSecs b)
          (elapsed / second)%Z
    else (s, None)
  else (s, None).

(** * Liveness of edges *)

Definition edgeLivenessFor (nd : Node) (outs : PortValues) : option (Edge -> bool) :=
  match cfg_registry c !! n_kind nd with
  | None => None
  | Some ex => match ex_router ex with None => None | Some router => router nd outs end
  end.

Definition live_under (pred : option (Edge -> bool)) (e : Edge) : bool :=
  match pred with None => true | Some f => f e end.

Definition edgeWasLive (ond : option Node) (outs : PortValues) (e : Edge) : bool :=
  match ond with
  | None => true
  | Some nd => live_under (edgeLivenessFor nd outs) e
  end.

(** * The steps of a dispatch goroutine *)

Definition in_index (id : string) : Prop := id ∈ dom (nodesByID g).

(** Reading the inputs off the recorded outputs of the predecessors. *)
Definition buildInputs (s : KState L) (id : string) : PortValues :=
  foldl (fun inputs e =>
           match Outputs (k_run s) (e_src e) !! ep_port (e_from e) with
           | Some v => <[ep_port (e_to e) := v]> inputs
           | None => inputs
           end) ∅ (edges_at (buildEdges g).1 id).

(** What an executor did to the environment while it ran: the run-state keys
    it recorded or released, the tool calls it registered with the doom-loop
    guard (by their hash), and the counters it bumped. *)
Inductive RunOp := OpSet (key : string) (v : PortValues) | OpRelease (key : string) | OpTouch (key : string).

Definition run_op (r : RunState) (o : RunOp) : RunState :=
  match o with
  | OpSet k v => SetOutputs r k v
  | OpRelease k => ReleaseOnce r k
  | OpTouch k => (RecordToolCall (fun tool (_ : unit) => tool) r k tt).1
  end.

Record Effect := { ef_run : list RunOp; ef_llm : list Z; ef_tools : nat; ef_cost : Z }.
Definition no_effect : Effect := {| ef_run := []; ef_llm := []; ef_tools := 0; ef_cost := 0 |}.

Definition apply_effect (s : KState L) (f : Effect) : KState L :=
  let s := set_run s (foldl run_op (k_run s) (ef_run f)) in
  let cs := foldl AddLLM (k_counters s) (ef_llm f) in
  set_counters s (AddCost (Nat.iter (ef_tools f) AddTool cs) (ef_cost f)).

(** [safeExecute]: a panic comes back as an error with an empty result. *)
Inductive Outcome := OutOk (r : Result) | OutErr (evs : EventBatch) (e : KErr).

Record Oracle := { o_now : Z; o_effect : Effect; o_outcome : Outcome }.

Definition stamp (nd : Node) (e : Event) : Event :=
  {| ev_Seq := ev_Seq e;
     ev_RunID := if bool_decide (ev_RunID e = "") then run else ev_RunID e;
     ev_NodeID := if bool_decide (ev_NodeID e = "") then n_id nd else ev_NodeID e;
     ev_Kind := ev_Kind e; ev_Payload := ev_Payload e |}.

Definition startBatch (nd : Node) (evs : EventBatch) : EventBatch :=
  AppendKind [] run (n_id nd) EventNodeStart
    [("kind", VStr (n_kind nd)); ("title", VStr (n_title nd))] ++ map (stamp nd) evs.

(** The guard at the top of [dispatch]. *)
Definition step_spawn (s : KState L) : KState L * option Phase :=
  match k_firstErr s with
  | Some _ => (s, None)
  | None => if k_pause s then (s, None) else (s, Some PhBudget)
  end.

(** Budget, node and executor lookup, inputs.  A node id without a node makes
    the bookkeeping panic, which the deferred recovery turns into [firstErr]. *)
Definition step_budget (now : Z) (s : KState L) (id : string) : KState L * option Phase :=
  match checkBudget now s with
  | (s, Some e) => (fail_with s e, None)
  | (s, None) =>
      match nodesByID g !! id with
      | None => (fail_with (set_inFlight s (k_inFlight s ∖ {[id]}))
                   (plain_err ("agentgraph: kernel: dispatch " +:+ fmt_q id +:+ " panicked")), None)
      | Some nd =>
          match cfg_registry c !! n_kind nd with
          | None => (fail_with s (plain_err ("agentgraph: no executor for kind " +:+ fmt_q (n_kind nd))), None)
          | Some _ => (s, Some (PhExec (buildInputs s id)))
          end
      end
  end.

(** The executor returned an error. *)
Definition step_exec_err (s : KState L) (nd : Node) (evs : EventBatch) (e : KErr)
  : KState L * option Phase :=
  let batch := AppendKind (startBatch nd evs) run (n_id nd) EventNodeError [("err", VStr (ke_msg e))] in
  let '(s, lerr) := k_append s batch in
  let e := match lerr, k_firstErr s with
           | Some le, None => {| ke_msg := ke_msg e +:+ "; also log append: " +:+ le;
                                 ke_paused := ke_paused e; ke_budget := ke_budget e;
                                 ke_denied := ke_denied e |}
           | _, _ => e
           end in
  let s := set_run s (MarkFailed (k_run s) (n_id nd) (ke_msg e)) in
  let s := set_inFlight s (k_inFlight s ∖ {[n_id nd]}) in
  let s := match k_firstErr s with
           | Some _ => s
           | None => if ke_paused e then upd_status s None true "paused"
                     else upd_status s (Some e) (k_pause s) (k_pauseReason s)
           end in
  (s, if ke_paused e then None else Some (PhErr e)).

(** Recovery bookkeeping after an error. *)
Definition step_err (s : KState L) (e : KErr) : KState L :=
  let s := armRecovery s in
  match ke_denied e with
  | Some summary =>
      let summary := TrimSpace summary in
      if bool_decide (summary = "") then s else (AddTaskForbidden s [summary]).1
  | None => s
  end.

(** The executor returned a result: commit its events, record its outputs. *)
Definition step_exec_ok (s : KState L) (nd : Node) (r : Result) : KState L * option Phase :=
  let batch := AppendKind (startBatch nd (r_Events r)) run (n_id nd) EventNodeComplete
                 [("outputs", VInt (Z.of_nat (size (r_Outputs r))))] in
  let '(s, lerr) := k_append s batch in
  let s := match lerr with
           | Some le => fail_with s (plain_err ("agentgraph: kernel: append batch: " +:+ le))
           | None => s
           end in
  (set_run s (SetOutputs (k_run s) (n_id nd) (r_Outputs r)), Some (PhResult r)).

Definition step_exec (s : KState L) (id : string) (f : Effect) (o : Outcome) : KState L * option Phase :=
  let s := apply_effect s f in
  match nodesByID g !! id with
  | None => (s, None)
  | Some nd =>
      match o with
      | OutOk r => step_exec_ok s nd r
      | OutErr evs e => step_exec_err s nd evs e
      end
  end.

(** The stale-generation guard (first critical section after the executor). *)
Definition step_stale (s : KState L) (id : string) (gen : Z) (r : Result) : KState L * option Phase :=
  let stale := negb (Z.eqb (zget (k_generation s) id) gen) in
  let s := set_inFlight s (k_inFlight s ∖ {[id]}) in
  if stale then
    if negb (bool_decide (id ∈ k_completed s)) && (zget (k_inDeg s) id <=? 0)%Z then
      (set_inFlight s ({[id]} ∪ k_inFlight s), Some (PhLaunch [(id, zget (k_generation s) id)]))
    else (s, None)
  else (s, Some (PhFresh r)).

Definition maxBacktracks : Z :=
  if (b_MaxBacktracksPerRun (cfg_Budget c) <=? 0)%Z then DefaultMaxBacktracksPerRun
  else b_MaxBacktracksPerRun (cfg_Budget c).

(** Resolving the backtrack request, outside the mutex: the updates of the memory and the
    appends of their events are one step here, and apart in [Writers] of Rebuild.v. *)
Definition step_resolve (s : KState L) (id : string) (r : Result) : KState L * option Phase :=
  match resolveBacktrack r with
  | None => (s, Some (PhTopo r None None))
  | Some bt =>
      let target := bt_TargetNode bt in
      if bool_decide (target ∈ bodyNodeIDs g) then
        (s, Some (PhTopo r None (Some (plain_err ("agentgraph: kernel: backtrack target " +:+
           fmt_q target +:+ " is inside a Loop/Retry body")))))
      else match nodesByID g !! target with
      | None => (s, Some (PhTopo r None (Some (plain_err ("agentgraph: kernel: backtrack target " +:+
           fmt_q target +:+ " does not exist")))))
      | Some _ =>
          let '(cs, used) := AddBacktrack (k_counters s) in
          let s := set_counters s cs in
          if (maxBacktracks <? used)%Z then
            let '(s, e) := emitCapHit s EventBudgetCapHit "max_backtracks_per_run" maxBacktracks used in
            (s, Some (PhTopo r None (Some e)))
          else
            let s := set_run s (AddFailureAnnotation (k_run s)
                       {| fa_Node := target; fa_Reason := bt_Reason bt;
                          fa_RejectedApproach := bt_RejectedApproach bt; fa_Iteration := used |}) in
            let s := armRecovery s in
            let approach := TrimSpace (bt_RejectedApproach bt) in
            let s := if bool_decide (approach = "") then s else (AddTaskForbidden s [approach]).1 in
            let '(s, lerr) := k_append s (AppendKind [] run id EventBacktrackFired
                       [("target", VStr target); ("reason", VStr (bt_Reason bt));
                        ("rejected_approach", VStr (bt_RejectedApproach bt)); ("iteration", VInt used)]) in
            (s, Some (PhTopo r (Some target)
               (match lerr with
                | Some le => Some (plain_err ("agentgraph: kernel: append backtrack batch: " +:+ le))
                | None => None
                end)))
      end
  end.

(** * The topology update (second critical section) *)

(** In-degree and live count of a rewound node: edges from the refire set or
    from nodes that have not completed are waited for again; a completed
    predecessor outside it counts as live if it delivered along the edge. *)
Definition rearm (s : KState L) (completed skipped : gset string) (refire : gset string)
    (id : string) : Z * Z :=
  foldl (fun '(n, live) e =>
           let from := e_src e in
           if bool_decide (from ∈ refire) then ((n + 1)%Z, live)
           else if negb (bool_decide (from ∈ completed)) then ((n + 1)%Z, live)
           else if negb (bool_decide (from ∈ skipped)) &&
                   edgeWasLive (nodesByID g !! from) (Outputs (k_run s) from) e
           then (n, (live + 1)%Z) else (n, live))
        (0%Z, 0%Z) (edges_at (buildEdges g).1 id).

(** Honouring a backtrack to [target]: [refireSet] loses its completed and
    skipped bits, gets new generations and re-armed counters. *)
Definition apply_refire (s : KState L) (target : string) (refireSet : list string)
  : KState L * bool :=
  let refire : gset string := list_to_set refireSet in
  let completed := k_completed s ∖ refire in
  let skipped := k_skipped s ∖ refire in
  let generation := foldl (fun m id => <[id := (zget m id + 1)%Z]> m) (k_generation s) refireSet in
  let '(inDeg, liveIn) :=
    foldl (fun '(d, l) id =>
             let '(n, live) := rearm s completed skipped refire id in
             (<[id := n]> d, <[id := live]> l))
          (k_inDeg s, k_liveIn s) refireSet in
  let s' := upd_maps s inDeg liveIn completed skipped (k_inFlight s) generation in
  (s', (zget inDeg target <=? 0)%Z && negb (bool_decide (target ∈ k_inFlight s))).

(** ** Promotion worklist *)

Record Frame := { f_from : string; f_live : option (Edge -> bool); f_dead : bool }.

Record Promo := {
  pr_inDeg : gmap string Z; pr_liveIn : gmap string Z;
  pr_completed : gset string; pr_skipped : gset string; pr_inFlight : gset string;
  pr_launch : list (string * Z); pr_skips : list (string * string * nat);
  pr_work : list Frame
}.

Definition node_kind (id : string) : string :=
  match nodesByID g !! id with Some n => n_kind n | None => "" end.

Definition promote_edge (generation : gmap string Z) (f : Frame) (p : Promo) (e : Edge) : Promo :=
  let to := e_dst e in
  if bool_decide (to ∈ bodyNodeIDs g) then p
  else if bool_decide (to ∈ pr_completed p) then p
  else
    let edgeLive := negb (f_dead f) && live_under (f_live f) e in
    let inDeg := <[to := (zget (pr_inDeg p) to - 1)%Z]> (pr_inDeg p) in
    let liveIn := if edgeLive then <[to := (zget (pr_liveIn p) to + 1)%Z]> (pr_liveIn p)
                  else pr_liveIn p in
    if (0 <? zget inDeg to)%Z || bool_decide (to ∈ pr_inFlight p) then
      {| pr_inDeg := inDeg; pr_liveIn := liveIn; pr_completed := pr_completed p;
         pr_skipped := pr_skipped p; pr_inFlight := pr_inFlight p; pr_launch := pr_launch p;
         pr_skips := pr_skips p; pr_work := pr_work p |}
    else if (0 <? zget liveIn to)%Z then
      {| pr_inDeg := inDeg; pr_liveIn := liveIn; pr_completed := pr_completed p;
         pr_skipped := pr_skipped p; pr_inFlight := {[to]} ∪ pr_inFlight p;
         pr_launch := pr_launch p ++ [(to, zget generation to)];
         pr_skips := pr_skips p; pr_work := pr_work p |}
    else
      {| pr_inDeg := inDeg; pr_liveIn := liveIn; pr_completed := {[to]} ∪ pr_completed p;
         pr_skipped := {[to]} ∪ pr_skipped p; pr_inFlight := pr_inFlight p;
         pr_launch := pr_launch p;
         pr_skips := pr_skips p ++ [(to, node_kind to, length (edges_at (buildEdges g).1 to))];
         pr_work := pr_work p ++ [{| f_from := to; f_live := None; f_dead := true |}] |}.

Definition pop_work (p : Promo) (w : list Frame) : Promo :=
  {| pr_inDeg := pr_inDeg p; pr_liveIn := pr_liveIn p; pr_completed := pr_completed p;
     pr_skipped := pr_skipped p; pr_inFlight := pr_inFlight p; pr_launch := pr_launch p;
     pr_skips := pr_skips p; pr_work := w |}.

Fixpoint promote_loop (generation : gmap string Z) (fuel : nat) (p : Promo) : Promo :=
  match pr_work p with
  | [] => p
  | f :: w =>
      match fuel with
      | 0 => p
      | S fuel =>
          promote_loop generation fuel
            (foldl (promote_edge generation f) (pop_work p w) (edges_at (buildEdges g).2 (f_from f)))
      end
  end.

(** The node itself and at most every edge target enter the worklist. *)
Definition promote_fuel : nat := S (length (g_edges g)).

Definition promote (s : KState L) (nd : Node) (outs : PortValues) : Promo :=
  promote_loop (k_generation s) promote_fuel
    {| pr_inDeg := k_inDeg s; pr_liveIn := k_liveIn s; pr_completed := k_completed s;
       pr_skipped := k_skipped s; pr_inFlight := k_inFlight s; pr_launch := []; pr_skips := [];
       pr_work := [{| f_from := n_id nd; f_live := edgeLivenessFor nd outs; f_dead := false |}] |}.

Definition step_topo (s : KState L) (nd : Node) (r : Result) (valid : option string)
    (err : option KErr) : KState L * option Phase :=
  let refireSet := match valid with
                   | Some target => default [] (descendantsInclusive g target)
                   | None => []
                   end in
  let '(s, backtrackReady) := match valid with
                              | Some target => apply_refire s target refireSet
                              | None => (s, false)
                              end in
  let inRefire := bool_decide (n_id nd ∈ refireSet) in
  let s := if inRefire then s
           else upd_maps s (k_inDeg s) (k_liveIn s) ({[n_id nd]} ∪ k_completed s) (k_skipped s)
                  (k_inFlight s) (k_generation s) in
  let s := match err with Some e => fail_with s e | None => s end in
  let stepDone := negb inRefire in
  if r_Pause r then
    (upd_status s (k_firstErr s) true (r_PauseReason r), Some (PhPost r stepDone [] []))
  else
    let '(s, launches, skips) :=
      if inRefire then (s, [], []) else
      let p := promote s nd (r_Outputs r) in
      (upd_maps s (pr_inDeg p) (pr_liveIn p) (pr_completed p) (pr_skipped p) (pr_inFlight p)
         (k_generation s), pr_launch p, pr_skips p) in
    match valid, backtrackReady with
    | Some target, true =>
        (set_inFlight s ({[target]} ∪ k_inFlight s),
         Some (PhPost r stepDone skips (launches ++ [(target, zget (k_generation s) target)])))
    | _, _ => (s, Some (PhPost r stepDone skips launches))
    end.

(** Committing the skip records and the task-state bookkeeping; a paused run
    launches nothing. *)
Definition skipBatch (by_ : string) (skips : list (string * string * nat)) : EventBatch :=
  map (fun '(id, kind, dead) =>
         {| ev_Seq := 0; ev_RunID := run; ev_NodeID := id; ev_Kind := EventNodeSkipped;
            ev_Payload := [("kind", VStr kind); ("skipped_by", VStr by_);
                           ("dead_inputs", VInt (Z.of_nat dead))] |}) skips.

Definition step_post (s : KState L) (nd : Node) (r : Result) (stepDone : bool)
    (skips : list (string * string * nat)) (launches : list (string * Z)) : KState L * option Phase :=
  let s := match skips with
           | [] => s
           | _ => let '(s, lerr) := k_append s (skipBatch (n_id nd) skips) in
                  match lerr with
                  | Some le => fail_with s (plain_err ("agentgraph: kernel: append skip batch: " +:+ le))
                  | None => s
                  end
           end in
  let s := armGoalFromNode s nd (r_Outputs r) in
  (recordStep s nd stepDone, Some (PhLaunch launches)).

(** * The transition system *)

Definition step_phase (o : Oracle) (s : KState L) (p : Proc) : KState L * option Phase :=
  let id := p_node p in
  match p_phase p with
  | PhSpawn => step_spawn s
  | PhBudget => step_budget (o_now o) s id
  | PhExec _ => step_exec s id (o_effect o) (o_outcome o)
  | PhErr e => (step_err s e, None)
  | PhResult r => step_stale s id (p_gen p) r
  | PhFresh r => step_resolve s id r
  | PhTopo r valid err =>
      match nodesByID g !! id with
      | Some nd => step_topo s nd r valid err
      | None => (s, None)
      end
  | PhPost r stepDone skips launches =>
      match nodesByID g !! id with
      | Some nd => step_post s nd r stepDone skips launches
      | None => (s, None)
      end
  | PhLaunch _ => (s, None)
  end.

Definition spawn (l : string * Z) : Proc := {| p_node := l.1; p_gen := l.2; p_phase := PhSpawn |}.

Definition with_phase (p : Proc) (ph : Phase) : Proc :=
  {| p_node := p_node p; p_gen := p_gen p; p_phase := ph |}.

(** A live goroutine holds one semaphore slot from before its start to its
    return, so the free slots are [maxInFlight] minus the live goroutines. *)
Definition slot_free (s : KState L) : bool := bool_decide (length (k_procs s) < cfg_maxInFlight c)%nat.

Inductive KAct := ActMain | ActProc (i : nat) (o : Oracle).

(** [None]: the goroutine is blocked (or does not exist). *)
Definition kstep (a : KAct) (s : KState L) : option (KState L) :=
  match a with
  | ActMain =>
      match k_seeds s with
      | [] => None
      | l :: seeds => if slot_free s then Some (set_procs s seeds (k_procs s ++ [spawn l])) else None
      end
  | ActProc i o =>
      match k_procs s !! i with
      | None => None
      | Some p =>
          match p_phase p with
          | PhLaunch (l :: ls) =>
              if slot_free s then
                Some (set_procs s (k_seeds s)
                        (<[i := with_phase p (PhLaunch ls)]> (k_procs s) ++ [spawn l]))
              else None
          | _ =>
              let '(s', oph) := step_phase o s p in
              Some (set_procs s' (k_seeds s)
                      (match oph with
                       | Some ph => <[i := with_phase p ph]> (k_procs s)
                       | None => delete i (k_procs s)
                       end))
          end
      end
  end.

Fixpoint krun (acts : list KAct) (s : KState L) : option (KState L) :=
  match acts with
  | [] => Some s
  | a :: acts => match kstep a s with Some s => krun acts s | None => None end
  end.

Definition kstep_rel (s s' : KState L) : Prop := exists a, kstep a s = Some s'.

(** * Start and end of a run *)

Definition initInDeg : gmap string Z :=
  foldl (fun m ep => <[ep := 0%Z]> m)
    (foldl (fun m n =>
              if bool_decide (n_id n ∈ bodyNodeIDs g) then m
              else <[n_id n := Z.of_nat (length (edges_at (buildEdges g).1 (n_id n)))]> m)
           ∅ (g_nodes g))
    (g_entrypoints g).

Definition startPayload : list (string * value) :=
  [("graph_id", VStr (g_id g)); ("entrypoints", VList (map VStr (g_entrypoints g)));
   ("max_in_flight", VInt (Z.of_nat (cfg_maxInFlight c)))] ++
  (if bool_decide (cfg_SessionID c = "") then [] else [("session_id", VStr (cfg_SessionID c))]).

(** [Run] up to the launch of the entrypoints, over the environment [rs], [cs],
    [ts] and the log; the spec snapshot and digest, the turn span, alias events and
    the hook manager are not modelled. *)
Definition kinit (rs : RunState) (cs : RunCounters) (ts : TaskState.t) (l : L)
  : result (KState L) string :=
  match log_append l (AppendKind [] run "" EventRunStart startPayload) with
  | (_, Err e) => Err ("agentgraph: kernel: append run_start: " +:+ e)
  | (l, Ok _) =>
      if bool_decide (g_nodes g = []) then Err "agentgraph: kernel: graph has no nodes" else
      match List.find (fun ep => negb (bool_decide (in_index ep))) (g_entrypoints g) with
      | Some ep => Err ("agentgraph: kernel: entrypoint " +:+ fmt_q ep +:+ " does not exist")
      | None =>
          let s := {| k_inDeg := initInDeg; k_liveIn := ∅; k_completed := ∅; k_skipped := ∅;
                      k_inFlight := list_to_set (g_entrypoints g); k_generation := ∅;
                      k_firstErr := None; k_pause := false; k_pauseReason := "";
                      k_goalArmed := false; k_recoveryArmed := false;
                      k_run := rs; k_counters := cs; k_task := ts; k_log := l;
                      k_seeds := map (fun ep => (ep, 0%Z)) (g_entrypoints g); k_procs := [] |} in
          let readsHistory :=
            existsb (fun n => bool_decide (n_kind n = NodeKindHistoryRead)) (g_nodes g) in
          Ok (if cfg_armAlways c && negb readsHistory then armTaskGoal s (firstUserTurnGoal c) else s)
      end
  end.

(** [wg.Wait()] returns once no goroutine is left. *)
Definition quiescent (s : KState L) : bool :=
  match k_seeds s, k_procs s with [], [] => true | _, _ => false end.

Inductive RunOutcome := RunPaused | RunFailed (e : KErr) | RunCompleted (completed skipped : Z).

Definition kfinish (s : KState L) : KState L * RunOutcome :=
  if k_pause s then
    ((k_append s (AppendKind [] run "" EventRunPaused [("reason", VStr (k_pauseReason s))])).1, RunPaused)
  else match k_firstErr s with
  | Some e => (s, RunFailed e)
  | None =>
      let skipped := Z.of_nat (size (k_skipped s)) in
      let done := (Z.of_nat (size (k_completed s)) - skipped)%Z in
      ((k_append s (AppendKind [] run "" EventRunComplete
          [("completed_nodes", VInt done); ("skipped_nodes", VInt skipped)])).1,
       RunCompleted done skipped)
  end.
End Kernel.
