(* ===== verification/KernelSafety.v ===== *)
(** Safety of every interleaving of the kernel: which steps touch the traversal
    state, slot accounting, no double dispatch, and what a full semaphore does. *)
From S2P Require Import Prelude GoString AgentGraph EventLog RunState Kernel.

Section Safety.
Context {L : Type} `{EventLog L} (c : KConfig).
Let g := cfg_graph c.

(** * Steps that only touch the environment *)

(** [s'] differs from [s] at most in run state, counters, task state, log and
    the two arming flags. *)
Record env_only (s s' : KState L) : Prop := {
  eo_inDeg : k_inDeg s' = k_inDeg s;
  eo_liveIn : k_liveIn s' = k_liveIn s;
  eo_completed : k_completed s' = k_completed s;
  eo_skipped : k_skipped s' = k_skipped s;
  eo_inFlight : k_inFlight s' = k_inFlight s;
  eo_generation : k_generation s' = k_generation s;
  eo_firstErr : k_firstErr s' = k_firstErr s;
  eo_pause : k_pause s' = k_pause s;
  eo_seeds : k_seeds s' = k_seeds s;
  eo_procs : k_procs s' = k_procs s
}.

#[export] Instance env_only_refl : Reflexive env_only.
Proof. by constructor. Qed.

#[export] Instance env_only_trans : Transitive env_only.
Proof. intros s1 s2 s3 [] []. constructor; congruence. Qed.

Lemma upd_env_only s r cs t l ga ra : env_only s (upd_env s r cs t l ga ra).
Proof. by constructor. Qed.

Lemma k_append_env s b : env_only s (k_append s b).1.
Proof. unfold k_append. destruct (log_append _ _). apply upd_env_only. Qed.

Lemma SetTaskGoal_env s goal : env_only s (SetTaskGoal c s goal).1.
Proof. unfold SetTaskGoal. etrans; [|apply k_append_env]. apply upd_env_only. Qed.

Lemma AddTaskForbidden_env s a : env_only s (AddTaskForbidden c s a).1.
Proof. destruct a; [done|]. unfold AddTaskForbidden. etrans; [|apply k_append_env]. apply upd_env_only. Qed.

Lemma AddTaskCompletedStep_env s a : env_only s (AddTaskCompletedStep c s a).1.
Proof.
  unfold AddTaskCompletedStep. case_bool_decide; [done|].
  etrans; [|apply k_append_env]. apply upd_env_only.
Qed.

Lemma armTaskGoal_env s goal : env_only s (armTaskGoal c s goal).
Proof.
  unfold armTaskGoal. case_if; [done|]. case_bool_decide; [apply upd_env_only|].
  etrans; [|apply SetTaskGoal_env]. apply upd_env_only.
Qed.

Lemma k_append_counters s b : k_counters (k_append s b).1 = k_counters s.
Proof. unfold k_append. by destruct (log_append _ _). Qed.

Lemma armTaskGoal_counters s goal : k_counters (armTaskGoal c s goal) = k_counters s.
Proof.
  unfold armTaskGoal, SetTaskGoal. case_if; [done|]. case_bool_decide; [done|].
  by rewrite k_append_counters.
Qed.

Lemma AddTaskForbidden_counters s a : k_counters (AddTaskForbidden c s a).1 = k_counters s.
Proof. unfold AddTaskForbidden. destruct a; [done|]. by rewrite k_append_counters. Qed.

Lemma armRecovery_counters s : k_counters (armRecovery c s) = k_counters s.
Proof. unfold armRecovery. case_if; [done|]. by rewrite armTaskGoal_counters. Qed.

Lemma armGoalFromNode_counters s nd outs : k_counters (armGoalFromNode c s nd outs) = k_counters s.
Proof. unfold armGoalFromNode. case_if; [done|]. apply armTaskGoal_counters. Qed.

Lemma recordStep_counters s nd b : k_counters (recordStep c s nd b) = k_counters s.
Proof.
  unfold recordStep, AddTaskCompletedStep. case_if; [|done]. case_bool_decide; [done|].
  by rewrite k_append_counters.
Qed.

Lemma fail_with_counters (s : KState L) e : k_counters (fail_with s e) = k_counters s.
Proof. unfold fail_with. by destruct (k_firstErr s). Qed.

Lemma checkBudget_counters now s : k_counters (checkBudget c now s).1 = k_counters s.
Proof. unfold checkBudget, emitCapHit. repeat case_if; cbn; rewrite ?k_append_counters; done. Qed.

Lemma armRecovery_env s : env_only s (armRecovery c s).
Proof.
  unfold armRecovery. case_if; [done|]. etrans; [|apply armTaskGoal_env]. apply upd_env_only.
Qed.

Lemma armGoalFromNode_env s nd outs : env_only s (armGoalFromNode c s nd outs).
Proof. unfold armGoalFromNode. case_if; [done|]. apply armTaskGoal_env. Qed.

Lemma recordStep_env s nd b : env_only s (recordStep c s nd b).
Proof. unfold recordStep. case_if; [apply AddTaskCompletedStep_env|done]. Qed.

Lemma checkBudget_env now s : env_only s (checkBudget c now s).1.
Proof.
  unfold checkBudget, emitCapHit.
  repeat case_if; try apply k_append_env; done.
Qed.

Lemma apply_effect_env s f : env_only s (apply_effect s f).
Proof. by constructor. Qed.

Lemma step_err_env s e : env_only s (step_err c s e).
Proof.
  unfold step_err. destruct (ke_denied e); [|apply armRecovery_env].
  case_bool_decide; [apply armRecovery_env|].
  etrans; [apply armRecovery_env|apply AddTaskForbidden_env].
Qed.

Lemma step_resolve_env s id r : env_only s (step_resolve c s id r).1.
Proof.
  unfold step_resolve. destruct (resolveBacktrack r) as [bt|]; [|done].
  case_bool_decide; [done|]. destruct (nodesByID _ !! _); [|done].
  destruct (AddBacktrack (k_counters s)) as [cs used].
  case_if; [cbn; etrans; [apply (upd_env_only s)|apply k_append_env]|].
  destruct (k_append _ _) as [s2 lerr] eqn:Ha. cbn [fst].
  change s2 with (s2, lerr).1. rewrite <- Ha. etrans; [|apply k_append_env].
  case_bool_decide; [|etrans; [|apply AddTaskForbidden_env]];
    (etrans; [|apply armRecovery_env]); etrans; apply upd_env_only.
Qed.

(** * Shape of the phase that follows *)

Lemma step_resolve_phase s id r :
  exists v e, (step_resolve c s id r).2 = Some (PhTopo r v e) /\
    (forall t, v = Some t -> exists bt, resolveBacktrack r = Some bt /\ bt_TargetNode bt = t /\
                                       t ∉ bodyNodeIDs g /\ is_Some (nodesByID g !! t)).
Proof.
  unfold step_resolve. destruct (resolveBacktrack r) as [bt|]; [|by exists None, None].
  case_bool_decide as Hin; [by eexists None, _|].
  destruct (nodesByID _ !! _) eqn:Hn; [|by eexists None, _].
  destruct (AddBacktrack (k_counters s)) as [cs used].
  case_if; [by eexists None, _|]. destruct (k_append _ _) as [s2 lerr].
  eexists (Some _), _. split; [done|]. intros t [= <-]. exists bt. split_and!; [done..|]. by exists n.
Qed.

(** * Promotion: what it launches *)

Lemma promote_edge_launch gen f p e :
  let p' := promote_edge c gen f p e in
  (pr_launch p' = pr_launch p /\ pr_inFlight p' = pr_inFlight p) \/
  (pr_launch p' = pr_launch p ++ [(e_dst e, zget gen (e_dst e))] /\
   pr_inFlight p' = {[e_dst e]} ∪ pr_inFlight p /\ e_dst e ∉ pr_inFlight p).
Proof.
  unfold promote_edge. do 2 (case_bool_decide; [by left|]).
  destruct (bool_decide_reflect (e_dst e ∈ pr_inFlight p)) as [Hin|Hin].
  - rewrite orb_true_r. by left.
  - rewrite orb_false_r. case_if; [by left|]. case_if; [by right|by left].
Qed.

(** [p] extends [p0] by launches of distinct nodes that were not in flight. *)
Record launches_fresh (p0 p : Promo) : Prop := {
  lf_nodup : NoDup (pr_launch p).*1;
  lf_fresh : forall id, id ∈ (pr_launch p).*1 -> id ∉ pr_inFlight p0;
  lf_inFlight : forall id, id ∈ pr_inFlight p <-> id ∈ pr_inFlight p0 \/ id ∈ (pr_launch p).*1
}.

Lemma promote_edge_fresh p0 gen f p e :
  launches_fresh p0 p -> launches_fresh p0 (promote_edge c gen f p e).
Proof.
  intros [Hnd Hf Hi].
  destruct (promote_edge_launch gen f p e) as [[Hl Hfl]|(Hl & Hfl & Hn)]; constructor; rewrite ?Hl, ?Hfl; auto.
  - rewrite fmap_app. apply NoDup_app. split; [done|]. split; [|apply NoDup_singleton].
    intros x Hx Hx'%list_elem_of_singleton. subst x. apply Hn, Hi. by right.
  - intros id. rewrite fmap_app, elem_of_app. intros [|Hx%list_elem_of_singleton]; [auto|].
    subst id. intros Hx. apply Hn, Hi. by left.
  - intros id. rewrite elem_of_union, elem_of_singleton, Hi, fmap_app, elem_of_app.
    cbn. rewrite list_elem_of_singleton. tauto.
Qed.

Lemma promote_loop_fresh p0 gen fuel p :
  launches_fresh p0 p -> launches_fresh p0 (promote_loop c gen fuel p).
Proof.
  revert p. induction fuel as [|fuel IH]; intros p Hp; simpl; destruct (pr_work p) as [|f w]; auto.
  apply IH. assert (launches_fresh p0 (pop_work p w)) as Hpop by (by destruct Hp; constructor).
  revert Hpop. generalize (pop_work p w) as q.
  induction (edges_at _ _) as [|e es IHes]; intros q Hq; [done|]. cbn [foldl].
  by apply IHes, promote_edge_fresh.
Qed.

Lemma promote_fresh (s : KState L) nd outs :
  let p := promote c s nd outs in
  NoDup (pr_launch p).*1 /\ (forall id, id ∈ (pr_launch p).*1 -> id ∉ k_inFlight s) /\
  (forall id, id ∈ pr_inFlight p <-> id ∈ k_inFlight s \/ id ∈ (pr_launch p).*1).
Proof.
  unfold promote. match goal with |- context [promote_loop c _ _ ?p0] => set (q := p0) end.
  destruct (promote_loop_fresh q (k_generation s) (promote_fuel c) q) as [? ? ?]; [|done].
  constructor; cbn; [constructor|by intros ? ?%elem_of_nil|].
  intros id. split; [auto|]. by intros [?|?%elem_of_nil].
Qed.

(** * Dispatch tokens *)

(** The dispatches of [id] a goroutine stands for: its own until the stale
    check frees the in-flight mark, then those it still has to launch. *)
Definition launch_count (id : string) (l : list (string * Z)) : nat :=
  countb (fun x => bool_decide (x.1 = id)) l.

#[local] Arguments launch_count : simpl never.

Definition proc_tokens (id : string) (p : Proc) : nat :=
  match p_phase p with
  | PhSpawn | PhBudget | PhExec _ | PhResult _ => if bool_decide (p_node p = id) then 1 else 0
  | PhPost _ _ _ ls | PhLaunch ls => launch_count id ls
  | _ => 0
  end.

Definition tokens (s : KState L) (id : string) : nat :=
  launch_count id (k_seeds s) + sum_list_with (proc_tokens id) (k_procs s).

(** Goroutines whose executor is running on node [id]. *)
Definition executing (s : KState L) (id : string) : nat :=
  countb (fun p => bool_decide (p_node p = id) &&
                   match p_phase p with PhExec _ => true | _ => false end) (k_procs s).

Lemma executing_le_tokens s id : executing s id <= tokens s id.
Proof.
  unfold executing, tokens. induction (k_procs s) as [|p ps IH]; [cbn; lia|].
  rewrite countb_cons. cbn [sum_list_with]. unfold proc_tokens at 1.
  destruct (p_phase p); try (rewrite andb_false_r; lia). rewrite andb_true_r.
  case_bool_decide; lia.
Qed.

Lemma launch_count_app id l1 l2 : launch_count id (l1 ++ l2) = launch_count id l1 + launch_count id l2.
Proof. unfold launch_count. by rewrite countb_app. Qed.

Lemma launch_count_cons id x l :
  launch_count id (x :: l) = (if bool_decide (x.1 = id) then 1 else 0) + launch_count id l.
Proof. unfold launch_count. by rewrite countb_cons. Qed.

Lemma launch_count_nil id : launch_count id [] = 0.
Proof. done. Qed.

Lemma launch_count_zero id l : launch_count id l = 0 <-> id ∉ l.*1.
Proof.
  unfold launch_count. rewrite countb_zero, list_elem_of_fmap. split.
  - intros Hz (x & -> & Hx). specialize (Hz x Hx). by rewrite bool_decide_true in Hz.
  - intros Hn x Hx. apply bool_decide_false. intros <-. apply Hn. by exists x.
Qed.

Lemma launch_count_le_one id l : NoDup l.*1 -> launch_count id l <= 1.
Proof.
  induction l as [|x l IH]; intros Hnd; [unfold launch_count; cbn; lia|]. rewrite fmap_cons in Hnd.
  apply NoDup_cons in Hnd as [Hx Hnd]. rewrite launch_count_cons.
  case_bool_decide; [subst id|specialize (IH Hnd); lia].
  apply launch_count_zero in Hx. lia.
Qed.

Lemma sum_list_insert {A} (f : A -> nat) l i x y :
  l !! i = Some x -> sum_list_with f (<[i := y]> l) + f x = sum_list_with f l + f y.
Proof.
  revert i. induction l as [|z l IH]; intros [|i] Hl; simpl in *; inv_ok; try lia.
  specialize (IH _ Hl). lia.
Qed.

Lemma sum_list_delete {A} (f : A -> nat) l i x :
  l !! i = Some x -> sum_list_with f (delete i l) + f x = sum_list_with f l.
Proof.
  revert i. induction l as [|z l IH]; intros [|i] Hl; simpl in *; inv_ok; try lia.
  specialize (IH _ Hl). lia.
Qed.

(** * No double dispatch *)

(** The phases that carry a backtrack request only ever ask for a rewind to
    the node itself or to a node upstream of it. *)
Definition upstream (r : Result) (id : string) : Prop :=
  forall bt, resolveBacktrack r = Some bt -> reaches g (bt_TargetNode bt) id.

Definition phase_ok (p : Proc) : Prop :=
  match p_phase p with
  | PhResult r | PhFresh r => upstream r (p_node p)
  | PhTopo _ (Some t) _ => reaches g t (p_node p)
  | _ => True
  end.

Definition rewinds_upstream (s : KState L) (a : KAct) : Prop :=
  match a with
  | ActMain => True
  | ActProc i o =>
      forall p r, k_procs s !! i = Some p -> o_outcome o = OutOk r -> upstream r (p_node p)
  end.

(** Effect of one goroutine step on its tokens and the in-flight marks. *)
Definition new_tokens (p : Proc) (oph : option Phase) (id : string) : nat :=
  from_option (fun ph => proc_tokens id (with_phase p ph)) 0 oph.

Record token_step (p : Proc) (s s' : KState L) (oph : option Phase) : Prop := {
  ts_le : forall id, new_tokens p oph id <= 1;
  ts_src : forall id, new_tokens p oph id <= proc_tokens id p \/ id ∉ k_inFlight s;
  ts_mark : forall id, 0 < new_tokens p oph id -> id ∈ k_inFlight s';
  ts_keep : forall id, id ∈ k_inFlight s -> id ∈ k_inFlight s' \/ proc_tokens id p = 1;
  ts_ok : forall ph, oph = Some ph -> phase_ok (with_phase p ph)
}.

Lemma own_token p id : proc_tokens id p <= 1 \/ exists ls, launch_count id ls = proc_tokens id p.
Proof. unfold proc_tokens. destruct (p_phase p); try case_bool_decide; eauto. Qed.

(** A step that marks nothing new and keeps or gives up its own token. *)
Lemma token_step_same p s s' oph :
  (forall id, proc_tokens id p <= 1) ->
  (forall id, 0 < proc_tokens id p -> id ∈ k_inFlight s) ->
  (forall id, id ∈ k_inFlight s' <-> id ∈ k_inFlight s) ->
  (forall id, new_tokens p oph id <= proc_tokens id p) ->
  (forall ph, oph = Some ph -> phase_ok (with_phase p ph)) ->
  token_step p s s' oph.
Proof.
  intros Hle Hmark Hin Htok Hok.
  constructor; auto; intros id; specialize (Htok id); specialize (Hle id).
  - lia.
  - intros Hn. apply Hin, Hmark. lia.
  - intros. left. by apply Hin.
Qed.

(** A step that gives its own token up and clears the in-flight mark. *)
Lemma token_step_clear p s s' oph :
  (forall id, proc_tokens id p = if bool_decide (p_node p = id) then 1 else 0) ->
  k_inFlight s' = k_inFlight s ∖ {[p_node p]} ->
  (forall id, new_tokens p oph id = 0) ->
  (forall ph, oph = Some ph -> phase_ok (with_phase p ph)) ->
  token_step p s s' oph.
Proof.
  intros Hown Hin Hnew Hok. constructor; auto; intros id; rewrite ?Hnew; try lia.
  intros Hid. rewrite Hin, Hown. case_bool_decide; [by right|]. left. set_solver.
Qed.

Lemma fail_with_maps (s : KState L) e : k_inFlight (fail_with s e) = k_inFlight s.
Proof. unfold fail_with. by destruct (k_firstErr s). Qed.

Ltac own_tokens := intros; unfold new_tokens, proc_tokens; cbn; try match goal with
  H : p_phase _ = _ |- _ => rewrite ?H end; cbn; rewrite ?launch_count_nil; repeat case_bool_decide; lia.

Lemma step_budget_tokens o s p :
  p_phase p = PhBudget -> (forall id, 0 < proc_tokens id p -> id ∈ k_inFlight s) ->
  token_step p s (step_budget c (o_now o) s (p_node p)).1 (step_budget c (o_now o) s (p_node p)).2.
Proof.
  intros Hph Hmark. unfold step_budget.
  pose proof (checkBudget_env (o_now o) s) as Hb. destruct (checkBudget _ _ _) as [s1 [e|]]; cbn [fst] in Hb.
  { apply token_step_same; auto; try own_tokens; try done.
    intros id. cbn [fst]. by rewrite fail_with_maps, (eo_inFlight _ _ Hb). }
  destruct (nodesByID _ !! _) as [nd|].
  - destruct (cfg_registry c !! _); apply token_step_same; auto; try own_tokens; cbn;
      try (intros ? [= <-]; done); try done;
      intros id; cbn [fst]; rewrite ?fail_with_maps; by rewrite (eo_inFlight _ _ Hb).
  - apply token_step_clear; try own_tokens; try done. cbn [fst]. rewrite fail_with_maps.
    cbn. by rewrite (eo_inFlight _ _ Hb).
Qed.

Lemma step_exec_tokens o s p inp :
  p_phase p = PhExec inp -> (forall id, 0 < proc_tokens id p -> id ∈ k_inFlight s) ->
  (forall r, o_outcome o = OutOk r -> upstream r (p_node p)) ->
  token_step p s (step_exec c s (p_node p) (o_effect o) (o_outcome o)).1
                 (step_exec c s (p_node p) (o_effect o) (o_outcome o)).2.
Proof.
  intros Hph Hmark Hup. unfold step_exec.
  destruct (nodesByID _ !! _) as [nd|] eqn:Hnd.
  2: { apply token_step_same; auto; try own_tokens; done. }
  apply nodesByID_id in Hnd. destruct (o_outcome o) as [r|evs e].
  - unfold step_exec_ok.
    pose proof (k_append_env (apply_effect s (o_effect o))
      (AppendKind (startBatch c nd (r_Events r)) (cfg_RunID c) (n_id nd) EventNodeComplete
         [("outputs", VInt (Z.of_nat (size (r_Outputs r))))])) as Ha.
    destruct (k_append _ _) as [s1 lerr]; cbn [fst] in Ha. apply token_step_same; auto; try own_tokens.
    + intros id. cbn. destruct lerr; cbn; rewrite ?fail_with_maps; by rewrite (eo_inFlight _ _ Ha).
    + intros ph [= <-]. by apply Hup.
  - unfold step_exec_err.
    match goal with |- context [k_append ?x ?y] => pose proof (k_append_env x y) as Ha end.
    destruct (k_append _ _) as [s1 lerr]; cbn [fst] in Ha. cbn zeta.
    apply token_step_clear; try own_tokens.
    + cbn. rewrite <- Hnd. destruct (k_firstErr s1); cbn; [|case_if; cbn];
        by rewrite (eo_inFlight _ _ Ha).
    + intros id. cbn [snd]. case_if; own_tokens.
    + intros ph. cbn [snd]. case_if; by intros [= <-].
Qed.

Lemma step_stale_tokens s p r :
  p_phase p = PhResult r -> (forall id, 0 < proc_tokens id p -> id ∈ k_inFlight s) ->
  phase_ok p ->
  token_step p s (step_stale s (p_node p) (p_gen p) r).1 (step_stale s (p_node p) (p_gen p) r).2.
Proof.
  intros Hph Hmark Hok. unfold step_stale. cbn zeta.
  unfold phase_ok in Hok. rewrite Hph in Hok.
  case_if; [case_if|]; cbn [fst snd]; repeat match goal with E : _ = true |- _ => clear E end.
  - constructor.
    + intros id. apply (launch_count_le_one id [_]), NoDup_singleton.
    + intros id. left. unfold new_tokens, proc_tokens. rewrite Hph. cbn.
      rewrite launch_count_cons, launch_count_nil. cbn. case_bool_decide; lia.
    + intros id. unfold new_tokens, proc_tokens. cbn. rewrite launch_count_cons, launch_count_nil. cbn.
      case_bool_decide; intros ?; [subst|lia]. set_solver.
    + intros id. unfold proc_tokens. rewrite Hph. cbn.
      destruct (decide (p_node p = id)) as [->|]; [rewrite bool_decide_true by done; by right|].
      left. set_solver.
    + by intros ph [= <-].
  - apply token_step_clear; [own_tokens|done|own_tokens|by intros ? [=]].
  - apply token_step_clear; [own_tokens|done|own_tokens|by intros ? [= <-]].
Qed.

Lemma apply_refire_inFlight (s : KState L) t l : k_inFlight (apply_refire c s t l).1 = k_inFlight s.
Proof. unfold apply_refire. by destruct (foldl _ _ _). Qed.

Lemma apply_refire_ready (s : KState L) t l :
  (apply_refire c s t l).2 = true -> t ∉ k_inFlight s.
Proof.
  unfold apply_refire. destruct (foldl _ _ _). cbn.
  rewrite andb_true_iff, negb_true_iff, bool_decide_eq_false. by intros [_ ?].
Qed.

(** The topology update launches only nodes that were not in flight, each once. *)
Lemma step_topo_launches (s : KState L) nd r valid err :
  (forall t, valid = Some t -> reaches g t (n_id nd)) ->
  exists stepDone skips ls,
    (step_topo c s nd r valid err).2 = Some (PhPost r stepDone skips ls) /\
    NoDup ls.*1 /\ (forall id, id ∈ ls.*1 -> id ∉ k_inFlight s) /\
    (forall id, id ∈ k_inFlight s \/ id ∈ ls.*1 -> id ∈ k_inFlight (step_topo c s nd r valid err).1).
Proof.
  intros Hup. unfold step_topo. destruct valid as [t|].
  - destruct (descendantsInclusive_spec g t) as (l & Hl & _ & Hreach).
    unfold g in Hl. rewrite Hl. cbn [default from_option id].
    pose proof (apply_refire_inFlight s t l) as Hin. pose proof (apply_refire_ready s t l) as Hr.
    destruct (apply_refire c s t l) as [s1 ready]. cbn [fst snd] in *.
    rewrite bool_decide_true by (apply Hreach; by apply Hup). cbn [negb].
    assert (k_inFlight (match err with Some e => fail_with s1 e | None => s1 end) = k_inFlight s) as Hf.
    { destruct err; rewrite ?fail_with_maps; done. }
    destruct (match err with Some e => fail_with s1 e | None => s1 end) as [] eqn:Hs2; cbn in Hf.
    destruct (r_Pause r); [|destruct ready]; cbn [fst snd].
    + eexists _, _, []. split; [done|]. split; [constructor|]. split; [by intros ? ?%elem_of_nil|].
      cbn. intros id [?|?%elem_of_nil]; [|done]. congruence.
    + eexists _, _, _. split; [done|]. cbn. split; [apply NoDup_singleton|]. split.
      * intros id Hid%list_elem_of_singleton. subst id. by apply Hr.
      * intros id [?|Hid%list_elem_of_singleton]; set_solver.
    + eexists _, _, []. split; [done|]. split; [constructor|]. split; [by intros ? ?%elem_of_nil|].
      cbn. intros id [?|?%elem_of_nil]; [|done]. congruence.
  - rewrite bool_decide_false by apply not_elem_of_nil. cbn [negb].
    match goal with |- context [r_Pause r] => idtac end.
    set (s1 := match err with Some e => fail_with _ e | None => _ end).
    assert (k_inFlight s1 = k_inFlight s) as Hf by (unfold s1; destruct err; rewrite ?fail_with_maps; done).
    destruct (r_Pause r).
    + eexists _, _, []. split; [done|]. split; [constructor|]. split; [by intros ? ?%elem_of_nil|].
      cbn. intros id [?|?%elem_of_nil]; [|done]. congruence.
    + destruct (promote_fresh s1 nd (r_Outputs r)) as (Hnd & Hfr & Hin).
      eexists _, _, _. split; [done|]. split; [done|]. rewrite Hf in *. split; [done|].
      cbn. intros id. apply Hin.
Qed.

Lemma step_phase_tokens o (s : KState L) p :
  (forall id, proc_tokens id p <= 1) ->
  (forall id, 0 < proc_tokens id p -> id ∈ k_inFlight s) -> phase_ok p ->
  (forall r, o_outcome o = OutOk r -> upstream r (p_node p)) ->
  (forall ls, p_phase p = PhLaunch ls -> ls = []) ->
  token_step p s (step_phase c o s p).1 (step_phase c o s p).2.
Proof.
  intros Hle Hmark Hok Hup Hls. unfold step_phase.
  destruct (p_phase p) as [| |inp|e|r|r|r valid err|r sd sk ls|ls] eqn:Hph.
  - unfold step_spawn. destruct (k_firstErr s); [|destruct (k_pause s)];
      apply token_step_same; auto; try own_tokens; by intros ? [= <-].
  - by apply step_budget_tokens.
  - by eapply step_exec_tokens.
  - apply token_step_same; auto; try own_tokens; [|done]. intros id. cbn [fst].
    by rewrite (eo_inFlight _ _ (step_err_env s e)).
  - by apply step_stale_tokens.
  - destruct (step_resolve_phase s (p_node p) r) as (v & e & Hv & Hvok).
    apply token_step_same; auto.
    + intros id. by rewrite (eo_inFlight _ _ (step_resolve_env s (p_node p) r)).
    + rewrite Hv. own_tokens.
    + rewrite Hv. intros ph [= <-]. unfold phase_ok. cbn. destruct v as [t|]; [|done].
      destruct (Hvok t eq_refl) as (bt & Hbt & <- & _).
      unfold phase_ok in Hok. rewrite Hph in Hok. by apply Hok.
  - destruct (nodesByID _ !! _) as [nd|] eqn:Hnd.
    2: { apply token_step_same; auto; try own_tokens; done. }
    apply nodesByID_id in Hnd.
    destruct (step_topo_launches s nd r valid err) as (sd & sk & ls & Hph' & Hnodup & Hfr & Hin).
    { intros t ->. unfold phase_ok in Hok. rewrite Hph in Hok. by rewrite Hnd. }
    rewrite Hph'. constructor; unfold new_tokens; cbn; unfold proc_tokens; cbn.
    + intros id. by apply launch_count_le_one.
    + intros id. destruct (decide (id ∈ ls.*1)); [right; by apply Hfr|].
      left. rewrite (proj2 (launch_count_zero id ls)) by done. lia.
    + intros id Hpos. apply Hin. right. destruct (decide (id ∈ ls.*1)) as [|Hno]; [done|].
      apply launch_count_zero in Hno. lia.
    + intros id Hid. left. apply Hin. by left.
    + by intros ph [= <-].
  - destruct (nodesByID _ !! _) as [nd|]; [|apply token_step_same; auto; own_tokens || done].
    unfold step_post. apply token_step_same; auto; try own_tokens; [|by intros ? [= <-]].
    intros id. cbn [fst]. rewrite (eo_inFlight _ _ (recordStep_env _ _ _)).
    rewrite (eo_inFlight _ _ (armGoalFromNode_env _ _ _)). destruct sk; [done|].
    match goal with |- context [k_append ?x ?y] => pose proof (k_append_env x y) as Ha end.
    destruct (k_append _ _) as [s1 [le|]]; cbn [fst] in Ha; rewrite ?fail_with_maps;
      by rewrite (eo_inFlight _ _ Ha).
  - rewrite (Hls ls eq_refl) in Hph. apply token_step_same; auto; try own_tokens; done.
Qed.

(** ** Reachability *)

(** States reached from [s0] by steps whose actions satisfy [allowed]. *)
Inductive kreach (allowed : KState L -> KAct -> Prop) (s0 : KState L) : KState L -> Prop :=
| kreach_refl : kreach allowed s0 s0
| kreach_step s a s' :
    kreach allowed s0 s -> allowed s a -> kstep c a s = Some s' -> kreach allowed s0 s'.

Record tokens_inv (s : KState L) : Prop := {
  ti_le : forall id, tokens s id <= 1;
  ti_mark : forall id, 0 < tokens s id -> id ∈ k_inFlight s;
  ti_ok : forall p, p ∈ k_procs s -> phase_ok p
}.

Lemma proc_tokens_le s i p id :
  k_procs s !! i = Some p -> proc_tokens id p <= tokens s id.
Proof. intros Hp. pose proof (sum_list_delete (proc_tokens id) _ _ _ Hp). unfold tokens. lia. Qed.

Lemma tokens_step_inv s s' i p oph seeds :
  tokens_inv s -> k_procs s !! i = Some p -> token_step p s s' oph -> seeds = k_seeds s ->
  tokens_inv (set_procs s' seeds (match oph with
                                  | Some ph => <[i := with_phase p ph]> (k_procs s)
                                  | None => delete i (k_procs s) end)).
Proof.
  intros [Hle Hmark Hok] Hp [Tle Tsrc Tmark Tkeep Tok] ->.
  assert (forall id, sum_list_with (proc_tokens id)
            (match oph with Some ph => <[i := with_phase p ph]> (k_procs s)
                          | None => delete i (k_procs s) end) + proc_tokens id p =
            sum_list_with (proc_tokens id) (k_procs s) + new_tokens p oph id) as Hsum.
  { intros id. destruct oph as [ph|]; cbn.
    - apply (sum_list_insert (proc_tokens id) _ _ _ (with_phase p ph) Hp).
    - rewrite (sum_list_delete (proc_tokens id) _ _ _ Hp). lia. }
  assert (forall id, id ∉ k_inFlight s -> tokens s id = 0) as Hz.
  { intros id Hid. destruct (tokens s id) eqn:E; [done|]. exfalso. apply Hid, Hmark. lia. }
  constructor; unfold tokens; cbn [k_seeds k_procs set_procs].
  - intros id. specialize (Hsum id). specialize (Hle id). pose proof (proc_tokens_le s i p id Hp).
    unfold tokens in *. destruct (Tsrc id) as [|Hid]; [lia|].
    specialize (Hz id Hid). specialize (Tle id). lia.
  - intros id Hpos. specialize (Hsum id). pose proof (proc_tokens_le s i p id Hp) as Hpt.
    specialize (Hle id). cbn. unfold tokens in *.
    destruct (decide (0 < new_tokens p oph id)) as [|Hn]; [by apply Tmark|].
    destruct (Tkeep id) as [|Hone]; [apply Hmark; lia|done|]. lia.
  - intros q Hq. destruct oph as [ph|].
    + apply list_elem_of_lookup in Hq as [j Hj].
      apply list_lookup_insert_Some in Hj as [(<- & <- & _)|[_ Hj]]; [by apply Tok|].
      apply Hok. by eapply list_elem_of_lookup_2.
    + apply Hok. apply list_elem_of_lookup in Hq as [j Hj]. rewrite list_lookup_delete in Hj.
      case_decide; by eapply list_elem_of_lookup_2.
Qed.

(** What a successful [kinit] starts from. *)
Lemma kinit_ok rs cs ts l s0 :
  kinit c rs cs ts l = Ok s0 ->
  k_procs s0 = [] /\ k_seeds s0 = map (fun ep => (ep, 0%Z)) (g_entrypoints g) /\
  k_inFlight s0 = list_to_set (g_entrypoints g) /\ k_generation s0 = ∅ /\
  k_completed s0 = ∅ /\ k_skipped s0 = ∅ /\ k_inDeg s0 = initInDeg c /\ k_liveIn s0 = ∅ /\
  k_firstErr s0 = None /\ k_pause s0 = false /\ rc_BacktracksUsed (k_counters s0) = rc_BacktracksUsed cs.
Proof.
  unfold kinit. destruct (log_append _ _) as [l' [|]]; [|done].
  case_bool_decide; [done|]. destruct (List.find _ _); [done|].
  intros [= <-]. case_if; [|done].
  match goal with |- context [armTaskGoal c ?x ?y] =>
    pose proof (armTaskGoal_env x y) as He; pose proof (armTaskGoal_counters x y) as Hc end.
  rewrite Hc. destruct He as [-> -> -> -> -> -> -> -> -> ->]. done.
Qed.

Lemma tokens_inv_init rs cs ts l s0 :
  NoDup (g_entrypoints g) -> kinit c rs cs ts l = Ok s0 -> tokens_inv s0.
Proof.
  intros Hnd (Hp & Hs & Hf & _)%kinit_ok.
  assert ((k_seeds s0).*1 = g_entrypoints g) as Hfst.
  { rewrite Hs. clear. induction (g_entrypoints g) as [|e es IH]; [done|]. cbn. by f_equal. }
  assert (forall id, tokens s0 id = launch_count id (k_seeds s0)) as Ht.
  { intros id. unfold tokens. rewrite Hp. cbn. lia. }
  constructor.
  - intros id. rewrite Ht. apply launch_count_le_one. by rewrite Hfst.
  - intros id. rewrite Ht. intros Hpos. rewrite Hf. apply elem_of_list_to_set.
    destruct (decide (id ∈ g_entrypoints g)) as [|Hno]; [done|].
    rewrite <- Hfst in Hno. apply launch_count_zero in Hno. lia.
  - rewrite Hp. by intros ? ?%elem_of_nil.
Qed.

Lemma spawn_tokens id x : proc_tokens id (spawn x) = if bool_decide (x.1 = id) then 1 else 0.
Proof. done. Qed.

Lemma launch_tokens id p ls : p_phase p = PhLaunch ls -> proc_tokens id p = launch_count id ls.
Proof. unfold proc_tokens. by intros ->. Qed.

Lemma set_procs_same_tokens (s : KState L) seeds ps :
  tokens_inv s ->
  (forall id, tokens (set_procs s seeds ps) id = tokens s id) ->
  (forall p, p ∈ ps -> phase_ok p) -> tokens_inv (set_procs s seeds ps).
Proof. intros [Hle Hm _] Heq Hok. constructor; [|intros id|done]; [intros id|]; rewrite Heq; auto. Qed.

Lemma tokens_inv_step s a s' :
  tokens_inv s -> rewinds_upstream s a -> kstep c a s = Some s' -> tokens_inv s'.
Proof.
  intros Hinv Hup Hstep. destruct a as [|i o]; cbn in Hstep.
  - destruct (k_seeds s) as [|x seeds] eqn:Hs; [done|]. destruct (slot_free c s); inv_ok.
    apply set_procs_same_tokens; [done| |].
    + intros id. unfold tokens. cbn. rewrite Hs, sum_list_with_app, launch_count_cons.
      cbn [sum_list_with]. rewrite spawn_tokens. lia.
    + intros p [Hp|Hp%list_elem_of_singleton]%elem_of_app; [by apply Hinv|by subst].
  - destruct (k_procs s !! i) as [p|] eqn:Hp; [|done].
    assert (forall id, proc_tokens id p <= tokens s id) as Hle by (intros; by eapply proc_tokens_le).
    assert (p_phase p = PhLaunch [] \/ (exists x ls, p_phase p = PhLaunch (x :: ls)) \/
            (forall ls, p_phase p <> PhLaunch ls)) as Hcase.
    { destruct (p_phase p) as [| | | | | | | |[|x ls]]; eauto. }
    assert (p ∈ k_procs s) as Hin by (by eapply list_elem_of_lookup_2).
    destruct Hcase as [Hph|[(x & ls & Hph)|Hph]].
    2: { rewrite Hph in Hstep. destruct (slot_free c s); inv_ok.
      apply set_procs_same_tokens; [done| |].
      - intros id. unfold tokens. cbn. rewrite sum_list_with_app.
        pose proof (sum_list_insert (proc_tokens id) _ _ _ (with_phase p (PhLaunch ls)) Hp) as Hsum.
        rewrite (launch_tokens _ _ _ Hph), (launch_tokens id (with_phase p (PhLaunch ls)) ls eq_refl),
          launch_count_cons in Hsum.
        cbn [sum_list_with]. rewrite spawn_tokens. lia.
      - intros q [Hq|Hq%list_elem_of_singleton]%elem_of_app; [|by subst].
        apply list_elem_of_lookup in Hq as [j Hj].
        apply list_lookup_insert_Some in Hj as [(<- & <- & _)|[_ Hj]]; [done|].
        apply Hinv. by eapply list_elem_of_lookup_2. }
    all: assert (token_step p s (step_phase c o s p).1 (step_phase c o s p).2) as Hts
      by (apply step_phase_tokens;
          [intros id; specialize (Hle id); pose proof (ti_le _ Hinv id); lia
          |intros id ?; apply Hinv; specialize (Hle id); lia
          |by apply Hinv|intros r; by apply (Hup p r)|congruence]).
    all: pose proof (tokens_step_inv s _ i p _ _ Hinv Hp Hts eq_refl) as Hres;
      destruct (step_phase c o s p) as [s1 oph]; cbn [fst snd] in *.
    + rewrite Hph in Hstep. inv_ok. done.
    + destruct (p_phase p); inv_ok; try done. by destruct (Hph l).
Qed.

(** * Slots *)

Lemma slots_step s a s' :
  length (k_procs s) <= cfg_maxInFlight c -> kstep c a s = Some s' ->
  length (k_procs s') <= cfg_maxInFlight c.
Proof.
  intros Hle Hstep. destruct a as [|i o]; cbn in Hstep.
  - destruct (k_seeds s); [done|]. unfold slot_free in Hstep. case_bool_decide; inv_ok.
    cbn. rewrite length_app. cbn. lia.
  - destruct (k_procs s !! i) as [p|] eqn:Hp; [|done].
    destruct (step_phase c o s p) as [s1 oph].
    assert (length (match oph with Some ph => <[i := with_phase p ph]> (k_procs s)
                                 | None => delete i (k_procs s) end) <= cfg_maxInFlight c) as Hl.
    { destruct oph; [by rewrite length_insert|]. apply lookup_lt_Some in Hp as Hi.
      rewrite length_delete by done. lia. }
    destruct (p_phase p) as [| | | | | | | |[|x ls]]; inv_ok; try done.
    unfold slot_free in Hstep. case_bool_decide; inv_ok.
    cbn. rewrite length_app, length_insert. cbn. lia.
Qed.

(** No step is enabled. *)
Definition stuck (s : KState L) : Prop := forall a, kstep c a s = None.

Definition launching (p : Proc) : Prop := exists x ls, p_phase p = PhLaunch (x :: ls).

Lemma stuck_iff s :
  stuck s <->
  (forall p, p ∈ k_procs s -> launching p) /\
  ((k_seeds s = [] /\ k_procs s = []) \/ cfg_maxInFlight c <= length (k_procs s)).
Proof.
  split.
  - intros Hst. assert (forall p, p ∈ k_procs s -> launching p /\ slot_free c s = false) as Hl.
    { intros p (i & Hi)%list_elem_of_lookup.
      specialize (Hst (ActProc i {| o_now := 0; o_effect := no_effect; o_outcome := OutOk NewResult |})).
      cbn in Hst. rewrite Hi in Hst. destruct (step_phase _ _ _ _) as [s1 oph].
      destruct (p_phase p) as [| | | | | | | |[|x ls]] eqn:Hph; try done.
      destruct (slot_free c s) eqn:Hsf; [done|]. split; [by exists x, ls|done]. }
    split; [intros p Hp; by apply Hl|].
    destruct (k_procs s) as [|p ps] eqn:Hps.
    + specialize (Hst ActMain). cbn in Hst. destruct (k_seeds s); [by left|]. right.
      unfold slot_free in Hst. case_bool_decide as Hlt; [done|]. rewrite Hps in Hlt. lia.
    + right. destruct (Hl p) as [_ Hsf]; [by left|]. unfold slot_free in Hsf.
      apply bool_decide_eq_false in Hsf. rewrite Hps in Hsf. lia.
  - intros [Hl Hfull] [|i o]; cbn.
    + destruct Hfull as [[-> _]|Hf]; [done|]. destruct (k_seeds s); [done|].
      unfold slot_free. rewrite bool_decide_false by lia. done.
    + destruct (k_procs s !! i) as [p|] eqn:Hp; [|done].
      assert (p ∈ k_procs s) as Hin by (by eapply list_elem_of_lookup_2).
      destruct (Hl p Hin) as (x & ls & ->).
      destruct Hfull as [[_ Hn]|Hf]; [rewrite Hn in Hp; done|].
      unfold slot_free. rewrite bool_decide_false by lia. done.
Qed.

(** * Backtracks are bounded *)

Definition used (s : KState L) : Z := rc_BacktracksUsed (k_counters s).

(** A goroutine whose backtrack was honoured and not yet applied. *)
Definition honoured (p : Proc) : nat :=
  match p_phase p with PhTopo _ (Some _) _ => 1 | _ => 0 end.

Definition new_honoured (p : Proc) (oph : option Phase) : nat :=
  from_option (fun ph => honoured (with_phase p ph)) 0 oph.

Lemma apply_effect_used s f : used (apply_effect s f) = used s.
Proof.
  unfold used, apply_effect. cbn.
  induction (ef_tools f) as [|n IH]; cbn in *; [|exact IH].
  generalize (k_counters s) as cs. induction (ef_llm f) as [|z l IHl]; intros cs; [done|].
  cbn. by rewrite IHl.
Qed.

Lemma fail_with_generation (s : KState L) e : k_generation (fail_with s e) = k_generation s.
Proof. unfold fail_with. by destruct (k_firstErr s). Qed.

(** [s'] has the generations and the backtrack counter of [s]. *)
Definition quiet (s s' : KState L) : Prop := used s' = used s /\ k_generation s' = k_generation s.

#[local] Instance quiet_refl : Reflexive quiet.
Proof. by split. Qed.

#[local] Instance quiet_trans : Transitive quiet.
Proof. intros s1 s2 s3 [] []. split; congruence. Qed.

Lemma quiet_env s s' : env_only s s' -> k_counters s' = k_counters s -> quiet s s'.
Proof. intros [] Hc. split; [unfold used; by rewrite Hc|done]. Qed.

Lemma quiet_append s b : quiet s (k_append s b).1.
Proof. apply quiet_env; [apply k_append_env|apply k_append_counters]. Qed.

Lemma quiet_fail s e : quiet s (fail_with s e).
Proof. split; [unfold used; by rewrite fail_with_counters|apply fail_with_generation]. Qed.

Lemma quiet_append_fail s b (f : option string -> option KErr) :
  let '(s', le) := k_append s b in
  quiet s (match f le with Some e => fail_with s' e | None => s' end).
Proof.
  pose proof (quiet_append s b) as Hq. destruct (k_append s b) as [s' le]. cbn [fst] in Hq.
  destruct (f le); [|done]. etrans; [exact Hq|apply quiet_fail].
Qed.

Lemma step_budget_quiet now s id : quiet s (step_budget c now s id).1.
Proof.
  unfold step_budget. pose proof (checkBudget_env now s) as Hb.
  pose proof (checkBudget_counters now s) as Hc.
  destruct (checkBudget _ _ _) as [s1 [e|]]; cbn [fst] in *; (etrans; [by apply quiet_env|]);
    [apply quiet_fail|].
  destruct (nodesByID _ !! _); [destruct (cfg_registry c !! _)|]; cbn [fst]; try done;
    (etrans; [|apply quiet_fail]); done.
Qed.

Lemma step_exec_quiet s id f out : quiet s (step_exec c s id f out).1.
Proof.
  unfold step_exec.
  assert (quiet s (apply_effect s f)) as Hq by (split; [apply apply_effect_used|done]).
  etrans; [exact Hq|]. clear Hq. generalize (apply_effect s f) as s1. intros s1.
  destruct (nodesByID _ !! _) as [nd|]; [|done]. destruct out as [r|evs e].
  - unfold step_exec_ok.
    match goal with |- context [k_append ?x ?y] => pose proof (quiet_append x y) as Ha end.
    destruct (k_append _ _) as [s2 [le|]]; cbn [fst] in *; (etrans; [exact Ha|]); [|done].
    etrans; [|apply quiet_fail]. done.
  - unfold step_exec_err.
    match goal with |- context [k_append ?x ?y] => pose proof (quiet_append x y) as Ha end.
    destruct (k_append _ _) as [s2 lerr]; cbn [fst] in *. etrans; [exact Ha|]. cbn zeta.
    destruct (k_firstErr (set_inFlight _ _)); repeat case_if; done.
Qed.

Lemma step_err_quiet s e : quiet s (step_err c s e).
Proof.
  apply quiet_env; [apply step_err_env|]. unfold step_err.
  destruct (ke_denied e); [|apply armRecovery_counters].
  case_bool_decide; rewrite ?AddTaskForbidden_counters; apply armRecovery_counters.
Qed.

Lemma step_post_quiet s nd r sd sk ls : quiet s (step_post c s nd r sd sk ls).1.
Proof.
  unfold step_post. cbn [fst].
  assert (forall s1, quiet s1 (recordStep c (armGoalFromNode c s1 nd (r_Outputs r)) nd sd)) as Hr.
  { intros s1. apply quiet_env; [etrans; [apply armGoalFromNode_env|apply recordStep_env]|].
    by rewrite recordStep_counters, armGoalFromNode_counters. }
  etrans; [|apply Hr]. destruct sk as [|x sk]; [done|].
  match goal with |- context [k_append ?x ?y] => pose proof (quiet_append x y) as Ha end.
  destruct (k_append _ _) as [s1 [le|]]; cbn [fst] in *; [|done].
  etrans; [exact Ha|apply quiet_fail].
Qed.

Lemma step_topo_quiet s nd r err : quiet s (step_topo c s nd r None err).1.
Proof.
  unfold step_topo. rewrite bool_decide_false by apply not_elem_of_nil. cbn [negb].
  match goal with |- context [match err with Some e => fail_with ?x e | None => ?x end] =>
    assert (quiet s (match err with Some e => fail_with x e | None => x end)) as Hq
      by (destruct err; [etrans; [|apply quiet_fail]; done|done]);
    revert Hq; generalize (match err with Some e => fail_with x e | None => x end)
  end.
  intros s1 Hq. destruct (r_Pause r); exact Hq.
Qed.

(** Every phase but the two that handle a backtrack leaves the counter and the
    generations alone. *)
Lemma step_phase_quiet o s p :
  (forall r, p_phase p <> PhFresh r) -> (forall r t e, p_phase p <> PhTopo r (Some t) e) ->
  quiet s (step_phase c o s p).1 /\ new_honoured p (step_phase c o s p).2 = 0.
Proof.
  intros Hnf Hnt. unfold step_phase.
  destruct (p_phase p) as [| |inp|e|r|r|r [t|] err|r sd sk ls|ls] eqn:Hph;
    try (by exfalso; eapply Hnf); try (by exfalso; eapply Hnt); try done.
  - unfold step_spawn. destruct (k_firstErr s); [done|]. by destruct (k_pause s).
  - split; [apply step_budget_quiet|]. unfold step_budget.
    destruct (checkBudget _ _ _) as [s1 [e|]]; [done|].
    destruct (nodesByID _ !! _); [|done]. by destruct (cfg_registry c !! _).
  - split; [apply step_exec_quiet|]. unfold step_exec.
    destruct (nodesByID _ !! _); [|done]. destruct (o_outcome o).
    + unfold step_exec_ok. by destruct (k_append _ _) as [s1 [le|]].
    + unfold step_exec_err. destruct (k_append _ _) as [s1 lerr]. cbn zeta.
      destruct (k_firstErr (set_inFlight _ _)); repeat case_if; done.
  - split; [apply step_err_quiet|done].
  - unfold step_stale. cbn zeta. repeat case_if; done.
  - destruct (nodesByID _ !! _) as [nd|]; [|done]. split; [apply step_topo_quiet|].
    unfold step_topo. rewrite bool_decide_false by apply not_elem_of_nil. cbn [negb].
    by destruct (r_Pause r).
  - destruct (nodesByID _ !! _) as [nd|]; [|done]. split; [apply step_post_quiet|done].
Qed.

Lemma step_resolve_honoured s id r p :
  let '(s', oph) := step_resolve c s id r in
  k_generation s' = k_generation s /\ (used s <= used s')%Z /\
  (Z.of_nat (new_honoured p oph) <= used s' - used s)%Z /\
  (new_honoured p oph = 1 -> (used s' <= maxBacktracks c)%Z).
Proof.
  pose proof (step_resolve_env s id r) as Henv. unfold step_resolve in *.
  destruct (resolveBacktrack r) as [bt|]; [|cbn; split_and!; try done; lia].
  destruct (bool_decide (bt_TargetNode bt ∈ _)); [cbn; split_and!; try done; lia|].
  destruct (nodesByID _ !! _); [|cbn; split_and!; try done; lia].
  destruct (AddBacktrack (k_counters s)) as [cs u] eqn:Hab.
  assert (u = (used s + 1)%Z /\ rc_BacktracksUsed cs = u) as [Hu Hcs].
  { unfold AddBacktrack in Hab. inv_ok. done. }
  destruct (maxBacktracks c <? u)%Z eqn:Hcap.
  - cbn [fst emitCapHit] in *. rewrite (eo_generation _ _ Henv).
    match goal with |- context [used (k_append ?x ?y).1] => assert (used (k_append x y).1 = u) as Hs1
      by (unfold used; rewrite k_append_counters; done) end.
    rewrite Hs1. cbn. split_and!; [done|lia|lia|done].
  - apply Z.ltb_ge in Hcap.
    match goal with |- context [k_append ?x ?y] => pose proof (k_append_counters x y) as Hc end.
    destruct (k_append _ _) as [s1 lerr]. cbn [fst] in *.
    assert (used s1 = u) as Hs1.
    { unfold used. rewrite Hc. case_bool_decide; rewrite ?AddTaskForbidden_counters, armRecovery_counters; done. }
    rewrite (eo_generation _ _ Henv), Hs1. cbn. split_and!; [done|lia|lia|lia].
Qed.

Lemma fold_bump l (m : gmap string Z) id :
  NoDup l ->
  zget (foldl (fun m id => <[id := (zget m id + 1)%Z]> m) m l) id =
  (zget m id + (if bool_decide (id ∈ l) then 1 else 0))%Z.
Proof.
  revert m. induction l as [|x l IH]; intros m Hnd.
  { cbn. rewrite bool_decide_false by apply not_elem_of_nil. lia. }
  apply NoDup_cons in Hnd as [Hx Hnd]. cbn [foldl]. rewrite IH, zget_insert by done.
  destruct (decide (x = id)) as [->|Hne].
  - rewrite bool_decide_false by done. rewrite bool_decide_true by (by left). lia.
  - f_equal. erewrite bool_decide_ext; [reflexivity|]. rewrite elem_of_cons. naive_solver.
Qed.

Lemma step_topo_generation (s : KState L) nd r t err id :
  used (step_topo c s nd r (Some t) err).1 = used s /\
  (zget (k_generation (step_topo c s nd r (Some t) err).1) id <= zget (k_generation s) id + 1)%Z.
Proof.
  unfold step_topo. destruct (descendantsInclusive_spec g t) as (l & Hl & Hnd & _).
  unfold g in Hl. rewrite Hl. cbn [default from_option Datatypes.id].
  assert (used (apply_refire c s t l).1 = used s /\
    (zget (k_generation (apply_refire c s t l).1) id <= zget (k_generation s) id + 1)%Z) as [Hu Hg].
  { unfold apply_refire. destruct (foldl _ _ l) as [d lv]. cbn. rewrite fold_bump by done.
    split; [done|]. case_bool_decide; lia. }
  destruct (apply_refire c s t l) as [s1 ready]. cbn [fst] in *.
  unfold used in *. case_bool_decide; cbn [negb]; destruct err; cbn; unfold fail_with; cbn;
    try destruct (k_firstErr s1); destruct (r_Pause r); cbn; try destruct ready; cbn; auto.
Qed.

(** [g]: generation of a node plus the rewinds about to be applied. *)
Definition bt_inv (s : KState L) : Prop :=
  forall id, (zget (k_generation s) id + Z.of_nat (sum_list_with honoured (k_procs s)) <=
              Z.min (used s) (maxBacktracks c))%Z.

Lemma bt_inv_update (s s' : KState L) i p oph seeds :
  k_procs s !! i = Some p ->
  (forall id, zget (k_generation s') id + Z.of_nat (sum_list_with honoured (k_procs s))
     + Z.of_nat (new_honoured p oph) - Z.of_nat (honoured p) <= Z.min (used s') (maxBacktracks c))%Z ->
  bt_inv (set_procs s' seeds (match oph with
                              | Some ph => <[i := with_phase p ph]> (k_procs s)
                              | None => delete i (k_procs s) end)).
Proof.
  intros Hp Hle id. specialize (Hle id). unfold used in *. cbn.
  destruct oph as [ph|]; cbn in *.
  - pose proof (sum_list_insert honoured _ _ _ (with_phase p ph) Hp). lia.
  - pose proof (sum_list_delete honoured _ _ _ Hp). lia.
Qed.

Lemma bt_inv_step s a s' : bt_inv s -> kstep c a s = Some s' -> bt_inv s'.
Proof.
  intros Hinv Hstep. destruct a as [|i o]; cbn in Hstep.
  - destruct (k_seeds s); [done|]. destruct (slot_free c s); inv_ok.
    intros id. specialize (Hinv id). cbn. rewrite sum_list_with_app. cbn. unfold used in *. cbn. lia.
  - destruct (k_procs s !! i) as [p|] eqn:Hp; [|done].
    assert (honoured p <= sum_list_with honoured (k_procs s)) as Hh.
    { pose proof (sum_list_delete honoured _ _ _ Hp). lia. }
    assert ((exists x ls, p_phase p = PhLaunch (x :: ls)) \/ kstep c (ActProc i o) s =
      let '(s1, oph) := step_phase c o s p in
      Some (set_procs s1 (k_seeds s) (match oph with
              | Some ph => <[i := with_phase p ph]> (k_procs s) | None => delete i (k_procs s) end)))
      as [(x & ls & Hph)|Hgen].
    { cbn. rewrite Hp. destruct (p_phase p) as [| | | | | | | |[|x ls]]; eauto. }
    + rewrite Hph in Hstep. destruct (slot_free c s); inv_ok. intros id. specialize (Hinv id).
      cbn. rewrite sum_list_with_app. cbn. unfold used in *.
      pose proof (sum_list_insert honoured _ _ _ (with_phase p (PhLaunch ls)) Hp) as Hsum.
      unfold honoured at 2 4 in Hsum. rewrite Hph in Hsum. cbn in *. lia.
    + cbn in Hgen. rewrite Hp in Hgen. rewrite Hgen in Hstep. clear Hgen.
      assert (forall q, p_phase p = q -> (exists r, q = PhFresh r) \/ (exists r t e, q = PhTopo r (Some t) e) \/
        ((forall r, q <> PhFresh r) /\ (forall r t e, q <> PhTopo r (Some t) e))) as Hcase.
      { intros q _. destruct q as [| | | | | |? [|]| |]; eauto 7. }
      destruct (Hcase _ eq_refl) as [(r & Hph)|[(r & t & e & Hph)|[Hn1 Hn2]]].
      * unfold step_phase in Hstep. rewrite Hph in Hstep.
        pose proof (step_resolve_honoured s (p_node p) r p) as Hr.
        destruct (step_resolve _ _ _ _) as [s1 oph]. destruct Hr as (Hg & Hu & Hn & Hcap). inv_ok.
        apply bt_inv_update; [done|]. intros id. specialize (Hinv id). rewrite Hg.
        assert (honoured p = 0) as -> by (unfold honoured; by rewrite Hph).
        assert (new_honoured p oph = 0 \/ new_honoured p oph = 1) as [E|E].
        { destruct oph as [[| | | | | |? [|]| |]|]; cbn; auto. }
        all: rewrite E in *; lia.
      * unfold step_phase in Hstep. rewrite Hph in Hstep.
        assert (honoured p = 1) as Hone by (unfold honoured; by rewrite Hph).
        destruct (nodesByID _ !! _) as [nd|].
        -- pose proof (fun id => step_topo_generation s nd r t e id) as Ht.
           assert (new_honoured p (step_topo c s nd r (Some t) e).2 = 0) as Hz.
           { unfold step_topo. destruct (apply_refire _ _ _ _) as [s1 ready].
             case_bool_decide; destruct (r_Pause r); cbn; try destruct ready; done. }
           destruct (step_topo _ _ _ _ _ _) as [s1 oph]. cbn [fst snd] in *. inv_ok.
           apply bt_inv_update; [done|]. intros id. specialize (Hinv id). destruct (Ht id) as [-> Hg].
           rewrite Hz, Hone. lia.
        -- inv_ok. apply (bt_inv_update s s i p None); [done|]. intros id. specialize (Hinv id). cbn. lia.
      * destruct (step_phase_quiet o s p Hn1 Hn2) as [[Hu Hg] Hz].
        destruct (step_phase c o s p) as [s1 oph]. cbn [fst snd] in *. inv_ok.
        apply bt_inv_update; [done|]. intros id. specialize (Hinv id). rewrite Hu, Hg, Hz. lia.
Qed.
End Safety.
