(* ===== verification/KernelForward.v ===== *)
(** Runs without rewinds.  Which nodes of a graph must be settled, and which of
    them must run, is defined from the graph and the liveness of its edges
    alone; the file shows that every schedule of the kernel ends with exactly
    those nodes completed and exactly those executed. *)
From S2P Require Import Prelude GoString AgentGraph EventLog RunState Kernel KernelSafety.

Section Forward.
Context {L : Type} `{EventLog L} (c : KConfig) (lv : Edge -> bool).
Let g := cfg_graph c.

(** * The specification *)

(** Entry nodes are settled; so is a node all of whose predecessors are. *)
Inductive decided : string -> Prop :=
| decided_entry ep : ep ∈ g_entrypoints g -> decided ep
| decided_node v :
    inEdges g v <> [] -> (forall e, e ∈ inEdges g v -> decided (e_src e)) -> decided v.

(** Entry nodes run; a settled node runs if a predecessor that runs delivers
    along a live edge. *)
Inductive fires : string -> Prop :=
| fires_entry ep : ep ∈ g_entrypoints g -> fires ep
| fires_node v e :
    decided v -> e ∈ inEdges g v -> fires (e_src e) -> lv e = true -> fires v.

Lemma fires_decided v : fires v -> decided v.
Proof. destruct 1; [by apply decided_entry|done]. Qed.

(** Entrypoints have no predecessors. *)
Hypothesis Hentry : forall ep, ep ∈ g_entrypoints g -> inEdges g ep = [].

(** * Promotion *)

Definition froms (p : Promo) : list string := map f_from (pr_work p).
Definition into (v : string) (e : Edge) : bool := bool_decide (e_dst e = v).

(** The source of [e] has not completed, or its out-edges are still queued. *)
Definition unmet (completed : gset string) (queued : list string) (e : Edge) : bool :=
  negb (bool_decide (e_src e ∈ completed)) || bool_decide (e_src e ∈ queued).
(** The source of [e] ran and [e] is live. *)
Definition fed (completed skipped : gset string) (e : Edge) : bool :=
  bool_decide (e_src e ∈ completed) && negb (bool_decide (e_src e ∈ skipped)) && lv e.
Definition delivers (f : Frame) (e : Edge) : bool := negb (f_dead f) && live_under (f_live f) e.

(** A frame speaks for the node it was pushed for. *)
Definition frame_ok (skipped : gset string) (f : Frame) : Prop :=
  if f_dead f then f_from f ∈ skipped
  else f_from f ∉ skipped /\ forall e, e ∈ outEdges g (f_from f) -> live_under (f_live f) e = lv e.

(** Invariant of the promotion loop: frame [f] is being processed and its
    edges [es] are still to come; [A] are the nodes dispatched before. *)
Record PI (A : string -> Prop) (f : Frame) (es : list Edge) (p : Promo) : Prop := {
  pi_sub : pr_skipped p ⊆ pr_completed p;
  pi_from : f_from f ∈ pr_completed p /\ f_from f ∉ froms p;
  pi_frame : frame_ok (pr_skipped p) f;
  pi_es : forall e, e ∈ es -> e ∈ outEdges g (f_from f);
  pi_work : Forall (fun w => f_dead w = true /\ f_from w ∈ pr_skipped p) (pr_work p);
  pi_nodup : NoDup (froms p);
  pi_in : forall v, v ∉ pr_completed p ->
    zget (pr_inDeg p) v =
    Z.of_nat (countb (unmet (pr_completed p) (froms p)) (inEdges g v) + countb (into v) es);
  pi_live : forall v, v ∉ pr_completed p ->
    (zget (pr_liveIn p) v + Z.of_nat (countb (fun e => into v e && delivers f e) es))%Z =
    Z.of_nat (countb (fed (pr_completed p) (pr_skipped p)) (inEdges g v));
  pi_active : forall v, A v -> v ∉ pr_completed p /\ zget (pr_inDeg p) v = 0%Z;
  pi_flight : forall v, v ∈ pr_inFlight p -> A v \/ v ∈ (pr_launch p).*1;
  pi_launch : forall v, v ∈ (pr_launch p).*1 ->
    v ∉ pr_completed p /\ zget (pr_inDeg p) v = 0%Z /\ fires v /\ ~ A v;
  pi_ready : forall v, v ∉ pr_completed p -> inEdges g v <> [] -> zget (pr_inDeg p) v = 0%Z ->
    A v \/ v ∈ (pr_launch p).*1;
  pi_dec : forall u, u ∈ pr_completed p ->
    decided u /\ (u ∈ pr_skipped p -> ~ fires u) /\ (u ∉ pr_skipped p -> fires u)
}.

Lemma into_eq v e : into v e = true <-> e_dst e = v.
Proof. unfold into. by rewrite bool_decide_eq_true. Qed.

Lemma inEdges_dst v e : e ∈ inEdges g v -> e_dst e = v /\ e ∈ outEdges g (e_src e).
Proof. rewrite elem_of_inEdges, elem_of_outEdges. naive_solver. Qed.

(** ** Settling a node all of whose in-edges have reported *)

Section Settle.
Context (C K : gset string) (W : list string).
Hypothesis Hdec : forall u, u ∈ C -> decided u /\ (u ∈ K -> ~ fires u) /\ (u ∉ K -> fires u).
Context (v : string).
Hypothesis Hne : inEdges g v <> [].
Hypothesis Hmet : countb (unmet C W) (inEdges g v) = 0.

Lemma settled_sources e : e ∈ inEdges g v -> e_src e ∈ C.
Proof.
  intros He. pose proof (proj1 (countb_zero _ _) Hmet e He) as Hu.
  unfold unmet in Hu. apply orb_false_iff in Hu as [Hu _].
  by apply negb_false_iff, bool_decide_eq_true in Hu.
Qed.

Lemma settled_decided : decided v.
Proof. apply decided_node; [done|]. intros e He. by apply Hdec, settled_sources. Qed.

Lemma settled_fires : fires v <-> 0 < countb (fed C K) (inEdges g v).
Proof.
  rewrite countb_pos. unfold fed. split.
  - intros Hf. inversion Hf as [ep Hep|v' e Hd He Hs Hl]; subst.
    + by rewrite (Hentry v) in Hne.
    + exists e. split; [done|]. pose proof (settled_sources e He) as Hc.
      rewrite (bool_decide_true _ Hc), Hl, bool_decide_false; [done|].
      intros Hk. by apply (Hdec (e_src e) Hc).
  - intros (e & He & Hf). apply andb_true_iff in Hf as [Hf Hl]. apply andb_true_iff in Hf as [Hc Hk].
    apply bool_decide_eq_true in Hc. apply negb_true_iff, bool_decide_eq_false in Hk.
    apply (fires_node v e); [apply settled_decided|done| |done]. by apply (Hdec _ Hc).
Qed.
End Settle.

(** ** One edge *)

Lemma unmet_skip C W v e :
  v ∉ C -> v ∉ W -> unmet ({[v]} ∪ C) (W ++ [v]) e = unmet C W e.
Proof.
  intros Hc Hw. unfold unmet.
  destruct (decide (e_src e = v)) as [->|Hne].
  - rewrite (bool_decide_true (v ∈ {[v]} ∪ C)) by set_solver.
    rewrite (bool_decide_true (v ∈ W ++ [v])) by (apply elem_of_app; right; by left).
    by rewrite (bool_decide_false (v ∈ C)).
  - rewrite (bool_decide_same (e_src e ∈ {[v]} ∪ C) (e_src e ∈ C)) by set_solver.
    f_equal. apply bool_decide_same. rewrite elem_of_app, list_elem_of_singleton. naive_solver.
Qed.

Lemma fed_skip C K v e :
  v ∉ C -> K ⊆ C -> fed ({[v]} ∪ C) ({[v]} ∪ K) e = fed C K e.
Proof.
  intros Hc Hk. unfold fed. destruct (decide (e_src e = v)) as [->|Hne].
  - rewrite (bool_decide_true (v ∈ {[v]} ∪ K)) by set_solver.
    rewrite (bool_decide_false (v ∈ C)) by done. by rewrite andb_false_r.
  - rewrite (bool_decide_same (e_src e ∈ {[v]} ∪ C) (e_src e ∈ C)) by set_solver.
    by rewrite (bool_decide_same (e_src e ∈ {[v]} ∪ K) (e_src e ∈ K)) by set_solver.
Qed.

Lemma outEdge_visible u e : e ∈ outEdges g u -> e_dst e ∉ bodyNodeIDs g.
Proof.
  rewrite elem_of_outEdges. intros (_ & Hv & _). unfold visible in Hv.
  apply andb_true_iff in Hv as [Hv _]. by apply negb_true_iff, bool_decide_eq_false in Hv.
Qed.

Lemma into_cons v e es :
  countb (into v) (e :: es) = (if bool_decide (e_dst e = v) then 1 else 0) + countb (into v) es.
Proof. by rewrite countb_cons. Qed.

(** The counters of the target of the first pending edge, updated. *)
Record bumped (A : string -> Prop) (f : Frame) (e : Edge) (es : list Edge) (p : Promo)
    (inDeg liveIn : gmap string Z) : Prop := {
  bp_in : forall v, v ∉ pr_completed p ->
    zget inDeg v = Z.of_nat (countb (unmet (pr_completed p) (froms p)) (inEdges g v) + countb (into v) es);
  bp_live : forall v, v ∉ pr_completed p ->
    (zget liveIn v + Z.of_nat (countb (fun e => into v e && delivers f e) es))%Z =
    Z.of_nat (countb (fed (pr_completed p) (pr_skipped p)) (inEdges g v));
  bp_not_active : ~ A (e_dst e) /\ e_dst e ∉ (pr_launch p).*1;
  bp_other : forall v, v <> e_dst e -> zget inDeg v = zget (pr_inDeg p) v
}.

Lemma PI_bump A f e es p :
  PI A f (e :: es) p -> e_dst e ∉ pr_completed p ->
  bumped A f e es p (<[e_dst e := (zget (pr_inDeg p) (e_dst e) - 1)%Z]> (pr_inDeg p))
    (if delivers f e then <[e_dst e := (zget (pr_liveIn p) (e_dst e) + 1)%Z]> (pr_liveIn p)
     else pr_liveIn p).
Proof.
  intros HP Hc. constructor.
  - intros v Hv. rewrite zget_insert. pose proof (pi_in _ _ _ _ HP v Hv) as Hin.
    rewrite into_cons in Hin. destruct (decide (e_dst e = v)) as [Hd|Hd].
    + subst v. rewrite bool_decide_true in Hin by done. lia.
    + rewrite bool_decide_false in Hin by done. lia.
  - intros v Hv. pose proof (pi_live _ _ _ _ HP v Hv) as Hl. rewrite countb_cons in Hl.
    unfold into at 1 in Hl. destruct (decide (e_dst e = v)) as [<-|Hd].
    + rewrite bool_decide_true in Hl by done. destruct (delivers f e); cbn [andb] in Hl.
      * rewrite zget_insert_eq. lia.
      * lia.
    + rewrite bool_decide_false in Hl by done. cbn [andb] in Hl. destruct (delivers f e); [|lia].
      rewrite zget_insert_ne by done. lia.
  - pose proof (pi_in _ _ _ _ HP _ Hc) as Hin. rewrite into_cons, bool_decide_true in Hin by done. split.
    + intros Ha. apply (pi_active _ _ _ _ HP) in Ha as [_ Ha]. lia.
    + intros Ha. apply (pi_launch _ _ _ _ HP) in Ha as (_ & Ha & _). lia.
  - intros v Hv. by rewrite zget_insert_ne.
Qed.

Lemma PI_edge A gen f e es p :
  PI A f (e :: es) p -> PI A f es (promote_edge c gen f p e).
Proof.
  intros HP. assert (e ∈ outEdges g (f_from f)) as He by (apply (pi_es _ _ _ _ HP); by left).
  unfold promote_edge. fold g.
  rewrite bool_decide_false by (by eapply outEdge_visible).
  assert (forall e', e' ∈ es -> e' ∈ outEdges g (f_from f)) as Hes.
  { intros e' He'. apply (pi_es _ _ _ _ HP). by right. }
  case_bool_decide as Hc.
  { destruct HP. constructor; try done.
    - intros v Hv. rewrite pi_in0, into_cons, bool_decide_false by (try done; by intros <-). done.
    - intros v Hv. rewrite <- pi_live0, countb_cons by done. unfold into at 2.
      rewrite bool_decide_false by (by intros <-). done. }
  fold (delivers f e). destruct (PI_bump _ _ _ _ _ HP Hc) as [Bin Blive [Bna Bnl] Bother].
  set (inDeg := <[_ := _]> (pr_inDeg p)) in *.
  set (liveIn := if delivers f e then _ else _) in *.
  assert (e_dst e ∉ pr_inFlight p) as Hnf.
  { intros Hf. by destruct (pi_flight _ _ _ _ HP _ Hf). }
  rewrite (bool_decide_false (e_dst e ∈ pr_inFlight p)) by done. rewrite orb_false_r.
  pose proof (Bin _ Hc) as Hdeg.
  assert (inEdges g (e_dst e) <> []) as Hne.
  { intros Hnil. apply outEdge_visible in He as Hvis.
    assert (e ∈ inEdges g (e_dst e)) as Hin.
    { apply inEdges_outEdges. by rewrite (proj2 (proj2 (proj1 (elem_of_outEdges _ _ _) He))). }
    rewrite Hnil in Hin. by apply elem_of_nil in Hin. }
  destruct (0 <? zget inDeg (e_dst e))%Z eqn:Hpos.
  { apply Z.ltb_lt in Hpos. destruct HP. constructor; try done.
    - intros v Ha. destruct (pi_active0 v Ha). split; [done|]. cbn.
      rewrite Bother; [done|]. by intros ->.
    - intros v Ha. destruct (pi_launch0 v Ha) as (? & ? & ? & ?). split_and!; try done. cbn.
      rewrite Bother; [done|]. by intros ->.
    - cbn. intros v Hv Hn Hz. apply pi_ready0; [done..|]. rewrite <- Bother; [done|]. intros ->. lia. }
  apply Z.ltb_ge in Hpos.
  assert (countb (unmet (pr_completed p) (froms p)) (inEdges g (e_dst e)) = 0) as Hmet by lia.
  assert (countb (into (e_dst e)) es = 0) as Hes0 by lia.
  assert (zget liveIn (e_dst e) =
          Z.of_nat (countb (fed (pr_completed p) (pr_skipped p)) (inEdges g (e_dst e)))) as Hlv.
  { rewrite <- Blive by done.
    assert (countb (fun e0 => into (e_dst e) e0 && delivers f e0) es = 0) as ->; [|lia].
    assert (countb (fun e0 => into (e_dst e) e0 && delivers f e0) es <= countb (into (e_dst e)) es); [|lia].
    apply countb_impl. by intros x [? _]%andb_true_iff. }
  pose proof (settled_decided _ _ _ (pi_dec _ _ _ _ HP) _ Hne Hmet) as Hd.
  pose proof (settled_fires _ _ _ (pi_dec _ _ _ _ HP) _ Hne Hmet) as Hf.
  destruct (0 <? zget liveIn (e_dst e))%Z eqn:Hlive.
  - apply Z.ltb_lt in Hlive. assert (fires (e_dst e)) as Hfire by (apply Hf; lia).
    destruct HP. constructor; try done; cbn.
    + intros v Ha. destruct (pi_active0 v Ha). split; [done|]. rewrite Bother; [done|]. by intros ->.
    + intros v [Hv%elem_of_singleton|Hv]%elem_of_union.
      * right. subst v. rewrite fmap_app. apply elem_of_app. right. by left.
      * destruct (pi_flight0 v Hv); [by left|right]. rewrite fmap_app. apply elem_of_app. by left.
    + intros v. rewrite fmap_app, elem_of_app. intros [Hv|Hv%list_elem_of_singleton].
      * destruct (pi_launch0 v Hv) as (? & ? & ? & ?). split_and!; try done. rewrite Bother; [done|]. by intros ->.
      * cbn in Hv. subst v. split_and!; [done|lia|done..].
    + intros v Hv Hn Hz. destruct (decide (v = e_dst e)) as [->|Hve].
      * right. rewrite fmap_app. apply elem_of_app. right. by left.
      * rewrite Bother in Hz by done. destruct (pi_ready0 v Hv Hn Hz); [by left|right].
        rewrite fmap_app. apply elem_of_app. by left.
  - apply Z.ltb_ge in Hlive.
    assert (~ fires (e_dst e)) as Hnofire by (rewrite Hf; lia).
    destruct HP. unfold froms in *.
    assert (e_dst e ∉ map f_from (pr_work p)) as Hnw.
    { intros (w & Hw & Hwin)%list_elem_of_In%in_map_iff. apply list_elem_of_In in Hwin.
      rewrite Forall_forall in pi_work0. destruct (pi_work0 w Hwin) as [_ Hk].
      apply Hc. rewrite <- Hw. by apply pi_sub0. }
    assert (e_dst e <> f_from f) as Hnef by (intros Heq; apply Hc; rewrite Heq; by apply pi_from0).
    constructor; cbn; unfold froms in *; cbn; rewrite ?map_app; cbn.
    + set_solver.
    + split; [set_solver|]. rewrite elem_of_app, list_elem_of_singleton. naive_solver.
    + unfold frame_ok in *. destruct (f_dead f); [set_solver|]. split; [|by apply pi_frame0].
      rewrite not_elem_of_union, not_elem_of_singleton. split; [by intros ?|by apply pi_frame0].
    + done.
    + apply Forall_app. split; [|apply Forall_singleton; cbn; set_solver].
      eapply Forall_impl; [exact pi_work0|]. cbn. intros w [? ?]. split; [done|set_solver].
    + apply NoDup_app. split; [done|]. split; [|apply NoDup_singleton].
      intros x Hx Hx'%list_elem_of_singleton. by subst x.
    + intros v Hv. rewrite Bin by set_solver. f_equal. f_equal. apply countb_ext. intros e' _.
      symmetry. by apply unmet_skip.
    + intros v Hv. rewrite Blive by set_solver. f_equal. apply countb_ext. intros e' _.
      symmetry. by apply fed_skip.
    + intros v Ha. destruct (pi_active0 v Ha). assert (v <> e_dst e) by (by intros ->).
      split; [set_solver|]. by rewrite Bother.
    + done.
    + intros v Ha. destruct (pi_launch0 v Ha) as (? & ? & ? & ?). assert (v <> e_dst e) by (by intros ->).
      split_and!; [set_solver|by rewrite Bother|done..].
    + intros v Hv Hn Hz. rewrite Bother in Hz by set_solver. apply pi_ready0; [set_solver|done..].
    + intros u [Hu%elem_of_singleton|Hu]%elem_of_union.
      * subst u. split_and!; [done|done|]. intros Hno. exfalso. apply Hno. set_solver.
      * destruct (pi_dec0 u Hu) as (? & Hk & Hnk). assert (u <> e_dst e) by (by intros ->).
        split_and!; [done| |]; intros Hku; [apply Hk|apply Hnk]; set_solver.
Qed.

(** ** The worklist *)

(** Both edge maps hold the same edges between two nodes. *)
Lemma count_between_live u v h :
  countb (fun e => bool_decide (e_src e = u) && h e) (inEdges g v) =
  countb (fun e => into v e && h e) (outEdges g u).
Proof.
  unfold inEdges, outEdges, into. rewrite !countb_filter. apply countb_ext. intros e _.
  destruct (visible g e), (bool_decide (e_dst e = v)), (bool_decide (e_src e = u)), (h e); done.
Qed.

Lemma count_between u v :
  countb (fun e => bool_decide (e_src e = u)) (inEdges g v) = countb (into v) (outEdges g u).
Proof.
  etrans; [|etrans; [apply (count_between_live u v (fun _ => true))|]]; apply countb_ext; intros e _;
    by rewrite andb_true_r.
Qed.

Lemma PI_frame A f p f' w :
  PI A f [] p -> pr_work p = f' :: w -> PI A f' (outEdges g (f_from f')) (pop_work p w).
Proof.
  intros HP Hw. destruct HP. unfold froms in *. rewrite Hw in *. cbn [map] in *.
  apply Forall_cons in pi_work0 as [[Hdead Hsk] Hwork]. apply NoDup_cons in pi_nodup0 as [Hnin Hnd].
  constructor; cbn; unfold froms in *; cbn; try done.
  - split; [by apply pi_sub0|done].
  - unfold frame_ok. by rewrite Hdead.
  - intros v Hv. rewrite pi_in0 by done. cbn. rewrite <- count_between. f_equal.
    rewrite Nat.add_0_r. apply countb_split. intros e _. unfold unmet.
    destruct (decide (e_src e = f_from f')) as [Heq|Hne].
    + rewrite Heq, (bool_decide_true (_ ∈ pr_completed p)) by (by apply pi_sub0).
      rewrite (bool_decide_true (_ ∈ _ :: _)) by (by left).
      by rewrite (bool_decide_false (_ ∈ map f_from w)), (bool_decide_true (_ = _)).
    + rewrite (bool_decide_same (_ ∈ _ :: _) (e_src e ∈ map f_from w)) by (rewrite elem_of_cons; tauto).
      rewrite (bool_decide_false (_ = _)) by done. lia.
  - intros v Hv. rewrite <- pi_live0 by done. cbn. f_equal. f_equal.
    rewrite (proj2 (countb_zero _ _)); [done|]. intros e _. unfold delivers. rewrite Hdead. by rewrite andb_false_r.
Qed.

(** Frames queued plus nodes that can still be skipped. *)
Definition targets : gset string := list_to_set (map e_dst (g_edges g)).
Definition pending (p : Promo) : nat := length (pr_work p) + size (targets ∖ pr_completed p).

Lemma promote_edge_pending gen f p e :
  e ∈ g_edges g -> pending (promote_edge c gen f p e) <= pending p.
Proof.
  intros He. unfold promote_edge, pending. case_bool_decide; [done|]. case_bool_decide as Hc; [done|].
  case_if; [done|]. case_if; [done|]. cbn. rewrite length_app. cbn.
  assert (targets ∖ pr_completed p = {[e_dst e]} ∪ targets ∖ ({[e_dst e]} ∪ pr_completed p)) as ->.
  { apply leibniz_equiv. intros x. destruct (decide (x = e_dst e)) as [->|]; [|set_solver].
    assert (e_dst e ∈ targets) by (apply elem_of_list_to_set, list_elem_of_In, in_map, list_elem_of_In; done).
    set_solver. }
  rewrite (size_union {[e_dst e]}), size_singleton by set_solver. lia.
Qed.

Lemma PI_edges A gen f es p :
  PI A f es p ->
  PI A f [] (foldl (promote_edge c gen f) p es) /\ pending (foldl (promote_edge c gen f) p es) <= pending p.
Proof.
  revert p. induction es as [|e es IH]; intros p HP; [done|]. cbn [foldl].
  destruct (IH (promote_edge c gen f p e)) as [HP' Hle]; [by apply PI_edge|]. split; [done|].
  etrans; [exact Hle|]. apply promote_edge_pending.
  assert (e ∈ outEdges g (f_from f)) as He by (apply (pi_es _ _ _ _ HP); by left).
  by apply elem_of_outEdges in He as [? _].
Qed.

Lemma PI_loop A gen fuel f p :
  PI A f [] p -> pending p <= fuel ->
  exists f', PI A f' [] (promote_loop c gen fuel p) /\ pr_work (promote_loop c gen fuel p) = [].
Proof.
  revert f p. induction fuel as [|fuel IH]; intros f p HP Hle; cbn [promote_loop];
    destruct (pr_work p) as [|f' w] eqn:Hw; eauto.
  { unfold pending in Hle. rewrite Hw in Hle. cbn in Hle. lia. }
  fold g. rewrite buildEdges_out.
  destruct (PI_edges A gen f' _ _ (PI_frame _ _ _ _ _ HP Hw)) as [HP' Hp'].
  apply (IH f'); [done|]. unfold pending in *. rewrite Hw in Hle. cbn in *. lia.
Qed.

(** * The kernel state *)

#[local] Arguments launch_count : simpl never.
#[local] Arguments promote : simpl never.

(** The goroutine passed the stale check and has not updated the topology. *)
Definition posting (id : string) (p : Proc) : nat :=
  match p_phase p with
  | PhFresh _ | PhTopo _ _ _ => if bool_decide (p_node p = id) then 1 else 0
  | _ => 0
  end.

Definition weight (id : string) (p : Proc) : nat := proc_tokens id p + posting id p.
Definition active (s : KState L) (id : string) : nat :=
  launch_count id (k_seeds s) + sum_list_with (weight id) (k_procs s).

(** A result without a rewind or a pause whose edges are live as [lv] says. *)
Definition plain (id : string) (r : Result) : Prop :=
  resolveBacktrack r = None /\ r_Pause r = false /\
  forall nd e, nodesByID g !! id = Some nd -> e ∈ outEdges g id ->
    live_under (edgeLivenessFor c nd (r_Outputs r)) e = lv e.

Definition plain_results (s : KState L) (a : KAct) : Prop :=
  match a with
  | ActMain => True
  | ActProc i o => forall p r, k_procs s !! i = Some p -> o_outcome o = OutOk r -> plain (p_node p) r
  end.

Definition exists_node (id : string) : Prop := is_Some (nodesByID g !! id).
Definition first_gen (ls : list (string * Z)) : Prop := Forall (fun x => x.2 = 0%Z) ls.

Definition proc_ok (p : Proc) : Prop :=
  p_gen p = 0%Z /\
  match p_phase p with
  | PhSpawn | PhBudget => True
  | PhExec _ => exists_node (p_node p)
  | PhErr _ => False
  | PhResult r | PhFresh r => exists_node (p_node p) /\ plain (p_node p) r
  | PhTopo r v e => exists_node (p_node p) /\ plain (p_node p) r /\ v = None /\ e = None
  | PhPost _ _ _ ls => exists_node (p_node p) /\ first_gen ls
  | PhLaunch ls => first_gen ls
  end.

Definition healthy (s : KState L) : Prop := k_firstErr s = None /\ k_pause s = false.

(** The traversal maps, against the nodes that are dispatched and unfinished. *)
Record maps_ok (inDeg liveIn : gmap string Z) (C K : gset string) (act : string -> nat) : Prop := {
  mo_sub : K ⊆ C;
  mo_in : forall v, v ∉ C -> zget inDeg v = Z.of_nat (countb (unmet C []) (inEdges g v));
  mo_live : forall v, v ∉ C -> zget liveIn v = Z.of_nat (countb (fed C K) (inEdges g v));
  mo_le : forall v, act v <= 1;
  mo_act : forall v, 0 < act v -> v ∉ C /\ zget inDeg v = 0%Z /\ fires v;
  mo_ready : forall v, v ∉ C ->
    (v ∈ g_entrypoints g \/ inEdges g v <> [] /\ zget inDeg v = 0%Z) -> 0 < act v;
  mo_dec : forall u, u ∈ C -> decided u /\ (u ∈ K -> ~ fires u) /\ (u ∉ K -> fires u)
}.

Record FI (s : KState L) : Prop := {
  fi_gen : k_generation s = ∅;
  fi_maps : maps_ok (k_inDeg s) (k_liveIn s) (k_completed s) (k_skipped s) (active s);
  fi_flight : forall v, v ∈ k_inFlight s -> 0 < tokens s v;
  fi_procs : Forall proc_ok (k_procs s);
  fi_seeds : first_gen (k_seeds s)
}.

Lemma tokens_le_active s id : tokens s id <= active s id.
Proof.
  unfold tokens, active, weight. induction (k_procs s) as [|p ps IH]; cbn; [lia|]. lia.
Qed.

Lemma maps_ok_ext inDeg liveIn C K a1 a2 :
  (forall v, a1 v = a2 v) -> maps_ok inDeg liveIn C K a1 -> maps_ok inDeg liveIn C K a2.
Proof. intros Ha []. constructor; try done; intros v; rewrite <- ?Ha; auto. Qed.

(** ** Promotion keeps the maps right *)

Lemma unmet_complete C id e :
  id ∉ C -> (if unmet C [] e then 1 else 0) =
    (if unmet ({[id]} ∪ C) [] e then 1 else 0) + (if bool_decide (e_src e = id) then 1 else 0).
Proof.
  intros Hc. unfold unmet. rewrite !(bool_decide_false (_ ∈ [])) by apply not_elem_of_nil.
  rewrite !orb_false_r. destruct (decide (e_src e = id)) as [->|Hne].
  - rewrite (bool_decide_false (id ∈ C)), (bool_decide_true (id ∈ {[id]} ∪ C)), bool_decide_true by set_solver.
    done.
  - rewrite (bool_decide_same (e_src e ∈ {[id]} ∪ C) (e_src e ∈ C)) by set_solver.
    rewrite (bool_decide_false (e_src e = id)) by done. lia.
Qed.

Lemma fed_complete C K id e :
  id ∉ C -> K ⊆ C -> (if fed ({[id]} ∪ C) K e then 1 else 0) =
    (if fed C K e then 1 else 0) + (if bool_decide (e_src e = id) && lv e then 1 else 0).
Proof.
  intros Hc Hk. unfold fed. destruct (decide (e_src e = id)) as [->|Hne].
  - rewrite (bool_decide_true (id ∈ {[id]} ∪ C)), (bool_decide_false (id ∈ C)),
      (bool_decide_false (id ∈ K)), (bool_decide_true (id = id)) by set_solver. done.
  - rewrite (bool_decide_same (e_src e ∈ {[id]} ∪ C) (e_src e ∈ C)) by set_solver.
    rewrite (bool_decide_false (e_src e = id)) by done. cbn [andb]. lia.
Qed.

(** The promotion as [step_topo] starts it, seen as a frame being processed. *)
Lemma PI_start inDeg liveIn C K F act id f :
  maps_ok inDeg liveIn C K act -> act id = 1 -> (forall v, v ∈ F -> 0 < act v /\ v <> id) ->
  f_from f = id -> f_dead f = false ->
  (forall e, e ∈ outEdges g id -> live_under (f_live f) e = lv e) ->
  PI (fun v => 0 < act v /\ v <> id) f (outEdges g id)
    {| pr_inDeg := inDeg; pr_liveIn := liveIn; pr_completed := {[id]} ∪ C; pr_skipped := K;
       pr_inFlight := F; pr_launch := []; pr_skips := []; pr_work := [] |}.
Proof.
  intros [] Hid HF Hfrom Hdead Hlv. destruct (mo_act0 id) as (Hc & Hz & Hfire); [lia|].
  constructor; cbn; unfold froms; cbn; rewrite ?Hfrom; try done; try (by intros ? ?%elem_of_nil).
  - set_solver.
  - split; [set_solver|apply not_elem_of_nil].
  - unfold frame_ok. rewrite Hdead, Hfrom. split; [set_solver|done].
  - constructor.
  - intros v Hv. rewrite mo_in0 by set_solver. f_equal. rewrite <- count_between.
    apply countb_split. intros e _. by apply unmet_complete.
  - intros v Hv. rewrite mo_live0 by set_solver. rewrite <- Nat2Z.inj_add. f_equal. symmetry.
    rewrite (countb_ext _ (fun e => into v e && lv e) (outEdges g id)).
    + rewrite <- count_between_live. apply countb_split. intros e _. by apply fed_complete.
    + intros e He. unfold delivers. rewrite Hdead. cbn [negb andb]. by rewrite Hlv.
  - intros v [Hv Hne]. destruct (mo_act0 v Hv) as (? & ? & _). split; [set_solver|done].
  - intros v Hv. left. by apply HF.
  - intros v Hv Hn Hz0. left. split; [|set_solver]. apply mo_ready0; [set_solver|by right].
  - intros u Hu. destruct (decide (u = id)) as [->|Hne].
    + split_and!; [by apply fires_decided|set_solver|done].
    + apply mo_dec0. set_solver.
Qed.

Lemma promote_edges_mono gen f es p : pr_completed p ⊆ pr_completed (foldl (promote_edge c gen f) p es).
Proof.
  revert p. induction es as [|e es IH]; intros p; [done|]. cbn [foldl]. etrans; [|apply IH].
  unfold promote_edge. repeat case_match; cbn; set_solver.
Qed.

Lemma promote_loop_mono gen fuel p : pr_completed p ⊆ pr_completed (promote_loop c gen fuel p).
Proof.
  revert p. induction fuel as [|fuel IH]; intros p; cbn; destruct (pr_work p) as [|f w]; try done.
  etrans; [|apply IH]. apply (promote_edges_mono gen f _ (pop_work p w)).
Qed.

Lemma size_targets : size targets <= length (g_edges g).
Proof.
  unfold targets. induction (g_edges g) as [|e es IH]; [done|]. cbn.
  rewrite size_union_alt, size_singleton. 
  assert (size (list_to_set (map e_dst es) ∖ {[e_dst e]} : gset string) <=
          size (list_to_set (map e_dst es) : gset string)) by (apply subseteq_size; set_solver).
  lia.
Qed.

Lemma launched_count v ls : NoDup ls.*1 -> launch_count v ls = if decide (v ∈ ls.*1) then 1 else 0.
Proof.
  intros Hnd. case_decide as Hin; [|by apply launch_count_zero].
  pose proof (launch_count_le_one v ls Hnd).
  destruct (launch_count v ls) eqn:E; [by apply launch_count_zero in E|lia].
Qed.

Lemma promote_maps (s : KState L) nd outs C act :
  maps_ok (k_inDeg s) (k_liveIn s) C (k_skipped s) act -> act (n_id nd) = 1 ->
  k_completed s = {[n_id nd]} ∪ C -> (forall v, v ∈ k_inFlight s -> 0 < act v /\ v <> n_id nd) ->
  (forall e, e ∈ outEdges g (n_id nd) -> live_under (edgeLivenessFor c nd outs) e = lv e) ->
  let p := promote c s nd outs in
  maps_ok (pr_inDeg p) (pr_liveIn p) (pr_completed p) (pr_skipped p)
    (fun v => (if decide (v = n_id nd) then 0 else act v) + launch_count v (pr_launch p)).
Proof.
  intros Hm Hid Hc HF Hlv. cbn zeta.
  destruct (promote_fresh c s nd outs) as (Hnd & _ & _).
  pose proof (PI_start _ _ _ _ _ _ _ {| f_from := n_id nd; f_live := edgeLivenessFor c nd outs; f_dead := false |}
    Hm Hid HF eq_refl eq_refl Hlv) as HP. rewrite <- Hc in HP.
  destruct (PI_edges _ (k_generation s) _ _ _ HP) as [HP1 Hpend].
  destruct (PI_loop _ (k_generation s) (length (g_edges g)) _ _ HP1) as (f' & HPf & Hw).
  { etrans; [exact Hpend|]. unfold pending. cbn. etrans.
    - apply (subseteq_size _ targets). set_solver.
    - apply size_targets. }
  assert (promote c s nd outs = promote_loop c (k_generation s) (length (g_edges g))
    (foldl (promote_edge c (k_generation s) {| f_from := n_id nd; f_live := edgeLivenessFor c nd outs; f_dead := false |})
       {| pr_inDeg := k_inDeg s; pr_liveIn := k_liveIn s; pr_completed := k_completed s;
          pr_skipped := k_skipped s; pr_inFlight := k_inFlight s; pr_launch := []; pr_skips := []; pr_work := [] |}
       (outEdges g (n_id nd)))) as Heq.
  { unfold promote, promote_fuel. cbn [promote_loop pr_work]. fold g. by rewrite buildEdges_out. }
  rewrite <- Heq in HPf, Hw. destruct Hm. destruct HPf. unfold froms in *. rewrite Hw in *. cbn [map] in *.
  assert (k_completed s ⊆ pr_completed (promote c s nd outs)) as Hmono.
  { rewrite Heq. etrans; [|apply promote_loop_mono].
    match goal with |- _ ⊆ pr_completed (foldl _ ?q _) => apply (promote_edges_mono _ _ _ q) end. }
  set (p := promote c s nd outs) in *.
  constructor; try done.
  - intros v Hv. rewrite pi_in0 by done. cbn. by rewrite Nat.add_0_r.
  - intros v Hv. rewrite <- pi_live0 by done. cbn. lia.
  - intros v. rewrite launched_count by done. specialize (mo_le0 v).
    destruct (decide (v ∈ (pr_launch p).*1)) as [Hin|]; [|case_decide; lia].
    destruct (pi_launch0 v Hin) as (_ & _ & _ & Hna). case_decide; [done|].
    destruct (act v) eqn:E; [done|]. exfalso. apply Hna. split; [lia|done].
  - intros v Hpos. rewrite launched_count in Hpos by done.
    destruct (decide (v ∈ (pr_launch p).*1)) as [Hin|].
    + destruct (pi_launch0 v Hin) as (? & ? & ? & _). done.
    + case_decide as Hne; [lia|]. assert (0 < act v) as Ha by lia.
      destruct (pi_active0 v (conj Ha Hne)) as [? ?]. split_and!; [done..|]. by apply mo_act0.
  - intros v Hv Hready. rewrite launched_count by done.
    assert (v <> n_id nd /\ 0 < act v \/ v ∈ (pr_launch p).*1) as [[Hne Ha]|Hin].
    { destruct Hready as [He|[Hne Hz]].
      - left. assert (v <> n_id nd) as Hne.
        { intros ->. apply Hv, Hmono. rewrite Hc. set_solver. }
        split; [done|]. apply mo_ready0; [set_solver|by left].
      - destruct (pi_ready0 v Hv Hne Hz) as [[? ?]|?]; auto. }
    + rewrite decide_False by done. lia.
    + rewrite (decide_True _ _ Hin). lia.
Qed.

(** ** Errors and pauses stay *)

Definition worse (s s' : KState L) : Prop :=
  (k_firstErr s' = None -> k_firstErr s = None) /\ (k_pause s' = false -> k_pause s = false).

#[local] Instance worse_refl : Reflexive worse.
Proof. by split. Qed.
#[local] Instance worse_trans : Transitive worse.
Proof. intros s1 s2 s3 [] []. split; auto. Qed.

Lemma worse_env s s' : env_only s s' -> worse s s'.
Proof. intros []. split; congruence. Qed.

Lemma worse_fail (s : KState L) e : worse s (fail_with s e).
Proof. unfold fail_with. destruct (k_firstErr s) eqn:He; split; cbn; congruence. Qed.

Lemma sick_fail (s : KState L) e : k_firstErr (fail_with s e) <> None.
Proof. unfold fail_with. destruct (k_firstErr s) eqn:He; cbn; congruence. Qed.

Lemma worse_append s b : worse s (k_append s b).1.
Proof. apply worse_env, k_append_env. Qed.

Lemma worse_step_topo s nd r v err : worse s (step_topo c s nd r v err).1.
Proof.
  unfold step_topo.
  match goal with |- context [let '(_, _) := ?x in _] => assert (worse s x.1) as Hr; [|destruct x as [s1 b1]] end.
  { destruct v; [|done]. unfold apply_refire. by destruct (foldl _ _ _). }
  cbn [fst] in Hr. etrans; [exact Hr|].
  match goal with |- context [match err with Some e => fail_with ?x e | None => ?x end] =>
    assert (worse s1 (match err with Some e => fail_with x e | None => x end)) as Hq;
    [|generalize dependent (match err with Some e => fail_with x e | None => x end)] end.
  { assert (forall x, worse s1 x -> worse s1 (match err with Some e => fail_with x e | None => x end)) as Hf.
    { intros x Hx. destruct err; [etrans; [exact Hx|apply worse_fail]|done]. }
    apply Hf. by case_if. }
  intros s2 Hq. etrans; [exact Hq|].
  destruct (r_Pause r); [by split|]. case_if; destruct v, b1; done.
Qed.

Lemma worse_step_exec s id f out : worse s (step_exec c s id f out).1.
Proof.
  unfold step_exec. etrans; [apply worse_env, (apply_effect_env s f)|].
  generalize (apply_effect s f) as s1. intros s1. destruct (nodesByID _ !! _); [|done].
  destruct out as [r|evs e].
  - unfold step_exec_ok.
    match goal with |- context [k_append ?x ?y] => pose proof (worse_append x y) as Ha end.
    destruct (k_append _ _) as [s2 [le|]]; cbn [fst] in *; (etrans; [exact Ha|]); [|done].
    match goal with |- context [fail_with ?x ?e] => destruct (worse_fail x e); by split end.
  - unfold step_exec_err.
    match goal with |- context [k_append ?x ?y] => pose proof (worse_append x y) as Ha end.
    destruct (k_append _ _) as [s2 le]; cbn [fst] in *. etrans; [exact Ha|]. cbn zeta. cbn [fst].
    unfold worse. destruct (k_firstErr (set_inFlight _ _)) eqn:Hf; cbn in *; [by rewrite Hf|].
    repeat case_if; by split.
Qed.

Lemma worse_step_phase o s p : worse s (step_phase c o s p).1.
Proof.
  unfold step_phase. destruct (p_phase p); try done.
  - unfold step_spawn. destruct (k_firstErr s) eqn:?; [done|]. by destruct (k_pause s) eqn:?.
  - unfold step_budget. pose proof (checkBudget_env c (o_now o) s) as Hb.
    destruct (checkBudget _ _ _) as [s1 [e|]]; cbn [fst] in *; (etrans; [by apply worse_env|]);
      [apply worse_fail|].
    destruct (nodesByID _ !! _); [destruct (cfg_registry c !! _)|]; cbn [fst]; try done; [apply worse_fail|].
    etrans; [|apply worse_fail]. done.
  - apply worse_step_exec.
  - apply worse_env, step_err_env.
  - unfold step_stale. repeat case_if; done.
  - apply worse_env, step_resolve_env.
  - destruct (nodesByID _ !! _); [|done]. apply worse_step_topo.
  - destruct (nodesByID _ !! _); [|done]. unfold step_post. cbn [fst].
    etrans; [|apply worse_env, recordStep_env]. etrans; [|apply worse_env, armGoalFromNode_env].
    destruct skips; [done|].
    match goal with |- context [k_append ?x ?y] => pose proof (worse_append x y) as Ha end.
    destruct (k_append _ _) as [s1 [le|]]; cbn [fst] in *; [|done]. etrans; [exact Ha|apply worse_fail].
Qed.

Lemma healthy_back s a s' : kstep c a s = Some s' -> healthy s' -> healthy s.
Proof.
  intros Hstep [He Hp]. destruct a as [|i o]; cbn in Hstep.
  - destruct (k_seeds s); [done|]. destruct (slot_free c s); inv_ok. done.
  - destruct (k_procs s !! i) as [p|]; [|done].
    pose proof (worse_step_phase o s p) as [Hw1 Hw2]. destruct (step_phase c o s p) as [s1 oph].
    destruct (p_phase p) as [| | | | | | | |[|x ls]]; try destruct (slot_free c s); inv_ok;
      cbn in *; split; auto.
Qed.

(** ** One step of a goroutine *)

Definition new_weight (p : Proc) (oph : option Phase) (id : string) : nat :=
  from_option (fun ph => weight id (with_phase p ph)) 0 oph.

Definition after (s s1 : KState L) (i : nat) (p : Proc) (oph : option Phase) : KState L :=
  set_procs s1 (k_seeds s) (match oph with
                            | Some ph => <[i := with_phase p ph]> (k_procs s)
                            | None => delete i (k_procs s) end).

Lemma after_sum (f : Proc -> nat) s s1 i p oph :
  k_procs s !! i = Some p ->
  sum_list_with f (k_procs (after s s1 i p oph)) + f p =
  sum_list_with f (k_procs s) + from_option (fun ph => f (with_phase p ph)) 0 oph.
Proof.
  intros Hp. destruct oph as [ph|]; cbn.
  - apply (sum_list_insert f _ _ _ (with_phase p ph) Hp).
  - rewrite (sum_list_delete f _ _ _ Hp). lia.
Qed.

Lemma FI_after s s1 i p oph :
  FI s -> k_procs s !! i = Some p -> k_generation s1 = ∅ ->
  (forall act, (forall v, act v + weight v p = active s v + new_weight p oph v) ->
     maps_ok (k_inDeg s1) (k_liveIn s1) (k_completed s1) (k_skipped s1) act) ->
  (forall v, v ∈ k_inFlight s1 -> proc_tokens v p < tokens s v + new_tokens p oph v) ->
  (forall ph, oph = Some ph -> proc_ok (with_phase p ph)) ->
  FI (after s s1 i p oph).
Proof.
  intros [Hg Hm Hf Hps Hs] Hp Hg1 Hm1 Hf1 Hok. constructor; try done.
  - apply Hm1. intros v. unfold active. cbn [k_seeds after set_procs].
    pose proof (after_sum (weight v) s s1 i p oph Hp). unfold new_weight. lia.
  - intros v Hv. specialize (Hf1 v Hv). unfold tokens in *. cbn [k_seeds after set_procs].
    pose proof (after_sum (proc_tokens v) s s1 i p oph Hp). unfold new_tokens in *. lia.
  - cbn. apply Forall_forall. rewrite Forall_forall in Hps. intros q Hq. destruct oph as [ph|].
    + apply list_elem_of_lookup in Hq as [j Hj].
      apply list_lookup_insert_Some in Hj as [(<- & <- & _)|[_ Hj]]; [by apply Hok|].
      apply Hps. by eapply list_elem_of_lookup_2.
    + apply Hps. apply list_elem_of_lookup in Hq as [j Hj]. rewrite list_lookup_delete in Hj.
      case_decide; by eapply list_elem_of_lookup_2.
Qed.

(** Steps that leave the maps and their own weight alone. *)
Lemma FI_same s s1 i p oph :
  FI s -> k_procs s !! i = Some p -> k_generation s1 = k_generation s ->
  k_inDeg s1 = k_inDeg s -> k_liveIn s1 = k_liveIn s -> k_completed s1 = k_completed s ->
  k_skipped s1 = k_skipped s ->
  (forall v, new_weight p oph v = weight v p) ->
  (forall v, v ∈ k_inFlight s1 -> v ∈ k_inFlight s /\ new_tokens p oph v = proc_tokens v p) ->
  (forall ph, oph = Some ph -> proc_ok (with_phase p ph)) ->
  FI (after s s1 i p oph).
Proof.
  intros HF Hp Hg Hd Hl Hc Hk Hw Hf Hok. apply FI_after; try done.
  - rewrite Hg. apply HF.
  - intros act Hact. rewrite Hd, Hl, Hc, Hk. eapply maps_ok_ext; [|apply HF].
    intros v. specialize (Hact v). rewrite Hw in Hact. lia.
  - intros v Hv. destruct (Hf v Hv) as [Hin ->]. pose proof (fi_flight s HF v Hin).
    pose proof (proc_tokens_le s i p v Hp). lia.
Qed.

Lemma FI_env s s1 i p oph :
  FI s -> k_procs s !! i = Some p -> env_only s s1 ->
  (forall v, new_weight p oph v = weight v p) -> (forall v, new_tokens p oph v = proc_tokens v p) ->
  (forall ph, oph = Some ph -> proc_ok (with_phase p ph)) ->
  FI (after s s1 i p oph).
Proof.
  intros HF Hp [] Hw Ht Hok. apply FI_same; try done. intros v. by rewrite eo_inFlight.
Qed.

Ltac weights := intros; unfold new_weight, new_tokens, weight, proc_tokens, posting; cbn;
  try match goal with H : p_phase _ = _ |- _ => rewrite ?H end; cbn; rewrite ?launch_count_nil;
  repeat case_bool_decide; lia.

Lemma FI_spawn_phase s i p :
  FI s -> k_procs s !! i = Some p -> p_phase p = PhSpawn -> healthy (step_spawn s).1 ->
  FI (after s (step_spawn s).1 i p (step_spawn s).2).
Proof.
  intros HF Hp Hph Hh. unfold step_spawn in *.
  pose proof (Forall_lookup_1 _ _ _ _ (fi_procs s HF) Hp) as [Hg _].
  destruct (k_firstErr s) eqn:He; [by destruct Hh; cbn in *; congruence|].
  destruct (k_pause s) eqn:Hpa; [by destruct Hh; cbn in *; congruence|].
  apply FI_env; try done; [weights..|]. by intros ? [= <-].
Qed.

Lemma FI_budget_phase o s i p :
  FI s -> k_procs s !! i = Some p -> p_phase p = PhBudget ->
  healthy (step_budget c (o_now o) s (p_node p)).1 ->
  FI (after s (step_budget c (o_now o) s (p_node p)).1 i p (step_budget c (o_now o) s (p_node p)).2).
Proof.
  intros HF Hp Hph Hh. unfold step_budget in *.
  pose proof (Forall_lookup_1 _ _ _ _ (fi_procs s HF) Hp) as [Hg _].
  pose proof (checkBudget_env c (o_now o) s) as Hb.
  destruct (checkBudget _ _ _) as [s1 [e|]]; cbn [fst snd] in *; [by destruct Hh as [?%sick_fail _]|].
  fold g in Hh |- *. destruct (nodesByID g !! p_node p) as [nd|] eqn:Hnd; [|by destruct Hh as [?%sick_fail _]].
  destruct (cfg_registry c !! _); [|by destruct Hh as [?%sick_fail _]].
  cbn [fst snd]. apply FI_env; try done; [weights..|]. intros ? [= <-]. split; [done|]. cbn. by eexists.
Qed.

Lemma FI_exec_phase o s i p inp :
  FI s -> k_procs s !! i = Some p -> p_phase p = PhExec inp ->
  plain_results s (ActProc i o) ->
  healthy (step_exec c s (p_node p) (o_effect o) (o_outcome o)).1 ->
  FI (after s (step_exec c s (p_node p) (o_effect o) (o_outcome o)).1 i p
        (step_exec c s (p_node p) (o_effect o) (o_outcome o)).2).
Proof.
  intros HF Hp Hph Hpl Hh.
  pose proof (Forall_lookup_1 _ _ _ _ (fi_procs s HF) Hp) as [Hg Hok]. rewrite Hph in Hok.
  destruct Hok as [nd Hnd]. unfold step_exec in *. fold g in Hh |- *. rewrite Hnd in Hh |- *.
  destruct (o_outcome o) as [r|evs e] eqn:Ho.
  - unfold step_exec_ok in *.
    match goal with |- context [k_append ?x ?y] => pose proof (k_append_env x y) as Ha;
      destruct (k_append x y) as [s1 [le|]] end; cbn [fst snd] in *.
    { destruct Hh as [Hh _]. by apply sick_fail in Hh. }
    apply FI_env; try done; [|weights..|].
    + etrans; [apply (apply_effect_env s (o_effect o))|]. etrans; [exact Ha|]. by constructor.
    + intros ? [= <-]. split; [done|]. split; [by exists nd|]. by apply (Hpl p r).
  - exfalso. unfold step_exec_err in *. destruct (k_append _ _) as [s1 le]. cbn zeta in Hh. cbn [fst] in Hh.
    destruct Hh as [Hh1 Hh2].
    destruct (k_firstErr (set_inFlight _ _)) eqn:Hf; cbn in *; [congruence|].
    repeat case_match; cbn in *; congruence.
Qed.

Lemma FI_stale_phase s i p r :
  FI s -> k_procs s !! i = Some p -> p_phase p = PhResult r ->
  FI (after s (step_stale s (p_node p) (p_gen p) r).1 i p (step_stale s (p_node p) (p_gen p) r).2).
Proof.
  intros HF Hp Hph.
  pose proof (Forall_lookup_1 _ _ _ _ (fi_procs s HF) Hp) as [Hg Hok]. rewrite Hph in Hok.
  unfold step_stale. rewrite (fi_gen s HF), Hg. cbn [Z.eqb negb zget]. cbn [fst snd].
  change (zget ∅ (p_node p)) with 0%Z. cbn [Z.eqb negb]. cbn [fst snd].
  apply FI_same; try done; [weights| |by intros ? [= <-]].
  intros v Hv. change (v ∈ k_inFlight s ∖ {[p_node p]}) in Hv.
  apply elem_of_difference in Hv as [Hv Hne]. split; [done|]. apply not_elem_of_singleton in Hne.
  unfold new_tokens, proc_tokens. cbn. rewrite Hph. by rewrite bool_decide_false by congruence.
Qed.

Lemma FI_resolve_phase s i p r :
  FI s -> k_procs s !! i = Some p -> p_phase p = PhFresh r ->
  FI (after s (step_resolve c s (p_node p) r).1 i p (step_resolve c s (p_node p) r).2).
Proof.
  intros HF Hp Hph.
  pose proof (Forall_lookup_1 _ _ _ _ (fi_procs s HF) Hp) as [Hg Hok]. rewrite Hph in Hok.
  destruct Hok as [Hn Hpl]. unfold step_resolve. destruct Hpl as (Hb & Hrest). rewrite Hb. cbn [fst snd].
  apply FI_env; try done; [weights..|]. by intros ? [= <-].
Qed.

Lemma promote_loop_gen gen fuel p :
  Forall (fun x => x.2 = zget gen x.1) (pr_launch p) ->
  Forall (fun x => x.2 = zget gen x.1) (pr_launch (promote_loop c gen fuel p)).
Proof.
  revert p. induction fuel as [|fuel IH]; intros p Hp; cbn; destruct (pr_work p) as [|f w]; try done.
  apply IH. assert (Forall (fun x => x.2 = zget gen x.1) (pr_launch (pop_work p w))) as Hq by done.
  revert Hq. generalize (pop_work p w) as q. induction (edges_at _ _) as [|e es IHes]; intros q Hq; [done|].
  cbn [foldl]. apply IHes. unfold promote_edge. repeat case_match; cbn; try done;
    (apply Forall_app; split; [done|]; by apply Forall_singleton).
Qed.

Lemma FI_topo_phase s i p nd r :
  FI s -> k_procs s !! i = Some p -> p_phase p = PhTopo r None None ->
  nodesByID g !! p_node p = Some nd ->
  FI (after s (step_topo c s nd r None None).1 i p (step_topo c s nd r None None).2).
Proof.
  intros HF Hp Hph Hnd. pose proof (nodesByID_id _ _ _ Hnd) as Hid.
  pose proof (Forall_lookup_1 _ _ _ _ (fi_procs s HF) Hp) as [Hg Hok]. rewrite Hph in Hok.
  destruct Hok as (Hex & (Hb & Hpause & Hlv) & _ & _).
  unfold step_topo. rewrite bool_decide_false by apply not_elem_of_nil. cbn [negb]. rewrite Hpause.
  set (s1 := upd_maps s _ _ _ _ _ _).
  assert (forall v, weight v p = if bool_decide (p_node p = v) then 1 else 0) as Hw by weights.
  assert (forall v, weight v p <= active s v) as Hle.
  { intros v. pose proof (sum_list_delete (weight v) _ _ _ Hp). unfold active. lia. }
  assert (forall v, proc_tokens v p = 0) as Ht by weights.
  pose proof (fi_maps s HF) as Hm.
  assert (active s (n_id nd) = 1) as Hact.
  { specialize (Hle (n_id nd)). rewrite Hw, Hid, bool_decide_true in Hle by done.
    pose proof (mo_le _ _ _ _ _ Hm (p_node p)). rewrite Hid. lia. }
  assert (forall v, v ∈ k_inFlight s -> 0 < active s v /\ v <> n_id nd) as HFl.
  { intros v Hv. pose proof (fi_flight s HF v Hv) as Hpos. pose proof (tokens_le_active s v). split; [lia|].
    intros ->. pose proof (sum_list_delete (weight (n_id nd)) _ _ _ Hp) as E1.
    pose proof (sum_list_delete (proc_tokens (n_id nd)) _ _ _ Hp) as E2.
    assert (sum_list_with (proc_tokens (n_id nd)) (delete i (k_procs s)) <=
            sum_list_with (weight (n_id nd)) (delete i (k_procs s))).
    { generalize (delete i (k_procs s)). intros l. unfold weight. induction l; cbn; lia. }
    rewrite Hw, Hid, bool_decide_true in E1 by done. rewrite Ht in E2.
    unfold tokens, active in *. rewrite Hid in *. lia. }
  assert (forall e, e ∈ outEdges g (n_id nd) -> live_under (edgeLivenessFor c nd (r_Outputs r)) e = lv e) as Hlive.
  { intros e He. rewrite Hid in He. by apply Hlv. }
  pose proof (promote_maps s1 nd (r_Outputs r) (k_completed s) (active s) Hm Hact eq_refl HFl Hlive) as Hmaps.
  destruct (promote_fresh c s1 nd (r_Outputs r)) as (Hnodup & Hfresh & Hin).
  cbn [fst snd]. apply FI_after; try done.
  - apply HF.
  - intros act Hact'. eapply maps_ok_ext; [|exact Hmaps]. intros v. cbn beta. specialize (Hact' v).
    specialize (Hle v). rewrite Hw in Hact', Hle.
    unfold new_weight, weight, posting, proc_tokens in Hact'. cbn in Hact'. rewrite Nat.add_0_r in Hact'.
    rewrite <- Hid in Hact', Hle. destruct (decide (v = n_id nd)) as [->|Hne].
    + rewrite bool_decide_true in Hact', Hle by done. lia.
    + rewrite bool_decide_false in Hact', Hle by congruence. lia.
  - intros v Hv. rewrite Ht. cbn in Hv. apply Hin in Hv as [Hv|Hv].
    + pose proof (fi_flight s HF v Hv). lia.
    + unfold new_tokens, proc_tokens. cbn. rewrite launched_count by done. rewrite (decide_True _ _ Hv). lia.
  - intros ? [= <-]. split; [done|]. split; [done|].
    unfold first_gen. eapply Forall_impl; [apply (promote_loop_gen (k_generation s1)); constructor|].
    intros x Hx. cbn in Hx. rewrite Hx, (fi_gen s HF). done.
Qed.

Lemma FI_post_phase s i p nd r sd sk ls :
  FI s -> k_procs s !! i = Some p -> p_phase p = PhPost r sd sk ls ->
  FI (after s (step_post c s nd r sd sk ls).1 i p (step_post c s nd r sd sk ls).2).
Proof.
  intros HF Hp Hph.
  pose proof (Forall_lookup_1 _ _ _ _ (fi_procs s HF) Hp) as [Hg Hok]. rewrite Hph in Hok.
  assert (forall s1 s2, env_only s1 s2 -> k_generation s1 = k_generation s ->
    k_inDeg s1 = k_inDeg s -> k_liveIn s1 = k_liveIn s -> k_completed s1 = k_completed s ->
    k_skipped s1 = k_skipped s -> k_inFlight s1 = k_inFlight s -> FI (after s s2 i p (Some (PhLaunch ls)))) as Hdone.
  { intros s1 s2 He ? ? ? ? ? Hf. apply FI_same; try done; try (destruct He; congruence);
      [weights| |by intros ? [= <-]; split; [|apply Hok]].
    intros v. rewrite (eo_inFlight _ _ He), Hf. intros Hv. split; [done|weights]. }
  unfold step_post. cbn [fst snd].
  eapply Hdone; [etrans; [apply armGoalFromNode_env|apply recordStep_env]|..];
    destruct sk as [|x sk]; try done;
    match goal with |- context [k_append ?a ?b] => pose proof (k_append_env a b) as [];
      destruct (k_append a b) as [s1 [le|]] end; cbn [fst] in *;
    rewrite ?fail_with_generation, ?fail_with_maps; try done;
    unfold fail_with; destruct (k_firstErr s1); done.
Qed.

Lemma FI_step s a s' :
  FI s -> plain_results s a -> kstep c a s = Some s' -> healthy s' -> FI s'.
Proof.
  intros HF Hpl Hstep Hh. destruct a as [|i o]; cbn in Hstep.
  - destruct (k_seeds s) as [|x seeds] eqn:Hs; [done|]. destruct (slot_free c s); inv_ok.
    pose proof (fi_seeds s HF) as Hseeds. rewrite Hs in Hseeds. apply Forall_cons in Hseeds as [Hx Hseeds].
    destruct HF. constructor; try done.
    + eapply maps_ok_ext; [|exact fi_maps0]. intros v. unfold active. cbn [k_seeds k_procs set_procs].
      rewrite Hs, sum_list_with_app, launch_count_cons. cbn. unfold weight, posting, proc_tokens. cbn. lia.
    + intros v Hv. specialize (fi_flight0 v Hv). unfold tokens in *. cbn [k_seeds k_procs set_procs].
      rewrite Hs, launch_count_cons in fi_flight0. rewrite sum_list_with_app. cbn [sum_list_with]. rewrite spawn_tokens. lia.
    + cbn. apply Forall_app. split; [done|]. apply Forall_singleton. split; [exact Hx|done].
  - destruct (k_procs s !! i) as [p|] eqn:Hp; [|done].
    pose proof (Forall_lookup_1 _ _ _ _ (fi_procs s HF) Hp) as [Hg Hok].
    unfold step_phase in Hstep.
    destruct (p_phase p) as [| |inp|e|r|r|r v err|r sd sk ls|[|x ls]] eqn:Hph.
    + pose proof (FI_spawn_phase s i p HF Hp Hph) as Hx. destruct (step_spawn s). inv_ok. by apply Hx.
    + pose proof (FI_budget_phase o s i p HF Hp Hph) as Hx. destruct (step_budget _ _ _ _). inv_ok. by apply Hx.
    + pose proof (FI_exec_phase o s i p inp HF Hp Hph Hpl) as Hx. destruct (step_exec _ _ _ _ _). inv_ok. by apply Hx.
    + done.
    + pose proof (FI_stale_phase s i p r HF Hp Hph) as Hx. destruct (step_stale _ _ _ _). inv_ok. by apply Hx.
    + pose proof (FI_resolve_phase s i p r HF Hp Hph) as Hx. destruct (step_resolve _ _ _ _). inv_ok. by apply Hx.
    + destruct Hok as ([nd Hnd] & _ & -> & ->). fold g in Hstep. rewrite Hnd in Hstep.
      pose proof (FI_topo_phase s i p nd r HF Hp Hph Hnd) as Hx. destruct (step_topo _ _ _ _ _ _). inv_ok. by apply Hx.
    + destruct Hok as ([nd Hnd] & _). fold g in Hstep. rewrite Hnd in Hstep.
      pose proof (FI_post_phase s i p nd r sd sk ls HF Hp Hph) as Hx. destruct (step_post _ _ _ _ _ _ _). inv_ok. by apply Hx.
    + inv_ok. apply (FI_env s s i p None); try done; weights.
    + destruct (slot_free c s); inv_ok. cbn in Hok. apply Forall_cons in Hok as [Hx Hls].
      assert (forall f : Proc -> nat, (f (spawn x) + f (with_phase p (PhLaunch ls)) = f p) ->
        sum_list_with f (<[i := with_phase p (PhLaunch ls)]> (k_procs s) ++ [spawn x]) =
        sum_list_with f (k_procs s)) as Hsum.
      { intros f Hf. rewrite sum_list_with_app. cbn.
        pose proof (sum_list_insert f _ _ _ (with_phase p (PhLaunch ls)) Hp). lia. }
      assert (forall v, proc_tokens v (spawn x) + proc_tokens v (with_phase p (PhLaunch ls)) = proc_tokens v p) as Htok.
      { intros v. unfold proc_tokens. rewrite Hph. cbn. by rewrite launch_count_cons. }
      destruct HF. constructor; try done.
      * eapply maps_ok_ext; [|exact fi_maps0]. intros v. unfold active. cbn [k_seeds k_procs set_procs].
        rewrite Hsum; [done|]. specialize (Htok v). unfold weight, posting. rewrite Hph.
        cbn [p_phase with_phase spawn]. lia.
      * intros v Hv. specialize (fi_flight0 v Hv). unfold tokens in *. cbn [k_seeds k_procs set_procs].
        rewrite Hsum; [done|]. apply Htok.
      * cbn. apply Forall_app. split; [|by apply Forall_singleton]. apply Forall_insert; [done|]. by split.
Qed.

(** ** The start, and every reachable state *)

Hypothesis Hnodup : NoDup (g_entrypoints g).
Hypothesis Hdeclared : forall e, e ∈ g_edges g -> e_dst e ∈ map n_id (g_nodes g).

Lemma inEdges_hidden v : v ∈ bodyNodeIDs g -> inEdges g v = [].
Proof.
  intros Hv. destruct (inEdges g v) as [|e l] eqn:Hin; [done|].
  assert (e ∈ inEdges g v) as He by (rewrite Hin; by left).
  apply inEdges_dst in He as [Hd Ho]. apply outEdge_visible in Ho. by rewrite Hd in Ho.
Qed.

Lemma init_nodes_fold l m v :
  zget (foldl (fun m n => if bool_decide (n_id n ∈ bodyNodeIDs g) then m
              else <[n_id n := Z.of_nat (length (edges_at (buildEdges g).1 (n_id n)))]> m) m l) v =
  if bool_decide (v ∈ map n_id l /\ v ∉ bodyNodeIDs g) then Z.of_nat (length (inEdges g v)) else zget m v.
Proof.
  revert m. induction l as [|n l IH]; intros m.
  { cbn. rewrite bool_decide_false; [done|]. by intros [?%elem_of_nil _]. }
  cbn [foldl map]. rewrite IH.
  destruct (decide (v ∈ map n_id l /\ v ∉ bodyNodeIDs g)) as [Hin|Hout].
  - rewrite !bool_decide_true; [done| |done]. split; [right|]; apply Hin.
  - rewrite (bool_decide_false (v ∈ map n_id l /\ _)) by done.
    destruct (decide (n_id n = v /\ v ∉ bodyNodeIDs g)) as [[<- Hb]|Hne].
    + rewrite (bool_decide_false (n_id n ∈ bodyNodeIDs g)) by done.
      rewrite zget_insert_eq, buildEdges_in, bool_decide_true; [done|]. split; [by left|done].
    + rewrite (bool_decide_false (v ∈ _ :: _ /\ _)).
      * destruct (bool_decide_reflect (n_id n ∈ bodyNodeIDs g)) as [Hb|Hb]; [done|].
        rewrite zget_insert_ne; [done|]. intros <-. by apply Hne.
      * intros [[->|?]%elem_of_cons ?]; naive_solver.
Qed.

Lemma init_entries_fold l (m : gmap string Z) v :
  zget (foldl (fun m ep => <[ep := 0%Z]> m) m l) v = if bool_decide (v ∈ l) then 0%Z else zget m v.
Proof.
  revert m. induction l as [|x l IH]; intros m; [done|]. cbn [foldl]. rewrite IH, zget_insert.
  destruct (decide (v ∈ l)) as [Hin|Hout].
  - rewrite !bool_decide_true; [done|by right|done].
  - rewrite (bool_decide_false (v ∈ l)) by done. destruct (decide (x = v)) as [<-|Hne].
    + rewrite bool_decide_true; [done|by left].
    + rewrite bool_decide_false; [done|]. intros [->|?]%elem_of_cons; done.
Qed.

Lemma initInDeg_length v : zget (initInDeg c) v = Z.of_nat (length (inEdges g v)).
Proof.
  unfold initInDeg. fold g. rewrite init_entries_fold. case_bool_decide as He; [by rewrite Hentry|].
  rewrite init_nodes_fold. case_bool_decide as Hn; [done|].
  assert (inEdges g v = []) as ->; [|done].
  destruct (decide (v ∈ bodyNodeIDs g)) as [|Hb]; [by apply inEdges_hidden|].
  destruct (inEdges g v) as [|e l] eqn:Hin; [done|]. exfalso. apply Hn. split; [|done].
  assert (e ∈ inEdges g v) as He' by (rewrite Hin; by left).
  apply elem_of_inEdges in He' as (Hg & _ & <-). by apply Hdeclared.
Qed.

Lemma FI_init rs cs ts l s0 : kinit c rs cs ts l = Ok s0 -> FI s0.
Proof.
  intros (Hp & Hs & Hf & Hg & Hc & Hk & Hd & Hl & _)%kinit_ok.
  assert ((k_seeds s0).*1 = g_entrypoints g) as Hfst.
  { rewrite Hs. unfold g. clear. induction (g_entrypoints (cfg_graph c)) as [|e es IH]; [done|]. cbn. by f_equal. }
  assert (forall v, launch_count v (k_seeds s0) = if decide (v ∈ g_entrypoints g) then 1 else 0) as Hcount.
  { intros v. rewrite launched_count; by rewrite Hfst. }
  assert (forall v, active s0 v = if decide (v ∈ g_entrypoints g) then 1 else 0) as Hact.
  { intros v. unfold active. rewrite Hp. cbn. rewrite Hcount. lia. }
  constructor; [done| | |by rewrite Hp|].
  - rewrite Hd, Hl, Hc, Hk. constructor.
    + done.
    + intros v _. rewrite initInDeg_length. f_equal. unfold countb. f_equal.
      symmetry. apply forallb_filter_id, forallb_forall. intros e _. done.
    + intros v _. change (zget ∅ v) with 0%Z. rewrite (proj2 (countb_zero _ _)); [done|].
      intros e _. unfold fed. by rewrite bool_decide_false by apply not_elem_of_empty.
    + intros v. rewrite Hact. case_decide; lia.
    + intros v. rewrite Hact. case_decide as He; [|lia]. intros _. split_and!; [apply not_elem_of_empty| |by apply fires_entry].
      rewrite initInDeg_length, Hentry by done. done.
    + intros v _ Hr. rewrite Hact. destruct Hr as [Hr|[Hne Hz]]; [rewrite decide_True by done; lia|].
      rewrite initInDeg_length in Hz. destruct (inEdges g v); [done|]. cbn in Hz. lia.
    + by intros u Hu%elem_of_empty.
  - intros v Hv. rewrite Hf in Hv. apply elem_of_list_to_set in Hv. unfold tokens. rewrite Hp. cbn.
    rewrite Hcount. fold g in Hv. rewrite (decide_True _ _ Hv). lia.
  - rewrite Hs. unfold first_gen. apply Forall_forall. intros x Hx%list_elem_of_In.
    apply in_map_iff in Hx as (ep & <- & _). done.
Qed.

Lemma FI_reach rs cs ts l s0 s :
  kinit c rs cs ts l = Ok s0 -> kreach c plain_results s0 s -> healthy s -> FI s.
Proof.
  intros Hi Hr. induction Hr as [|s a s' Hr IH Ha Hs]; intros Hh; [by eapply FI_init|].
  eapply FI_step; [|exact Ha|exact Hs|exact Hh]. apply IH. by eapply healthy_back.
Qed.

Lemma FI_running s p inp :
  FI s -> p ∈ k_procs s -> p_phase p = PhExec inp ->
  fires (p_node p) /\ forall e, e ∈ inEdges g (p_node p) -> e_src e ∈ k_completed s.
Proof.
  intros HF [i Hp]%list_elem_of_lookup Hph. pose proof (fi_maps s HF) as Hm.
  assert (0 < active s (p_node p)) as Hpos.
  { pose proof (sum_list_delete (weight (p_node p)) _ _ _ Hp) as Hd. unfold active.
    assert (weight (p_node p) p = 1) as Hw; [|lia].
    unfold weight, proc_tokens, posting. rewrite Hph. by rewrite bool_decide_true. }
  destruct (mo_act _ _ _ _ _ Hm _ Hpos) as (Hc & Hz & Hf). split; [done|]. intros e He.
  rewrite (mo_in _ _ _ _ _ Hm _ Hc) in Hz.
  assert (countb (unmet (k_completed s) []) (inEdges g (p_node p)) = 0) as Hz' by lia.
  pose proof (proj1 (countb_zero _ _) Hz' e He) as Hu. unfold unmet in Hu.
  apply orb_false_iff in Hu as [Hu _]. by apply negb_false_iff, bool_decide_eq_true in Hu.
Qed.

Lemma FI_quiescent s v :
  FI s -> quiescent s = true ->
  (v ∈ k_completed s <-> decided v) /\ (v ∈ k_completed s /\ v ∉ k_skipped s <-> fires v).
Proof.
  intros HF Hq. pose proof (fi_maps s HF) as Hm.
  assert (forall u, active s u = 0) as Ha.
  { intros u. unfold quiescent in Hq. unfold active.
    destruct (k_seeds s); [|done]. by destruct (k_procs s). }
  assert (forall u, decided u -> u ∈ k_completed s) as Hdc.
  { induction 1 as [u Hep|u Hne _ IH]; (destruct (decide (u ∈ k_completed s)) as [|Hno]; [done|]); exfalso.
    - pose proof (mo_ready _ _ _ _ _ Hm u Hno (or_introl Hep)) as Hpos. rewrite Ha in Hpos. lia.
    - assert (zget (k_inDeg s) u = 0%Z) as Hz.
      { rewrite (mo_in _ _ _ _ _ Hm u Hno). rewrite (proj2 (countb_zero _ _)); [done|].
        intros e He. unfold unmet. rewrite (bool_decide_true _ (IH e He)).
        by rewrite bool_decide_false by apply not_elem_of_nil. }
      pose proof (mo_ready _ _ _ _ _ Hm u Hno (or_intror (conj Hne Hz))) as Hpos. rewrite Ha in Hpos. lia. }
  split; split.
  - intros Hc. by apply (mo_dec _ _ _ _ _ Hm).
  - apply Hdc.
  - intros [Hc Hk]. by apply (mo_dec _ _ _ _ _ Hm).
  - intros Hf. pose proof (Hdc v (fires_decided v Hf)) as Hc. split; [done|].
    intros Hk. by apply (mo_dec _ _ _ _ _ Hm v Hc).
Qed.

(** ** Clean runs end

    A dispatch takes at most eight steps and is launched by one more; a node is dispatched at
    most once.  [fresh_nodes] are those whose dispatch is still to come. *)

Definition fresh_nodes (s : KState L) : gset string :=
  filter (fun v => v ∉ k_completed s /\ active s v = 0) (list_to_set (g_entrypoints g) ∪ targets).

Definition queued (p : Proc) : nat := match p_phase p with PhPost _ _ _ ls | PhLaunch ls => length ls | _ => 0 end.
Definition phase_rank (p : Proc) : nat :=
  match p_phase p with
  | PhSpawn => 8 | PhBudget => 7 | PhExec _ => 6 | PhResult _ => 5 | PhFresh _ => 4 | PhTopo _ _ _ => 3
  | PhPost _ _ _ _ => 2 | PhLaunch _ => 1 | PhErr _ => 0
  end.

(** Dispatches to come. *)
Definition awaited (s : KState L) : nat := size (fresh_nodes s) + length (k_seeds s) + sum_list_with queued (k_procs s).
Definition steps_left (s : KState L) : nat := 9 * awaited s + sum_list_with phase_rank (k_procs s).
(** The live goroutines and the dispatches to come. *)
Definition load (s : KState L) : nat := awaited s + length (k_procs s).

Lemma fires_source v : fires v -> v ∈ g_entrypoints g \/ inEdges g v <> [].
Proof. destruct 1 as [ep Hep|v e _ He _ _]; [by left|right]. intros Hn. rewrite Hn in He. by apply elem_of_nil in He. Qed.

Lemma fires_known v : fires v -> v ∈ (list_to_set (g_entrypoints g) ∪ targets : gset string).
Proof.
  intros [Hep|Hne]%fires_source; apply elem_of_union; [left; by apply elem_of_list_to_set|right].
  destruct (inEdges g v) as [|e l] eqn:Hin; [done|]. assert (e ∈ inEdges g v) as He by (rewrite Hin; by left).
  apply elem_of_inEdges in He as (Hg & _ & <-). apply elem_of_list_to_set. by apply list_elem_of_fmap_2.
Qed.

Lemma unmet_mono C C' v : C ⊆ C' -> countb (unmet C []) (inEdges g v) = 0 -> countb (unmet C' []) (inEdges g v) = 0.
Proof.
  intros HC H0. apply countb_zero. intros e He. pose proof (proj1 (countb_zero _ _) H0 e He) as Hu. unfold unmet in *.
  rewrite (bool_decide_false (_ ∈ [])) in * by apply not_elem_of_nil. rewrite orb_false_r in *.
  apply negb_false_iff, bool_decide_eq_true in Hu. apply negb_false_iff, bool_decide_eq_true. set_solver.
Qed.

(** A dispatched node stays dispatched until it completes. *)
Lemma fresh_back s s' v : FI s -> FI s' -> k_completed s ⊆ k_completed s' -> v ∈ fresh_nodes s' -> v ∈ fresh_nodes s.
Proof.
  intros HF HF' HC. unfold fresh_nodes. rewrite !elem_of_filter. intros [[Hc' Ha'] Hk]. split; [|done].
  assert (v ∉ k_completed s) as Hc by set_solver. split; [done|]. destruct (active s v) as [|k] eqn:Ha; [done|exfalso].
  destruct (mo_act _ _ _ _ _ (fi_maps s HF) v) as (_ & Hz & Hf); [lia|].
  assert (0 < active s' v); [|lia]. apply (mo_ready _ _ _ _ _ (fi_maps s' HF') v Hc').
  destruct (fires_source v Hf) as [?|Hne]; [by left|right]. split; [done|].
  rewrite (mo_in _ _ _ _ _ (fi_maps s HF) v Hc) in Hz. rewrite (mo_in _ _ _ _ _ (fi_maps s' HF') v Hc').
  by rewrite (unmet_mono (k_completed s)) by (done || lia).
Qed.

Lemma fresh_size_le s s' : FI s -> FI s' -> k_completed s ⊆ k_completed s' -> size (fresh_nodes s') <= size (fresh_nodes s).
Proof. intros. apply subseteq_size. intros v. by apply fresh_back. Qed.

(** The launches of a step were fresh before it. *)
Lemma fresh_launched s s1 i p ph ls : FI s -> k_procs s !! i = Some p -> FI (after s s1 i p (Some ph)) ->
  k_completed s ⊆ k_completed s1 -> p_node p ∈ k_completed s1 ->
  (forall v, weight v (with_phase p ph) = launch_count v ls) -> (forall v, v <> p_node p -> weight v p = 0) ->
  size (fresh_nodes (after s s1 i p (Some ph))) + length ls <= size (fresh_nodes s).
Proof.
  intros HF Hp HF' HC Hid Hw Hw0. set (s' := after s s1 i p (Some ph)) in *.
  assert (forall v, active s' v + weight v p = active s v + launch_count v ls) as Hact.
  { intros v. rewrite <- Hw. unfold active. cbn [k_seeds s' after set_procs].
    pose proof (after_sum (weight v) s s1 i p (Some ph) Hp) as Hs. cbn [from_option] in Hs. unfold s'. lia. }
  assert (forall v, launch_count v ls <= 1) as Hle.
  { intros v. pose proof (mo_le _ _ _ _ _ (fi_maps s' HF') v). specialize (Hact v).
    destruct (decide (v = p_node p)) as [->|Hne]; [|rewrite Hw0 in Hact by done; lia].
    assert (active s' (p_node p) = 0) as Hz0.
    { destruct (active s' (p_node p)) eqn:E; [done|]. destruct (mo_act _ _ _ _ _ (fi_maps s' HF') (p_node p)) as (Hc & _); [lia|]. done. }
    assert (launch_count (p_node p) ls <= active s' (p_node p)); [|lia].
    rewrite <- Hw. unfold active. cbn [k_seeds k_procs s' after set_procs].
    assert (weight (p_node p) (with_phase p ph) <= sum_list_with (weight (p_node p)) (<[i := with_phase p ph]> (k_procs s))); [|lia].
    assert (<[i := with_phase p ph]> (k_procs s) !! i = Some (with_phase p ph)) as Hi by (apply list_lookup_insert_eq; by eapply lookup_lt_Some).
    pose proof (sum_list_delete (weight (p_node p)) _ _ _ Hi). lia. }
  assert (forall v, v ∈ ls.*1 -> v ∈ fresh_nodes s /\ v ∉ fresh_nodes s') as Hls.
  { intros v Hv. assert (launch_count v ls <> 0) as Hn by (by intros ?%launch_count_zero).
    assert (0 < active s' v) as Hpos.
    { rewrite <- Hw in Hn. unfold active. cbn [k_seeds k_procs s' after set_procs].
      assert (<[i := with_phase p ph]> (k_procs s) !! i = Some (with_phase p ph)) as Hi by (apply list_lookup_insert_eq; by eapply lookup_lt_Some).
      pose proof (sum_list_delete (weight v) _ _ _ Hi). lia. }
    destruct (mo_act _ _ _ _ _ (fi_maps s' HF') v Hpos) as (Hc & _ & Hf). cbn [k_completed s' after set_procs] in Hc.
    pose proof (mo_le _ _ _ _ _ (fi_maps s' HF') v). specialize (Hact v). rewrite Hw0 in Hact by (by intros ->).
    split; unfold fresh_nodes; rewrite elem_of_filter; [|intros [[_ ?] _]; lia]. split; [split; [set_solver|lia]|by apply fires_known]. }
  assert (NoDup ls.*1) as Hnd.
  { clear -Hle. induction ls as [|x ls IH]; [constructor|]. cbn. constructor.
    - intros Hin. specialize (Hle x.1). rewrite launch_count_cons, bool_decide_true in Hle by done.
      assert (launch_count x.1 ls <> 0) by (by intros ?%launch_count_zero). lia.
    - apply IH. intros v. specialize (Hle v). rewrite launch_count_cons in Hle. lia. }
  assert (size (fresh_nodes s' ∪ list_to_set ls.*1) <= size (fresh_nodes s)) as Hsz.
  { apply subseteq_size. intros v [Hv|Hv%elem_of_list_to_set]%elem_of_union; [|by apply Hls]. by eapply (fresh_back s s'). }
  rewrite size_union in Hsz.
  - rewrite size_list_to_set in Hsz by done. by rewrite length_map in Hsz.
  - intros v Hv Hl%elem_of_list_to_set. by apply Hls in Hl as [_ ?].
Qed.

(** The potentials of a goroutine's step that launches nothing new. *)
Lemma after_left s s1 i p oph : FI s -> k_procs s !! i = Some p -> FI (after s s1 i p oph) -> k_completed s ⊆ k_completed s1 ->
  match oph with
  | Some ph => queued (with_phase p ph) = queued p /\ phase_rank (with_phase p ph) < phase_rank p
  | None => 0 < phase_rank p
  end -> steps_left (after s s1 i p oph) < steps_left s /\ load (after s s1 i p oph) <= load s.
Proof.
  intros HF Hp HF' HC Hph. pose proof (fresh_size_le s _ HF HF' HC) as Hfr.
  pose proof (after_sum queued s s1 i p oph Hp) as Hq. pose proof (after_sum phase_rank s s1 i p oph Hp) as Hr.
  unfold steps_left, load, awaited. cbn [k_seeds after set_procs] in *. destruct oph as [ph|]; cbn [from_option] in Hq, Hr.
  - destruct Hph as [Hph1 Hph2]. unfold after in *. cbn [k_procs set_procs] in *. rewrite length_insert. lia.
  - unfold after in *. cbn [k_procs set_procs] in *. rewrite length_delete by (by eexists). lia.
Qed.

Lemma step_topo_completed (s : KState L) nd r : r_Pause r = false ->
  k_completed s ⊆ k_completed (step_topo c s nd r None None).1 /\ n_id nd ∈ k_completed (step_topo c s nd r None None).1 /\
  exists sk ls, (step_topo c s nd r None None).2 = Some (PhPost r true sk ls).
Proof.
  intros Hp. unfold step_topo. rewrite bool_decide_false by apply not_elem_of_nil. rewrite Hp. cbn [negb fst snd k_completed upd_maps].
  match goal with |- context [promote c ?x ?a ?b] =>
    assert (k_completed x ⊆ pr_completed (promote c x a b)) as Hm by (unfold promote; etrans; [|apply promote_loop_mono]; done) end.
  cbn [k_completed upd_maps] in Hm. split_and!; [set_solver..|]. eauto.
Qed.

Lemma env_completed (s s1 : KState L) : env_only s s1 -> k_completed s ⊆ k_completed s1.
Proof. intros []. by rewrite eo_completed. Qed.

Lemma exec_ok_completed (s : KState L) nd r :
  k_completed (step_exec_ok c s nd r).1 = k_completed s /\ (step_exec_ok c s nd r).2 = Some (PhResult r).
Proof.
  unfold step_exec_ok. match goal with |- context [k_append ?x ?y] => pose proof (eo_completed _ _ (k_append_env x y)) as Ha;
    destruct (k_append x y) as [s1 [le|]] end; cbn [fst snd] in *; (split; [|done]); [|done].
  cbn. unfold fail_with. by destruct (k_firstErr s1).
Qed.

Lemma exec_err_sick (s : KState L) nd evs e : ~ healthy (step_exec_err c s nd evs e).1.
Proof.
  intros Hh. unfold step_exec_err in Hh. destruct (k_append _ _) as [s1 le]. cbn zeta in Hh. cbn [fst] in Hh. destruct Hh as [Hh1 Hh2].
  destruct (k_firstErr (set_inFlight _ _)) eqn:Hf; cbn in *; [congruence|]. repeat case_match; cbn in *; congruence.
Qed.

Lemma post_completed (s : KState L) nd r sd sk ls : k_completed (step_post c s nd r sd sk ls).1 = k_completed s.
Proof.
  unfold step_post. cbn [fst]. rewrite (eo_completed _ _ (recordStep_env _ _ _ _)), (eo_completed _ _ (armGoalFromNode_env _ _ _ _)).
  destruct sk as [|x sk]; [done|]. match goal with |- context [k_append ?a ?b] => pose proof (eo_completed _ _ (k_append_env a b)) as Ha;
    destruct (k_append a b) as [s1 [le|]] end; cbn [fst] in *; [|done]. unfold fail_with. by destruct (k_firstErr s1).
Qed.

(** A clean step uses up potential. *)
Lemma clean_step s a s' : FI s -> FI s' -> plain_results s a -> kstep c a s = Some s' -> healthy s' ->
  steps_left s' < steps_left s /\ load s' <= load s.
Proof.
  intros HF HF' Hpl Hstep Hh. destruct a as [|i o]; cbn in Hstep.
  - destruct (k_seeds s) as [|x seeds] eqn:Hs; [done|]. destruct (slot_free c s); inv_ok.
    pose proof (fresh_size_le s _ HF HF' (reflexivity _)) as Hfr. unfold steps_left, load, awaited.
    cbn [k_seeds k_procs set_procs]. rewrite Hs, !sum_list_with_app, length_app. cbn. cbn in Hfr. lia.
  - destruct (k_procs s !! i) as [p|] eqn:Hp; [|done].
    pose proof (Forall_lookup_1 _ _ _ _ (fi_procs s HF) Hp) as [Hg Hok]. unfold step_phase in Hstep.
    assert (forall s1 oph, s' = after s s1 i p oph -> k_completed s ⊆ k_completed s1 ->
      match oph with Some ph => queued (with_phase p ph) = queued p /\ phase_rank (with_phase p ph) < phase_rank p | None => 0 < phase_rank p end ->
      steps_left s' < steps_left s /\ load s' <= load s) as Hleft by (intros s1 oph -> HC Hq; by apply after_left).
    destruct (p_phase p) as [| |inp|e|r|r|r v err|r sd sk ls|[|x ls]] eqn:Hph.
    + unfold step_spawn in Hstep. destruct (k_firstErr s); [|destruct (k_pause s)]; inv_ok;
        [apply (Hleft s None)|apply (Hleft s None)|apply (Hleft s (Some PhBudget))]; try done;
        unfold queued, phase_rank; rewrite Hph; cbn; lia.
    + unfold step_budget in Hstep. fold g in Hstep. pose proof (env_completed _ _ (checkBudget_env c (o_now o) s)) as Hb.
      destruct (checkBudget _ _ _) as [s1 [e|]]; cbn [fst] in Hb.
      { inv_ok. exfalso. by destruct Hh as [?%sick_fail _]. }
      destruct (nodesByID g !! _) as [nd|]; [destruct (cfg_registry c !! _)|]; inv_ok;
        try (exfalso; by destruct Hh as [?%sick_fail _]).
      apply (Hleft s1 (Some (PhExec (buildInputs c s1 (p_node p))))); [done|exact Hb|]. unfold queued, phase_rank. rewrite Hph. cbn. lia.
    + destruct Hok as [nd Hnd]. unfold step_exec in Hstep. fold g in Hstep. rewrite Hnd in Hstep. destruct (o_outcome o) as [r|evs e] eqn:Ho.
      * destruct (exec_ok_completed (apply_effect s (o_effect o)) nd r) as [Hc1 Hp1].
        destruct (step_exec_ok c (apply_effect s (o_effect o)) nd r) as [s1 oph]. cbn [fst snd] in *. subst oph. inv_ok.
        apply (Hleft s1 (Some (PhResult r))); [done|by rewrite Hc1|]. unfold queued, phase_rank. rewrite Hph. cbn. lia.
      * exfalso. apply (exec_err_sick (apply_effect s (o_effect o)) nd evs e).
        destruct (step_exec_err c (apply_effect s (o_effect o)) nd evs e) as [s1 oph]. cbn [fst]. by inv_ok.
    + destruct Hok.
    + unfold step_stale in Hstep. rewrite (fi_gen s HF), Hg in Hstep. change (zget ∅ (p_node p)) with 0%Z in Hstep. cbn [Z.eqb negb] in Hstep.
      inv_ok. apply (Hleft (set_inFlight s (k_inFlight s ∖ {[p_node p]})) (Some (PhFresh r))); [done|done|]. unfold queued, phase_rank. rewrite Hph. cbn. lia.
    + destruct Hok as (_ & Hb & _). unfold step_resolve in Hstep. rewrite Hb in Hstep. inv_ok. apply (Hleft s (Some (PhTopo r None None))); [done|done|].
      unfold queued, phase_rank. rewrite Hph. cbn. lia.
    + destruct Hok as ([nd Hnd] & (_ & Hpause & _) & -> & ->). fold g in Hstep. rewrite Hnd in Hstep.
      destruct (step_topo_completed s nd r Hpause) as (HC & Hid & sk & ls & Hph'). destruct (step_topo c s nd r None None) as [s1 oph].
      cbn [fst snd] in *. subst oph. inv_ok. fold (after s s1 i p (Some (PhPost r true sk ls))) in *.
      rewrite (nodesByID_id _ _ _ Hnd) in Hid.
      pose proof (fresh_launched s s1 i p (PhPost r true sk ls) ls HF Hp HF' HC Hid) as Hfr.
      pose proof (after_sum queued s s1 i p (Some (PhPost r true sk ls)) Hp) as Hq. pose proof (after_sum phase_rank s s1 i p (Some (PhPost r true sk ls)) Hp) as Hr.
      cbn [from_option] in Hq, Hr.
      assert (queued p = 0 /\ phase_rank p = 3) as [Hq0 Hr0] by (unfold queued, phase_rank; by rewrite Hph).
      assert (forall v, weight v (with_phase p (PhPost r true sk ls)) = launch_count v ls) as Hw1 by (intros v; unfold weight, proc_tokens, posting; cbn; lia).
      assert (forall v, v <> p_node p -> weight v p = 0) as Hw2
        by (intros v Hv; unfold weight, proc_tokens, posting; rewrite Hph; by rewrite bool_decide_false by congruence).
      specialize (Hfr Hw1 Hw2). unfold steps_left, load, awaited. cbn [k_seeds after set_procs].
      assert (length (k_procs (after s s1 i p (Some (PhPost r true sk ls)))) = length (k_procs s)) as -> by apply length_insert.
      change (queued (with_phase p _)) with (length ls) in Hq. change (phase_rank (with_phase p _)) with 2 in Hr. lia.
    + destruct Hok as ([nd Hnd] & _). fold g in Hstep. rewrite Hnd in Hstep. pose proof (post_completed s nd r sd sk ls) as HC.
      assert ((step_post c s nd r sd sk ls).2 = Some (PhLaunch ls)) as Hph' by done.
      destruct (step_post c s nd r sd sk ls) as [s1 oph]. cbn [fst snd] in HC, Hph'. subst oph. inv_ok.
      apply (Hleft s1 (Some (PhLaunch ls))); [done|by rewrite HC|]. unfold queued, phase_rank. rewrite Hph. cbn. lia.
    + inv_ok. eapply (Hleft s None); [done|done|]. unfold phase_rank. rewrite Hph. lia.
    + destruct (slot_free c s); inv_ok. pose proof (fresh_size_le s _ HF HF' (reflexivity _)) as Hfr.
      unfold steps_left, load, awaited. cbn [k_seeds k_procs set_procs] in *. rewrite !sum_list_with_app, length_app, length_insert.
      pose proof (sum_list_insert queued _ _ _ (with_phase p (PhLaunch ls)) Hp) as Hq. pose proof (sum_list_insert phase_rank _ _ _ (with_phase p (PhLaunch ls)) Hp) as Hr.
      assert (queued p = S (length ls) /\ phase_rank p = 1) as [Hq0 Hr0] by (unfold queued, phase_rank; by rewrite Hph).
      change (queued (with_phase p _)) with (length ls) in Hq. change (phase_rank (with_phase p _)) with 1 in Hr. cbn. lia.
Qed.

(** [n] steps of [allowed] actions. *)
Inductive kruns (allowed : KState L -> KAct -> Prop) (s0 : KState L) : nat -> KState L -> Prop :=
| kruns_0 : kruns allowed s0 0 s0
| kruns_S n s a s' : kruns allowed s0 n s -> allowed s a -> kstep c a s = Some s' -> kruns allowed s0 (S n) s'.

Lemma kruns_reach allowed s0 n s : kruns allowed s0 n s -> kreach c allowed s0 s.
Proof. induction 1; [apply kreach_refl|by eapply kreach_step]. Qed.

(** The nodes a dispatch can be for. *)
Definition known_nodes : gset string := list_to_set (g_entrypoints g) ∪ targets.

Lemma load_init rs cs ts l s0 : kinit c rs cs ts l = Ok s0 -> awaited s0 <= size known_nodes /\ k_procs s0 = [].
Proof.
  intros Hi. pose proof (FI_init rs cs ts l s0 Hi) as HF. destruct (kinit_ok _ _ _ _ _ _ Hi) as (Hp & Hs & _). split; [|done].
  unfold awaited. rewrite Hp. cbn [sum_list_with]. rewrite Nat.add_0_r.
  assert ((k_seeds s0).*1 = g_entrypoints g) as Hfst.
  { rewrite Hs. unfold g. clear. induction (g_entrypoints (cfg_graph c)) as [|e es IH]; [done|]. cbn. by f_equal. }
  assert (length (k_seeds s0) = size (list_to_set (g_entrypoints g) : gset string)) as ->
    by (rewrite size_list_to_set, <- Hfst, length_map by done; done).
  rewrite <- size_union.
  - apply subseteq_size. intros v [Hv|Hv]%elem_of_union; [|unfold known_nodes; set_solver]. unfold fresh_nodes in Hv. by apply elem_of_filter in Hv as [_ Hv].
  - intros v Hv He%elem_of_list_to_set. unfold fresh_nodes in Hv. apply elem_of_filter in Hv as [[_ Ha] _]. unfold active in Ha.
    assert (launch_count v (k_seeds s0) <> 0); [|lia]. rewrite launch_count_zero, Hfst. auto.
Qed.

(** A clean run has a bounded number of steps and of goroutines. *)
Lemma clean_runs_end rs cs ts l s0 n s : kinit c rs cs ts l = Ok s0 -> kruns plain_results s0 n s -> healthy s ->
  n + steps_left s <= 9 * size known_nodes /\ load s <= size known_nodes.
Proof.
  intros Hi Hr. destruct (load_init _ _ _ _ _ Hi) as [Ha Hp]. induction Hr as [|n s a s' Hr IH Hal Hs]; intros Hh.
  - unfold steps_left, load. rewrite Hp. cbn [sum_list_with length]. lia.
  - pose proof (healthy_back _ _ _ Hs Hh) as Hh1. destruct (IH Hh1) as [IH1 IH2]. apply kruns_reach in Hr.
    destruct (clean_step s a s') as [H1 H2]; [by eapply FI_reach| |done|done|done|lia].
    eapply FI_reach; [exact Hi| |done]. by eapply kreach_step.
Qed.

(** With fewer than two nodes for a slot a clean run is never stuck before its end. *)
Lemma clean_runs_go_on rs cs ts l s0 n s : kinit c rs cs ts l = Ok s0 -> kruns plain_results s0 n s -> healthy s ->
  size known_nodes < 2 * cfg_maxInFlight c -> quiescent s = false -> ~ stuck c s.
Proof.
  intros Hi Hr Hh Hslots Hq Hst. destruct (clean_runs_end _ _ _ _ _ _ _ Hi Hr Hh) as [_ Hload].
  apply stuck_iff in Hst as [Hl [[Hs Hp]|Hfull]]; [unfold quiescent in Hq; by rewrite Hs, Hp in Hq|].
  assert (length (k_procs s) <= sum_list_with queued (k_procs s)); [|unfold load, awaited in Hload; lia].
  clear -Hl. induction (k_procs s) as [|p ps IH]; [done|]. cbn.
  destruct (Hl p ltac:(by left)) as (x & ls & Hph). assert (1 <= queued p) by (unfold queued; rewrite Hph; cbn; lia).
  specialize (IH (fun q Hq => Hl q ltac:(by right))). lia.
Qed.
End Forward.
