(* ===== verification/Rebuild.v ===== *)
(** Resuming a run: [RebuildState] and [Resume] of core/agentgraph/kernel.go,
    proved against the [EventLog] interface only.

    [RebuildState] replays the log into a fresh run state and task state.  The writers
    of this memory update the live state first and append the event later, outside [mu],
    and the append may fail: [Writers] is that system, and its invariant says what replay
    then misses of the live task state and failure annotations.  [Sync] is the special
    case of the kernel's steps over a log that never fails. *)
From S2P Require Import Prelude GoString Utf8 AgentGraph EventLog RunState Kernel KernelSafety.

(** * Reading payload fields

    [json.Unmarshal] into a struct: a missing field or null leaves the zero
    value, a value of another JSON type is an error for the whole payload. *)

Definition field_str (p : list (string * value)) (k : string) : option string :=
  match assoc k p with
  | None | Some VNil => Some ""
  | Some (VStr s) => Some s
  | Some _ => None
  end.

Definition field_int (p : list (string * value)) (k : string) : option Z :=
  match assoc k p with
  | None | Some VNil => Some 0%Z
  | Some (VInt z) => Some z
  | Some _ => None
  end.

Definition strs_of (l : list value) : option (list string) :=
  mapM (fun v => match v with VStr s => Some s | VNil => Some "" | _ => None end) l.

Definition field_strs (p : list (string * value)) (k : string) : option (list string) :=
  match assoc k p with
  | None | Some VNil => Some []
  | Some (VList l) => strs_of l
  | Some _ => None
  end.

Lemma strs_of_map l : strs_of (map VStr l) = Some l.
Proof. unfold strs_of. induction l as [|x l IH]; [done|]. cbn. rewrite IH. done. Qed.

(** * Replay *)

Definition ladderRungRetry : Z := 0.
Definition ladderRungEscalate : Z := 1.
Definition ladderRungReplan : Z := 2.
Definition ladderRungAsk : Z := 3.
Definition ladderRungExhausted : Z := 4.

Definition ladderStateKey (nodeID : string) : string := "__ladder__" +:+ nodeID.
Definition ladderGlobalEscalatedKey : string := "__ladder_escalated_global__".

Definition ladder_outputs (rung retryAttempts : Z) : PortValues :=
  <["rung" := VInt rung]> {["retry_attempts" := VInt retryAttempts]}.

Record Rebuilt := { rb_state : RunState; rb_task : TaskState.t; rb_answered : gset string }.

Definition rb_set_state (rb : Rebuilt) (s : RunState) : Rebuilt :=
  {| rb_state := s; rb_task := rb_task rb; rb_answered := rb_answered rb |}.
Definition rb_set_task (rb : Rebuilt) (t : TaskState.t) : Rebuilt :=
  {| rb_state := rb_state rb; rb_task := t; rb_answered := rb_answered rb |}.

(** The [EventLadderRung] case. *)
Definition rebuild_rung (rb : Rebuilt) (e : Event) : Rebuilt :=
  if bool_decide (ev_NodeID e = "") then rb else
  match field_str (ev_Payload e) "rung", field_int (ev_Payload e) "attempt" with
  | Some r, Some attempt =>
      let stateKey := ladderStateKey (ev_NodeID e) in
      let retryAttempts := as_int (Outputs (rb_state rb) stateKey !! "retry_attempts") in
      let set rung ra := rb_set_state rb (SetOutputs (rb_state rb) stateKey (ladder_outputs rung ra)) in
      if bool_decide (r = "retry") then set ladderRungRetry attempt
      else if bool_decide (r = "escalate") then set ladderRungEscalate retryAttempts
      else if bool_decide (r = "replan") then set ladderRungReplan retryAttempts
      else if bool_decide (r = "ask") then
        set (if bool_decide (ev_NodeID e ∈ rb_answered rb) then ladderRungExhausted else ladderRungAsk)
            retryAttempts
      else rb
  | _, _ => rb
  end.

(** The [EventBacktrackFired] case. *)
Definition rebuild_annotation (p : list (string * value)) : option FailureAnnotation :=
  match field_str p "target", field_str p "reason", field_str p "rejected_approach", field_int p "iteration" with
  | Some t, Some r, Some a, Some i =>
      Some {| fa_Node := t; fa_Reason := r; fa_RejectedApproach := a; fa_Iteration := i |}
  | _, _, _, _ => None
  end.

Section Rebuild.
(** The text of a stored payload, which a replayed node error carries. *)
Context (payload_text : list (string * value) -> string).

Definition rebuild_event (rb : Rebuilt) (e : Event) : Rebuilt :=
  let k := ev_Kind e in
  let p := ev_Payload e in
  let st := rb_state rb in
  let ts := rb_task rb in
  if bool_decide (k = EventNodeComplete) then
    if bool_decide (ev_NodeID e = "") then rb else rb_set_state rb (SetOutputs st (ev_NodeID e) ∅)
  else if bool_decide (k = EventNodeError) then
    if bool_decide (ev_NodeID e = "") then rb
    else rb_set_state rb (MarkFailed st (ev_NodeID e) (payload_text p))
  else if bool_decide (k = EventBacktrackFired) then
    match rebuild_annotation p with
    | Some a => rb_set_state rb (AddFailureAnnotation st a)
    | None => rb
    end
  else if bool_decide (k = EventTaskGoalSet) then
    match field_str p "goal" with Some g => rb_set_task rb (TaskState.SetGoal ts g) | None => rb end
  else if bool_decide (k = EventTaskStepCompleted) then
    match field_str p "summary" with
    | Some s => rb_set_task rb (TaskState.AddCompletedStep ts s)
    | None => rb
    end
  else if bool_decide (k = EventTaskForbidden) then
    match field_strs p "actions" with
    | Some l => rb_set_task rb (TaskState.AddForbidden ts l)
    | None => rb
    end
  else if bool_decide (k = EventAskAnswered) then
    if bool_decide (ev_NodeID e = "") then rb
    else {| rb_state := st; rb_task := ts; rb_answered := {[ev_NodeID e]} ∪ rb_answered rb |}
  else if bool_decide (k = EventLadderRung) then rebuild_rung rb e
  else if bool_decide (k = EventEscalateTriggered) then
    rb_set_state rb (SetOutputs st ladderGlobalEscalatedKey {["fired" := VBool true]})
  else rb.

Definition RebuildState {L} `{EventLog L} (l : L) (run : string) (st : RunState) (ts : TaskState.t)
  : Rebuilt :=
  (Replay (E := string) l run (fun rb e => Ok (rebuild_event rb e))
     {| rb_state := st; rb_task := ts; rb_answered := ∅ |}).1.

(** [Resume]: rebuild, then [Run] from its beginning. *)
Definition Resume {L} `{EventLog L} (c : KConfig) (st : RunState) (cs : RunCounters) (ts : TaskState.t)
    (l : L) : result (KState L) string :=
  let rb := RebuildState l (cfg_RunID c) st ts in
  kinit c (rb_state rb) cs (rb_task rb) l.

(** * What replay rebuilds of the task state and the annotations *)

Definition memory : Type := TaskState.t * list FailureAnnotation.

Definition rb_memory (rb : Rebuilt) : memory := (rb_task rb, rs_failureAnnotations (rb_state rb)).

Definition memory_event (m : memory) (e : Event) : memory :=
  let k := ev_Kind e in
  let p := ev_Payload e in
  if bool_decide (k = EventBacktrackFired) then
    match rebuild_annotation p with Some a => (m.1, m.2 ++ [a]) | None => m end
  else if bool_decide (k = EventTaskGoalSet) then
    match field_str p "goal" with Some g => (TaskState.SetGoal m.1 g, m.2) | None => m end
  else if bool_decide (k = EventTaskStepCompleted) then
    match field_str p "summary" with Some s => (TaskState.AddCompletedStep m.1 s, m.2) | None => m end
  else if bool_decide (k = EventTaskForbidden) then
    match field_strs p "actions" with Some l => (TaskState.AddForbidden m.1 l, m.2) | None => m end
  else m.

Lemma rebuild_rung_memory rb e : rb_memory (rebuild_rung rb e) = rb_memory rb.
Proof.
  unfold rebuild_rung. case_if; [done|].
  destruct (field_str _ _); [|done]. destruct (field_int _ _); [|done]. repeat case_if; done.
Qed.

(** Event kinds that carry memory; executors do not write them. *)
Definition memoryKinds : list string :=
  [EventBacktrackFired; EventTaskGoalSet; EventTaskStepCompleted; EventTaskForbidden].

Lemma memory_event_other m e : ev_Kind e ∉ memoryKinds -> memory_event m e = m.
Proof.
  unfold memoryKinds. rewrite !not_elem_of_cons. intros (? & ? & ? & ? & _).
  unfold memory_event. by rewrite !bool_decide_false.
Qed.

Lemma rebuild_event_memory rb e : rb_memory (rebuild_event rb e) = memory_event (rb_memory rb) e.
Proof.
  destruct (decide (ev_Kind e ∈ memoryKinds)) as [Hin|Hout].
  - unfold memoryKinds in Hin. rewrite !elem_of_cons, elem_of_nil in Hin.
    unfold rebuild_event, memory_event.
    destruct Hin as [->|[->|[->|[->|[]]]]]; cbn zeta;
      repeat (rewrite bool_decide_false by done); rewrite bool_decide_true by done.
    + by destruct (rebuild_annotation _).
    + by destruct (field_str _ _).
    + by destruct (field_str _ _).
    + by destruct (field_strs _ _).
  - rewrite memory_event_other by done.
    unfold memoryKinds in Hout. rewrite !not_elem_of_cons in Hout.
    destruct Hout as (H1 & H2 & H3 & H4 & _).
    unfold rebuild_event. cbn zeta.
    rewrite (bool_decide_false _ H1), (bool_decide_false _ H2), (bool_decide_false _ H3), (bool_decide_false _ H4).
    do 2 (case_if; [by case_if|]). case_if; [by case_if|]. case_if; [apply rebuild_rung_memory|]. by case_if.
Qed.

Lemma replay_total l rb :
  replay_events (E := string) (fun rb e => Ok (rebuild_event rb e)) rb l = (foldl rebuild_event rb l, None).
Proof. revert rb. induction l as [|e l IH]; intros rb; [done|]. apply IH. Qed.

Lemma fold_memory l rb : rb_memory (foldl rebuild_event rb l) = foldl memory_event (rb_memory rb) l.
Proof.
  revert rb. induction l as [|e l IH]; intros rb; [done|]. cbn [foldl].
  by rewrite IH, rebuild_event_memory.
Qed.

Lemma RebuildState_memory {L} `{EventLog L} (l : L) run st ts :
  rb_memory (RebuildState l run st ts) =
  foldl memory_event (ts, rs_failureAnnotations st) (log_events l run).
Proof. unfold RebuildState, Replay. rewrite replay_total. cbn [fst]. by rewrite fold_memory. Qed.

Lemma memory_event_seq m n e : memory_event m (set_seq n e) = memory_event m e.
Proof. done. Qed.

Lemma fold_memory_seqs m seqs b :
  length seqs = length b -> foldl memory_event m (zip_with set_seq seqs b) = foldl memory_event m b.
Proof.
  revert m seqs. induction b as [|e b IH]; intros m [|n seqs] Hlen; try done. cbn.
  rewrite memory_event_seq. apply IH. cbn in Hlen. lia.
Qed.

Lemma fold_memory_other m b : Forall (fun e => ev_Kind e ∉ memoryKinds) b -> foldl memory_event m b = m.
Proof.
  induction b as [|e b IH]; [done|]. intros [He Hb]%Forall_cons. cbn.
  rewrite memory_event_other by done. by apply IH.
Qed.
End Rebuild.

(** * Writers of the run's memory

    Four updates make up the memory of a run: the goal, a completed step, forbidden
    actions, the annotation of an honored backtrack.  A node's goroutine makes them outside
    [mu]: the live state first, under its own lock, and the append of the event later, with
    any steps of other goroutines in between; a failed append is dropped ([_ =]) or ends the
    run, and the live state keeps the update either way. *)

Inductive memory_op :=
| OpGoal (goal : string)
| OpStep (summary : string)
| OpForbid (actions : list string)
| OpAnnotate (node : string) (a : FailureAnnotation).

Definition op_apply (m : memory) (op : memory_op) : memory :=
  match op with
  | OpGoal g => (TaskState.SetGoal m.1 g, m.2)
  | OpStep a => (TaskState.AddCompletedStep m.1 a, m.2)
  | OpForbid l => (TaskState.AddForbidden m.1 l, m.2)
  | OpAnnotate _ a => (m.1, m.2 ++ [a])
  end.

(** A text as encoding/json stores it: a byte that starts no rune becomes U+FFFD. *)
Definition json_text (t : string) : string := of_list (range_bytes (list_of t)).

Definition op_event (run : string) (op : memory_op) : EventBatch :=
  match op with
  | OpGoal g => AppendKind [] run "" EventTaskGoalSet [("goal", VStr (json_text g))]
  | OpStep a => AppendKind [] run "" EventTaskStepCompleted [("summary", VStr (json_text a))]
  | OpForbid l => AppendKind [] run "" EventTaskForbidden [("actions", VList (map VStr (map json_text l)))]
  | OpAnnotate node a =>
      AppendKind [] run node EventBacktrackFired
        [("target", VStr (json_text (fa_Node a))); ("reason", VStr (json_text (fa_Reason a)));
         ("rejected_approach", VStr (json_text (fa_RejectedApproach a))); ("iteration", VInt (fa_Iteration a))]
  end.

Definition op_texts (op : memory_op) : list string :=
  match op with
  | OpGoal g => [g] | OpStep a => [a] | OpForbid l => l
  | OpAnnotate _ a => [fa_Node a; fa_Reason a; fa_RejectedApproach a]
  end.

(** Texts that survive their JSON form. *)
Definition op_valid (op : memory_op) : Prop := Forall (fun t => json_text t = t) (op_texts op).

Definition is_goal (op : memory_op) : bool := match op with OpGoal _ => true | _ => false end.

(** The setters return early on an empty argument. *)
Definition op_made (op : memory_op) : bool :=
  match op with OpGoal g => negb (bool_decide (g = "")) | OpStep a => negb (bool_decide (a = "")) | OpForbid [] => false | _ => true end.

(** The live memory and the log, with the updates whose event is not appended yet.
    [w_goalDue] is a goroutine between the claim of the goal ([goalArmed]) and its update;
    [w_made] and [w_failed] are the history of updates and of appends that failed. *)
Record writers (L : Type) := {
  w_live : memory; w_log : L; w_goalArmed : bool; w_goalDue : bool;
  w_pending : list memory_op; w_made : list memory_op; w_failed : list memory_op
}.
Arguments w_live {L} _.
Arguments w_log {L} _.
Arguments w_goalArmed {L} _.
Arguments w_goalDue {L} _.
Arguments w_pending {L} _.
Arguments w_made {L} _.
Arguments w_failed {L} _.

Section Writers.
Context {L : Type} `{EventLogLaws L} (run : string).
Implicit Types w : writers L.

Definition w_init (m : memory) (l : L) : writers L :=
  {| w_live := m; w_log := l; w_goalArmed := false; w_goalDue := false; w_pending := []; w_made := []; w_failed := [] |}.

Definition claim_goal w : writers L :=
  {| w_live := w_live w; w_log := w_log w; w_goalArmed := true; w_goalDue := negb (w_goalArmed w);
     w_pending := w_pending w; w_made := w_made w; w_failed := w_failed w |}.

Definition update w (op : memory_op) : writers L :=
  {| w_live := op_apply (w_live w) op; w_log := w_log w; w_goalArmed := w_goalArmed w;
     w_goalDue := w_goalDue w && negb (is_goal op);
     w_pending := w_pending w ++ [op]; w_made := w_made w ++ [op]; w_failed := w_failed w |}.

Definition append w (op : memory_op) (rest : list memory_op) : writers L :=
  let '(l, r) := log_append (w_log w) (op_event run op) in
  {| w_live := w_live w; w_log := l; w_goalArmed := w_goalArmed w; w_goalDue := w_goalDue w;
     w_pending := rest; w_made := w_made w; w_failed := if is_ok r then w_failed w else w_failed w ++ [op] |}.

Definition append_other w (b : EventBatch) : writers L :=
  {| w_live := w_live w; w_log := (log_append (w_log w) b).1; w_goalArmed := w_goalArmed w; w_goalDue := w_goalDue w;
     w_pending := w_pending w; w_made := w_made w; w_failed := w_failed w |}.

(** A batch of the run that carries no memory: node starts, completions, ... *)
Definition neutral_batch (b : EventBatch) : Prop := batch_of run b /\ Forall (fun e => ev_Kind e ∉ memoryKinds) b.

Inductive wstep w : writers L -> Prop :=
| StepClaim : w_goalDue w = false -> wstep w (claim_goal w)
| StepUpdate op : op_made op = true -> (is_goal op = true -> w_goalDue w = true) -> wstep w (update w op)
| StepAppend p op q : w_pending w = p ++ op :: q -> wstep w (append w op (p ++ q))
| StepOther b : neutral_batch b -> wstep w (append_other w b).
End Writers.

(** ** What replay misses *)

Definition op_goals (op : memory_op) : list string := match op with OpGoal g => [g] | _ => [] end.
Definition op_steps (op : memory_op) : list string := match op with OpStep a => [a] | _ => [] end.
Definition op_actions (op : memory_op) : list string :=
  match op with OpForbid l => List.filter (fun a => negb (bool_decide (a = ""))) l | _ => [] end.
Definition op_annotations (op : memory_op) : list FailureAnnotation := match op with OpAnnotate _ a => [a] | _ => [] end.

(** All the steps ever recorded, the elided ones included. *)
Definition steps_total (ts : TaskState.t) : Z := Z.of_nat (length (TaskState.completedSteps ts)) + TaskState.elidedCompleted ts.

Lemma bind_snoc {A B} (f : A -> list B) l x : (l ++ [x]) ≫= f = (l ≫= f) ++ f x.
Proof. rewrite bind_app. cbn. by rewrite app_nil_r. Qed.

Lemma AddForbidden_actions ts l :
  TaskState.forbidden (TaskState.AddForbidden ts l) = TaskState.forbidden ts ∪ list_to_set (op_actions (OpForbid l)).
Proof.
  cbn [TaskState.AddForbidden TaskState.forbidden]. generalize (TaskState.forbidden ts) as X.
  induction l as [|a l IH]; intros X; cbn; [set_solver|]. rewrite IH. case_bool_decide; cbn; set_solver.
Qed.

Lemma AddCompletedStep_total ts a : a <> "" ->
  steps_total (TaskState.AddCompletedStep ts a) = (steps_total ts + 1)%Z /\
  TaskState.elidedCompleted (TaskState.AddCompletedStep ts a) =
    (TaskState.elidedCompleted ts + Z.of_nat (S (length (TaskState.completedSteps ts)) - TaskState.maxTaskCompletedSteps))%Z /\
  (TaskState.elidedCompleted (TaskState.AddCompletedStep ts a) = TaskState.elidedCompleted ts ->
   TaskState.completedSteps (TaskState.AddCompletedStep ts a) = TaskState.completedSteps ts ++ [a]).
Proof.
  intros Ha. unfold TaskState.AddCompletedStep, steps_total. rewrite bool_decide_false by done.
  case_bool_decide as Hover; cbn [TaskState.completedSteps TaskState.elidedCompleted].
  - rewrite length_drop, length_app in *. cbn [length] in *. split_and!; [lia|lia|lia].
  - rewrite length_app in *. cbn [length] in *. split_and!; [lia|lia|done].
Qed.

(** The steps elided by [k] more steps than the [n] at hand. *)
Definition elided_after (n k : nat) : Z :=
  match k with 0 => 0 | S _ => Z.of_nat (n + k - TaskState.maxTaskCompletedSteps) end.

Lemma elided_after_mono n k k' : k <= k' -> elided_after n k' = 0%Z -> elided_after n k = 0%Z.
Proof. unfold elided_after. destruct k, k'; lia. Qed.

(** What a list of updates makes of a memory, field by field. *)
Lemma apply_all ops m : Forall (fun op => op_made op = true) ops ->
  let m' := foldl op_apply m ops in
  TaskState.forbidden m'.1 = TaskState.forbidden m.1 ∪ list_to_set (ops ≫= op_actions) /\
  m'.2 = m.2 ++ (ops ≫= op_annotations) /\
  TaskState.goal m'.1 = default (TaskState.goal m.1) (last (ops ≫= op_goals)) /\
  steps_total m'.1 = (steps_total m.1 + Z.of_nat (length (ops ≫= op_steps)))%Z /\
  TaskState.elidedCompleted m'.1 = (TaskState.elidedCompleted m.1 + elided_after (length (TaskState.completedSteps m.1)) (length (ops ≫= op_steps)))%Z /\
  (TaskState.elidedCompleted m'.1 = TaskState.elidedCompleted m.1 ->
   TaskState.completedSteps m'.1 = TaskState.completedSteps m.1 ++ (ops ≫= op_steps)).
Proof.
  induction ops as [|op ops IH] using rev_ind; intros Hm; cbn zeta.
  { cbn. rewrite !app_nil_r. split_and!; try done; [set_solver|cbn; lia..]. }
  apply Forall_app in Hm as [Hm Hop]. rewrite Forall_singleton in Hop. destruct (IH Hm) as (Hf & Ha & Hg & Ht & Hl & Hc).
  rewrite foldl_app. cbn [foldl]. destruct (foldl op_apply m ops) as [ts anns]. cbn [fst snd] in *.
  rewrite !bind_snoc. destruct op as [g|a|l|node a]; cbn [op_apply op_goals op_steps op_actions op_annotations fst snd];
    rewrite ?app_nil_r.
  - cbn [TaskState.SetGoal TaskState.forbidden TaskState.goal TaskState.elidedCompleted TaskState.completedSteps].
    rewrite last_snoc. unfold steps_total in *. cbn. split_and!; done.
  - assert (a <> "") as Hne by (by intros ->).
    destruct (AddCompletedStep_total ts a Hne) as (H1 & H2 & H3). rewrite H1, Ht, length_app. cbn [length].
    assert (TaskState.forbidden (TaskState.AddCompletedStep ts a) = TaskState.forbidden ts) as -> by
      (unfold TaskState.AddCompletedStep; by repeat case_bool_decide).
    assert (TaskState.goal (TaskState.AddCompletedStep ts a) = TaskState.goal ts) as -> by
      (unfold TaskState.AddCompletedStep; by repeat case_bool_decide).
    unfold elided_after, steps_total in *. destruct (length (ops ≫= op_steps)) as [|k] eqn:Hk; cbn [Nat.add];
      (split_and!; [done|done|done|lia|lia|]; intros Hel; rewrite H3, Hc, <- app_assoc by lia; done).
  - pose proof (AddForbidden_actions ts l) as HF. cbn [op_actions] in HF. rewrite HF, Hf, list_to_set_app_L.
    unfold steps_total in *. cbn. split_and!; [set_solver|done..].
  - rewrite Ha, <- app_assoc. split_and!; done.
Qed.

Definition stored_op (op : memory_op) : memory_op :=
  match op with
  | OpGoal g => OpGoal (json_text g)
  | OpStep a => OpStep (json_text a)
  | OpForbid l => OpForbid (map json_text l)
  | OpAnnotate node a =>
      OpAnnotate node {| fa_Node := json_text (fa_Node a); fa_Reason := json_text (fa_Reason a);
                         fa_RejectedApproach := json_text (fa_RejectedApproach a); fa_Iteration := fa_Iteration a |}
  end.

Lemma stored_valid op : op_valid op -> stored_op op = op.
Proof.
  unfold op_valid. destruct op as [g|a|l|node [t r j i]]; cbn -[json_text];
    rewrite ?Forall_cons, ?Forall_nil.
  - by intros [-> _].
  - by intros [-> _].
  - intros Hl. f_equal. induction Hl as [|x l Hx _ IH]; [done|]. cbn [map]. by rewrite Hx, IH.
  - intros (-> & -> & -> & _). done.
Qed.

(** Replaying the event of an update is the update, of the stored texts. *)
Lemma op_event_memory run m op : foldl memory_event m (op_event run op) = op_apply m (stored_op op).
Proof.
  destruct op as [g|a|l|node a]; [done..| |done]. cbn [op_event AppendKind app foldl].
  unfold memory_event. cbn [ev_Kind ev_Payload]. do 3 (rewrite bool_decide_false by done).
  rewrite bool_decide_true by done. unfold field_strs. cbn [assoc]. rewrite bool_decide_true by done. by rewrite strs_of_map.
Qed.

Section WriterFacts.
Context {L : Type} `{EventLogLaws L} (run : string) (Hrun : run <> "").
Implicit Types w : writers L.

Definition rebuilt_of (m0 : memory) w : memory := foldl memory_event m0 (log_events (w_log w) run).

(** The updates made are those in the log, those on their way to it and those gone. *)
Record accounted (m0 : memory) w : Prop := {
  ac_live : w_live w = foldl op_apply m0 (w_made w);
  ac_split : exists logged gone, w_made w ≡ₚ logged ++ w_pending w ++ gone /\ gone ⊆+ w_failed w /\
               rebuilt_of m0 w = foldl op_apply m0 (map stored_op logged);
  ac_made : Forall (fun op => op_made op = true) (w_made w);
  ac_goal : length (w_made w ≫= op_goals) + (if w_goalDue w then 1 else 0) <= if w_goalArmed w then 1 else 0
}.

Lemma batch_op op : batch_of run (op_event run op).
Proof. destruct op; by apply Forall_singleton. Qed.

Lemma length_op_event op : length (op_event run op) = 1.
Proof. by destruct op. Qed.

(** An append puts the event of its update into the log, or leaves the log as it was. *)
Lemma append_event m0 w op rest :
  let w' := append run w op rest in
  rebuilt_of m0 w' = op_apply (rebuilt_of m0 w) (stored_op op) \/
  rebuilt_of m0 w' = rebuilt_of m0 w /\ w_failed w' = w_failed w ++ [op].
Proof.
  cbn zeta. unfold append, rebuilt_of.
  destruct (log_append_events (w_log w) (op_event run op) run Hrun (batch_op op)) as (n & seqs & Hn & Hlen & He).
  destruct (log_append _ _) as [l r]. cbn [fst snd w_log w_failed] in *. rewrite He, foldl_app, fold_memory_seqs by done.
  rewrite length_op_event in Hn. destruct n as [|n].
  - right. destruct (is_ok r); [by specialize (Hn eq_refl)|done].
  - left. rewrite take_ge by (rewrite length_op_event; lia). apply op_event_memory.
Qed.

Lemma accounted_step m0 w w' : accounted m0 w -> wstep run w w' -> accounted m0 w'.
Proof.
  intros [Hl (logged & gone & Hs & Hg & Hr) Hm Hgoal] [Hdue|op Hop Hmay|p op q Hp|b [Hb Hk]].
  - constructor; [done|by exists logged, gone|done|]. cbn. rewrite Hdue in Hgoal. destruct (w_goalArmed w); cbn in *; lia.
  - constructor.
    + cbn. by rewrite foldl_app, Hl.
    + exists logged, gone. split_and!; [|done..]. cbn. rewrite Hs. solve_Permutation.
    + cbn. apply Forall_app_2; [done|by apply Forall_singleton].
    + cbn. rewrite bind_snoc, length_app. destruct op; cbn in *; rewrite ?andb_true_r, ?andb_false_r; try lia.
      rewrite (Hmay eq_refl) in Hgoal. lia.
  - rewrite Hp in Hs. pose proof (append_event m0 w op (p ++ q)) as Ha.
    assert (w_live (append run w op (p ++ q)) = w_live w /\ w_made (append run w op (p ++ q)) = w_made w /\
            w_pending (append run w op (p ++ q)) = p ++ q /\ w_failed w ⊆+ w_failed (append run w op (p ++ q)) /\
            w_goalDue (append run w op (p ++ q)) = w_goalDue w /\ w_goalArmed (append run w op (p ++ q)) = w_goalArmed w)
      as (E1 & E2 & E3 & E4 & E5 & E6).
    { unfold append. destruct (log_append _ _) as [l r]. cbn. split_and!; try done. destruct (is_ok r); [done|]. by apply submseteq_inserts_r. }
    constructor; rewrite ?E1, ?E2, ?E3, ?E5, ?E6; [done| |done..]. destruct Ha as [Ha|[Ha Hf]].
    + exists (logged ++ [op]), gone. split_and!; [rewrite Hs; solve_Permutation|by etrans|].
      rewrite Ha, Hr, map_app, foldl_app. done.
    + exists logged, (gone ++ [op]). split_and!; [rewrite Hs; solve_Permutation| |congruence].
      rewrite Hf. by apply submseteq_app.
  - constructor; [done| |done..]. exists logged, gone. split_and!; [done..|].
    cbn. destruct (log_append_events (w_log w) b run Hrun Hb) as (n & seqs & _ & Hlen & He).
    unfold rebuilt_of in *. cbn. rewrite He, foldl_app, fold_memory_seqs, fold_memory_other by (done || by apply Forall_take). done.
Qed.

Lemma accounted_reach m0 l w : log_events l run = [] -> rtc (wstep run) (w_init m0 l) w -> accounted m0 w.
Proof.
  intros Hl Hr. assert (accounted m0 (w_init m0 l)) as Hi.
  { constructor; [done| |constructor|cbn; lia]. exists [], []. split_and!; [done..|]. unfold rebuilt_of. cbn. by rewrite Hl. }
  induction Hr as [|w1 w2 w3 Hs _ IH]; [done|]. apply IH. by eapply accounted_step.
Qed.

Lemma map_stored_valid ops : Forall op_valid ops -> map stored_op ops = ops.
Proof. induction 1 as [|op ops Ho _ IH]; [done|]. cbn. by rewrite stored_valid, IH. Qed.

(** A goal is set at most once: it is in the log, or it is missing. *)
Lemma goal_of_split g0 made logged missing : made ≡ₚ logged ++ missing -> length (made ≫= op_goals) <= 1 ->
  default g0 (last (logged ≫= op_goals)) = if existsb is_goal missing then g0 else default g0 (last (made ≫= op_goals)).
Proof.
  intros Hp Hlen. assert (made ≫= op_goals ≡ₚ (logged ≫= op_goals) ++ (missing ≫= op_goals)) as Hg by (by rewrite Hp, bind_app).
  assert (existsb is_goal missing = negb (bool_decide (missing ≫= op_goals = []))) as ->.
  { clear. by induction missing as [|[g|a|l|node a] ops IH]. }
  rewrite Hg, length_app in Hlen. destruct (missing ≫= op_goals) as [|g gs]; cbn [bool_decide negb].
  - rewrite app_nil_r in Hg. destruct (logged ≫= op_goals) as [|x [|]].
    + apply Permutation_nil_r in Hg. by rewrite Hg.
    + symmetry in Hg. apply Permutation_length_1_inv in Hg. by rewrite Hg.
    + cbn in Hlen. lia.
  - destruct (logged ≫= op_goals); [done|]. cbn in Hlen. lia.
Qed.
End WriterFacts.

(** The setters of the kernel are an update and the append of its event. *)
Lemma setters_are_writers {L} `{EventLog L} (c : KConfig) (s : KState L) :
  (forall g, op_valid (OpGoal g) ->
     SetTaskGoal c s g = k_append (set_task s (op_apply (k_task s, []) (OpGoal g)).1) (op_event (cfg_RunID c) (OpGoal g))) /\
  (forall a, op_valid (OpStep a) -> op_made (OpStep a) = true ->
     AddTaskCompletedStep c s a = k_append (set_task s (op_apply (k_task s, []) (OpStep a)).1) (op_event (cfg_RunID c) (OpStep a))) /\
  (forall l, op_valid (OpForbid l) -> op_made (OpForbid l) = true ->
     AddTaskForbidden c s l = k_append (set_task s (op_apply (k_task s, []) (OpForbid l)).1) (op_event (cfg_RunID c) (OpForbid l))).
Proof.
  split_and!.
  - intros g Hv. cbn [op_event]. by injection (stored_valid _ Hv) as ->.
  - intros a Hv Ha. cbn [op_event]. injection (stored_valid _ Hv) as ->. unfold AddTaskCompletedStep.
    rewrite bool_decide_false; [done|]. by intros ->.
  - intros l Hv Hl. cbn [op_event]. injection (stored_valid _ Hv) as ->. by destruct l.
Qed.

(** * The log and the live state agree

    In the kernel of Kernel.v an update and the append of its event are one step. *)

Section Sync.
Context {L : Type} `{EventLogTotal L} (c : KConfig).
Let run := cfg_RunID c.
Context (Hrun : run <> "").
Context (m0 : memory).

Definition logged (s : KState L) : memory := foldl memory_event m0 (log_events (k_log s) run).

(** A step that leaves the annotations alone on both sides and keeps the two
    task states equal. *)
Record keeps (s s' : KState L) : Prop := {
  kp_task : (logged s).1 = k_task s -> (logged s').1 = k_task s';
  kp_logged : (logged s').2 = (logged s).2;
  kp_live : rs_failureAnnotations (k_run s') = rs_failureAnnotations (k_run s)
}.

#[local] Instance keeps_refl : Reflexive keeps.
Proof. by constructor. Qed.
#[local] Instance keeps_trans : Transitive keeps.
Proof. intros s1 s2 s3 [] []. constructor; [auto|congruence..]. Qed.

Lemma logged_append s b :
  batch_of run b -> logged (k_append s b).1 = foldl memory_event (logged s) b.
Proof.
  intros Hb. destruct (log_append_total (k_log s) b run Hrun Hb) as (seqs & Hlen & He).
  unfold logged, k_append. destruct (log_append _ _) as [l r]. cbn [fst] in *. cbn.
  rewrite He, foldl_app. by apply fold_memory_seqs.
Qed.

Lemma append_ok s b : batch_of run b -> (k_append s b).2 = None.
Proof.
  intros Hb. pose proof (log_append_ok (k_log s) b run Hrun Hb) as Hok.
  unfold k_append. destruct (log_append _ _) as [l [z|e]]; [done|]. done.
Qed.

Lemma append_frame s b : k_task (k_append s b).1 = k_task s /\ k_run (k_append s b).1 = k_run s.
Proof. unfold k_append. by destruct (log_append _ _). Qed.

Lemma batch_one node kind p : batch_of run (AppendKind [] run node kind p).
Proof. apply Forall_singleton. done. Qed.

Lemma logged_one s node kind p :
  logged (k_append s (AppendKind [] run node kind p)).1 =
  memory_event (logged s) {| ev_Seq := 0; ev_RunID := run; ev_NodeID := node; ev_Kind := kind; ev_Payload := p |}.
Proof. by rewrite logged_append by apply batch_one. Qed.

Lemma keeps_append s b :
  batch_of run b -> Forall (fun e => ev_Kind e ∉ memoryKinds) b -> keeps s (k_append s b).1.
Proof.
  intros Hb Hk. destruct (append_frame s b) as [Ht Hr].
  constructor; rewrite ?Ht, ?Hr, ?logged_append, ?fold_memory_other by done; done.
Qed.

(** Steps outside the run state, the task state and the log. *)
Lemma keeps_frame s s' : k_log s' = k_log s -> k_task s' = k_task s ->
  rs_failureAnnotations (k_run s') = rs_failureAnnotations (k_run s) -> keeps s s'.
Proof. intros Hl Ht Hr. constructor; unfold logged; rewrite ?Hl, ?Ht; done. Qed.

Lemma keeps_fail s e : keeps s (fail_with s e).
Proof. apply keeps_frame; unfold fail_with; by destruct (k_firstErr s). Qed.

Lemma goal_event m node goal :
  memory_event m {| ev_Seq := 0; ev_RunID := run; ev_NodeID := node; ev_Kind := EventTaskGoalSet;
                    ev_Payload := [("goal", VStr goal)] |} = (TaskState.SetGoal m.1 goal, m.2).
Proof. reflexivity. Qed.

Lemma summary_event m node a :
  memory_event m {| ev_Seq := 0; ev_RunID := run; ev_NodeID := node; ev_Kind := EventTaskStepCompleted;
                    ev_Payload := [("summary", VStr a)] |} = (TaskState.AddCompletedStep m.1 a, m.2).
Proof. reflexivity. Qed.

Lemma keeps_SetTaskGoal s goal : keeps s (SetTaskGoal c s goal).1.
Proof.
  unfold SetTaskGoal. match goal with |- context [k_append ?x ?y] => destruct (append_frame x y) as [Ht Hr] end.
  constructor; rewrite ?Ht, ?Hr; fold run; rewrite ?logged_one, ?goal_event; try done.
  cbn. intros Hs. f_equal. exact Hs.
Qed.

Lemma keeps_AddTaskCompletedStep s a : keeps s (AddTaskCompletedStep c s a).1.
Proof.
  unfold AddTaskCompletedStep. case_bool_decide; [done|].
  match goal with |- context [k_append ?x ?y] => destruct (append_frame x y) as [Ht Hr] end.
  constructor; rewrite ?Ht, ?Hr; fold run; rewrite ?logged_one, ?summary_event; try done.
  cbn. intros Hs. f_equal. exact Hs.
Qed.

Lemma forbidden_event m node l :
  memory_event m {| ev_Seq := 0; ev_RunID := run; ev_NodeID := node; ev_Kind := EventTaskForbidden;
                    ev_Payload := [("actions", VList (map VStr l))] |} = (TaskState.AddForbidden m.1 l, m.2).
Proof.
  unfold memory_event. cbn [ev_Kind ev_Payload]. do 3 (rewrite bool_decide_false by done).
  rewrite bool_decide_true by done. unfold field_strs. cbn [assoc].
  rewrite bool_decide_true by done. by rewrite strs_of_map.
Qed.

Lemma keeps_AddTaskForbidden s l : keeps s (AddTaskForbidden c s l).1.
Proof.
  unfold AddTaskForbidden. destruct l as [|a l]; [done|].
  match goal with |- context [k_append ?x ?y] => destruct (append_frame x y) as [Ht Hr] end.
  constructor; rewrite ?Ht, ?Hr; fold run; rewrite ?logged_one, ?forbidden_event; try done.
  cbn. intros Hs. f_equal. exact Hs.
Qed.

Lemma keeps_armTaskGoal s goal : keeps s (armTaskGoal c s goal).
Proof.
  unfold armTaskGoal. case_if; [done|]. case_bool_decide; [by apply keeps_frame|].
  etrans; [|apply keeps_SetTaskGoal]. by apply keeps_frame.
Qed.

Lemma keeps_armRecovery s : keeps s (armRecovery c s).
Proof. unfold armRecovery. case_if; [done|]. etrans; [|apply keeps_armTaskGoal]. by apply keeps_frame. Qed.

Lemma keeps_armGoalFromNode s nd outs : keeps s (armGoalFromNode c s nd outs).
Proof. unfold armGoalFromNode. case_if; [done|apply keeps_armTaskGoal]. Qed.

Lemma keeps_recordStep s nd b : keeps s (recordStep c s nd b).
Proof. unfold recordStep. case_if; [apply keeps_AddTaskCompletedStep|done]. Qed.

Lemma keeps_emitCapHit s kind reason limit used :
  kind ∉ memoryKinds -> keeps s (emitCapHit c s kind reason limit used).1.
Proof. intros Hk. apply keeps_append; [apply batch_one|]. by apply Forall_singleton. Qed.

Lemma cap_kinds : EventBudgetCapHit ∉ memoryKinds /\ EventCostCapHit ∉ memoryKinds.
Proof. split; apply (bool_decide_unpack _); reflexivity. Qed.

Lemma keeps_checkBudget now s : keeps s (checkBudget c now s).1.
Proof.
  destruct cap_kinds as [Hk1 Hk2]. unfold checkBudget.
  repeat case_if; try done; by apply keeps_emitCapHit.
Qed.

Lemma run_ops_annotations l r : rs_failureAnnotations (foldl run_op r l) = rs_failureAnnotations r.
Proof.
  revert r. induction l as [|[k v|k|k] l IH]; intros r; [done|..]; cbn [foldl]; rewrite IH; try done.
  unfold run_op, RecordToolCall. by destruct (DoomLoop.touch _ _).
Qed.

Lemma keeps_effect s f : keeps s (apply_effect s f).
Proof. apply keeps_frame; try done. cbn. apply run_ops_annotations. Qed.

(** Executors write events of their own run and none of the memory kinds. *)
Definition executor_event (e : Event) : Prop :=
  (ev_RunID e = "" \/ ev_RunID e = run) /\ ev_Kind e ∉ memoryKinds.

Definition executor_events (s : KState L) (a : KAct) : Prop :=
  match a with
  | ActMain => True
  | ActProc _ o => Forall executor_event (match o_outcome o with OutOk r => r_Events r | OutErr evs _ => evs end)
  end.

Definition neutral (b : EventBatch) : Prop := batch_of run b /\ Forall (fun e => ev_Kind e ∉ memoryKinds) b.

Lemma neutral_app b1 b2 : neutral b1 -> neutral b2 -> neutral (b1 ++ b2).
Proof. intros [] []. split; by apply Forall_app_2. Qed.

Lemma neutral_one node kind p : kind ∉ memoryKinds -> neutral (AppendKind [] run node kind p).
Proof. intros. split; by apply Forall_singleton. Qed.

Lemma neutral_start nd evs : Forall executor_event evs -> neutral (startBatch c nd evs).
Proof.
  intros He. apply neutral_app; [apply neutral_one; apply (bool_decide_unpack _); reflexivity|].
  split; apply Forall_fmap, (Forall_impl _ _ _ He); intros e [Hr Hk]; [|done].
  cbn. fold run. case_bool_decide; [done|]. by destruct Hr.
Qed.

Lemma keeps_step_budget now s id : keeps s (step_budget c now s id).1.
Proof.
  unfold step_budget. pose proof (keeps_checkBudget now s) as Hb.
  destruct (checkBudget _ _ _) as [s1 [e|]]; cbn [fst] in *; (etrans; [exact Hb|]); [apply keeps_fail|].
  destruct (nodesByID _ !! _); [destruct (cfg_registry c !! _)|]; cbn [fst]; try done; [apply keeps_fail|].
  etrans; [|apply keeps_fail]. by apply keeps_frame.
Qed.

Lemma keeps_neutral s b : neutral b -> keeps s (k_append s b).1.
Proof. intros []. by apply keeps_append. Qed.

Lemma keeps_step_exec s id f out :
  Forall executor_event (match out with OutOk r => r_Events r | OutErr evs _ => evs end) ->
  keeps s (step_exec c s id f out).1.
Proof.
  intros He. unfold step_exec. etrans; [apply (keeps_effect s f)|].
  generalize (apply_effect s f) as s1. intros s1.
  destruct (nodesByID _ !! _) as [nd|]; [|done]. destruct out as [r|evs e].
  - unfold step_exec_ok. fold run.
    match goal with |- context [k_append ?x (AppendKind ?b run ?n ?k ?p)] =>
      assert (keeps x (k_append x (AppendKind b run n k p)).1) as Ha end.
    { apply keeps_neutral, neutral_app; [by apply neutral_start|].
      apply (neutral_one _ EventNodeComplete). apply (bool_decide_unpack _); reflexivity. }
    destruct (k_append _ _) as [s2 le]. cbn [fst] in *. etrans; [exact Ha|].
    destruct le; [etrans; [apply keeps_fail|]|]; by apply keeps_frame.
  - unfold step_exec_err. fold run.
    match goal with |- context [k_append ?x (AppendKind ?b run ?n ?k ?p)] =>
      assert (keeps x (k_append x (AppendKind b run n k p)).1) as Ha end.
    { apply keeps_neutral, neutral_app; [by apply neutral_start|].
      apply (neutral_one _ EventNodeError). apply (bool_decide_unpack _); reflexivity. }
    destruct (k_append _ _) as [s2 lerr]. cbn [fst] in *. etrans; [exact Ha|]. cbn zeta.
    destruct (k_firstErr (set_inFlight _ _)); repeat case_if; by apply keeps_frame.
Qed.

Lemma keeps_step_err s e : keeps s (step_err c s e).
Proof.
  unfold step_err. destruct (ke_denied e); [|apply keeps_armRecovery].
  case_bool_decide; [apply keeps_armRecovery|].
  etrans; [apply keeps_armRecovery|apply keeps_AddTaskForbidden].
Qed.

Lemma keeps_step_topo s nd r v err : keeps s (step_topo c s nd r v err).1.
Proof.
  unfold step_topo.
  match goal with |- context [let '(_, _) := ?x in _] => assert (keeps s x.1) as Hr; [|destruct x as [s1 b1]] end.
  { destruct v as [t|]; [|done]. unfold apply_refire. destruct (foldl _ _ _). by apply keeps_frame. }
  cbn [fst] in Hr. etrans; [exact Hr|].
  match goal with |- context [match err with Some e => fail_with ?x e | None => ?x end] =>
    assert (keeps s1 (match err with Some e => fail_with x e | None => x end)) as Hq;
    [|generalize dependent (match err with Some e => fail_with x e | None => x end)] end.
  { assert (forall x, keeps s1 x -> keeps s1 (match err with Some e => fail_with x e | None => x end)) as Hf.
    { intros x Hx. destruct err; [etrans; [exact Hx|apply keeps_fail]|done]. }
    apply Hf. case_if; by apply keeps_frame. }
  intros s2 Hq. etrans; [exact Hq|].
  destruct (r_Pause r); [by apply keeps_frame|]. case_if; destruct v, b1; by apply keeps_frame.
Qed.

Lemma keeps_step_post s nd r sd sk ls : keeps s (step_post c s nd r sd sk ls).1.
Proof.
  unfold step_post. cbn [fst]. etrans; [|apply keeps_recordStep]. etrans; [|apply keeps_armGoalFromNode].
  destruct sk as [|x sk]; [done|].
  match goal with |- context [k_append ?a ?b] => assert (keeps a (k_append a b).1) as Ha end.
  { apply keeps_neutral. split; apply Forall_fmap, Forall_forall; intros [[? ?] ?] _; [done|].
    apply (bool_decide_unpack _); reflexivity. }
  destruct (k_append _ _) as [s2 [le|]]; cbn [fst] in *; [|done]. etrans; [exact Ha|apply keeps_fail].
Qed.

(** Memory in the log and memory in the live run are equal. *)
Definition synced (s : KState L) : Prop := logged s = (k_task s, rs_failureAnnotations (k_run s)).

Lemma keeps_synced s s' : keeps s s' -> synced s -> synced s'.
Proof.
  intros [Ht Hl Ha] Hs. unfold synced in *. rewrite Hs in *. cbn in *.
  rewrite (surjective_pairing (logged s')), Hl, Ht, Ha by done. done.
Qed.

Lemma backtrack_event m node t r a n :
  memory_event m {| ev_Seq := 0; ev_RunID := run; ev_NodeID := node; ev_Kind := EventBacktrackFired;
    ev_Payload := [("target", VStr t); ("reason", VStr r); ("rejected_approach", VStr a); ("iteration", VInt n)] |} =
  (m.1, m.2 ++ [{| fa_Node := t; fa_Reason := r; fa_RejectedApproach := a; fa_Iteration := n |}]).
Proof. done. Qed.

(** The annotation goes into the run state first, its event last; in between
    come bookkeeping steps that keep both. *)
Lemma synced_fired s1 s2 node anns t r a n :
  logged s1 = (k_task s1, anns) ->
  rs_failureAnnotations (k_run s1) =
    anns ++ [{| fa_Node := t; fa_Reason := r; fa_RejectedApproach := a; fa_Iteration := n |}] ->
  keeps s1 s2 ->
  synced (k_append s2 (AppendKind [] run node EventBacktrackFired
    [("target", VStr t); ("reason", VStr r); ("rejected_approach", VStr a); ("iteration", VInt n)])).1.
Proof.
  intros Hlog Hann [Ht Hl Ha]. unfold synced. rewrite logged_one, backtrack_event.
  match goal with |- context [k_append ?x ?y] => destruct (append_frame x y) as [-> ->] end.
  rewrite Hl, Ha, Hann, Ht, Hlog; [done|]. by rewrite Hlog.
Qed.

Lemma synced_step_resolve s id r : synced s -> synced (step_resolve c s id r).1.
Proof.
  intros Hs. unfold step_resolve. destruct (resolveBacktrack r) as [bt|]; [|done].
  case_if; [done|]. destruct (nodesByID _ !! _); [|done].
  destruct (AddBacktrack (k_counters s)) as [cs used].
  case_if; [apply (keeps_synced s); [|done]; cbn [fst];
            etrans; [|apply keeps_emitCapHit, cap_kinds]; by apply keeps_frame|].
  match goal with |- context [k_append ?x (AppendKind [] _ _ _ ?p)] =>
    assert (synced (k_append x (AppendKind [] run id EventBacktrackFired p)).1) as Hf end.
  { eapply (synced_fired (set_run (set_counters s cs) (AddFailureAnnotation (k_run s)
             {| fa_Node := bt_TargetNode bt; fa_Reason := bt_Reason bt;
                fa_RejectedApproach := bt_RejectedApproach bt; fa_Iteration := used |})));
      [exact Hs|done|].
    case_if; [apply keeps_armRecovery|etrans; [apply keeps_armRecovery|apply keeps_AddTaskForbidden]]. }
  fold run. by destruct (k_append _ _) as [s3 le].
Qed.

Lemma synced_step s a s' : synced s -> executor_events s a -> kstep c a s = Some s' -> synced s'.
Proof.
  intros Hs He Hstep.
  assert (forall (x : KState L) seeds ps, synced x -> synced (set_procs x seeds ps)) as Hset by done.
  destruct a as [|i o]; cbn in Hstep.
  - destruct (k_seeds s); [done|]. destruct (slot_free c s); inv_ok. by apply Hset.
  - destruct (k_procs s !! i) as [p|] eqn:Hp; [|done].
    assert (synced (step_phase c o s p).1) as Hph.
    { unfold step_phase. destruct (p_phase p) as [| |inp|e|r|r|r v err|r sd sk ls|ls]; try done.
      - unfold step_spawn. destruct (k_firstErr s); [done|]. by destruct (k_pause s).
      - eapply keeps_synced; [apply keeps_step_budget|done].
      - eapply keeps_synced; [by apply keeps_step_exec|done].
      - eapply keeps_synced; [apply keeps_step_err|done].
      - eapply keeps_synced; [|done]. unfold step_stale. repeat case_if; by apply keeps_frame.
      - by apply synced_step_resolve.
      - destruct (nodesByID _ !! _); [|done]. eapply keeps_synced; [apply keeps_step_topo|done].
      - destruct (nodesByID _ !! _); [|done]. eapply keeps_synced; [apply keeps_step_post|done]. }
    destruct (step_phase c o s p) as [s1 oph]. cbn [fst] in *.
    destruct (p_phase p) as [| | | | | | | |[|x ls]]; try destruct (slot_free c s); inv_ok; by apply Hset.
Qed.

Lemma synced_init rs cs ts l s0 :
  m0 = (ts, rs_failureAnnotations rs) -> log_events l run = [] ->
  kinit c rs cs ts l = Ok s0 -> synced s0.
Proof.
  intros Hm Hl. unfold kinit. fold run.
  set (b := AppendKind [] run "" EventRunStart (startPayload c)).
  assert (neutral b) as [Hb Hk] by (apply neutral_one; apply (bool_decide_unpack _); reflexivity).
  destruct (log_append_total l b run Hrun Hb) as (seqs & Hlen & He).
  destruct (log_append l b) as [l1 [z|e]]; [|done]. cbn [fst] in He.
  case_bool_decide; [done|]. destruct (List.find _ _); [done|]. intros [= <-].
  match goal with |- context [armTaskGoal c ?x _] => assert (synced x) as Hx end.
  { unfold synced, logged. cbn. rewrite He, Hl, app_nil_l, fold_memory_seqs, fold_memory_other by done. done. }
  case_if; [|done]. eapply keeps_synced; [apply keeps_armTaskGoal|done].
Qed.
End Sync.
