(* ===== verification/KernelDemo.v ===== *)
(** Small concrete kernel runs that the witnesses evaluate: a fork graph, its
    schedules, and a decision procedure for the side conditions on actions. *)
From S2P Require Import Prelude GoString AgentGraph EventLog RunState Kernel KernelSafety KernelForward Rebuild.

Definition d_node (id kind : string) : Node :=
  {| n_id := id; n_kind := kind; n_title := ""; n_inputs := []; n_outputs := []; n_attrs := AOther; n_dials := [] |}.

Definition d_edge (a b : string) : Edge :=
  {| e_from := {| ep_node := a; ep_port := "out" |}; e_to := {| ep_node := b; ep_port := "in" |} |}.

Definition d_budget : Budget :=
  {| b_MaxTokensPerRun := 0; b_MaxWallclockPerRunSecs := 0; b_MaxLLMCallsPerRun := 0;
     b_MaxToolCallsPerRun := 0; b_MaxCostUSDPerRun := 0; b_DoomLoopThreshold := 0;
     b_MaxBacktracksPerRun := 0 |}.

Definition d_counters : RunCounters :=
  {| rc_LLMTokensUsed := 0; rc_LLMCallsMade := 0; rc_ToolCallsMade := 0; rc_CostUSD := 0;
     rc_WallclockStart := 0; rc_BacktracksUsed := 0 |}.

(** A decision executor that only keeps the edges out of its port "yes" alive. *)
Definition d_registry : gmap string Executor :=
  <["model" := {| ex_router := None |}]>
    {["decision" := {| ex_router := Some (fun _ _ => Some (fun e => bool_decide (ep_port (e_from e) = "yes"))) |}]}.

Definition d_config (g : Graph) (slots : nat) : KConfig :=
  {| cfg_graph := g; cfg_registry := d_registry; cfg_maxInFlight := slots; cfg_RunID := "r1";
     cfg_SessionID := ""; cfg_Budget := d_budget; cfg_armAlways := false; cfg_history := None |}.

(** a feeds b and c. *)
Definition d_fork : Graph :=
  {| g_spec_version := "1"; g_dials := []; g_id := "fork"; g_nodes := [d_node "a" "model"; d_node "b" "model"; d_node "c" "model"];
     g_edges := [d_edge "a" "b"; d_edge "a" "c"]; g_entrypoints := ["a"] |}.

(** a feeds the decision d, whose ports yes and no feed b and c; both feed e. *)
Definition d_diamond : Graph :=
  {| g_spec_version := "1"; g_dials := []; g_id := "diamond";
     g_nodes := [d_node "a" "model"; d_node "d" "decision"; d_node "b" "model"; d_node "c" "model"; d_node "e" "model"];
     g_edges := [d_edge "a" "d";
                 {| e_from := {| ep_node := "d"; ep_port := "yes" |}; e_to := {| ep_node := "b"; ep_port := "in" |} |};
                 {| e_from := {| ep_node := "d"; ep_port := "no" |}; e_to := {| ep_node := "c"; ep_port := "in" |} |};
                 d_edge "b" "e"; d_edge "c" "e"];
     g_entrypoints := ["a"] |}.

(** The decision takes its yes port. *)
Definition d_live (e : Edge) : bool :=
  negb (bool_decide (e_src e = "d")) || bool_decide (ep_port (e_from e) = "yes").

(** A root with eight children, each of which has a child of its own. *)
Definition d_wide_ids : list string := ["1"; "2"; "3"; "4"; "5"; "6"; "7"; "8"].
Definition d_wide : Graph :=
  {| g_spec_version := "1"; g_dials := []; g_id := "wide";
     g_nodes := d_node "a" "model" :: map (fun i => d_node ("b" +:+ i) "model") d_wide_ids ++
                map (fun i => d_node ("c" +:+ i) "model") d_wide_ids;
     g_edges := map (fun i => d_edge "a" ("b" +:+ i)) d_wide_ids ++
                map (fun i => d_edge ("b" +:+ i) ("c" +:+ i)) d_wide_ids;
     g_entrypoints := ["a"] |}.

Definition d_out (v : string) : Result :=
  {| r_Outputs := {["out" := VStr v]}; r_Events := []; r_Pause := false; r_PauseReason := "";
     r_Backtrack := None |}.
Definition d_rewind (v target : string) : Result :=
  {| r_Outputs := {["out" := VStr v]}; r_Events := []; r_Pause := false; r_PauseReason := "";
     r_Backtrack := Some {| bt_TargetNode := target; bt_Reason := "rejected"; bt_RejectedApproach := "first try" |} |}.

(** One step of the i-th goroutine; only the step that ends the executor looks
    at the result. *)
Definition d_act (i : nat) (r : Result) : KAct :=
  ActProc i {| o_now := 0; o_effect := no_effect; o_outcome := OutOk r |}.
Definition d_acts (i n : nat) (r : Result) : list KAct := repeat (d_act i r) n.

Definition d_start (c : KConfig) : KState MemLog.memEventLog :=
  match kinit c NewRunState d_counters TaskState.NewTaskState MemLog.NewMemoryEventLog with
  | Ok s => s
  | Err _ => {| k_inDeg := ∅; k_liveIn := ∅; k_completed := ∅; k_skipped := ∅; k_inFlight := ∅;
                k_generation := ∅; k_firstErr := None; k_pause := false; k_pauseReason := "";
                k_goalArmed := false; k_recoveryArmed := false; k_run := NewRunState;
                k_counters := d_counters; k_task := TaskState.NewTaskState;
                k_log := MemLog.NewMemoryEventLog; k_seeds := []; k_procs := [] |}
  end.

Definition d_after (c : KConfig) (acts : list KAct) : KState MemLog.memEventLog :=
  default (d_start c) (krun c acts (d_start c)).

(** The race: b has passed the stale check when c rewinds to a. *)
Definition d_race : list KAct :=
  [ActMain] ++ d_acts 0 9 (d_out "v0") ++ [d_act 0 (d_out "")] ++
  d_acts 0 5 (d_out "b0") ++ d_acts 1 8 (d_rewind "c0" "a") ++
  d_acts 1 1 (d_out "").

(** The race played to its end: b's stale success stands, only a and c re-fire. *)
Definition d_race_full : list KAct :=
  d_race ++ d_acts 0 3 (d_out "b0") ++ d_acts 0 9 (d_out "v1") ++ d_acts 0 8 (d_out "c1").

Definition d_diamond_run : list KAct :=
  [ActMain] ++ d_acts 0 9 (d_out "v") ++ d_acts 0 9 (d_out "v") ++ d_acts 0 9 (d_out "v") ++ d_acts 0 8 (d_out "v").

(** Every node of the wide graph that got a slot has succeeded. *)
Definition d_wide_run : list KAct :=
  [ActMain] ++ d_acts 0 7 (d_out "v") ++ d_acts 0 7 (d_out "v") ++
  concat (map (fun i => d_acts i 7 (d_out "v")) (seq 1 7)).

(** Node ids of the start events in the log, in order. *)
Definition d_started (s : KState MemLog.memEventLog) : list string :=
  omap (fun e => if bool_decide (ev_Kind e = EventNodeStart) then Some (ev_NodeID e) else None)
       (log_events (k_log s) "r1").

(** * Checking the side conditions along a run *)

Section Check.
Context {L : Type} `{EventLog L} (c : KConfig).

Fixpoint krun_checked (ok : KState L -> KAct -> bool) (acts : list KAct) (s : KState L) : bool :=
  match acts with
  | [] => true
  | a :: acts => ok s a && match kstep c a s with Some s' => krun_checked ok acts s' | None => false end
  end.

Lemma krun_checked_reach ok allowed acts s0 s :
  (forall s a, ok s a = true -> allowed s a) ->
  kreach c allowed s0 s -> krun_checked ok acts s = true ->
  exists s', krun c acts s = Some s' /\ kreach c allowed s0 s'.
Proof.
  intros Hok. revert s. induction acts as [|a acts IH]; intros s Hr Hc; [by exists s|].
  cbn in *. apply andb_true_iff in Hc as [Ha Hc].
  destruct (kstep c a s) as [s1|] eqn:Hs; [|done].
  apply IH; [|done]. eapply kreach_step; [exact Hr|by apply Hok|exact Hs].
Qed.

(** The same, with the number of steps. *)
Lemma krun_checked_runs ok allowed acts s0 k s :
  (forall s a, ok s a = true -> allowed s a) ->
  kruns c allowed s0 k s -> krun_checked ok acts s = true ->
  exists s', krun c acts s = Some s' /\ kruns c allowed s0 (length acts + k) s'.
Proof.
  intros Hok. revert k s. induction acts as [|a acts IH]; intros k s Hr Hc; [by exists s|].
  cbn in *. apply andb_true_iff in Hc as [Ha Hc].
  destruct (kstep c a s) as [s1|] eqn:Hs; [|done].
  rewrite <- Nat.add_succ_r. apply IH; [|done]. eapply kruns_S; [exact Hr|by apply Hok|exact Hs].
Qed.

Definition rewinds_upstreamb (s : KState L) (a : KAct) : bool :=
  match a with
  | ActMain => true
  | ActProc i o =>
      match k_procs s !! i, o_outcome o with
      | Some p, OutOk r =>
          match resolveBacktrack r with
          | None => true
          | Some bt => bool_decide (p_node p ∈ default [] (descendantsInclusive (cfg_graph c) (bt_TargetNode bt)))
          end
      | _, _ => true
      end
  end.

Lemma rewinds_upstreamb_spec s a : rewinds_upstreamb s a = true -> rewinds_upstream c s a.
Proof.
  destruct a as [|i o]; [done|]. intros Hb p r Hp Ho bt Hbt. unfold rewinds_upstreamb in Hb.
  rewrite Hp, Ho, Hbt in Hb.
  destruct (descendantsInclusive_spec (cfg_graph c) (bt_TargetNode bt)) as (l & Hl & _ & Hr).
  rewrite Hl in Hb. apply bool_decide_eq_true in Hb. by apply Hr.
Qed.

Definition plain_resultsb (lv : Edge -> bool) (s : KState L) (a : KAct) : bool :=
  match a with
  | ActMain => true
  | ActProc i o =>
      match k_procs s !! i, o_outcome o with
      | Some p, OutOk r =>
          match resolveBacktrack r with None => true | Some _ => false end && negb (r_Pause r) &&
          match nodesByID (cfg_graph c) !! p_node p with
          | None => true
          | Some nd => forallb (fun e => Bool.eqb (live_under (edgeLivenessFor c nd (r_Outputs r)) e) (lv e))
                               (outEdges (cfg_graph c) (p_node p))
          end
      | _, _ => true
      end
  end.

Lemma plain_resultsb_spec lv s a : plain_resultsb lv s a = true -> plain_results c lv s a.
Proof.
  destruct a as [|i o]; [done|]. unfold plain_resultsb, plain_results. intros Hb p r Hp Ho.
  rewrite Hp, Ho in Hb. apply andb_true_iff in Hb as [Hb Hl]. apply andb_true_iff in Hb as [Hb Hpa].
  split; [by destruct (resolveBacktrack r)|]. split; [by apply negb_true_iff|].
  intros nd e Hnd He. rewrite Hnd, forallb_forall in Hl.
  by apply Bool.eqb_prop, Hl, list_elem_of_In.
Qed.

Definition executor_eventsb (s : KState L) (a : KAct) : bool :=
  match a with
  | ActMain => true
  | ActProc _ o =>
      forallb (fun e => (bool_decide (ev_RunID e = "") || bool_decide (ev_RunID e = cfg_RunID c)) &&
                        bool_decide (ev_Kind e ∉ memoryKinds))
              (match o_outcome o with OutOk r => r_Events r | OutErr evs _ => evs end)
  end.

Lemma executor_eventsb_spec s a : executor_eventsb s a = true -> executor_events c s a.
Proof.
  destruct a as [|i o]; [done|]. cbn. generalize (match o_outcome o with OutOk r => r_Events r | OutErr evs _ => evs end).
  intros l Hl. apply Forall_forall. intros e He. rewrite forallb_forall in Hl.
  specialize (Hl e (proj1 (list_elem_of_In _ _) He)). apply andb_true_iff in Hl as [H1 H2].
  split; [|by apply bool_decide_eq_true in H2]. apply orb_true_iff in H1 as [H1|H1];
    apply bool_decide_eq_true in H1; auto.
Qed.
End Check.

(** A checked run of a demo configuration ends in the state [d_after] computes. *)
Lemma d_after_reach c ok allowed acts :
  (forall s a, ok s a = true -> allowed s a) ->
  krun_checked c ok acts (d_start c) = true -> kreach c allowed (d_start c) (d_after c acts).
Proof.
  intros Hok Hc. destruct (krun_checked_reach c ok allowed acts (d_start c) (d_start c) Hok
    (kreach_refl c _ _) Hc) as (s & Hs & Hr).
  unfold d_after. by rewrite Hs.
Qed.

Lemma d_after_runs c ok allowed acts :
  (forall s a, ok s a = true -> allowed s a) ->
  krun_checked c ok acts (d_start c) = true -> kruns c allowed (d_start c) (length acts) (d_after c acts).
Proof.
  intros Hok Hc. destruct (krun_checked_runs c ok allowed acts (d_start c) 0 (d_start c) Hok
    (kruns_0 c _ _) Hc) as (s & Hs & Hr).
  unfold d_after. by rewrite Hs, <- (Nat.add_0_r (length acts)).
Qed.
