(* ===== verification/KernelProps.v ===== *)
(** What the agent-graph kernel guarantees: the theorems about every
    interleaving of a run, each with a concrete run it applies to. *)
From S2P Require Import Prelude GoString AgentGraph EventLog RunState Kernel KernelSafety KernelForward Rebuild KernelDemo.

Definition any_action {L} (s : KState L) (a : KAct) : Prop := True.

Section Always.
Context {L : Type} `{EventLog L} (c : KConfig).

(** Invariants hold at every reachable state. *)
Lemma kreach_inv allowed (I : KState L -> Prop) s0 s :
  I s0 -> (forall s a s', I s -> allowed s a -> kstep c a s = Some s' -> I s') ->
  kreach c allowed s0 s -> I s.
Proof. intros H0 Hstep. induction 1 as [|s a s' _ IH Ha Hs]; [done|by eapply Hstep]. Qed.

Lemma bt_inv_init rs cs ts l s0 :
  (0 <= rc_BacktracksUsed cs)%Z -> kinit c rs cs ts l = Ok s0 -> bt_inv c s0.
Proof.
  intros Hu (Hp & _ & _ & Hg & _ & _ & _ & _ & _ & _ & Hc)%kinit_ok id.
  rewrite Hp, Hg. unfold used, zget. rewrite Hc, lookup_empty. cbn. unfold maxBacktracks, DefaultMaxBacktracksPerRun.
  case_match; unfold used in *; lia.
Qed.

(** C1: whatever the interleaving, the kernel never has two executors running
    on the same node at once, and never more goroutines than [maxInFlight],
    as long as no node asks to rewind to a node that is not upstream of it. *)
Theorem no_double_dispatch rs cs ts l s0 s id :
  NoDup (g_entrypoints (cfg_graph c)) ->
  kinit c rs cs ts l = Ok s0 -> kreach c (rewinds_upstream c) s0 s ->
  executing s id <= 1 /\ length (k_procs s) <= cfg_maxInFlight c.
Proof.
  intros Hnd Hi Hr. split.
  - etrans; [apply executing_le_tokens|].
    apply (kreach_inv _ _ _ _ (tokens_inv_init c rs cs ts l s0 Hnd Hi) (tokens_inv_step c) Hr).
  - apply (kreach_inv (rewinds_upstream c) (fun s => length (k_procs s) <= cfg_maxInFlight c) s0 s); [| |done].
    + apply kinit_ok in Hi as (-> & _). cbn. lia.
    + intros. by eapply slots_step.
Qed.

(** C8: a node is rewound at most [max_backtracks_per_run] times (3 when unset),
    so a review loop cannot keep a run alive for ever; no schedule and no
    executor result gets around the cap. *)
Theorem backtracks_bounded rs cs ts l s0 s id :
  (0 <= rc_BacktracksUsed cs)%Z -> kinit c rs cs ts l = Ok s0 -> kreach c any_action s0 s ->
  (zget (k_generation s) id <= maxBacktracks c)%Z.
Proof.
  intros Hu Hi Hr.
  pose proof (kreach_inv any_action _ s0 s (bt_inv_init rs cs ts l s0 Hu Hi)
                (fun s a s' Hs _ => bt_inv_step c s a s' Hs) Hr id). lia.
Qed.

(** C9: a run stops making progress before its end exactly when every
    semaphore slot is held by a goroutine that waits for a slot itself. *)
Theorem hang_iff_slots_held rs cs ts l s0 s :
  kinit c rs cs ts l = Ok s0 -> kreach c any_action s0 s -> 0 < cfg_maxInFlight c ->
  (stuck c s /\ quiescent s = false <->
   length (k_procs s) = cfg_maxInFlight c /\ forall p, p ∈ k_procs s -> launching p).
Proof.
  intros Hi Hr Hpos.
  assert (length (k_procs s) <= cfg_maxInFlight c) as Hle.
  { apply (kreach_inv any_action (fun s => length (k_procs s) <= cfg_maxInFlight c) s0 s); [| |done].
    - apply kinit_ok in Hi as (-> & _). cbn. lia.
    - intros. by eapply slots_step. }
  rewrite stuck_iff. unfold quiescent. split.
  - intros [[Hl Hfull] Hq]. split; [|done].
    destruct Hfull as [[Hs Hp]|Hf]; [by rewrite Hs, Hp in Hq|lia].
  - intros [Hlen Hl]. split; [split; [done|right; lia]|].
    destruct (k_seeds s); [|done]. destruct (k_procs s); [|done]. cbn in Hlen. lia.
Qed.
End Always.

(** A graph whose root feeds eight nodes that each feed one more hangs at
      the default of eight slots although every executor succeeds: the root
      holds its slot while it waits to launch the eighth child, and the first
      seven hold theirs while they wait to launch their own. *)
Theorem wide_fan_out_hangs :
  let c := d_config d_wide 8 in
  exists s, krun c d_wide_run (d_start c) = Some s /\ k_firstErr s = None /\
    quiescent s = false /\ forall a, kstep c a s = None.
Proof.
  cbn zeta. exists (d_after (d_config d_wide 8) d_wide_run).
  split; [vm_compute; reflexivity|]. split; [vm_compute; reflexivity|]. split; [vm_compute; reflexivity|].
  intros [|i o].
  - vm_compute. reflexivity.
  - do 8 (destruct i as [|i]; [vm_compute; reflexivity|]). vm_compute. reflexivity.
Qed.

(** When a sibling rewinds the shared parent in the window between a node's
      stale check and its topology update, the node is marked complete with the
      outputs of the superseded run and never re-fires, and the run reports
      success. *)
Theorem stale_window_drops_refire :
  let c := d_config d_fork 8 in
  exists s, krun c d_race_full (d_start c) = Some s /\ quiescent s = true /\
    (kfinish c s).2 = RunCompleted 3 0 /\
    d_started s = ["a"; "b"; "c"; "a"; "c"] /\
    Outputs (k_run s) "a" !! "out" = Some (VStr "v1") /\
    Outputs (k_run s) "b" !! "out" = Some (VStr "b0").
Proof.
  cbn zeta. exists (d_after (d_config d_fork 8) d_race_full). split_and!; vm_compute; reflexivity.
Qed.

Lemma no_double_dispatch_witness :
  let c := d_config d_fork 8 in
  executing (d_after c d_race_full) "b" <= 1 /\ length (k_procs (d_after c d_race_full)) <= 8.
Proof.
  apply (no_double_dispatch (d_config d_fork 8) NewRunState d_counters TaskState.NewTaskState
           MemLog.NewMemoryEventLog (d_start (d_config d_fork 8))).
  - apply NoDup_singleton.
  - vm_compute. reflexivity.
  - apply (d_after_reach (d_config d_fork 8) (rewinds_upstreamb (d_config d_fork 8)) _ d_race_full).
    + apply rewinds_upstreamb_spec.
    + vm_compute. reflexivity.
Defined.

Lemma backtracks_bounded_witness :
  let c := d_config d_fork 8 in
  zget (k_generation (d_after c d_race_full)) "c" = 1%Z /\
  (zget (k_generation (d_after c d_race_full)) "c" <= maxBacktracks c)%Z.
Proof.
  split; [vm_compute; reflexivity|].
  apply (backtracks_bounded (d_config d_fork 8) NewRunState d_counters TaskState.NewTaskState
           MemLog.NewMemoryEventLog (d_start (d_config d_fork 8))).
  - vm_compute. discriminate.
  - vm_compute. reflexivity.
  - apply (d_after_reach (d_config d_fork 8) (fun _ _ => true) _ d_race_full); [done|].
    vm_compute. reflexivity.
Defined.

Lemma hang_iff_slots_held_witness :
  let c := d_config d_wide 8 in let s := d_after c d_wide_run in
  stuck c s /\ quiescent s = false <->
  length (k_procs s) = 8 /\ forall p, p ∈ k_procs s -> launching p.
Proof.
  apply (hang_iff_slots_held (d_config d_wide 8) NewRunState d_counters TaskState.NewTaskState
           MemLog.NewMemoryEventLog (d_start (d_config d_wide 8))).
  - vm_compute. reflexivity.
  - apply (d_after_reach (d_config d_wide 8) (fun _ _ => true) _ d_wide_run); [done|].
    vm_compute. reflexivity.
  - cbn. lia.
Defined.

(** * Runs without rewinds *)

(** Entry nodes are distinct and have no predecessors, edges lead to declared
    nodes.  The validator checks all but the absence of predecessors. *)
Definition well_formed (g : Graph) : Prop :=
  NoDup (g_entrypoints g) /\ (forall ep, ep ∈ g_entrypoints g -> inEdges g ep = []) /\
  (forall e, e ∈ g_edges g -> e_dst e ∈ map n_id (g_nodes g)).

Definition well_formedb (g : Graph) : bool :=
  bool_decide (NoDup (g_entrypoints g)) &&
  forallb (fun ep => bool_decide (inEdges g ep = [])) (g_entrypoints g) &&
  forallb (fun e => bool_decide (e_dst e ∈ map n_id (g_nodes g))) (g_edges g).

Lemma well_formedb_spec g : well_formedb g = true -> well_formed g.
Proof.
  unfold well_formedb. rewrite !andb_true_iff, !forallb_forall, bool_decide_eq_true.
  intros [[Hnd He] Hd]. split_and!; [done| |].
  - intros ep Hep%list_elem_of_In. apply (bool_decide_unpack _). apply Is_true_true. auto.
  - intros e He'%list_elem_of_In. apply (bool_decide_unpack _). apply Is_true_true. auto.
Qed.

(** C2: outcome of a run without rewinds.  Every schedule that ends without an
    error or a pause has completed exactly the nodes the graph settles and has
    executed exactly those that a live path from an entrypoint feeds; the
    others it completed were skipped. *)
Theorem run_outcome_unique {L} `{EventLog L} (c : KConfig) (lv : Edge -> bool) rs cs ts l s0 s v :
  well_formed (cfg_graph c) -> kinit c rs cs ts l = Ok s0 -> kreach c (plain_results c lv) s0 s ->
  quiescent s = true -> k_firstErr s = None -> k_pause s = false ->
  (v ∈ k_completed s <-> decided c v) /\ (v ∈ k_completed s /\ v ∉ k_skipped s <-> fires c lv v).
Proof.
  intros (Hnd & He & Hd) Hi Hr Hq Hf Hp.
  apply (FI_quiescent c lv); [|done]. by eapply (FI_reach c lv).
Qed.

(** A node's executor only runs once every predecessor of the node has
    completed, and only if the graph says that it fires. *)
Theorem runs_after_predecessors {L} `{EventLog L} (c : KConfig) (lv : Edge -> bool) rs cs ts l s0 s p inp :
  well_formed (cfg_graph c) -> kinit c rs cs ts l = Ok s0 -> kreach c (plain_results c lv) s0 s ->
  k_firstErr s = None -> k_pause s = false -> p ∈ k_procs s -> p_phase p = PhExec inp ->
  fires c lv (p_node p) /\
  forall e, e ∈ inEdges (cfg_graph c) (p_node p) -> e_src e ∈ k_completed s.
Proof.
  intros (Hnd & He & Hd) Hi Hr Hf Hp Hin Hph.
  eapply (FI_running c lv); [|done..]. by eapply (FI_reach c lv).
Qed.

Lemma run_outcome_unique_witness :
  let c := d_config d_diamond 8 in let s := d_after c d_diamond_run in
  elements (k_skipped s) = ["c"] /\ fires c d_live "e" /\ ~ fires c d_live "c".
Proof.
  cbn zeta. split; [vm_compute; reflexivity|].
  assert (forall v, (v ∈ k_completed (d_after (d_config d_diamond 8) d_diamond_run) <->
                     decided (d_config d_diamond 8) v) /\
    (v ∈ k_completed (d_after (d_config d_diamond 8) d_diamond_run) /\
     v ∉ k_skipped (d_after (d_config d_diamond 8) d_diamond_run) <-> fires (d_config d_diamond 8) d_live v)) as Hall.
  { intros v. apply (run_outcome_unique (d_config d_diamond 8) d_live NewRunState d_counters TaskState.NewTaskState
           MemLog.NewMemoryEventLog (d_start (d_config d_diamond 8))).
    - apply well_formedb_spec. vm_compute. reflexivity.
    - vm_compute. reflexivity.
    - apply (d_after_reach (d_config d_diamond 8) (plain_resultsb (d_config d_diamond 8) d_live)).
      + apply plain_resultsb_spec.
      + vm_compute. reflexivity.
    - vm_compute. reflexivity.
    - vm_compute. reflexivity.
    - vm_compute. reflexivity. }
  split.
  - apply Hall. split; apply (bool_decide_unpack _); vm_compute; exact I.
  - intros [_ Hsk]%Hall. revert Hsk. apply (bool_decide_unpack _). vm_compute. exact I.
Defined.

Lemma runs_after_predecessors_witness :
  let c := d_config d_diamond 8 in
  fires c d_live "d" /\
  forall e, e ∈ inEdges d_diamond "d" -> e_src e ∈ k_completed (d_after c ([ActMain] ++ d_acts 0 11 (d_out "v"))).
Proof.
  apply (runs_after_predecessors (d_config d_diamond 8) d_live NewRunState d_counters TaskState.NewTaskState
           MemLog.NewMemoryEventLog (d_start (d_config d_diamond 8)) _
           {| p_node := "d"; p_gen := 0; p_phase := PhExec {["in" := VStr "v"]} |} {["in" := VStr "v"]}).
  - apply well_formedb_spec. vm_compute. reflexivity.
  - vm_compute. reflexivity.
  - apply (d_after_reach (d_config d_diamond 8) (plain_resultsb (d_config d_diamond 8) d_live)).
    + apply plain_resultsb_spec.
    + vm_compute. reflexivity.
  - vm_compute. reflexivity.
  - vm_compute. reflexivity.
  - vm_compute. left.
  - reflexivity.
Defined.

(** * Resuming *)





(** In the kernel of Kernel.v, where an update and its append are one step, and over a log
    that never fails, replay rebuilds the live memory exactly, in every interleaving of the
    nodes: executors must write events of their own run and leave the four memory event
    kinds to the kernel. *)
Theorem merged_run_rebuilds {L} `{EventLogTotal L} payload_text (c : KConfig) rs cs ts l s0 s :
  cfg_RunID c <> "" -> log_events l (cfg_RunID c) = [] ->
  kinit c rs cs ts l = Ok s0 -> kreach c (executor_events c) s0 s ->
  rb_memory (RebuildState payload_text (k_log s) (cfg_RunID c) rs ts) =
    (k_task s, rs_failureAnnotations (k_run s)).
Proof.
  intros Hrun Hl Hi Hr. rewrite RebuildState_memory.
  apply (kreach_inv c (executor_events c) (synced c (ts, rs_failureAnnotations rs)) s0 s); [| |done].
  - by eapply synced_init.
  - intros ? ? ? Hs Ha Hstep. by eapply synced_step.
Qed.

(** [Resume] starts over from the entrypoints: whatever completions the log
      holds, no node is marked complete and every entrypoint is dispatched
      again. *)
Theorem resume_restarts {L} `{EventLog L} payload_text (c : KConfig) rs cs ts l s0 :
  Resume payload_text c rs cs ts l = Ok s0 ->
  k_completed s0 = ∅ /\ k_skipped s0 = ∅ /\ k_procs s0 = [] /\
  k_seeds s0 = map (fun ep => (ep, 0%Z)) (g_entrypoints (cfg_graph c)).
Proof. unfold Resume. intros Hi%kinit_ok. naive_solver. Qed.

Lemma resume_restarts_witness :
  let c := d_config d_fork 8 in let s := d_after c d_race_full in
  match Resume (fun _ => "") c NewRunState d_counters TaskState.NewTaskState (k_log s) with
  | Ok s0 => k_completed s0 = ∅ /\ k_skipped s0 = ∅ /\ k_procs s0 = [] /\ k_seeds s0 = [("a", 0%Z)]
  | Err _ => False
  end.
Proof.
  cbn zeta.
  destruct (Resume (fun _ => "") (d_config d_fork 8) NewRunState d_counters TaskState.NewTaskState
             (k_log (d_after (d_config d_fork 8) d_race_full))) as [s0|e] eqn:Hr.
  - apply (resume_restarts _ _ _ _ _ _ _ Hr).
  - vm_compute in Hr. discriminate.
Defined.

(** * The budget check *)

(** No configured cap is exceeded at time [now]. *)
Definition within_budget (b : Budget) (cs : RunCounters) (now : Z) : Prop :=
  (0 < b_MaxTokensPerRun b -> rc_LLMTokensUsed cs <= b_MaxTokensPerRun b)%Z /\
  (0 < b_MaxLLMCallsPerRun b -> rc_LLMCallsMade cs <= b_MaxLLMCallsPerRun b)%Z /\
  (0 < b_MaxToolCallsPerRun b -> rc_ToolCallsMade cs <= b_MaxToolCallsPerRun b)%Z /\
  (0 < b_MaxCostUSDPerRun b -> rc_CostUSD cs <= b_MaxCostUSDPerRun b)%Z /\
  (0 < b_MaxWallclockPerRunSecs b -> 0 < rc_WallclockStart cs ->
   int64 (now - rc_WallclockStart cs) <= int64 (b_MaxWallclockPerRunSecs b * second))%Z.

(** A dispatch gets past the budget check exactly when no configured cap is
    exceeded, and then nothing is written; otherwise the check fails with a budget
    error and writes exactly one cap event, which names the cap, its limit and
    the larger amount used. *)
Theorem budget_check_exact {L} `{EventLog L} (c : KConfig) now (s : KState L) :
  (within_budget (cfg_Budget c) (k_counters s) now /\ checkBudget c now s = (s, None)) \/
  (~ within_budget (cfg_Budget c) (k_counters s) now /\
   exists kind reason limit used e,
     checkBudget c now s =
       ((k_append s (AppendKind [] (cfg_RunID c) "" kind (pauseMarker c reason limit used))).1, Some e) /\
     ke_budget e = true /\ (kind = EventBudgetCapHit \/ kind = EventCostCapHit)).
Proof.
  assert (forall limit used, ((0 <? limit) && (limit <? used))%Z = true -> ~ (0 < limit -> used <= limit)%Z) as Hover.
  { intros limit used [Hl Hu]%andb_true_iff. lia. }
  assert (forall limit used, ((0 <? limit) && (limit <? used))%Z = false -> (0 < limit -> used <= limit)%Z) as Hunder.
  { intros limit used [Hl|Hu]%andb_false_iff; lia. }
  unfold checkBudget, within_budget, emitCapHit. cbn zeta.
  match goal with |- context [if ?b then _ else _] => destruct b eqn:H1 end;
    [right; split; [by intros [?%(Hover _ _ H1) _]|do 5 eexists; split; [reflexivity|by eauto]]|].
  match goal with |- context [if ?b then _ else _] => destruct b eqn:H2 end;
    [right; split; [by intros (_ & ?%(Hover _ _ H2) & _)|do 5 eexists; split; [reflexivity|by eauto]]|].
  match goal with |- context [if ?b then _ else _] => destruct b eqn:H3 end;
    [right; split; [by intros (_ & _ & ?%(Hover _ _ H3) & _)|do 5 eexists; split; [reflexivity|by eauto]]|].
  match goal with |- context [if ?b then _ else _] => destruct b eqn:H4 end;
    [right; split; [by intros (_ & _ & _ & ?%(Hover _ _ H4) & _)|do 5 eexists; split; [reflexivity|by eauto]]|].
  pose proof (Hunder _ _ H1) as U1. pose proof (Hunder _ _ H2) as U2.
  pose proof (Hunder _ _ H3) as U3. pose proof (Hunder _ _ H4) as U4.
  match goal with |- context [if ?b then _ else _] => destruct b eqn:H5 end.
  2: { left. split; [|done]. split_and!; try done. apply andb_false_iff in H5. lia. }
  apply andb_true_iff in H5 as [Hw Hs].
  match goal with |- context [if ?b then _ else _] => destruct b eqn:H6 end.
  - right. split; [intros (_ & _ & _ & _ & Hle); lia|do 5 eexists; split; [reflexivity|by eauto]].
  - left. split; [|done]. split_and!; try done. intros _ _. lia.
Qed.

(** The rewind set of a backtrack is computed by a search that ends, lists no
    node twice, and lists exactly the nodes the target reaches along edges the
    kernel sees, the target included. *)
Theorem rewind_set_exact (g : Graph) (target : string) :
  exists l, descendantsInclusive g target = Some l /\ NoDup l /\
    forall x, x ∈ l <-> rtc (fun u w => exists e, e ∈ outEdges g u /\ e_dst e = w) target x.
Proof. exact (descendantsInclusive_spec g target). Qed.

(** * The promotion worklist *)

Section Promotion.
Context (c : KConfig).
Let g := cfg_graph c.

Definition targets : gset string := list_to_set (map e_dst (g_edges g)).

(** Frames queued, and targets that may still be queued. *)
Definition pending (p : Promo) : nat := length (pr_work p) + size (targets ∖ pr_completed p).

Lemma edge_keeps_pending gen f p e : e ∈ g_edges g -> pending (promote_edge c gen f p e) = pending p.
Proof.
  intros He. unfold promote_edge. do 2 (case_bool_decide; [done|]). cbn zeta.
  case_if; [done|]. case_if; [done|]. unfold pending. cbn [pr_work pr_completed].
  rewrite length_app. cbn [length].
  assert (e_dst e ∈ targets) as Ht.
  { apply elem_of_list_to_set, list_elem_of_fmap. by exists e. }
  assert (targets ∖ pr_completed p = {[e_dst e]} ∪ targets ∖ ({[e_dst e]} ∪ pr_completed p)) as Heq.
  { apply set_eq. intros x. rewrite elem_of_union, !elem_of_difference, elem_of_union, elem_of_singleton.
    destruct (decide (x = e_dst e)) as [->|]; naive_solver. }
  rewrite Heq, (size_union {[e_dst e]}), size_singleton by set_solver. lia.
Qed.

Lemma edges_keep_pending gen f es p :
  (forall e, e ∈ es -> e ∈ g_edges g) -> pending (foldl (promote_edge c gen f) p es) = pending p.
Proof.
  revert p. induction es as [|e es IH]; intros p Hes; [done|]. cbn [foldl].
  rewrite IH by (intros; apply Hes; by right). apply edge_keeps_pending, Hes. by left.
Qed.

Lemma promote_loop_drains gen fuel : forall p,
  pending p <= fuel -> pr_work (promote_loop c gen fuel p) = [].
Proof.
  induction fuel as [|fuel IH]; intros p Hf; cbn [promote_loop]; destruct (pr_work p) as [|f w] eqn:Hw; try done.
  { unfold pending in Hf. rewrite Hw in Hf. cbn in Hf. lia. }
  apply IH. rewrite edges_keep_pending.
  - unfold pending in *. rewrite Hw in Hf. cbn in *. lia.
  - intros e. fold g. rewrite buildEdges_out. by intros (? & _ & _)%elem_of_outEdges.
Qed.
End Promotion.

(** The promotion worklist always drains: from any state, whatever completed
    before, the loop ends with no frame left within one round per edge. *)
Theorem promotion_drains {L} (c : KConfig) (s : KState L) nd outs : pr_work (promote c s nd outs) = [].
Proof.
  apply promote_loop_drains. unfold pending, promote_fuel. cbn [pr_work pr_completed length].
  assert (size (targets c ∖ k_completed s) <= length (g_edges (cfg_graph c))) as Hle; [|lia].
  transitivity (size (targets c)); [apply subseteq_size; set_solver|].
  unfold targets. rewrite <- (length_map e_dst). induction (map e_dst _) as [|x l IH]; [done|].
  rewrite list_to_set_cons. cbn [length].
  rewrite size_union_alt, size_singleton.
  assert (size ((list_to_set l : gset string) ∖ {[x]}) <= size (list_to_set l : gset string)); [|lia].
  apply subseteq_size. set_solver.
Qed.
