(* ===== verification/Registry.v ===== *)
(** The executor registry (core/agentgraph/executor.go): the kind-to-executor
    map that the kernel's dispatch looks executors up in, seeded with the
    built-in kinds and extended while a run is in flight. *)
From S2P Require Import Prelude GoString.

Section Registry.
(** An executor, and the kind it reports. *)
Context {X : Type} (Kind : X -> string).

Record ExecutorRegistry := { byKind : gmap string X }.

Definition NewExecutorRegistry : ExecutorRegistry := {| byKind := ∅ |}.

Definition Lookup (r : ExecutorRegistry) (k : string) : option X := byKind r !! k.
Definition Has (r : ExecutorRegistry) (k : string) : bool :=
  match Lookup r k with Some _ => true | None => false end.
Definition Len (r : ExecutorRegistry) : nat := size (byKind r).

(** [Register]: a [nil] executor is [None]. *)
Definition Register (r : ExecutorRegistry) (oe : option X) : result ExecutorRegistry string :=
  match oe with
  | None => Err "agentgraph: register: nil executor"
  | Some e =>
      if bool_decide (Kind e = "") then Err "agentgraph: register: executor reports empty kind" else
      match byKind r !! Kind e with
      | Some _ => Err ("agentgraph: executor already registered for kind: " +:+ fmt_q (Kind e))
      | None => Ok {| byKind := <[Kind e := e]> (byKind r) |}
      end
  end.

Definition Replace (r : ExecutorRegistry) (oe : option X) : ExecutorRegistry :=
  match oe with
  | None => r
  | Some e => if bool_decide (Kind e = "") then r else {| byKind := <[Kind e := e]> (byKind r) |}
  end.

Definition Kinds (r : ExecutorRegistry) : list string := sort_strings (map_to_list (byKind r)).*1.

(** The kernel's accessor, with its error text. *)
Definition lookup_kind (r : ExecutorRegistry) (k : string) : result X string :=
  match Lookup r k with
  | Some e => Ok e
  | None => Err ("agentgraph: no executor for kind " +:+ fmt_q k)
  end.

(** [MustRegister] panics on an error. *)
Definition MustRegister (r : ExecutorRegistry) (e : X) : result ExecutorRegistry string :=
  Register r (Some e).

(** The seeding loop of [newExecutorRegistry] over the built-in executors. *)
Fixpoint seed (r : ExecutorRegistry) (es : list X) : result ExecutorRegistry string :=
  match es with
  | [] => Ok r
  | e :: es => let! r := MustRegister r e in seed r es
  end.

Definition newExecutorRegistry (builtins : list X) : result ExecutorRegistry string :=
  seed NewExecutorRegistry builtins.

(** * Facts *)

Lemma Register_ok r e r' :
  Register r (Some e) = Ok r' <->
  Kind e <> "" /\ Lookup r (Kind e) = None /\ r' = {| byKind := <[Kind e := e]> (byKind r) |}.
Proof.
  unfold Register, Lookup. case_bool_decide as Hk; [naive_solver|].
  destruct (byKind r !! Kind e); naive_solver.
Qed.

Lemma Lookup_insert (r : ExecutorRegistry) e k :
  Lookup {| byKind := <[Kind e := e]> (byKind r) |} k = if decide (Kind e = k) then Some e else Lookup r k.
Proof. unfold Lookup. cbn. apply lookup_insert. Qed.

(** The seeding succeeds exactly when kinds are named and distinct, also from
    those already present; each kind is then bound to its executor. *)
Lemma seed_spec es r :
  (is_ok (seed r es) = true <->
   Forall (fun e => Kind e <> "" /\ Lookup r (Kind e) = None) es /\ NoDup (map Kind es)) /\
  forall r', seed r es = Ok r' ->
    (forall e, e ∈ es -> Lookup r' (Kind e) = Some e) /\
    (forall k, k ∉ map Kind es -> Lookup r' k = Lookup r k).
Proof.
  revert r. induction es as [|e es IH]; intros r.
  { split; [split; [by repeat constructor|done]|]. intros r' [= <-]. split; [by intros ? ?%elem_of_nil|done]. }
  cbn [seed map]. rewrite Forall_cons, NoDup_cons. unfold MustRegister.
  destruct (Register r (Some e)) as [r1|err] eqn:Hr; cbn [rbind].
  - apply Register_ok in Hr as (Hne & Hnew & ->). destruct (IH {| byKind := <[Kind e := e]> (byKind r) |}) as [Hok Hall].
    split.
    + rewrite Hok. split.
      * intros [Hf Hnd]. rewrite Forall_forall in Hf. split_and!; try done.
        -- apply Forall_forall. intros x Hx. destruct (Hf x Hx) as [? Hl]. rewrite Lookup_insert in Hl.
           split; [done|]. by destruct (decide _).
        -- intros (x & Hx & Hin)%list_elem_of_In%in_map_iff. apply list_elem_of_In in Hin.
           destruct (Hf x Hin) as [_ Hl]. rewrite Lookup_insert, decide_True in Hl; done.
      * intros [[_ Hf] [Hni Hnd]]. split; [|done]. rewrite Forall_forall in *. intros x Hx.
        destruct (Hf x Hx). split; [done|]. rewrite Lookup_insert, decide_False; [done|].
        intros Heq. apply Hni. rewrite Heq. apply list_elem_of_In, in_map, list_elem_of_In, Hx.
    + intros r' Hr'. destruct (Hall r' Hr') as [Hin Hout]. split.
      * intros x [->|Hx]%elem_of_cons; [|by apply Hin].
        destruct (decide (Kind e ∈ map Kind es)) as [Hd|Hd].
        -- exfalso. assert (is_ok (seed {| byKind := <[Kind e := e]> (byKind r) |} es) = true) as Ho by (by rewrite Hr').
           apply Hok in Ho as [Hf _]. rewrite Forall_forall in Hf.
           apply list_elem_of_In, in_map_iff in Hd as (y & Hy & Hin'). apply list_elem_of_In in Hin'.
           destruct (Hf y Hin') as [_ Hl]. rewrite Lookup_insert, decide_True in Hl; done.
        -- rewrite Hout by done. rewrite Lookup_insert. by rewrite decide_True.
      * intros k [Hk Hn]%not_elem_of_cons. rewrite Hout by done. rewrite Lookup_insert. by rewrite decide_False.
  - split; [|done]. split; [done|]. intros [[[Hne Hnew] _] _]. unfold Register in Hr.
    rewrite bool_decide_false in Hr by done. unfold Lookup in Hnew. by rewrite Hnew in Hr.
Qed.
End Registry.
Arguments ExecutorRegistry : clear implicits.

(** * The built-in tool kinds *)

(** The resolved manifests are generated data: a map from kind to the chain of
    archetypes it extends. *)
Definition ToolArchetypeID : string := "tool".

Definition builtinToolKinds (manifests : gmap string (list string)) : list string :=
  sort_strings (omap (fun '(kind, chain) => if bool_decide (ToolArchetypeID ∈ chain) then Some kind else None)
                     (map_to_list manifests)).

(** Seeding the registry panics exactly on an unnamed or repeated kind;
    otherwise every built-in kind is bound to its own executor and nothing else
    is bound.  A registration at run time never replaces a binding, while
    [Replace] does. *)
Theorem registry_never_replaces {X} (Kind : X -> string) (builtins : list X) :
  (is_ok (newExecutorRegistry Kind builtins) = true <->
   Forall (fun e => Kind e <> "") builtins /\ NoDup (map Kind builtins)) /\
  (forall r, newExecutorRegistry Kind builtins = Ok r ->
    (forall e, e ∈ builtins -> Lookup r (Kind e) = Some e) /\
    (forall k, k ∉ map Kind builtins -> Has r k = false)) /\
  (forall r e r', Register Kind r (Some e) = Ok r' ->
    Lookup r' (Kind e) = Some e /\ Lookup r (Kind e) = None /\
    forall k, k <> Kind e -> Lookup r' k = Lookup r k) /\
  (forall r e k, Kind e <> "" ->
    Lookup (Replace Kind r (Some e)) k = if decide (Kind e = k) then Some e else Lookup r k).
Proof.
  destruct (seed_spec Kind builtins NewExecutorRegistry) as [Hok Hall]. split_and!.
  - unfold newExecutorRegistry. rewrite Hok. rewrite !Forall_forall. naive_solver.
  - intros r Hr. destruct (Hall r Hr) as [Hin Hout]. split; [done|].
    intros k Hk. unfold Has. by rewrite Hout.
  - intros r e r' (Hne & Hnew & ->)%Register_ok. split_and!; [|done|].
    + rewrite Lookup_insert. by rewrite decide_True.
    + intros k Hk. rewrite Lookup_insert. by rewrite decide_False.
  - intros r e k Hne. unfold Replace. rewrite bool_decide_false by done. apply Lookup_insert.
Qed.
