(* ===== verification/Ladder.v ===== *)
(** The escalation ladder (core/agentgraph/exec_escalation_ladder.go): retry,
    escalate, replan, ask.

    One firing runs up to its single model call ([ladder_start]) and from its
    answer on ([ladder_finish]); between the two other nodes run, which is what
    the run-global escalation slot is about. *)
From S2P Require Import Prelude GoString AgentGraph EventLog RunState Kernel Rebuild.

(** * Model calls and the ask bus *)

Record LLMRequest := {
  lr_Model : string; lr_MaxTokens : Z; lr_SystemPrompt : string; lr_Messages : list Message;
  lr_FallbackChainId : string
}.
Record LLMResponse := { lp_Content : string; lp_TokensUsed : Z; lp_CostUSD : Z }.

(** What the executor finds in its environment.  The prompt ladder and the ask
    bus are seams: a model name to its system prompt, the recorded answer, and
    the error of posing the question. *)
Record LadderEnv := {
  le_RunID : string; le_AskWithheld : bool;
  le_prompt : string -> string;
  le_answer : option string;
  le_pending_err : option string
}.

Inductive Rung := REscalate | RReplan.

(** What a firing does after its first stretch: end, or call the model. *)
Inductive LadderAction :=
| LEnd (o : Outcome)
| LCall (rung : Rung) (req : LLMRequest) (retryAttempts : Z).

Definition ladderDraftText (st : RunState) (inputs : PortValues) (upstreamNode : string) : string :=
  let from_upstream :=
    if bool_decide (upstreamNode = "") then None else
    match Outputs st upstreamNode !! "assistant" with
    | Some (VMessage m) => if bool_decide (m_content m = "") then None else Some (m_content m)
    | _ => None
    end in
  match from_upstream with
  | Some s => s
  | None =>
      match inputs !! "trigger" with
      | Some (VStr s) => s
      | Some (VMessages l) => match last l with Some m => m_content m | None => "" end
      | _ => ""
      end
  end.

Definition assistant_result (text rung : string) (evs : EventBatch) : Result :=
  {| r_Outputs := <["result" := VMessages [plain_message "assistant" text]]>
                    {["rung" := VStr rung]};
     r_Events := evs; r_Pause := false; r_PauseReason := ""; r_Backtrack := None |}.

Section Ladder.
Context (env : LadderEnv) (node : Node) (a : LadderAttrs).
Let run := le_RunID env.
Let id := n_id node.
Let stateKey := ladderStateKey id.

Definition maxRetries : Z := if (la_max_retries a <=? 0)%Z then 1%Z else la_max_retries a.

Definition ladder_err (msg : string) : KErr := plain_err ("escalation_ladder: node " +:+ fmt_q id +:+ msg).

Definition rung_event (p : list (string * value)) : EventBatch := AppendKind [] run id EventLadderRung p.

Definition retry_events (attempts : Z) : EventBatch :=
  rung_event [("rung", VStr "retry"); ("attempt", VInt attempts); ("max_attempts", VInt maxRetries)].
Definition escalate_events (claimed : bool) : EventBatch :=
  rung_event [("rung", VStr "escalate"); ("already_used", VBool (negb claimed))].

Definition escalate_request (draft : string) : LLMRequest :=
  {| lr_Model := la_target_model a; lr_MaxTokens := 1024; lr_SystemPrompt := le_prompt env (la_target_model a);
     lr_Messages := [plain_message "user" ("Re-do this with higher quality:" +:+ nl +:+ nl +:+ draft)];
     lr_FallbackChainId := la_fallback_chain_id a |}.

Definition plannerModel : string :=
  if bool_decide (la_planner_model a = "") then "default" else la_planner_model a.

Definition replan_request (draft : string) : LLMRequest :=
  {| lr_Model := plannerModel; lr_MaxTokens := 1024; lr_SystemPrompt := le_prompt env plannerModel;
     lr_Messages := [plain_message "user"
       ("The previous approach failed and repeated retry/escalation did not resolve it:" +:+ nl +:+ nl +:+
       draft +:+ nl +:+ nl +:+
       "Produce a revised numbered-step plan that explicitly avoids the rejected approach.")];
     lr_FallbackChainId := "" |}.

Definition ask_question : string :=
  if bool_decide (la_ask_question a = "") then
    "Automatic recovery (retry, escalate, replan) did not resolve the failure at " +:+
    la_upstream_node a +:+ ". How should the run proceed?"
  else la_ask_question a.

(** The last rung. *)
Definition ladder_ask (st : RunState) (evs : EventBatch) (draft : string) (retryAttempts : Z)
  : RunState * Outcome :=
  let exhaust st := SetOutputs st stateKey (ladder_outputs ladderRungExhausted retryAttempts) in
  if le_AskWithheld env then
    (exhaust st, OutOk (assistant_result draft "exhausted"
       (evs ++ rung_event [("rung", VStr "ask"); ("skipped", VBool true); ("reason", VStr "ask_withheld")])))
  else match le_answer env with
  | Some text =>
      (exhaust st,
       OutOk {| r_Outputs := <["result" := VMessages [plain_message "user" text]]>
                               {["rung" := VStr "ask"]};
                r_Events := evs ++ AppendKind [] run id EventAskAnswered
                              [("answer_len", VInt (Z.of_nat (String.length text)))] ++
                            rung_event [("rung", VStr "ask")];
                r_Pause := false; r_PauseReason := ""; r_Backtrack := None |})
  | None =>
      match le_pending_err env with
      | Some e => (st, OutErr evs (ladder_err (": ask pending: " +:+ e)))
      | None =>
          (st, OutOk {| r_Outputs := ∅;
                        r_Events := evs ++ AppendKind [] run id EventAskPending [("question", VStr ask_question)] ++
                                    rung_event [("rung", VStr "ask")];
                        r_Pause := true; r_PauseReason := "escalation_ladder: " +:+ ask_question;
                        r_Backtrack := None |})
      end
  end.

(** From the escalate rung on. *)
Definition ladder_rest (st : RunState) (evs : EventBatch) (draft : string) (rung retryAttempts : Z)
  : RunState * EventBatch * LadderAction :=
  let replan st evs := (st, evs, LCall RReplan (replan_request draft) retryAttempts) in
  if Z.eqb rung ladderRungEscalate then
    let '(st, claimed) := CompareAndSetOnce st ladderGlobalEscalatedKey in
    let evs := evs ++ escalate_events claimed in
    if claimed then (st, evs, LCall REscalate (escalate_request draft) retryAttempts)
    else replan (SetOutputs st stateKey (ladder_outputs ladderRungReplan retryAttempts)) evs
  else if Z.eqb rung ladderRungReplan then replan st evs
  else if Z.eqb rung ladderRungAsk then
    let '(st, o) := ladder_ask st evs draft retryAttempts in (st, evs, LEnd o)
  else (st, evs, LEnd (OutErr evs (ladder_err ": all rungs exhausted (retry, escalate, replan, ask)"))).

Definition ladder_start (inputs : PortValues) (st : RunState) : RunState * EventBatch * LadderAction :=
  if bool_decide (la_target_model a = "") then (st, [], LEnd (OutErr [] (ladder_err ": target_model is required")))
  else if bool_decide (la_upstream_node a = "") then
    (st, [], LEnd (OutErr [] (ladder_err ": upstream_node is required")))
  else
  let prior := Outputs st stateKey in
  let rung := as_int (prior !! "rung") in
  let retryAttempts := as_int (prior !! "retry_attempts") in
  let draft := ladderDraftText st inputs (la_upstream_node a) in
  if Z.eqb rung ladderRungRetry then
    let retryAttempts := (retryAttempts + 1)%Z in
    let evs := retry_events retryAttempts in
    if (retryAttempts <=? maxRetries)%Z then
      (SetOutputs st stateKey (ladder_outputs ladderRungRetry retryAttempts), evs,
       LEnd (OutOk {| r_Outputs := ∅; r_Events := evs; r_Pause := false; r_PauseReason := "";
                      r_Backtrack := Some {|
                        bt_TargetNode := la_upstream_node a;
                        bt_Reason := "escalation ladder: retry " +:+ fmt_d retryAttempts +:+ "/" +:+ fmt_d maxRetries;
                        bt_RejectedApproach := draft |} |}))
    else ladder_rest (SetOutputs st stateKey (ladder_outputs ladderRungEscalate retryAttempts)) evs draft
           ladderRungEscalate retryAttempts
  else ladder_rest st [] draft rung retryAttempts.

(** The model answered. *)
Definition ladder_finish (rung : Rung) (retryAttempts : Z) (evs : EventBatch)
    (resp : result LLMResponse string) (st : RunState) (cs : RunCounters)
  : RunState * RunCounters * Outcome :=
  match rung, resp with
  | REscalate, Err e =>
      (ReleaseOnce st ladderGlobalEscalatedKey, cs, OutErr evs (ladder_err (": escalate: " +:+ e)))
  | RReplan, Err e => (st, cs, OutErr evs (ladder_err (": replan: " +:+ e)))
  | REscalate, Ok r =>
      (SetOutputs st stateKey (ladder_outputs ladderRungReplan retryAttempts),
       AddCost (AddLLM cs (lp_TokensUsed r)) (lp_CostUSD r),
       OutOk (assistant_result (lp_Content r) "escalate"
         (evs ++ AppendKind [] run id EventEscalateTriggered
            [("target_model", VStr (la_target_model a)); ("upstream", VStr (la_upstream_node a));
             ("tokens", VInt (lp_TokensUsed r))])))
  | RReplan, Ok r =>
      (SetOutputs st stateKey (ladder_outputs ladderRungAsk retryAttempts),
       AddCost (AddLLM cs (lp_TokensUsed r)) (lp_CostUSD r),
       OutOk (assistant_result (lp_Content r) "replan"
         (evs ++ rung_event [("rung", VStr "replan"); ("tokens", VInt (lp_TokensUsed r))] ++
          AppendKind [] run id EventPlanCreated
            [("verbosity", VStr "standard"); ("model", VStr plannerModel); ("tokens", VInt (lp_TokensUsed r))])))
  end.

(** A whole firing, uninterrupted. *)
Definition ladder_execute (generate : LLMRequest -> result LLMResponse string) (inputs : PortValues)
    (st : RunState) (cs : RunCounters) : RunState * RunCounters * Outcome :=
  let '(st, evs, act) := ladder_start inputs st in
  match act with
  | LEnd o => (st, cs, o)
  | LCall rung req n => ladder_finish rung n evs (generate req) st cs
  end.

Definition ladder_rung (st : RunState) : Z := as_int (Outputs st stateKey !! "rung").
Definition ladder_attempts (st : RunState) : Z := as_int (Outputs st stateKey !! "retry_attempts").
End Ladder.

(** * Progress *)

Lemma ladderStateKey_global id : ladderStateKey id <> ladderGlobalEscalatedKey.
Proof. intros H%(f_equal (String.get 9)). discriminate H. Qed.

Lemma ladder_outputs_read st id r n :
  ladder_rung id (SetOutputs st (ladderStateKey (n_id id)) (ladder_outputs r n)) = r /\
  ladder_attempts id (SetOutputs st (ladderStateKey (n_id id)) (ladder_outputs r n)) = n.
Proof.
  unfold ladder_rung, ladder_attempts. rewrite Outputs_SetOutputs, decide_True by done.
  unfold ladder_outputs. rewrite lookup_insert_eq, lookup_insert_ne by done. by rewrite lookup_singleton_eq.
Qed.

Lemma Outputs_ReleaseOnce st k k' : k <> k' -> Outputs (ReleaseOnce st k) k' = Outputs st k'.
Proof. intros Hne. unfold Outputs. cbn. by rewrite lookup_delete_ne. Qed.

Lemma Outputs_claim st k k' :
  k <> k' -> Outputs (CompareAndSetOnce st k).1 k' = Outputs st k'.
Proof.
  intros Hne. unfold CompareAndSetOnce. case_if; [done|]. cbn [fst].
  rewrite Outputs_SetOutputs. by rewrite decide_False.
Qed.

(** The outcome of a firing that neither failed nor paused the run. *)
Definition advanced (o : Outcome) : bool :=
  match o with OutOk r => negb (r_Pause r) | OutErr _ _ => false end.

(** One firing after another, each with its own environment and model. *)
Record Firing := {
  f_env : LadderEnv; f_generate : LLMRequest -> result LLMResponse string; f_inputs : PortValues
}.

Fixpoint ladder_run (node : Node) (a : LadderAttrs) (fs : list Firing) (st : RunState) (cs : RunCounters)
  : list Outcome :=
  match fs with
  | [] => []
  | f :: fs =>
      let '(st, cs, o) := ladder_execute (f_env f) node a (f_generate f) (f_inputs f) st cs in
      o :: ladder_run node a fs st cs
  end.

Section Progress.
Context (node : Node) (a : LadderAttrs).
Let rung := ladder_rung node.
Let attempts := ladder_attempts node.

(** Successful firings left before the ladder is exhausted. *)
Definition remaining (st : RunState) : Z :=
  if Z.eqb (rung st) ladderRungRetry then (Z.max 0 (maxRetries a - attempts st) + 4)%Z
  else Z.max 0 (4 - rung st).

Lemma remaining_set st r n :
  remaining (SetOutputs st (ladderStateKey (n_id node)) (ladder_outputs r n)) =
  if Z.eqb r ladderRungRetry then (Z.max 0 (maxRetries a - n) + 4)%Z else Z.max 0 (4 - r).
Proof.
  unfold remaining, rung, attempts. destruct (ladder_outputs_read st node r n) as [-> ->]. done.
Qed.

Lemma remaining_ext st st' :
  Outputs st' (ladderStateKey (n_id node)) = Outputs st (ladderStateKey (n_id node)) ->
  remaining st' = remaining st.
Proof. intros He. unfold remaining, rung, attempts, ladder_rung, ladder_attempts. by rewrite He. Qed.

Definition cost (o : Outcome) : Z := if advanced o then 1 else 0.

Lemma ladder_ask_progress env st evs draft n :
  remaining st = 1%Z ->
  let '(st', o) := ladder_ask env node a st evs draft n in (remaining st' + cost o <= 1)%Z.
Proof.
  intros Hr. unfold ladder_ask. repeat case_match; simplify_eq; unfold cost;
    cbn [advanced r_Pause assistant_result negb]; rewrite ?remaining_set; rewrite ?Hr; done.
Qed.

Lemma remaining_nonneg st : (0 <= remaining st)%Z.
Proof. unfold remaining. case_match; lia. Qed.

(** From the escalate rung on: what a firing still has left afterwards. *)
Lemma ladder_rest_progress env generate st cs evs draft r n :
  remaining st = Z.max 0 (4 - r) ->
  let '(st', evs', act) := ladder_rest env node a st evs draft r n in
  let '(st2, _, o) := match act with
                      | LEnd o => (st', cs, o)
                      | LCall rg req m => ladder_finish env node a rg m evs' (generate req) st' cs
                      end in
  (remaining st2 + cost o <= Z.max 0 (4 - r))%Z.
Proof.
  intros Hrem. unfold ladder_rest.
  destruct (Z.eqb_spec r ladderRungEscalate) as [->|He].
  - assert (remaining (CompareAndSetOnce st ladderGlobalEscalatedKey).1 = 3%Z) as Hc.
    { transitivity (remaining st); [|exact Hrem].
      apply remaining_ext, Outputs_claim, not_eq_sym, ladderStateKey_global. }
    destruct (CompareAndSetOnce _ _) as [st1 claimed]. cbn [fst] in Hc. destruct claimed.
    + unfold ladder_finish. destruct (generate _); unfold cost; cbn [advanced r_Pause assistant_result negb];
        rewrite ?remaining_set; [done|].
      rewrite (remaining_ext st1 (ReleaseOnce st1 _)); [rewrite Hc; done|].
      apply Outputs_ReleaseOnce, not_eq_sym, ladderStateKey_global.
    + unfold ladder_finish. destruct (generate _); unfold cost; cbn [advanced r_Pause assistant_result negb];
        rewrite ?remaining_set; done.
  - destruct (Z.eqb_spec r ladderRungReplan) as [->|Hp].
    + unfold ladder_finish. destruct (generate _); unfold cost; cbn [advanced r_Pause assistant_result negb];
        rewrite ?remaining_set; [done|]. rewrite Hrem. done.
    + destruct (Z.eqb_spec r ladderRungAsk) as [->|Hk].
      * pose proof (ladder_ask_progress env st evs draft n Hrem) as Ha.
        destruct (ladder_ask _ _ _ _ _ _ _). exact Ha.
      * unfold cost. cbn. unfold ladderRungEscalate, ladderRungReplan, ladderRungAsk in *. lia.
Qed.

Lemma ladder_execute_progress env generate inputs st cs :
  let '(st', _, o) := ladder_execute env node a generate inputs st cs in
  (remaining st' + cost o <= remaining st)%Z.
Proof.
  unfold ladder_execute, ladder_start.
  case_if; [cbn; lia|]. case_if; [cbn; lia|].
  fold (ladder_rung node st) (ladder_attempts node st). fold rung attempts.
  destruct (Z.eqb_spec (rung st) ladderRungRetry) as [Hz|Hz].
  - assert (remaining st = Z.max 0 (maxRetries a - attempts st) + 4)%Z as Hrem.
    { unfold remaining. by rewrite Hz. }
    destruct (attempts st + 1 <=? maxRetries a)%Z eqn:Hle.
    + apply Z.leb_le in Hle. rewrite remaining_set. unfold cost. cbn [advanced r_Pause negb].
      change (Z.eqb ladderRungRetry ladderRungRetry) with true. cbn iota. lia.
    + pose proof (ladder_rest_progress env generate
        (SetOutputs st (ladderStateKey (n_id node)) (ladder_outputs ladderRungEscalate (attempts st + 1)))
        cs (retry_events env node a (attempts st + 1)) (ladderDraftText st inputs (la_upstream_node a))
        ladderRungEscalate (attempts st + 1)) as Hp.
      rewrite remaining_set in Hp. specialize (Hp eq_refl).
      destruct (ladder_rest _ _ _ _ _ _ _ _) as [[st1 evs] act]. destruct act; [change (Z.max 0 (4 - ladderRungEscalate)) with 3%Z in Hp; lia|].
      destruct (ladder_finish _ _ _ _ _ _ _ _ _) as [[? ?] ?].
      change (Z.max 0 (4 - ladderRungEscalate)) with 3%Z in Hp. lia.
  - assert (remaining st = Z.max 0 (4 - rung st))%Z as Hrem.
    { unfold remaining. apply Z.eqb_neq in Hz. by rewrite Hz. }
    pose proof (ladder_rest_progress env generate st cs [] (ladderDraftText st inputs (la_upstream_node a))
      (rung st) (attempts st) Hrem) as Hp.
    destruct (ladder_rest _ _ _ _ _ _ _ _) as [[st1 evs] act]. destruct act; [lia|].
    destruct (ladder_finish _ _ _ _ _ _ _ _ _) as [[? ?] ?]. lia.
Qed.

Lemma ladder_run_progress fs st cs :
  (Z.of_nat (countb advanced (ladder_run node a fs st cs)) <= remaining st)%Z.
Proof.
  revert st cs. induction fs as [|f fs IH]; intros st cs; [apply remaining_nonneg|].
  cbn [ladder_run].
  pose proof (ladder_execute_progress (f_env f) (f_generate f) (f_inputs f) st cs) as Hp.
  destruct (ladder_execute _ _ _ _ _ _ _) as [[st' cs'] o]. rewrite countb_cons.
  specialize (IH st' cs'). unfold cost in Hp. destruct (advanced o); lia.
Qed.
End Progress.

(** * Several ladders in one run *)

(** The shared run state, the ladders waiting for the model, and how many
    escalations have been answered. *)
Record Slots := {
  sl_st : RunState; sl_cs : RunCounters;
  sl_waiting : list (Node * LadderAttrs * LadderEnv * EventBatch * Rung * Z);
  sl_escalated : nat
}.

Definition is_escalation (w : Node * LadderAttrs * LadderEnv * EventBatch * Rung * Z) : bool :=
  match w with (_, _, _, _, REscalate, _) => true | _ => false end.

(** A ladder fires, the model answers one that waits, or another node records
    its outputs. *)
Inductive slot_step : Slots -> Slots -> Prop :=
| slot_fire s env node a inputs st' evs act :
    ladder_start env node a inputs (sl_st s) = (st', evs, act) ->
    slot_step s {| sl_st := st'; sl_cs := sl_cs s;
                   sl_waiting := match act with
                                 | LEnd _ => sl_waiting s
                                 | LCall rg _ n => sl_waiting s ++ [(node, a, env, evs, rg, n)]
                                 end;
                   sl_escalated := sl_escalated s |}
| slot_answer s i node a env evs rg n resp st' cs' o :
    sl_waiting s !! i = Some (node, a, env, evs, rg, n) ->
    ladder_finish env node a rg n evs resp (sl_st s) (sl_cs s) = (st', cs', o) ->
    slot_step s {| sl_st := st'; sl_cs := cs'; sl_waiting := delete i (sl_waiting s);
                   sl_escalated := sl_escalated s +
                     match rg, o with REscalate, OutOk _ => 1 | _, _ => 0 end |}
| slot_other s key outs :
    key <> ladderGlobalEscalatedKey ->
    slot_step s {| sl_st := SetOutputs (sl_st s) key outs; sl_cs := sl_cs s;
                   sl_waiting := sl_waiting s; sl_escalated := sl_escalated s |}.

Definition fired (st : RunState) : bool := as_bool (Outputs st ladderGlobalEscalatedKey !! "fired").

(** The flag is set exactly while the slot is held or used. *)
Definition slot_inv (s : Slots) : Prop :=
  countb is_escalation (sl_waiting s) + sl_escalated s = if fired (sl_st s) then 1 else 0.

Lemma fired_set_other st key outs :
  key <> ladderGlobalEscalatedKey -> fired (SetOutputs st key outs) = fired st.
Proof. intros Hne. unfold fired. rewrite Outputs_SetOutputs. by rewrite decide_False. Qed.

Lemma ladder_ask_fired env node a st evs draft n :
  fired (ladder_ask env node a st evs draft n).1 = fired st.
Proof.
  unfold ladder_ask. repeat case_match; cbn [fst]; try done; apply fired_set_other, ladderStateKey_global.
Qed.

Lemma fired_claim st :
  let '(st', claimed) := CompareAndSetOnce st ladderGlobalEscalatedKey in
  fired st' = true /\ claimed = negb (fired st).
Proof.
  unfold CompareAndSetOnce. fold (fired st). destruct (fired st) eqn:Hf; [done|]. split; [|done].
  unfold fired. rewrite Outputs_SetOutputs, decide_True by done. by rewrite lookup_singleton_eq.
Qed.

(** How a firing moves the flag: it is set by exactly the call that escalates. *)
Lemma ladder_rest_fired env node a st evs draft r n :
  let '(st', _, act) := ladder_rest env node a st evs draft r n in
  match act with
  | LCall REscalate _ _ => fired st = false /\ fired st' = true
  | _ => fired st' = fired st
  end.
Proof.
  unfold ladder_rest. case_if.
  - pose proof (fired_claim st) as Hc. destruct (CompareAndSetOnce _ _) as [st1 claimed].
    destruct Hc as [Hf Hc]. destruct claimed.
    + split; [|done]. by destruct (fired st).
    + rewrite fired_set_other by apply ladderStateKey_global. rewrite Hf. by destruct (fired st).
  - case_if; [done|]. case_if; [|done].
    pose proof (ladder_ask_fired env node a st evs draft n) as Ha. by destruct (ladder_ask _ _ _ _ _ _ _).
Qed.

Lemma ladder_start_fired env node a inputs st :
  let '(st', _, act) := ladder_start env node a inputs st in
  match act with
  | LCall REscalate _ _ => fired st = false /\ fired st' = true
  | _ => fired st' = fired st
  end.
Proof.
  unfold ladder_start. case_if; [done|]. case_if; [done|]. case_if.
  - case_if; [apply fired_set_other, ladderStateKey_global|].
    pose proof (ladder_rest_fired env node a
      (SetOutputs st (ladderStateKey (n_id node)) (ladder_outputs ladderRungEscalate
         (as_int (Outputs st (ladderStateKey (n_id node)) !! "retry_attempts") + 1)))
      (retry_events env node a (as_int (Outputs st (ladderStateKey (n_id node)) !! "retry_attempts") + 1))
      (ladderDraftText st inputs (la_upstream_node a)) ladderRungEscalate
      (as_int (Outputs st (ladderStateKey (n_id node)) !! "retry_attempts") + 1)) as Hr.
    by rewrite fired_set_other in Hr by apply ladderStateKey_global.
  - apply ladder_rest_fired.
Qed.

Lemma countb_delete {A} (f : A -> bool) l i x :
  l !! i = Some x -> countb f (delete i l) + (if f x then 1 else 0) = countb f l.
Proof.
  revert i. induction l as [|y l IH]; intros [|i] Hl; simplify_eq/=; rewrite !countb_cons; [lia|].
  specialize (IH _ Hl). lia.
Qed.

Lemma slot_inv_step s s' : slot_inv s -> slot_step s s' -> slot_inv s'.
Proof.
  unfold slot_inv. intros Hinv Hs.
  destruct Hs as [s env node a inputs st' evs act Hst|s i node a env evs rg n resp st' cs' o Hi Hf|s key outs Hk];
    cbn [sl_st sl_waiting sl_escalated].
  - pose proof (ladder_start_fired env node a inputs (sl_st s)) as Hl. rewrite Hst in Hl.
    destruct act as [o|[] req n]; cbn iota.
    + by rewrite Hl.
    + destruct Hl as [H0 H1]. rewrite countb_app, H1, countb_cons, countb_nil. rewrite H0 in Hinv. cbn [is_escalation]. lia.
    + rewrite countb_app, Hl, countb_cons, countb_nil. cbn [is_escalation]. lia.
  - pose proof (countb_delete is_escalation _ _ _ Hi) as Hd. cbn [is_escalation] in Hd.
    unfold ladder_finish in Hf. destruct rg, resp; inv_ok.
    + rewrite fired_set_other by apply ladderStateKey_global. lia.
    + assert (fired (ReleaseOnce (sl_st s) ladderGlobalEscalatedKey) = false) as ->.
      { unfold fired, Outputs. cbn. by rewrite lookup_delete_eq. }
      destruct (fired (sl_st s)); lia.
    + rewrite fired_set_other by apply ladderStateKey_global. lia.
    + lia.
  - by rewrite fired_set_other.
Qed.

(** * What a resumed run sees *)

Section Resumed.
Context (payload_text : list (string * value) -> string) (env : LadderEnv) (node : Node) (a : LadderAttrs).
Hypothesis Hid : n_id node <> "".

Definition replay (rb : Rebuilt) (evs : EventBatch) : Rebuilt := foldl (rebuild_event payload_text) rb evs.

Lemma replay_app rb e1 e2 : replay rb (e1 ++ e2) = replay (replay rb e1) e2.
Proof. apply foldl_app. Qed.

Lemma replay_rung rb r p attempt :
  field_str p "rung" = Some r -> field_int p "attempt" = Some attempt ->
  replay rb (rung_event env node p) =
  rebuild_rung rb {| ev_Seq := 0; ev_RunID := le_RunID env; ev_NodeID := n_id node;
                     ev_Kind := EventLadderRung; ev_Payload := p |}.
Proof. done. Qed.

Lemma rebuild_rung_set rb run p r attempt :
  field_str p "rung" = Some r -> field_int p "attempt" = Some attempt ->
  let st := rb_state (rebuild_rung rb {| ev_Seq := 0; ev_RunID := run; ev_NodeID := n_id node;
                     ev_Kind := EventLadderRung; ev_Payload := p |}) in
  (r = "retry" -> ladder_rung node st = ladderRungRetry /\ ladder_attempts node st = attempt) /\
  (r = "escalate" -> ladder_rung node st = ladderRungEscalate) /\
  (r = "replan" -> ladder_rung node st = ladderRungReplan /\
                   ladder_attempts node st = ladder_attempts node (rb_state rb)) /\
  (r = "ask" -> ladder_rung node st =
     if bool_decide (n_id node ∈ rb_answered rb) then ladderRungExhausted else ladderRungAsk).
Proof.
  intros Hr Ha. unfold rebuild_rung. cbn [ev_NodeID ev_Payload]. rewrite bool_decide_false by done.
  rewrite Hr, Ha. split_and!; intros ->; repeat (rewrite bool_decide_false by done);
    rewrite bool_decide_true by done; cbn [rb_state rb_set_state];
    destruct (ladder_outputs_read (rb_state rb) node ladderRungRetry attempt) as [? ?]; auto;
    match goal with |- context [ladder_outputs ?x ?y] =>
      destruct (ladder_outputs_read (rb_state rb) node x y) as [-> Hat] end; rewrite ?Hat; done.
Qed.
End Resumed.

Lemma ladder_start_attrs env node a inputs st st1 evs rg req n :
  ladder_start env node a inputs st = (st1, evs, LCall rg req n) ->
  la_target_model a <> "" /\ la_upstream_node a <> "".
Proof. unfold ladder_start. case_bool_decide; [done|]. by case_bool_decide. Qed.

Lemma ladder_start_replan env node a inputs st :
  la_target_model a <> "" -> la_upstream_node a <> "" -> ladder_rung node st = ladderRungReplan ->
  ladder_start env node a inputs st =
    (st, [], LCall RReplan (replan_request env a (ladderDraftText st inputs (la_upstream_node a)))
                   (ladder_attempts node st)).
Proof.
  intros Ht Hu Hr. unfold ladder_start. rewrite !bool_decide_false by done.
  fold (ladder_rung node st) (ladder_attempts node st). by rewrite Hr.
Qed.

(** A ladder ends: whatever the model and the human answer, at most
    [max_retries + 4] of its firings succeed without pausing the run (the
    retries, escalate, replan, the answered question, and no more). *)
Theorem ladder_terminates node a fs st cs :
  ladder_rung node st = ladderRungRetry -> ladder_attempts node st = 0%Z ->
  (Z.of_nat (countb advanced (ladder_run node a fs st cs)) <= maxRetries a + 4)%Z.
Proof.
  intros Hr Ha. etrans; [apply ladder_run_progress|]. unfold remaining. rewrite Hr, Ha. cbn -[maxRetries].
  unfold maxRetries. case_match; lia.
Qed.

(** However the firings of any number of ladders interleave with each
    other and with the rest of the run, at most one escalation call is under
    way or answered per run; a failed call gives the slot back. *)
Theorem one_escalation_per_run s s' :
  sl_waiting s = [] -> sl_escalated s = 0 -> fired (sl_st s) = false -> rtc slot_step s s' ->
  countb is_escalation (sl_waiting s') + sl_escalated s' <= 1.
Proof.
  intros Hw He Hf Hr. assert (slot_inv s) as Hi by (unfold slot_inv; by rewrite Hw, He, Hf).
  assert (slot_inv s') as Hi'.
  { clear Hw He Hf. induction Hr as [|s1 s2 s3 Hs _ IH]; [done|]. by eapply IH, slot_inv_step. }
  unfold slot_inv in Hi'. rewrite Hi'. case_match; lia.
Qed.

(** Resuming after the replan rung runs it again: the live ladder stands
    at ask, the ladder rebuilt from the log at replan, and its next firing
    calls the planner a second time. *)
Theorem resumed_ladder_replans payload_text env node a inputs st st1 cs st2 cs2 rb evs req n resp res :
  n_id node <> "" ->
  ladder_start env node a inputs st = (st1, evs, LCall RReplan req n) ->
  ladder_finish env node a RReplan n evs (Ok resp) st1 cs = (st2, cs2, OutOk res) ->
  let rb' := replay payload_text rb (r_Events res) in
  ladder_rung node st2 = ladderRungAsk /\ ladder_rung node (rb_state rb') = ladderRungReplan /\
  forall env' inputs', exists st' evs' req' n',
    ladder_start env' node a inputs' (rb_state rb') = (st', evs', LCall RReplan req' n').
Proof.
  intros Hid Hs Hf. cbn zeta. unfold ladder_finish in Hf. injection Hf as <- <- <-.
  assert (ladder_rung node (rb_state (replay payload_text rb
    (evs ++ rung_event env node [("rung", VStr "replan"); ("tokens", VInt (lp_TokensUsed resp))] ++
     AppendKind [] (le_RunID env) (n_id node) EventPlanCreated
       [("verbosity", VStr "standard"); ("model", VStr (plannerModel a)); ("tokens", VInt (lp_TokensUsed resp))])))
    = ladderRungReplan) as Hr.
  { rewrite !replay_app. erewrite (replay_rung _ _ _ _ "replan" _ 0%Z) by reflexivity.
    match goal with |- context [rebuild_rung ?x ?y] =>
      destruct (rebuild_rung_set node Hid x (le_RunID env) (ev_Payload y) "replan" 0%Z eq_refl eq_refl)
        as (_ & _ & Hp & _) end.
    apply Hp. done. }
  split; [apply ladder_outputs_read|]. split; [exact Hr|].
  intros env' inputs'. destruct (ladder_start_attrs _ _ _ _ _ _ _ _ _ _ Hs) as [Ht Hu].
  do 4 eexists. apply (ladder_start_replan env' node a inputs' _ Ht Hu Hr).
Qed.

Definition d_ladder : LadderAttrs :=
  {| la_target_model := "big"; la_upstream_node := "draft"; la_max_retries := 1; la_planner_model := "";
     la_ask_question := ""; la_fallback_chain_id := "" |}.
Definition d_ladder_node : Node := {| n_id := "ladder"; n_kind := "escalation_ladder"; n_title := ""; n_inputs := []; n_outputs := []; n_attrs := ALadder d_ladder; n_dials := [] |}.
Definition d_ladder_env : LadderEnv :=
  {| le_RunID := "r1"; le_AskWithheld := false; le_prompt := fun _ => ""; le_answer := Some "stop";
     le_pending_err := None |}.
Definition d_answering : Firing :=
  {| f_env := d_ladder_env;
     f_generate := fun _ => Ok {| lp_Content := "text"; lp_TokensUsed := 7; lp_CostUSD := 1 |};
     f_inputs := {["trigger" := VStr "draft text"]} |}.
Definition d_zero_counters : RunCounters :=
  {| rc_LLMTokensUsed := 0; rc_LLMCallsMade := 0; rc_ToolCallsMade := 0; rc_CostUSD := 0;
     rc_WallclockStart := 0; rc_BacktracksUsed := 0 |}.

Lemma ladder_terminates_witness :
  countb advanced (ladder_run d_ladder_node d_ladder (repeat d_answering 9) NewRunState d_zero_counters) = 4 /\
  (Z.of_nat (countb advanced (ladder_run d_ladder_node d_ladder (repeat d_answering 9) NewRunState d_zero_counters))
     <= maxRetries d_ladder + 4)%Z.
Proof. split; [vm_compute; reflexivity|]. apply ladder_terminates; vm_compute; reflexivity. Defined.

Definition d_slots : Slots :=
  {| sl_st := SetOutputs NewRunState (ladderStateKey "ladder") (ladder_outputs ladderRungEscalate 1);
     sl_cs := d_zero_counters; sl_waiting := []; sl_escalated := 0 |}.

Definition d_fired : RunState * EventBatch * LadderAction :=
  ladder_start d_ladder_env d_ladder_node d_ladder ∅ (sl_st d_slots).
Definition d_slots_fired : Slots :=
  {| sl_st := d_fired.1.1; sl_cs := d_zero_counters;
     sl_waiting := match d_fired.2 with
                   | LEnd _ => []
                   | LCall rg _ n => [(d_ladder_node, d_ladder, d_ladder_env, d_fired.1.2, rg, n)]
                   end;
     sl_escalated := 0 |}.

Lemma one_escalation_per_run_witness :
  countb is_escalation (sl_waiting d_slots_fired) = 1 /\
  countb is_escalation (sl_waiting d_slots_fired) + sl_escalated d_slots_fired <= 1.
Proof.
  split; [vm_compute; reflexivity|].
  apply (one_escalation_per_run d_slots); [vm_compute; reflexivity..|].
  apply rtc_once, (slot_fire d_slots d_ladder_env d_ladder_node d_ladder ∅ d_fired.1.1 d_fired.1.2 d_fired.2).
  by rewrite <- !surjective_pairing.
Defined.

Lemma resumed_ladder_replans_witness :
  exists st2 res rb',
    ladder_rung d_ladder_node st2 = ladderRungAsk /\ r_Outputs res !! "rung" = Some (VStr "replan") /\
    ladder_rung d_ladder_node (rb_state rb') = ladderRungReplan.
Proof.
  pose (st := SetOutputs NewRunState (ladderStateKey "ladder") (ladder_outputs ladderRungReplan 1)).
  pose (rb := {| rb_state := st; rb_task := TaskState.NewTaskState; rb_answered := ∅ |}).
  pose (resp := {| lp_Content := "plan"; lp_TokensUsed := 7; lp_CostUSD := 1 |}).
  destruct (ladder_finish d_ladder_env d_ladder_node d_ladder RReplan 1 [] (Ok resp) st d_zero_counters)
    as [[st2 cs2] o] eqn:Hf.
  destruct o as [res|]; [|discriminate Hf].
  exists st2, res, (replay (fun _ => "") rb (r_Events res)).
  pose proof (resumed_ladder_replans (fun _ => "") d_ladder_env d_ladder_node d_ladder ∅ st st d_zero_counters
    st2 cs2 rb [] (replan_request d_ladder_env d_ladder "") 1 resp res) as Ht.
  destruct Ht as (H1 & H2 & _).
  - discriminate.
  - vm_compute. reflexivity.
  - exact Hf.
  - split; [exact H1|]. split; [|exact H2]. injection Hf as _ _ <-. vm_compute. reflexivity.
Defined.
