(* ===== verification/Branch.v ===== *)
(** The [decision] executor and its condition language
    (core/agentgraph/exec_control.go): tokens, the recursive-descent evaluator,
    loose comparison, and the liveness of the decision's out-edges.

    Numbers are exact decimals: a literal or string of more than 15 significant
    digits, which float64 would round, is compared exactly here; hexadecimal
    floats, infinities and NaN are not read. *)
From S2P Require Import Prelude GoString AgentGraph Kernel.
From Stdlib Require Import Ascii String.
Open Scope string_scope.
Open Scope list_scope.

(** * Decimal numbers *)

Definition digit_val (c : ascii) : Z := Z.of_N (N_of_ascii c) - 48.

(** Reads a run of digits. *)
Fixpoint read_digits (acc : Z) (n : nat) (l : list ascii) : Z * nat * list ascii :=
  match l with
  | c :: l' => if is_digit c then read_digits (acc * 10 + digit_val c) (S n) l' else (acc, n, l)
  | [] => (acc, n, [])
  end.

Definition dot : ascii := ascii_of_N 46.
Definition is_char (c : ascii) (n : N) : bool := N.eqb (N_of_ascii c) n.

(** Digits with an optional point; at least one digit. *)
Definition read_mantissa (l : list ascii) : option (dec * list ascii) :=
  let '(ip, n1, l1) := read_digits 0 0 l in
  let '(m, e, n, l2) :=
    match l1 with
    | c :: l1' => if is_char c 46 then
                    let '(m, n2, l2) := read_digits ip 0 l1' in (m, (- Z.of_nat n2)%Z, (n1 + n2)%nat, l2)
                  else (ip, 0%Z, n1, l1)
    | [] => (ip, 0%Z, n1, [])
    end in
  if Nat.eqb n 0 then None else Some ({| d_man := m; d_exp := e |}, l2).

Definition read_sign (l : list ascii) : Z * list ascii :=
  match l with
  | c :: l' => if is_char c 45 then ((-1)%Z, l') else if is_char c 43 then (1%Z, l') else (1%Z, l)
  | [] => (1%Z, [])
  end.

(** [strconv.ParseFloat] on decimal syntax. *)
Definition ParseFloat (s : string) : result dec string :=
  let bad := Err ("strconv.ParseFloat: parsing " +:+ fmt_q s +:+ ": invalid syntax") in
  let '(sg, l) := read_sign (list_of s) in
  match read_mantissa l with
  | None => bad
  | Some (d, []) => Ok {| d_man := sg * d_man d; d_exp := d_exp d |}
  | Some (d, c :: l) =>
      if is_char c 101 || is_char c 69 then
        let '(es, l) := read_sign l in
        match read_digits 0 0 l with
        | (e, S _, []) => Ok {| d_man := sg * d_man d; d_exp := d_exp d + es * e |}
        | _ => bad
        end
      else bad
  end.

(** [a < b] and [a = b] on decimals, at a common exponent. *)
Definition scaled (d : dec) (e : Z) : Z := d_man d * 10 ^ (d_exp d - e).
Definition dec_cmp (a b : dec) : comparison :=
  let e := Z.min (d_exp a) (d_exp b) in Z.compare (scaled a e) (scaled b e).

(** [%v] of a float64, which is [%g] with the shortest digits: exponent form
    below 10^-4 and from 10^6 on. *)
Fixpoint strip_zeros (fuel : nat) (m e : Z) : Z * Z :=
  match fuel with
  | 0 => (m, e)
  | S fuel => if Z.eqb (m mod 10) 0 then strip_zeros fuel (m / 10) (e + 1) else (m, e)
  end.

Definition digits_of (m : Z) : list ascii := list_of (pretty m).
Definition zeros (n : Z) : list ascii := repeat (ascii_of_N 48) (Z.to_nat n).

Definition exponent_text (x : Z) : string :=
  (if (x <? 0)%Z then "-" else "+") +:+ (if (Z.abs x <? 10)%Z then "0" else "") +:+ fmt_d (Z.abs x).

Definition fmt_float (d : dec) : string :=
  if Z.eqb (d_man d) 0 then "0" else
  let sign := if (d_man d <? 0)%Z then "-" else "" in
  let '(m, e) := strip_zeros (String.length (pretty (Z.abs (d_man d)))) (Z.abs (d_man d)) (d_exp d) in
  let ds := digits_of m in
  let n := Z.of_nat (List.length ds) in
  let dp := (n + e)%Z in
  let x := (dp - 1)%Z in
  sign +:+
  (if (x <? -4)%Z || (6 <=? x)%Z then
     match ds with
     | [] => ""
     | c :: rest => String c (match rest with [] => "" | _ => String dot (of_list rest) end) +:+
                    "e" +:+ exponent_text x
     end
   else if (dp <=? 0)%Z then "0." +:+ of_list (zeros (- dp) ++ ds)
   else if (n <=? dp)%Z then of_list (ds ++ zeros (dp - n))
   else of_list (take (Z.to_nat dp) ds) +:+ String dot (of_list (drop (Z.to_nat dp) ds))).

Example fmt_float_small : map fmt_float
  [{| d_man := 15; d_exp := -1 |}; {| d_man := 100; d_exp := 0 |}; {| d_man := 999999; d_exp := 0 |};
   {| d_man := 1000000; d_exp := 0 |}; {| d_man := -1234567; d_exp := 0 |}; {| d_man := 5; d_exp := -4 |};
   {| d_man := 5; d_exp := -5 |}; {| d_man := 0; d_exp := -1 |}] =
  ["1.5"; "100"; "999999"; "1e+06"; "-1.234567e+06"; "0.0005"; "5e-05"; "0"].
Proof. vm_compute. reflexivity. Qed.

(** * Values *)

Section Values.
(** [%v] of the types the model keeps opaque. *)
Context (fmt_other : value -> string).

Fixpoint fmt_v (v : value) : string :=
  match v with
  | VNil => "<nil>"
  | VStr s => s
  | VBool b => if b then "true" else "false"
  | VInt z => fmt_d z
  | VFloat d => fmt_float d
  | VList l => "[" +:+ Join (map fmt_v l) " " +:+ "]"
  | _ => fmt_other v
  end.

Definition equalsLoose (a b : value) : bool := bool_decide (fmt_v a = fmt_v b).
End Values.

Definition truthy (v : value) : bool :=
  match v with
  | VNil => false
  | VBool b => b
  | VStr s => negb (bool_decide (s = ""))
  | VInt z => negb (Z.eqb z 0)
  | VFloat d => negb (Z.eqb (d_man d) 0)
  | _ => true
  end.

Definition type_name (v : value) : string :=
  match v with
  | VNil => "<nil>" | VBool _ => "bool" | VStr _ => "string" | VInt _ => "int" | VFloat _ => "float64"
  | VMessage _ => "agentgraph.Message" | VMessages _ => "[]agentgraph.Message"
  | VToolCall _ => "agentgraph.ToolCallRequest" | VToolCalls _ => "[]agentgraph.ToolCallRequest"
  | VToolResults _ => "[]agentgraph.ToolResult"
  | VList _ => "[]interface {}" | VMap _ => "map[string]interface {}"
  | VPorts _ => "agentgraph.PortValues" | VPortsList _ => "[]agentgraph.PortValues" | VOther _ => "?"
  end.

Definition toFloat (v : value) : result dec string :=
  match v with
  | VInt z => Ok {| d_man := z; d_exp := 0 |}
  | VFloat d => Ok d
  | VStr s => ParseFloat s
  | _ => Err ("branch: " +:+ type_name v +:+ " not numeric")
  end.

(** * Tokens *)

Inductive branchToken :=
| tkIdent (s : string) | tkString (s : string) | tkNumber (s : string) | tkBool (b : bool)
| tkOp (s : string) | tkLParen | tkRParen | tkAnd | tkOr | tkNot.

#[export] Instance branchToken_eq_dec : EqDecision branchToken.
Proof. solve_decision. Defined.

Definition tk_text (t : branchToken) : string :=
  match t with
  | tkIdent s | tkString s | tkNumber s | tkOp s => s
  | tkBool b => if b then "true" else "false"
  | _ => ""
  end.

Definition is_letter (c : ascii) : bool := is_lower c || is_upper c || is_char c 95.
Definition ident_char (c : ascii) : bool := is_letter c || is_digit c || is_char c 46.
Definition number_char (c : ascii) : bool := is_char c 46 || is_digit c.
Definition blank (c : ascii) : bool := is_char c 32 || is_char c 9 || is_char c 10.

(** Longest prefix of characters that satisfy [f], and the rest. *)
Fixpoint span (f : ascii -> bool) (l : list ascii) : list ascii * list ascii :=
  match l with
  | c :: l' => if f c then let '(a, b) := span f l' in (c :: a, b) else ([], l)
  | [] => ([], [])
  end.

Definition keyword (ident : string) : branchToken :=
  let w := ToLower ident in
  if bool_decide (w = "and") then tkAnd else if bool_decide (w = "or") then tkOr
  else if bool_decide (w = "not") then tkNot else if bool_decide (w = "true") then tkBool true
  else if bool_decide (w = "false") then tkBool false else tkIdent ident.

Definition starts (c : ascii) (n : N) (l : list ascii) (m : N) : bool :=
  is_char c n && match l with d :: _ => is_char d m | [] => false end.

(** One token (or a blank) off the front of [c :: l]; [i] is the position of
    [c].  The count is how far the scan moves. *)
Definition next_token (i : Z) (c : ascii) (l : list ascii)
  : result (option branchToken * nat * list ascii) string :=
  if blank c then Ok (None, 1, l)
  else if is_char c 40 then Ok (Some tkLParen, 1, l)
  else if is_char c 41 then Ok (Some tkRParen, 1, l)
  else if is_char c 34 then
    let '(body, rest) := span (fun d => negb (is_char d 34)) l in
    match rest with
    | [] => Err ("branch: unterminated string at pos " +:+ fmt_d i)
    | _ :: rest => Ok (Some (tkString (of_list body)), 2 + List.length body, rest)
    end
  else if starts c 61 l 61 then Ok (Some (tkOp "=="), 2, tail l)
  else if starts c 33 l 61 then Ok (Some (tkOp "!="), 2, tail l)
  else if is_char c 60 || is_char c 62 then
    match l with
    | d :: l' => if is_char d 61 then Ok (Some (tkOp (String c "=")), 2, l')
                 else Ok (Some (tkOp (String c "")), 1, l)
    | [] => Ok (Some (tkOp (String c "")), 1, l)
    end
  else if is_digit c then
    let '(ds, rest) := span number_char (c :: l) in
    Ok (Some (tkNumber (of_list ds)), List.length ds, rest)
  else if is_letter c then
    let '(ds, rest) := span ident_char (c :: l) in
    Ok (Some (keyword (of_list ds)), List.length ds, rest)
  else Err ("branch: unexpected char '" +:+ String c "" +:+ "' at pos " +:+ fmt_d i).

(** The scan; every round takes at least one character. *)
Fixpoint tokenize_loop (fuel : nat) (i : Z) (l : list ascii) : option (result (list branchToken) string) :=
  match l with
  | [] => Some (Ok [])
  | c :: l =>
      match fuel with
      | 0 => None
      | S fuel =>
          match next_token i c l with
          | Err e => Some (Err e)
          | Ok (ot, n, rest) =>
              match tokenize_loop fuel (i + Z.of_nat n) rest with
              | Some (Ok ts) => Some (Ok (match ot with Some t => t :: ts | None => ts end))
              | r => r
              end
          end
      end
  end.

Definition tokenizeBranch (s : string) : option (result (list branchToken) string) :=
  tokenize_loop (String.length s) 0 (list_of s).

(** * The evaluator *)

Fixpoint split_dots (acc l : list ascii) : list string :=
  match l with
  | [] => [of_list (rev acc)]
  | c :: l => if is_char c 46 then of_list (rev acc) :: split_dots [] l else split_dots (c :: acc) l
  end.

Fixpoint walk (cur : value) (segs : list string) : value :=
  match segs with
  | [] => cur
  | seg :: segs =>
      match cur with
      | VMap m => walk (default VNil (assoc seg m)) segs
      | _ => VNil
      end
  end.

Definition lookup_name (inputs : PortValues) (name : string) : value :=
  match split_dots [] (list_of name) with
  | [] => VNil
  | p :: segs => match inputs !! p with Some v => walk v segs | None => VNil end
  end.

Section Eval.
Context (fmt_other : value -> string) (inputs : PortValues).

Definition compareValues (left_ : value) (op : string) (rhs : branchToken) : result bool string :=
  if bool_decide (op = "==" \/ op = "!=") then
    let rv := match rhs with
              | tkString s | tkIdent s => Ok (VStr s)
              | tkBool b => Ok (VBool b)
              | tkNumber s => match ParseFloat s with Ok d => Ok (VFloat d) | Err e => Err e end
              | _ => Ok VNil
              end in
    match rv with
    | Err e => Err e
    | Ok rv => let eq := equalsLoose fmt_other left_ rv in
               Ok (if bool_decide (op = "==") then eq else negb eq)
    end
  else if bool_decide (op ∈ ["<"; ">"; "<="; ">="]) then
    let! ln := toFloat left_ in
    let! rn := ParseFloat (tk_text rhs) in
    Ok (match dec_cmp ln rn with
        | Lt => bool_decide (op = "<" \/ op = "<=")
        | Gt => bool_decide (op = ">" \/ op = ">=")
        | Eq => bool_decide (op = "<=" \/ op = ">=")
        end)
  else Err ("branch: unsupported operator " +:+ fmt_q op).

(** What is left to read, and the position of its first token. *)
Definition PState : Type := Z * list branchToken.
Definition pos (p : PState) : Z := p.1.
Definition advance (p : PState) : PState := ((p.1 + 1)%Z, tail p.2).

Inductive Level :=
| LOr | LOrLoop (left_ : bool) | LAnd | LAndLoop (left_ : bool) | LNot | LAtom.

Definition PResult : Type := option (result (bool * PState) string).

Definition pbind (r : PResult) (k : bool -> PState -> PResult) : PResult :=
  match r with
  | None => None
  | Some (Err e) => Some (Err e)
  | Some (Ok (b, p)) => k b p
  end.

(** An identifier: a comparison when an operator follows, else its truth. *)
Definition parse_ident (name : string) (p : PState) : result (bool * PState) string :=
  let v := lookup_name inputs name in
  match p.2 with
  | tkOp op :: rest =>
      match rest with
      | [] => Err ("branch: expected rhs after " +:+ fmt_q op)
      | rhs :: _ => let! b := compareValues v op rhs in Ok (b, advance (advance p))
      end
  | _ => Ok (truthy v, p)
  end.

(** [parseOr], its loop, [parseAnd], its loop, [parseNot], [parseAtom]. *)
Fixpoint parse (fuel : nat) (lvl : Level) (p : PState) : PResult :=
  match fuel with
  | 0 => None
  | S fuel =>
      match lvl with
      | LOr => pbind (parse fuel LAnd p) (fun l p => parse fuel (LOrLoop l) p)
      | LOrLoop l =>
          match p.2 with
          | tkOr :: _ => pbind (parse fuel LAnd (advance p)) (fun r p => parse fuel (LOrLoop (l || r)) p)
          | _ => Some (Ok (l, p))
          end
      | LAnd => pbind (parse fuel LNot p) (fun l p => parse fuel (LAndLoop l) p)
      | LAndLoop l =>
          match p.2 with
          | tkAnd :: _ => pbind (parse fuel LNot (advance p)) (fun r p => parse fuel (LAndLoop (l && r)) p)
          | _ => Some (Ok (l, p))
          end
      | LNot =>
          match p.2 with
          | tkNot :: _ => pbind (parse fuel LNot (advance p)) (fun v p => Some (Ok (negb v, p)))
          | _ => parse fuel LAtom p
          end
      | LAtom =>
          match p.2 with
          | [] => Some (Err "branch: unexpected end of expression")
          | tkLParen :: _ =>
              pbind (parse fuel LOr (advance p)) (fun v p =>
                match p.2 with
                | tkRParen :: _ => Some (Ok (v, advance p))
                | _ => Some (Err ("branch: expected ')' at pos " +:+ fmt_d (pos p)))
                end)
          | tkBool b :: _ => Some (Ok (b, advance p))
          | tkIdent name :: _ => Some (parse_ident name (advance p))
          | _ => Some (Err ("branch: unexpected token at pos " +:+ fmt_d (pos p)))
          end
      end
  end.

(** Enough for the recursion depth of [n] tokens. *)
Definition parse_fuel (n : nat) : nat := 4 * n + 4.

Definition evalTokens (ts : list branchToken) : result bool string :=
  match parse (parse_fuel (List.length ts)) LOr (0%Z, ts) with
  | None => Err "branch: out of fuel"
  | Some (Err e) => Err e
  | Some (Ok (b, p)) =>
      match p.2 with
      | [] => Ok b
      | _ => Err ("branch: unexpected trailing tokens at pos " +:+ fmt_d (pos p))
      end
  end.

Definition evalBranchExpr (expr : string) : result bool string :=
  match tokenizeBranch expr with
  | None => Err "branch: out of fuel"
  | Some (Err e) => Err e
  | Some (Ok ts) => evalTokens ts
  end.
End Eval.
