(* ===== verification/BranchProps.v ===== *)
(** Correctness of the condition language: scanner and evaluator end on every
    input, the scanner reads back what is printed, and the evaluator implements
    the grammar (or over and over not, left to right, every operand
    evaluated). *)
From S2P Require Import Prelude GoString AgentGraph Branch.
From Stdlib Require Import Ascii String.
Open Scope string_scope.
Open Scope list_scope.

(** * The scanner *)

Lemma span_app f l : (span f l).1 ++ (span f l).2 = l.
Proof. induction l as [|c l IH]; [done|]. cbn. destruct (f c); [|done]. destruct (span f l). cbn in *. by rewrite IH. Qed.

Lemma span_length f l : (List.length (span f l).1 + List.length (span f l).2 = List.length l)%nat.
Proof. rewrite <- length_app. by rewrite span_app. Qed.

(** A token takes exactly the characters it says, and at least one. *)
Lemma next_token_length i c l ot n rest :
  next_token i c l = Ok (ot, n, rest) -> (n + List.length rest = S (List.length l) /\ 1 <= n)%nat.
Proof.
  unfold next_token. case_if; [intros; inv_ok; cbn; lia|]. case_if; [intros; inv_ok; cbn; lia|].
  case_if; [intros; inv_ok; cbn; lia|]. case_if.
  { pose proof (span_length (fun d => negb (is_char d 34)) l) as Hs.
    destruct (span _ l) as [body rest']. destruct rest' as [|d rest']; intros; inv_ok. cbn in *. lia. }
  case_if; [destruct l; [unfold starts in *; by rewrite andb_false_r in *|intros; inv_ok; cbn; lia]|].
  case_if; [destruct l; [unfold starts in *; by rewrite andb_false_r in *|intros; inv_ok; cbn; lia]|].
  case_if; [destruct l as [|d l]; [intros; inv_ok; cbn; lia|]; case_if; intros; inv_ok; cbn; lia|].
  case_if.
  { pose proof (span_length number_char (c :: l)) as Hs. cbn [span] in *.
    assert (number_char c = true) as Hc by (unfold number_char; rewrite orb_true_iff; by right).
    rewrite Hc in *. destruct (span _ l). intros; inv_ok. cbn in *. lia. }
  case_if; [|done].
  pose proof (span_length ident_char (c :: l)) as Hs. cbn [span] in *.
  assert (ident_char c = true) as Hc by (unfold ident_char; rewrite !orb_true_iff; by left; left).
  rewrite Hc in *. destruct (span _ l). intros; inv_ok. cbn in *. lia.
Qed.

Lemma tokenize_loop_total fuel i l : (List.length l <= fuel)%nat -> tokenize_loop fuel i l <> None.
Proof.
  revert i l. induction fuel as [|fuel IH]; intros i [|c l] Hl; cbn in *; try done; [lia|].
  destruct (next_token i c l) as [[[ot n] rest]|e] eqn:Hn; [|done].
  apply next_token_length in Hn as [Hn1 Hn2].
  specialize (IH (i + Z.of_nat n)%Z rest ltac:(lia)). destruct (tokenize_loop _ _ rest) as [[ts|e]|]; done.
Qed.

(** More fuel changes nothing. *)
Lemma tokenize_loop_more fuel fuel' i l r :
  tokenize_loop fuel i l = Some r -> (fuel <= fuel')%nat -> tokenize_loop fuel' i l = Some r.
Proof.
  revert fuel' i l r. induction fuel as [|fuel IH]; intros [|fuel'] i [|c l] r Hr Hle; cbn in *; try done; try lia.
  destruct (next_token i c l) as [[[ot n] rest]|e]; [|done].
  destruct (tokenize_loop fuel _ rest) as [r'|] eqn:Ht; [|done].
  by rewrite (IH fuel' _ _ r' Ht ltac:(lia)).
Qed.

(** ** Printing tokens *)

Definition tk_print (t : branchToken) : string :=
  match t with
  | tkIdent s | tkNumber s | tkOp s => s
  | tkString s => dquote +:+ s +:+ dquote
  | tkBool b => if b then "true" else "false"
  | tkLParen => "(" | tkRParen => ")" | tkAnd => "and" | tkOr => "or" | tkNot => "not"
  end.

Fixpoint print_tokens (ts : list branchToken) : string :=
  match ts with [] => "" | t :: ts => tk_print t +:+ String (ascii_of_N 32) (print_tokens ts) end.

(** Tokens the scanner can produce. *)
Definition tk_ok (t : branchToken) : bool :=
  match t with
  | tkIdent s =>
      match list_of s with
      | [] => false
      | c :: l => is_letter c && forallb ident_char l && bool_decide (keyword s = tkIdent s)
      end
  | tkString s => forallb (fun c => negb (is_char c 34)) (list_of s)
  | tkNumber s =>
      match list_of s with [] => false | c :: l => is_digit c && forallb number_char l end
  | tkOp s => bool_decide (s ∈ ["=="; "!="; "<"; ">"; "<="; ">="])
  | _ => true
  end.

Lemma span_all f a b :
  forallb f a = true -> match b with c :: _ => f c = false | [] => True end -> span f (a ++ b) = (a, b).
Proof.
  induction a as [|c a IH]; cbn; intros Ha Hb.
  - destruct b as [|d b]; [done|]. cbn. by rewrite Hb.
  - apply andb_true_iff in Ha as [Hc Ha]. rewrite Hc, IH; done.
Qed.

(** The first character of an identifier or number decides its branch. *)
Lemma letter_not c : is_letter c = true ->
  blank c = false /\ is_char c 40 = false /\ is_char c 41 = false /\ is_char c 34 = false /\
  is_char c 61 = false /\ is_char c 33 = false /\ is_char c 60 = false /\ is_char c 62 = false /\ is_digit c = false.
Proof.
  unfold is_letter, blank, is_char, is_lower, is_upper, is_digit. intros H.
  repeat match goal with |- context [N.eqb ?a ?b] => destruct (N.eqb_spec a b) as [E|]; [rewrite E in H; done|] end.
  split_and!; try done. apply not_true_is_false. intros Hd. revert H.
  rewrite !orb_true_iff, !andb_true_iff, !N.leb_le, N.eqb_eq in *. lia.
Qed.

Lemma digit_not c : is_digit c = true ->
  blank c = false /\ is_char c 40 = false /\ is_char c 41 = false /\ is_char c 34 = false /\
  is_char c 61 = false /\ is_char c 33 = false /\ is_char c 60 = false /\ is_char c 62 = false.
Proof.
  unfold blank, is_char, is_digit. intros H.
  repeat match goal with |- context [N.eqb ?a ?b] => destruct (N.eqb_spec a b) as [E|]; [rewrite E in H; done|] end.
  done.
Qed.

Lemma next_token_print t i rest :
  tk_ok t = true ->
  exists c l n, list_of (tk_print t) = c :: l /\
    next_token i c (l ++ ascii_of_N 32 :: rest) = Ok (Some t, n, ascii_of_N 32 :: rest).
Proof.
  destruct t as [s|s|s|b|s| | | | |]; intros Hok; cbn [tk_ok tk_print] in *.
  - destruct (list_of s) as [|c l] eqn:Hs; [done|]. apply andb_true_iff in Hok as [Hok Hk].
    apply andb_true_iff in Hok as [Hc Hl]. apply bool_decide_eq_true in Hk.
    destruct (letter_not c Hc) as (H1 & H2 & H3 & H4 & H5 & H6 & H7 & H8 & H9).
    exists c, l, (S (List.length l)). split; [done|]. unfold next_token, starts.
    rewrite H1, H2, H3, H4, H5, H6, H7, H8, H9, Hc. cbn [andb orb].
    change (c :: l ++ ascii_of_N 32 :: rest) with ((c :: l) ++ ascii_of_N 32 :: rest).
    rewrite span_all; [|cbn; unfold ident_char at 1; by rewrite Hc, Hl|done].
    rewrite <- Hs, of_list_of, Hk. rewrite Hs. done.
  - exists (ascii_of_N 34), (list_of s ++ [ascii_of_N 34]), (2 + List.length (list_of s)).
    split; [by rewrite list_of_app, list_of_app|]. unfold next_token. cbn [blank is_char].
    change (blank (ascii_of_N 34)) with false. change (is_char (ascii_of_N 34) 40) with false.
    change (is_char (ascii_of_N 34) 41) with false. change (is_char (ascii_of_N 34) 34) with true. cbn iota.
    rewrite <- app_assoc. cbn [app]. rewrite span_all; [|done|done]. by rewrite of_list_of.
  - destruct (list_of s) as [|c l] eqn:Hs; [done|]. apply andb_true_iff in Hok as [Hc Hl].
    destruct (digit_not c Hc) as (H1 & H2 & H3 & H4 & H5 & H6 & H7 & H8).
    exists c, l, (S (List.length l)). split; [done|]. unfold next_token, starts.
    rewrite H1, H2, H3, H4, H5, H6, H7, H8, Hc. cbn [andb orb].
    change (c :: l ++ ascii_of_N 32 :: rest) with ((c :: l) ++ ascii_of_N 32 :: rest).
    rewrite span_all; [|cbn; unfold number_char at 1; by rewrite Hc, Hl, orb_true_r|done].
    rewrite <- Hs, of_list_of. rewrite Hs. done.
  - destruct b; do 3 eexists; (split; [reflexivity|]); reflexivity.
  - apply bool_decide_eq_true in Hok. rewrite !elem_of_cons, elem_of_nil in Hok.
    destruct Hok as [->|[->|[->|[->|[->|[->|[]]]]]]]; do 3 eexists; (split; [reflexivity|]); reflexivity.
  - do 3 eexists; (split; [reflexivity|]); reflexivity.
  - do 3 eexists; (split; [reflexivity|]); reflexivity.
  - do 3 eexists; (split; [reflexivity|]); reflexivity.
  - do 3 eexists; (split; [reflexivity|]); reflexivity.
  - do 3 eexists; (split; [reflexivity|]); reflexivity.
Qed.

Lemma tokenize_print_loop ts : forall fuel i,
  forallb tk_ok ts = true -> (List.length (list_of (print_tokens ts)) <= fuel)%nat ->
  tokenize_loop fuel i (list_of (print_tokens ts)) = Some (Ok ts).
Proof.
  induction ts as [|t ts IH]; intros fuel i Hok Hle; [by destruct fuel|].
  cbn [forallb] in Hok. apply andb_true_iff in Hok as [Ht Hok].
  cbn [print_tokens] in *. rewrite list_of_app in *. cbn [list_of list_ascii_of_string] in *.
  fold (list_of (print_tokens ts)) in *.
  destruct (next_token_print t i (list_of (print_tokens ts)) Ht) as (c & l & n & Hl & Hn).
  rewrite Hl in *. cbn [app List.length] in Hle. rewrite length_app in Hle. cbn [List.length] in Hle.
  destruct fuel as [|fuel]; [lia|]. cbn [app tokenize_loop]. rewrite Hn.
  destruct fuel as [|fuel]; [lia|]. cbn [tokenize_loop].
  change (next_token (i + Z.of_nat n) (ascii_of_N 32) (list_of (print_tokens ts)))
    with (Ok (E := string) (@None branchToken, 1, list_of (print_tokens ts))).
  cbn iota. rewrite IH; [done|done|lia].
Qed.

Lemma tokenize_print ts : forallb tk_ok ts = true -> tokenizeBranch (print_tokens ts) = Some (Ok ts).
Proof. intros Hok. unfold tokenizeBranch. apply tokenize_print_loop; [done|]. by rewrite length_list_of. Qed.

(** * The evaluator *)

Section Parser.
Context (fmt_other : value -> string) (inputs : PortValues).
Let parse := parse fmt_other inputs.

Lemma pbind_inv r k out :
  pbind r k = Some out ->
  (exists e, r = Some (Err e) /\ out = Err e) \/ (exists b p, r = Some (Ok (b, p)) /\ k b p = Some out).
Proof. destruct r as [[[b p]|e]|]; cbn; intros H; [right; eauto|left; exists e; naive_solver|done]. Qed.

(** Results do not depend on the fuel. *)
Lemma parse_more fuel lvl p out fuel' :
  parse fuel lvl p = Some out -> (fuel <= fuel')%nat -> parse fuel' lvl p = Some out.
Proof.
  revert lvl p out fuel'. unfold parse.
  induction fuel as [|fuel IH]; intros lvl p out [|fuel'] H Hle; try done; [lia|].
  assert (forall lvl p out, Branch.parse fmt_other inputs fuel lvl p = Some out ->
            Branch.parse fmt_other inputs fuel' lvl p = Some out) as IH' by (intros; eapply IH; eauto; lia).
  assert (forall lvl p k k', (forall b q out, k b q = Some out -> k' b q = Some out) ->
    forall out, pbind (Branch.parse fmt_other inputs fuel lvl p) k = Some out ->
    pbind (Branch.parse fmt_other inputs fuel' lvl p) k' = Some out) as Hb.
  { intros l q k k' Hk o [(e & Hr & ->)|(b & q' & Hr & Hk')]%pbind_inv; rewrite (IH' _ _ _ Hr); [done|]. by apply Hk. }
  cbn in *. destruct lvl.
  - eapply Hb; [|exact H]. intros. by apply IH'.
  - destruct p.2 as [|[] ts]; try done. eapply Hb; [|exact H]. intros. by apply IH'.
  - eapply Hb; [|exact H]. intros. by apply IH'.
  - destruct p.2 as [|[] ts]; try done. eapply Hb; [|exact H]. intros. by apply IH'.
  - destruct p.2 as [|[] ts]; try (by apply IH'). eapply Hb; [|exact H]. done.
  - destruct p.2 as [|[] ts]; try done. eapply Hb; [|exact H]. done.
Qed.

Definition rank (lvl : Level) : nat :=
  match lvl with LOr => 4 | LOrLoop _ => 1 | LAnd => 3 | LAndLoop _ => 1 | LNot => 2 | LAtom => 1 end.

Definition left_of (p : PState) : nat := List.length p.2.

(** A level that reads an operand takes at least one token. *)
Definition takes (lvl : Level) : bool :=
  match lvl with LOrLoop _ | LAndLoop _ => false | _ => true end.

Definition consumes (lvl : Level) (p p' : PState) : Prop :=
  if takes lvl then (left_of p' < left_of p)%nat else (left_of p' <= left_of p)%nat.

Lemma left_advance p t ts : p.2 = t :: ts -> left_of p = S (left_of (advance p)).
Proof. intros Hp. unfold left_of, advance. rewrite Hp. done. Qed.

Lemma parse_ident_consumes name p b p' :
  parse_ident fmt_other inputs name p = Ok (b, p') -> (left_of p' <= left_of p)%nat.
Proof.
  unfold parse_ident. destruct p as [i ts]. cbn [snd].
  destruct ts as [|t ts]; [intros; simplify_eq; lia|].
  destruct t; try (intros; simplify_eq; lia). destruct ts as [|rhs ts]; [done|].
  destruct (compareValues _ _ _ _); intros; simplify_eq/=; unfold left_of; cbn; lia.
Qed.

(** The evaluator ends within the fuel it gets, on any tokens. *)
Lemma parse_total fuel lvl p :
  (4 * left_of p + rank lvl <= fuel)%nat ->
  exists out, parse fuel lvl p = Some out /\ forall b p', out = Ok (b, p') -> consumes lvl p p'.
Proof.
  revert lvl p. unfold parse. induction fuel as [|fuel IH]; intros lvl p Hf; [destruct lvl; cbn in Hf; lia|].
  assert (forall l1 q k, (4 * left_of q + rank l1 <= fuel)%nat ->
    (forall b q', consumes l1 q q' -> exists out, k b q' = Some out /\ forall b' p', out = Ok (b', p') -> consumes lvl p p') ->
    exists out, pbind (Branch.parse fmt_other inputs fuel l1 q) k = Some out /\
      forall b p', out = Ok (b, p') -> consumes lvl p p') as Hbind.
  { intros l1 q k Hq Hk. destruct (IH l1 q Hq) as ([[b q']|e] & Hr & Hc); rewrite Hr; cbn.
    - apply Hk. by apply (Hc b q').
    - exists (Err e). by split. }
  cbn [Branch.parse]. destruct lvl; cbn [rank] in Hf.
  - apply Hbind; [cbn [rank]; lia|]. intros b q Hq. unfold consumes in Hq; cbn [takes] in Hq.
    destruct (IH (LOrLoop b) q) as (o & Ho & Hc); [cbn [rank]; lia|]. exists o. split; [done|].
    intros b' p' ->. specialize (Hc b' p' eq_refl). unfold consumes in *; cbn [takes] in *; lia.
  - destruct p.2 as [|t ts] eqn:Hp; [eexists; split; [done|]; intros; simplify_eq; unfold consumes; cbn [takes]; lia|].
    apply left_advance in Hp.
    destruct t; try (eexists; split; [done|]; intros; simplify_eq; unfold consumes; cbn [takes]; lia).
    apply Hbind; [cbn [rank]; lia|]. intros b q Hq. unfold consumes in Hq; cbn [takes] in Hq.
    destruct (IH (LOrLoop (left_ || b)) q) as (o & Ho & Hc); [cbn [rank]; lia|]. exists o. split; [done|].
    intros b' p' ->. specialize (Hc b' p' eq_refl). unfold consumes in *; cbn [takes] in *; lia.
  - apply Hbind; [cbn [rank]; lia|]. intros b q Hq. unfold consumes in Hq; cbn [takes] in Hq.
    destruct (IH (LAndLoop b) q) as (o & Ho & Hc); [cbn [rank]; lia|]. exists o. split; [done|].
    intros b' p' ->. specialize (Hc b' p' eq_refl). unfold consumes in *; cbn [takes] in *; lia.
  - destruct p.2 as [|t ts] eqn:Hp; [eexists; split; [done|]; intros; simplify_eq; unfold consumes; cbn [takes]; lia|].
    apply left_advance in Hp.
    destruct t; try (eexists; split; [done|]; intros; simplify_eq; unfold consumes; cbn [takes]; lia).
    apply Hbind; [cbn [rank]; lia|]. intros b q Hq. unfold consumes in Hq; cbn [takes] in Hq.
    destruct (IH (LAndLoop (left_ && b)) q) as (o & Ho & Hc); [cbn [rank]; lia|]. exists o. split; [done|].
    intros b' p' ->. specialize (Hc b' p' eq_refl). unfold consumes in *; cbn [takes] in *; lia.
  - assert (exists out, Branch.parse fmt_other inputs fuel LAtom p = Some out /\
      forall b p', out = Ok (b, p') -> consumes LNot p p') as Hatom.
    { destruct (IH LAtom p) as (o & Ho & Hc); [cbn [rank]; lia|]. exists o. split; [done|]. exact Hc. }
    destruct p.2 as [|t ts] eqn:Hp; [exact Hatom|]. apply left_advance in Hp.
    destruct t; try exact Hatom.
    apply Hbind; [cbn [rank]; lia|]. intros b q Hq. unfold consumes in Hq; cbn [takes] in Hq.
    eexists. split; [done|]. intros; simplify_eq. unfold consumes; cbn [takes]; lia.
  - destruct p.2 as [|t ts] eqn:Hp; [by eexists; split|]. apply left_advance in Hp.
    destruct t; try (by eexists; split).
    + eexists. split; [done|]. intros b p' Hi%parse_ident_consumes. unfold consumes; cbn [takes]; lia.
    + eexists. split; [done|]. intros; simplify_eq. unfold consumes; cbn [takes]; lia.
    + apply Hbind; [cbn [rank]; lia|]. intros b q Hq. unfold consumes in Hq; cbn [takes] in Hq.
      destruct q.2 as [|t qs] eqn:Hq2; [by eexists; split|]. apply left_advance in Hq2.
      destruct t; try (by eexists; split).
      eexists. split; [done|]. intros; simplify_eq. unfold consumes; cbn [takes]; lia.
Qed.

(** ** The grammar *)

Inductive bexpr :=
| BBool (b : bool)
| BTest (name : string)
| BCmp (name op : string) (rhs : branchToken)
| BNot (e : bexpr)
| BAnd (e1 e2 : bexpr)
| BOr (e1 e2 : bexpr).

(** What an expression means: operands from the left, all of them, the first
    failed comparison being the result. *)
Fixpoint meaning (e : bexpr) : result bool string :=
  match e with
  | BBool b => Ok b
  | BTest name => Ok (truthy (lookup_name inputs name))
  | BCmp name op rhs => compareValues fmt_other (lookup_name inputs name) op rhs
  | BNot e => let! b := meaning e in Ok (negb b)
  | BAnd e1 e2 => let! b1 := meaning e1 in let! b2 := meaning e2 in Ok (b1 && b2)
  | BOr e1 e2 => let! b1 := meaning e1 in let! b2 := meaning e2 in Ok (b1 || b2)
  end.

(** Printing at a precedence: 0 below or, 1 below and, 2 below not. *)
Fixpoint print (prec : nat) (e : bexpr) : list branchToken :=
  match e with
  | BBool b => [tkBool b]
  | BTest name => [tkIdent name]
  | BCmp name op rhs => [tkIdent name; tkOp op; rhs]
  | BNot e => tkNot :: print 2 e
  | BAnd e1 e2 =>
      let ts := print 1 e1 ++ tkAnd :: print 2 e2 in
      if Nat.leb prec 1 then ts else tkLParen :: ts ++ [tkRParen]
  | BOr e1 e2 =>
      let ts := print 0 e1 ++ tkOr :: print 1 e2 in
      if Nat.leb prec 0 then ts else tkLParen :: ts ++ [tkRParen]
  end.

(** ** Big-step rules for the evaluator *)

Definition parses (lvl : Level) (p : PState) (out : result (bool * PState) string) : Prop :=
  exists f, parse f lvl p = Some out.

(** What happens after an operand whose meaning is [m]. *)
Definition resume (m : result bool string) (lvl : bool -> Level) (p : PState)
    (out : result (bool * PState) string) : Prop :=
  match m with Ok b => parses (lvl b) p out | Err e => out = Err e end.

Lemma parses_seq l1 q o1 (lvl : Level) (p : PState) (k : bool -> PState -> nat -> PResult) out :
  (forall f, parse (S f) lvl p = pbind (parse f l1 q) (fun b q' => k b q' f)) ->
  parses l1 q o1 ->
  match o1 with
  | Ok (b, q') => exists f0, forall f, (f0 <= f)%nat -> k b q' f = Some out
  | Err e => out = Err e
  end -> parses lvl p out.
Proof.
  intros Heq (f1 & H1) Hk. destruct o1 as [[b q']|e].
  - destruct Hk as (f0 & Hk). exists (S (f1 + f0)). rewrite Heq.
    rewrite (parse_more _ _ _ _ (f1 + f0) H1) by lia. cbn. apply Hk. lia.
  - subst. exists (S f1). rewrite Heq. unfold parse in *. by rewrite H1.
Qed.

Lemma parses_k lvl p out : parses lvl p out -> exists f0, forall f, (f0 <= f)%nat -> parse f lvl p = Some out.
Proof. intros (f & Hf). exists f. intros f' Hle. by eapply parse_more. Qed.

Lemma parses_or p o1 out :
  parses LAnd p o1 ->
  match o1 with Ok (b, q) => parses (LOrLoop b) q out | Err e => out = Err e end -> parses LOr p out.
Proof.
  intros H1 H2. eapply (parses_seq LAnd p o1 LOr p (fun b q f => parse f (LOrLoop b) q)); [done|done|].
  destruct o1 as [[b q]|e]; [by apply parses_k|done].
Qed.

Lemma parses_and p o1 out :
  parses LNot p o1 ->
  match o1 with Ok (b, q) => parses (LAndLoop b) q out | Err e => out = Err e end -> parses LAnd p out.
Proof.
  intros H1 H2. eapply (parses_seq LNot p o1 LAnd p (fun b q f => parse f (LAndLoop b) q)); [done|done|].
  destruct o1 as [[b q]|e]; [by apply parses_k|done].
Qed.

Lemma parses_or_more l i ts o1 out :
  parses LAnd ((i + 1)%Z, ts) o1 ->
  match o1 with Ok (r, q) => parses (LOrLoop (l || r)) q out | Err e => out = Err e end ->
  parses (LOrLoop l) (i, tkOr :: ts) out.
Proof.
  intros H1 H2. eapply (parses_seq LAnd _ o1 _ _ (fun r q f => parse f (LOrLoop (l || r)) q)); [done|done|].
  destruct o1 as [[b q]|e]; [by apply parses_k|done].
Qed.

Lemma parses_and_more l i ts o1 out :
  parses LNot ((i + 1)%Z, ts) o1 ->
  match o1 with Ok (r, q) => parses (LAndLoop (l && r)) q out | Err e => out = Err e end ->
  parses (LAndLoop l) (i, tkAnd :: ts) out.
Proof.
  intros H1 H2. eapply (parses_seq LNot _ o1 _ _ (fun r q f => parse f (LAndLoop (l && r)) q)); [done|done|].
  destruct o1 as [[b q]|e]; [by apply parses_k|done].
Qed.

(** The token after an operand: no operator, and no [and] after a conjunction. *)
Definition no_op (ts : list branchToken) : Prop := match ts with tkOp _ :: _ => False | _ => True end.
Definition no_and (ts : list branchToken) : Prop :=
  match ts with tkOp _ :: _ | tkAnd :: _ => False | _ => True end.
Definition no_or (ts : list branchToken) : Prop := match ts with tkOr :: _ => False | _ => True end.

Lemma parses_or_stop b i ts : no_or ts -> parses (LOrLoop b) (i, ts) (Ok (b, (i, ts))).
Proof. intros H. exists 1. cbn. by destruct ts as [|[] ts]. Qed.
Lemma parses_and_stop b i ts : no_and ts -> parses (LAndLoop b) (i, ts) (Ok (b, (i, ts))).
Proof. intros H. exists 1. cbn. by destruct ts as [|[] ts]. Qed.

Definition width (prec : nat) (e : bexpr) : Z := Z.of_nat (List.length (print prec e)).

Definition claim0 (e : bexpr) : Prop := forall i rest out, no_and rest ->
  resume (meaning e) LOrLoop ((i + width 0 e)%Z, rest) out -> parses LOr (i, print 0 e ++ rest) out.
Definition claim1 (e : bexpr) : Prop := forall i rest out, no_op rest ->
  resume (meaning e) LAndLoop ((i + width 1 e)%Z, rest) out -> parses LAnd (i, print 1 e ++ rest) out.
Definition claim2 (e : bexpr) : Prop := forall i rest, no_op rest ->
  parses LNot (i, print 2 e ++ rest) (let! b := meaning e in Ok (b, ((i + width 2 e)%Z, rest))).

Lemma claim2_1 e : print 1 e = print 2 e -> claim2 e -> claim1 e.
Proof.
  unfold claim1, claim2, width. intros -> H2 i rest out Hr Hk.
  eapply parses_and; [by apply H2|]. destruct (meaning e); exact Hk.
Qed.

Lemma claim1_0 e : print 0 e = print 1 e -> claim1 e -> claim0 e.
Proof.
  unfold claim0, claim1, width. intros -> H1 i rest out Hr Hk.
  assert (no_op rest) as Hop by (by destruct rest as [|[] ?]).
  destruct (meaning e) as [b|x]; cbn in *.
  - eapply parses_or; [apply H1; [done|]; by apply parses_and_stop|exact Hk].
  - eapply (parses_or _ (Err x)); [by apply H1|exact Hk].
Qed.

Lemma parses_not_atom i ts out :
  match ts with tkNot :: _ => False | _ => True end -> parses LAtom (i, ts) out -> parses LNot (i, ts) out.
Proof. intros Hn (f & Hf). exists (S f). cbn. destruct ts as [|[] ts]; done. Qed.

Lemma claim0_2 e : print 2 e = tkLParen :: print 0 e ++ [tkRParen] -> claim0 e -> claim2 e.
Proof.
  unfold claim0, claim2, width. intros Hp H0 i rest Hr. rewrite Hp. apply parses_not_atom; [done|].
  assert (parses LOr ((i + 1)%Z, print 0 e ++ tkRParen :: rest)
            (let! b := meaning e in Ok (b, ((i + 1 + width 0 e)%Z, tkRParen :: rest)))) as Hin.
  { apply H0; [done|]. destruct (meaning e) as [b|x]; cbn; [|done]. by apply parses_or_stop. }
  eapply (parses_seq LOr ((i + 1)%Z, print 0 e ++ tkRParen :: rest) _ LAtom _
    (fun v p _ => match p.2 with
                  | tkRParen :: _ => Some (Ok (v, advance p))
                  | _ => Some (Err ("branch: expected ')' at pos " +:+ fmt_d (pos p)))
                  end)); [|exact Hin|].
  - intros f. cbn. by rewrite <- app_assoc.
  - destruct (meaning e) as [b|x]; cbn; [|done]. exists 0. intros _ _.
    unfold advance, width. cbn. do 4 f_equal. rewrite length_app. cbn. lia.
Qed.

Lemma claims e : claim0 e /\ claim1 e /\ claim2 e.
Proof.
  assert (forall e, print 1 e = print 2 e -> print 0 e = print 1 e -> claim2 e ->
            claim0 e /\ claim1 e /\ claim2 e) as Hatom.
  { intros x H12 H01 H2. pose proof (claim2_1 x H12 H2) as H1. split_and!; [by apply claim1_0|done..]. }
  induction e as [b|name|name op rhs|e IH|e1 IH1 e2 IH2|e1 IH1 e2 IH2].
  - apply Hatom; [done..|]. intros i rest Hr. apply parses_not_atom; [done|]. by exists 1.
  - apply Hatom; [done..|]. intros i rest Hr. apply parses_not_atom; [done|]. exists 1. cbn.
    unfold parse_ident, advance. cbn. destruct rest as [|[] rest]; done.
  - apply Hatom; [done..|]. intros i rest Hr. apply parses_not_atom; [done|]. exists 1. cbn.
    unfold parse_ident, advance. cbn. destruct (compareValues _ _ _ _); cbn; [|done].
    do 4 f_equal. unfold width. cbn. lia.
  - apply Hatom; [done..|]. intros i rest Hr. destruct IH as (_ & _ & IH).
    eapply (parses_seq LNot ((i + 1)%Z, print 2 e ++ rest) _ LNot _ (fun v p _ => Some (Ok (negb v, p))));
      [done|by apply IH|].
    cbn. destruct (meaning e); cbn; [|done]. exists 0. intros _ _. unfold width. cbn [print List.length].
    do 4 f_equal. lia.
  - destruct IH1 as (_ & IH1 & _), IH2 as (_ & _ & IH2).
    assert (claim1 (BAnd e1 e2)) as H1.
    { intros i rest out Hr Hk. cbn [print Nat.leb]. rewrite <- app_assoc. apply IH1; [done|].
      cbn [meaning] in Hk. unfold width in *. cbn [print Nat.leb] in Hk. rewrite length_app in Hk.
      cbn [List.length] in Hk.
      destruct (meaning e1) as [b1|x]; cbn in *; [|done].
      eapply parses_and_more; [by apply IH2|]. destruct (meaning e2) as [b2|x]; cbn in *; [|done].
      unfold width. match goal with |- parses _ (?a, _) _ => match type of Hk with parses _ (?b, _) _ =>
        replace a with b by lia end end. exact Hk. }
    pose proof (claim1_0 (BAnd e1 e2) eq_refl H1) as H0. split_and!; [done..|].
    apply claim0_2; [|done]. cbn. by rewrite <- app_assoc.
  - destruct IH1 as (IH1 & _ & _), IH2 as (_ & IH2 & _).
    assert (claim0 (BOr e1 e2)) as H0.
    { intros i rest out Hr Hk. cbn [print Nat.leb]. rewrite <- app_assoc. apply IH1; [done|].
      cbn [meaning] in Hk. unfold width in *. cbn [print Nat.leb] in Hk. rewrite length_app in Hk.
      cbn [List.length] in Hk.
      assert (no_op rest) as Hop by (by destruct rest as [|[] ?]).
      destruct (meaning e1) as [b1|x]; cbn in *; [|done].
      destruct (meaning e2) as [b2|x] eqn:He2; cbn in *.
      - eapply parses_or_more; [apply IH2; [done|]; rewrite He2; by apply parses_and_stop|].
        cbn. unfold width. match goal with |- parses _ (?a, _) _ => match type of Hk with parses _ (?b, _) _ =>
          replace a with b by lia end end. exact Hk.
      - eapply (parses_or_more _ _ _ (Err x)); [apply IH2; [done|]; by rewrite He2|done]. }
    assert (claim2 (BOr e1 e2)) as H2 by (apply claim0_2; [cbn; by rewrite <- app_assoc|done]).
    split_and!; [done| |done]. apply claim2_1; [done|done].
Qed.

(** Printed at the lowest precedence, an expression evaluates to its meaning. *)
Lemma eval_print e : evalTokens fmt_other inputs (print 0 e) = meaning e.
Proof.
  destruct (claims e) as (H0 & _ & _).
  assert (parses LOr (0%Z, print 0 e) (let! b := meaning e in Ok (b, ((0 + width 0 e)%Z, [])))) as (f & Hf).
  { rewrite <- (app_nil_r (print 0 e)) at 1. apply H0; [done|].
    destruct (meaning e); cbn; [|done]. by apply parses_or_stop. }
  unfold evalTokens.
  destruct (parse_total (parse_fuel (List.length (print 0 e))) LOr (0%Z, print 0 e)) as (out & Ho & _).
  { unfold parse_fuel, left_of. cbn. lia. }
  assert (out = (let! b := meaning e in Ok (b, ((0 + width 0 e)%Z, [])))) as ->.
  { pose proof (parse_more _ _ _ _ (f + parse_fuel (List.length (print 0 e))) Hf ltac:(lia)) as E1.
    pose proof (parse_more _ _ _ _ (f + parse_fuel (List.length (print 0 e))) Ho ltac:(lia)) as E2.
    congruence. }
  unfold parse in Ho. rewrite Ho. by destruct (meaning e).
Qed.
End Parser.

(** * The language as a whole *)

(** A condition written out from an expression tree, minimal parentheses and
    all, evaluates to what the tree means: [or] below [and] below [not], operands
    from the left, every operand evaluated, the first failed comparison the result. *)
Theorem branch_expression_means fmt_other inputs e :
  forallb tk_ok (print 0 e) = true ->
  evalBranchExpr fmt_other inputs (print_tokens (print 0 e)) = meaning fmt_other inputs e.
Proof. intros Hok. unfold evalBranchExpr. rewrite tokenize_print by done. apply eval_print. Qed.

(** [ok and not (n > 3 or done)] *)
Definition demo_expr : bexpr :=
  BAnd (BTest "ok") (BNot (BOr (BCmp "n" ">" (tkNumber "3")) (BTest "done"))).

Lemma branch_expression_means_witness :
  print_tokens (print 0 demo_expr) = "ok and not ( n > 3 or done ) " /\
  evalBranchExpr (fun _ => "") (<["ok" := VBool true]> {["n" := VInt 2]}) (print_tokens (print 0 demo_expr))
    = Ok true.
Proof.
  split; [vm_compute; reflexivity|].
  rewrite (branch_expression_means (fun _ => "") (<["ok" := VBool true]> {["n" := VInt 2]}) demo_expr);
    vm_compute; reflexivity.
Defined.

(** Evaluating a condition ends on every text: the scanner stops within one
    round per character and the recursive descent within the depth its tokens
    allow, so no verdict below is an artefact of the fuel. *)
Theorem branch_evaluation_ends fmt_other inputs expr :
  exists r, tokenizeBranch expr = Some r /\
    forall ts, r = Ok ts -> parse fmt_other inputs (parse_fuel (List.length ts)) LOr (0%Z, ts) <> None.
Proof.
  destruct (tokenizeBranch expr) as [r|] eqn:Ht.
  2: { exfalso. revert Ht. apply tokenize_loop_total. by rewrite length_list_of. }
  exists r. split; [done|]. intros ts _.
  destruct (parse_total fmt_other inputs (parse_fuel (List.length ts)) LOr (0%Z, ts)) as (out & Ho & _).
  { unfold parse_fuel, left_of. cbn. lia. }
  rewrite Ho. done.
Qed.

(** The three comparisons of one integer with its own literal can all fail:
    equality compares the two as printed, and from 10^6 on a number literal is
    printed in exponent form while an int is not. *)
Theorem million_is_not_itself fmt_other :
  let inputs : PortValues := {["n" := VInt 1000000]} in
  evalBranchExpr fmt_other inputs "n == 1000000" = Ok false /\
  evalBranchExpr fmt_other inputs "n < 1000000" = Ok false /\
  evalBranchExpr fmt_other inputs "n > 1000000" = Ok false /\
  evalBranchExpr fmt_other {["n" := VInt 999999]} "n == 999999" = Ok true.
Proof. repeat split; vm_compute; reflexivity. Qed.
