(* ===== verification/ContainersProps.v ===== *)
(** What the loop and retry containers guarantee: bracketed, bounded body fires,
    which errors end a loop, the backoff schedule, the fence around error text; and
    three places where they depart from what is written about them. *)
From S2P Require Import Prelude GoString Utf8 AgentGraph EventLog RunState Kernel KernelDemo Branch Containers.
From Stdlib Require Import Ascii String.
Open Scope string_scope.
Open Scope list_scope.

(** * The error fence *)

Lemma take_runes_subset n l c : c ∈ take_runes n l -> c ∈ l.
Proof.
  revert n. induction l as [|x l IH]; intros n; [done|]. cbn.
  destruct (is_cont x); [|destruct n as [|n]; [by intros ?%elem_of_nil|]];
    (intros [->|Hc]%elem_of_cons; [by left|right; by eapply IH]).
Qed.

Definition fenced_char (c : ascii) : Prop := c <> lt_char /\ c <> gt_char /\ is_control c = false.

Lemma elem_of_map_list {A B} (f : A -> B) l y : y ∈ map f l <-> exists x, f x = y /\ x ∈ l.
Proof. rewrite list_elem_of_In, in_map_iff. by setoid_rewrite list_elem_of_In. Qed.

Lemma cleaned_chars err c :
  c ∈ list_of (replace_char gt_char (ascii_of_N 41) (replace_char lt_char (ascii_of_N 40) (stripControlChars err))) ->
  fenced_char c.
Proof.
  unfold replace_char, stripControlChars. rewrite !list_of_of_list.
  intros (c1 & <- & (c2 & <- & (c3 & <- & _)%elem_of_map_list)%elem_of_map_list)%elem_of_map_list.
  unfold fenced_char. destruct (is_control c3) eqn:Hc; [by vm_compute|].
  destruct (Ascii.eqb_spec c3 lt_char) as [->|Hl]; [by vm_compute|].
  destruct (Ascii.eqb_spec c3 gt_char) as [->|Hg]; [by vm_compute|]. done.
Qed.

(** The error text that reaches the model under the adapt policy cannot break
    out of its fence: it has no angle bracket and no control character, whatever
    the failing tool wrote. *)
Theorem adapted_note_fenced err c :
  c ∈ list_of (cleanErrorText err) -> c <> lt_char /\ c <> gt_char /\ is_control c = false.
Proof.
  unfold cleanErrorText, truncateRunesSafe.
  case_if; [by intros ?%elem_of_nil|]. case_if; [|apply cleaned_chars].
  rewrite list_of_app, list_of_of_list. intros [Hc|Hc]%elem_of_app.
  - apply (cleaned_chars err). by eapply take_runes_subset.
  - cbn in Hc. repeat (apply elem_of_cons in Hc as [->|Hc]; [by vm_compute|]). by apply elem_of_nil in Hc.
Qed.

(** * Backoff *)

Lemma int64_of_ms n : (0 <= n < 2 ^ 42)%Z -> int64 (n * millisecond) = (n * millisecond)%Z.
Proof. intros Hn. apply int64_small. unfold millisecond. lia. Qed.

Lemma double_delay_spec n delay ceiling :
  (0 < delay)%Z -> (0 < ceiling < 2 ^ 62)%Z -> (delay < 2 ^ 62)%Z ->
  double_delay n delay ceiling =
  match n with 0 => delay | S _ => Z.min (delay * 2 ^ Z.of_nat n) ceiling end.
Proof.
  intros Hd Hc. revert delay Hd. induction n as [|n IH]; intros delay Hd Hs; [done|].
  cbn [double_delay]. rewrite int64_small by lia.
  assert (0 < 2 ^ Z.of_nat n)%Z as Hp by lia.
  assert (2 ^ Z.of_nat (S n) = 2 * 2 ^ Z.of_nat n)%Z as Hpow.
  { rewrite Nat2Z.inj_succ, Z.pow_succ_r; lia. }
  rewrite Hpow. case_if.
  - nia.
  - rewrite IH by lia. destruct n as [|n]; [cbn; lia|]. f_equal. lia.
Qed.

(** The wait after the k-th failed attempt is base * 2^(k-1) clamped to the
    ceiling, for k at least two; after the first failure it is the base itself, even
    where the base exceeds the ceiling the manifest calls a maximum. *)
Theorem backoff_schedule a k :
  (backoff_base a < 2 ^ 42)%Z -> (backoff_max a < 2 ^ 42)%Z -> (1 <= k)%Z ->
  backoff_delay a k =
  (if bool_decide (k = 1) then backoff_base a * millisecond
   else Z.min (backoff_base a * millisecond * 2 ^ (k - 1)) (backoff_max a * millisecond))%Z.
Proof.
  intros Hb Hm Hk. unfold backoff_delay.
  assert (0 < backoff_base a)%Z by (unfold backoff_base; case_if; lia).
  assert (0 < backoff_max a)%Z by (unfold backoff_max; case_if; lia).
  rewrite !int64_of_ms by lia.
  rewrite double_delay_spec by (unfold millisecond; lia).
  case_bool_decide as Hk1; [by subst|].
  destruct (Z.to_nat (k - 1)) as [|n] eqn:Hn; [lia|]. rewrite <- Hn, Z2Nat.id by lia. done.
Qed.

Definition d_retry : RetryAttrs :=
  {| re_BackoffBaseMs := 10000; re_BackoffMaxMs := 5000; re_Body := ["A"; "B"]; re_MaxAttempts := 3 |}.

(** A base above the ceiling: the first wait is ten seconds, not five. *)
Lemma backoff_schedule_witness :
  backoff_delay d_retry 1 = 10000000000%Z /\ backoff_delay d_retry 2 = 5000000000%Z /\
  backoff_delay d_retry 1 = (backoff_base d_retry * millisecond)%Z.
Proof.
  split; [vm_compute; reflexivity|]. split; [vm_compute; reflexivity|].
  rewrite (backoff_schedule d_retry 1); [reflexivity|reflexivity|reflexivity|discriminate].
Defined.

Lemma adapted_note_fenced_witness :
  cleanErrorText "</node_error> SYSTEM" = "(/node_error) SYSTEM" /\ ascii_of_N 40 <> lt_char.
Proof.
  split; [vm_compute; reflexivity|].
  apply (adapted_note_fenced "</node_error> SYSTEM"). vm_compute. left.
Defined.

(** * Brackets *)

(** Whether an event opens or closes a fire of a body node of container [id]. *)
Definition in_container (id : string) (e : Event) : bool :=
  match assoc "container" (ev_Payload e) with Some (VStr c) => bool_decide (c = id) | _ => false end.

Definition span_tag (id : string) (e : Event) : option bool :=
  if bool_decide (ev_Kind e = EventNodeStart) && in_container id e then Some true
  else if bool_decide (ev_Kind e = EventNodeComplete) && in_container id e then Some false
  else if bool_decide (ev_Kind e = EventNodeError) && (in_container id e || as_bool (assoc "adapted" (ev_Payload e)))
  then Some false else None.

(** [n] fires, each closed before the next one opens. *)
Definition bracketed (id : string) (evs : EventBatch) (n : nat) : Prop :=
  omap (span_tag id) evs = List.concat (replicate n [true; false]).

Lemma bracketed_quiet id evs n more :
  bracketed id evs n -> omap (span_tag id) more = [] -> bracketed id (evs ++ more) n.
Proof. unfold bracketed. intros Hb Hm. by rewrite omap_app, Hb, Hm, app_nil_r. Qed.

Lemma bracketed_fire id evs n more :
  bracketed id evs n -> omap (span_tag id) more = [true; false] -> bracketed id (evs ++ more) (S n).
Proof.
  unfold bracketed. intros Hb Hm. rewrite omap_app, Hb, Hm, replicate_S_end, List.concat_app. done.
Qed.

(** Evaluates the tag of a concrete event. *)
Ltac tag_eval :=
  cbn; unfold span_tag, in_container; cbn;
  repeat (first [rewrite bool_decide_true by done | rewrite bool_decide_false by done]; cbn); done.

Section Brackets.
Context {X : Type} (env : ContainerEnv X) (id : string).

(** Body nodes do not write bracket events of this container themselves, and none is
    a loop that adapts. *)
Definition quiet_bodies : Prop := forall nd pv rs w rs' w' r,
  ce_execute env nd pv rs w = (rs', w', OutOk r) -> Forall (fun e => span_tag id e = None) (r_Events r).

Hypothesis Hquiet : quiet_bodies.

Lemma quiet_stamped run target evs :
  Forall (fun e => span_tag id e = None) evs -> omap (span_tag id) (map (body_stamp run target) evs) = [].
Proof. induction 1 as [|e evs He _ IH]; [done|]. cbn. change (span_tag id (body_stamp run target e)) with (span_tag id e). by rewrite He. Qed.

Lemma start_tag target iter : omap (span_tag id) (bodyFireStart (ce_run env) id target iter) = [true].
Proof. unfold bodyFireStart, AppendKind. tag_eval. Qed.

Lemma complete_tag target iter n : omap (span_tag id) (bodyFireComplete (ce_run env) id target iter n) = [false].
Proof. unfold bodyFireComplete, AppendKind. tag_eval. Qed.

Lemma error_tag target iter cause : omap (span_tag id) (bodyFireError (ce_run env) id target iter cause) = [false].
Proof. unfold bodyFireError, AppendKind. tag_eval. Qed.

(** A fire leaves the events alone but for the record of a retried failure. *)
Lemma fire_events target s s' o :
  fire env target s = (s', o) -> bs_events s' = bs_events s /\
  forall r, o = OutOk r -> Forall (fun e => span_tag id e = None) (r_Events r).
Proof.
  unfold fire. destruct (ce_execute _ _ _ _ _) as [[rs w] o'] eqn:He. intros [= <- <-].
  split; [done|]. intros r ->. by eapply Hquiet.
Qed.

Lemma fire_policy_events target s s' o :
  fire_with_policy env target s = (s', o) ->
  (exists more, bs_events s' = bs_events s ++ more /\ omap (span_tag id) more = []) /\
  forall r, o = OutOk r -> Forall (fun e => span_tag id e = None) (r_Events r).
Proof.
  unfold fire_with_policy. destruct (fire env target s) as [s1 o1] eqn:Hf.
  apply fire_events in Hf as [He Hq].
  assert ((s1, o1) = (s', o) ->
    (exists more, bs_events s' = bs_events s ++ more /\ omap (span_tag id) more = []) /\
    forall r, o = OutOk r -> Forall (fun e => span_tag id e = None) (r_Events r)) as Hstay.
  { intros [= <- <-]. split; [exists []; by rewrite app_nil_r|done]. }
  destruct o1 as [r|evs e]; [done|]. destruct (ce_policy env); [done| |done].
  case_if; [done|]. intros Hf. apply fire_events in Hf as [He2 Hq2]. split; [|done].
  rewrite He2. cbn [log_body bs_events]. rewrite He. eexists. split; [done|]. done.
Qed.

Lemma loop_body_bracketed iter body : forall s n s' b,
  bracketed id (bs_events s) n -> loop_body env id iter body s = (s', b) ->
  exists m, bracketed id (bs_events s') m /\ m <= n + List.length body.
Proof.
  induction body as [|bID body IH]; intros s n s' b Hb; cbn [loop_body].
  { intros [= <- <-]. exists n. split; [done|lia]. }
  destruct (lookupNode _ _) as [target|]; [|intros [= <- <-]; exists n; split; [done|cbn; lia]].
  destruct (ce_lookup _ _) as [e|]; [intros [= <- <-]; exists n; split; [done|cbn; lia]|].
  destruct (fire_with_policy _ _ _) as [s1 o] eqn:Hf.
  apply fire_policy_events in Hf as [(more & He & Hm) Hq]. cbn [log_body bs_events] in He.
  assert (forall tail, omap (span_tag id) tail = [false] -> bracketed id (bs_events s1 ++ tail) (S n)) as Hclose.
  { intros tail Ht. rewrite He, <- !app_assoc. apply bracketed_fire; [done|].
    rewrite !omap_app, start_tag, Hm, Ht. done. }
  destruct o as [r|evs e].
  - destruct (r_Pause r).
    + intros [= <- <-]. exists (S n). split; [|cbn; lia]. apply Hclose, complete_tag.
    + intros Hl. eapply (IH _ (S n)) in Hl as (m & Hm' & Hle); [exists m; split; [done|cbn; lia]|].
      cbn [body_done bs_events]. apply Hclose. rewrite omap_app, quiet_stamped by auto. apply complete_tag.
  - assert (bracketed id (bs_events (log_body s1 (bodyFireError (ce_run env) id target (iter + 1) (ke_msg e)))) (S n))
      as Herr by (apply Hclose, error_tag).
    destruct (ce_policy env) eqn:Hp, (isTerminalNodeError env (bs_world s1) e);
      intros [= <- <-]; exists (S n); (split; [|cbn; lia]); try exact Herr.
    cbn [log_body bs_events]. apply Hclose. done.
Qed.

Lemma loop_iters_bracketed a left_ : forall iter adapted s n s' r,
  bracketed id (bs_events s) n -> loop_iters env id a left_ iter adapted s = (s', r) ->
  exists m, bracketed id (bs_events s') m /\ m <= n + left_ * List.length (lo_Body a).
Proof.
  induction left_ as [|left_ IH]; intros iter adapted s n s' r Hb; cbn [loop_iters].
  { intros [= <- <-]. exists n. split; [done|lia]. }
  destruct (match ce_turnPause env with Some _ => _ | None => _ end) as [w gate].
  destruct gate as [e|]; [intros [= <- <-]; exists n; split; [done|lia]|].
  match goal with |- context [match ?c with Ok _ => _ | Err _ => _ end = _] => destruct c as [[|]|e] end; [|intros [= <- <-]; exists n; split; [done|lia]..].
  destruct (loop_body _ _ _ _ _) as [s1 b] eqn:Hl.
  apply (loop_body_bracketed _ _ _ n) in Hl as (m & Hm & Hle); [|done].
  assert (forall it ad, loop_iters env id a left_ it ad s1 = (s', r) ->
    exists m', bracketed id (bs_events s') m' /\ m' <= n + S left_ * List.length (lo_Body a)) as Hrest.
  { intros it ad Hi. apply (IH _ _ _ m) in Hi as (m' & Hm' & Hle'); [|done]. exists m'. split; [done|]. lia. }
  destruct b; [apply Hrest|apply Hrest|]. intros [= <- <-]. exists m. split; [done|lia].
Qed.

Lemma retry_body_bracketed attempt body : forall s n s' b,
  bracketed id (bs_events s) n -> retry_body env id attempt body s = (s', b) ->
  exists m, bracketed id (bs_events s') m /\ m <= n + List.length body.
Proof.
  induction body as [|bID body IH]; intros s n s' b Hb; cbn [retry_body].
  { intros [= <- <-]. exists n. split; [done|lia]. }
  destruct (lookupNode _ _) as [target|]; [|intros [= <- <-]; exists n; split; [done|cbn; lia]].
  destruct (ce_lookup _ _) as [e|]; [intros [= <- <-]; exists n; split; [done|cbn; lia]|].
  destruct (fire _ _ _) as [s1 o] eqn:Hf.
  apply fire_events in Hf as [He Hq]. cbn [log_body bs_events] in He.
  assert (forall tail, omap (span_tag id) tail = [false] -> bracketed id (bs_events s1 ++ tail) (S n)) as Hclose.
  { intros tail Ht. rewrite He, <- !app_assoc. apply bracketed_fire; [done|].
    rewrite !omap_app, start_tag, Ht. done. }
  destruct o as [r|evs e].
  - intros Hl. eapply (IH _ (S n)) in Hl as (m & Hm' & Hle); [exists m; split; [done|cbn; lia]|].
    cbn [body_done bs_events]. apply Hclose. rewrite omap_app, quiet_stamped by auto. apply complete_tag.
  - intros [= <- <-]. exists (S n). split; [|cbn; lia]. apply Hclose, error_tag.
Qed.

Lemma bracketed_attempt (s : BodyState X) n phase attempt a more :
  bracketed id (bs_events s) n ->
  bracketed id (bs_events (log_body s (attempt_event env id phase attempt a more))) n.
Proof. intros Hb. by apply bracketed_quiet. Qed.

Lemma retry_attempts_bracketed a left_ : forall attempt last s n s' r,
  bracketed id (bs_events s) n -> retry_attempts env id a left_ attempt last s = (s', r) ->
  exists m, bracketed id (bs_events s') m /\ m <= n + left_ * List.length (re_Body a).
Proof.
  induction left_ as [|left_ IH]; intros attempt last s n s' r Hb; cbn [retry_attempts].
  { intros [= <- <-]. exists n. split; [by apply bracketed_attempt|lia]. }
  destruct (retry_body _ _ _ _ _) as [s1 b] eqn:Hl.
  apply (retry_body_bracketed _ _ _ n) in Hl as (m & Hm & Hle); [|by apply bracketed_attempt].
  assert (forall at_ la (s2 : BodyState X), bs_events s2 = bs_events (log_body s1 (attempt_event env id "error" attempt a
      [("err", match la with Some e => VStr (ke_msg e) | None => VNil end)])) ->
    retry_attempts env id a left_ at_ la s2 = (s', r) ->
    exists m', bracketed id (bs_events s') m' /\ m' <= n + S left_ * List.length (re_Body a)) as Hrest.
  { intros at_ la s2 Hev Hi. apply (IH _ _ _ m) in Hi as (m' & Hm' & Hle').
    - exists m'. split; [done|]. lia.
    - rewrite Hev. by apply bracketed_attempt. }
  destruct b as [[e|]|e].
  - case_if; [intros [= <- <-]; exists m; split; [by apply bracketed_attempt|lia]|].
    case_if; [|by apply (Hrest _ (Some e))].
    destruct (ce_wait _ _ _) as [w [c|]]; [|by apply (Hrest _ (Some e))].
    intros [= <- <-]. exists m. split; [by apply bracketed_attempt|lia].
  - intros [= <- <-]. exists m. split; [by apply bracketed_attempt|lia].
  - intros [= <- <-]. exists m. split; [done|lia].
Qed.
End Brackets.

(** The events of an outcome, and those of its container's body fires. *)
Definition outcome_events (o : Outcome) : EventBatch :=
  match o with OutOk r => r_Events r | OutErr evs _ => evs end.

(** Whatever its body nodes return, a loop opens at most [max_iterations] times
    [length body] body fires and closes each of them before it opens the next, also
    when it fails, pauses or adapts. *)
Theorem loop_fires_bracketed {X} (env : ContainerEnv X) node a inputs rs w rs' w' o :
  n_attrs node = ALoop a -> quiet_bodies env (n_id node) ->
  loop_execute env node inputs rs w = (rs', w', o) ->
  exists n, omap (span_tag (n_id node)) (outcome_events o) = List.concat (replicate n [true; false]) /\
    n <= Z.to_nat (lo_MaxIterations a) * List.length (lo_Body a).
Proof.
  intros Ha Hq. unfold loop_execute. rewrite Ha. case_if; [intros [= _ _ <-]; exists 0; split; [done|lia]|].
  destruct (loop_iters _ _ _ _ _ _ _) as [s r] eqn:Hl.
  apply (loop_iters_bracketed env _ Hq _ _ _ _ _ 0) in Hl as (m & Hm & Hle); [|done].
  destruct r; intros [= _ _ <-]; by exists m.
Qed.

(** The same for a retry, with its attempts. *)
Theorem retry_fires_bracketed {X} (env : ContainerEnv X) node a inputs rs w rs' w' o :
  n_attrs node = ARetry a -> quiet_bodies env (n_id node) ->
  retry_execute env node inputs rs w = (rs', w', o) ->
  exists n, omap (span_tag (n_id node)) (outcome_events o) = List.concat (replicate n [true; false]) /\
    n <= Z.to_nat (re_MaxAttempts a) * List.length (re_Body a).
Proof.
  intros Ha Hq. unfold retry_execute. rewrite Ha. case_if; [intros [= _ _ <-]; exists 0; split; [done|lia]|].
  destruct (retry_attempts _ _ _ _ _ _ _) as [s r] eqn:Hl.
  apply (retry_attempts_bracketed env _ Hq _ _ _ _ _ 0) in Hl as (m & Hm & Hle); [|done].
  destruct r; intros [= _ _ <-]; by exists m.
Qed.

(** * Adapt *)

Section Adapt.
Context {X : Type} (env : ContainerEnv X).

(** Every body node is known and has an executor, none pauses, and none fails for a
    reason the policy calls terminal. *)
Record steady_body (body : list string) : Prop := {
  steady_known : Forall (fun b => exists nd, lookupNode (ce_graph env) b = Some nd /\ ce_lookup env (n_kind nd) = None) body;
  steady_errors : forall nd pv rs w rs' w' evs e,
    ce_execute env nd pv rs w = (rs', w', OutErr evs e) -> isTerminalNodeError env w' e = false;
  steady_awake : forall nd pv rs w rs' w' r, ce_execute env nd pv rs w = (rs', w', OutOk r) -> r_Pause r = false
}.

Hypothesis Hadapt : ce_policy env = NodeErrorPolicyAdapt.

Lemma adapt_body id iter body : steady_body body -> forall s,
  exists s' b, loop_body env id iter body s = (s', b) /\ (b = BodyDone \/ b = BodyAdapted).
Proof.
  intros [Hk He Ha]. induction body as [|bID body IH]; intros s; cbn [loop_body].
  { eexists _, _. split; [done|by left]. }
  apply Forall_cons in Hk as [(nd & -> & ->) Hk']. unfold fire_with_policy, fire. rewrite Hadapt.
  destruct (ce_execute _ _ _ _ _) as [[rs w] [r|evs e]] eqn:Hx.
  - rewrite (Ha _ _ _ _ _ _ _ Hx). by apply IH.
  - cbn [bs_world]. rewrite (He _ _ _ _ _ _ _ _ Hx). eexists _, _. split; [done|by right].
Qed.

Lemma adapt_iters id a left_ : steady_body (lo_Body a) -> ce_turnPause env = None -> lo_Condition a = "" ->
  forall iter adapted s, exists s', loop_iters env id a left_ iter adapted s = (s', Ok (iter + Z.of_nat left_)%Z).
Proof.
  intros Hs Hg Hc. induction left_ as [|left_ IH]; intros iter adapted s; cbn [loop_iters].
  { exists s. do 2 f_equal. lia. }
  rewrite Hg, Hc. cbn.
  destruct (adapt_body id iter (lo_Body a) Hs (Build_BodyState (bs_run s) (bs_world s) (bs_events s) (bs_current s)))
    as (s1 & b & Hb & Hd).
  rewrite Hb. replace (iter + Z.of_nat (S left_))%Z with (iter + 1 + Z.of_nat left_)%Z by lia.
  destruct Hd as [->| ->]; apply IH.
Qed.
End Adapt.

(** Under the adapt policy, body failures that are not terminal never end a
    loop: however often its body nodes fail, it runs all its iterations and
    succeeds. *)
Theorem adapt_keeps_looping {X} (env : ContainerEnv X) node a inputs rs w :
  n_attrs node = ALoop a -> (0 < lo_MaxIterations a)%Z -> lo_Condition a = "" ->
  ce_policy env = NodeErrorPolicyAdapt -> ce_turnPause env = None -> steady_body env (lo_Body a) ->
  exists rs' w' r, loop_execute env node inputs rs w = (rs', w', OutOk r) /\
    r_Outputs r !! "iterations" = Some (VInt (lo_MaxIterations a)).
Proof.
  intros Ha Hm Hc Hp Hg Hs. unfold loop_execute. rewrite Ha. case_if; [lia|].
  destruct (adapt_iters env Hp (n_id node) a (Z.to_nat (lo_MaxIterations a)) Hs Hg Hc 0 false
    (Build_BodyState rs w [] inputs)) as (s' & ->).
  eexists _, _, _. split; [done|]. cbn. rewrite lookup_insert_ne by done. rewrite lookup_insert_eq.
  do 2 f_equal. lia.
Qed.

(** * The attempts of a retry *)

Definition attempt_phase (e : Event) : option string :=
  if bool_decide (ev_Kind e = EventRetryAttempt)
  then match assoc "phase" (ev_Payload e) with Some (VStr p) => Some p | _ => None end
  else None.

(** [k] failed attempts. *)
Definition failed_attempts (k : nat) : list string := List.concat (replicate k ["start"; "error"]).

Lemma failed_attempts_S k : failed_attempts (S k) = failed_attempts k ++ ["start"; "error"].
Proof. unfold failed_attempts. by rewrite replicate_S_end, List.concat_app. Qed.

Section Attempts.
Context {X : Type} (env : ContainerEnv X) (id : string).

(** No body node is a retry itself. *)
Definition no_nested_retry : Prop := forall nd pv rs w rs' w' r,
  ce_execute env nd pv rs w = (rs', w', OutOk r) -> Forall (fun e => attempt_phase e = None) (r_Events r).

Hypothesis Hnest : no_nested_retry.

Lemma phases_attempt (s : BodyState X) phase attempt a more :
  omap attempt_phase (bs_events (log_body s (attempt_event env id phase attempt a more))) =
  omap attempt_phase (bs_events s) ++ [phase].
Proof. cbn [log_body bs_events]. by rewrite omap_app. Qed.

Lemma phases_stamped run target evs :
  Forall (fun e => attempt_phase e = None) evs -> omap attempt_phase (map (body_stamp run target) evs) = [].
Proof.
  induction 1 as [|e evs He _ IH]; [done|]. cbn.
  change (attempt_phase (body_stamp run target e)) with (attempt_phase e). by rewrite He.
Qed.

Lemma phases_body attempt body : forall s s' b,
  retry_body env id attempt body s = (s', b) -> omap attempt_phase (bs_events s') = omap attempt_phase (bs_events s).
Proof.
  induction body as [|bID body IH]; intros s s' b; cbn [retry_body]; [by intros [= <- <-]|].
  destruct (lookupNode _ _) as [target|]; [|by intros [= <- <-]].
  destruct (ce_lookup _ _) as [e|]; [by intros [= <- <-]|].
  unfold fire. destruct (ce_execute _ _ _ _ _) as [[rs w] [r|evs e]] eqn:Hx.
  - intros ->%IH. cbn [body_done log_body bs_events]. rewrite !omap_app, (phases_stamped _ _ _ (Hnest _ _ _ _ _ _ _ Hx)).
    by rewrite !app_nil_r.
  - intros [= <- <-]. cbn [log_body bs_events]. rewrite !omap_app. by rewrite !app_nil_r.
Qed.

(** The phases written by [k] failed attempts and what ended the retry. *)
Definition attempts_trace (a : RetryAttrs) (phases : list string) (k : nat) (r : result Z KErr) : Prop :=
  (Z.of_nat k <= re_MaxAttempts a)%Z /\ exists tail, phases = failed_attempts k ++ tail /\
  match r with
  | Ok n => tail = ["start"; "success"] /\ n = Z.of_nat (S k) /\ (n <= re_MaxAttempts a)%Z
  | Err e => tail = ["exhausted"] /\ Z.of_nat k = re_MaxAttempts a \/ tail = [] /\ 1 <= k \/ tail = ["start"]
  end.

Lemma retry_attempts_phases a left_ : forall k last s s' r,
  Z.of_nat (k + left_) = re_MaxAttempts a ->
  omap attempt_phase (bs_events s) = failed_attempts k ->
  retry_attempts env id a left_ (Z.of_nat (S k)) last s = (s', r) ->
  exists k', attempts_trace a (omap attempt_phase (bs_events s')) k' r.
Proof.
  induction left_ as [|left_ IH]; intros k last s s' r Hk Hs; cbn [retry_attempts].
  { intros [= <- <-]. exists k. split; [lia|]. eexists. rewrite phases_attempt, Hs. split; [done|]. left. split; [done|]. lia. }
  destruct (retry_body _ _ _ _ _) as [s1 b] eqn:Hb. apply phases_body in Hb. rewrite phases_attempt, Hs in Hb.
  destruct b as [[e|]|e].
  - assert (forall phase attempt more, omap attempt_phase (bs_events (log_body s1 (attempt_event env id phase attempt a more))) =
      failed_attempts k ++ ["start"; phase]) as Hlog by (intros; by rewrite phases_attempt, Hb, <- app_assoc).
    assert (forall (s2 : BodyState X) la, bs_events s2 = bs_events (log_body s1
        (attempt_event env id "error" (Z.of_nat (S k)) a [("err", VStr (ke_msg e))])) ->
      retry_attempts env id a left_ (Z.of_nat (S k) + 1) la s2 = (s', r) ->
      exists k', attempts_trace a (omap attempt_phase (bs_events s')) k' r) as Hrest.
    { intros s2 la Hs2 Hr. replace (Z.of_nat (S k) + 1)%Z with (Z.of_nat (S (S k))) in Hr by lia.
      apply (IH (S k) la s2); [lia| |done]. by rewrite Hs2, Hlog, failed_attempts_S. }
    assert (forall e', attempts_trace a (failed_attempts k ++ ["start"; "error"]) (S k) (Err e')) as Hfatal.
    { intros e'. split; [lia|]. exists []. rewrite failed_attempts_S, app_nil_r. split; [done|]. right. left. split; [done|lia]. }
    case_if; [intros [= <- <-]; exists (S k); rewrite Hlog; apply Hfatal|].
    case_if; [|by apply Hrest].
    destruct (ce_wait _ _ _) as [w [c|]]; [|by apply Hrest].
    intros [= <- <-]. exists (S k). specialize (Hfatal c). rewrite <- (Hlog "error" (Z.of_nat (S k)) [("err", VStr (ke_msg e))]) in Hfatal.
    exact Hfatal.
  - intros [= <- <-]. exists k. split; [lia|]. eexists. rewrite phases_attempt, Hb, <- app_assoc. split; [done|]. split; [done|]. lia.
  - intros [= <- <-]. exists k. split; [lia|]. eexists. rewrite Hb. split; [done|]. by right; right.
Qed.
End Attempts.

(** The events of a retry spell its attempts: so many start/error pairs, at most
    [max_attempts] of them, then start/success with the number of the attempt that
    succeeded, or exhausted after exactly [max_attempts] failures, or an error that is
    not retried. *)
Theorem retry_attempt_trace {X} (env : ContainerEnv X) node a inputs rs w rs' w' o :
  n_attrs node = ARetry a -> (0 < re_MaxAttempts a)%Z -> no_nested_retry env ->
  retry_execute env node inputs rs w = (rs', w', o) ->
  exists k tail, omap attempt_phase (outcome_events o) = failed_attempts k ++ tail /\
    (Z.of_nat k <= re_MaxAttempts a)%Z /\
    match o with
    | OutOk r => tail = ["start"; "success"] /\ r_Outputs r !! "attempts" = Some (VInt (Z.of_nat k + 1)) /\
                 (Z.of_nat k < re_MaxAttempts a)%Z
    | OutErr _ _ => tail = ["exhausted"] /\ Z.of_nat k = re_MaxAttempts a \/ tail = [] /\ 1 <= k \/ tail = ["start"]
    end.
Proof.
  intros Ha Hm Hn. unfold retry_execute. rewrite Ha. case_if; [lia|].
  destruct (retry_attempts _ _ _ _ _ _ _) as [s r] eqn:Hr.
  apply (retry_attempts_phases env _ Hn a _ 0) in Hr as (k & Hk & tail & Ht & Hend); [|lia|done].
  destruct r as [n|e]; intros [= _ _ <-]; exists k, tail; (split; [done|]; split; [done|]); [|done].
  destruct Hend as (-> & -> & Hle). split; [done|]. split; [|lia]. cbn. rewrite lookup_insert_eq. do 2 f_equal. lia.
Qed.

(** * Pauses *)

Section Pauses.
Context {X : Type} (env : ContainerEnv X).

(** Nothing fails with the pause sentinel: body nodes pause through their results, as
    the executors do. *)
Record no_pause_errors : Prop := {
  npe_execute : forall nd pv rs w rs' w' evs e, ce_execute env nd pv rs w = (rs', w', OutErr evs e) -> ke_paused e = false;
  npe_lookup : forall k e, ce_lookup env k = Some e -> ke_paused e = false;
  npe_wait : forall d w w' e, ce_wait env d w = (w', Some e) -> ke_paused e = false
}.

Hypothesis Hnp : no_pause_errors.

Lemma retry_body_unpaused id attempt body : forall s s' b,
  retry_body env id attempt body s = (s', b) ->
  match b with Ok (Some e) | Err e => ke_paused e = false | Ok None => True end.
Proof.
  induction body as [|bID body IH]; intros s s' b; cbn [retry_body]; [by intros [= <- <-]|].
  destruct (lookupNode _ _) as [target|]; [|by intros [= <- <-]].
  destruct (ce_lookup _ _) as [e|] eqn:Hl; [intros [= <- <-]; by eapply npe_lookup|].
  unfold fire. destruct (ce_execute _ _ _ _ _) as [[rs w] [r|evs e]] eqn:Hx; [apply IH|].
  intros [= <- <-]. by eapply npe_execute.
Qed.

Lemma retry_attempts_unpaused id a left_ : forall attempt last s s' r,
  (forall e, last = Some e -> ke_paused e = false) ->
  retry_attempts env id a left_ attempt last s = (s', r) ->
  match r with Ok _ => True | Err e => ke_paused e = false end.
Proof.
  induction left_ as [|left_ IH]; intros attempt last s s' r Hlast; cbn [retry_attempts].
  { intros [= <- <-]. destruct last as [e|]; [cbn; by apply Hlast|done]. }
  destruct (retry_body _ _ _ _ _) as [s1 b] eqn:Hb. apply retry_body_unpaused in Hb.
  destruct b as [[e|]|e]; [|by intros [= <- <-]..].
  case_if; [by intros [= <- <-]|].
  assert (forall e', Some e = Some e' -> ke_paused e' = false) as He by (by intros ? [= <-]).
  case_if; [|by apply IH].
  destruct (ce_wait _ _ _) as [w [c|]] eqn:Hw; [|by apply IH].
  intros [= <- <-]. by eapply npe_wait.
Qed.
End Pauses.

(** A retry never pauses its run: whatever its body nodes ask for, its outcome is
    neither a pausing result nor the pause sentinel, so a question or an approval
    inside its body is passed over. *)
Theorem retry_never_pauses {X} (env : ContainerEnv X) node inputs rs w rs' w' o :
  no_pause_errors env -> retry_execute env node inputs rs w = (rs', w', o) ->
  match o with OutOk r => r_Pause r = false | OutErr _ e => ke_paused e = false end.
Proof.
  intros Hnp. unfold retry_execute. destruct (n_attrs node); try by intros [= _ _ <-].
  case_if; [by intros [= _ _ <-]|].
  destruct (retry_attempts _ _ _ _ _ _ _) as [s r] eqn:Hr.
  apply retry_attempts_unpaused in Hr; [|done|done]. by destruct r; intros [= _ _ <-].
Qed.

(** * Concrete containers *)

(** The world is the record of the fires: which node, on which inputs. *)
Definition FireLog : Type := list (string * PortValues).

(** [A] answers one; [B] fails on its first fire and answers two on the next; [Q] asks
    the user and pauses; [F] always fails. *)
Definition d_result (outs : PortValues) (evs : EventBatch) (pause : bool) : Result :=
  {| r_Outputs := outs; r_Events := evs; r_Pause := pause; r_PauseReason := ""; r_Backtrack := None |}.

Definition d_execute (nd : Node) (pv : PortValues) (rs : RunState) (w : FireLog) : RunState * FireLog * Outcome :=
  let seen := List.existsb (fun p => bool_decide (p.1 = n_id nd)) w in
  (rs, w ++ [(n_id nd, pv)],
   if bool_decide (n_id nd = "A") then OutOk (d_result {["a" := VInt 1]} [] false)
   else if bool_decide (n_id nd = "B") then
     if seen then OutOk (d_result {["b" := VInt 2]} [] false) else OutErr [] (plain_err "flaky")
   else if bool_decide (n_id nd = "Q") then
     OutOk (d_result ∅ (AppendKind [] "r1" "Q" EventAskPending [("question", VStr "sure?")]) true)
   else OutErr [] (plain_err "broken")).

Definition d_body_graph : Graph :=
  {| g_spec_version := "1"; g_dials := []; g_id := "body";
     g_nodes := map (fun i => d_node i "model") ["A"; "B"; "Q"; "F"]; g_edges := []; g_entrypoints := [] |}.

Definition d_env : ContainerEnv FireLog :=
  {| ce_graph := d_body_graph; ce_run := "r1"; ce_policy := NodeErrorPolicyAdapt; ce_fmt_other := fun _ => "";
     ce_lookup := fun k => if bool_decide (k = "model") then None else Some (plain_err "agentgraph: no executor");
     ce_execute := d_execute; ce_turnPause := None; ce_cancelled := fun _ => false; ce_hopeless := fun _ => false;
     ce_wait := fun _ w => (w, None) |}.

Definition d_loop (body : list string) : Node :=
  {| n_id := "L"; n_kind := "loop"; n_title := ""; n_inputs := []; n_outputs := []; n_dials := [];
     n_attrs := ALoop {| lo_Body := body; lo_Condition := ""; lo_MaxIterations := 2 |} |}.

Definition d_retry_node : Node :=
  {| n_id := "R"; n_kind := "retry"; n_title := ""; n_inputs := []; n_outputs := []; n_dials := [];
     n_attrs := ARetry d_retry |}.

(** An environment whose body nodes pass their inputs on. *)
Definition d_pass : ContainerEnv FireLog :=
  {| ce_graph := d_body_graph; ce_run := "r1"; ce_policy := NodeErrorPolicyAdapt; ce_fmt_other := fun _ => "";
     ce_lookup := fun _ => None;
     ce_execute := fun nd pv rs w =>
       (rs, w ++ [(n_id nd, pv)],
        if bool_decide (n_id nd = "F") then OutErr [] (plain_err "broken") else OutOk (d_result pv [] false));
     ce_turnPause := None; ce_cancelled := fun _ => false; ce_hopeless := fun _ => false;
     ce_wait := fun _ w => (w, None) |}.

Lemma d_pass_ok nd pv rs w rs' w' r : ce_execute d_pass nd pv rs w = (rs', w', OutOk r) -> r_Events r = [] /\ r_Pause r = false.
Proof. cbn. case_bool_decide; [done|]. by intros [= _ _ <-]. Qed.

Lemma d_pass_err nd pv rs w rs' w' evs e :
  ce_execute d_pass nd pv rs w = (rs', w', OutErr evs e) -> e = plain_err "broken".
Proof. cbn. case_bool_decide; [|done]. by intros [= _ _ _ <-]. Qed.

Lemma d_pass_quiet id : quiet_bodies d_pass id.
Proof. by intros nd pv rs w rs' w' r [-> _]%d_pass_ok. Qed.

Local Notation d_loop_run := (loop_execute d_pass (d_loop ["A"; "F"]) ∅ NewRunState []).
Local Notation d_retry_run := (retry_execute d_pass d_retry_node ∅ NewRunState []).

Lemma triple_eta {A B C} (p : A * B * C) : p = (p.1.1, p.1.2, p.2).
Proof. by destruct p as [[? ?] ?]. Qed.

(** Two iterations of A then F: four fires, each closed, the failures adapted. *)
Lemma loop_fires_bracketed_witness :
  omap (span_tag "L") (outcome_events d_loop_run.2) = List.concat (replicate 4 [true; false]) /\
  exists n, omap (span_tag "L") (outcome_events d_loop_run.2) = List.concat (replicate n [true; false]) /\ n <= 4.
Proof.
  split; [vm_compute; reflexivity|].
  destruct d_loop_run as [[rs w] o] eqn:H.
  apply (loop_fires_bracketed d_pass (d_loop ["A"; "F"])
    {| lo_Body := ["A"; "F"]; lo_Condition := ""; lo_MaxIterations := 2 |} ∅ NewRunState []
    rs w o eq_refl (d_pass_quiet "L") H).
Defined.

Lemma retry_fires_bracketed_witness :
  omap (span_tag "R") (outcome_events d_retry_run.2) = List.concat (replicate 2 [true; false]) /\
  exists n, omap (span_tag "R") (outcome_events d_retry_run.2) = List.concat (replicate n [true; false]) /\ n <= 6.
Proof.
  split; [vm_compute; reflexivity|].
  apply (retry_fires_bracketed d_pass d_retry_node d_retry ∅ NewRunState []
    d_retry_run.1.1 d_retry_run.1.2 d_retry_run.2 eq_refl (d_pass_quiet "R") (triple_eta d_retry_run)).
Defined.

Lemma d_steady : steady_body d_pass ["A"; "F"].
Proof.
  split.
  - repeat constructor; eexists; (split; [vm_compute; reflexivity|done]).
  - intros * ->%d_pass_err. done.
  - by intros * [_ ->]%d_pass_ok.
Qed.

Lemma adapt_keeps_looping_witness :
  exists rs' w' r, loop_execute d_pass (d_loop ["A"; "F"]) ∅ NewRunState [] = (rs', w', OutOk r) /\
    r_Outputs r !! "iterations" = Some (VInt 2).
Proof.
  apply (adapt_keeps_looping d_pass (d_loop ["A"; "F"])
    {| lo_Body := ["A"; "F"]; lo_Condition := ""; lo_MaxIterations := 2 |}); try reflexivity. apply d_steady.
Defined.

Lemma retry_attempt_trace_witness :
  omap attempt_phase (outcome_events d_retry_run.2) = ["start"; "success"] /\
  exists k tail, omap attempt_phase (outcome_events d_retry_run.2) = failed_attempts k ++ tail /\ (Z.of_nat k <= 3)%Z.
Proof.
  split; [vm_compute; reflexivity|].
  assert (no_nested_retry d_pass) as Hn by (by intros nd pv rs w rs' w' r [-> _]%d_pass_ok).
  destruct (retry_attempt_trace d_pass d_retry_node d_retry ∅ NewRunState []
    d_retry_run.1.1 d_retry_run.1.2 d_retry_run.2 eq_refl eq_refl Hn (triple_eta d_retry_run)) as (k & tail & Hk & Hle & _).
  exists k, tail. by split.
Defined.

Lemma d_env_unpaused : no_pause_errors d_env.
Proof.
  split; [|by cbn; intros k e; case_bool_decide; [|intros [= <-]]|done].
  intros nd pv rs w rs' w' evs e. cbn. unfold d_execute.
  repeat case_bool_decide; try case_match; try done; by intros [= _ _ _ <-].
Qed.

(** Q asks and is passed over: the retry succeeds at once. *)
Lemma retry_never_pauses_witness :
  exists rs' w' r,
    retry_execute d_env
      {| n_id := "R"; n_kind := "retry"; n_title := ""; n_inputs := []; n_outputs := []; n_dials := [];
         n_attrs := ARetry {| re_BackoffBaseMs := 0; re_BackoffMaxMs := 0; re_Body := ["Q"]; re_MaxAttempts := 1 |} |}
      ∅ NewRunState [] = (rs', w', OutOk r) /\ r_Pause r = false.
Proof.
  eexists _, _, _. split; [reflexivity|].
  refine (retry_never_pauses d_env
      {| n_id := "R"; n_kind := "retry"; n_title := ""; n_inputs := []; n_outputs := []; n_dials := [];
         n_attrs := ARetry {| re_BackoffBaseMs := 0; re_BackoffMaxMs := 0; re_Body := ["Q"]; re_MaxAttempts := 1 |} |}
      ∅ NewRunState [] _ _ (OutOk _) d_env_unpaused _). reflexivity.
Defined.

(** The same Q inside a loop: the run pauses, and the question is not among the
    events it leaves behind. *)
Example loop_pause_drops_question :
  exists rs' w' evs, loop_execute d_env (d_loop ["Q"]) ∅ NewRunState [] = (rs', w', OutErr evs ErrPaused) /\
    map ev_Kind evs = [EventNodeStart; EventNodeComplete] /\ rs' = NewRunState.
Proof. eexists _, _, _. split; [reflexivity|]. split; vm_compute; reflexivity. Qed.

(** B fails once; on the second attempt A is fired on its own earlier output instead of
    the retry's input. *)
Example retry_restarts_from_partial :
  (retry_execute d_env d_retry_node {["in" := VInt 7]} NewRunState []).1.2 =
  [("A", {["in" := VInt 7]}); ("B", {["a" := VInt 1]}); ("A", {["a" := VInt 1]}); ("B", {["a" := VInt 1]})].
Proof. vm_compute. reflexivity. Qed.
