(* ===== verification/Routing.v ===== *)
(** Conditional routing: the [decision] executor (core/agentgraph/
    exec_control.go), the [router] executor (exec_router.go), the liveness
    predicate each gives the kernel, and the per-edge rules that keep attrs and
    ports in agreement (edgecheck.go). *)
From S2P Require Import Prelude GoString AgentGraph EventLog RunState Kernel Branch.
From Stdlib Require Import Ascii String.
Open Scope string_scope.
Open Scope list_scope.

(** * decision *)

Section Decision.
Context (fmt_other : value -> string).

Definition port_of (inputs : PortValues) (k : string) : value := default VNil (inputs !! k).

Definition decision_execute (node : Node) (inputs : PortValues) : Outcome :=
  match n_attrs node with
  | ADecision a =>
      match evalBranchExpr fmt_other inputs (da_condition a) with
      | Err e => OutErr [] (plain_err ("decision: node " +:+ fmt_q (n_id node) +:+ ": " +:+ e))
      | Ok verdict =>
          let outs : PortValues :=
            if verdict
            then <["next" := VStr (da_next_true a)]> {["true" := port_of inputs "in"]}
            else <["next" := VStr (da_next_false a)]> {["false" := port_of inputs "in"]} in
          OutOk {| r_Outputs := <["verdict" := VBool verdict]> outs; r_Events := []; r_Pause := false;
                   r_PauseReason := ""; r_Backtrack := None |}
      end
  | _ => OutErr [] (plain_err ("decision: node " +:+ fmt_q (n_id node) +:+ " has wrong attrs type"))
  end.
End Decision.

Definition decision_LiveOutEdges (nd : Node) (outs : PortValues) : option (Edge -> bool) :=
  match outs !! "verdict" with
  | None => None
  | Some raw =>
      let verdict := truthy raw in
      let '(takenPort, deadPort) := if verdict then ("true", "false") else ("false", "true") in
      let '(takenTarget, deadTarget) :=
        match n_attrs nd with
        | ADecision a => if verdict then (da_next_true a, da_next_false a) else (da_next_false a, da_next_true a)
        | _ => ("", "")
        end in
      Some (fun e =>
        let to := e_dst e in
        let by_port := if bool_decide (ep_port (e_from e) = takenPort) then true
                       else negb (bool_decide (ep_port (e_from e) = deadPort)) in
        if bool_decide (to = "") then by_port
        else if bool_decide (to = deadTarget) then false
        else if bool_decide (to = takenTarget) then true
        else by_port)
  end.

Definition decisionExecutor : Executor := {| ex_router := Some decision_LiveOutEdges |}.

(** * router *)

Definition map_of (v : value) : option (list (string * value)) :=
  match v with VMap m => Some m | _ => None end.

Definition routerChoices (a : RouterAttrs) : list RouterChoice :=
  map (fun id =>
         match map_of (default VNil (ra_choices a !! id)) with
         | Some m => {| rc_id := id; rc_target := as_string (assoc "target" m);
                        rc_description := as_string (assoc "description" m) |}
         | None => {| rc_id := id; rc_target := ""; rc_description := "" |}
         end)
      (sort_strings (map_to_list (ra_choices a)).*1).

(** [routerTargets]: a missing id reads as the empty string. *)
Definition routerTarget (choices : list RouterChoice) (id : string) : string :=
  match List.find (fun c => bool_decide (rc_id c = id)) choices with
  | Some c => rc_target c
  | None => ""
  end.

Definition is_choice (choices : list RouterChoice) (id : string) : bool :=
  existsb (fun c => bool_decide (rc_id c = id)) choices.

Definition router_LiveOutEdges (nd : Node) (outs : PortValues) : option (Edge -> bool) :=
  match n_attrs nd with
  | ARouter a =>
      let chosen := as_string (outs !! "next") in
      if bool_decide (chosen = "") then None else
      let choices := routerChoices a in
      let takenTarget := routerTarget choices chosen in
      let dead := List.filter (fun c => negb (bool_decide (rc_id c = chosen))) choices in
      let deadPort p := existsb (fun c => bool_decide (rc_id c = p)) dead in
      let deadTarget t := existsb (fun c => bool_decide (rc_target c = t) && negb (bool_decide (rc_target c = ""))
                                            && negb (bool_decide (rc_target c = takenTarget))) dead in
      Some (fun e =>
        let to := e_dst e in
        if negb (bool_decide (to = "")) && negb (bool_decide (takenTarget = "")) && bool_decide (to = takenTarget)
        then true
        else if deadTarget to then false
        else if bool_decide (ep_port (e_from e) = chosen) then true
        else negb (deadPort (ep_port (e_from e))))
  | _ => None
  end.

Definition routerExecutor : Executor := {| ex_router := Some router_LiveOutEdges |}.

(** ** Reading the choice off text *)

(** Every balanced brace span, outermost first; [starts] are the texts from the
    open braces on, innermost first. *)
Fixpoint json_scan (l : list ascii) (starts : list (list ascii)) (inString escaped : bool)
    (out : list (list ascii)) : list (list ascii) :=
  match l with
  | [] => out
  | c :: l' =>
      if escaped then json_scan l' starts inString false out
      else if is_char c 92 && inString then json_scan l' starts inString true out
      else if is_char c 34 then json_scan l' starts (negb inString) false out
      else if inString then json_scan l' starts inString false out
      else if is_char c 123 then json_scan l' (l :: starts) inString false out
      else if is_char c 125 then
        match starts with
        | s :: starts => json_scan l' starts inString false
                           (take (List.length s - List.length l') s :: out)
        | [] => json_scan l' starts inString false out
        end
      else json_scan l' starts inString false out
  end.

Definition jsonObjectCandidates (s : string) : list string :=
  map of_list (json_scan (list_of s) [] false false []).

Definition firstToken (l : list ascii) : list ascii :=
  (span (fun c => negb (is_space c || is_char c 44 || is_char c 125 || is_char c 93)) l).1.

(** All suffixes that follow an occurrence of [field], scanning on after it. *)
Fixpoint after_field (fuel : nat) (field l : list ascii) : list (list ascii) :=
  match fuel with
  | 0 => []
  | S fuel =>
      if prefixb field l then
        let rest := drop (List.length field) l in rest :: after_field fuel field rest
      else match l with [] => [] | _ :: l => after_field fuel field l end
  end.

Definition field_token (rest : list ascii) : string :=
  let l := drop_while (fun c => is_char c 34 || is_char c 58 || is_char c 61 || is_space c) rest in
  let trim c := is_char c 34 || is_char c 39 || is_char c 44 || is_space c in
  of_list (drop_while_end trim (drop_while trim (firstToken l))).

Section ParseChoice.
(** [json.Unmarshal] of a text into an object. *)
Context (unmarshal : string -> option (list (string * value))).

Definition object_choice (field : string) (valid : string -> bool) (obj : string) : option string :=
  match unmarshal obj with
  | None => None
  | Some m =>
      match assoc field m with
      | Some (VStr s) => let s := TrimSpace s in if valid s then Some s else None
      | _ => None
      end
  end.

Fixpoint first_some {A B} (f : A -> option B) (l : list A) : option B :=
  match l with [] => None | x :: l => match f x with Some b => Some b | None => first_some f l end end.

Definition parseChoiceField (text field : string) (valid : string -> bool) : option string :=
  match first_some (object_choice field valid) (jsonObjectCandidates text) with
  | Some s => Some s
  | None =>
      first_some (fun rest => let t := field_token rest in if valid t then Some t else None)
        (after_field (S (String.length text)) (list_of field) (list_of text))
  end.

Definition routerTextOf (v : option value) : option string :=
  let nonempty s := if bool_decide (s = "") then None else Some s in
  match v with
  | Some (VStr s) => nonempty s
  | Some (VMessage m) => nonempty (m_content m)
  | Some (VMessages l) => match last l with Some m => nonempty (m_content m) | None => None end
  | _ => None
  end.

Definition defaultRouterChoiceField : string := "next_choice".

Definition routerFusedChoice (st : RunState) (a : RouterAttrs) (inputs : PortValues) (valid : string -> bool)
  : option string :=
  let field := if bool_decide (ra_choice_field a = "") then defaultRouterChoiceField else ra_choice_field a in
  let named v := match v with
                 | Some (VStr s) => if valid (TrimSpace s) then Some (TrimSpace s) else None
                 | _ => None
                 end in
  match named (inputs !! field) with
  | Some s => Some s
  | None =>
      if bool_decide (ra_source_node a = "") then None else
      let outs := Outputs st (ra_source_node a) in
      match named (outs !! field) with
      | Some s => Some s
      | None =>
          first_some (fun key => match routerTextOf (outs !! key) with
                                 | Some s => parseChoiceField s field valid
                                 | None => None
                                 end) ["assistant"; "assistant_text"; "content"]
      end
  end.

(** ** Execution *)

Definition routerStateKey (nodeID : string) : string := "__router__" +:+ nodeID.
Definition EventRouterChoice : string := "router_choice".
Definition EventRouterOverride : string := "router_override".

Definition last_choice (st : RunState) (id : string) : string :=
  as_string (Outputs st (routerStateKey id) !! "choice").
Definition consecutive_of (st : RunState) (id : string) : Z :=
  as_int (Outputs st (routerStateKey id) !! "consecutive").

Definition routerFinish (run : string) (st : RunState) (nd : Node) (choices : list RouterChoice)
    (inputs : PortValues) (evs : EventBatch) (choice source mode : string) : RunState * Outcome :=
  let id := n_id nd in
  let consecutive := if bool_decide (last_choice st id = choice) then (consecutive_of st id + 1)%Z else 1%Z in
  let st := SetOutputs st (routerStateKey id)
              (<["choice" := VStr choice]> {["consecutive" := VInt consecutive]}) in
  let in_ := port_of inputs "in" in
  (st, OutOk {| r_Outputs := <[choice := in_]> (<["next" := VStr choice]> (<["out" := in_]> inputs));
                r_Events := evs ++ AppendKind [] run id EventRouterChoice
                  [("choice", VStr choice); ("mode", VStr mode); ("source", VStr source);
                   ("consecutive", VInt consecutive); ("target", VStr (routerTarget choices choice))];
                r_Pause := false; r_PauseReason := ""; r_Backtrack := None |}).

(** [router_execute]; [askModel] is the standalone call, [doomHits] the number
    of calls reported on the [doom_loop_hits] port. *)
Definition router_execute (run : string) (askModel : result string KErr) (doomHits : Z)
    (st : RunState) (nd : Node) (inputs : PortValues) : RunState * Outcome :=
  match n_attrs nd with
  | ARouter a =>
      let id := n_id nd in
      let fail msg := (st, OutErr [] (plain_err ("router: node " +:+ fmt_q id +:+ msg))) in
      let choices := routerChoices a in
      let valid := is_choice choices in
      if bool_decide (choices = []) then
        fail ": choices is empty — a router with no menu cannot route"
      else if negb (valid (ra_default_choice a)) then
        fail (": default_choice " +:+ fmt_q (ra_default_choice a) +:+ " is not one of the declared choices")
      else
      let mode := if bool_decide (ra_mode a = "") then "fused" else ra_mode a in
      if negb (bool_decide (ra_replan_choice a = "")) && valid (ra_replan_choice a)
         && truthy (default VNil (inputs !! "should_replan")) then
        let stated := default "" (routerFusedChoice st a inputs valid) in
        let evs := AppendKind [] run id EventRouterOverride
          [("reason", VStr "doom_loop"); ("overridden", VStr stated);
           ("choice", VStr (ra_replan_choice a)); ("doom_loop_hits", VInt doomHits)] in
        routerFinish run st nd choices inputs evs (ra_replan_choice a) "doom_loop" mode
      else
        let ask := match askModel with Ok s => Ok (s, "llm") | Err e => Err e end in
        let picked :=
          if bool_decide (mode = "standalone") then ask
          else match routerFusedChoice st a inputs valid with
               | Some s => Ok (s, "source_node")
               | None => if ra_fallback_to_standalone a then ask else Ok ("", "")
               end in
        match picked with
        | Err e => (st, OutErr [] e)
        | Ok (choice, source) =>
            let '(choice, source) := if valid choice then (choice, source)
                                     else (ra_default_choice a, "default") in
            let consecutive := consecutive_of st id in
            if (0 <? ra_max_consecutive_same a)%Z && negb (bool_decide (choice = ra_default_choice a))
               && bool_decide (last_choice st id = choice)
               && (ra_max_consecutive_same a <? consecutive + 1)%Z then
              let evs := AppendKind [] run id EventRouterOverride
                [("reason", VStr "thrash"); ("overridden", VStr choice);
                 ("choice", VStr (ra_default_choice a)); ("consecutive", VInt (consecutive + 1));
                 ("cap", VInt (ra_max_consecutive_same a))] in
              routerFinish run st nd choices inputs evs (ra_default_choice a) "thrash_guard" mode
            else routerFinish run st nd choices inputs [] choice source mode
        end
  | _ => (st, OutErr [] (plain_err ("router: node " +:+ fmt_q (n_id nd) +:+ " has wrong attrs type")))
  end.
End ParseChoice.

(** * The edge rules *)

Definition decisionEdgeIssues (nodeID : string) (a : DecisionAttrs) (e : Edge) : list string :=
  if negb (bool_decide (e_src e = nodeID)) then [] else
  let rule want attr :=
    if bool_decide (want = "" \/ e_dst e = want) then []
    else ["schema: node " +:+ fmt_q nodeID +:+ " (decision): edge from port " +:+ fmt_q (ep_port (e_from e)) +:+
          " targets " +:+ fmt_q (e_dst e) +:+ " but " +:+ attr +:+ " names " +:+ fmt_q want +:+
          " — the kernel routes on both, so they must agree"] in
  if bool_decide (ep_port (e_from e) = "true") then rule (da_next_true a) "next_true"
  else if bool_decide (ep_port (e_from e) = "false") then rule (da_next_false a) "next_false"
  else [].

(** The loop keeps the last matching choice. *)
Definition routerEdgeIssues (nodeID : string) (a : RouterAttrs) (e : Edge) : list string :=
  if negb (bool_decide (e_src e = nodeID)) then [] else
  match last (List.filter (fun c => bool_decide (rc_id c = ep_port (e_from e))) (routerChoices a)) with
  | None => []
  | Some c =>
      if bool_decide (rc_target c = "" \/ e_dst e = rc_target c) then []
      else ["schema: node " +:+ fmt_q nodeID +:+ " (router): edge from choice port " +:+
            fmt_q (ep_port (e_from e)) +:+ " targets " +:+ fmt_q (e_dst e) +:+ " but the choice names " +:+
            fmt_q (rc_target c) +:+ " — the kernel routes on both, so they must agree"]
  end.

Definition edgeRoutingIssues (idx : gmap string Node) (e : Edge) : list string :=
  match idx !! e_src e with
  | None => []
  | Some from =>
      if bool_decide (n_kind from = NodeKindDecision) then
        match n_attrs from with ADecision a => decisionEdgeIssues (n_id from) a e | _ => [] end
      else if bool_decide (n_kind from = NodeKindRouter) then
        match n_attrs from with ARouter a => routerEdgeIssues (n_id from) a e | _ => [] end
      else []
  end.

(** * Routing agrees with the attrs *)

Lemma elem_of_routerChoices a c :
  c ∈ routerChoices a -> rc_id c ∈ dom (ra_choices a).
Proof.
  unfold routerChoices. intros (id & <- & Hid)%list_elem_of_In%in_map_iff.
  apply list_elem_of_In, elem_of_sort_strings, list_elem_of_fmap in Hid as ([k v] & -> & Hk).
  apply elem_of_map_to_list in Hk. apply elem_of_dom. destruct (map_of _); cbn; by exists v.
Qed.

Lemma routerChoices_nodup a : NoDup (map rc_id (routerChoices a)).
Proof.
  unfold routerChoices. rewrite map_map.
  assert (forall l, map (fun id => rc_id (match map_of (default VNil (ra_choices a !! id)) with
         | Some m => {| rc_id := id; rc_target := as_string (assoc "target" m);
                        rc_description := as_string (assoc "description" m) |}
         | None => {| rc_id := id; rc_target := ""; rc_description := "" |}
         end)) l = l) as Hid.
  { induction l as [|x l IH]; [done|]. cbn. rewrite IH. by destruct (map_of _). }
  rewrite Hid. rewrite sort_strings_perm. apply NoDup_fst_map_to_list.
Qed.

Lemma nodup_unique {A} (f : A -> string) (l : list A) x y :
  NoDup (map f l) -> x ∈ l -> y ∈ l -> f x = f y -> x = y.
Proof.
  induction l as [|z l IH]; [by intros _ ?%elem_of_nil|]. cbn. intros [Hz Hnd]%NoDup_cons.
  assert (forall w, w ∈ l -> f w = f z -> False) as Hno.
  { intros w Hw Hf. apply Hz. rewrite <- Hf. by apply list_elem_of_In, in_map, list_elem_of_In. }
  intros [->|Hx]%elem_of_cons [->|Hy]%elem_of_cons Hf; try done; [..|by apply IH]; exfalso; eauto.
Qed.

Lemma find_choice choices c :
  NoDup (map rc_id choices) -> c ∈ choices -> routerTarget choices (rc_id c) = rc_target c.
Proof.
  intros Hnd Hc. unfold routerTarget. destruct (List.find _ choices) as [c'|] eqn:Hf.
  - apply find_some in Hf as [Hin Heq]. apply bool_decide_eq_true in Heq.
    f_equal. apply (nodup_unique rc_id choices); [done|by apply list_elem_of_In|done|done].
  - pose proof (find_none _ _ Hf c (proj1 (list_elem_of_In _ _) Hc)) as H. cbv beta in H. by rewrite bool_decide_true in H.
Qed.

(** In a decision node whose attrs name two different successors and whose
    true/false edges the edge check accepts, the verdict keeps exactly the edges
    off its own port alive. *)
Theorem decision_routes_by_verdict nd a outs v e :
  n_attrs nd = ADecision a -> outs !! "verdict" = Some (VBool v) ->
  da_next_true a <> "" -> da_next_false a <> "" -> da_next_true a <> da_next_false a ->
  e_src e = n_id nd -> ep_port (e_from e) = "true" \/ ep_port (e_from e) = "false" ->
  decisionEdgeIssues (n_id nd) a e = [] ->
  exists live, decision_LiveOutEdges nd outs = Some live /\
    live e = bool_decide (ep_port (e_from e) = if v then "true" else "false").
Proof.
  intros Ha Hv Ht Hf Hne Hsrc Hport Hok. unfold decision_LiveOutEdges. rewrite Hv, Ha. cbn [truthy].
  unfold decisionEdgeIssues in Hok. rewrite bool_decide_true in Hok by done. cbn [negb] in Hok.
  destruct Hport as [Hp|Hp]; rewrite Hp in *.
  - rewrite bool_decide_true in Hok by done. case_bool_decide as Hd; [|done].
    destruct Hd as [?|Hd]; [done|].
    destruct v; eexists; (split; [done|]); cbn; rewrite Hd, Hp;
      rewrite (bool_decide_false (da_next_true a = "")) by done.
    + rewrite (bool_decide_false (da_next_true a = da_next_false a)) by done. by rewrite !bool_decide_true.
    + by rewrite (bool_decide_true (da_next_true a = da_next_true a)).
  - rewrite bool_decide_false, bool_decide_true in Hok by done. case_bool_decide as Hd; [|done].
    destruct Hd as [?|Hd]; [done|].
    destruct v; eexists; (split; [done|]); cbn; rewrite Hd, Hp;
      rewrite (bool_decide_false (da_next_false a = "")) by done.
    + by rewrite (bool_decide_true (da_next_false a = da_next_false a)).
    + rewrite (bool_decide_false (da_next_false a = da_next_true a)) by congruence. by rewrite !bool_decide_true.
Qed.

(** In a router whose choice edges the edge check accepts, an edge off a
    choice's port is live exactly when that choice won or leads to the same
    node as the winner. *)
Theorem router_routes_by_choice nd a outs c w e :
  n_attrs nd = ARouter a -> c ∈ routerChoices a -> w ∈ routerChoices a ->
  outs !! "next" = Some (VStr (rc_id w)) -> rc_id w <> "" -> rc_target w <> "" -> rc_target c <> "" ->
  e_src e = n_id nd -> ep_port (e_from e) = rc_id c -> routerEdgeIssues (n_id nd) a e = [] ->
  exists live, router_LiveOutEdges nd outs = Some live /\
    (live e = true <-> rc_target c = rc_target w).
Proof.
  intros Ha Hc Hw Hn Hwid Hwt Hct Hsrc Hp Hok. pose proof (routerChoices_nodup a) as Hnd.
  assert (e_dst e = rc_target c) as Hdst.
  { unfold routerEdgeIssues in Hok. rewrite bool_decide_true in Hok by done. cbn [negb] in Hok.
    destruct (last (List.filter _ _)) as [c'|] eqn:Hl.
    - apply last_Some_elem_of, elem_of_filter_bool in Hl as [Hin Heq]. apply bool_decide_eq_true in Heq.
      assert (c' = c) as -> by (apply (nodup_unique rc_id (routerChoices a)); congruence).
      case_bool_decide as Hd; [|done]. by destruct Hd.
    - apply last_None in Hl. exfalso.
      assert (c ∈ List.filter (fun c => bool_decide (rc_id c = ep_port (e_from e))) (routerChoices a)) as Hin.
      { apply elem_of_filter_bool. split; [done|]. by apply bool_decide_eq_true. }
      rewrite Hl in Hin. by apply elem_of_nil in Hin. }
  unfold router_LiveOutEdges. rewrite Ha, Hn. cbn [as_string]. rewrite bool_decide_false by done.
  eexists. split; [done|]. cbn beta. rewrite Hdst, Hp, find_choice by done.
  rewrite (bool_decide_false (rc_target c = "")), (bool_decide_false (rc_target w = "")) by done. cbn [negb andb].
  destruct (decide (rc_target c = rc_target w)) as [Heq|Hne].
  { rewrite bool_decide_true by done. naive_solver. }
  rewrite (bool_decide_false (rc_target c = rc_target w)) by done.
  assert (c <> w) as Hcw by (by intros ->).
  assert (rc_id c <> rc_id w) as Hids.
  { intros Heq. apply Hcw. by apply (nodup_unique rc_id (routerChoices a)). }
  match goal with |- context [existsb ?f ?l] => assert (existsb f l = true) as -> end.
  { apply existsb_exists. exists c. split.
    - apply filter_In. split; [by apply list_elem_of_In|]. by rewrite bool_decide_false.
    - rewrite bool_decide_true, bool_decide_false, bool_decide_false by done. done. }
  naive_solver.
Qed.

Definition demo_choices : gmap string value :=
  <["go" := VMap [("target", VStr "G")]]> {["stay" := VMap [("target", VStr "S")]]}.

Definition demo_router (menu : gmap string value) (cap : Z) : Node :=
  {| n_id := "r"; n_kind := NodeKindRouter; n_title := ""; n_inputs := []; n_outputs := [];
     n_attrs := ARouter {| ra_choices := menu; ra_default_choice := "stay"; ra_replan_choice := "";
       ra_mode := "standalone"; ra_source_node := ""; ra_choice_field := "";
       ra_fallback_to_standalone := false; ra_max_consecutive_same := cap |};
     n_dials := [] |}.

Definition demo_edge (src port dst : string) : Edge :=
  {| e_from := {| ep_node := src; ep_port := port |}; e_to := {| ep_node := dst; ep_port := "in" |} |}.

Definition demo_decision : Node :=
  {| n_id := "d"; n_kind := NodeKindDecision; n_title := ""; n_inputs := []; n_outputs := [];
     n_attrs := ADecision {| da_condition := "ok"; da_next_true := "A"; da_next_false := "B" |};
     n_dials := [] |}.

Lemma decision_routes_by_verdict_witness :
  exists live, decision_LiveOutEdges demo_decision {["verdict" := VBool false]} = Some live /\
    live (demo_edge "d" "true" "A") = false.
Proof.
  destruct (decision_routes_by_verdict demo_decision
              {| da_condition := "ok"; da_next_true := "A"; da_next_false := "B" |}
              {["verdict" := VBool false]} false (demo_edge "d" "true" "A")) as (live & Hl & He);
    [reflexivity|reflexivity|discriminate|discriminate|discriminate|reflexivity|by left|reflexivity|].
  exists live. split; [exact Hl|]. rewrite He. reflexivity.
Defined.

Lemma router_routes_by_choice_witness :
  exists live, router_LiveOutEdges (demo_router demo_choices 0) {["next" := VStr "go"]} = Some live /\
    live (demo_edge "r" "stay" "S") <> true.
Proof.
  destruct (router_routes_by_choice (demo_router demo_choices 0)
              {| ra_choices := demo_choices; ra_default_choice := "stay"; ra_replan_choice := "";
                 ra_mode := "standalone"; ra_source_node := ""; ra_choice_field := "";
                 ra_fallback_to_standalone := false; ra_max_consecutive_same := 0 |}
              {["next" := VStr "go"]}
              {| rc_id := "stay"; rc_target := "S"; rc_description := "" |}
              {| rc_id := "go"; rc_target := "G"; rc_description := "" |}
              (demo_edge "r" "stay" "S")) as (live & Hl & He);
    [reflexivity|by vm_compute; right; left|by vm_compute; left|reflexivity
    |discriminate|discriminate|discriminate|reflexivity|reflexivity|vm_compute; reflexivity|].
  exists live. split; [exact Hl|]. intros H. apply He in H. discriminate.
Defined.

(** * The anti-thrash cap *)

(** One execution of a router: the changes the rest of the run made to the state
    since the last one, the model's answer, and the inputs. *)
Record Visit := {
  v_before : RunState -> RunState; v_answer : result string KErr; v_hits : Z; v_inputs : PortValues
}.

Section Thrash.
Context (unmarshal : string -> option (list (string * value))) (run : string) (nd : Node).

(** The choices a sequence of executions records, failed ones skipped. *)
Fixpoint choices_made (vs : list Visit) (st : RunState) : list string :=
  match vs with
  | [] => []
  | v :: vs =>
      let '(st, o) := router_execute unmarshal run (v_answer v) (v_hits v) (v_before v st) nd (v_inputs v) in
      match o with
      | OutOk _ => last_choice st (n_id nd) :: choices_made vs st
      | OutErr _ _ => choices_made vs st
      end
  end.

(** The rest of the run leaves this router's counter alone. *)
Definition leaves_counter (v : Visit) : Prop :=
  forall st, Outputs (v_before v st) (routerStateKey (n_id nd)) = Outputs st (routerStateKey (n_id nd)).

Lemma routerFinish_counter st choices inputs evs choice source mode st' o :
  routerFinish run st nd choices inputs evs choice source mode = (st', o) ->
  last_choice st' (n_id nd) = choice /\ (exists r, o = OutOk r) /\
  consecutive_of st' (n_id nd) =
    (if bool_decide (last_choice st (n_id nd) = choice) then consecutive_of st (n_id nd) + 1 else 1)%Z.
Proof.
  unfold routerFinish. set (k := if bool_decide _ then _ else _). intros [= <- <-].
  unfold last_choice, consecutive_of. rewrite !Outputs_SetOutputs, !decide_True by done.
  split; [by simplify_map_eq|]. split; [eauto|]. by simplify_map_eq.
Qed.

(** What one execution does to the counter. *)
Lemma router_step_counter a ask hits st inputs st' o :
  n_attrs nd = ARouter a ->
  router_execute unmarshal run ask hits st nd inputs = (st', o) ->
  (st' = st /\ exists evs e, o = OutErr evs e) \/
  ((exists r, o = OutOk r) /\ is_choice (routerChoices a) (last_choice st' (n_id nd)) = true /\
   let c := last_choice st' (n_id nd) in
   consecutive_of st' (n_id nd) =
     (if bool_decide (last_choice st (n_id nd) = c) then consecutive_of st (n_id nd) + 1 else 1)%Z /\
   ((0 < ra_max_consecutive_same a)%Z -> c <> ra_default_choice a -> c <> ra_replan_choice a ->
    last_choice st (n_id nd) = c -> (consecutive_of st (n_id nd) + 1 <= ra_max_consecutive_same a)%Z)).
Proof.
  intros Ha. unfold router_execute. rewrite Ha.
  case_bool_decide; [intros [= <- <-]; eauto|].
  destruct (is_choice (routerChoices a) (ra_default_choice a)) eqn:Hdef; cbn [negb]; [|intros [= <- <-]; eauto].
  destruct (negb _ && is_choice _ _ && _) eqn:Hdoom.
  { apply andb_true_iff in Hdoom as [[_ Hv]%andb_true_iff _].
    intros (Hl & Ho & Hc)%routerFinish_counter. right. rewrite Hl. naive_solver. }
  destruct (if bool_decide _ then _ else _) as [[choice source]|e]; [|intros [= <- <-]; eauto].
  destruct (if is_choice _ choice then _ else _) as [c src] eqn:Hc.
  assert (is_choice (routerChoices a) c = true) as Hvc by (destruct (is_choice _ choice) eqn:?; naive_solver).
  destruct (_ && _ && _ && _) eqn:Hcap.
  { intros (Hl & Ho & Hc')%routerFinish_counter. right. rewrite Hl. naive_solver. }
  intros (Hl & Ho & Hc')%routerFinish_counter. right. rewrite Hl.
  split; [done|]. split; [done|]. split; [done|]. intros Hpos Hnd _ Hlast.
  rewrite (bool_decide_false (c = _)), (bool_decide_true (_ = c)) in Hcap by done.
  rewrite (proj2 (Z.ltb_lt _ _) Hpos) in Hcap. cbn in Hcap. apply Z.ltb_ge in Hcap. lia.
Qed.

Lemma leaves_counter_reads v st :
  leaves_counter v ->
  last_choice (v_before v st) (n_id nd) = last_choice st (n_id nd) /\
  consecutive_of (v_before v st) (n_id nd) = consecutive_of st (n_id nd).
Proof. intros Hv. unfold last_choice, consecutive_of. by rewrite Hv. Qed.

(** A row of one capped choice, from a state that has already counted some. *)
Lemma choices_made_prefix a vs : forall st c n post,
  n_attrs nd = ARouter a -> (0 < ra_max_consecutive_same a)%Z -> Forall leaves_counter vs ->
  (0 <= consecutive_of st (n_id nd))%Z ->
  c <> ra_default_choice a -> c <> ra_replan_choice a ->
  choices_made vs st = replicate n c ++ post -> n <> 0 ->
  (Z.of_nat n + (if bool_decide (last_choice st (n_id nd) = c) then consecutive_of st (n_id nd) else 0)
   <= ra_max_consecutive_same a)%Z.
Proof.
  induction vs as [|v vs IH]; intros st c n post Ha Hpos Hvs H0 Hd Hr Hm Hn.
  { by destruct n. }
  apply Forall_cons in Hvs as [Hv Hvs]. cbn [choices_made] in Hm.
  destruct (router_execute _ _ _ _ _ _ _) as [st' o] eqn:Hx.
  destruct (leaves_counter_reads v st Hv) as [Hl Hc].
  destruct (router_step_counter _ _ _ _ _ _ _ Ha Hx) as [[-> (evs & e & ->)]|([r ->] & _ & Hcnt & Hcap)].
  { rewrite <- Hl, <- Hc in *. eapply IH; eauto. }
  destruct n as [|n]; [done|]. cbn in Hm. injection Hm as Hlast Hm.
  cbn zeta in *. rewrite Hlast, Hl, Hc in *. specialize (Hcap Hpos Hd Hr).
  destruct (decide (n = 0)) as [->|Hn0].
  { case_bool_decide; [specialize (Hcap ltac:(done))|]; lia. }
  assert (0 <= consecutive_of st' (n_id nd))%Z as H0'.
  { rewrite Hcnt. case_bool_decide; lia. }
  pose proof (IH st' c n post Ha Hpos Hvs H0' Hd Hr Hm Hn0) as IHn.
  rewrite Hlast, bool_decide_true, Hcnt in IHn by done. case_bool_decide; lia.
Qed.

(** The states a sequence goes through keep the counter non-negative. *)
Lemma choices_made_split a vs : forall st pre post,
  n_attrs nd = ARouter a -> Forall leaves_counter vs -> (0 <= consecutive_of st (n_id nd))%Z ->
  choices_made vs st = pre ++ post ->
  exists st' vs', (0 <= consecutive_of st' (n_id nd))%Z /\ Forall leaves_counter vs' /\
    choices_made vs' st' = post.
Proof.
  induction vs as [|v vs IH]; intros st pre post Ha Hvs H0 Hm.
  { cbn in Hm. symmetry in Hm. apply app_eq_nil in Hm as [-> ->]. by exists st, []. }
  destruct pre as [|x pre]; [by exists st, (v :: vs)|].
  apply Forall_cons in Hvs as [Hv Hvs]. cbn [choices_made] in Hm.
  destruct (router_execute _ _ _ _ _ _ _) as [st' o] eqn:Hx.
  destruct (leaves_counter_reads v st Hv) as [Hl Hc].
  destruct (router_step_counter _ _ _ _ _ _ _ Ha Hx) as [[-> (evs & e & ->)]|([r ->] & _ & Hcnt & Hcap)].
  { apply (IH (v_before v st) (x :: pre) post); [done|done|lia|done]. }
  injection Hm as _ Hm. apply (IH st' pre post); [done|done| |done].
  rewrite Hcnt. case_bool_decide; lia.
Qed.
End Thrash.

(** A router with a positive [max_consecutive_same] never records one of its
    non-default choices more than that many times in a row, whatever the model
    answers and whatever happens between its executions; the doom-loop choice is
    exempt. *)
Theorem router_thrash_bounded unmarshal run nd a vs st c n pre post :
  n_attrs nd = ARouter a -> (0 < ra_max_consecutive_same a)%Z ->
  Forall (leaves_counter nd) vs -> (0 <= consecutive_of st (n_id nd))%Z ->
  choices_made unmarshal run nd vs st = pre ++ replicate n c ++ post ->
  c <> ra_default_choice a -> c <> ra_replan_choice a ->
  (Z.of_nat n <= ra_max_consecutive_same a)%Z.
Proof.
  intros Ha Hpos Hvs H0 Hm Hd Hr. destruct (decide (n = 0)) as [->|Hn]; [lia|].
  destruct (choices_made_split unmarshal run nd a vs st pre _ Ha Hvs H0 Hm) as (st' & vs' & H0' & Hvs' & Hm').
  pose proof (choices_made_prefix unmarshal run nd a vs' st' c n post Ha Hpos Hvs' H0' Hd Hr Hm' Hn).
  case_bool_decide; lia.
Qed.

Definition demo_visit : Visit :=
  {| v_before := id; v_answer := Ok "go"; v_hits := 0; v_inputs := ∅ |}.

Definition demo_attrs : RouterAttrs :=
  {| ra_choices := demo_choices; ra_default_choice := "stay"; ra_replan_choice := "";
     ra_mode := "standalone"; ra_source_node := ""; ra_choice_field := "";
     ra_fallback_to_standalone := false; ra_max_consecutive_same := 2 |}.

(** The model answers "go" every time; the cap is two. *)
Lemma router_thrash_bounded_witness :
  choices_made (fun _ => None) "run" (demo_router demo_choices 2) (replicate 6 demo_visit) NewRunState =
    ["go"; "go"; "stay"; "go"; "go"; "stay"] /\ (Z.of_nat 2 <= 2)%Z.
Proof.
  split; [vm_compute; reflexivity|].
  apply (router_thrash_bounded (fun _ => None) "run" (demo_router demo_choices 2) demo_attrs
           (replicate 6 demo_visit) NewRunState "go" 2 ["go"; "go"; "stay"] ["stay"]);
    [reflexivity|reflexivity| |vm_compute; discriminate|vm_compute; reflexivity|discriminate|discriminate].
  apply Forall_replicate. intros st. reflexivity.
Defined.

(** * A choice called [next] *)

Lemma router_finish_next unmarshal run ask hits st nd a inputs st' r :
  n_attrs nd = ARouter a ->
  router_execute unmarshal run ask hits st nd inputs = (st', OutOk r) ->
  last_choice st' (n_id nd) = "next" -> r_Outputs r !! "next" = Some (port_of inputs "in").
Proof.
  intros Ha. unfold router_execute. rewrite Ha.
  assert (forall choices evs choice source mode,
    routerFinish run st nd choices inputs evs choice source mode = (st', OutOk r) ->
    last_choice st' (n_id nd) = "next" -> r_Outputs r !! "next" = Some (port_of inputs "in")) as Hfin.
  { intros choices evs choice source mode Hf Hl.
    pose proof (routerFinish_counter run nd _ _ _ _ _ _ _ _ _ Hf) as [Hc _].
    assert (choice = "next") as -> by congruence.
    unfold routerFinish in Hf. injection Hf as _ <-. cbn [r_Outputs]. by simplify_map_eq. }
  repeat case_match; intros Hx; first [discriminate|by eauto].
Qed.

(** A declared choice called "next" shares its port with the router's own
    verdict, and the payload written there last replaces it: when the payload is a
    text that is not itself a choice, the edge of the choice that won is dead. *)
Theorem choice_named_next_is_dead unmarshal run ask hits st nd a inputs st' r c s e :
  n_attrs nd = ARouter a -> c ∈ routerChoices a -> rc_id c = "next" -> rc_target c <> "" ->
  inputs !! "in" = Some (VStr s) -> s <> "" -> is_choice (routerChoices a) s = false ->
  router_execute unmarshal run ask hits st nd inputs = (st', OutOk r) ->
  last_choice st' (n_id nd) = "next" ->
  ep_port (e_from e) = "next" -> e_dst e = rc_target c ->
  exists live, router_LiveOutEdges nd (r_Outputs r) = Some live /\ live e = false.
Proof.
  intros Ha Hc Hid Ht Hin Hs Hno Hx Hl Hp Hd.
  unfold router_LiveOutEdges. rewrite Ha, (router_finish_next _ _ _ _ _ _ _ _ _ _ Ha Hx Hl).
  unfold port_of. rewrite Hin. change (as_string _) with s. rewrite (bool_decide_false (s = "")) by done.
  eexists. split; [done|]. cbn beta.
  assert (forall c', c' ∈ routerChoices a -> rc_id c' <> s) as Hne.
  { intros c' Hc' Heq. apply not_true_iff_false in Hno. apply Hno. apply existsb_exists.
    exists c'. split; [by apply list_elem_of_In|by rewrite bool_decide_true]. }
  assert (routerTarget (routerChoices a) s = "") as ->.
  { unfold routerTarget. destruct (List.find _ _) as [c'|] eqn:Hf; [|done].
    apply find_some in Hf as [Hin' Heq]. apply bool_decide_eq_true in Heq.
    by destruct (Hne c'); [apply list_elem_of_In|]. }
  rewrite (bool_decide_true ("" = "")) by done. rewrite andb_false_r. cbn [andb].
  match goal with |- context [existsb ?f ?l] => assert (existsb f l = true) as -> end; [|done].
  apply existsb_exists. exists c. split.
  - apply filter_In. split; [by apply list_elem_of_In|]. rewrite bool_decide_false; [done|]. by apply Hne.
  - rewrite Hd, bool_decide_true, bool_decide_false by done. done.
Qed.

Definition next_choices : gmap string value :=
  <["next" := VMap [("target", VStr "N")]]> {["stay" := VMap [("target", VStr "S")]]}.

Definition next_inputs : PortValues := {["in" := VStr "hello"]}.

Lemma choice_named_next_is_dead_witness :
  exists st' r live,
    router_execute (fun _ => None) "run" (Ok "next") 0 NewRunState (demo_router next_choices 0) next_inputs
      = (st', OutOk r) /\ last_choice st' "r" = "next" /\
    router_LiveOutEdges (demo_router next_choices 0) (r_Outputs r) = Some live /\
    live (demo_edge "r" "next" "N") = false.
Proof.
  eexists _, _.
  match goal with |- exists live, ?x = (?st, OutOk ?r) /\ _ => set (run := x) end.
  destruct (choice_named_next_is_dead (fun _ => None) "run" (Ok "next") 0 NewRunState
              (demo_router next_choices 0)
              {| ra_choices := next_choices; ra_default_choice := "stay"; ra_replan_choice := "";
                 ra_mode := "standalone"; ra_source_node := ""; ra_choice_field := "";
                 ra_fallback_to_standalone := false; ra_max_consecutive_same := 0 |} next_inputs
              (fst run) (match snd run with OutOk r => r | OutErr _ _ => {| r_Outputs := ∅; r_Events := [];
                 r_Pause := false; r_PauseReason := ""; r_Backtrack := None |} end)
              {| rc_id := "next"; rc_target := "N"; rc_description := "" |}
              "hello" (demo_edge "r" "next" "N")) as (live & Hl & He);
    [reflexivity|by vm_compute; left|reflexivity|discriminate|reflexivity|discriminate
    |vm_compute; reflexivity|vm_compute; reflexivity|vm_compute; reflexivity|reflexivity|reflexivity|].
  exists live. split; [|split; [|split; [exact Hl|exact He]]]; vm_compute; reflexivity.
Defined.
