(* ===== verification/Acyclic.v ===== *)
(** The validator's cycle pass (core/agentgraph/validator.go,
    checkAcyclicityOutsideLoops): a three-colour depth-first search over the graph
    with loop, retry and review bodies hidden, started from the nodes in whatever
    order Go's map iteration gives. *)
From S2P Require Import Prelude GoString AgentGraph.
Open Scope string_scope.
Open Scope list_scope.

(** * The pass *)

(** Nodes inside a loop or retry body, or rewound to by a review. *)
Definition addInside (inside : gset string) (n : Node) : gset string :=
  if bool_decide (n_kind n = NodeKindLoop) then
    match n_attrs n with ALoop a => inside ∪ list_to_set (lo_Body a) | _ => inside end
  else if bool_decide (n_kind n = NodeKindRetry) then
    match n_attrs n with ARetry a => inside ∪ list_to_set (re_Body a) | _ => inside end
  else if bool_decide (n_kind n = NodeKindReview) then
    match n_attrs n with
    | AReview up _ => if bool_decide (up = "") then inside else {[up]} ∪ inside
    | _ => inside
    end
  else inside.

Definition insideBodies (g : Graph) : gset string := foldl addInside ∅ (g_nodes g).

Definition outer (g : Graph) (e : Edge) : bool :=
  negb (bool_decide (e_src e ∈ insideBodies g)) && negb (bool_decide (e_dst e ∈ insideBodies g)).

(** [adj[u]], in edge order. *)
Definition adj (g : Graph) (u : string) : list string :=
  map e_dst (List.filter (fun e => outer g e && bool_decide (e_src e = u)) (g_edges g)).

Inductive Colour := White | Gray | Black.

#[export] Instance Colour_eq_dec : EqDecision Colour.
Proof. solve_decision. Defined.

(** A node the map does not hold reads as the zero value, white. *)
Definition colour_of (col : gmap string Colour) (u : string) : Colour := default White (col !! u).

(** The loop over the successors of [u]; [dfs] visits a white one. *)
Fixpoint dfs_edges (dfs : gmap string Colour -> string -> list string ->
                          option (gmap string Colour * option (list string)))
    (path : list string) (ws : list string) (col : gmap string Colour)
  : option (gmap string Colour * option (list string)) :=
  match ws with
  | [] => Some (col, None)
  | w :: ws =>
      match colour_of col w with
      | Gray => Some (col, Some (path ++ [w]))
      | White =>
          match dfs col w path with
          | Some (col, None) => dfs_edges dfs path ws col
          | r => r
          end
      | Black => dfs_edges dfs path ws col
      end
  end.

(** [dfs]: the cycle it reports, if any, and the colours it leaves. *)
Fixpoint dfs (g : Graph) (fuel : nat) (col : gmap string Colour) (u : string) (path : list string)
  : option (gmap string Colour * option (list string)) :=
  if bool_decide (u ∈ insideBodies g) then Some (col, None) else
  match fuel with
  | 0 => None
  | S fuel =>
      match dfs_edges (dfs g fuel) (path ++ [u]) (adj g u) (<[u := Gray]> col) with
      | Some (col, None) => Some (<[u := Black]> col, None)
      | r => r
      end
  end.

(** Every node the search can meet. *)
Definition dfs_universe (g : Graph) : gset string :=
  dom (nodesByID g) ∪ list_to_set (map e_dst (g_edges g)).

Fixpoint dfs_all (g : Graph) (order : list string) (col : gmap string Colour) : option (option (list string)) :=
  match order with
  | [] => Some None
  | id :: order =>
      if bool_decide (colour_of col id = White) then
        match dfs g (S (size (dfs_universe g))) col id [] with
        | None => None
        | Some (_, Some cyc) => Some (Some cyc)
        | Some (col, None) => dfs_all g order col
        end
      else dfs_all g order col
  end.

(** The path of the one cycle the pass reports; [order] is the order in which the
    map of nodes is walked. *)
Definition acyclicity_cycle (g : Graph) (order : list string) : option (option (list string)) :=
  dfs_all g order (gset_to_gmap White (dom (nodesByID g))).

Definition checkAcyclicityOutsideLoops (g : Graph) (order : list string) : option (list string) :=
  match acyclicity_cycle g order with
  | None => None
  | Some None => Some []
  | Some (Some cyc) => Some ["cycle: outside-loop cycle detected: " +:+ Join cyc " → "]
  end.

(** * What it decides *)

Section Cycles.
Context (g : Graph).

Definition step (u w : string) : Prop := w ∈ adj g u.

Lemma step_edge u w :
  step u w <-> exists e, e ∈ g_edges g /\ outer g e = true /\ e_src e = u /\ e_dst e = w.
Proof.
  unfold step, adj. rewrite list_elem_of_In, in_map_iff. split.
  - intros (e & <- & [He Hf]%filter_In). apply andb_true_iff in Hf as [Ho Hs].
    apply bool_decide_eq_true in Hs. exists e. by rewrite list_elem_of_In.
  - intros (e & He & Ho & Hs & Hd). exists e. split; [done|]. apply filter_In.
    rewrite <- list_elem_of_In, Ho, bool_decide_true by done. done.
Qed.

Lemma step_visible u w : step u w -> u ∉ insideBodies g /\ w ∉ insideBodies g /\ w ∈ dfs_universe g.
Proof.
  intros (e & He & Ho & <- & <-)%step_edge. unfold outer in Ho. apply andb_true_iff in Ho as [H1 H2].
  apply negb_true_iff, bool_decide_eq_false in H1, H2. split; [done|]. split; [done|].
  apply elem_of_union. right. apply elem_of_list_to_set, list_elem_of_fmap. by exists e.
Qed.

(** Consecutive nodes are joined by outer edges. *)
Fixpoint chain (p : list string) : Prop :=
  match p with
  | u :: (w :: _) as p => step u w /\ chain p
  | _ => True
  end.

(** A path that returns to one of its nodes. *)
Definition is_cycle (cyc : list string) : Prop :=
  chain cyc /\ exists pre w mid, cyc = pre ++ w :: mid ++ [w].

Lemma chain_snoc p u w : chain (p ++ [u]) -> step u w -> chain ((p ++ [u]) ++ [w]).
Proof.
  induction p as [|a p IH]; cbn; [tauto|]. destruct p as [|b p]; cbn in *; tauto.
Qed.

Lemma chain_suffix p q : chain (p ++ q) -> chain q.
Proof.
  induction p as [|a p IH]; [done|]. cbn. intros Hc. apply IH.
  destruct (p ++ q); [done|]. by destruct Hc.
Qed.

Lemma chain_tc u mid w : chain (u :: mid ++ [w]) -> tc step u w.
Proof.
  revert u. induction mid as [|a mid IH]; intros u [Hs Hc].
  - by apply tc_once.
  - eapply tc_l; [exact Hs|]. by apply IH.
Qed.

(** The reported path is a real cycle of the outer graph. *)
Lemma is_cycle_tc cyc : is_cycle cyc -> exists w, w ∈ cyc /\ tc step w w.
Proof.
  intros (Hc & pre & w & mid & ->). exists w. split; [apply elem_of_app; right; by left|].
  apply (chain_tc w mid w). by apply chain_suffix in Hc.
Qed.

Lemma tc_first u w : tc step u w -> exists x, step u x /\ rtc step x w.
Proof. destruct 1 as [u w Hs|u x w Hs Ht]; [by exists w; split|]. exists x. split; [done|by apply tc_rtc]. Qed.

(** ** The search invariant *)

Record dfs_inv (col : gmap string Colour) (path : list string) : Prop := {
  di_gray : forall x, colour_of col x = Gray <-> x ∈ path;
  di_closed : forall b w, colour_of col b = Black -> step b w -> colour_of col w = Black;
  di_acyclic : forall b, colour_of col b = Black -> ~ tc step b b
}.

Lemma black_rtc col path b w :
  dfs_inv col path -> colour_of col b = Black -> rtc step b w -> colour_of col w = Black.
Proof. intros I Hb. induction 1 as [|b x w Hs _ IH]; [done|]. apply IH. by eapply di_closed. Qed.

Lemma colour_insert col u c x :
  colour_of (<[u := c]> col) x = if decide (u = x) then c else colour_of col x.
Proof. unfold colour_of. rewrite lookup_insert. by case_decide. Qed.

(** Colours only get darker. *)
Definition grows (col col' : gmap string Colour) : Prop :=
  forall x, colour_of col x <> White -> colour_of col' x <> White.

Lemma enter_inv col path u :
  dfs_inv col path -> colour_of col u = White -> dfs_inv (<[u := Gray]> col) (path ++ [u]).
Proof.
  intros [Hg Hc Ha] Hu. constructor.
  - intros x. rewrite colour_insert, elem_of_app, list_elem_of_singleton. case_decide; [naive_solver|].
    rewrite Hg. naive_solver.
  - intros b w. rewrite !colour_insert. case_decide; [done|]. intros Hb Hs.
    specialize (Hc b w Hb Hs). case_decide; [congruence|done].
  - intros b. rewrite colour_insert. case_decide; [done|]. apply Ha.
Qed.

Lemma leave_inv col path u :
  dfs_inv col (path ++ [u]) -> u ∉ path -> (forall w, step u w -> colour_of col w = Black) ->
  dfs_inv (<[u := Black]> col) path.
Proof.
  intros [Hg Hc Ha] Hu Hall.
  assert (colour_of col u = Gray) as Hug by (apply Hg; set_solver).
  assert (forall w x, colour_of col w = Black -> rtc step w x -> colour_of col x = Black) as Hrtc.
  { intros w x Hw. induction 1 as [|w y x Hs _ IH]; [done|]. apply IH. by eapply Hc. }
  constructor.
  - intros x. rewrite colour_insert. case_decide as Hx; [subst; naive_solver|].
    rewrite Hg, elem_of_app, list_elem_of_singleton. naive_solver.
  - intros b w. rewrite !colour_insert. intros Hb Hs. destruct (decide (u = w)); [done|].
    case_decide; [subst b; by apply Hall|by eapply Hc].
  - intros b. rewrite colour_insert. case_decide as Hb; [intros _|apply Ha]. subst b.
    intros (w & Hs & Hr)%tc_first. pose proof (Hrtc w u (Hall w Hs) Hr). congruence.
Qed.

(** ** Fuel: the white nodes that are left *)

Definition whites (col : gmap string Colour) : nat :=
  size (filter (fun x => colour_of col x = White) (dfs_universe g)).

Lemma whites_grows col col' : grows col col' -> whites col' <= whites col.
Proof.
  intros Hg. unfold whites. apply subseteq_size. intros x [Hw Hx]%elem_of_filter. apply elem_of_filter.
  split; [|done]. destruct (decide (colour_of col x = White)); [done|]. by apply Hg in n.
Qed.

Lemma whites_enter col u :
  colour_of col u = White -> u ∈ dfs_universe g -> whites (<[u := Gray]> col) < whites col.
Proof.
  intros Hu Hin. unfold whites. apply subset_size. split.
  - intros x. rewrite !elem_of_filter, colour_insert. case_decide; naive_solver.
  - intros Hsub. specialize (Hsub u). rewrite !elem_of_filter, colour_insert, decide_True in Hsub by done.
    naive_solver.
Qed.

Lemma grows_enter col u : colour_of col u = White -> grows col (<[u := Gray]> col).
Proof. intros Hu x. rewrite colour_insert. case_decide; naive_solver. Qed.

Lemma grows_leave col u : grows col (<[u := Black]> col).
Proof. intros x. rewrite colour_insert. case_decide; naive_solver. Qed.

Lemma black_stays col col' path x :
  dfs_inv col path -> dfs_inv col' path -> grows col col' -> colour_of col x = Black ->
  colour_of col' x = Black.
Proof.
  intros I I' Hg Hb. destruct (colour_of col' x) eqn:Hc; [|exfalso|done].
  - exfalso. apply (Hg x); [congruence|done].
  - apply (di_gray _ _ I'), (di_gray _ _ I) in Hc. congruence.
Qed.

(** ** The search *)

(** What a search reports: a cycle, or that everything it reached is settled. *)
Definition searched (col : gmap string Colour) (path : list string) (us : list string)
    (r : option (gmap string Colour * option (list string))) : Prop :=
  match r with
  | None => False
  | Some (_, Some cyc) => is_cycle cyc /\ head cyc = head (path ++ us)
  | Some (col', None) =>
      dfs_inv col' path /\ grows col col' /\ forall u, u ∈ us -> colour_of col' u = Black
  end.

Lemma gray_cycle path u w : chain (path ++ [u]) -> step u w -> w ∈ path ++ [u] ->
  is_cycle ((path ++ [u]) ++ [w]).
Proof.
  intros Hch Hs (pre & mid & Hp)%list_elem_of_split. split; [by apply chain_snoc|].
  exists pre, w, mid. rewrite Hp. by rewrite <- app_assoc.
Qed.

Lemma head_snoc_app (p : list string) u l l' : head ((p ++ [u]) ++ l) = head ((p ++ [u]) ++ l').
Proof. by destruct p. Qed.

Lemma dfs_edges_spec fuel path u ws col :
  (forall col u path, dfs_inv col path -> colour_of col u = White -> u ∉ insideBodies g ->
     u ∈ dfs_universe g -> chain (path ++ [u]) -> whites col <= fuel ->
     searched col path [u] (dfs g fuel col u path)) ->
  dfs_inv col (path ++ [u]) -> chain (path ++ [u]) -> (forall w, w ∈ ws -> step u w) ->
  whites col <= fuel ->
  searched col (path ++ [u]) ws (dfs_edges (dfs g fuel) (path ++ [u]) ws col).
Proof.
  intros IH. revert col. induction ws as [|w ws IHws]; intros col I Hch Hws Hf.
  { cbn. split; [done|]. split; [by intros x|]. by intros x Hx%elem_of_nil. }
  assert (step u w) as Hs by (apply Hws; by left).
  assert (forall w, w ∈ ws -> step u w) as Hws' by (intros; apply Hws; by right).
  cbn [dfs_edges]. destruct (colour_of col w) eqn:Hw.
  - destruct (step_visible _ _ Hs) as (_ & Hout & Hun).
    pose proof (IH col w (path ++ [u]) I Hw Hout Hun (chain_snoc _ _ _ Hch Hs) Hf) as Hd.
    destruct (dfs g fuel col w (path ++ [u])) as [[col1 [cyc|]]|]; [| |done].
    { destruct Hd as [Hc Hh]. split; [done|]. rewrite Hh. by apply head_snoc_app. }
    destruct Hd as (I1 & Hg1 & Hb1).
    assert (whites col1 <= fuel) as Hf1 by (etrans; [by apply whites_grows|done]).
    specialize (IHws col1 I1 Hch Hws' Hf1).
    destruct (dfs_edges _ _ ws col1) as [[col2 [cyc|]]|]; [| |done].
    { destruct IHws as [Hc Hh]. split; [done|]. rewrite Hh. by apply head_snoc_app. }
    destruct IHws as (I2 & Hg2 & Hb2). split; [done|]. split; [intros x Hx; by apply Hg2, Hg1|].
    intros x [->|Hx]%elem_of_cons; [|by apply Hb2].
    eapply black_stays; [exact I1|exact I2|exact Hg2|]. apply Hb1. by left.
  - split; [|by apply head_snoc_app]. apply gray_cycle; [done|done|]. by apply (di_gray _ _ I).
  - specialize (IHws col I Hch Hws' Hf).
    destruct (dfs_edges _ _ ws col) as [[col2 [cyc|]]|]; [| |done].
    { destruct IHws as [Hc Hh]. split; [done|]. rewrite Hh. by apply head_snoc_app. }
    destruct IHws as (I2 & Hg2 & Hb2). split; [done|]. split; [done|].
    intros x [->|Hx]%elem_of_cons; [|by apply Hb2]. eapply black_stays; [exact I|exact I2|exact Hg2|done].
Qed.

Lemma dfs_spec fuel : forall col u path,
  dfs_inv col path -> colour_of col u = White -> u ∉ insideBodies g -> u ∈ dfs_universe g ->
  chain (path ++ [u]) -> whites col <= fuel -> searched col path [u] (dfs g fuel col u path).
Proof.
  induction fuel as [|fuel IH]; intros col u path I Hu Hout Hun Hch Hf.
  { pose proof (whites_enter col u Hu Hun). lia. }
  cbn [dfs]. rewrite bool_decide_false by done.
  pose proof (whites_enter col u Hu Hun) as Hlt.
  pose proof (dfs_edges_spec fuel path u (adj g u) (<[u := Gray]> col) IH (enter_inv _ _ _ I Hu) Hch
                (fun w Hw => Hw) ltac:(lia)) as Hs.
  destruct (dfs_edges _ _ _ _) as [[col1 [cyc|]]|]; [| |done].
  { destruct Hs as [Hc Hh]. split; [done|]. rewrite Hh. rewrite <- (app_nil_r (path ++ [u])) at 2.
    by apply head_snoc_app. }
  destruct Hs as (I1 & Hg1 & Hb1). cbn. split; [|split].
  - apply leave_inv; [done| |exact Hb1]. intros Hp%(di_gray _ _ I). congruence.
  - intros x Hx. apply grows_leave, Hg1, (grows_enter col u Hu), Hx.
  - intros x ->%list_elem_of_singleton. rewrite colour_insert. by rewrite decide_True.
Qed.

Lemma dfs_all_spec order : forall col,
  dfs_inv col [] -> (forall id, id ∈ order -> id ∈ dfs_universe g) ->
  exists r, dfs_all g order col = Some r /\
    match r with
    | Some cyc => is_cycle cyc /\ exists id, head cyc = Some id /\ id ∈ order
    | None => exists col', dfs_inv col' [] /\ grows col col' /\
                forall id, id ∈ order -> id ∉ insideBodies g -> colour_of col' id = Black
    end.
Proof.
  induction order as [|id order IH]; intros col I Hord; cbn [dfs_all].
  { exists None. split; [done|]. exists col. split_and!; [done|by intros x|by intros x Hx%elem_of_nil]. }
  assert (forall id, id ∈ order -> id ∈ dfs_universe g) as Hord' by (intros; apply Hord; by right).
  assert (forall col1, dfs_inv col1 [] -> grows col col1 ->
    (id ∉ insideBodies g -> colour_of col1 id = Black) ->
    exists r, dfs_all g order col1 = Some r /\
      match r with
      | Some cyc => is_cycle cyc /\ exists x, head cyc = Some x /\ x ∈ id :: order
      | None => exists col', dfs_inv col' [] /\ grows col col' /\
                  forall x, x ∈ id :: order -> x ∉ insideBodies g -> colour_of col' x = Black
      end) as Hrest.
  { intros col1 I1 Hg1 Hb1. destruct (IH col1 I1 Hord') as (r & Hr & Hspec). exists r. split; [done|].
    destruct r as [cyc|]; [destruct Hspec as [Hc (x & Hh & Hx)]; split; [done|]; exists x; split; [done|by right]|].
    destruct Hspec as (col2 & I2 & Hg2 & Hb2). exists col2.
    split; [done|]. split; [intros x Hx; by apply Hg2, Hg1|].
    intros x [->|Hx]%elem_of_cons Hout; [|by apply Hb2].
    eapply black_stays; [exact I1|exact I2|exact Hg2|by apply Hb1]. }
  case_bool_decide as Hw.
  2: { apply Hrest; [done|by intros x|]. intros _. destruct (colour_of col id) eqn:Hc; [done| |done].
       apply (di_gray _ _ I), elem_of_nil in Hc as []. }
  destruct (decide (id ∈ insideBodies g)) as [Hin|Hout].
  { cbn [dfs]. rewrite bool_decide_true by done. by apply Hrest; [|intros x|]. }
  pose proof (dfs_spec (S (size (dfs_universe g))) col id [] I Hw Hout (Hord id ltac:(by left)) Logic.I) as Hs.
  assert (whites col <= S (size (dfs_universe g))) as Hf.
  { unfold whites. transitivity (size (dfs_universe g)); [|lia]. apply subseteq_size. by intros x [_ Hx]%elem_of_filter. }
  specialize (Hs Hf). destruct (dfs _ _ _ _ _) as [[col1 [cyc|]]|]; [| |done].
  { destruct Hs as [Hc Hh]. exists (Some cyc). split; [done|]. split; [done|]. exists id. split; [done|by left]. }
  destruct Hs as (I1 & Hg1 & Hb1). apply Hrest; [done|done|]. intros _. apply Hb1. by left.
Qed.

Lemma init_inv : dfs_inv (gset_to_gmap White (dom (nodesByID g))) [].
Proof.
  assert (forall x, colour_of (gset_to_gmap White (dom (nodesByID g))) x = White) as Hw.
  { intros x. unfold colour_of. rewrite lookup_gset_to_gmap. by destruct (guard _). }
  constructor; intros x.
  - rewrite Hw. split; [done|by intros Hx%elem_of_nil].
  - intros w. by rewrite Hw.
  - by rewrite Hw.
Qed.

Lemma chain_rtc u p w : chain (u :: p ++ [w]) -> rtc step u w.
Proof. intros Hc. by apply tc_rtc, (chain_tc u p w). Qed.

Lemma cycle_from_head cyc u : is_cycle cyc -> head cyc = Some u -> exists w, rtc step u w /\ tc step w w.
Proof.
  intros (Hc & pre & w & mid & ->) Hh. exists w. split.
  - destruct pre as [|x pre]; simplify_eq/=; [apply rtc_refl|].
    apply (chain_rtc u (pre ++ w :: mid) w). by rewrite <- app_assoc.
  - apply (chain_tc w mid w). by apply chain_suffix in Hc.
Qed.

(** No node of [ids] reaches a cycle. *)
Definition acyclic_from (ids : list string) : Prop :=
  forall u w, u ∈ ids -> rtc step u w -> ~ tc step w w.

(** The pass ends for every order of the nodes, and it reports a cycle exactly
    when one of them reaches one. *)
Lemma acyclicity_cycle_spec order :
  (forall id, id ∈ order -> id ∈ dom (nodesByID g)) ->
  exists r, acyclicity_cycle g order = Some r /\ (r = None <-> acyclic_from order).
Proof.
  intros Hord. destruct (dfs_all_spec order _ init_inv) as (r & Hr & Hspec).
  { intros id Hid%Hord. by apply elem_of_union_l. }
  exists r. split; [done|]. destruct r as [cyc|].
  - split; [done|]. intros Hac. destruct Hspec as (Hc & u & Hh & Hu).
    destruct (cycle_from_head cyc u Hc Hh) as (w & Hrt & Htc). exfalso. by apply (Hac u w).
  - split; [|done]. intros _. destruct Hspec as (col & I & _ & Hb). intros u w Hu Hrt Htc.
    assert (u ∉ insideBodies g) as Hout.
    { destruct Hrt as [u|u x w Hs _]; [|by apply step_visible in Hs as (? & _)].
      apply tc_first in Htc as (x & Hs & _). by apply step_visible in Hs as (? & _). }
    pose proof (black_rtc col [] u w I (Hb u Hu Hout) Hrt).
    by apply (di_acyclic _ _ I w).
Qed.

Lemma check_spec order :
  (forall id, id ∈ order -> id ∈ dom (nodesByID g)) ->
  exists issues, checkAcyclicityOutsideLoops g order = Some issues /\
    (issues = [] <-> acyclic_from order).
Proof.
  intros Hord. destruct (acyclicity_cycle_spec order Hord) as (r & Hr & Hspec).
  unfold checkAcyclicityOutsideLoops. rewrite Hr.
  destruct r as [cyc|]; eexists; (split; [done|]); naive_solver.
Qed.
End Cycles.
