(* ===== verification/Validator.v ===== *)
(** The graph validator (core/agentgraph/validator.go) and the drag-time edge
    check (edgecheck.go).  Every check returns the issues it adds, in order; the
    node catalog, the activity registry and the generated port table are
    interfaces. *)
From S2P Require Import Prelude GoString AgentGraph EventLog RunState Kernel Branch Routing Acyclic.
Open Scope string_scope.
Open Scope list_scope.

Definition SpecVersion : string := "1".
Definition NodeKindActivity : string := "activity".

(** * Ports *)

(** [PortType.Compatible]: src flows into dst. *)
Definition Compatible (src dst : string) : bool :=
  if bool_decide (src = "" \/ dst = "") then false
  else if bool_decide (src = "any" \/ dst = "any") then true
  else bool_decide (src = dst).

Fixpoint checkPortNames_from (seen : gset string) (ports : list Port) : option string :=
  match ports with
  | [] => None
  | p :: ports =>
      if bool_decide (pt_Name p = "") then Some "empty port name"
      else if bool_decide (pt_Type p = "") then Some ("port " +:+ fmt_q (pt_Name p) +:+ " has empty type")
      else if bool_decide (pt_Name p ∈ seen) then Some ("duplicate port name " +:+ fmt_q (pt_Name p))
      else checkPortNames_from ({[pt_Name p]} ∪ seen) ports
  end.

Definition checkPortNames (ports : list Port) : option string := checkPortNames_from ∅ ports.

Definition lookupPort (ports : list Port) (name : string) : option Port :=
  List.find (fun p => bool_decide (pt_Name p = name)) ports.

(** * Dials *)

Inductive dialSpec := DInt | DFloat | DBool | DString (enum : list string).

Definition KnownDials : list (string * dialSpec) :=
  [("max_tokens_per_run", DInt); ("max_wallclock_per_run_seconds", DInt); ("max_llm_calls_per_run", DInt);
   ("max_tool_calls_per_run", DInt); ("max_cost_usd_per_run", DFloat);
   ("plan_verbosity", DString ["terse"; "standard"; "verbose"]);
   ("plan_threshold", DFloat); ("ask_threshold", DFloat);
   ("reflect_frequency", DString ["never"; "on_demand"; "every_n_turns"]);
   ("review_iterations_cap", DInt);
   ("compaction_aggressiveness", DString ["gentle"; "default"; "aggressive"]);
   ("escalation_enabled", DBool);
   ("pre_call_threshold", DFloat); ("tool_result_max_bytes", DInt); ("compaction_recursion_max", DInt);
   ("memory_hooks_enabled", DBool); ("max_in_flight_nodes", DInt)].

Definition dial_lookup (k : string) (l : list (string * dialSpec)) : option dialSpec :=
  match List.find (fun kv => bool_decide (kv.1 = k)) l with Some kv => Some kv.2 | None => None end.

(** A whole decimal that an int64 holds: the conversion to int64 and back is the
    identity. *)
Definition dec_whole (d : dec) : bool :=
  if (0 <=? d_exp d)%Z then let z := (d_man d * 10 ^ d_exp d)%Z in (- 2 ^ 63 <=? z)%Z && (z <? 2 ^ 63)%Z
  else (d_man d mod 10 ^ (- d_exp d) =? 0)%Z.

(** The rejected number itself ([%.3f]) is left out of the message. *)
Definition dialValueOK (spec : dialSpec) (raw : value) : option string :=
  match spec with
  | DInt =>
      match raw with
      | VInt _ => None
      | VFloat d => if dec_whole d then None else Some "expected int, got fractional"
      | _ => Some ("expected int, got " +:+ type_name raw)
      end
  | DFloat =>
      match raw with VInt _ | VFloat _ => None | _ => Some ("expected number, got " +:+ type_name raw) end
  | DBool => match raw with VBool _ => None | _ => Some ("expected bool, got " +:+ type_name raw) end
  | DString enum =>
      match raw with
      | VStr s =>
          if bool_decide (enum = []) then None
          else if bool_decide (s ∈ enum) then None
          else Some ("value " +:+ fmt_q s +:+ " not in {" +:+ Join enum "|" +:+ "}")
      | _ => Some ("expected string, got " +:+ type_name raw)
      end
  end.

Definition validateDialMap (extraDials : list (string * dialSpec)) (scope : string)
    (dials : list (string * value)) : list string :=
  concat (map (fun '(k, raw) =>
    match match dial_lookup k KnownDials with Some s => Some s | None => dial_lookup k extraDials end with
    | None => ["dial: " +:+ scope +:+ ": unknown dial " +:+ fmt_q k]
    | Some spec =>
        match dialValueOK spec raw with
        | Some err => ["dial: " +:+ scope +:+ ": dial " +:+ fmt_q k +:+ ": " +:+ err]
        | None => []
        end
    end) dials).

Definition checkDialOverrides (extraDials : list (string * dialSpec)) (g : Graph) : list string :=
  validateDialMap extraDials "graph" (g_dials g) ++
  concat (map (fun n => if bool_decide (n_dials n = []) then []
                        else validateDialMap extraDials ("node " +:+ n_id n) (n_dials n)) (g_nodes g)).

(** * Interfaces *)

(** [CatalogProvider] as the validator uses it: what a kind resolves to. *)
Inductive CatalogAnswer :=
| CatFound (callable : bool) (manifest_id : string) (alternatives : list string)
| CatUnknown
| CatError (err : string).

(** What is looked up outside the validator: the node catalog, the registered
    kinds and aliases, the port table generated from the manifests, and the
    activity registry. *)
Class ValidateConfig := {
  resolveCatalogManifest : string -> CatalogAnswer;
  IsKnown : string -> bool;
  defaultPortsFor : string -> list Port * list Port;
  HasActivity : string -> bool;
  extraDials : list (string * dialSpec)
}.

Section Checks.
Context `{cfg : ValidateConfig}.

Definition portSurface (n : Node) : list Port * list Port :=
  let '(defIns, defOuts) := defaultPortsFor (n_kind n) in
  (if bool_decide (length (n_inputs n) = 0) then defIns else n_inputs n,
   if bool_decide (length (n_outputs n) = 0) then defOuts else n_outputs n).

Definition checkSpecVersion (g : Graph) : list string :=
  if bool_decide (g_spec_version g = "") then
    ["schema: spec_version is required (current = " +:+ fmt_q SpecVersion +:+ ")"]
  else if bool_decide (g_spec_version g = SpecVersion) then []
  else ["schema: unsupported spec_version " +:+ fmt_q (g_spec_version g) +:+ " (want " +:+ fmt_q SpecVersion +:+ ")"].

Definition checkBasics (g : Graph) : list string :=
  (if bool_decide (g_id g = "") then ["schema: graph id is required"] else []) ++
  (if bool_decide (length (g_nodes g) = 0) then ["schema: graph must declare at least one node"] else []).

Definition archetypeNotCallableMsg (nodeID manifest_id : string) (alternatives : list string) : string :=
  let suffix := if bool_decide (length alternatives = 0) then ""
                else "; use a concrete kind: " +:+ Join alternatives " | " in
  "schema: node " +:+ fmt_q nodeID +:+ ": archetype " +:+ fmt_q manifest_id +:+
  " is not directly callable in v1" +:+ suffix.

Definition kindIssues (n : Node) : list string :=
  match resolveCatalogManifest (n_kind n) with
  | CatError err => ["schema: node " +:+ fmt_q (n_id n) +:+ ": catalog lookup failed: " +:+ err]
  | CatFound false mid alts => [archetypeNotCallableMsg (n_id n) mid alts]
  | CatFound true _ _ => []
  | CatUnknown =>
      if IsKnown (n_kind n) then []
      else ["schema: node " +:+ fmt_q (n_id n) +:+ " has unknown kind " +:+ fmt_q (n_kind n)]
  end.

(** [indexNodes]: the index keeps the first node of an id; [i] numbers the
    nodes. *)
Fixpoint indexNodes_from (i : nat) (ns : list Node) (idx : gmap string Node) : gmap string Node * list string :=
  match ns with
  | [] => (idx, [])
  | n :: ns =>
      if bool_decide (n_id n = "") then
        let '(idx, issues) := indexNodes_from (S i) ns idx in
        (idx, ("schema: node #" +:+ fmt_d (Z.of_nat i) +:+ " has empty id") :: issues)
      else if bool_decide (is_Some (idx !! n_id n)) then
        let '(idx, issues) := indexNodes_from (S i) ns idx in
        (idx, kindIssues n ++ ("schema: duplicate node id " +:+ fmt_q (n_id n)) :: issues)
      else
        let '(idx, issues) := indexNodes_from (S i) ns (<[n_id n := n]> idx) in
        (idx, kindIssues n ++ issues)
  end.

Definition indexNodes (g : Graph) : gmap string Node * list string := indexNodes_from 0 (g_nodes g) ∅.

Definition checkApprovalPolicyLabel (g : Graph) : list string :=
  concat (map (fun n =>
    if bool_decide (n_kind n = NodeKindApproval) then
      match n_attrs n with
      | AApproval a =>
          if bool_decide (ap_PolicyLabel a = "") then []
          else ["schema: node " +:+ fmt_q (n_id n) +:+ " (approval): policy_label is not evaluated yet — per-call Cedar evaluation is trust-surfaces-that-fire-01PMZ202 E-005's territory (approval-node-01PMZC12 E-004); remove policy_label until that lands"]
      | _ => []
      end
    else []) (g_nodes g)).

Definition checkPorts (g : Graph) : list string :=
  concat (map (fun n =>
    let '(ins, outs) := portSurface n in
    (match checkPortNames ins with
     | Some err => ["port: node " +:+ fmt_q (n_id n) +:+ " inputs: " +:+ err] | None => [] end) ++
    (match checkPortNames outs with
     | Some err => ["port: node " +:+ fmt_q (n_id n) +:+ " outputs: " +:+ err] | None => [] end)) (g_nodes g)).

(** The issues, and whether both endpoints and both ports were found. *)
Definition edgePortIssues (idx : gmap string Node) (ref : string) (e : Edge) : list string * bool :=
  match idx !! e_src e with
  | None => (["port: " +:+ ref +:+ ": from-node " +:+ fmt_q (e_src e) +:+ " does not exist"], false)
  | Some fromNode =>
  match idx !! e_dst e with
  | None => (["port: " +:+ ref +:+ ": to-node " +:+ fmt_q (e_dst e) +:+ " does not exist"], false)
  | Some toNode =>
  match lookupPort (portSurface fromNode).2 (ep_port (e_from e)) with
  | None => (["port: " +:+ ref +:+ ": node " +:+ fmt_q (e_src e) +:+ " has no output port " +:+
              fmt_q (ep_port (e_from e))], false)
  | Some fromPort =>
  match lookupPort (portSurface toNode).1 (ep_port (e_to e)) with
  | None => (["port: " +:+ ref +:+ ": node " +:+ fmt_q (e_dst e) +:+ " has no input port " +:+
              fmt_q (ep_port (e_to e))], false)
  | Some toPort =>
      if Compatible (pt_Type fromPort) (pt_Type toPort) then ([], true)
      else (["port: " +:+ ref +:+ ": type mismatch " +:+ e_src e +:+ "." +:+ ep_port (e_from e) +:+ "(" +:+
             pt_Type fromPort +:+ ") → " +:+ e_dst e +:+ "." +:+ ep_port (e_to e) +:+ "(" +:+
             pt_Type toPort +:+ ")"], true)
  end end end end.

Fixpoint edge_issues_from (i : nat) (idx : gmap string Node) (es : list Edge) : list string * list (string * string) :=
  match es with
  | [] => ([], [])
  | e :: es =>
      let '(issues, resolved) := edgePortIssues idx ("edge #" +:+ fmt_d (Z.of_nat i)) e in
      let '(rest, covered) := edge_issues_from (S i) idx es in
      (issues ++ rest, if resolved then (e_dst e, ep_port (e_to e)) :: covered else covered)
  end.

(** Required inputs of the nodes that are not entrypoints, not reached by a
    resolved edge. *)
Definition uncovered_inputs (g : Graph) (covered : list (string * string)) : list string :=
  concat (map (fun n =>
    if bool_decide (n_id n ∈ g_entrypoints g) then [] else
    concat (map (fun p =>
      if negb (pt_Required p) then []
      else if bool_decide ((n_id n, pt_Name p) ∈ covered) then []
      else ["port: required input " +:+ n_id n +:+ "." +:+ pt_Name p +:+ " is not connected"])
      (portSurface n).1)) (g_nodes g)).

Definition checkEdges (g : Graph) (idx : gmap string Node) : list string :=
  let '(issues, inputsCovered) := edge_issues_from 0 idx (g_edges g) in
  issues ++ uncovered_inputs g inputsCovered.

Fixpoint checkEntrypoints_from (idx : gmap string Node) (seen : gset string) (eps : list string) : list string :=
  match eps with
  | [] => []
  | ep :: eps =>
      if bool_decide (ep = "") then "schema: empty entrypoint id" :: checkEntrypoints_from idx seen eps
      else if bool_decide (ep ∈ seen) then
        ("schema: duplicate entrypoint " +:+ fmt_q ep) :: checkEntrypoints_from idx seen eps
      else
        (match idx !! ep with
         | Some _ => []
         | None => ["schema: entrypoint " +:+ fmt_q ep +:+ " does not match any node"]
         end) ++ checkEntrypoints_from idx ({[ep]} ∪ seen) eps
  end.

Definition checkEntrypoints (g : Graph) (idx : gmap string Node) : list string :=
  if bool_decide (length (g_entrypoints g) = 0) then ["schema: graph must declare at least one entrypoint"]
  else checkEntrypoints_from idx ∅ (g_entrypoints g).

Definition checkActivityRefs (g : Graph) : list string :=
  concat (map (fun n =>
    if bool_decide (n_kind n = NodeKindActivity) then
      match n_attrs n with
      | AActivity id =>
          if bool_decide (id = "") then []
          else if HasActivity id then []
          else ["activity: node " +:+ fmt_q (n_id n) +:+ " references unknown activity " +:+ fmt_q id]
      | _ => []
      end
    else []) (g_nodes g)).

(** ** Attributes that name nodes *)

Definition bodyRefIssues (idx : gmap string Node) (id kind : string) (body : list string) : list string :=
  concat (map (fun b => match idx !! b with
                        | Some _ => []
                        | None => ["schema: node " +:+ fmt_q id +:+ " (" +:+ kind +:+
                                   "): body references unknown node " +:+ fmt_q b]
                        end) body).

Definition decisionTargetIssues (idx : gmap string Node) (id attr target : string) : list string :=
  if bool_decide (target = "") then
    ["schema: node " +:+ fmt_q id +:+ " (decision): " +:+ attr +:+
     " is required — it selects which successor the kernel promotes"]
  else match idx !! target with
       | Some _ => []
       | None => ["schema: node " +:+ fmt_q id +:+ " (decision): " +:+ attr +:+ " references unknown node " +:+
                  fmt_q target]
       end.

Definition decisionRoutingIssues (idx : gmap string Node) (es : list Edge) (id : string) (a : DecisionAttrs)
  : list string :=
  decisionTargetIssues idx id "next_true" (da_next_true a) ++
  decisionTargetIssues idx id "next_false" (da_next_false a) ++
  (if bool_decide (da_next_true a <> "" /\ da_next_true a = da_next_false a) then
     ["schema: node " +:+ fmt_q id +:+ " (decision): next_true and next_false both name " +:+
      fmt_q (da_next_true a) +:+ " — a decision that routes both verdicts to the same node is not a decision"]
   else []) ++
  concat (map (decisionEdgeIssues id a) es).

Definition checkDecisionRouting (g : Graph) (idx : gmap string Node) : list string :=
  concat (map (fun n =>
    if bool_decide (n_kind n = NodeKindDecision) then
      match n_attrs n with
      | ADecision a => decisionRoutingIssues idx (g_edges g) (n_id n) a
      | _ => []
      end
    else []) (g_nodes g)).

Definition choiceIssues (idx : gmap string Node) (id : string) (c : RouterChoice) : list string :=
  if bool_decide (rc_target c = "") then
    ["schema: node " +:+ fmt_q id +:+ " (router): choice " +:+ fmt_q (rc_id c) +:+
     " has no target — the target names the node the kernel promotes when this choice wins"]
  else match idx !! rc_target c with
       | Some _ => []
       | None => ["schema: node " +:+ fmt_q id +:+ " (router): choice " +:+ fmt_q (rc_id c) +:+
                  " targets unknown node " +:+ fmt_q (rc_target c)]
       end.

Definition routerRoutingIssues (idx : gmap string Node) (es : list Edge) (id : string) (a : RouterAttrs)
  : list string :=
  let choices := routerChoices a in
  let valid := is_choice choices in
  let issue msg := ["schema: node " +:+ fmt_q id +:+ " (router): " +:+ msg] in
  if bool_decide (choices = []) then
    issue "choices is required and must be a non-empty map of {id: {target, description}} — a router with no menu cannot route"
  else
    concat (map (choiceIssues idx id) choices) ++
    (if bool_decide (ra_default_choice a = "") then
       issue "default_choice is required — it is what an unparseable or unknown model answer resolves to"
     else if valid (ra_default_choice a) then []
     else issue ("default_choice " +:+ fmt_q (ra_default_choice a) +:+ " is not one of the declared choices")) ++
    (if negb (bool_decide (ra_replan_choice a = "")) && negb (valid (ra_replan_choice a)) then
       issue ("replan_choice " +:+ fmt_q (ra_replan_choice a) +:+ " is not one of the declared choices")
     else []) ++
    (if bool_decide (ra_mode a = "" \/ ra_mode a = "fused") then
       if bool_decide (ra_source_node a = "") then
         issue ("mode " +:+ fmt_q "fused" +:+ " requires source_node — fused routing reads the choice off that node's output")
       else match idx !! ra_source_node a with
            | Some _ => []
            | None => issue ("source_node references unknown node " +:+ fmt_q (ra_source_node a))
            end
     else []) ++
    concat (map (routerEdgeIssues id a) es).

Definition checkRouterRouting (g : Graph) (idx : gmap string Node) : list string :=
  concat (map (fun n =>
    if bool_decide (n_kind n = NodeKindRouter) then
      match n_attrs n with
      | ARouter a => routerRoutingIssues idx (g_edges g) (n_id n) a
      | _ => []
      end
    else []) (g_nodes g)).

Definition capIssue (id kind what nfr : string) (cap : Z) : list string :=
  if (cap <=? 0)%Z then
    ["schema: node " +:+ fmt_q id +:+ " (" +:+ kind +:+ "): " +:+ what +:+ " must be > 0 (" +:+ nfr +:+ ")"]
  else [].

Definition checkLoopBodies (g : Graph) (idx : gmap string Node) : list string :=
  concat (map (fun n =>
    if bool_decide (n_kind n = NodeKindLoop) then
      match n_attrs n with
      | ALoop a => capIssue (n_id n) "loop" "max_iterations" "NFR-004" (lo_MaxIterations a) ++
          bodyRefIssues idx (n_id n) "loop" (lo_Body a)
      | _ => []
      end
    else if bool_decide (n_kind n = NodeKindRetry) then
      match n_attrs n with
      | ARetry a => capIssue (n_id n) "retry" "max_attempts" "NFR-004" (re_MaxAttempts a) ++
          bodyRefIssues idx (n_id n) "retry" (re_Body a)
      | _ => []
      end
    else []) (g_nodes g)).

Definition checkReviewBodies (g : Graph) (idx : gmap string Node) : list string :=
  concat (map (fun n =>
    if bool_decide (n_kind n = NodeKindReview) then
      match n_attrs n with
      | AReview up m =>
          capIssue (n_id n) "review" "max_iterations" "FR-009" m ++
          (if bool_decide (up = "") then []
           else match idx !! up with
                | Some _ => []
                | None => ["schema: node " +:+ fmt_q (n_id n) +:+ " (review): upstream_node " +:+ fmt_q up +:+
                           " does not exist"]
                end)
      | _ => []
      end
    else []) (g_nodes g)).

(** ** Validate *)

(** [attrIssues] stands for [checkAttrs], the per-kind attribute rules;
    [order] is the order in which the cycle pass walks the node index. *)
Definition Validate (attrIssues : Graph -> list string) (order : list string) (g : Graph) : option (list string) :=
  let '(idx, indexIssues) := indexNodes g in
  match checkAcyclicityOutsideLoops g order with
  | None => None
  | Some cycleIssues => Some (
      checkSpecVersion g ++ checkBasics g ++ indexIssues ++ attrIssues g ++ checkPorts g ++
      checkEdges g idx ++ checkEntrypoints g idx ++ checkDialOverrides extraDials g ++
      checkActivityRefs g ++ checkDecisionRouting g idx ++ checkRouterRouting g idx ++
      checkLoopBodies g idx ++ checkReviewBodies g idx ++ cycleIssues ++ checkApprovalPolicyLabel g)
  end.

(** ** CheckEdge *)

Definition findNode (g : Graph) (id : string) : option Node :=
  List.find (fun n => bool_decide (n_id n = id)) (g_nodes g).

Definition with_edge (g : Graph) (e : Edge) : Graph :=
  {| g_spec_version := g_spec_version g; g_id := g_id g; g_nodes := g_nodes g;
     g_edges := g_edges g ++ [e]; g_entrypoints := g_entrypoints g; g_dials := g_dials g |}.

(** [runAcyclicity] walks a fresh index each time; the two orders may differ. *)
Definition edgeCycleIssues (order1 order2 : list string) (g : Graph) (e : Edge) : option (list string) :=
  match findNode g (e_src e), findNode g (e_dst e) with
  | Some _, Some _ =>
      match checkAcyclicityOutsideLoops g order1 with
      | None => None
      | Some (_ :: _) => Some []
      | Some [] => checkAcyclicityOutsideLoops (with_edge g e) order2
      end
  | _, _ => Some []
  end.

(** The reasons; an empty list is [OK]. *)
Definition CheckEdge (order1 order2 : list string) (g : Graph) (e : Edge) : option (list string) :=
  let idx := nodesByID g in
  match edgeCycleIssues order1 order2 g e with
  | None => None
  | Some cyc => Some ((edgePortIssues idx "edge" e).1 ++ edgeRoutingIssues idx e ++ cyc)
  end.
End Checks.
