(* ===== verification/ValidatorProps.v ===== *)
(** What a graph without issues guarantees: the checks decide the declarative
    conditions they stand for, the drag-time edge check keeps a graph acyclic,
    and a validated graph is one whose runs complete. *)
From S2P Require Import Prelude GoString AgentGraph EventLog RunState Kernel KernelSafety KernelForward KernelDemo KernelProps Branch Routing Acyclic Validator.
Open Scope string_scope.
Open Scope list_scope.

(** * Lists of issues *)

Lemma concat_nil {A B} (f : A -> list B) l : concat (map f l) = [] <-> forall x, x ∈ l -> f x = [].
Proof.
  induction l as [|x l IH]; cbn.
  { split; [by intros _ y Hy%elem_of_nil|done]. }
  split.
  - intros [Hx Hl]%app_eq_nil y [->|Hy]%elem_of_cons; [done|]. by apply IH.
  - intros Hf. rewrite (Hf x) by (by left). apply IH. intros y Hy. apply Hf. by right.
Qed.

Section Props.
Context `{cfg : ValidateConfig}.

(** * The node index *)




(** * Edges *)

(** Both endpoints and both ports exist and the port types fit. *)
Definition edge_resolves (idx : gmap string Node) (e : Edge) : Prop :=
  exists from to fp tp, idx !! e_src e = Some from /\ idx !! e_dst e = Some to /\
    lookupPort (portSurface from).2 (ep_port (e_from e)) = Some fp /\
    lookupPort (portSurface to).1 (ep_port (e_to e)) = Some tp /\
    Compatible (pt_Type fp) (pt_Type tp) = true.

Lemma edgePortIssues_ok idx ref e : (edgePortIssues idx ref e).1 = [] <-> edge_resolves idx e.
Proof.
  unfold edgePortIssues, edge_resolves. split.
  - repeat case_match; intros; try done. by do 4 eexists.
  - intros (from & to & fp & tp & -> & -> & -> & -> & ->). done.
Qed.



(** * Entrypoints *)


End Props.

(** * The edge check *)

(** No declared node reaches a cycle outside the hidden bodies. *)
Definition acyclic (g : Graph) : Prop := forall u w, u ∈ dom (nodesByID g) -> rtc (step g) u w -> ~ tc (step g) w w.

(** [order] lists the declared nodes. *)
Definition lists_nodes (g : Graph) (order : list string) : Prop := forall id, id ∈ order <-> id ∈ dom (nodesByID g).

Lemma cycle_pass_spec g order :
  lists_nodes g order ->
  exists issues, checkAcyclicityOutsideLoops g order = Some issues /\ (issues = [] <-> acyclic g).
Proof.
  intros Hord. destruct (check_spec g order) as (issues & Hi & Hs); [by intros id Hid%Hord|].
  exists issues. split; [done|]. rewrite Hs. split; intros Ha u w Hu; (apply Ha; by apply Hord).
Qed.

Lemma findNode_declared g id n : nodesByID g !! id = Some n -> is_Some (findNode g id).
Proof.
  intros [Hl|[Hn Hid]]%nodesByID_fold; [by rewrite lookup_empty in Hl|].
  unfold findNode. destruct (List.find _ _) eqn:Hf; [done|].
  pose proof (find_none _ _ Hf n (proj1 (list_elem_of_In _ _) Hn)) as H. cbv beta in H.
  by rewrite bool_decide_true in H.
Qed.

(** C25: the cycle pass ends whatever order Go's map iteration picks, and it reports
    an issue exactly when a declared node reaches a cycle outside the loop, retry
    and review bodies; so the verdict does not depend on the order. *)
Theorem cycle_pass_decides g order :
  lists_nodes g order ->
  exists issues, checkAcyclicityOutsideLoops g order = Some issues /\
    (issues = [] <-> forall u w, u ∈ dom (nodesByID g) -> rtc (step g) u w -> ~ tc (step g) w w).
Proof. apply cycle_pass_spec. Qed.

(** C26: the drag-time check accepts an edge exactly when its endpoints and ports
    exist with types that fit, it agrees with the routing attributes of its source,
    and it does not close a cycle in a graph that had none. *)
Theorem check_edge_decides `{cfg : ValidateConfig} g order1 order2 e :
  lists_nodes g order1 -> lists_nodes g order2 ->
  exists reasons, CheckEdge order1 order2 g e = Some reasons /\
    (reasons = [] <-> edge_resolves (nodesByID g) e /\ edgeRoutingIssues (nodesByID g) e = [] /\
                      (acyclic g -> acyclic (with_edge g e))).
Proof.
  intros Ho1 Ho2. unfold CheckEdge, edgeCycleIssues.
  pose proof (edgePortIssues_ok (nodesByID g) "edge" e) as Hp.
  destruct (cycle_pass_spec g order1 Ho1) as (i1 & -> & Hi1).
  destruct (cycle_pass_spec (with_edge g e) order2 Ho2) as (i2 & -> & Hi2).
  assert (edge_resolves (nodesByID g) e ->
          is_Some (findNode g (e_src e)) /\ is_Some (findNode g (e_dst e))) as Hfind.
  { intros (from & to & fp & tp & Hf & Ht & _). split; by eapply findNode_declared. }
  destruct (findNode g (e_src e)) as [nf|], (findNode g (e_dst e)) as [nt|].
  2-4: eexists; (split; [done|]); (split; [intros [Hi _]%app_eq_nil|intros [Hr _]]);
    exfalso; [apply Hp, Hfind in Hi|apply Hfind in Hr]; naive_solver.
  assert (exists cyc, match i1 with [] => Some i2 | _ :: _ => Some [] end = Some cyc /\
            (cyc = [] <-> (acyclic g -> acyclic (with_edge g e)))) as (cyc & -> & Hc).
  { destruct i1 as [|x i1]; eexists; (split; [done|]); naive_solver. }
  eexists. split; [done|]. rewrite <- Hp, <- Hc. split.
  - intros [Hi [Hr Hy]%app_eq_nil]%app_eq_nil. done.
  - intros (-> & -> & ->). done.
Qed.

(** * Validated graphs run to completion *)


Section Settled.
Context (g : Graph).
Hypothesis Hrev : forall n, n ∈ g_nodes g -> n_kind n <> NodeKindReview.



Hypothesis Hac : acyclic g.
Hypothesis Hdecl : forall e, e ∈ g_edges g -> e_src e ∈ dom (nodesByID g).



End Settled.


Section Complete.
Context `{cfg : ValidateConfig} (attrIssues : Graph -> list string) (order : list string) (g : Graph).
Hypothesis Hvalid : Validate attrIssues order g = Some [].







End Complete.


(** * Witnesses *)

Definition d_port (name : string) : Port := {| pt_Name := name; pt_Type := "any"; pt_Required := false |}.

(** A catalog that knows every kind; one input port, the output ports of the
    demo graphs. *)
Definition d_validate : ValidateConfig :=
  {| resolveCatalogManifest := fun k => CatFound true k [];
     IsKnown := fun _ => true;
     defaultPortsFor := fun _ => ([d_port "in"], [d_port "out"; d_port "yes"; d_port "no"]);
     HasActivity := fun _ => true; extraDials := [] |}.

Lemma lists_nodes_check g order :
  list_to_set order = dom (nodesByID g) -> lists_nodes g order.
Proof. intros Hd id. rewrite <- Hd. by rewrite elem_of_list_to_set. Qed.

Lemma cycle_pass_decides_witness :
  exists issues, checkAcyclicityOutsideLoops d_diamond (map n_id (g_nodes d_diamond)) = Some issues /\ issues = [].
Proof.
  destruct (cycle_pass_decides d_diamond (map n_id (g_nodes d_diamond))) as (issues & Hi & Hs).
  - apply lists_nodes_check. vm_compute. reflexivity.
  - exists issues. split; [exact Hi|]. revert Hi. vm_compute. congruence.
Defined.

(** The edge from the last node of the diamond back to its first closes a cycle. *)
Lemma check_edge_decides_witness :
  exists reasons, CheckEdge (cfg := d_validate) ["a"; "b"; "c"; "d"; "e"] ["e"; "d"; "c"; "b"; "a"]
    d_diamond (d_edge "d" "a") = Some reasons /\ reasons <> [] /\
  (acyclic d_diamond -> ~ acyclic (with_edge d_diamond (d_edge "d" "a"))).
Proof.
  destruct (check_edge_decides (cfg := d_validate) d_diamond ["a"; "b"; "c"; "d"; "e"] ["e"; "d"; "c"; "b"; "a"]
              (d_edge "d" "a")) as (reasons & Hr & Hs).
  - apply lists_nodes_check. vm_compute. reflexivity.
  - apply lists_nodes_check. vm_compute. reflexivity.
  - exists reasons. split; [exact Hr|].
    assert (reasons <> []) as Hne by (revert Hr; vm_compute; congruence).
    split; [exact Hne|]. intros Ha Hw. apply Hne, Hs. split; [|split; [|auto]].
    + do 4 eexists. repeat split.
    + vm_compute. reflexivity.
Defined.


(** * Review loops *)

(** a feeds u, u feeds the review r, and r's rejected port leads back to u. *)
Definition d_review : Graph :=
  {| g_spec_version := "1"; g_dials := []; g_id := "review";
     g_nodes := [d_node "a" "model"; d_node "u" "model";
                 {| n_id := "r"; n_kind := NodeKindReview; n_title := ""; n_inputs := []; n_outputs := [];
                    n_attrs := AReview "u" 3; n_dials := [] |}];
     g_edges := [d_edge "a" "u"; d_edge "u" "r";
                 {| e_from := {| ep_node := "r"; ep_port := "no" |}; e_to := {| ep_node := "u"; ep_port := "in" |} |}];
     g_entrypoints := ["a"] |}.

Lemma review_undecided (c : KConfig) v : cfg_graph c = d_review -> decided c v -> v = "a".
Proof.
  intros Hc. induction 1 as [ep Hep|v Hne _ IH]; rewrite Hc in *.
  { cbn in Hep. by apply list_elem_of_singleton in Hep. }
  exfalso. destruct (decide (v = "u")) as [->|Hu]; [|destruct (decide (v = "r")) as [->|Hr]].
  - specialize (IH {| e_from := {| ep_node := "r"; ep_port := "no" |}; e_to := {| ep_node := "u"; ep_port := "in" |} |}).
    cbn in IH. discriminate IH. vm_compute. right; left.
  - specialize (IH (d_edge "u" "r")). cbn in IH. discriminate IH. vm_compute. left.
  - apply Hne. unfold inEdges. cbn [d_review g_edges List.filter].
    rewrite !(bool_decide_false (_ = v)) by (cbn; congruence). rewrite !andb_false_r. done.
Qed.

(** A review that feeds back into the node it reviews passes every check, the
    cycle pass included, but the kernel does not hide the feedback edge: the
    reviewed node waits for the review and the review for it, and every schedule
    that ends has run neither, without an error. *)
Theorem review_feedback_never_runs {L} `{EventLog L} (c : KConfig) lv rs cs ts l s0 s :
  cfg_graph c = d_review -> kinit c rs cs ts l = Ok s0 -> kreach c (plain_results c lv) s0 s ->
  quiescent s = true -> k_firstErr s = None -> k_pause s = false ->
  Validate (cfg := d_validate) (fun _ => []) ["a"; "u"; "r"] d_review = Some [] /\
  "u" ∉ k_completed s /\ "r" ∉ k_completed s.
Proof.
  intros Hc Hi Hr Hq Hf Hp. split; [vm_compute; reflexivity|].
  assert (well_formed (cfg_graph c)) as (Hnd & He & Hd).
  { rewrite Hc. apply well_formedb_spec. vm_compute. reflexivity. }
  assert (forall v, v ∈ k_completed s <-> decided c v) as Hall.
  { intros v. apply (FI_quiescent c lv s v); [|done]. by eapply (FI_reach c lv). }
  split; intros Hin%Hall%review_undecided; done.
Qed.

Definition d_review_run : list KAct := [ActMain] ++ d_acts 0 8 (d_out "v").

Lemma review_feedback_never_runs_witness :
  let s := d_after (d_config d_review 8) d_review_run in
  quiescent s = true /\ k_firstErr s = None /\ d_started s = ["a"] /\ "u" ∉ k_completed s.
Proof.
  cbn zeta. split; [vm_compute; reflexivity|]. split; [vm_compute; reflexivity|].
  split; [vm_compute; reflexivity|].
  apply (review_feedback_never_runs (d_config d_review 8) (fun _ => true) NewRunState d_counters
           TaskState.NewTaskState MemLog.NewMemoryEventLog (d_start (d_config d_review 8))).
  - reflexivity.
  - vm_compute. reflexivity.
  - apply (d_after_reach (d_config d_review 8) (plain_resultsb (d_config d_review 8) (fun _ => true))).
    + apply plain_resultsb_spec.
    + vm_compute. reflexivity.
  - vm_compute. reflexivity.
  - vm_compute. reflexivity.
  - vm_compute. reflexivity.
Defined.
