(* ===== verification/Gates.v ===== *)
(** The nodes that wait for a person: the [ask] executor (core/agentgraph/exec_compute.go)
    and the [approval] executor (core/agentgraph/exec_control.go), against the AskBus
    interface (core/agentgraph/seams.go) and its two implementations: memAskBus, and
    runAskBus behind the router of core/rpc/views/agentgraph/manager.go. *)
From S2P Require Import Prelude GoString Utf8 Json Elicitation AgentGraph EventLog RunState Kernel Branch.

Definition NodeKindAsk : string := "ask".
Definition EventApprovalPending : string := "approval_pending".
Definition EventApprovalResolved : string := "approval_resolved".

(** * The interface *)

(** [Pending] also gets the time, which it stamps on a new entry; its error is the text. *)
Class AskBus (B : Type) := {
  Pending : B -> Z -> string -> string -> Question -> B * option string;
  LookupAnswer : B -> string -> string -> option Answer
}.

(** Parking a question gives no answer to any node, and parking it twice parks it once. *)
Class AskBusLaws (B : Type) `{AskBus B} := {
  Pending_no_answer b now run node q run' node' :
    LookupAnswer (Pending b now run node q).1 run' node' = LookupAnswer b run' node';
  Pending_twice b now now' run node q q' :
    (Pending b now run node q).2 = None ->
    Pending (Pending b now run node q).1 now' run node q' = ((Pending b now run node q).1, None)
}.

(** * The implementations *)

(** The error text; [ErrTooManyPending] is for deferred asks only. *)
Definition reg_err_text (e : RegErr) : string :=
  match e with
  | ErrTooManyPending => "elicitation: too many concurrent pending deferred asks"
  | ErrUnknown => "elicitation: unknown or already-resolved ask id"
  | ErrDuplicate => "elicitation: an ask is already pending under this id"
  end.

Definition node_request (run node : string) (q : Question) : Request :=
  {| rq_ID := NodeAskID run node; rq_SessionID := ""; rq_RunID := run; rq_NodeID := node; rq_Question := q; rq_Mode := "" |}.

Definition zero_question : Question :=
  {| q_ID := ""; q_Text := ""; q_Kind := ""; q_Options := []; q_DependsOn := None; q_Batch := [] |}.

(** Registers the ask of a node unless one is there already. *)
Definition park_node (r : Registry) (now : Z) (run node : string) (q : Question) : Registry * option string :=
  match Get r (NodeAskID run node) with
  | Some _ => (r, None)
  | None =>
      match register r (node_request run node q) now "" with
      | (r, Ok _) => (r, None)
      | (r, Err e) => (r, Some (reg_err_text e))
      end
  end.

Record memAskBus := { mb_registry : Registry }.
Definition NewMemAskBus : memAskBus := {| mb_registry := NewRegistry 0 0 |}.

#[global] Instance memAskBus_AskBus : AskBus memAskBus := {
  Pending b now run node q := let '(r, e) := park_node (mb_registry b) now run node q in ({| mb_registry := r |}, e);
  LookupAnswer b run node := Answered (mb_registry b) (NodeAskID run node)
}.

Definition memAskBus_Answer (b : memAskBus) (now : Z) (run node ans : string) : memAskBus :=
  let r := (park_node (mb_registry b) now run node zero_question).1 in
  {| mb_registry := (Resolve r (NodeAskID run node) (TextAnswer ans)).1 |}.

Definition memAskBus_PendingQuestion (b : memAskBus) (run node : string) : option string :=
  match Get (mb_registry b) (NodeAskID run node) with
  | Some e => if bool_decide (en_Status e = StatusPending) then Some (q_Text (en_Question e)) else None
  | None => None
  end.

(** A run's view of the router's one registry. *)
Record runAskBus := { rb_runID : string; rb_registry : Registry }.

Definition or_own (b : runAskBus) (run : string) : string := if bool_decide (run = "") then rb_runID b else run.

#[global] Instance runAskBus_AskBus : AskBus runAskBus := {
  Pending b now run node q :=
    let '(r, e) := park_node (rb_registry b) now (or_own b run) node q in ({| rb_runID := rb_runID b; rb_registry := r |}, e);
  LookupAnswer b run node := Answered (rb_registry b) (NodeAskID (or_own b run) node)
}.

Definition runAskBus_answer (b : runAskBus) (now : Z) (node ans : string) : runAskBus :=
  let r := (park_node (rb_registry b) now (rb_runID b) node zero_question).1 in
  {| rb_runID := rb_runID b; rb_registry := (Resolve r (NodeAskID (rb_runID b) node) (TextAnswer ans)).1 |}.

(** [askRouter.resolveApproval] on the shared registry. *)
Definition resolveApproval (r : Registry) (now : Z) (run node : string) (ans : Answer) : Registry * option string :=
  match park_node r now run node zero_question with
  | (r, Some e) => (r, Some e)
  | (r, None) => let '(r, e) := Resolve r (NodeAskID run node) ans in (r, reg_err_text <$> e)
  end.

(** [askRouter.snapshotDecision]: the pending entry with the least node id, whatever
    order the registry lists them in. *)
Definition pick_first (first : Entry) (pending : list Entry) : Entry :=
  foldl (fun first e => if String.ltb (en_NodeID e) (en_NodeID first) then e else first) first pending.

Inductive PendingDecision :=
| PendingAsk (node question kind : string) (spec : option Question)
| PendingApproval (node prompt approverRole : string).

Definition decision_of (g : option Graph) (first : Entry) : PendingDecision :=
  let ask :=
    let q := en_Question first in
    if bool_decide (q_Kind q = KindFreeform) then PendingAsk (en_NodeID first) (q_Text q) "" None
    else PendingAsk (en_NodeID first) (q_Text q) (q_Kind q) (Some q) in
  match g with
  | None => ask
  | Some g =>
      match List.find (fun n => bool_decide (n_id n = en_NodeID first)) (g_nodes g) with
      | None => ask
      | Some n =>
          if bool_decide (n_kind n = NodeKindApproval) then
            let role := match n_attrs n with
                        | AApproval a => if bool_decide (ap_ApproverRole a = "") then "user" else ap_ApproverRole a
                        | _ => "user"
                        end in
            PendingApproval (en_NodeID first) (q_Text (en_Question first)) role
          else ask
      end
  end.

Definition snapshotDecision (pending : list Entry) (g : option Graph) : option PendingDecision :=
  match pending with
  | [] => None
  | e :: l => Some (decision_of g (pick_first e l))
  end.

(** * Verdicts *)

Record ApprovalVerdict := { av_Approved : bool; av_Reason : string; av_Auto : bool; av_Approver : string }.

#[export] Instance ApprovalVerdict_eq_dec : EqDecision ApprovalVerdict.
Proof. solve_decision. Defined.

(** [json.Marshal] of the struct: empty fields but the first are left out. *)
Definition verdict_json (v : ApprovalVerdict) : json :=
  JObj ([("approved", JBool (av_Approved v))] ++
        (if bool_decide (av_Reason v = "") then [] else [("reason", JStr (av_Reason v))]) ++
        (if av_Auto v then [("auto", JBool true)] else []) ++
        (if bool_decide (av_Approver v = "") then [] else [("approver", JStr (av_Approver v))])).

Definition EncodeApprovalAnswer (v : ApprovalVerdict) : Answer := JSONAnswer (of_list (print_json (verdict_json v))).

(** Decoding into a struct field: null leaves it alone, another type is an error that
    [json.Unmarshal] reports once it has filled the other fields. *)
Definition into_string (old : string) (j : json) : option string :=
  match j with JStr s => Some s | JNull => Some old | _ => None end.
Definition into_bool (old : bool) (j : json) : option bool :=
  match j with JBool b => Some b | JNull => Some old | _ => None end.

Definition verdict_field (v : option ApprovalVerdict) (kv : string * json) : option ApprovalVerdict :=
  v ← v;
  let '(k, j) := kv in
  let '{| av_Approved := a; av_Reason := r; av_Auto := t; av_Approver := p |} := v in
  if EqualFold k "approved" then (fun a => {| av_Approved := a; av_Reason := r; av_Auto := t; av_Approver := p |}) <$> into_bool a j
  else if EqualFold k "reason" then (fun r => {| av_Approved := a; av_Reason := r; av_Auto := t; av_Approver := p |}) <$> into_string r j
  else if EqualFold k "auto" then (fun t => {| av_Approved := a; av_Reason := r; av_Auto := t; av_Approver := p |}) <$> into_bool t j
  else if EqualFold k "approver" then (fun p => {| av_Approved := a; av_Reason := r; av_Auto := t; av_Approver := p |}) <$> into_string p j
  else Some v.

Definition zero_verdict : ApprovalVerdict := {| av_Approved := false; av_Reason := ""; av_Auto := false; av_Approver := "" |}.

(** [None] is the error. *)
Definition DecodeApprovalVerdict (a : Answer) : option ApprovalVerdict :=
  if bool_decide (an_Value a = "") then None
  else match json_valid (an_Value a) with
       | Some (JObj l) => foldl verdict_field (Some zero_verdict) l
       | Some JNull => Some zero_verdict
       | _ => None
       end.

(** * Decoded answers as port values *)

(** A Go map keeps the last of the members with one name. *)
Fixpoint last_members {A} (l : list (string * A)) : list (string * A) :=
  match l with
  | [] => []
  | (k, v) :: l => if bool_decide (k ∈ l.*1) then last_members l else (k, v) :: last_members l
  end.

Fixpoint json_value (j : json) : value :=
  match j with
  | JNull => VNil
  | JBool b => VBool b
  | JNum t => match ParseFloat t with Ok d => VFloat d | Err _ => VNil end
  | JStr s => VStr s
  | JArr l => VList (map json_value l)
  | JObj l => VMap (last_members (map (fun kv => (kv.1, json_value kv.2)) l))
  end.

Definition answer_value (a : Answer) : value :=
  match Decoded a with inl s => VStr s | inr j => json_value j end.

(** * Questions of ask nodes *)

(** [json.Decoder] with [DisallowUnknownFields] into [elicitation.Question]; [None] is
    the error.  Field names are compared without case, ASCII letters only; names that
    differ in nothing but case do not occur together.  [min], [max], [step] and
    [preview] are checked and dropped. *)
Definition string_field (j : json) : option string := into_string "" j.
Definition number_field (j : json) : bool := match j with JNull => true | JNum _ => all_finite j | _ => false end.

Fixpoint decode_list {A} (f : json -> option A) (l : list json) : option (list A) :=
  match l with [] => Some [] | j :: l => x ← f j; xs ← decode_list f l; Some (x :: xs) end.

Definition decode_array {A} (f : json -> option A) (j : json) : option (list A) :=
  match j with JNull => Some [] | JArr l => decode_list f l | _ => None end.

(** A struct: its members are decoded in turn, and a value that is no object, or a
    member [step] does not know, is an error. *)
Definition decode_struct {A} (zero : A) (step : A -> string * json -> option A) (j : json) : option A :=
  match j with
  | JNull => Some zero
  | JObj l => foldl (fun acc kv => a ← acc; step a kv) (Some zero) l
  | _ => None
  end.

Definition decode_option : json -> option QOption :=
  decode_struct {| op_Value := ""; op_Label := "" |} (fun o '(k, j) =>
    if EqualFold k "value" then (fun s => {| op_Value := s; op_Label := op_Label o |}) <$> into_string (op_Value o) j
    else if EqualFold k "label" then (fun s => {| op_Value := op_Value o; op_Label := s |}) <$> into_string (op_Label o) j
    else None).

Definition decode_dependency : json -> option Dependency :=
  decode_struct {| dp_QuestionID := ""; dp_Condition := "" |} (fun d '(k, j) =>
    if EqualFold k "question_id" then (fun s => {| dp_QuestionID := s; dp_Condition := dp_Condition d |}) <$> into_string (dp_QuestionID d) j
    else if EqualFold k "condition" then Some {| dp_QuestionID := dp_QuestionID d; dp_Condition := of_list (print_json j) |}
    else None).

Definition preview_ok (j : json) : bool :=
  bool_decide (is_Some (decode_struct () (fun _ '(k, j) =>
    if EqualFold k "kind" || EqualFold k "content" || EqualFold k "language" then (fun _ => ()) <$> string_field j else None) j)).

Definition question_field (rec : json -> option Question) (q : Question) (kv : string * json) : option Question :=
  let '(k, j) := kv in
  let '{| q_ID := i; q_Text := t; q_Kind := kd; q_Options := o; q_DependsOn := d; q_Batch := b |} := q in
  if EqualFold k "id" then (fun i => MkQuestion i t kd o d b) <$> into_string i j
  else if EqualFold k "question" then (fun t => MkQuestion i t kd o d b) <$> into_string t j
  else if EqualFold k "kind" then (fun kd => MkQuestion i t kd o d b) <$> into_string kd j
  else if EqualFold k "options" then (fun o => MkQuestion i t kd o d b) <$> decode_array decode_option j
  else if EqualFold k "placeholder" then (fun _ => q) <$> string_field j
  else if EqualFold k "min" || EqualFold k "max" || EqualFold k "step" then if number_field j then Some q else None
  else if EqualFold k "default_value" then Some q
  else if EqualFold k "preview" then if preview_ok j then Some q else None
  else if EqualFold k "depends_on" then
    match j with
    | JNull => Some (MkQuestion i t kd o None b)
    | _ => (fun d => MkQuestion i t kd o (Some d) b) <$> decode_dependency j
    end
  else if EqualFold k "questions" then (fun b => MkQuestion i t kd o d b) <$> decode_array rec j
  else None.

(** A question inside a wizard may hold a wizard itself; [fuel] bounds the nesting. *)
Fixpoint decode_question (fuel : nat) (j : json) : option Question :=
  match fuel with
  | 0 => None
  | S fuel => decode_struct zero_question (question_field (decode_question fuel)) j
  end.

Definition set_text_kind (q : Question) (text kind : string) : Question :=
  MkQuestion (q_ID q) text kind (q_Options q) (q_DependsOn q) (q_Batch q).

(** The nesting of a value bounds the recursion of the decoder. *)
Fixpoint json_depth (j : json) : nat :=
  match j with
  | JArr l => S (foldr Nat.max 0 (map json_depth l))
  | JObj l => S (foldr Nat.max 0 (map (fun kv => json_depth kv.2) l))
  | _ => 1
  end.

Section Ask.
(** The text of a JSON decoding error. *)
Context (json_error : json -> string).

Definition askQuestion (a : AskAttrs) : result Question string :=
  let text := ak_Question a in
  let kind := ak_QuestionKind a in
  let check q := match Validate q with Some e => Err e | None => Ok q end in
  match ak_QuestionSpec a with
  | [] => check (set_text_kind zero_question text kind)
  | spec =>
      match decode_question (json_depth (JObj spec)) (JObj spec) with
      | None => Err ("question_spec: " +:+ json_error (JObj spec))
      | Some q =>
          if negb (bool_decide (q_Text q = ""))
          then Err "question_spec: `question` belongs in the question attr, not the spec"
          else if negb (bool_decide (q_Kind q = KindFreeform))
          then Err "question_spec: `kind` belongs in the question_kind attr, not the spec"
          else check (set_text_kind q text kind)
      end
  end.

Context {B : Type} `{AskBus B}.

(** [env.Hooks.Fire] on the message of the user: the events it yields.  [None] is no
    hooks. *)
Context (hooks : option (string -> string -> string -> EventBatch)).

Definition hook_events (run node title text : string) : EventBatch :=
  match hooks with
  | None => []
  | Some fire => map (fun e => {| ev_Seq := ev_Seq e; ev_RunID := run; ev_NodeID := node; ev_Kind := ev_Kind e;
                                  ev_Payload := ev_Payload e |}) (fire title text node)
  end.

Definition fail_exec (evs : EventBatch) (msg : string) : Outcome := OutErr evs (plain_err msg).

Definition answered_ask (run node title : string) (v : value) (text : string) (payload : list (string * value)) : Outcome :=
  OutOk {| r_Outputs := {["answer" := v]};
           r_Events := AppendKind [] run node EventAskAnswered (("answer_len", VInt (Z.of_nat (String.length text))) :: payload) ++
                       (if bool_decide (text = "") then [] else hook_events run node title text);
           r_Pause := false; r_PauseReason := ""; r_Backtrack := None |}.

(** [askExecutor.Execute] at time [now]. *)
Definition ask_execute (b : B) (now : Z) (run : string) (node : Node) : B * Outcome :=
  match n_attrs node with
  | AAsk a =>
      match LookupAnswer b run (n_id node) with
      | Some ans =>
          (b, answered_ask run (n_id node) ("user answer — " +:+ n_id node) (answer_value ans) (answer_String ans) [])
      | None =>
          if negb (bool_decide (ak_DefaultAnswer a = "")) then
            (b, answered_ask run (n_id node) ("auto-resolved answer — " +:+ n_id node) (VStr (ak_DefaultAnswer a))
                  (ak_DefaultAnswer a) [("auto_resolved", VBool true)])
          else
            match askQuestion a with
            | Err e => (b, fail_exec [] ("ask: node " +:+ fmt_q (n_id node) +:+ ": " +:+ e))
            | Ok q =>
                match Pending b now run (n_id node) q with
                | (b, Some e) => (b, fail_exec [] ("ask: node " +:+ fmt_q (n_id node) +:+ ": pending: " +:+ e))
                | (b, None) =>
                    (b, OutOk {| r_Outputs := ∅;
                                 r_Events := AppendKind [] run (n_id node) EventAskPending
                                   (("question", VStr (q_Text q)) ::
                                    if bool_decide (q_Kind q = KindFreeform) then [] else [("kind", VStr (q_Kind q))]);
                                 r_Pause := true; r_PauseReason := "ask: " +:+ q_Text q; r_Backtrack := None |})
                end
            end
      end
  | _ => (b, fail_exec [] ("ask: node " +:+ fmt_q (n_id node) +:+ " has wrong attrs type"))
  end.

(** * Approval *)

Definition unreadable_verdict : ApprovalVerdict :=
  {| av_Approved := false; av_Reason := "approval: unreadable verdict; failing closed"; av_Auto := false; av_Approver := "" |}.

Definition approval_ports (approved : bool) (inputs : PortValues) : PortValues :=
  {[(if approved then "approved" else "rejected") := default VNil (inputs !! "in")]}.

Definition resolved_event (run node : string) (v : ApprovalVerdict) : EventBatch :=
  AppendKind [] run node EventApprovalResolved
    [("approved", VBool (av_Approved v)); ("auto", VBool (av_Auto v)); ("reason", VStr (av_Reason v));
     ("approver", VStr (av_Approver v))].

Definition approval_prompt (a : ApprovalAttrs) : string :=
  if bool_decide (ap_Prompt a = "") then "Approval requested" else ap_Prompt a.
Definition approval_role (a : ApprovalAttrs) : string :=
  if bool_decide (ap_ApproverRole a = "") then "user" else ap_ApproverRole a.

Definition approval_question (prompt : string) : Question :=
  {| q_ID := ""; q_Text := prompt; q_Kind := "radio";
     q_Options := [{| op_Value := "approved"; op_Label := "Approve" |}; {| op_Value := "rejected"; op_Label := "Reject" |}];
     q_DependsOn := None; q_Batch := [] |}.

Definition pending_event (run node : string) (a : ApprovalAttrs) : EventBatch :=
  AppendKind [] run node EventApprovalPending
    [("prompt", VStr (approval_prompt a)); ("approver_role", VStr (approval_role a));
     ("policy_label", VStr (ap_PolicyLabel a)); ("auto_approve_window_seconds", VInt (ap_AutoApproveWindowSeconds a))].

(** [approvalExecutor.Execute] at time [now]. *)
Definition approval_execute (b : B) (now : Z) (run : string) (node : Node) (inputs : PortValues) : B * Outcome :=
  match n_attrs node with
  | AApproval a =>
      match LookupAnswer b run (n_id node) with
      | Some ans =>
          let v := default unreadable_verdict (DecodeApprovalVerdict ans) in
          (b, OutOk {| r_Outputs := approval_ports (av_Approved v) inputs; r_Events := resolved_event run (n_id node) v;
                       r_Pause := false; r_PauseReason := ""; r_Backtrack := None |})
      | None =>
          match Pending b now run (n_id node) (approval_question (approval_prompt a)) with
          | (b, Some e) => (b, fail_exec (pending_event run (n_id node) a)
                                 ("approval: node " +:+ fmt_q (n_id node) +:+ ": pending: " +:+ e))
          | (b, None) => (b, OutOk {| r_Outputs := ∅; r_Events := pending_event run (n_id node) a; r_Pause := true;
                                      r_PauseReason := "approval: " +:+ approval_prompt a; r_Backtrack := None |})
          end
      end
  | _ => (b, fail_exec [] ("approval: node " +:+ fmt_q (n_id node) +:+ " has wrong attrs type"))
  end.
End Ask.
