(* ===== verification/GatesProps.v ===== *)
(** What the nodes that wait for a person guarantee: an approval fire follows a recorded
    verdict and nothing else, a verdict survives its JSON encoding and reaches the one
    node it is for, and an ask stays parked until it is answered. *)
From S2P Require Import Prelude GoString Utf8 Json JsonProps Elicitation ElicitationProps AgentGraph EventLog RunState Kernel KernelDemo Branch Gates.
From Stdlib Require Import Ascii.

(** * The buses keep the interface's promises *)

Lemma park_node_cases r now run node q :
  (exists e, Get r (NodeAskID run node) = Some e /\ park_node r now run node q = (r, None)) \/
  (exists s, rg_entries r !! NodeAskID run node = None /\ en_Status (sl_rec s) = StatusPending /\
     (park_node r now run node q).2 = None /\
     rg_entries (park_node r now run node q).1 = <[NodeAskID run node := s]> (rg_entries r)).
Proof.
  unfold park_node, Get. destruct (rg_entries r !! NodeAskID run node) as [s|] eqn:Hs; [left; by eexists|right].
  unfold register. cbn [node_request rq_ID rq_Mode rq_SessionID rq_RunID rq_NodeID rq_Question].
  rewrite (bool_decide_eq_false_2 (NodeAskID run node = "")) by done.
  rewrite (bool_decide_eq_true_2 (("" : string) = "")) by done.
  rewrite (bool_decide_eq_false_2 (ModeBlocking = ModeDeferred)) by done. cbn [andb].
  rewrite Hs. eexists. split_and!; [done| |reflexivity..]. reflexivity.
Qed.

Lemma park_node_answered r now run node q id : Answered (park_node r now run node q).1 id = Answered r id.
Proof.
  destruct (park_node_cases r now run node q) as [(e & _ & ->)|(s & Hn & Hp & _ & He)]; [done|].
  unfold Answered. rewrite He. destruct (decide (id = NodeAskID run node)) as [->|Hne].
  - by rewrite lookup_insert_eq, Hn, Hp.
  - by rewrite lookup_insert_ne.
Qed.

Lemma park_node_ok r now run node q : (park_node r now run node q).2 = None.
Proof. by destruct (park_node_cases r now run node q) as [(e & _ & ->)|(s & _ & _ & ? & _)]. Qed.

Lemma park_node_parked r now run node q : is_Some (Get (park_node r now run node q).1 (NodeAskID run node)).
Proof.
  destruct (park_node_cases r now run node q) as [(e & He & ->)|(s & _ & _ & _ & He)]; [by eexists|].
  unfold Get. rewrite He, lookup_insert_eq. by eexists.
Qed.

Lemma park_node_again r now now' run node q q' :
  park_node (park_node r now run node q).1 now' run node q' = ((park_node r now run node q).1, None).
Proof. unfold park_node at 1. by destruct (park_node_parked r now run node q) as [e ->]. Qed.

#[global] Instance memAskBus_laws : AskBusLaws memAskBus.
Proof.
  split.
  - intros [r] now run node q run' node'. cbn. rewrite <- (park_node_answered r now run node q). by destruct (park_node _ _ _ _ _).
  - intros [r] now now' run node q q' _. cbn. pose proof (park_node_again r now now' run node q q') as H.
    destruct (park_node r now run node q) as [r1 e]. cbn in *. by rewrite H.
Qed.

#[global] Instance runAskBus_laws : AskBusLaws runAskBus.
Proof.
  split.
  - intros [own r] now run node q run' node'. cbn. unfold or_own. cbn.
    match goal with |- context [park_node r now ?x node q] => rewrite <- (park_node_answered r now x node q); by destruct (park_node r now x node q) end.
  - intros [own r] now now' run node q q' _. cbn. unfold or_own. cbn.
    match goal with |- context [park_node r now ?x node q] => pose proof (park_node_again r now now' x node q q') as H;
      destruct (park_node r now x node q) as [r1 e] end. cbn in *. by rewrite H.
Qed.

(** * Keys *)

(** Run ids without NUL keep the keys of different nodes apart. *)
Lemma NodeAskID_inj run node run' node' :
  nul_free run -> nul_free run' -> NodeAskID run node = NodeAskID run' node' -> run = run' /\ node = node'.
Proof.
  intros Hr Hr' He. unfold NodeAskID in He. apply append_inj in He. apply append_inj in He. by apply nul_cut in He.
Qed.

(** * Verdicts *)

Lemma verdict_json_textual v : utf8 (list_of (av_Reason v)) -> utf8 (list_of (av_Approver v)) -> textual (verdict_json v).
Proof.
  intros Hr Hp. unfold verdict_json.
  assert (forall k, In k ["approved"; "reason"; "auto"; "approver"] -> utf8 (list_of k)) as Hk.
  { intros k Hk. apply utf8_ascii. cbn in Hk. destruct Hk as [<-|[<-|[<-|[<-|[]]]]]; by repeat constructor. }
  assert (utf8 (list_of "approved") /\ utf8 (list_of "reason") /\ utf8 (list_of "auto") /\ utf8 (list_of "approver"))
    as (H1 & H2 & H3 & H4) by (split_and!; apply Hk; cbn; tauto).
  do 2 case_bool_decide; destruct (av_Auto v); cbn [app textual]; tauto.
Qed.

Lemma verdict_json_nesting v : (nesting (verdict_json v) <= maxNestingDepth)%N.
Proof. unfold verdict_json. do 2 case_bool_decide; destruct (av_Auto v); vm_compute; discriminate. Qed.

Lemma verdict_fields v : foldl verdict_field (Some zero_verdict)
  ([("approved", JBool (av_Approved v))] ++
   (if bool_decide (av_Reason v = "") then [] else [("reason", JStr (av_Reason v))]) ++
   (if av_Auto v then [("auto", JBool true)] else []) ++
   (if bool_decide (av_Approver v = "") then [] else [("approver", JStr (av_Approver v))])) = Some v.
Proof.
  destruct v as [a r t p]. cbn [av_Approved av_Reason av_Auto av_Approver].
  do 2 case_bool_decide; subst; destruct t; reflexivity.
Qed.

Lemma verdict_decodes v : utf8 (list_of (av_Reason v)) -> utf8 (list_of (av_Approver v)) ->
  DecodeApprovalVerdict (EncodeApprovalAnswer v) = Some v.
Proof.
  intros Hr Hp.
  pose proof (Unmarshal_valid _ _ (Unmarshal_print _ (verdict_json_textual v Hr Hp) (verdict_json_nesting v))) as Hj.
  unfold DecodeApprovalVerdict, EncodeApprovalAnswer, JSONAnswer. cbn [an_Value].
  rewrite bool_decide_eq_false_2 by (unfold verdict_json; cbn; discriminate).
  rewrite Hj. apply verdict_fields.
Qed.

(** The verdict of a person survives its encoding as the answer of an ask. *)
Theorem verdict_round_trip v :
  utf8 (list_of (av_Reason v)) -> utf8 (list_of (av_Approver v)) ->
  DecodeApprovalVerdict (EncodeApprovalAnswer v) = Some v.
Proof. apply verdict_decodes. Qed.

Definition d_verdict : ApprovalVerdict :=
  {| av_Approved := false; av_Reason := "not <ready>"; av_Auto := false; av_Approver := "user" |}.

Lemma verdict_round_trip_witness : DecodeApprovalVerdict (EncodeApprovalAnswer d_verdict) = Some d_verdict.
Proof. apply verdict_round_trip; apply utf8_iff; vm_compute; reflexivity. Defined.

(** * The approval gate *)

Definition wrote (o : Outcome) (port : string) : bool :=
  match o with OutOk r => bool_decide (is_Some (r_Outputs r !! port)) | OutErr _ _ => false end.
Definition paused (o : Outcome) : bool := match o with OutOk r => r_Pause r | OutErr _ _ => false end.

Lemma approval_ports_wrote approved inputs :
  bool_decide (is_Some (approval_ports approved inputs !! "approved")) = approved /\
  bool_decide (is_Some (approval_ports approved inputs !! "rejected")) = negb approved.
Proof.
  unfold approval_ports. destruct approved; rewrite lookup_singleton_eq, lookup_singleton_ne by done; split;
    first [by apply bool_decide_eq_true; eexists|by apply bool_decide_eq_false; intros []].
Qed.

Lemma unreadable_or ans : av_Approved (default unreadable_verdict (DecodeApprovalVerdict ans)) = true <->
  exists v, DecodeApprovalVerdict ans = Some v /\ av_Approved v = true.
Proof. destruct (DecodeApprovalVerdict ans) as [v|]; cbn; naive_solver. Qed.

Section Gate.
Context {B : Type} `{AskBusLaws B}.

(** The cases of a fire. *)
Lemma approval_fire (b : B) now run nd a inputs : n_attrs nd = AApproval a ->
  match LookupAnswer b run (n_id nd) with
  | Some ans =>
      let v := default unreadable_verdict (DecodeApprovalVerdict ans) in
      approval_execute b now run nd inputs =
        (b, OutOk {| r_Outputs := approval_ports (av_Approved v) inputs; r_Events := resolved_event run (n_id nd) v;
                     r_Pause := false; r_PauseReason := ""; r_Backtrack := None |})
  | None =>
      approval_execute b now run nd inputs =
        ((Pending b now run (n_id nd) (approval_question (approval_prompt a))).1,
         match (Pending b now run (n_id nd) (approval_question (approval_prompt a))).2 with
         | Some e => fail_exec (pending_event run (n_id nd) a) ("approval: node " +:+ fmt_q (n_id nd) +:+ ": pending: " +:+ e)
         | None => OutOk {| r_Outputs := ∅; r_Events := pending_event run (n_id nd) a; r_Pause := true;
                            r_PauseReason := "approval: " +:+ approval_prompt a; r_Backtrack := None |}
         end)
  end.
Proof.
  intros Ha. unfold approval_execute. rewrite Ha. destruct (LookupAnswer b run (n_id nd)) as [ans|]; [done|].
  by destruct (Pending _ _ _ _ _) as [b' [e|]].
Qed.

(** A fire of an approval writes "approved" exactly when the recorded answer decodes
    to an approving verdict and "rejected" exactly when an answer is recorded that does
    not; it pauses only without an answer, and firing again before one arrives changes
    nothing; no fire answers anything itself. *)
Theorem approval_follows_verdict (b b' : B) now run nd a inputs o :
  n_attrs nd = AApproval a -> approval_execute b now run nd inputs = (b', o) ->
  (wrote o "approved" = true <->
     exists ans v, LookupAnswer b run (n_id nd) = Some ans /\ DecodeApprovalVerdict ans = Some v /\ av_Approved v = true) /\
  (wrote o "rejected" = true <->
     exists ans, LookupAnswer b run (n_id nd) = Some ans /\ forall v, DecodeApprovalVerdict ans = Some v -> av_Approved v = false) /\
  (paused o = true -> LookupAnswer b run (n_id nd) = None /\
     forall now', approval_execute b' now' run nd inputs = (b', o)) /\
  (forall run' node', LookupAnswer b' run' node' = LookupAnswer b run' node').
Proof.
  intros Ha He. pose proof (approval_fire b now run nd a inputs Ha) as Hf. rewrite He in Hf.
  destruct (LookupAnswer b run (n_id nd)) as [ans|] eqn:Hl; cbn zeta in Hf; injection Hf as -> ->.
  - cbn. destruct (approval_ports_wrote (av_Approved (default unreadable_verdict (DecodeApprovalVerdict ans))) inputs) as [-> ->].
    split_and!; [|  |done|done].
    + rewrite unreadable_or. naive_solver.
    + rewrite negb_true_iff, <- not_true_iff_false, unreadable_or. split.
      * intros Hn. exists ans. split; [done|]. intros v Hv. apply not_true_iff_false. intros Ht. apply Hn. eauto.
      * intros (ans' & [= <-] & Hv) (v & Hd & Ht). specialize (Hv v Hd). congruence.
  - set (q := approval_question (approval_prompt a)).
    split_and!; [| |intros Hp; split; [done|intros now']|intros; apply Pending_no_answer].
    1,2: destruct (Pending b now run (n_id nd) q).2 as [e|]; cbn; rewrite ?lookup_empty; split; [| naive_solver| |naive_solver];
      intros Ht; try done; by rewrite bool_decide_eq_false_2 in Ht by (intros []).
    pose proof (approval_fire (Pending b now run (n_id nd) q).1 now' run nd a inputs Ha) as Hf.
    rewrite Pending_no_answer, Hl in Hf. fold q in Hf.
    destruct (Pending b now run (n_id nd) q).2 as [e|] eqn:He2; [done|].
    rewrite Hf, Pending_twice by done. done.
Qed.
End Gate.

(** * From the reviewer to the gate *)

Lemma resolve_approval_ok r now run node ans r1 :
  resolveApproval r now run node ans = (r1, None) ->
  exists s, rg_entries r1 !! NodeAskID run node = Some s /\ en_Status (sl_rec s) = StatusAnswered /\ en_Answer (sl_rec s) = ans.
Proof.
  unfold resolveApproval. pose proof (park_node_ok r now run node zero_question) as Hk.
  destruct (park_node r now run node zero_question) as [r2 e]. cbn in Hk. subst e.
  unfold Resolve, with_pending. destruct (rg_entries r2 !! NodeAskID run node) as [s|]; [|done].
  case_bool_decide; [|done]. intros [= <-]. cbn. rewrite lookup_insert_eq. eexists. by split_and!.
Qed.

Lemma resolve_approval_other r now run node ans id :
  id <> NodeAskID run node -> Answered (resolveApproval r now run node ans).1 id = Answered r id.
Proof.
  intros Hne. unfold resolveApproval. rewrite <- (park_node_answered r now run node zero_question id).
  pose proof (park_node_ok r now run node zero_question) as Hk.
  destruct (park_node r now run node zero_question) as [r2 e]. cbn in Hk. subst e.
  unfold Resolve, with_pending. cbn [fst]. destruct (rg_entries r2 !! NodeAskID run node) as [s|]; [|done].
  case_bool_decide; [|done]. unfold Answered. cbn. by rewrite lookup_insert_ne.
Qed.

(** Once the router accepted a verdict for a node of a run, that node's approval
    follows it on every later fire, whatever else the registry goes through, and no
    node with another key sees an answer it did not have. *)
Theorem verdict_reaches_its_gate r now run node v r1 after nd a now' inputs own :
  utf8 (list_of (av_Reason v)) -> utf8 (list_of (av_Approver v)) ->
  resolveApproval r now run node (EncodeApprovalAnswer v) = (r1, None) ->
  Forall (fun o => cancels (NodeAskID run node) o = false) after ->
  run <> "" -> n_id nd = node -> n_attrs nd = AApproval a ->
  let b := {| rb_runID := own; rb_registry := apply_ops r1 after |} in
  approval_execute b now' run nd inputs =
    (b, OutOk {| r_Outputs := approval_ports (av_Approved v) inputs; r_Events := resolved_event run node v;
                 r_Pause := false; r_PauseReason := ""; r_Backtrack := None |}) /\
  (nul_free run -> forall run' node', nul_free run' -> (run', node') <> (run, node) ->
   Answered r1 (NodeAskID run' node') = Answered r (NodeAskID run' node')).
Proof.
  intros Hr Hp Hres Hc Hrun <- Ha b. split.
  - destruct (resolve_approval_ok _ _ _ _ _ _ Hres) as (s & Hs & Hst & Hans).
    destruct (settled_stays_ops after _ Hc r1 s Hs) as (s' & Hs' & Hrec & _); [by rewrite Hst|].
    assert (LookupAnswer b run (n_id nd) = Some (EncodeApprovalAnswer v)) as Hl.
    { cbn. unfold or_own. rewrite bool_decide_eq_false_2 by done. unfold Answered. by rewrite Hs', Hrec, Hst, <- Hans. }
    pose proof (approval_fire b now' run nd a inputs Ha) as Hf. rewrite Hl in Hf.
    by rewrite (verdict_decodes v Hr Hp) in Hf.
  - intros Hn run' node' Hn' Hne. pose proof (resolve_approval_other r now run (n_id nd) (EncodeApprovalAnswer v) (NodeAskID run' node')) as Ho.
    rewrite Hres in Ho. apply Ho. intros He. apply NodeAskID_inj in He as [-> ->]; done.
Qed.

(** * A rejected deployment *)

Definition d_gate_node : Node :=
  {| n_id := "gate"; n_kind := NodeKindApproval; n_title := ""; n_inputs := []; n_outputs := [];
     n_attrs := AApproval {| ap_ApproverRole := ""; ap_AutoApproveWindowSeconds := 0; ap_PolicyLabel := ""; ap_Prompt := "Deploy?" |};
     n_dials := [] |}.

(** The plan goes to the gate; its port "approved" feeds the deployment, "rejected" the report. *)
Definition d_gate : Graph :=
  {| g_spec_version := "1"; g_dials := []; g_id := "gated";
     g_nodes := [d_node "plan" "model"; d_gate_node; d_node "deploy" "model"; d_node "report" "model"];
     g_edges := [d_edge "plan" "gate";
                 {| e_from := {| ep_node := "gate"; ep_port := "approved" |}; e_to := {| ep_node := "deploy"; ep_port := "in" |} |};
                 {| e_from := {| ep_node := "gate"; ep_port := "rejected" |}; e_to := {| ep_node := "report"; ep_port := "in" |} |}];
     g_entrypoints := ["plan"] |}.

(** The approval executor is bound without an edge router, as in the source. *)
Definition d_gate_config : KConfig :=
  {| cfg_graph := d_gate; cfg_registry := <[NodeKindApproval := {| ex_router := None |}]> d_registry;
     cfg_maxInFlight := 8; cfg_RunID := "r1"; cfg_SessionID := ""; cfg_Budget := d_budget;
     cfg_armAlways := false; cfg_history := None |}.

Definition d_rejected_registry : Registry :=
  (resolveApproval (NewRegistry 0 0) 5 "r1" "gate" (EncodeApprovalAnswer d_verdict)).1.

Definition d_rejected : Outcome :=
  (approval_execute {| rb_runID := "r1"; rb_registry := d_rejected_registry |} 9 "r1" d_gate_node {["in" := VStr "v"]}).2.

(** The kernel's action that delivers an outcome to the goroutine at place [i]. *)
Definition d_deliver (i : nat) (o : Outcome) : KAct := ActProc i {| o_now := 0; o_effect := no_effect; o_outcome := o |}.

Definition d_gate_run : list KAct :=
  [ActMain] ++ d_acts 0 9 (d_out "v") ++ repeat (d_deliver 0 d_rejected) 10 ++ d_acts 0 8 (d_out "v") ++ d_acts 0 8 (d_out "v").

(** A rejection does not hold back the node wired to "approved": the fire writes
    "rejected" only, yet the kernel, which knows no dead edges of an approval, runs the
    deployment and the run completes with nothing skipped. *)
Theorem rejected_gate_opens :
  wrote d_rejected "approved" = false /\ wrote d_rejected "rejected" = true /\
  exists s, krun d_gate_config d_gate_run (d_start d_gate_config) = Some s /\ quiescent s = true /\
    (kfinish d_gate_config s).2 = RunCompleted 4 0 /\ d_started s = ["plan"; "gate"; "deploy"; "report"].
Proof.
  split; [vm_compute; reflexivity|]. split; [vm_compute; reflexivity|].
  exists (d_after d_gate_config d_gate_run). split_and!; vm_compute; reflexivity.
Qed.

Lemma approval_follows_verdict_witness :
  let b := {| rb_runID := "r1"; rb_registry := d_rejected_registry |} in
  wrote (approval_execute b 9 "r1" d_gate_node ∅).2 "rejected" = true.
Proof.
  destruct (approval_follows_verdict {| rb_runID := "r1"; rb_registry := d_rejected_registry |}
    (approval_execute {| rb_runID := "r1"; rb_registry := d_rejected_registry |} 9 "r1" d_gate_node ∅).1 9 "r1" d_gate_node
    {| ap_ApproverRole := ""; ap_AutoApproveWindowSeconds := 0; ap_PolicyLabel := ""; ap_Prompt := "Deploy?" |} ∅
    (approval_execute {| rb_runID := "r1"; rb_registry := d_rejected_registry |} 9 "r1" d_gate_node ∅).2)
    as (_ & Hr & _); [reflexivity|vm_compute; reflexivity|].
  apply Hr. exists (EncodeApprovalAnswer d_verdict). split; [vm_compute; reflexivity|].
  intros v Hv. assert (DecodeApprovalVerdict (EncodeApprovalAnswer d_verdict) = Some d_verdict) as Hd by (vm_compute; reflexivity).
  rewrite Hd in Hv. by injection Hv as <-.
Defined.

(** The gate follows the rejection after a day's sweep and a second, approving, verdict. *)
Lemma verdict_reaches_its_gate_witness :
  let yes := {| av_Approved := true; av_Reason := ""; av_Auto := true; av_Approver := "" |} in
  let b := {| rb_runID := "r1"; rb_registry := apply_ops d_rejected_registry
                [OpSweep (10 ^ 20); OpResolve (NodeAskID "r1" "gate") (EncodeApprovalAnswer yes)] |} in
  wrote (approval_execute b 9 "r1" d_gate_node ∅).2 "approved" = false /\
  Answered d_rejected_registry (NodeAskID "r1" "other") = None.
Proof.
  destruct (verdict_reaches_its_gate (NewRegistry 0 0) 5 "r1" "gate" d_verdict d_rejected_registry
    [OpSweep (10 ^ 20); OpResolve (NodeAskID "r1" "gate")
       (EncodeApprovalAnswer {| av_Approved := true; av_Reason := ""; av_Auto := true; av_Approver := "" |})]
    d_gate_node {| ap_ApproverRole := ""; ap_AutoApproveWindowSeconds := 0; ap_PolicyLabel := ""; ap_Prompt := "Deploy?" |} 9 ∅ "r1")
    as [He Ho]; [apply utf8_iff; vm_compute; reflexivity..|vm_compute; reflexivity|by repeat constructor|done|done|done|].
  cbn zeta. split; [rewrite He; vm_compute; reflexivity|].
  assert (nul_free "r1") as Hn by (unfold nul_free; apply (bool_decide_unpack _); done).
  rewrite (Ho Hn "r1" "other" Hn) by discriminate. vm_compute. reflexivity.
Defined.

(** * Asks *)

(** More nesting allowance than the value needs decodes it alike. *)
Lemma json_depth_elem j l : j ∈ l -> json_depth j < json_depth (JArr l).
Proof.
  intros Hj. cbn. apply Nat.lt_succ_r. induction Hj as [|j k l _ IH]; cbn; [lia|].
  etrans; [exact IH|]. apply Nat.le_max_r.
Qed.

Lemma json_depth_member k j l : (k, j) ∈ l -> json_depth j < json_depth (JObj l).
Proof.
  intros Hj. cbn. apply Nat.lt_succ_r. induction l as [|[k' j'] l IH]; [by apply not_elem_of_nil in Hj|].
  apply elem_of_cons in Hj as [[= <- <-]|Hj]; cbn; [lia|]. etrans; [by apply IH|]. apply Nat.le_max_r.
Qed.

Lemma decode_list_ext {A} (f f' : json -> option A) l : (forall j, j ∈ l -> f j = f' j) -> decode_list f l = decode_list f' l.
Proof.
  induction l as [|j l IH]; intros Hf; [done|]. cbn. rewrite Hf by apply list_elem_of_here.
  by rewrite IH by (intros; apply Hf; by apply list_elem_of_further).
Qed.

Lemma decode_struct_ext {A} (zero : A) step step' j :
  (forall l a kv, j = JObj l -> kv ∈ l -> step a kv = step' a kv) -> decode_struct zero step j = decode_struct zero step' j.
Proof.
  destruct j as [| | | | |l]; try done. intros Hs. cbn. specialize (Hs l). revert Hs. generalize (Some zero).
  assert (forall l', l' ⊆ l -> forall o, (forall a kv, JObj l = JObj l -> kv ∈ l -> step a kv = step' a kv) ->
    foldl (fun acc kv => a ← acc; step a kv) o l' = foldl (fun acc kv => a ← acc; step' a kv) o l') as H.
  { induction l' as [|kv l' IH]; intros Hsub o Hs; [done|]. cbn.
    rewrite (IH ltac:(set_solver)) by done. f_equal. destruct o as [a|]; [|done]. cbn. apply Hs; [done|]. set_solver. }
  intros o Hs. by apply H.
Qed.

Lemma decode_question_fuel fuel : forall fuel' j, json_depth j <= fuel -> json_depth j <= fuel' ->
  decode_question fuel j = decode_question fuel' j.
Proof.
  assert (forall j, 0 < json_depth j) as Hpos by (intros []; cbn; lia).
  induction fuel as [|fuel IH]; intros fuel' j Hf Hf'; [specialize (Hpos j); lia|].
  destruct fuel' as [|fuel']; [specialize (Hpos j); lia|]. cbn [decode_question].
  apply decode_struct_ext. intros l q [k v] -> Hin. apply json_depth_member in Hin as Hd.
  unfold question_field. destruct q as [i t kd o d b]. repeat (case_if; [done|]). case_if; [|done].
  destruct v as [| | | |vs|]; try done. cbn [decode_array]. f_equal. apply decode_list_ext.
  intros v Hv%json_depth_elem. apply IH; lia.
Qed.

Lemma askQuestion_valid json_error a q : askQuestion json_error a = Ok q ->
  Validate q = None /\ q_Text q = ak_Question a /\ q_Kind q = ak_QuestionKind a.
Proof.
  unfold askQuestion. destruct (ak_QuestionSpec a) as [|kv spec].
  - destruct (Validate _) eqn:Hv; [done|]. by intros [= <-].
  - destruct (decode_question _ _) as [q'|]; [|done]. do 2 (case_if; [done|]).
    destruct (Validate _) eqn:Hv; [done|]. by intros [= <-].
Qed.

Section AskFire.
Context {B : Type} `{AskBusLaws B} (json_error : json -> string) (hooks : option (string -> string -> string -> EventBatch)).

Lemma ask_parks (b : B) now run nd a q : n_attrs nd = AAsk a ->
  LookupAnswer b run (n_id nd) = None -> ak_DefaultAnswer a = "" -> askQuestion json_error a = Ok q ->
  (Pending b now run (n_id nd) q).2 = None ->
  ask_execute json_error hooks b now run nd =
    ((Pending b now run (n_id nd) q).1,
     OutOk {| r_Outputs := ∅;
              r_Events := AppendKind [] run (n_id nd) EventAskPending
                (("question", VStr (q_Text q)) ::
                 if bool_decide (q_Kind q = KindFreeform) then [] else [("kind", VStr (q_Kind q))]);
              r_Pause := true; r_PauseReason := "ask: " +:+ q_Text q; r_Backtrack := None |}).
Proof.
  intros Ha Hl Hd Hq Hp. unfold ask_execute. rewrite Ha, Hl, bool_decide_eq_true_2 by done. cbn [negb].
  rewrite Hq. destruct (Pending _ _ _ _ _) as [b' e]. cbn in *. by subst e.
Qed.

Lemma answered_ask_answers run node title v text payload :
  wrote (answered_ask hooks run node title v text payload) "answer" = true /\
  paused (answered_ask hooks run node title v text payload) = false /\
  exists r, answered_ask hooks run node title v text payload = OutOk r /\ r_Outputs r !! "answer" = Some v.
Proof.
  unfold answered_ask, wrote, paused. cbn [r_Outputs r_Pause]. rewrite lookup_singleton_eq.
  split_and!; [by apply bool_decide_eq_true_2|done|]. eexists. split; [done|]. cbn [r_Outputs]. apply lookup_singleton_eq.
Qed.

(** A fire of an ask answers with the recorded answer if there is one, else with its
    default if it has one; it pauses only when it has neither, with a question that
    passes validation, and firing again before the answer arrives changes nothing.  A
    question that does not pass is never parked, and no fire answers anything itself. *)
Theorem ask_waits_for_answer (b b' : B) now run nd a o :
  n_attrs nd = AAsk a -> ask_execute json_error hooks b now run nd = (b', o) ->
  (wrote o "answer" = true <-> LookupAnswer b run (n_id nd) <> None \/ ak_DefaultAnswer a <> "") /\
  (forall ans, LookupAnswer b run (n_id nd) = Some ans ->
     exists r, o = OutOk r /\ r_Outputs r !! "answer" = Some (answer_value ans)) /\
  (paused o = true -> LookupAnswer b run (n_id nd) = None /\ ak_DefaultAnswer a = "" /\
     (exists q, askQuestion json_error a = Ok q /\ Validate q = None) /\
     forall now', ask_execute json_error hooks b' now' run nd = (b', o)) /\
  (b' <> b -> exists q, askQuestion json_error a = Ok q) /\
  (forall run' node', LookupAnswer b' run' node' = LookupAnswer b run' node').
Proof.
  intros Ha He. destruct (LookupAnswer b run (n_id nd)) as [ans|] eqn:Hl.
  { unfold ask_execute in He. rewrite Ha, Hl in He. injection He as <- <-.
    match goal with |- context [answered_ask ?h ?r ?n ?t ?v ?x ?p] => destruct (answered_ask_answers r n t v x p) as (-> & -> & Hr) end. split_and!; [naive_solver| |done..].
    intros ans' [= <-]. apply Hr. }
  destruct (decide (ak_DefaultAnswer a = "")) as [Hd|Hd].
  2: { unfold ask_execute in He. rewrite Ha, Hl, bool_decide_eq_false_2 in He by done. injection He as <- <-.
       match goal with |- context [answered_ask ?h ?r ?n ?t ?v ?x ?p] => destruct (answered_ask_answers r n t v x p) as (-> & -> & _) end. split_and!; try done. naive_solver. }
  destruct (askQuestion json_error a) as [q|e] eqn:Hq.
  2: { unfold ask_execute in He. rewrite Ha, Hl, bool_decide_eq_true_2, Hq in He by done. injection He as <- <-. cbn.
       split_and!; try done. naive_solver. }
  destruct (Pending b now run (n_id nd) q).2 as [e|] eqn:Hp.
  - unfold ask_execute in He. rewrite Ha, Hl, bool_decide_eq_true_2, Hq in He by done. cbn [negb] in He.
    pose proof (Pending_no_answer b now run (n_id nd) q) as Hna.
    destruct (Pending b now run (n_id nd) q) as [b1 e1]. cbn in Hp, Hna. subst e1. injection He as <- <-. cbn.
    split_and!; try done; [naive_solver|by eexists].
  - rewrite (ask_parks b now run nd a q Ha Hl Hd Hq Hp) in He. injection He as <- <-. cbn.
    rewrite lookup_empty. split_and!; try done.
    + rewrite bool_decide_eq_false_2 by (by intros []). naive_solver.
    + intros _. split_and!; try done.
      * exists q. split; [done|]. by apply askQuestion_valid in Hq as [? _].
      * intros now'. rewrite (ask_parks _ now' run nd a q Ha); [by rewrite Pending_twice| |done..|by rewrite Pending_twice].
        by rewrite Pending_no_answer.
    + by eexists.
    + intros. apply Pending_no_answer.
Qed.
End AskFire.

(** Whatever a person types reaches the ask as that text. *)
Lemma typed_answer b now node text nd a json_error now' :
  Answered (rb_registry b) (NodeAskID (rb_runID b) node) = None ->
  match Get (rb_registry b) (NodeAskID (rb_runID b) node) with Some e => en_Status e = StatusPending | None => True end ->
  n_id nd = node -> n_attrs nd = AAsk a ->
  exists evs, (ask_execute json_error None (runAskBus_answer b now node text) now' (rb_runID b) nd).2 =
    OutOk {| r_Outputs := {["answer" := VStr text]}; r_Events := evs; r_Pause := false; r_PauseReason := ""; r_Backtrack := None |}.
Proof.
  intros _ Hp <- Ha. unfold runAskBus_answer. set (key := NodeAskID (rb_runID b) (n_id nd)) in *.
  assert (Answered (Resolve (park_node (rb_registry b) now (rb_runID b) (n_id nd) zero_question).1 key (TextAnswer text)).1 key
          = Some (TextAnswer text)) as Hans.
  { destruct (park_node_cases (rb_registry b) now (rb_runID b) (n_id nd) zero_question) as [(e & He & ->)|(s & _ & Hs & _ & He)].
    - fold key in He. rewrite He in Hp. unfold Get in He. unfold Answered, Resolve, with_pending. cbn [fst].
      destruct (rg_entries (rb_registry b) !! key) as [s|]; [|done]. injection He as ->.
      rewrite bool_decide_eq_true_2 by done. cbn. by rewrite lookup_insert_eq.
    - unfold Answered, Resolve, with_pending. rewrite He. fold key. rewrite lookup_insert_eq, bool_decide_eq_true_2 by done.
      cbn. by rewrite lookup_insert_eq. }
  unfold ask_execute. rewrite Ha. cbn [LookupAnswer runAskBus_AskBus rb_runID rb_registry]. unfold or_own. cbn [rb_runID].
  replace (if bool_decide (rb_runID b = "") then rb_runID b else rb_runID b) with (rb_runID b) by (by case_bool_decide).
  fold key. rewrite Hans. eexists. reflexivity.
Qed.

Definition d_ask_node : Node :=
  {| n_id := "q"; n_kind := NodeKindAsk; n_title := ""; n_inputs := []; n_outputs := [];
     n_attrs := AAsk {| ak_DefaultAnswer := ""; ak_Question := "Which?"; ak_QuestionKind := "radio";
                        ak_QuestionSpec := [("options", JArr [JObj [("label", JStr "A"); ("value", JStr "a")]])] |};
     n_dials := [] |}.

(** The question parks once, and the fire after the answer yields it. *)
Lemma ask_waits_for_answer_witness :
  let fire := ask_execute (fun _ => "") None in
  let b1 := (fire NewMemAskBus 1%Z "r1" d_ask_node).1 in
  paused (fire NewMemAskBus 1%Z "r1" d_ask_node).2 = true /\ fire b1 7%Z "r1" d_ask_node = (b1, (fire NewMemAskBus 1%Z "r1" d_ask_node).2).
Proof.
  cbn zeta. split; [vm_compute; reflexivity|].
  destruct (ask_waits_for_answer (fun _ => "") None NewMemAskBus (ask_execute (fun _ => "") None NewMemAskBus 1%Z "r1" d_ask_node).1
    1%Z "r1" d_ask_node {| ak_DefaultAnswer := ""; ak_Question := "Which?"; ak_QuestionKind := "radio";
       ak_QuestionSpec := [("options", JArr [JObj [("label", JStr "A"); ("value", JStr "a")]])] |}
    (ask_execute (fun _ => "") None NewMemAskBus 1%Z "r1" d_ask_node).2) as (_ & _ & Hp & _); [reflexivity|vm_compute; reflexivity|].
  apply Hp. vm_compute. reflexivity.
Defined.
