(* ===== verification/Fork.v ===== *)
(** Fan-out and collection (core/agentgraph/exec_control.go): the [parallel] executor as
    a transition system over its goroutines, and the [join] executor.  A step starts one
    target under the semaphore or lets one running target finish, so every interleaving
    is a sequence of steps; what a target's executor returns is an argument. *)
From S2P Require Import Prelude GoString Utf8 AgentGraph EventLog RunState Kernel Containers.

(** * Parallel *)

Definition parallel_concurrency (a : ParallelAttrs) : nat :=
  Z.to_nat (if (pa_MaxConcurrency a <=? 0)%Z then 4 else pa_MaxConcurrency a).

(** [ps_next] counts the targets the loop is past; the other fields are what the
    goroutines share. *)
Record ParState := {
  ps_next : nat; ps_running : list nat;
  ps_results : gmap nat PortValues; ps_errs : gmap nat KErr; ps_events : EventBatch
}.

Definition par_init : ParState := {| ps_next := 0; ps_running := []; ps_results := ∅; ps_errs := ∅; ps_events := [] |}.

Inductive par_act :=
| ParStart                              (* the semaphore grants a slot *)
| ParCancelled (e : KErr)               (* [Acquire] returns the context's error *)
| ParFinish (i : nat) (o : Outcome).    (* target [i] is through; its executor returned [o] *)

Section Parallel.
(** The graph, the run and [resolveRegistry(env).lookup]: the error when a kind has no
    executor. *)
Context (g : Graph) (run : string) (lookup : string -> option KErr).

Definition par_stamp (target : string) (e : Event) : Event :=
  {| ev_Seq := ev_Seq e; ev_RunID := run; ev_NodeID := target; ev_Kind := ev_Kind e; ev_Payload := ev_Payload e |}.

(** What the goroutine of a target ends with; [o] only counts when there is an executor
    to run. *)
Definition target_outcome (target : string) (o : Outcome) : Outcome :=
  match lookupNode g target with
  | None => OutErr [] (plain_err ("parallel: unknown target " +:+ fmt_q target))
  | Some t => match lookup (n_kind t) with Some e => OutErr [] e | None => o end
  end.

Definition par_record (s : ParState) (i : nat) (target : string) (o : Outcome) : ParState :=
  let running := List.filter (fun j => negb (Nat.eqb i j)) (ps_running s) in
  match o with
  | OutOk r => {| ps_next := ps_next s; ps_running := running; ps_results := <[i := r_Outputs r]> (ps_results s);
                  ps_errs := ps_errs s; ps_events := ps_events s ++ map (par_stamp target) (r_Events r) |}
  | OutErr _ e => {| ps_next := ps_next s; ps_running := running; ps_results := ps_results s;
                     ps_errs := <[i := e]> (ps_errs s); ps_events := ps_events s |}
  end.

Definition par_step (a : ParallelAttrs) (act : par_act) (s : ParState) : option ParState :=
  match act with
  | ParStart =>
      if bool_decide (ps_next s < length (pa_Targets a)) && bool_decide (length (ps_running s) < parallel_concurrency a)
      then Some {| ps_next := S (ps_next s); ps_running := ps_running s ++ [ps_next s]; ps_results := ps_results s;
                   ps_errs := ps_errs s; ps_events := ps_events s |}
      else None
  | ParCancelled e =>
      if bool_decide (ps_next s < length (pa_Targets a))
      then Some {| ps_next := S (ps_next s); ps_running := ps_running s; ps_results := ps_results s;
                   ps_errs := <[ps_next s := e]> (ps_errs s); ps_events := ps_events s |}
      else None
  | ParFinish i o =>
      if bool_decide (i ∈ ps_running s)
      then match pa_Targets a !! i with
           | Some target => Some (par_record s i target (target_outcome target o))
           | None => None
           end
      else None
  end.

Fixpoint par_run (a : ParallelAttrs) (acts : list par_act) (s : ParState) : option ParState :=
  match acts with
  | [] => Some s
  | act :: acts => match par_step a act s with Some s => par_run a acts s | None => None end
  end.

(** The loop is through and [wg.Wait] returns. *)
Definition par_done (a : ParallelAttrs) (s : ParState) : bool :=
  bool_decide (ps_next s = length (pa_Targets a)) && bool_decide (ps_running s = []).

Definition ports (m : PortValues) : list (string * value) := map_to_list m.

(** What [Execute] returns once the goroutines are through: the error of the first
    target in target order that failed, or the outputs in target order. *)
Definition par_result (a : ParallelAttrs) (s : ParState) : Outcome :=
  let order := seq 0 (length (pa_Targets a)) in
  match head (omap (fun i => ps_errs s !! i) order) with
  | Some e => OutErr (ps_events s) e
  | None => OutOk {| r_Outputs := {["out" := VPortsList (map (fun i => ports (default ∅ (ps_results s !! i))) order)]};
                     r_Events := ps_events s; r_Pause := false; r_PauseReason := ""; r_Backtrack := None |}
  end.

(** The guards before the fan-out. *)
Definition parallel_guard (node : Node) : result ParallelAttrs KErr :=
  match n_attrs node with
  | AParallel a =>
      match pa_Targets a with
      | [] => Err (plain_err ("parallel: node " +:+ fmt_q (n_id node) +:+ ": no targets"))
      | _ => Ok a
      end
  | _ => Err (plain_err ("parallel: node " +:+ fmt_q (n_id node) +:+ " has wrong attrs type"))
  end.

(** [parallelExecutor.Execute] along one schedule; [None] when the schedule is not one
    of a whole call. *)
Definition parallel_execute (node : Node) (schedule : list par_act) : option Outcome :=
  match parallel_guard node with
  | Err e => Some (OutErr [] e)
  | Ok a =>
      match par_run a schedule par_init with
      | Some s => if par_done a s then Some (par_result a s) else None
      | None => None
      end
  end.
End Parallel.

(** * Join *)

(** [joinExecutor.Execute]; a node without recorded outputs reads as an empty map. *)
Definition join_pick (st : RunState) (from : string) : value :=
  let out := Outputs st from in
  match out !! "out" with
  | Some v => v
  | None => match out !! "response" with Some v => v | None => VPorts (ports out) end
  end.

Definition join_execute (st : RunState) (node : Node) : Outcome :=
  match n_attrs node with
  | AJoin a => OutOk {| r_Outputs := {["out" := VList (map (join_pick st) (jo_From a))]}; r_Events := [];
                        r_Pause := false; r_PauseReason := ""; r_Backtrack := None |}
  | _ => OutErr [] (plain_err ("join: node " +:+ fmt_q (n_id node) +:+ " has wrong attrs type"))
  end.

(** * Every schedule *)

Lemma filter_other_length (i : nat) l : i ∈ l -> length (List.filter (fun j => negb (Nat.eqb i j)) l) < length l.
Proof.
  induction l as [|j l IH]; intros Hi; [by apply not_elem_of_nil in Hi|]. cbn.
  destruct (Nat.eqb_spec i j) as [->|Hne]; cbn.
  - pose proof (List.filter_length_le (fun j' => negb (Nat.eqb j j')) l). lia.
  - apply elem_of_cons in Hi as [?|Hi]; [done|]. specialize (IH Hi). lia.
Qed.

Lemma elem_of_filter_other (i j : nat) l : j ∈ List.filter (fun j => negb (Nat.eqb i j)) l <-> j ∈ l /\ j <> i.
Proof. rewrite elem_of_filter_bool, negb_true_iff, Nat.eqb_neq. naive_solver. Qed.

Lemma filter_other_nodup (i : nat) l : NoDup l -> NoDup (List.filter (fun j => negb (Nat.eqb i j)) l).
Proof. rewrite !NoDup_ListNoDup. apply List.NoDup_filter. Qed.

Lemma filter_other_perm (i : nat) l : NoDup l -> i ∈ l -> i :: List.filter (fun j => negb (Nat.eqb i j)) l ≡ₚ l.
Proof.
  intros Hd Hi. apply NoDup_Permutation; [|done|].
  - apply NoDup_cons. split; [|by apply filter_other_nodup]. rewrite elem_of_filter_other. intros [_ Hx]; by apply Hx.
  - intros j. rewrite elem_of_cons, elem_of_filter_other. destruct (decide (j = i)); naive_solver.
Qed.

Section ParallelFacts.
Context (g : Graph) (run : string) (lookup : string -> option KErr) (a : ParallelAttrs).
Let n := length (pa_Targets a).

Lemma concurrency_pos : 0 < parallel_concurrency a.
Proof. unfold parallel_concurrency. case_match; lia. Qed.

(** Work left: two units per target not reached, one per target running. *)
Definition par_left (s : ParState) : nat := 2 * (n - ps_next s) + length (ps_running s).

Record par_inv (s : ParState) : Prop := {
  pv_next : ps_next s <= n;
  pv_slots : length (ps_running s) <= parallel_concurrency a;
  pv_range : forall i, i ∈ ps_running s -> i < ps_next s;
  pv_nodup : NoDup (ps_running s)
}.

Lemma par_record_running s i target o :
  ps_running (par_record run s i target o) = List.filter (fun j => negb (Nat.eqb i j)) (ps_running s) /\
  ps_next (par_record run s i target o) = ps_next s.
Proof. by destruct o. Qed.

Lemma par_step_inv act s s' : par_inv s -> par_step g run lookup a act s = Some s' ->
  par_inv s' /\ par_left s' < par_left s.
Proof.
  unfold par_step, par_left. intros [Hn Hs Hr Hd] He. destruct act as [|e|i o].
  - case_match eqn:Hb; [|done]. injection He as <-. apply andb_true_iff in Hb as [H1%bool_decide_eq_true H2%bool_decide_eq_true].
    split; [split; cbn|cbn]; rewrite ?length_app; cbn [length]; try lia.
    + intros i [Hi|Hi%list_elem_of_singleton]%elem_of_app; [apply Hr in Hi; lia|lia].
    + apply NoDup_app. split_and!; [done| |apply NoDup_singleton].
      intros i Hi Hi'%list_elem_of_singleton. apply Hr in Hi. lia.
  - case_match eqn:Hb; [|done]. injection He as <-. apply bool_decide_eq_true in Hb. fold n in Hb.
    split; [split; cbn; try done; try lia|cbn; lia]. intros i Hi%Hr. lia.
  - case_match eqn:Hb; [|done]. apply bool_decide_eq_true in Hb. destruct (pa_Targets a !! i) as [t|]; [|done].
    injection He as <-. destruct (par_record_running s i t (target_outcome g lookup t o)) as [H1 H2].
    apply filter_other_length in Hb as Hl. split; [split|]; rewrite ?H1, ?H2; try lia.
    + intros j [Hj _]%elem_of_filter_other. by apply Hr.
    + by apply filter_other_nodup.
Qed.

Lemma par_init_inv : par_inv par_init.
Proof. split; [apply Nat.le_0_l|apply Nat.le_0_l|intros i Hi; by apply not_elem_of_nil in Hi|apply NoDup_nil_2]. Qed.

Lemma par_run_inv acts : forall s s', par_inv s -> par_run g run lookup a acts s = Some s' ->
  par_inv s' /\ length acts + par_left s' <= par_left s.
Proof.
  induction acts as [|act acts IH]; intros s s' Hi He; cbn in He; [injection He as <-; split; [done|apply Nat.le_refl]|].
  destruct (par_step g run lookup a act s) as [s1|] eqn:Hs; [|done].
  destruct (par_step_inv _ _ _ Hi Hs) as [Hi1 Hl1]. destruct (IH _ _ Hi1 He) as [Hi2 Hl2]. cbn [length]. split; [done|lia].
Qed.

(** A state that is not through can move. *)
Lemma par_progress s o : par_inv s -> par_done a s = false ->
  exists act s', par_step g run lookup a act s = Some s' /\ (act = ParStart \/ exists i, act = ParFinish i o).
Proof.
  intros [Hn Hs Hr Hd] Hf. unfold par_done in Hf. destruct (ps_running s) as [|i l] eqn:Hrun.
  - rewrite (bool_decide_eq_true_2 (@nil nat = [])), andb_true_r in Hf by done. apply bool_decide_eq_false in Hf. fold n in Hf.
    exists ParStart. unfold par_step. rewrite Hrun, !bool_decide_eq_true_2; [|cbn; pose proof concurrency_pos; lia|fold n; lia].
    eexists. split; [done|by left].
  - assert (i < length (pa_Targets a)) as Hi by (fold n; specialize (Hr i ltac:(left)); lia).
    destruct (lookup_lt_is_Some_2 _ _ Hi) as [t Ht].
    exists (ParFinish i o). unfold par_step. rewrite Hrun, bool_decide_eq_true_2 by left. rewrite Ht. eexists. split; [done|]. right. by eexists.
Qed.
End ParallelFacts.

(** * The outcome *)

Section ParallelOutcome.
Context (g : Graph) (run : string) (lookup : string -> option KErr) (a : ParallelAttrs) (oracle : nat -> Outcome).
Let n := length (pa_Targets a).

(** Nothing is cancelled, and target [i] returns what the oracle says, whenever it runs. *)
Definition follows (act : par_act) : Prop :=
  match act with ParStart => True | ParCancelled _ => False | ParFinish i o => o = oracle i end.

Definition target_at (i : nat) : string := default "" (pa_Targets a !! i).
Definition outcome_at (i : nat) : Outcome := target_outcome g lookup (target_at i) (oracle i).
Definition outputs_of (o : Outcome) : option PortValues := match o with OutOk r => Some (r_Outputs r) | OutErr _ _ => None end.
Definition error_of (o : Outcome) : option KErr := match o with OutOk _ => None | OutErr _ e => Some e end.
Definition events_at (i : nat) : EventBatch :=
  match outcome_at i with OutOk r => map (par_stamp run (target_at i)) (r_Events r) | OutErr _ _ => [] end.

(** What is recorded is what the targets that are through returned. *)
Record par_ghost (finished : list nat) (s : ParState) : Prop := {
  pg_split : finished ++ ps_running s ≡ₚ seq 0 (ps_next s);
  pg_events : ps_events s = flat_map events_at finished;
  pg_results : forall i, i ∈ finished -> ps_results s !! i = outputs_of (outcome_at i);
  pg_errs : forall i, i ∈ finished -> ps_errs s !! i = error_of (outcome_at i);
  pg_fresh : forall i, i ∉ finished -> ps_results s !! i = None /\ ps_errs s !! i = None
}.

Lemma par_record_ghost finished s i t : par_ghost finished s -> NoDup (ps_running s) -> i ∈ ps_running s ->
  pa_Targets a !! i = Some t -> i ∉ finished ->
  par_ghost (finished ++ [i]) (par_record run s i t (target_outcome g lookup t (oracle i))).
Proof.
  intros [Hsp He Hr Hx Hf] Hd Hi Ht Hnf. destruct (Hf i Hnf) as [Hri Hei].
  assert (target_outcome g lookup t (oracle i) = outcome_at i) as -> by (unfold outcome_at, target_at; by rewrite Ht).
  assert (events_at i = match outcome_at i with OutOk r => map (par_stamp run t) (r_Events r) | OutErr _ _ => [] end) as Hev
    by (unfold events_at, target_at; by rewrite Ht).
  destruct (par_record_running run s i t (outcome_at i)) as [Hr1 Hr2].
  split.
  - rewrite Hr1, Hr2, <- app_assoc, <- Hsp. f_equiv. by apply filter_other_perm.
  - rewrite flat_map_app. cbn. rewrite app_nil_r, Hev, <- He. destruct (outcome_at i); cbn; [done|by rewrite app_nil_r].
  - intros j [Hj|Hj%list_elem_of_singleton]%elem_of_app.
    + assert (j <> i) by naive_solver. destruct (outcome_at i); cbn; rewrite ?lookup_insert_ne by done; by apply Hr.
    + subst j. destruct (outcome_at i); cbn; [by rewrite lookup_insert_eq|done].
  - intros j [Hj|Hj%list_elem_of_singleton]%elem_of_app.
    + assert (j <> i) by naive_solver. destruct (outcome_at i); cbn; rewrite ?lookup_insert_ne by done; by apply Hx.
    + subst j. destruct (outcome_at i); cbn; [done|by rewrite lookup_insert_eq].
  - intros j Hj. rewrite elem_of_app, list_elem_of_singleton in Hj.
    destruct (outcome_at i); cbn; rewrite ?lookup_insert_ne by naive_solver; apply Hf; naive_solver.
Qed.

Lemma par_step_ghost act finished s s' : par_inv a s -> follows act -> par_ghost finished s ->
  par_step g run lookup a act s = Some s' -> exists finished', par_ghost finished' s'.
Proof.
  intros [_ _ _ Hd] Hfo Hg. destruct act as [|e|i o]; cbn in Hfo; [|done|subst o]; unfold par_step; case_match eqn:Hb; try done.
  - intros [= <-]. exists finished. destruct Hg as [Hsp He Hr Hx Hf]. split; try done.
    cbn [ps_next ps_running]. rewrite seq_S, app_assoc, Hsp. done.
  - destruct (pa_Targets a !! i) as [t|] eqn:Ht; [|done]. intros [= <-]. apply bool_decide_eq_true in Hb.
    exists (finished ++ [i]). apply par_record_ghost; try done.
    intros Hif. assert (NoDup (finished ++ ps_running s)) as Hnd by (rewrite (pg_split _ _ Hg), NoDup_ListNoDup; apply List.seq_NoDup).
    apply NoDup_app in Hnd as (_ & Hnd & _). by apply (Hnd i).
Qed.

Lemma par_run_ghost acts : forall finished s s', par_inv a s -> Forall follows acts -> par_ghost finished s ->
  par_run g run lookup a acts s = Some s' -> exists finished', par_ghost finished' s'.
Proof.
  induction acts as [|act acts IH]; intros finished s s' Hi Hfo Hg He; cbn in He; [injection He as <-; by eexists|].
  apply Forall_cons_1 in Hfo as [Hf Hfo]. destruct (par_step g run lookup a act s) as [s1|] eqn:Hs; [|done].
  destruct (par_step_ghost _ _ _ _ Hi Hf Hg Hs) as [f1 Hg1]. eapply IH; [|done..]. by eapply par_step_inv.
Qed.

Lemma par_init_ghost : par_ghost [] par_init.
Proof. split; [done|done|intros i Hi; by apply not_elem_of_nil in Hi..|done]. Qed.

Lemma omap_map_ext {A B C} (f : A -> option C) (h : A -> B) (k : B -> option C) l :
  (forall x, x ∈ l -> f x = k (h x)) -> omap f l = omap k (map h l).
Proof.
  induction l as [|x l IH]; intros Hx; [done|]. cbn. rewrite (Hx x) by left.
  destruct (k (h x)); [f_equal|]; apply IH; intros; apply Hx; by right.
Qed.

Lemma all_outputs (outs : list Outcome) : omap error_of outs = [] ->
  map (fun o => default ∅ (outputs_of o)) outs = omap outputs_of outs.
Proof.
  induction outs as [|[r|evs e] outs IH]; intros He; [done| |done]. cbn. f_equal. by apply IH.
Qed.

(** The outcome and the events of a call, whatever the schedule. *)
Lemma par_result_spec acts s :
  par_run g run lookup a acts par_init = Some s -> Forall follows acts -> par_done a s = true ->
  let outs := map outcome_at (seq 0 n) in
  ps_events s ≡ₚ flat_map events_at (seq 0 n) /\
  par_result a s =
    match head (omap error_of outs) with
    | Some e => OutErr (ps_events s) e
    | None => OutOk {| r_Outputs := {["out" := VPortsList (map ports (omap outputs_of outs))]}; r_Events := ps_events s;
                       r_Pause := false; r_PauseReason := ""; r_Backtrack := None |}
    end.
Proof.
  intros Hrun Hfo Hd. destruct (par_run_ghost acts [] par_init s (par_init_inv a) Hfo par_init_ghost Hrun) as [fin Hg].
  unfold par_done in Hd. apply andb_true_iff in Hd as [Hn%bool_decide_eq_true Hr%bool_decide_eq_true].
  destruct Hg as [Hsp He Hres Herr _]. rewrite Hr, app_nil_r, Hn in Hsp. fold n in Hsp, Hn. cbn zeta.
  assert (forall i, i ∈ seq 0 n -> i ∈ fin) as Hin by (intros i; by rewrite Hsp).
  split; [rewrite He; by apply Permutation_flat_map|].
  unfold par_result. fold n.
  rewrite (omap_map_ext (fun i => ps_errs s !! i) outcome_at error_of) by (intros i Hi; by apply Herr, Hin).
  destruct (omap error_of (map outcome_at (seq 0 n))) as [|e es] eqn:Hes; cbn [head]; [|done].
  do 3 f_equal. rewrite <- all_outputs by done. rewrite !map_map. f_equal. apply map_ext_in. intros i Hi%list_elem_of_In.
  by rewrite Hres by by apply Hin.
Qed.
End ParallelOutcome.

(** The targets run one after the other, in target order. *)
Definition sequential_result (g : Graph) (run : string) (lookup : string -> option KErr) (a : ParallelAttrs)
    (oracle : nat -> Outcome) : Outcome :=
  let order := seq 0 (length (pa_Targets a)) in
  let outs := map (outcome_at g lookup a oracle) order in
  let evs := flat_map (events_at g run lookup a oracle) order in
  match head (omap error_of outs) with
  | Some e => OutErr evs e
  | None => OutOk {| r_Outputs := {["out" := VPortsList (map ports (omap outputs_of outs))]}; r_Events := evs;
                     r_Pause := false; r_PauseReason := ""; r_Backtrack := None |}
  end.

(** Equal but for the order of the events. *)
Inductive same_outcome : Outcome -> Outcome -> Prop :=
| same_ok r r' : r_Outputs r = r_Outputs r' -> r_Events r ≡ₚ r_Events r' -> r_Pause r = r_Pause r' ->
    r_PauseReason r = r_PauseReason r' -> r_Backtrack r = r_Backtrack r' -> same_outcome (OutOk r) (OutOk r')
| same_err evs evs' e : evs ≡ₚ evs' -> same_outcome (OutErr evs e) (OutErr evs' e).

(** Whatever the schedule of its goroutines, a parallel ends as if its targets had
    run one after the other in target order, but for the order of the events: the same
    error, that of the first target in the list that failed, or the same outputs in the
    order of the list.  It never pauses and never rewinds, whatever its targets ask for. *)
Theorem parallel_schedule_irrelevant g run lookup a oracle node schedule o :
  n_attrs node = AParallel a -> pa_Targets a <> [] -> Forall (follows oracle) schedule ->
  parallel_execute g run lookup node schedule = Some o ->
  same_outcome o (sequential_result g run lookup a oracle) /\
  match o with OutOk r => r_Pause r = false /\ r_Backtrack r = None | OutErr _ _ => True end.
Proof.
  intros Ha Ht Hf He. unfold parallel_execute, parallel_guard in He. rewrite Ha in He.
  destruct (pa_Targets a) as [|t ts] eqn:Hts; [done|].
  destruct (par_run g run lookup a schedule par_init) as [s|] eqn:Hs; [|done].
  destruct (par_done a s) eqn:Hd; [|done]. injection He as <-.
  destruct (par_result_spec g run lookup a oracle schedule s Hs Hf Hd) as [Hev ->].
  unfold sequential_result. destruct (head _) as [e|]; split; try done; by constructor.
Qed.

(** A parallel never has more targets running than its concurrency (4 when unset),
    a call takes at most two steps per target, and until it is through some target can
    be started or is running. *)
Theorem parallel_bounded_and_ends g run lookup a schedule s :
  par_run g run lookup a schedule par_init = Some s ->
  length (ps_running s) <= parallel_concurrency a /\ length schedule <= 2 * length (pa_Targets a) /\
  (par_done a s = false -> forall o, exists act s', par_step g run lookup a act s = Some s' /\
     (act = ParStart \/ exists i, act = ParFinish i o)).
Proof.
  intros Hs. destruct (par_run_inv g run lookup a schedule par_init s (par_init_inv a) Hs) as [Hi Hl].
  split; [by apply (pv_slots a s)|]. split; [|intros Hd o; by apply par_progress].
  unfold par_left in Hl. cbn [par_init ps_next ps_running length] in Hl. lia.
Qed.

(** * A fan-out of three with two slots *)

Definition d_target (id : string) : Node :=
  {| n_id := id; n_kind := "model"; n_title := ""; n_inputs := []; n_outputs := []; n_attrs := AOther; n_dials := [] |}.
Definition d_parallel : ParallelAttrs := {| pa_FanOut := 0; pa_MaxConcurrency := 2; pa_Targets := ["x"; "y"; "z"] |}.
Definition d_fan : Node :=
  {| n_id := "p"; n_kind := "parallel"; n_title := ""; n_inputs := []; n_outputs := []; n_attrs := AParallel d_parallel; n_dials := [] |}.
Definition d_fan_graph : Graph :=
  {| g_spec_version := "1"; g_dials := []; g_id := "fan"; g_nodes := [d_fan; d_target "x"; d_target "y"; d_target "z"];
     g_edges := []; g_entrypoints := ["p"] |}.
(** Target y asks the run to pause. *)
Definition d_oracle (i : nat) : Outcome :=
  OutOk {| r_Outputs := {["out" := VInt (Z.of_nat i)]}; r_Events := AppendKind [] "" "" "trace" [("i", VInt (Z.of_nat i))];
           r_Pause := Nat.eqb i 1; r_PauseReason := ""; r_Backtrack := None |}.
(** z ends before y does. *)
Definition d_schedule : list par_act :=
  [ParStart; ParStart; ParFinish 0 (d_oracle 0); ParStart; ParFinish 2 (d_oracle 2); ParFinish 1 (d_oracle 1)].

Lemma parallel_schedule_irrelevant_witness :
  same_outcome (default (OutErr [] (plain_err "")) (parallel_execute d_fan_graph "r1" (fun _ => None) d_fan d_schedule))
    (sequential_result d_fan_graph "r1" (fun _ => None) d_parallel d_oracle) /\
  match parallel_execute d_fan_graph "r1" (fun _ => None) d_fan d_schedule with
  | Some (OutOk r) => r_Outputs r !! "out" = Some (VPortsList [[("out", VInt 0)]; [("out", VInt 1)]; [("out", VInt 2)]])
  | _ => False
  end.
Proof.
  split; [|vm_compute; reflexivity].
  apply (parallel_schedule_irrelevant d_fan_graph "r1" (fun _ => None) d_parallel d_oracle d_fan d_schedule);
    [reflexivity|discriminate|by repeat constructor|vm_compute; reflexivity].
Defined.

Lemma parallel_bounded_and_ends_witness :
  match par_run d_fan_graph "r1" (fun _ => None) d_parallel (take 4 d_schedule) par_init with
  | Some s => length (ps_running s) <= 2
  | None => False
  end.
Proof.
  destruct (par_run d_fan_graph "r1" (fun _ => None) d_parallel (take 4 d_schedule) par_init) as [s|] eqn:Hs.
  - apply (parallel_bounded_and_ends _ _ _ _ _ _ Hs).
  - vm_compute in Hs. discriminate.
Defined.

(** A join over the targets finds nothing: a parallel records no outputs for them. *)
Example join_misses_targets :
  let st := SetOutputs NewRunState "p" {["out" := VPortsList [[("out", VInt 0)]]]} in
  join_execute st {| n_id := "j"; n_kind := "join"; n_title := ""; n_inputs := []; n_outputs := [];
                     n_attrs := AJoin {| jo_From := ["x"; "y"]; jo_Order := "" |}; n_dials := [] |} =
  OutOk {| r_Outputs := {["out" := VList [VPorts []; VPorts []]]}; r_Events := []; r_Pause := false;
           r_PauseReason := ""; r_Backtrack := None |}.
Proof. vm_compute. reflexivity. Qed.
