(* ===== verification/ToolArgs.v ===== *)
(** What surrounds one tool call (core/agentgraph): reading the model's calls and their
    arguments (exec_dispatch.go), checking them against a schema (tool_validation.go),
    the hint appended to failures (envdrift.go), the outcome class
    (tool_call_observer.go) and the passive tools (core/toolloop/iteration.go). *)
From S2P Require Import Prelude GoString Utf8 Json AgentGraph EventLog RunState Kernel Branch.
From Stdlib Require Import Ascii.

(** A decoded argument object: a Go map, given by the members it was decoded from; of
    several with one name the last counts. *)
Abbreviation Args := (list (string * json)).

(** * Arguments *)

Definition parseToolArgs (raw : string) : Args * string :=
  if bool_decide (TrimSpace raw = "") then ([], "{}")
  else match Unmarshal raw with
       | Some (JObj l) => (l, raw)
       | _ => ([("_raw", JStr raw)], raw)
       end.

(** [json.Unmarshal] into a map: null leaves it nil. *)
Definition unmarshal_object (text : string) : option Args :=
  match Unmarshal text with
  | Some (JObj l) => Some l
  | Some JNull => Some []
  | _ => None
  end.

(** * Validation *)

(** The type switch of [checkJSONType]; [None] is a type it does not know. *)
Definition json_type_ok (want : string) (j : json) : option bool :=
  if bool_decide (want = "string") then Some (match j with JStr _ => true | _ => false end)
  else if bool_decide (want = "number") || bool_decide (want = "integer") then Some (match j with JNum _ => true | _ => false end)
  else if bool_decide (want = "boolean") then Some (match j with JBool _ => true | _ => false end)
  else if bool_decide (want = "array") then Some (match j with JArr _ => true | _ => false end)
  else if bool_decide (want = "object") then Some (match j with JObj _ => true | _ => false end)
  else if bool_decide (want = "null") then Some (match j with JNull => true | _ => false end)
  else None.

Definition checkJSONType (propName wantType : string) (actual : json) (toolName : string) : string :=
  match json_type_ok wantType actual with
  | Some false =>
      "Tool " +:+ fmt_q toolName +:+ " parameter " +:+ fmt_q propName +:+ " has the wrong type (expected " +:+ wantType +:+
      "). Please correct the parameter type and retry."
  | _ => ""
  end.

(** The names a schema requires; entries that are no strings are passed over. *)
Definition required_names (schema : Args) : list string :=
  match member "required" schema with
  | Some (JArr l) => omap (fun j => match j with JStr s => Some s | _ => None end) l
  | _ => []
  end.

Definition has_member (args : Args) (name : string) : bool := bool_decide (is_Some (member name args)).

(** The properties with a declared type, in the order of the text; a Go map walks them in
    any order, so of several type errors the code may name another one first.  Whether
    there is one does not depend on the order. *)
Definition typed_properties (schema : Args) : list (string * string) :=
  match member "properties" schema with
  | Some (JObj props) =>
      omap (fun name =>
        match member name props with
        | Some (JObj p) => match member "type" p with Some (JStr t) => Some (name, t) | _ => None end
        | _ => None
        end) (remove_dups props.*1)
  | _ => []
  end.

Fixpoint first_type_error (args : Args) (toolName : string) (props : list (string * string)) : string :=
  match props with
  | [] => ""
  | (name, want) :: props =>
      match member name args with
      | None => first_type_error args toolName props
      | Some v => match checkJSONType name want v toolName with
                  | "" => first_type_error args toolName props
                  | msg => msg
                  end
      end
  end.

Section Validate.
(** The text of a JSON decoding error. *)
Context (json_error : string -> string).

Definition validateToolArgs (rawArgs toolName schemaJSON : string) : string :=
  let trimmed := TrimSpace rawArgs in
  if bool_decide (trimmed = "") || bool_decide (trimmed = "{}") || bool_decide (trimmed = "null") then ""
  else
    match unmarshal_object rawArgs with
    | None =>
        "Tool " +:+ fmt_q toolName +:+ " received non-JSON arguments (expected a JSON object). Error: " +:+
        json_error rawArgs +:+ ". Please retry with a valid JSON object."
    | Some args =>
        if bool_decide (schemaJSON = "") then ""
        else match unmarshal_object schemaJSON with
             | None => ""
             | Some schema =>
                 match List.filter (fun n => negb (has_member args n)) (required_names schema) with
                 | _ :: _ as missing =>
                     "Tool " +:+ fmt_q toolName +:+ " is missing required parameter(s): " +:+ Join missing ", " +:+
                     ". Please include all required parameters and retry."
                 | [] => first_type_error args toolName (typed_properties schema)
                 end
             end
    end.
End Validate.

(** * Failures *)

Record environmentDriftSignature := { ds_substr : string; ds_hint : string }.

Definition environmentDriftSignatures : list environmentDriftSignature :=
  [{| ds_substr := "no such file or directory";
      ds_hint := "Environment-drift hint: the path may no longer exist. List the parent directory to confirm before retrying." |};
   {| ds_substr := "permission denied";
      ds_hint := "Environment-drift hint: access may have been revoked or was never granted. Request access or check permissions before retrying." |};
   {| ds_substr := "not found";
      ds_hint := "Environment-drift hint: the referenced resource may no longer exist. Re-list or re-query before retrying." |}].

Fixpoint drift_hint (lower : string) (sigs : list environmentDriftSignature) : option string :=
  match sigs with
  | [] => None
  | s :: sigs => if Contains lower (ds_substr s) then Some (ds_hint s) else drift_hint lower sigs
  end.

Definition AppendEnvironmentDriftHint (content : string) : string :=
  if bool_decide (content = "") then content
  else match drift_hint (ToLower content) environmentDriftSignatures with
       | Some hint => content +:+ nl +:+ nl +:+ hint
       | None => content
       end.

(** What [env.Tools.Call] returns besides the result: the text, and what [errors.Is]
    finds in it. *)
Record CallError := { ce_msg : string; ce_deadline : bool; ce_canceled : bool }.

Definition ToolOutcomeOK : string := "ok".
Definition ToolOutcomeError : string := "error".
Definition ToolOutcomeDenied : string := "denied".
Definition ToolOutcomeCancelled : string := "cancelled".

(** [ctxDone]: the run's own context has ended. *)
Definition deriveToolOutcome (ctxDone : bool) (tr : ToolResult) (callErr : option CallError) : string :=
  match callErr with
  | Some e => if ctxDone || ce_canceled e then ToolOutcomeCancelled else ToolOutcomeError
  | None =>
      if negb (bool_decide (tr_Outcome tr = "")) then tr_Outcome tr
      else if tr_IsError tr then if ctxDone then ToolOutcomeCancelled else ToolOutcomeError
      else ToolOutcomeOK
  end.

(** * Passive tools *)

(** The set at startup; [RegisterPassiveTool] adds to it. *)
Definition passiveToolNames : gset string := {["kenaz__sleep"]}.
Definition RegisterPassiveTool (names : gset string) (tool : string) : gset string := {[tool]} ∪ names.
Definition IsPassiveTool (names : gset string) (tool : string) : bool := bool_decide (tool ∈ names).
Definition ShouldCountIteration (names : gset string) (tool : string) : bool := negb (IsPassiveTool names tool).

Definition chargeToolIteration (passive : gset string) (c : RunCounters) (tool : string) : RunCounters :=
  if ShouldCountIteration passive tool then AddTool c else c.

(** * The calls a model emitted *)

(** A boxed call that is no [ToolCallRequest] goes through JSON: an object's members are
    matched with the fields without case, null is the zero call, and anything else, or a
    member of another type, is an error. *)
Definition into_text (old : string) (v : value) : option string :=
  match v with VStr s => Some s | VNil => Some old | _ => None end.
Definition into_flag (old : bool) (v : value) : option bool :=
  match v with VBool b => Some b | VNil => Some old | _ => None end.

Definition call_field (c : option ToolCallRequest) (kv : string * value) : option ToolCallRequest :=
  c ← c;
  let '(k, v) := kv in
  let '{| tq_ID := i; tq_Name := n; tq_Arguments := a; tq_IsError := e |} := c in
  if EqualFold k "ID" then (fun i => {| tq_ID := i; tq_Name := n; tq_Arguments := a; tq_IsError := e |}) <$> into_text i v
  else if EqualFold k "Name" then (fun n => {| tq_ID := i; tq_Name := n; tq_Arguments := a; tq_IsError := e |}) <$> into_text n v
  else if EqualFold k "Arguments" then (fun a => {| tq_ID := i; tq_Name := n; tq_Arguments := a; tq_IsError := e |}) <$> into_text a v
  else if EqualFold k "IsError" then (fun e => {| tq_ID := i; tq_Name := n; tq_Arguments := a; tq_IsError := e |}) <$> into_flag e v
  else Some c.

Definition zero_call : ToolCallRequest := {| tq_ID := ""; tq_Name := ""; tq_Arguments := ""; tq_IsError := false |}.

Section Calls.
(** Re-encoding and decoding a struct value, and the error text of a failed decoding. *)
Context (decode_struct : value -> option ToolCallRequest) (decode_error : value -> string).

Definition decode_call (v : value) : option ToolCallRequest :=
  match v with
  | VToolCall c => Some c
  | VNil => Some zero_call
  | VMap l | VPorts l => foldl call_field (Some zero_call) l
  | VStr _ | VBool _ | VInt _ | VFloat _ | VList _ | VMessages _ | VToolCalls _ | VToolResults _ | VPortsList _ => None
  | VMessage _ | VOther _ => decode_struct v
  end.

Fixpoint decode_calls (i : nat) (l : list value) : result (list ToolCallRequest) string :=
  match l with
  | [] => Ok []
  | v :: l =>
      match decode_call v with
      | None => Err ("tool_calls[" +:+ fmt_d (Z.of_nat i) +:+ "]: decode: " +:+ decode_error v)
      | Some c => match decode_calls (S i) l with Ok cs => Ok (c :: cs) | Err e => Err e end
      end
  end.

Definition extractToolCalls (inputs : PortValues) : result (list ToolCallRequest) string :=
  match inputs !! "tool_calls" with
  | None | Some VNil => Ok []
  | Some (VToolCalls l) => Ok l
  | Some (VList l) => decode_calls 0 l
  | Some v => Err ("tool_calls: unsupported input type " +:+ type_name v)
  end.
End Calls.

Definition copy_port (inp : PortValues) (k : string) (out : PortValues) : PortValues :=
  match inp !! k with Some v => <[k := v]> out | None => out end.

Definition passthroughAssistant (inp out : PortValues) : PortValues :=
  let out := copy_port inp "assistant" out in
  let out := match inp !! "assistant" with Some (VMessage m) => <["assistant_text" := VStr (m_content m)]> out | _ => out end in
  copy_port inp "finish_reason" (copy_port inp "response" out).

(** * What validation accepts *)

Lemma app_nonempty_l (a b : string) : a <> "" -> a +:+ b <> "".
Proof. by destruct a. Qed.

Lemma checkJSONType_ok name want v tool : checkJSONType name want v tool = "" <-> json_type_ok want v <> Some false.
Proof. unfold checkJSONType. destruct (json_type_ok want v) as [[]|]; split; intros H; try done; by exfalso. Qed.

Lemma first_type_error_ok args tool props : first_type_error args tool props = "" <->
  forall name want v, (name, want) ∈ props -> member name args = Some v -> json_type_ok want v <> Some false.
Proof.
  induction props as [|[name want] props IH]; cbn.
  { split; [|done]. intros _ ? ? ? H. by apply not_elem_of_nil in H. }
  destruct (member name args) as [v|] eqn:Hm.
  - destruct (checkJSONType name want v tool) as [|c s] eqn:Hc.
    + rewrite IH. apply checkJSONType_ok in Hc. split; [|intros H ? ? ? ?; apply H; by right].
      intros H n w v' [[= -> ->]|Hin]%elem_of_cons; [congruence|]. by apply H.
    + split; [done|]. intros H. specialize (H name want v ltac:(left) Hm). apply checkJSONType_ok with (name := name) (tool := tool) in H. congruence.
  - rewrite IH. split; [|intros H ? ? ? ?; apply H; by right].
    intros H n w v' [[= -> ->]|Hin]%elem_of_cons; [congruence|]. by apply H.
Qed.

Lemma missing_none args names : List.filter (fun n => negb (has_member args n)) names = [] <->
  forall n, n ∈ names -> is_Some (member n args).
Proof.
  induction names as [|n names IH]; cbn.
  { split; [|done]. intros _ n H. by apply not_elem_of_nil in H. }
  unfold has_member at 1. case_bool_decide as Hn; cbn.
  - rewrite IH. split; [|intros H m Hm; apply H; by right]. intros H m [-> |Hm]%elem_of_cons; [done|by apply H].
  - split; [done|]. intros H. destruct Hn. apply H. left.
Qed.

(** The arguments satisfy the part of the schema that is read. *)
Definition satisfies (schema args : Args) : Prop :=
  (forall n, n ∈ required_names schema -> is_Some (member n args)) /\
  (forall n want v, (n, want) ∈ typed_properties schema -> member n args = Some v -> json_type_ok want v <> Some false).

(** Validation passes a call exactly when its argument text is blank, "{}" or
    "null", or parses as an object and, where the tool has a schema that parses, has all
    required members and no member of a type other than declared. *)
Theorem validation_accepts_iff json_error raw tool schema :
  validateToolArgs json_error raw tool schema = "" <->
  TrimSpace raw = "" \/ TrimSpace raw = "{}" \/ TrimSpace raw = "null" \/
  exists args, unmarshal_object raw = Some args /\
    (schema = "" \/ unmarshal_object schema = None \/ exists sch, unmarshal_object schema = Some sch /\ satisfies sch args).
Proof.
  unfold validateToolArgs.
  destruct (bool_decide (TrimSpace raw = "") || bool_decide (TrimSpace raw = "{}") || bool_decide (TrimSpace raw = "null")) eqn:Hb.
  { rewrite !orb_true_iff, !bool_decide_eq_true in Hb. naive_solver. }
  rewrite !orb_false_iff, !bool_decide_eq_false in Hb. destruct Hb as [[H1 H2] H3].
  destruct (unmarshal_object raw) as [args|] eqn:Hraw.
  2: { split; [intros H; by apply app_nonempty_l in H|naive_solver]. }
  case_bool_decide as Hs; [split; [|done]; intros _; do 3 right; exists args; by auto|].
  destruct (unmarshal_object schema) as [sch|] eqn:Hsch; [|split; [|done]; intros _; do 3 right; exists args; by auto].
  assert (satisfies sch args <->
    match List.filter (fun n => negb (has_member args n)) (required_names sch) with [] => first_type_error args tool (typed_properties sch) = "" | _ => False end) as Hsat.
  { unfold satisfies. rewrite <- missing_none. destruct (List.filter _ _); [|naive_solver]. rewrite first_type_error_ok. naive_solver. }
  destruct (List.filter _ _) as [|m ms].
  - rewrite <- Hsat. naive_solver.
  - split; [intros H; by apply app_nonempty_l in H|naive_solver].
Qed.

Definition d_schema : string :=
  of_list (print_json (JObj [("properties", JObj [("path", JObj [("type", JStr "string")])]); ("required", JArr [JStr "path"])])).

(** An empty object passes although the schema requires a member, while the same
    object with a blank in it is rejected. *)
Theorem empty_object_skips_required :
  validateToolArgs (fun _ => "") "{}" "read" d_schema = "" /\
  validateToolArgs (fun _ => "") "{ }" "read" d_schema <> "" /\
  exists sch, unmarshal_object d_schema = Some sch /\ required_names sch = ["path"].
Proof.
  split; [vm_compute; reflexivity|]. split; [vm_compute; discriminate|].
  eexists. split; vm_compute; reflexivity.
Qed.

(** * The hint *)

Lemma drift_hint_in lower sigs hint : drift_hint lower sigs = Some hint ->
  exists s, s ∈ sigs /\ Contains lower (ds_substr s) = true /\ ds_hint s = hint.
Proof.
  induction sigs as [|s sigs IH]; [done|]. cbn. destruct (Contains lower (ds_substr s)) eqn:Hc.
  - intros [= <-]. exists s. split; [left|done].
  - intros (s' & Hs & ?)%IH. exists s'. split; [by right|done].
Qed.

(** A hint is only ever appended, and only to a text with a known signature. *)
Lemma hint_appends content :
  AppendEnvironmentDriftHint content = content \/
  exists s, s ∈ environmentDriftSignatures /\ Contains (ToLower content) (ds_substr s) = true /\
    AppendEnvironmentDriftHint content = content +:+ nl +:+ nl +:+ ds_hint s.
Proof.
  unfold AppendEnvironmentDriftHint. case_bool_decide; [by left|]. destruct (drift_hint _ _) as [h|] eqn:Hh; [|by left].
  right. apply drift_hint_in in Hh as (s & Hs & Hc & <-). by exists s.
Qed.
