(* ===== verification/Dispatch.v ===== *)
(** The [tool_dispatch] executor (core/agentgraph/exec_dispatch.go) with the shared steps
    around a tool call (tool_invocation.go): the calls a model emitted run in goroutines
    under a limit, the mutating ones one at a time.  A step runs one goroutine up to the
    next point where it touches what the others share: the call history, the mutation
    lock, the counters.  What policy, hooks, tools and the archive do is an argument. *)
From S2P Require Import Prelude GoString Utf8 ToolOutput Json AgentGraph EventLog RunState Kernel Branch ToolArgs Gates.
Open Scope nat_scope.

Definition NodeKindToolDispatch : string := "tool_dispatch".
Definition EventToolCall : string := "tool_call".
Definition EventToolResult : string := "tool_result".
Definition EventDoomLoopDetected : string := "doom_loop_detected".
Definition EventHookDenied : string := "hook.denied".
Definition EventHookInputRewrite : string := "hook.input_rewrite".
Definition EventFileRead : string := "file_read".
Definition EventFileWrite : string := "file_write".

(** * What the calls find around them *)

(** What the executor reads of the environment.  [de_marshal] is [json.Marshal] of an
    argument map, [de_stat] what the file system says of a path: its absolute form, hash,
    modification time and size. *)
Record DispatchEnv := {
  de_run : string; de_budget : Budget; de_schemas : gmap string string; de_mutating : gset string;
  de_passive : gset string; de_cap : ToolResultCap; de_timeout : string;
  de_json_error : string -> string; de_doomLoopKey : string -> Args -> string; de_marshal : Args -> string;
  de_stat : string -> option (string * string * string * Z)
}.

(** The part of a hook's merged output that acts on the call. *)
Record HookMerged := { hm_Blocked : bool; hm_BlockReason : string; hm_UpdatedInput : string }.

Inductive CallReturn :=
| CallBack (tr : ToolResult) (err : option CallError)
| CallPanics (msg : string).

(** What one call meets: the policy's denial; the memory hook's events; the
    pre_tool_use hooks, when there are any and they did not fail; the tool; whether the
    run's context has ended when it returns; the archive, when there is one; the output
    a post_tool_use hook substitutes; the memory hook's events on the result. *)
Record Ext := {
  x_policy : option string; x_preFire : EventBatch; x_preHook : option HookMerged;
  x_call : CallReturn; x_ctxDone : bool; x_archive : option (result string string);
  x_postHook : option string; x_postFire : string -> EventBatch
}.

Record dispatchOutcome := {
  oc_call : ToolCallRequest; oc_rawArgs : string; oc_result : ToolResult; oc_err : option string;
  oc_events : EventBatch; oc_doomLoop : option Z; oc_outcome : string; oc_observed : string
}.

Definition error_result (content : string) : ToolResult := {| tr_Content := content; tr_IsError := true; tr_Outcome := "" |}.

(** * Events *)

(** [toolCallContext.eventPayload] *)
Definition eventPayload (c : ToolCallRequest) (extra : list (string * value)) : list (string * value) :=
  ("tool", VStr (tq_Name c)) :: extra ++
  (if bool_decide (tq_ID c = "") then [] else [("call_id", VStr (tq_ID c))]) ++ [("node_kind", VStr NodeKindToolDispatch)].

(** [appendRunScoped]: an event keeps the ids it has. *)
Definition run_scoped (run node : string) (e : Event) : Event :=
  {| ev_Seq := ev_Seq e; ev_RunID := if bool_decide (ev_RunID e = "") then run else ev_RunID e;
     ev_NodeID := if bool_decide (ev_NodeID e = "") then node else ev_NodeID e; ev_Kind := ev_Kind e;
     ev_Payload := ev_Payload e |}.

Section Dispatch.
Context (e : DispatchEnv) (node : string).
Let run := de_run e.

Definition error_event (c : ToolCallRequest) (msg : string) (extra : list (string * value)) : EventBatch :=
  AppendKind [] run node EventNodeError ([("err", VStr msg); ("tool", VStr (tq_Name c)); ("call_id", VStr (tq_ID c))] ++ extra).

(** * Before the call *)

Definition doom_threshold : Z :=
  let t := b_DoomLoopThreshold (de_budget e) in if (t <=? 0)%Z then DoomLoop.DefaultDoomLoopThreshold else t.

Definition doom_hit (repeats : Z) : option Z := if (doom_threshold <=? repeats)%Z then Some repeats else None.

Definition doom_events (c : ToolCallRequest) (repeats : Z) : EventBatch :=
  match doom_hit repeats with
  | Some n => AppendKind [] run node EventDoomLoopDetected
                [("tool", VStr (tq_Name c)); ("call_id", VStr (tq_ID c)); ("repeats", VInt n); ("threshold", VInt doom_threshold)]
  | None => []
  end.

(** Why a call does not reach the tool: its result, class and error. *)
Record Rejection := { rj_result : ToolResult; rj_outcome : string; rj_err : option string }.

(** What a call that does reach it is dispatched with. *)
Record Cleared := { cl_args : Args; cl_argsJSON : string; cl_rawArgs : string }.

(** [toolPreDispatch] *)
Definition toolPreDispatch (c : ToolCallRequest) (args : Args) (rawArgs : string) (x : Ext) : EventBatch * (Rejection + Cleared) :=
  let evs := map (run_scoped run node) (x_preFire x) ++
             AppendKind [] run node EventToolCall (eventPayload c [("args", json_value (JObj args))]) in
  let argsJSON := de_marshal e args in
  let pass := {| cl_args := args; cl_argsJSON := argsJSON; cl_rawArgs := rawArgs |} in
  match x_preHook x with
  | None => (evs, inr pass)
  | Some m =>
      if hm_Blocked m then
        (AppendKind evs run node EventHookDenied (eventPayload c [("reason", VStr (hm_BlockReason m))]),
         inl {| rj_result := error_result ("hook_denied: " +:+ hm_BlockReason m); rj_outcome := ToolOutcomeDenied; rj_err := None |})
      else if bool_decide (hm_UpdatedInput m = "") then (evs, inr pass)
      else match unmarshal_object (hm_UpdatedInput m) with
           | None => (evs, inr pass)
           | Some args' =>
               (AppendKind evs run node EventHookInputRewrite
                  (eventPayload c [("original", VStr argsJSON); ("rewritten", VStr (hm_UpdatedInput m))]),
                inr {| cl_args := args'; cl_argsJSON := hm_UpdatedInput m; cl_rawArgs := hm_UpdatedInput m |})
           end
  end.

(** The gates of [dispatchOne], in order: unreadable arguments, the schema, the policy,
    the hooks. *)
Definition gates (c : ToolCallRequest) (x : Ext) : EventBatch * (Rejection + Cleared) :=
  let '(args, rawArgs) := parseToolArgs (tq_Arguments c) in
  if has_member args "_raw" then
    let msg := "Tool " +:+ fmt_q (tq_Name c) +:+ " received non-JSON arguments that could not be parsed as a JSON object. Please provide a valid JSON object as arguments." in
    (error_event c msg [],
     inl {| rj_result := error_result msg; rj_outcome := ToolOutcomeError; rj_err := Some ("tool_dispatch: " +:+ msg) |})
  else
    let msg := validateToolArgs (de_json_error e) (tq_Arguments c) (tq_Name c) (default "" (de_schemas e !! tq_Name c)) in
    if negb (bool_decide (msg = "")) then
      (error_event c msg [],
       inl {| rj_result := error_result msg; rj_outcome := ToolOutcomeError; rj_err := Some ("tool_dispatch: validation: " +:+ msg) |})
    else match x_policy x with
         | Some d => (error_event c d [("reason", VStr "policy_denied")],
                      inl {| rj_result := error_result ("tool denied by policy: " +:+ d); rj_outcome := ToolOutcomeDenied; rj_err := Some d |})
         | None => toolPreDispatch c args rawArgs x
         end.

Definition rejected (c : ToolCallRequest) (repeats : Z) (evs : EventBatch) (r : Rejection) : dispatchOutcome :=
  {| oc_call := c; oc_rawArgs := (parseToolArgs (tq_Arguments c)).2; oc_result := rj_result r; oc_err := rj_err r;
     oc_events := doom_events c repeats ++ evs; oc_doomLoop := doom_hit repeats; oc_outcome := rj_outcome r; oc_observed := "" |}.

(** A call past the gates: what is recorded so far. *)
Definition cleared (c : ToolCallRequest) (repeats : Z) (evs : EventBatch) (cl : Cleared) : dispatchOutcome :=
  {| oc_call := c; oc_rawArgs := cl_rawArgs cl; oc_result := {| tr_Content := ""; tr_IsError := false; tr_Outcome := "" |};
     oc_err := None; oc_events := doom_events c repeats ++ evs; oc_doomLoop := doom_hit repeats; oc_outcome := "";
     oc_observed := "" |}.

(** * After the call *)

Definition fsToolProvenanceKinds : list (string * (string * string)) :=
  [("kenaz__read_file", (EventFileRead, "Read::file")); ("kenaz__write_file", (EventFileWrite, "Write::file"))].

Definition provenance_kind (tool : string) : option (string * string) :=
  snd <$> List.find (fun kv => bool_decide (kv.1 = tool)) fsToolProvenanceKinds.

(** The decoded field [path]; [None] when the text does not decode or the path is empty. *)
Definition path_argument (argsJSON : string) : option string :=
  match json_valid argsJSON with
  | Some (JObj l) =>
      match foldl (fun acc kv => a ← acc; if EqualFold kv.1 "path" then into_string a kv.2 else Some a) (Some "") l with
      | Some (String _ _ as p) => Some p
      | _ => None
      end
  | _ => None
  end.

Definition appendFSToolProvenance (c : ToolCallRequest) (argsJSON : string) (tr : ToolResult) : EventBatch :=
  match provenance_kind (tq_Name c), tr_IsError tr, path_argument argsJSON with
  | Some (kind, action), false, Some path =>
      match de_stat e path with
      | Some (abs, hash, mtime, size) =>
          AppendKind [] run node kind
            [("path", VStr abs); ("sha256", VStr hash); ("mtime", VStr mtime); ("size_bytes", VInt size);
             ("state_action", VStr action); ("tool", VStr (tq_Name c))]
      | None => []
      end
  | _, _, _ => []
  end.

(** [toolPostDispatch] on a call that returned without an error; with one it changes
    nothing and writes nothing. *)
Definition toolPostDispatch (c : ToolCallRequest) (argsJSON : string) (tr : ToolResult) (callErr : option CallError)
    (extra : list (string * value)) (x : Ext) : ToolResult * EventBatch :=
  match callErr with
  | Some _ => (tr, [])
  | None =>
      let evs := AppendKind [] run node EventToolResult
                   (eventPayload c ([("is_error", VBool (tr_IsError tr)); ("bytes", VInt (Z.of_nat (String.length (tr_Content tr))))] ++ extra)) ++
                 appendFSToolProvenance c argsJSON tr in
      match x_postHook x with
      | None => (tr, evs)
      | Some upd =>
          if bool_decide (upd = "") then (tr, evs)
          else match unmarshal_string upd with
               | None => (tr, evs)
               | Some s => ({| tr_Content := s; tr_IsError := tr_IsError tr; tr_Outcome := tr_Outcome tr |}, evs)
               end
      end
  end.

(** The result as the model is to see it: a timeout and a failed dispatch become error
    results. *)
Definition wrap_result (c : ToolCallRequest) (tr : ToolResult) (callErr : option CallError) : ToolResult :=
  match callErr with
  | None => tr
  | Some err =>
      if ce_deadline err
      then error_result ("tool " +:+ fmt_q (tq_Name c) +:+ " timed out after " +:+ de_timeout e +:+
                         " — the operation did not complete within the allowed window")
      else error_result (AppendEnvironmentDriftHint (ce_msg err))
  end.

Definition trunc_extra (original : Z) (elided : Z) (handle : string) (archiveErr : option string) : list (string * value) :=
  if (elided <=? 0)%Z then []
  else [("truncated", VBool true); ("bytes_original", VInt original); ("bytes_elided", VInt elided)] ++
       (if bool_decide (handle = "") then [] else [("output_handle", VStr handle)]) ++
       match archiveErr with Some a => [("archive_err", VStr a)] | None => [] end.

(** From the tool's return to the end of [dispatchOne]. *)
Definition settle (c : ToolCallRequest) (oc : dispatchOutcome) (argsJSON : string) (tr : ToolResult)
    (callErr : option CallError) (x : Ext) : dispatchOutcome :=
  let outcome := deriveToolOutcome (x_ctxDone x) tr callErr in
  let tr := wrap_result c tr callErr in
  let errEvs := match callErr with Some err => error_event c (ce_msg err) [] | None => [] end in
  let observed := tr_Content tr in
  let archive := match x_archive x with Some r => Some (fun _ _ (u : unit) => (u, r)) | None => None end in
  let '(_, (capped, elided, handle, archiveErr)) :=
    capToolOutput (de_cap e) archive {| to_RunID := run; to_NodeID := node; to_Tool := tq_Name c; to_CallID := tq_ID c |}
      (tr_Content tr) () in
  let original := bytes (tr_Content tr) in
  let tr := if (0 <? elided)%Z then {| tr_Content := capped; tr_IsError := tr_IsError tr; tr_Outcome := tr_Outcome tr |} else tr in
  let '(tr, postEvs) := toolPostDispatch c argsJSON tr callErr (trunc_extra original elided handle archiveErr) x in
  let hookEvs := if bool_decide (tr_Content tr = "") then [] else map (run_scoped run node) (x_postFire x (tr_Content tr)) in
  {| oc_call := c; oc_rawArgs := oc_rawArgs oc; oc_result := tr; oc_err := ce_msg <$> callErr;
     oc_events := oc_events oc ++ errEvs ++ postEvs ++ hookEvs; oc_doomLoop := oc_doomLoop oc; oc_outcome := outcome;
     oc_observed := observed |}.

(** The recovery of [safeDispatchOne] from a panic of the tool. *)
Definition recovered (c : ToolCallRequest) (oc : dispatchOutcome) (msg : string) : dispatchOutcome :=
  {| oc_call := c; oc_rawArgs := oc_rawArgs oc; oc_result := error_result ("tool panicked: " +:+ msg);
     oc_err := Some ("tool " +:+ fmt_q (tq_Name c) +:+ " panicked: " +:+ msg);
     oc_events := oc_events oc ++ error_event c ("panic: " +:+ msg) []; oc_doomLoop := oc_doomLoop oc;
     oc_outcome := ToolOutcomeError; oc_observed := oc_observed oc |}.
End Dispatch.

(** * The goroutines *)

(** Where the goroutine of a call stands. *)
Inductive DPhase :=
| DcBegun                                                  (* started *)
| DcReady (oc : dispatchOutcome) (argsJSON : string)       (* past the gates; the lock not taken *)
| DcCalling (oc : dispatchOutcome) (argsJSON : string)     (* inside the tool *)
| DcReturned (oc : dispatchOutcome) (argsJSON : string) (tr : ToolResult) (err : option CallError).

(** [dt_next] counts the calls launched; [dt_lock] is the holder of the mutation lock;
    [dt_reports] is what [reportToolCall] was given, in order. *)
Record DState := {
  dt_next : nat; dt_live : gmap nat DPhase; dt_lock : option nat;
  dt_run : RunState; dt_counters : RunCounters;
  dt_outcomes : gmap nat dispatchOutcome; dt_reports : list (nat * string)
}.

Inductive DAct :=
| DLaunch                      (* the group has a place for the next call *)
| DBegin (i : nat) (x : Ext)   (* the gates *)
| DEnter (i : nat)             (* the tool is called, under the lock if it mutates *)
| DReturn (i : nat) (x : Ext)  (* the tool returns, or panics and the recovery runs *)
| DFinish (i : nat) (x : Ext). (* the rest *)

Section Steps.
Context (e : DispatchEnv) (node : string) (calls : list ToolCallRequest) (limit : nat).

Definition set_live (s : DState) (live : gmap nat DPhase) : DState :=
  {| dt_next := dt_next s; dt_live := live; dt_lock := dt_lock s; dt_run := dt_run s; dt_counters := dt_counters s;
     dt_outcomes := dt_outcomes s; dt_reports := dt_reports s |}.

Definition set_lock (s : DState) (l : option nat) : DState :=
  {| dt_next := dt_next s; dt_live := dt_live s; dt_lock := l; dt_run := dt_run s; dt_counters := dt_counters s;
     dt_outcomes := dt_outcomes s; dt_reports := dt_reports s |}.

(** The goroutine ends: its outcome stands, and the observer is told of it. *)
Definition end_call (s : DState) (i : nat) (oc : dispatchOutcome) : DState :=
  {| dt_next := dt_next s; dt_live := delete i (dt_live s); dt_lock := dt_lock s; dt_run := dt_run s;
     dt_counters := dt_counters s; dt_outcomes := <[i := oc]> (dt_outcomes s);
     dt_reports := dt_reports s ++ [(i, if bool_decide (oc_outcome oc = "") then ToolOutcomeError else oc_outcome oc)] |}.

Definition isMutating (c : ToolCallRequest) : bool := bool_decide (tq_Name c ∈ de_mutating e).

Definition begin_call (s : DState) (i : nat) (c : ToolCallRequest) (x : Ext) : DState :=
  let '(rs, repeats) := RecordToolCall (de_doomLoopKey e) (dt_run s) (tq_Name c) (parseToolArgs (tq_Arguments c)).1 in
  let s := {| dt_next := dt_next s; dt_live := dt_live s; dt_lock := dt_lock s; dt_run := rs; dt_counters := dt_counters s;
              dt_outcomes := dt_outcomes s; dt_reports := dt_reports s |} in
  match gates e node c x with
  | (evs, inl r) => end_call s i (rejected e node c repeats evs r)
  | (evs, inr cl) => set_live s (<[i := DcReady (cleared e node c repeats evs cl) (cl_argsJSON cl)]> (dt_live s))
  end.

Definition dstep (a : DAct) (s : DState) : option DState :=
  match a with
  | DLaunch =>
      if bool_decide (dt_next s < length calls) && bool_decide (size (dt_live s) < limit)
      then Some {| dt_next := S (dt_next s); dt_live := <[dt_next s := DcBegun]> (dt_live s); dt_lock := dt_lock s;
                   dt_run := dt_run s; dt_counters := dt_counters s; dt_outcomes := dt_outcomes s; dt_reports := dt_reports s |}
      else None
  | DBegin i x =>
      match dt_live s !! i, calls !! i with
      | Some DcBegun, Some c => Some (begin_call s i c x)
      | _, _ => None
      end
  | DEnter i =>
      match dt_live s !! i, calls !! i with
      | Some (DcReady oc aj), Some c =>
          let s' := set_live s (<[i := DcCalling oc aj]> (dt_live s)) in
          if isMutating c then match dt_lock s with None => Some (set_lock s' (Some i)) | Some _ => None end
          else Some s'
      | _, _ => None
      end
  | DReturn i x =>
      match dt_live s !! i, calls !! i with
      | Some (DcCalling oc aj), Some c =>
          match x_call x with
          | CallPanics msg => Some (end_call s i (recovered e node c oc msg))
          | CallBack tr err =>
              let s := if isMutating c then set_lock s None else s in
              Some (set_live s (<[i := DcReturned oc aj tr err]> (dt_live s)))
          end
      | _, _ => None
      end
  | DFinish i x =>
      match dt_live s !! i, calls !! i with
      | Some (DcReturned oc aj tr err), Some c =>
          let s := {| dt_next := dt_next s; dt_live := dt_live s; dt_lock := dt_lock s; dt_run := dt_run s;
                      dt_counters := chargeToolIteration (de_passive e) (dt_counters s) (tq_Name c);
                      dt_outcomes := dt_outcomes s; dt_reports := dt_reports s |} in
          Some (end_call s i (settle e node c oc aj tr err x))
      | _, _ => None
      end
  end.

Fixpoint druns (acts : list DAct) (s : DState) : option DState :=
  match acts with
  | [] => Some s
  | a :: acts => match dstep a s with Some s => druns acts s | None => None end
  end.

Definition ddone (s : DState) : bool := bool_decide (dt_next s = length calls) && bool_decide (dt_live s = ∅).

Definition dinit (rs : RunState) (cs : RunCounters) : DState :=
  {| dt_next := 0; dt_live := ∅; dt_lock := None; dt_run := rs; dt_counters := cs; dt_outcomes := ∅; dt_reports := [] |}.
End Steps.

(** * The executor *)

(** The limit of the group; a single call, or [max_concurrent] = 1, runs in line. *)
Definition dispatch_limit (a : ToolDispatchAttrs) (calls : list ToolCallRequest) : nat :=
  if bool_decide (1 < length calls) && negb (td_MaxConcurrent a =? 1)%Z then
    let m := if (td_MaxConcurrent a <=? 0)%Z then 4%Z else td_MaxConcurrent a in
    Z.to_nat (if (16 <? m)%Z then 16 else m)
  else 1.

(** The outputs when the model called nothing. *)
Definition no_calls (inputs : PortValues) : Result :=
  {| r_Outputs := passthroughAssistant inputs
       (<["tool_results" := VToolResults []]> (<["messages" := VMessages []]> (<["tool_messages" := VMessages []]>
          {["tool_call_count" := VInt 0]})));
     r_Events := []; r_Pause := false; r_PauseReason := ""; r_Backtrack := None |}.

Definition tool_message (oc : dispatchOutcome) : Message :=
  {| m_role := "tool"; m_content := tr_Content (oc_result oc); m_name := tq_Name (oc_call oc);
     m_tool_call_id := tq_ID (oc_call oc); m_tool_calls := []; m_is_error := tr_IsError (oc_result oc) |}.

Definition upstream_messages (inputs : PortValues) : list Message :=
  match inputs !! "response" with
  | Some (VMessages l) => l
  | Some (VList l) => omap (fun v => match v with VMessage m => Some m | _ => None end) l
  | _ => []
  end.

Definition doom_loop_hits (ocs : list dispatchOutcome) : list value :=
  omap (fun oc => match oc_doomLoop oc with
                  | Some n => Some (VMap [("tool", VStr (tq_Name (oc_call oc))); ("call_id", VStr (tq_ID (oc_call oc))); ("repeats", VInt n)])
                  | None => None
                  end) ocs.

(** The outcomes folded together, in the order of the calls. *)
Definition aggregate (inputs : PortValues) (ocs : list dispatchOutcome) : Result :=
  let hits := doom_loop_hits ocs in
  let outs : PortValues := match hits with
                           | [] => ∅
                           | _ => <["should_replan" := VBool true]> {["doom_loop_hits" := VList hits]}
                           end in
  let outs := <["tool_results" := VToolResults (map oc_result ocs)]> outs in
  let outs := <["messages" := VMessages (upstream_messages inputs ++ map tool_message ocs)]> outs in
  let outs := <["tool_messages" := VMessages (map tool_message ocs)]> outs in
  let outs := <["tool_call_count" := VInt (Z.of_nat (length ocs))]> outs in
  {| r_Outputs := passthroughAssistant inputs outs; r_Events := flat_map oc_events ocs; r_Pause := false;
     r_PauseReason := ""; r_Backtrack := None |}.

Definition unreached : dispatchOutcome :=
  {| oc_call := zero_call; oc_rawArgs := ""; oc_result := {| tr_Content := ""; tr_IsError := false; tr_Outcome := "" |};
     oc_err := None; oc_events := []; oc_doomLoop := None; oc_outcome := ""; oc_observed := "" |}.

Definition outcomes_of (n : nat) (s : DState) : list dispatchOutcome :=
  map (fun i => default unreached (dt_outcomes s !! i)) (seq 0 n).

Section Execute.
Context (decode_struct : value -> option ToolCallRequest) (decode_error : value -> string) (e : DispatchEnv).

(** The steps before the fan-out: what is returned without one, or the calls. *)
Definition dispatch_guard (node : Node) (inputs : PortValues) (cs : RunCounters) : Outcome + (ToolDispatchAttrs * list ToolCallRequest) :=
  match n_attrs node with
  | AToolDispatch a =>
      match extractToolCalls decode_struct decode_error inputs with
      | Err m => inl (OutErr [] (plain_err ("tool_dispatch: node " +:+ fmt_q (n_id node) +:+ ": " +:+ m)))
      | Ok [] => inl (OutOk (no_calls inputs))
      | Ok calls =>
          let cap := b_MaxToolCallsPerRun (de_budget e) in
          let used := rc_ToolCallsMade cs in
          if (0 <? cap)%Z && (cap <? used + Z.of_nat (length calls))%Z then
            inl (OutErr (AppendKind [] (de_run e) (n_id node) EventBudgetCapHit
                          [("reason", VStr "max_tool_calls_per_run"); ("limit", VInt cap); ("used", VInt used);
                           ("resume_token", VStr ""); ("pause_pending_cap_increase", VBool false)])
                   (budget_err "max_tool_calls_per_run" cap used))
          else inr (a, calls)
      end
  | _ => inl (OutErr [] (plain_err ("tool_dispatch: node " +:+ fmt_q (n_id node) +:+ " has wrong attrs type")))
  end.

(** [toolDispatchExecutor.Execute] along one schedule; [None] when the schedule is not
    one of a whole call. *)
Definition dispatch_execute (node : Node) (inputs : PortValues) (rs : RunState) (cs : RunCounters) (schedule : list DAct)
    : option (RunState * RunCounters * Outcome) :=
  match dispatch_guard node inputs cs with
  | inl o => Some (rs, cs, o)
  | inr (a, calls) =>
      match druns e (n_id node) calls (dispatch_limit a calls) schedule (dinit rs cs) with
      | Some s => if ddone calls s
                  then Some (dt_run s, dt_counters s, OutOk (aggregate inputs (outcomes_of (length calls) s)))
                  else None
      | None => None
      end
  end.
End Execute.
