(* ===== verification/DispatchProps.v ===== *)
(** What the dispatch of a turn's tool calls guarantees, over every schedule of its
    goroutines: mutating tools run one at a time, the results come back in the order of
    the calls, a denied call never reaches its tool, the tool-call cap holds, and the
    dispatch ends unless a mutating tool panics. *)
From S2P Require Import Prelude GoString Utf8 ToolOutput Json AgentGraph EventLog RunState Kernel Branch ToolArgs Gates Dispatch.
Open Scope nat_scope.

(** * Sums over the calls *)

Lemma sum_change {A} (f g : A -> nat) (l : list A) i :
  NoDup l -> i ∈ l -> (forall j, j <> i -> f j = g j) -> sum_list (map f l) + g i = sum_list (map g l) + f i.
Proof.
  intros Hd Hi He. induction Hd as [|j l Hj Hd IH]; [by apply not_elem_of_nil in Hi|]. cbn.
  apply elem_of_cons in Hi as [->|Hi].
  - assert (map f l = map g l) as ->; [|lia]. apply map_ext_in. intros k Hk%list_elem_of_In. apply He. congruence.
  - assert (j <> i) by congruence. specialize (IH Hi). rewrite (He j) by done. lia.
Qed.

Section Runs.
Context (e : DispatchEnv) (node : string) (calls : list ToolCallRequest) (limit : nat).
Let n := length calls.

Definition weight (p : option DPhase) : nat :=
  match p with
  | None => 0 | Some DcBegun => 4 | Some (DcReady _ _) => 3 | Some (DcCalling _ _) => 2 | Some (DcReturned _ _ _ _) => 1
  end.

Definition live_weight (m : gmap nat DPhase) : nat := sum_list (map (fun i => weight (m !! i)) (seq 0 n)).

(** Steps left at most. *)
Definition dleft (s : DState) : nat := 5 * (n - dt_next s) + live_weight (dt_live s).

Lemma live_weight_insert m i p : i < n -> live_weight (<[i := p]> m) + weight (m !! i) = live_weight m + weight (Some p).
Proof.
  intros Hi. unfold live_weight.
  pose proof (sum_change (fun j => weight (<[i := p]> m !! j)) (fun j => weight (m !! j)) (seq 0 n) i (NoDup_seq 0 n)) as H.
  cbn beta in H. rewrite lookup_insert_eq in H. apply H; [apply elem_of_seq; lia|].
  intros j Hj. by rewrite lookup_insert_ne.
Qed.

Lemma live_weight_delete m i : i < n -> live_weight (delete i m) + weight (m !! i) = live_weight m.
Proof.
  intros Hi. unfold live_weight.
  pose proof (sum_change (fun j => weight (delete i m !! j)) (fun j => weight (m !! j)) (seq 0 n) i (NoDup_seq 0 n)) as H.
  cbn beta in H. rewrite lookup_delete_eq in H. cbn [weight] in H. rewrite H; [lia|apply elem_of_seq; lia|].
  intros j Hj. by rewrite lookup_delete_ne.
Qed.

Definition mutating (i : nat) : Prop := exists c, calls !! i = Some c /\ isMutating e c = true.

(** The invariant of every reachable state. *)
Record dinv (s : DState) : Prop := {
  di_next : dt_next s <= n;
  di_live : forall i, is_Some (dt_live s !! i) -> i < dt_next s;
  di_ended : forall i, is_Some (dt_outcomes s !! i) <-> i < dt_next s /\ dt_live s !! i = None;
  di_slots : size (dt_live s) <= limit;
  di_lock : forall i oc aj, dt_live s !! i = Some (DcCalling oc aj) -> mutating i -> dt_lock s = Some i;
  di_holder : forall i, dt_lock s = Some i ->
    mutating i /\ ((exists oc aj, dt_live s !! i = Some (DcCalling oc aj)) \/ is_Some (dt_outcomes s !! i));
  di_reports : NoDup (map fst (dt_reports s)) /\ forall i, i ∈ map fst (dt_reports s) <-> is_Some (dt_outcomes s !! i)
}.

Lemma dinit_inv rs cs : dinv (dinit rs cs).
Proof.
  split; cbn; try done.
  - lia.
  - intros i [? H]. done.
  - intros i. split; [by intros []|lia].
  - rewrite map_size_empty. lia.
  - split; [constructor|]. intros i. split; [intros H; by apply not_elem_of_nil in H|by intros []].
Qed.

(** A live goroutine moves to another phase; the lock, the run state and the counters are
    given. *)
Lemma dinv_move s s' i p p' :
  dinv s -> dt_live s !! i = Some p -> dt_live s' = <[i := p']> (dt_live s) -> dt_next s' = dt_next s ->
  dt_outcomes s' = dt_outcomes s -> dt_reports s' = dt_reports s ->
  (forall j oc aj, dt_live s' !! j = Some (DcCalling oc aj) -> mutating j -> dt_lock s' = Some j) ->
  (forall j, dt_lock s' = Some j -> mutating j /\ ((exists oc aj, dt_live s' !! j = Some (DcCalling oc aj)) \/ is_Some (dt_outcomes s' !! j))) ->
  dinv s'.
Proof.
  intros [Hn Hl He Hs _ _ Hr] Hi Hlive Hnext Ho Hrep Hlock Hhold.
  split; rewrite ?Hnext, ?Ho, ?Hrep; try done.
  - intros j [q Hj]. rewrite Hlive in Hj. apply lookup_insert_Some in Hj as [[<- _]|[_ Hj]]; apply Hl; by eexists.
  - intros j. rewrite He, Hlive. destruct (decide (i = j)) as [<-|Hne].
    + rewrite lookup_insert_eq, Hi. split; intros [_ ?]; done.
    + by rewrite lookup_insert_ne.
  - rewrite Hlive, map_size_insert_Some; [done|by eexists].
  - by rewrite Ho in Hhold.
Qed.

(** A live goroutine ends; the lock is kept as it is. *)
Lemma dinv_end s i p oc :
  dinv s -> dt_live s !! i = Some p ->
  dinv (end_call s i oc).
Proof.
  intros [Hn Hl He Hs Hlock Hhold [Hnd Hrep]] Hi.
  assert (dt_outcomes s !! i = None) as Hno.
  { destruct (dt_outcomes s !! i) eqn:Ho; [|done]. assert (is_Some (dt_outcomes s !! i)) as Hso by by eexists.
    apply He in Hso as [_ ?]. congruence. }
  split; cbn.
  - done.
  - intros j [q Hj]. apply lookup_delete_Some in Hj as [_ Hj]. apply Hl. by eexists.
  - intros j. destruct (decide (i = j)) as [<-|Hne].
    + rewrite lookup_insert_eq, lookup_delete_eq. split; [|by eexists]. intros _. split; [|done]. apply Hl. by eexists.
    + rewrite lookup_insert_ne, lookup_delete_ne by done. apply He.
  - rewrite map_size_delete_Some by by eexists. lia.
  - intros j oc' aj Hj. apply lookup_delete_Some in Hj as [_ Hj]. by eapply Hlock.
  - intros j Hj. destruct (Hhold j Hj) as [Hm Hor]. split; [done|]. destruct (decide (i = j)) as [<-|Hne].
    + right. rewrite lookup_insert_eq. by eexists.
    + rewrite lookup_delete_ne, lookup_insert_ne by done. done.
  - rewrite map_app. cbn. split.
    + apply NoDup_app. split; [done|]. split; [|apply NoDup_singleton].
      intros j Hj Hj'%list_elem_of_singleton. subst j. apply Hrep in Hj as [? ?]. congruence.
    + intros j. rewrite elem_of_app, list_elem_of_singleton, Hrep. destruct (decide (i = j)) as [<-|Hne].
      * rewrite lookup_insert_eq. split; [by eexists|by right].
      * rewrite lookup_insert_ne by done. split; [by intros [?|?]|by left].
Qed.

Lemma dinv_env s s' : dinv s -> dt_next s' = dt_next s -> dt_live s' = dt_live s -> dt_lock s' = dt_lock s ->
  dt_outcomes s' = dt_outcomes s -> dt_reports s' = dt_reports s -> dinv s'.
Proof. intros [] H1 H2 H3 H4 H5. split; rewrite ?H1, ?H2, ?H3, ?H4, ?H5; done. Qed.

Lemma dinv_launch s : dinv s -> dt_next s < n -> size (dt_live s) < limit ->
  dinv {| dt_next := S (dt_next s); dt_live := <[dt_next s := DcBegun]> (dt_live s); dt_lock := dt_lock s;
          dt_run := dt_run s; dt_counters := dt_counters s; dt_outcomes := dt_outcomes s; dt_reports := dt_reports s |}.
Proof.
  intros [Hn Hl He Hs Hlock Hhold Hr] Hlt Hsz.
  assert (dt_live s !! dt_next s = None) as Hfresh.
  { destruct (dt_live s !! dt_next s) eqn:Hx; [|done]. assert (dt_next s < dt_next s); [|lia]. apply Hl. by eexists. }
  split; cbn; try done.
  - intros i [q Hi]. apply lookup_insert_Some in Hi as [[<- _]|[_ Hi]]; [lia|]. assert (i < dt_next s); [|lia]. apply Hl. by eexists.
  - intros i. rewrite He. destruct (decide (dt_next s = i)) as [<-|Hne].
    + rewrite lookup_insert_eq. split; [lia|]. by intros [_ ?].
    + rewrite lookup_insert_ne by done. split; intros [H1 H2]; (split; [lia|done]).
  - rewrite map_size_insert_None by done. lia.
  - intros i oc aj Hi. apply lookup_insert_Some in Hi as [[_ ?]|[_ Hi]]; [done|]. by eapply Hlock.
  - intros i Hi. destruct (Hhold i Hi) as [Hm [(oc & aj & Hc)|Ho]]; (split; [done|]); [|by right].
    left. exists oc, aj. rewrite lookup_insert_ne; [done|]. intros <-. congruence.
Qed.

Lemma not_mutating i c : calls !! i = Some c -> isMutating e c = false -> ~ mutating i.
Proof. intros Hc Hm (c' & Hc' & Hm'). congruence. Qed.

Lemma dstep_inv a s s' : dinv s -> dstep e node calls limit a s = Some s' -> dinv s'.
Proof.
  intros HI. pose proof HI as [Hn Hl He Hs Hlock Hhold Hr]. destruct a as [|i x|i|i x|i x]; cbn.
  - case_match eqn:Hb; [|done]. apply andb_true_iff in Hb as [H1%bool_decide_eq_true H2%bool_decide_eq_true].
    intros [= <-]. by apply dinv_launch.
  - destruct (dt_live s !! i) as [[]|] eqn:Hi; try done. destruct (calls !! i) as [c|] eqn:Hc; [|done]. intros [= <-].
    unfold begin_call. destruct (RecordToolCall _ _ _ _) as [rs repeats]. destruct (gates e node c x) as [evs [r|cl]].
    + eapply dinv_end; [by eapply dinv_env|done].
    + eapply dinv_move; [exact HI|exact Hi|reflexivity..| |]; cbn.
      * intros j oc aj [[_ ?]|[_ Hj]]%lookup_insert_Some; [done|]. by eapply Hlock.
      * intros j Hj. destruct (Hhold j Hj) as [Hm [(oc & aj & Hcj)|Ho]]; (split; [done|]); [|by right].
        left. exists oc, aj. rewrite lookup_insert_ne; [done|]. intros <-. congruence.
  - destruct (dt_live s !! i) as [[|oc aj| |]|] eqn:Hi; try done. destruct (calls !! i) as [c|] eqn:Hc; [|done].
    destruct (isMutating e c) eqn:Hm.
    + destruct (dt_lock s) as [h|] eqn:Hh; [done|]. intros [= <-].
      eapply dinv_move; [exact HI|exact Hi|reflexivity..| |]; cbn.
      * intros j oc' aj' [[<- _]|[_ Hj]]%lookup_insert_Some Hmj; [done|]. specialize (Hlock j _ _ Hj Hmj). congruence.
      * intros j [= <-]. split; [by exists c|]. left. rewrite lookup_insert_eq. by eauto.
    + intros [= <-]. eapply dinv_move; [exact HI|exact Hi|reflexivity..| |]; cbn.
      * intros j oc' aj' [[<- _]|[_ Hj]]%lookup_insert_Some Hmj; [by destruct (not_mutating _ _ Hc Hm)|]. by eapply Hlock.
      * intros j Hj. destruct (Hhold j Hj) as [Hmj [(oc' & aj' & Hcj)|Ho]]; (split; [done|]); [|by right].
        left. exists oc', aj'. rewrite lookup_insert_ne; [done|]. intros <-. congruence.
  - destruct (dt_live s !! i) as [[| |oc aj|]|] eqn:Hi; try done. destruct (calls !! i) as [c|] eqn:Hc; [|done].
    destruct (x_call x) as [tr err|msg]; intros [= <-]; [|by eapply dinv_end].
    destruct (isMutating e c) eqn:Hm.
    + assert (dt_lock s = Some i) as Hown by (eapply Hlock; [done|by exists c]).
      eapply dinv_move; [exact HI|exact Hi|reflexivity..| |]; cbn; [|done].
      intros j oc' aj' [[_ ?]|[Hne Hj]]%lookup_insert_Some Hmj; [done|]. specialize (Hlock j _ _ Hj Hmj). congruence.
    + eapply dinv_move; [exact HI|exact Hi|reflexivity..| |]; cbn.
      * intros j oc' aj' [[_ ?]|[_ Hj]]%lookup_insert_Some Hmj; [done|]. by eapply Hlock.
      * intros j Hj. destruct (Hhold j Hj) as [Hmj [(oc' & aj' & Hcj)|Ho]]; (split; [done|]); [|by right].
        left. exists oc', aj'. rewrite lookup_insert_ne; [done|]. intros <-. by destruct (not_mutating _ _ Hc Hm).
  - destruct (dt_live s !! i) as [[| | |oc aj tr err]|] eqn:Hi; try done. destruct (calls !! i) as [c|] eqn:Hc; [|done].
    intros [= <-]. eapply dinv_end; [by eapply dinv_env|done].
Qed.

(** ** Every step uses the work up *)

Lemma dstep_left a s s' : dinv s -> dstep e node calls limit a s = Some s' -> dleft s' < dleft s.
Proof.
  intros [Hn Hl He Hs Hlock Hhold Hr]. destruct a as [|i x|i|i x|i x]; cbn.
  - case_match eqn:Hb; [|done]. apply andb_true_iff in Hb as [H1%bool_decide_eq_true _].
    intros [= <-]. unfold dleft. cbn. fold n in H1. pose proof (live_weight_insert (dt_live s) (dt_next s) DcBegun H1) as H.
    destruct (dt_live s !! dt_next s) eqn:Hx; [|cbn in H; lia]. assert (dt_next s < dt_next s); [|lia]. apply Hl. by eexists.
  - destruct (dt_live s !! i) as [[]|] eqn:Hi; try done. destruct (calls !! i) as [c|] eqn:Hc; [|done]. intros [= <-].
    apply lookup_lt_Some in Hc as Hlt. unfold begin_call.
    destruct (RecordToolCall _ _ _ _) as [rs repeats]. destruct (gates e node c x) as [evs [r|cl]]; unfold dleft; cbn.
    + pose proof (live_weight_delete (dt_live s) i Hlt) as H. rewrite Hi in H. cbn in H. lia.
    + pose proof (live_weight_insert (dt_live s) i (DcReady (cleared e node c repeats evs cl) (cl_argsJSON cl)) Hlt) as H.
      rewrite Hi in H. cbn in H. lia.
  - destruct (dt_live s !! i) as [[|oc aj| |]|] eqn:Hi; try done. destruct (calls !! i) as [c|] eqn:Hc; [|done].
    apply lookup_lt_Some in Hc as Hlt. pose proof (live_weight_insert (dt_live s) i (DcCalling oc aj) Hlt) as H.
    rewrite Hi in H. cbn in H.
    destruct (isMutating e c); [destruct (dt_lock s); [done|]|]; intros [= <-]; unfold dleft; cbn; lia.
  - destruct (dt_live s !! i) as [[| |oc aj|]|] eqn:Hi; try done. destruct (calls !! i) as [c|] eqn:Hc; [|done].
    apply lookup_lt_Some in Hc as Hlt. destruct (x_call x) as [tr err|msg]; intros [= <-]; unfold dleft; cbn.
    + pose proof (live_weight_insert (dt_live s) i (DcReturned oc aj tr err) Hlt) as H. rewrite Hi in H. cbn in H.
      destruct (isMutating e c); cbn; lia.
    + pose proof (live_weight_delete (dt_live s) i Hlt) as H. rewrite Hi in H. cbn in H. lia.
  - destruct (dt_live s !! i) as [[| | |oc aj tr err]|] eqn:Hi; try done. destruct (calls !! i) as [c|] eqn:Hc; [|done].
    apply lookup_lt_Some in Hc as Hlt. intros [= <-]. unfold dleft. cbn.
    pose proof (live_weight_delete (dt_live s) i Hlt) as H. rewrite Hi in H. cbn in H. lia.
Qed.

Lemma druns_inv acts : forall s s', dinv s -> druns e node calls limit acts s = Some s' ->
  dinv s' /\ length acts + dleft s' <= dleft s.
Proof.
  induction acts as [|a acts IH]; intros s s' HI Hr; cbn in Hr; [injection Hr as <-; split; [done|apply Nat.le_refl]|].
  destruct (dstep e node calls limit a s) as [s1|] eqn:Hs; [|done].
  pose proof (dstep_inv _ _ _ HI Hs) as HI1. pose proof (dstep_left _ _ _ HI Hs) as Hl1.
  destruct (IH _ _ HI1 Hr) as [HI2 Hl2]. split; [done|]. cbn [length]. lia.
Qed.

(** ** Someone can move *)

(** The holder of the lock is gone. *)
Definition leaked (s : DState) : Prop := exists i, dt_lock s = Some i /\ dt_live s !! i = None.

Lemma dprogress s (x : nat -> Ext) : dinv s -> 0 < limit -> ddone calls s = false -> ~ leaked s ->
  exists a, is_Some (dstep e node calls limit a s) /\
    match a with DBegin i y | DReturn i y | DFinish i y => y = x i | _ => True end.
Proof.
  intros [Hn Hl He Hs Hlock Hhold Hr] Hpos Hd Hleak.
  assert (forall i oc aj, dt_live s !! i = Some (DcCalling oc aj) -> is_Some (dstep e node calls limit (DReturn i (x i)) s)) as Hret.
  { intros i oc aj Hi. cbn. rewrite Hi. assert (i < n) as Hlt by (eapply Nat.lt_le_trans; [apply Hl; by eexists|done]).
    apply lookup_lt_is_Some_2 in Hlt as [c ->]. destruct (x_call (x i)); by eexists. }
  destruct (map_choose_or_empty (dt_live s)) as [(i & p & Hi)|Hem].
  - assert (i < n) as Hlt by (eapply Nat.lt_le_trans; [apply Hl; by eexists|done]).
    apply lookup_lt_is_Some_2 in Hlt as [c Hc]. destruct p as [|oc aj|oc aj|oc aj tr err].
    + exists (DBegin i (x i)). cbn. rewrite Hi, Hc. split; [by eexists|done].
    + destruct (isMutating e c) eqn:Hm; [destruct (dt_lock s) as [j|] eqn:Hj|].
      * destruct (Hhold j eq_refl) as [_ [(oc' & aj' & Hcj)|Ho]]; [exists (DReturn j (x j)); split; [by eapply Hret|done]|].
        exfalso. apply Hleak. exists j. split; [done|]. by apply He in Ho as [_ ?].
      * exists (DEnter i). cbn. rewrite Hi, Hc, Hm, Hj. split; [by eexists|done].
      * exists (DEnter i). cbn. rewrite Hi, Hc, Hm. split; [by eexists|done].
    + exists (DReturn i (x i)). split; [by eapply Hret|done].
    + exists (DFinish i (x i)). cbn. rewrite Hi, Hc. split; [by eexists|done].
  - unfold ddone in Hd. rewrite (bool_decide_eq_true_2 (dt_live s = ∅)), andb_true_r in Hd by done.
    apply bool_decide_eq_false in Hd. exists DLaunch. cbn. rewrite Hem, map_size_empty, !bool_decide_eq_true_2 by (done || fold n; lia).
    split; [by eexists|done].
Qed.
End Runs.

(** * Calls that meet the same whenever they run *)

Section Results.
Context (e : DispatchEnv) (node : string).

(** The result of a call, by itself. *)
Definition call_result (c : ToolCallRequest) (x : Ext) : ToolResult :=
  match (gates e node c x).2 with
  | inl r => rj_result r
  | inr cl =>
      match x_call x with
      | CallPanics msg => error_result ("tool panicked: " +:+ msg)
      | CallBack tr err => oc_result (settle e node c (cleared e node c 0 [] cl) (cl_argsJSON cl) tr err x)
      end
  end.

(** Its class, as reported. *)
Definition call_class (c : ToolCallRequest) (x : Ext) : string :=
  match (gates e node c x).2 with
  | inl r => rj_outcome r
  | inr _ => match x_call x with
             | CallPanics _ => ToolOutcomeError
             | CallBack tr err => deriveToolOutcome (x_ctxDone x) tr err
             end
  end.

Lemma settle_parts c oc oc' aj tr err x :
  oc_result (settle e node c oc aj tr err x) = oc_result (settle e node c oc' aj tr err x) /\
  oc_outcome (settle e node c oc aj tr err x) = deriveToolOutcome (x_ctxDone x) tr err /\
  oc_call (settle e node c oc aj tr err x) = c.
Proof.
  unfold settle. destruct (capToolOutput _ _ _ _ _) as [u [[[capped elided] handle] aerr]].
  by destruct (toolPostDispatch _ _ _ _ _ _ _ _).
Qed.

Lemma derive_nonempty done tr err : deriveToolOutcome done tr err <> "".
Proof.
  unfold deriveToolOutcome. destruct err as [er|]; [by case_match|]. case_bool_decide; [|done].
  cbn. by repeat case_match.
Qed.

Lemma gates_class c x r : (gates e node c x).2 = inl r -> rj_outcome r <> "".
Proof.
  unfold gates, toolPreDispatch. destruct (parseToolArgs _) as [args raw]. case_if; [by intros [= <-]|].
  case_if; [by intros [= <-]|]. destruct (x_policy x); [by intros [= <-]|].
  destruct (x_preHook x) as [m|]; [|done]. destruct (hm_Blocked m); [by intros [= <-]|]. case_if; [done|].
  by destruct (unmarshal_object _).
Qed.

Lemma call_class_nonempty c x : call_class c x <> "".
Proof.
  unfold call_class. destruct ((gates e node c x).2) as [r|cl] eqn:Hg; [by eapply gates_class|].
  destruct (x_call x); [apply derive_nonempty|done].
Qed.
End Results.

Definition follows_ext (x : nat -> Ext) (a : DAct) : Prop :=
  match a with DBegin i y | DReturn i y | DFinish i y => y = x i | DLaunch | DEnter _ => True end.

Section Oracle.
Context (e : DispatchEnv) (node : string) (calls : list ToolCallRequest) (limit : nat) (x : nat -> Ext).

Definition phase_ok (i : nat) (p : DPhase) : Prop :=
  forall c, calls !! i = Some c ->
  match p with
  | DcBegun => True
  | DcReady _ aj | DcCalling _ aj => exists cl, (gates e node c (x i)).2 = inr cl /\ aj = cl_argsJSON cl
  | DcReturned _ aj tr err => exists cl, (gates e node c (x i)).2 = inr cl /\ aj = cl_argsJSON cl /\ x_call (x i) = CallBack tr err
  end.

Definition outcome_ok (i : nat) (oc : dispatchOutcome) : Prop :=
  exists c, calls !! i = Some c /\ oc_call oc = c /\ oc_result oc = call_result e node c (x i) /\
    oc_outcome oc = call_class e node c (x i).

Record dorc (s : DState) : Prop := {
  do_live : map_Forall phase_ok (dt_live s);
  do_outcomes : map_Forall outcome_ok (dt_outcomes s);
  do_reports : forall i k, (i, k) ∈ dt_reports s -> exists c, calls !! i = Some c /\ k = call_class e node c (x i);
  do_leak : forall i, dt_lock s = Some i -> dt_live s !! i = None -> exists msg, x_call (x i) = CallPanics msg
}.

Lemma dorc_init rs cs : dorc (dinit rs cs).
Proof. split; cbn; [apply map_Forall_empty..| |done]. intros i k H. by apply not_elem_of_nil in H. Qed.

Lemma dorc_end s i p oc : dorc s -> dt_live s !! i = Some p -> outcome_ok i oc ->
  (dt_lock s = Some i -> exists msg, x_call (x i) = CallPanics msg) -> dorc (end_call s i oc).
Proof.
  intros [Hl Ho Hr Hk] Hi Hoc Hp. split; cbn.
  - by apply map_Forall_delete.
  - by apply map_Forall_insert_2.
  - intros j k [Hj|Hj%list_elem_of_singleton]%elem_of_app; [by apply Hr|]. injection Hj as -> ->.
    destruct Hoc as (c & Hc & _ & _ & Hcl). exists c. split; [done|]. rewrite Hcl.
    by rewrite bool_decide_eq_false_2 by apply call_class_nonempty.
  - intros j Hj Hlj. destruct (decide (i = j)) as [<-|Hne]; [by apply Hp|].
    rewrite lookup_delete_ne in Hlj by done. by apply Hk.
Qed.

Lemma dorc_move s s' i p p' : dorc s -> dt_live s !! i = Some p -> phase_ok i p' ->
  dt_live s' = <[i := p']> (dt_live s) -> dt_outcomes s' = dt_outcomes s -> dt_reports s' = dt_reports s ->
  (forall j, dt_lock s' = Some j -> j = i \/ dt_lock s = Some j) -> dorc s'.
Proof.
  intros [Hl Ho Hr Hk] Hi Hp Hlive Hout Hrep Hlock. split; rewrite ?Hout, ?Hrep, ?Hlive; try done.
  - by apply map_Forall_insert_2.
  - intros j Hj Hlj. apply lookup_insert_None in Hlj as [Hlj Hne]. destruct (Hlock j Hj) as [->|Hj']; [done|by apply Hk].
Qed.

Lemma dorc_env s s' : dorc s -> dt_live s' = dt_live s -> dt_outcomes s' = dt_outcomes s ->
  dt_reports s' = dt_reports s -> dt_lock s' = dt_lock s -> dorc s'.
Proof. intros [] H1 H2 H3 H4. split; rewrite ?H1, ?H2, ?H3, ?H4; done. Qed.

(** A goroutine inside the tool, or gone, is all that can hold the lock. *)
Lemma not_holder s i p : dinv e calls limit s -> dt_live s !! i = Some p ->
  (forall oc aj, p <> DcCalling oc aj) -> dt_lock s <> Some i.
Proof.
  intros HI Hi Hp Hk. destruct (di_holder _ _ _ _ HI i Hk) as [_ [(oc & aj & Hc)|Ho]].
  - rewrite Hi in Hc. injection Hc as ->. by destruct (Hp oc aj).
  - apply (di_ended _ _ _ _ HI) in Ho as [_ Ho]. congruence.
Qed.

Lemma dstep_orc a s s' : dinv e calls limit s -> dorc s -> follows_ext x a -> dstep e node calls limit a s = Some s' -> dorc s'.
Proof.
  intros HI HO Hf. pose proof HO as [Hl Ho Hr Hk]. destruct a as [|i y|i|i y|i y]; cbn in *; try subst y.
  - case_match; [|done]. intros [= <-]. split; cbn; try done.
    + apply map_Forall_insert_2; [|done]. by intros c _.
    + intros j Hj Hlj. apply lookup_insert_None in Hlj as [Hlj _]. by apply Hk.
  - destruct (dt_live s !! i) as [[]|] eqn:Hi; try done. destruct (calls !! i) as [c|] eqn:Hc; [|done]. intros [= <-].
    unfold begin_call. destruct (RecordToolCall _ _ _ _) as [rs repeats]. destruct (gates e node c (x i)) as [evs [r|cl]] eqn:Hg.
    + eapply dorc_end; [by eapply dorc_env|exact Hi| |].
      * exists c. split; [done|]. unfold call_result, call_class. by rewrite Hg.
      * cbn. intros Hh. by destruct (not_holder s i _ HI Hi).
    + eapply dorc_move; [exact HO|exact Hi| |reflexivity..|]; [|by right].
      intros c' Hc'. assert (c' = c) as -> by congruence. rewrite Hg. by exists cl.
  - destruct (dt_live s !! i) as [[|oc aj| |]|] eqn:Hi; try done. destruct (calls !! i) as [c|] eqn:Hc; [|done].
    pose proof (Hl i _ Hi) as Hp.
    destruct (isMutating e c); [destruct (dt_lock s) eqn:Hh; [done|]|]; intros [= <-];
      (eapply dorc_move with (p' := DcCalling oc aj); [exact HO|exact Hi|exact Hp|reflexivity..|]); cbn; [|by right]. intros j [= <-]. by left.
  - destruct (dt_live s !! i) as [[| |oc aj|]|] eqn:Hi; try done. destruct (calls !! i) as [c|] eqn:Hc; [|done].
    destruct (Hl i _ Hi c Hc) as (cl & Hg & Haj).
    destruct (x_call (x i)) as [tr err|msg] eqn:Hx; intros [= <-].
    + eapply dorc_move; [exact HO|exact Hi| |by destruct (isMutating e c)..|].
      * intros c' Hc'. assert (c' = c) as -> by congruence. by exists cl.
      * intros j. destruct (isMutating e c); cbn; [done|by right].
    + eapply dorc_end; [done|exact Hi| |by intros _; exists msg].
      exists c. split; [done|]. unfold call_result, call_class. by rewrite Hg, Hx.
  - destruct (dt_live s !! i) as [[| | |oc aj tr err]|] eqn:Hi; try done. destruct (calls !! i) as [c|] eqn:Hc; [|done].
    destruct (Hl i _ Hi c Hc) as (cl & Hg & -> & Hx). intros [= <-].
    eapply dorc_end; [by eapply dorc_env|exact Hi| |].
    + exists c. split; [done|]. unfold call_result, call_class. rewrite Hg, Hx.
      destruct (settle_parts e node c oc (cleared e node c 0 [] cl) (cl_argsJSON cl) tr err (x i)) as (H1 & H2 & H3). done.
    + cbn. intros Hh. by destruct (not_holder s i _ HI Hi).
Qed.

Lemma druns_orc acts : forall s s', dinv e calls limit s -> dorc s -> Forall (follows_ext x) acts ->
  druns e node calls limit acts s = Some s' -> dorc s'.
Proof.
  induction acts as [|a acts IH]; intros s s' HI HO Hf Hr; cbn in Hr; [by injection Hr as <-|].
  apply Forall_cons_1 in Hf as [Hfa Hf]. destruct (dstep e node calls limit a s) as [s1|] eqn:Hs; [|done].
  eapply IH; [by eapply dstep_inv|by eapply dstep_orc|done..].
Qed.
End Oracle.

(** * Properties *)

(** C12: at no point of any schedule are two mutating tools running, and never more calls
    than the limit, which is between 1 and 16. *)
Theorem mutating_tools_exclusive e node calls a rs cs schedule s :
  druns e node calls (dispatch_limit a calls) schedule (dinit rs cs) = Some s ->
  (forall i j oc aj oc' aj', dt_live s !! i = Some (DcCalling oc aj) -> dt_live s !! j = Some (DcCalling oc' aj') ->
     mutating e calls i -> mutating e calls j -> i = j) /\
  size (dt_live s) <= dispatch_limit a calls /\ 1 <= dispatch_limit a calls <= 16.
Proof.
  intros Hr. destruct (druns_inv e node calls _ schedule _ s (dinit_inv e calls _ rs cs) Hr) as [HI _].
  split_and!.
  - intros i j oc aj oc' aj' Hi Hj Hmi Hmj.
    pose proof (di_lock _ _ _ _ HI i oc aj Hi Hmi). pose proof (di_lock _ _ _ _ HI j oc' aj' Hj Hmj). congruence.
  - apply (di_slots _ _ _ _ HI).
  - unfold dispatch_limit. case_match; [|lia]. repeat case_match; lia.
  - unfold dispatch_limit. case_match; [|lia]. repeat case_match; lia.
Qed.

(** C13: unless a mutating tool panics, a dispatch ends under every schedule: it takes at
    most five steps per call, and until it is through some goroutine can move. *)
Theorem dispatch_ends e node calls a rs cs (x : nat -> Ext) schedule s :
  (forall i msg, mutating e calls i -> x_call (x i) <> CallPanics msg) ->
  Forall (follows_ext x) schedule -> druns e node calls (dispatch_limit a calls) schedule (dinit rs cs) = Some s ->
  length schedule <= 5 * length calls /\
  (ddone calls s = false -> exists act, follows_ext x act /\ is_Some (dstep e node calls (dispatch_limit a calls) act s)).
Proof.
  intros Hp Hf Hr. pose proof (dinit_inv e calls (dispatch_limit a calls) rs cs) as HI0.
  destruct (druns_inv e node calls _ schedule _ s HI0 Hr) as [HI Hl]. split.
  - unfold dleft in Hl. cbn in Hl. assert (live_weight calls ∅ = 0) as H0; [|lia].
    unfold live_weight. induction (seq 0 (length calls)) as [|j l IH]; [done|]. cbn. by rewrite lookup_empty.
  - intros Hd. pose proof (druns_orc e node calls _ x schedule _ s HI0 (dorc_init e node calls x rs cs) Hf Hr) as HO.
    destruct (dprogress e node calls (dispatch_limit a calls) s x HI) as (act & Hs & Hx); [|done| |].
    + unfold dispatch_limit. case_match; [|lia]. repeat case_match; lia.
    + intros (i & Hi & Hli). destruct (di_holder _ _ _ _ HI i Hi) as [Hm _].
      destruct (do_leak _ _ _ _ _ HO i Hi Hli) as [msg Hmsg]. by destruct (Hp i msg Hm).
    + exists act. split; [|done]. by destruct act.
Qed.

(** C7: a call that the policy denies or a hook blocks never gets to its tool: in every
    reachable state its goroutine is still at the gates or gone, and what it leaves is an
    error result. *)
Theorem denied_call_never_runs e node calls limit rs cs (x : nat -> Ext) schedule s i c :
  Forall (follows_ext x) schedule -> druns e node calls limit schedule (dinit rs cs) = Some s ->
  calls !! i = Some c ->
  (is_Some (x_policy (x i)) \/ exists m, x_preHook (x i) = Some m /\ hm_Blocked m = true) ->
  (forall p, dt_live s !! i = Some p -> p = DcBegun) /\
  (forall oc, dt_outcomes s !! i = Some oc -> tr_IsError (oc_result oc) = true).
Proof.
  intros Hf Hr Hc Hdeny.
  pose proof (druns_orc e node calls limit x schedule _ s (dinit_inv e calls limit rs cs) (dorc_init e node calls x rs cs) Hf Hr) as HO.
  assert (exists r, (gates e node c (x i)).2 = inl r /\ tr_IsError (rj_result r) = true) as (r & Hg & Herr).
  { unfold gates, toolPreDispatch. destruct (parseToolArgs _) as [args raw]. case_if; [by eexists|]. case_if; [by eexists|].
    destruct (x_policy (x i)); [by eexists|]. destruct Hdeny as [[? ?]|(m & -> & Hb)]; [done|]. rewrite Hb. by eexists. }
  split.
  - intros p Hp. pose proof (do_live _ _ _ _ _ HO i p Hp c Hc) as H. destruct p as [|? ?|? ?|? ? ? ?]; [done|..];
      destruct H as (cl & Hcl & _); congruence.
  - intros oc Ho. destruct (do_outcomes _ _ _ _ _ HO i oc Ho) as (c' & Hc' & _ & -> & _).
    assert (c' = c) as -> by congruence. unfold call_result. by rewrite Hg.
Qed.

(** * Whole dispatches *)

Lemma outcomes_imap e node calls limit x s : dinv e calls limit s -> dorc e node calls x s -> ddone calls s = true ->
  map oc_result (outcomes_of (length calls) s) = imap (fun i c => call_result e node c (x i)) calls /\
  map oc_call (outcomes_of (length calls) s) = calls.
Proof.
  intros HI HO Hd. apply andb_true_iff in Hd as [Hn%bool_decide_eq_true Hl%bool_decide_eq_true].
  assert (forall i c, calls !! i = Some c -> exists oc, dt_outcomes s !! i = Some oc /\ oc_call oc = c /\
    oc_result oc = call_result e node c (x i)) as Hall.
  { intros i c Hc. assert (is_Some (dt_outcomes s !! i)) as [oc Hoc].
    { apply (di_ended _ _ _ _ HI). rewrite Hn, Hl, lookup_empty. split; [by eapply lookup_lt_Some|done]. }
    exists oc. destruct (do_outcomes _ _ _ _ _ HO i oc Hoc) as (c' & Hc' & ? & ? & _).
    assert (c' = c) as -> by congruence. done. }
  unfold outcomes_of. rewrite !map_map. split; apply list_eq; intros i.
  - rewrite list_lookup_fmap, list_lookup_imap. destruct (calls !! i) as [c|] eqn:Hc; cbn.
    + rewrite lookup_seq_lt by (by eapply lookup_lt_Some). cbn. destruct (Hall i c Hc) as (oc & Ho & _ & Hre). rewrite Ho. cbn. by rewrite Hre.
    + by rewrite lookup_seq_ge by (by apply lookup_ge_None).
  - rewrite list_lookup_fmap. destruct (calls !! i) as [c|] eqn:Hc; cbn.
    + rewrite lookup_seq_lt by (by eapply lookup_lt_Some). cbn. destruct (Hall i c Hc) as (oc & Ho & Hcl & _). rewrite Ho. cbn. by rewrite Hcl.
    + by rewrite lookup_seq_ge by (by apply lookup_ge_None).
Qed.

Lemma tool_messages_zip ocs : map tool_message ocs =
  zip_with (fun c tr => {| m_role := "tool"; m_content := tr_Content tr; m_name := tq_Name c; m_tool_call_id := tq_ID c;
                           m_tool_calls := []; m_is_error := tr_IsError tr |}) (map oc_call ocs) (map oc_result ocs).
Proof. induction ocs as [|oc ocs IH]; [done|]. cbn. by rewrite IH. Qed.

Lemma passthrough_keeps inp out k v :
  k ∉ ["assistant"; "assistant_text"; "response"; "finish_reason"] -> out !! k = Some v -> passthroughAssistant inp out !! k = Some v.
Proof.
  intros Hk Hv. rewrite !not_elem_of_cons in Hk. destruct Hk as (H1 & H2 & H3 & H4 & _).
  unfold passthroughAssistant, copy_port. repeat case_match; rewrite ?lookup_insert_ne by done; done.
Qed.

Lemma druns_charged e node calls limit acts : forall s s', druns e node calls limit acts s = Some s' ->
  (rc_ToolCallsMade (dt_counters s) <= rc_ToolCallsMade (dt_counters s') <=
   rc_ToolCallsMade (dt_counters s) + Z.of_nat (length (dt_reports s') - length (dt_reports s)))%Z /\
  length (dt_reports s) <= length (dt_reports s').
Proof.
  induction acts as [|a acts IH]; intros s s' Hr; cbn in Hr; [injection Hr as <-; lia|].
  destruct (dstep e node calls limit a s) as [s1|] eqn:Hs; [|done]. specialize (IH _ _ Hr).
  assert ((rc_ToolCallsMade (dt_counters s) <= rc_ToolCallsMade (dt_counters s1) <=
           rc_ToolCallsMade (dt_counters s) + Z.of_nat (length (dt_reports s1) - length (dt_reports s)))%Z /\
          length (dt_reports s) <= length (dt_reports s1)) as H1; [|lia]. clear IH Hr.
  destruct a as [|i x|i|i x|i x]; cbn in Hs.
  - case_match; [|done]. injection Hs as <-. cbn. lia.
  - destruct (dt_live s !! i) as [[]|]; try done. destruct (calls !! i) as [c|]; [|done]. injection Hs as <-.
    unfold begin_call. destruct (RecordToolCall _ _ _ _) as [rs repeats]. destruct (gates e node c x) as [evs [r|cl]]; cbn;
      rewrite ?length_app; cbn; lia.
  - destruct (dt_live s !! i) as [[| | |]|]; try done. destruct (calls !! i) as [c|]; [|done].
    destruct (isMutating e c); [destruct (dt_lock s); [done|]|]; injection Hs as <-; cbn; lia.
  - destruct (dt_live s !! i) as [[| | |]|]; try done. destruct (calls !! i) as [c|]; [|done].
    destruct (x_call x); injection Hs as <-; cbn; rewrite ?length_app; cbn; try lia. destruct (isMutating e c); cbn; lia.
  - destruct (dt_live s !! i) as [[| | |]|]; try done. destruct (calls !! i) as [c|]; [|done].
    injection Hs as <-. cbn. rewrite length_app. cbn. unfold chargeToolIteration. destruct (ShouldCountIteration _ _); cbn; lia.
Qed.

Lemma reports_length e calls limit s : dinv e calls limit s -> length (dt_reports s) <= length calls.
Proof.
  intros HI. destruct (di_reports _ _ _ _ HI) as [Hnd Hin]. rewrite <- (length_map fst).
  rewrite <- (length_seq (length calls) 0). apply submseteq_length, NoDup_submseteq; [done|].
  intros i Hi%Hin. apply (di_ended _ _ _ _ HI) in Hi as [Hi _]. apply elem_of_seq. pose proof (di_next _ _ _ _ HI). lia.
Qed.

Section Whole.
Context (decode_struct : value -> option ToolCallRequest) (decode_error : value -> string) (e : DispatchEnv).

Lemma dispatch_execute_run nd inputs rs cs schedule rs' cs' o a calls :
  dispatch_guard decode_struct decode_error e nd inputs cs = inr (a, calls) ->
  dispatch_execute decode_struct decode_error e nd inputs rs cs schedule = Some (rs', cs', o) ->
  exists s, druns e (n_id nd) calls (dispatch_limit a calls) schedule (dinit rs cs) = Some s /\ ddone calls s = true /\
    cs' = dt_counters s /\ o = OutOk (aggregate inputs (outcomes_of (length calls) s)).
Proof.
  intros Hg. unfold dispatch_execute. rewrite Hg. destruct (druns _ _ _ _ _ _) as [s|]; [|done].
  destruct (ddone calls s) eqn:Hd; [|done]. intros [= <- <- <-]. by exists s.
Qed.

(** C6: whatever the schedule, the results, the tool messages and the conversation that
    goes back to the model hold what each call gives by itself, in the order of the
    calls. *)
Theorem dispatch_in_call_order nd inputs rs cs schedule rs' cs' o a calls (x : nat -> Ext) :
  dispatch_guard decode_struct decode_error e nd inputs cs = inr (a, calls) -> Forall (follows_ext x) schedule ->
  dispatch_execute decode_struct decode_error e nd inputs rs cs schedule = Some (rs', cs', o) ->
  let results := imap (fun i c => call_result e (n_id nd) c (x i)) calls in
  let messages := zip_with (fun c tr => {| m_role := "tool"; m_content := tr_Content tr; m_name := tq_Name c;
                                           m_tool_call_id := tq_ID c; m_tool_calls := []; m_is_error := tr_IsError tr |}) calls results in
  exists r, o = OutOk r /\
    r_Outputs r !! "tool_results" = Some (VToolResults results) /\
    r_Outputs r !! "tool_messages" = Some (VMessages messages) /\
    r_Outputs r !! "messages" = Some (VMessages (upstream_messages inputs ++ messages)) /\
    r_Outputs r !! "tool_call_count" = Some (VInt (Z.of_nat (length calls))).
Proof.
  intros Hg Hf He results messages. destruct (dispatch_execute_run _ _ _ _ _ _ _ _ _ _ Hg He) as (s & Hr & Hd & _ & ->).
  pose proof (dinit_inv e calls (dispatch_limit a calls) rs cs) as HI0.
  destruct (druns_inv e (n_id nd) calls _ schedule _ s HI0 Hr) as [HI _].
  pose proof (druns_orc e (n_id nd) calls _ x schedule _ s HI0 (dorc_init e (n_id nd) calls x rs cs) Hf Hr) as HO.
  destruct (outcomes_imap e (n_id nd) calls _ x s HI HO Hd) as [Hres Hcalls].
  assert (map tool_message (outcomes_of (length calls) s) = messages) as Hmsg.
  { rewrite tool_messages_zip, Hres, Hcalls. done. }
  assert (length (outcomes_of (length calls) s) = length calls) as Hlen by (unfold outcomes_of; by rewrite length_map, length_seq).
  eexists. split; [done|]. unfold aggregate. cbn [r_Outputs]. rewrite Hmsg, Hres, Hlen.
  split_and!; (apply passthrough_keeps; [by apply (bool_decide_unpack _)|]);
    repeat (rewrite lookup_insert_eq || rewrite lookup_insert_ne by done); done.
Qed.

(** A dispatch that goes through charges at most one tool call per call of the
    model and stays within the cap of the run. *)
Theorem dispatch_respects_tool_cap nd inputs rs cs schedule rs' cs' o a calls :
  dispatch_guard decode_struct decode_error e nd inputs cs = inr (a, calls) ->
  dispatch_execute decode_struct decode_error e nd inputs rs cs schedule = Some (rs', cs', o) ->
  (rc_ToolCallsMade cs <= rc_ToolCallsMade cs' <= rc_ToolCallsMade cs + Z.of_nat (length calls))%Z /\
  (0 < b_MaxToolCallsPerRun (de_budget e) -> rc_ToolCallsMade cs' <= b_MaxToolCallsPerRun (de_budget e))%Z.
Proof.
  intros Hg He. destruct (dispatch_execute_run _ _ _ _ _ _ _ _ _ _ Hg He) as (s & Hr & Hd & -> & _).
  destruct (druns_charged e (n_id nd) calls _ schedule _ s Hr) as [Hc _]. cbn in Hc.
  destruct (druns_inv e (n_id nd) calls _ schedule _ s (dinit_inv e calls (dispatch_limit a calls) rs cs) Hr) as [HI _].
  apply reports_length in HI. split; [lia|]. intros Hcap.
  assert (rc_ToolCallsMade cs + Z.of_nat (length calls) <= b_MaxToolCallsPerRun (de_budget e))%Z; [|lia].
  unfold dispatch_guard in Hg. destruct (n_attrs nd); try done. destruct (extractToolCalls _ _ _) as [[|c l]|]; try done.
  case_match eqn:Hb; [done|]. injection Hg as -> <-. apply andb_false_iff in Hb as [Hb|Hb]; lia.
Qed.
End Whole.

(** * A turn with two writes *)

Definition d_dispatch_budget : Budget :=
  {| b_MaxTokensPerRun := 0; b_MaxWallclockPerRunSecs := 0; b_MaxLLMCallsPerRun := 0; b_MaxToolCallsPerRun := 3;
     b_MaxCostUSDPerRun := 0; b_DoomLoopThreshold := 0; b_MaxBacktracksPerRun := 0 |}.

Definition d_dispatch_env : DispatchEnv :=
  {| de_run := "r1"; de_budget := d_dispatch_budget; de_schemas := ∅; de_mutating := {["write"]}; de_passive := passiveToolNames;
     de_cap := {| MaxBytes := 0; HeadBytes := 0; TailBytes := 0 |}; de_timeout := "30s"; de_json_error := fun _ => "";
     de_doomLoopKey := fun tool _ => tool; de_marshal := fun args => of_list (print_json (JObj args)); de_stat := fun _ => None |}.

Definition d_write (id : string) : ToolCallRequest := {| tq_ID := id; tq_Name := "write"; tq_Arguments := "{}"; tq_IsError := false |}.
Definition d_calls : list ToolCallRequest := [d_write "c1"; d_write "c2"].

Definition d_ext (policy : option string) (r : CallReturn) : Ext :=
  {| x_policy := policy; x_preFire := []; x_preHook := None; x_call := r; x_ctxDone := false; x_archive := None;
     x_postHook := None; x_postFire := fun _ => [] |}.
Definition d_ok (content : string) : CallReturn := CallBack {| tr_Content := content; tr_IsError := false; tr_Outcome := "" |} None.

Definition d_dispatch_counters : RunCounters :=
  {| rc_LLMTokensUsed := 0; rc_LLMCallsMade := 0; rc_ToolCallsMade := 1; rc_CostUSD := 0; rc_WallclockStart := 0; rc_BacktracksUsed := 0 |}.
Definition d_dispatch_attrs : ToolDispatchAttrs := {| td_MaxConcurrent := 0 |}.
Definition d_dinit : DState := dinit NewRunState d_dispatch_counters.

(** The first write panics while the second waits for the lock. *)
Definition d_panic (i : nat) : Ext := d_ext None (if Nat.eqb i 0 then CallPanics "boom" else d_ok "done").
Definition d_panic_schedule : list DAct :=
  [DLaunch; DLaunch; DBegin 0 (d_panic 0); DBegin 1 (d_panic 1); DEnter 0; DReturn 0 (d_panic 0)].

(** A mutating tool that panics takes the mutation lock with it: the panic becomes an
    error result, but the other write of the turn waits for the lock for ever and the
    dispatch never ends. *)
Theorem panicking_mutator_hangs :
  exists s, druns d_dispatch_env "t" d_calls (dispatch_limit d_dispatch_attrs d_calls) d_panic_schedule d_dinit = Some s /\
    ddone d_calls s = false /\ dt_lock s = Some 0 /\ dt_live s !! 0 = None /\
    (tr_IsError ∘ oc_result) <$> dt_outcomes s !! 0 = Some true /\
    forall act, dstep d_dispatch_env "t" d_calls (dispatch_limit d_dispatch_attrs d_calls) act s = None.
Proof.
  destruct (druns d_dispatch_env "t" d_calls (dispatch_limit d_dispatch_attrs d_calls) d_panic_schedule d_dinit) as [s|] eqn:Hs;
    [|vm_compute in Hs; discriminate].
  exists s. split; [done|]. vm_compute in Hs. injection Hs as <-.
  split_and!; [reflexivity..|].
  match goal with |- forall act, dstep _ _ _ _ act ?s = None => assert (exists oc aj, map_to_list (dt_live s) = [(1, DcReady oc aj)]) as (oc & aj & Hlive) by (eexists _, _; vm_compute; reflexivity); set (st := s) in * end.
  assert (forall i p, dt_live st !! i = Some p -> i = 1 /\ p = DcReady oc aj) as Hone.
  { intros i p Hp%elem_of_map_to_list. rewrite Hlive in Hp. apply list_elem_of_singleton in Hp. by injection Hp as -> ->. }
  intros [|i x|i|i x|i x]; [vm_compute; reflexivity|..]; cbn [dstep];
    destruct (dt_live st !! i) as [p|] eqn:Hp; try done; destruct (Hone i p Hp) as [-> ->]; try done.
Qed.

(** Both writes succeed, the second one first. *)
Definition d_fine (i : nat) : Ext := d_ext None (d_ok (if Nat.eqb i 0 then "one" else "two")).
Definition d_fine_schedule : list DAct :=
  [DLaunch; DLaunch; DBegin 1 (d_fine 1); DEnter 1; DBegin 0 (d_fine 0); DReturn 1 (d_fine 1); DEnter 0; DFinish 1 (d_fine 1);
   DReturn 0 (d_fine 0); DFinish 0 (d_fine 0)].

(** The run of a schedule, which the witnesses know to be one. *)
Definition d_druns (schedule : list DAct) : DState :=
  default d_dinit (druns d_dispatch_env "t" d_calls (dispatch_limit d_dispatch_attrs d_calls) schedule d_dinit).

Lemma mutating_tools_exclusive_witness :
  let s := d_druns (take 4 d_fine_schedule) in
  dt_lock s = Some 1 /\ size (dt_live s) <= 4 /\
  forall i oc aj, dt_live s !! i = Some (DcCalling oc aj) -> mutating d_dispatch_env d_calls i -> i = 1.
Proof.
  cbn zeta. split; [vm_compute; reflexivity|].
  destruct (mutating_tools_exclusive d_dispatch_env "t" d_calls d_dispatch_attrs NewRunState d_dispatch_counters
    (take 4 d_fine_schedule) (d_druns (take 4 d_fine_schedule))) as (Hx & Hs & _); [vm_compute; reflexivity|].
  split; [exact Hs|]. intros i oc aj Hi Hm.
  assert (exists oc' aj', dt_live (d_druns (take 4 d_fine_schedule)) !! 1 = Some (DcCalling oc' aj')) as (oc' & aj' & H1)
    by (eexists _, _; vm_compute; reflexivity).
  apply (Hx i 1 oc aj oc' aj' Hi H1 Hm). exists (d_write "c2"). split; vm_compute; reflexivity.
Defined.

Lemma dispatch_ends_witness :
  ddone d_calls (d_druns (take 7 d_fine_schedule)) = false /\
  exists act, is_Some (dstep d_dispatch_env "t" d_calls 4 act (d_druns (take 7 d_fine_schedule))).
Proof.
  split; [vm_compute; reflexivity|].
  destruct (dispatch_ends d_dispatch_env "t" d_calls d_dispatch_attrs NewRunState d_dispatch_counters d_fine
    (take 7 d_fine_schedule) (d_druns (take 7 d_fine_schedule))) as [_ He];
    [intros i msg _; discriminate|by repeat constructor|vm_compute; reflexivity|].
  destruct He as (act & _ & Ha); [vm_compute; reflexivity|]. by exists act.
Defined.

(** The policy denies the second write. *)
Definition d_denied (i : nat) : Ext := d_ext (if Nat.eqb i 1 then Some "no" else None) (d_ok "done").
Definition d_denied_schedule : list DAct := [DLaunch; DLaunch; DBegin 1 (d_denied 1)].

Lemma denied_call_never_runs_witness :
  match dt_outcomes (d_druns d_denied_schedule) !! 1 with
  | Some oc => tr_IsError (oc_result oc) = true /\ tr_Content (oc_result oc) = "tool denied by policy: no"
  | None => False
  end.
Proof.
  destruct (denied_call_never_runs d_dispatch_env "t" d_calls 4 NewRunState d_dispatch_counters d_denied d_denied_schedule
    (d_druns d_denied_schedule) 1 (d_write "c2")) as [_ Ho];
    [by repeat constructor|vm_compute; reflexivity|reflexivity|left; by eexists|].
  destruct (dt_outcomes (d_druns d_denied_schedule) !! 1) as [oc|] eqn:Hoc.
  - split; [by apply Ho|]. vm_compute in Hoc. by injection Hoc as <-.
  - vm_compute in Hoc. discriminate.
Defined.

Definition d_dispatch_node : Node :=
  {| n_id := "t"; n_kind := NodeKindToolDispatch; n_title := ""; n_inputs := []; n_outputs := [];
     n_attrs := AToolDispatch d_dispatch_attrs; n_dials := [] |}.
Definition d_dispatch_inputs : PortValues :=
  {["tool_calls" := VToolCalls d_calls; "response" := VMessages [plain_message "assistant" "writing"]]}.
Definition d_dispatched : option (RunState * RunCounters * Outcome) :=
  dispatch_execute (fun _ => None) (fun _ => "") d_dispatch_env d_dispatch_node d_dispatch_inputs NewRunState d_dispatch_counters d_fine_schedule.

Lemma dispatch_in_call_order_witness :
  match d_dispatched with
  | Some (_, _, OutOk r) =>
      r_Outputs r !! "tool_results" =
        Some (VToolResults [{| tr_Content := "one"; tr_IsError := false; tr_Outcome := "" |};
                            {| tr_Content := "two"; tr_IsError := false; tr_Outcome := "" |}])
  | _ => False
  end.
Proof.
  destruct d_dispatched as [[[rs' cs'] o]|] eqn:Hd; [|vm_compute in Hd; discriminate].
  destruct (dispatch_in_call_order (fun _ => None) (fun _ => "") d_dispatch_env d_dispatch_node d_dispatch_inputs NewRunState
    d_dispatch_counters d_fine_schedule rs' cs' o d_dispatch_attrs d_calls d_fine) as (r & -> & Hr & _);
    [vm_compute; reflexivity|by repeat constructor|exact Hd|].
  rewrite Hr. vm_compute. reflexivity.
Defined.

(** Two writes after one call, with a cap of three. *)
Lemma dispatch_respects_tool_cap_witness :
  match d_dispatched with
  | Some (_, cs', _) => (rc_ToolCallsMade cs' = 3 /\ rc_ToolCallsMade cs' <= 3)%Z
  | None => False
  end.
Proof.
  destruct d_dispatched as [[[rs' cs'] o]|] eqn:Hd; [|vm_compute in Hd; discriminate].
  destruct (dispatch_respects_tool_cap (fun _ => None) (fun _ => "") d_dispatch_env d_dispatch_node d_dispatch_inputs NewRunState
    d_dispatch_counters d_fine_schedule rs' cs' o d_dispatch_attrs d_calls) as [_ Hc];
    [vm_compute; reflexivity|exact Hd|].
  split; [|apply Hc; vm_compute; reflexivity].
  assert ((fun r => r.1.2) <$> d_dispatched = Some cs') as H by (by rewrite Hd).
  vm_compute in H. by injection H as <-.
Defined.

(** A repeated call trips the guard at the third time, and the node asks to replan. *)
Example third_repeat_replans :
  let call i := [DLaunch; DBegin i (d_fine i); DEnter i; DReturn i (d_fine i); DFinish i (d_fine i)] in
  let inputs : PortValues := {["tool_calls" := VToolCalls [d_write "c1"]]} in
  let again st := match dispatch_execute (fun _ => None) (fun _ => "") d_dispatch_env d_dispatch_node inputs st d_dispatch_counters (call 0) with
                  | Some (st, _, OutOk r) => Some (st, r_Outputs r !! "should_replan")
                  | _ => None
                  end in
  match again NewRunState with
  | Some (st, None) => match again st with
                       | Some (st, None) => match again st with Some (_, Some (VBool true)) => True | _ => False end
                       | _ => False
                       end
  | _ => False
  end.
Proof. vm_compute. exact I. Qed.

(** A passive tool is charged nothing, yet the check before the dispatch counts it. *)
Example passive_call_hits_cap :
  let full := {| rc_LLMTokensUsed := 0; rc_LLMCallsMade := 0; rc_ToolCallsMade := 3; rc_CostUSD := 0; rc_WallclockStart := 0;
                 rc_BacktracksUsed := 0 |} in
  let nap := {| tq_ID := "c"; tq_Name := "kenaz__sleep"; tq_Arguments := "{}"; tq_IsError := false |} in
  chargeToolIteration passiveToolNames full "kenaz__sleep" = full /\
  match dispatch_guard (fun _ => None) (fun _ => "") d_dispatch_env d_dispatch_node {["tool_calls" := VToolCalls [nap]]} full with
  | inl (OutErr _ err) => ke_budget err = true
  | _ => False
  end.
Proof. split; [vm_compute; reflexivity|]. vm_compute. reflexivity. Qed.

(** A valid object with a member called _raw is rejected as unparseable. *)
Example raw_member_rejected :
  let text := of_list (print_json (JObj [("_raw", JNum "1")])) in
  unmarshal_object text = Some [("_raw", JNum "1")] /\
  match gates d_dispatch_env "t" {| tq_ID := "c"; tq_Name := "x"; tq_Arguments := text; tq_IsError := false |} (d_fine 0) with
  | (_, inl r) => rj_outcome r = ToolOutcomeError
  | _ => False
  end.
Proof. split; vm_compute; reflexivity. Qed.
