(* ===== verification/Consent.v ===== *)
(** The gate in front of every tool call of a chat: the permission verdict, the Cedar
    layers, the risk rating and the confirmation of the user
    (core/rpc/views/agentgraph/chat/kernel_tool_adapter.go, core/policy/cedar/risk_layer.go).
    What a call emits and changes is threaded through [consent_state]; what the outside
    world does during the call is in [consent_env]. *)
From S2P Require Import Prelude GoString Utf8 Json Autonomy Risk Perms ConfirmBus Grants AgentGraph ToolArgs.
From stdpp Require Import gmap.
From Stdlib Require Import Ascii.
Local Open Scope nat_scope.

(** * Cedar *)

Inductive Outcome := Allow | Deny | NotApplicable | Confirm | OutcomeOther (n : Z).

(** [Decision] without the principal and the time. *)
Record Decision := { dc_Outcome : Outcome; dc_Action : string; dc_Resource : string; dc_MatchedPolicy : string; dc_Reason : string }.

(** [Gate.Evaluate] on the action and the id of the tool resource. *)
Definition Gate : Type := string -> string -> Decision.

Definition ActionUseTool : string := "use_tool".
Definition ActionToolExec : string := "tool_exec".

Definition redecide (d : Decision) (o : Outcome) (reason : string) : Decision :=
  {| dc_Outcome := o; dc_Action := dc_Action d; dc_Resource := dc_Resource d; dc_MatchedPolicy := dc_MatchedPolicy d; dc_Reason := reason |}.

(** [g] is the non-nil gate: the only caller checks. *)
Definition ThreeLayerResolve (g : Gate) (action resource : string) (threshold : Z) : Decision :=
  let d := g action resource in
  match dc_Outcome d with
  | Deny => redecide d Deny (if bool_decide (dc_Reason d = "") then "layer 1: forbid policy matched" else dc_Reason d)
  | Allow => redecide d Allow (if bool_decide (dc_Reason d = "") then "layer 2: permit policy matched" else dc_Reason d)
  | NotApplicable | Confirm =>
      redecide d Confirm
        (if (threshold <=? 0)%Z
         then "layer 3: threshold=0 — every unmatched action asks and the rater is bypassed (FR-008)"
         else "layer 3: no Cedar policy matched; pending the caller's rating (WP05) — asking")
  | OutcomeOther _ => redecide d Confirm "layer 3: unrecognised Outcome value from Gate.Evaluate; asking (fail-closed)"
  end.

(** [enforce] and [CheckTool], with the text of the [PolicyDeniedError]. *)
Definition denied_text (d : Decision) : string :=
  "policy denied " +:+ dc_Action d +:+ " on " +:+ dc_Resource d +:+ ": " +:+ dc_Reason d +:+
  (if bool_decide (dc_MatchedPolicy d = "") then "" else " (policy=" +:+ dc_MatchedPolicy d +:+ ")").

Definition enforce (d : Decision) : option string :=
  match dc_Outcome d with Deny | Confirm => Some (denied_text d) | _ => None end.

Definition CheckTool (g : option Gate) (server tool : string) : option string :=
  match g with None => None | Some g => enforce (g ActionToolExec (ToolID server tool)) end.

(** * The audit trail *)

Record ToolConfirmDecision := {
  cp_SessionID : string; cp_CallID : string; cp_BatchID : string; cp_Server : string; cp_Tool : string; cp_Family : string;
  cp_Path : string; cp_Layer : Z; cp_Threshold : Z; cp_Approved : bool; cp_RememberSession : bool; cp_Persisted : bool;
  cp_Reason : string; cp_Score : Z; cp_Tier : string; cp_Model : string; cp_PromptVersion : string; cp_CacheHit : bool
}.

Record ToolConfirmGrantWritten := {
  gw_SessionID : string; gw_Server : string; gw_Tool : string; gw_GrantID : string; gw_Written : bool; gw_Error : string
}.

Inductive audit_event := ConfirmDecided (p : ToolConfirmDecision) | GrantWritten (p : ToolConfirmGrantWritten).

Definition PathPrompted : string := "prompted".
Definition PathSessionGrant : string := "session_grant".
Definition PathPersistedGrant : string := "persisted_grant".
Definition PathSkipSet : string := "skip_set".
Definition PathHeadlessPolicy : string := "headless_policy".
Definition PathToggleOff : string := "toggle_off".
Definition PathLayer1Forbid : string := "layer1_forbid".
Definition PathLayer2Permit : string := "layer2_permit".
Definition PathLayer3RaterAllow : string := "layer3_rater_allow".
Definition PathLayer3Timeout : string := "layer3_timeout".
Definition PathLayer3OfflineFloor : string := "layer3_offline_floor".

(** A record with the fields every branch sets; the others are zero. *)
Definition decided (sessionID server tool path : string) (layer threshold : Z) (approved : bool) (reason : string) : ToolConfirmDecision :=
  {| cp_SessionID := sessionID; cp_CallID := ""; cp_BatchID := ""; cp_Server := server; cp_Tool := tool;
     cp_Family := ClassifyToolFamily tool; cp_Path := path; cp_Layer := layer; cp_Threshold := threshold;
     cp_Approved := approved; cp_RememberSession := false; cp_Persisted := false; cp_Reason := reason;
     cp_Score := 0; cp_Tier := ""; cp_Model := ""; cp_PromptVersion := ""; cp_CacheHit := false |}.

Record riskPromptDetail := {
  rd_Score : Z; rd_Tier : string; rd_Model : string; rd_PromptVersion : string; rd_CacheHit : bool; rd_Rationale : string
}.

Definition with_detail (d : option riskPromptDetail) (p : ToolConfirmDecision) : ToolConfirmDecision :=
  match d with
  | None => p
  | Some d =>
      {| cp_SessionID := cp_SessionID p; cp_CallID := cp_CallID p; cp_BatchID := cp_BatchID p; cp_Server := cp_Server p; cp_Tool := cp_Tool p;
         cp_Family := cp_Family p; cp_Path := cp_Path p; cp_Layer := cp_Layer p; cp_Threshold := cp_Threshold p;
         cp_Approved := cp_Approved p; cp_RememberSession := cp_RememberSession p; cp_Persisted := cp_Persisted p; cp_Reason := cp_Reason p;
         cp_Score := rd_Score d; cp_Tier := rd_Tier d; cp_Model := rd_Model d; cp_PromptVersion := rd_PromptVersion d; cp_CacheHit := rd_CacheHit d |}
  end.

(** The record of a call that was parked on the bus. *)
Definition with_request (req : ConfirmRequest) (remember persisted : bool) (p : ToolConfirmDecision) : ToolConfirmDecision :=
  {| cp_SessionID := cp_SessionID p; cp_CallID := cq_CallID req; cp_BatchID := cq_BatchID req; cp_Server := cp_Server p; cp_Tool := cp_Tool p;
     cp_Family := cp_Family p; cp_Path := cp_Path p; cp_Layer := cp_Layer p; cp_Threshold := cp_Threshold p;
     cp_Approved := cp_Approved p; cp_RememberSession := remember; cp_Persisted := persisted; cp_Reason := cp_Reason p;
     cp_Score := cp_Score p; cp_Tier := cp_Tier p; cp_Model := cp_Model p; cp_PromptVersion := cp_PromptVersion p; cp_CacheHit := cp_CacheHit p |}.

(** * Texts *)

(** [time.Duration.String] of a positive number of nanoseconds. *)
Definition frac_digits (n : Z) (prec : nat) : string :=
  let r := (n mod 10 ^ Z.of_nat prec)%Z in
  if (r =? 0)%Z then ""
  else "." +:+ of_list (drop_while_end (isc 48) (drop 1 (list_of (fmt_d (10 ^ Z.of_nat prec + r)%Z)))).

Definition unit_text (n : Z) (prec : nat) (unit_name : string) : string :=
  fmt_d (n / 10 ^ Z.of_nat prec)%Z +:+ frac_digits n prec +:+ unit_name.

Definition Duration_String (d : Z) : string :=
  if (d <? 1000)%Z then fmt_d d +:+ "ns"
  else if (d <? 1000000)%Z then unit_text d 3 "µs"
  else if (d <? 1000000000)%Z then unit_text d 6 "ms"
  else
    let minute := 60000000000%Z in
    (if (d <? 60 * minute)%Z then "" else fmt_d (d / (60 * minute))%Z +:+ "h") +:+
    (if (d <? minute)%Z then "" else fmt_d (d / minute mod 60)%Z +:+ "m") +:+ unit_text (d mod minute)%Z 9 "s".

(** [json.Marshal] of an argument map; the nested objects are in key order already. *)
Definition marshal_args (args : gmap string json) : string :=
  of_list (print_json (JObj (map (fun k => (k, default JNull (args !! k))) (sort_strings (elements (dom args)))))).

Definition denied_result (name reason : string) : ToolResult :=
  {| tr_Content := "tool " +:+ fmt_q name +:+ " denied: " +:+ reason; tr_IsError := true; tr_Outcome := "" |}.

Definition as_denied (res : ToolResult) : ToolResult :=
  {| tr_Content := tr_Content res; tr_IsError := tr_IsError res; tr_Outcome := ToolOutcomeDenied |}.

(** * The adapter *)

(** The collaborators every ladder shares; a nil toggle counts as on. *)
Record ConfirmDeps := { dp_Enabled : option bool; dp_Headless : string; dp_HeadlessExplicit : bool; dp_Audit : bool }.

Record kernelToolAdapter := {
  ka_sessionID : string;
  ka_autonomy : option ResolvedKnobs;
  ka_gate : option Gate;
  ka_rater : option (string -> string -> string -> result Rating RateErr);
  ka_layer3PromptTimeout : Z;
  ka_deps : ConfirmDeps
}.

Record consent_env (Io : Type) := {
  en_Unattended : bool; en_Batch : string; en_NewBatch : string; en_CallID : string;
  en_Wait : wait_end; en_CtxErr : bool; en_Io : Io
}.
Arguments en_Unattended {Io}. Arguments en_Batch {Io}. Arguments en_NewBatch {Io}. Arguments en_CallID {Io}.
Arguments en_Wait {Io}. Arguments en_CtxErr {Io}. Arguments en_Io {Io}.

Record consent_state (S : Type) := {
  st_bus : option ConfirmBus; st_grants : SessionGrantCache; st_store : option S; st_audit : list audit_event
}.
Arguments st_bus {S}. Arguments st_grants {S}. Arguments st_store {S}. Arguments st_audit {S}.

(** What [resolveConfirmEach] returns: proceed, the result of a refusal, or the error of
    an aborted wait. *)
Inductive consent := Proceed | Refused (res : ToolResult) | Aborted (err : string).

Record ToolCall := { kc_Name : string; kc_Args : gmap string json }.

Section Consent.
Context {S Io : Type} `{PersistentGrantStore S Io}.
Implicit Types (a : kernelToolAdapter) (e : consent_env Io) (st : consent_state S).

Definition emit (deps : ConfirmDeps) (ev : audit_event) st : consent_state S :=
  if dp_Audit deps
  then {| st_bus := st_bus st; st_grants := st_grants st; st_store := st_store st; st_audit := st_audit st ++ [ev] |} else st.

Definition with_bus (bus : option ConfirmBus) st : consent_state S :=
  {| st_bus := bus; st_grants := st_grants st; st_store := st_store st; st_audit := st_audit st |}.
Definition with_grants (g : SessionGrantCache) st : consent_state S :=
  {| st_bus := st_bus st; st_grants := g; st_store := st_store st; st_audit := st_audit st |}.
Definition with_store (s : option S) st : consent_state S :=
  {| st_bus := st_bus st; st_grants := st_grants st; st_store := s; st_audit := st_audit st |}.

Definition writePersistentGrant a e (server tool : string) st : bool * consent_state S :=
  let entry written id err :=
    GrantWritten {| gw_SessionID := ka_sessionID a; gw_Server := server; gw_Tool := tool; gw_GrantID := id; gw_Written := written; gw_Error := err |} in
  match st_store st with
  | None => (false, emit (ka_deps a) (entry false "" "no persistent grant store wired") st)
  | Some s =>
      match WriteGrant (en_Io e) s server tool with
      | (s, Some err) => (false, emit (ka_deps a) (entry false "" err) (with_store (Some s) st))
      | (s, None) => (true, emit (ka_deps a) (entry true (GrantID s server tool) "") (with_store (Some s) st))
      end
  end.

Definition unattended_reason : string :=
  "unattended run (scheduled dispatch): a layer-3 risk-rated prompt denies immediately, same as an organic confirm_each verdict (no wait — nobody is present to answer)".

Definition defaultLayer3PromptTimeout : Z := 86400000000000.

Definition layer3_wait a : Z :=
  if (ka_layer3PromptTimeout a <=? 0)%Z then defaultLayer3PromptTimeout else ka_layer3PromptTimeout a.

Definition confirm_request a e (call : ToolCall) (server tool reason : string) (threshold : Z) (detail : option riskPromptDetail) : ConfirmRequest :=
  {| cq_SessionID := ka_sessionID a; cq_CallID := en_CallID e;
     cq_BatchID := if bool_decide (en_Batch e = "") then en_NewBatch e else en_Batch e;
     cq_Server := server; cq_Tool := tool; cq_ArgsSummary := SummarizeArgs (kc_Args call); cq_Reason := reason;
     cq_HasRiskRating := match detail with Some _ => true | None => false end;
     cq_RiskScore := from_option rd_Score 0%Z detail; cq_RiskTier := from_option rd_Tier "" detail;
     cq_RiskThreshold := match detail with Some _ => threshold | None => 0%Z end;
     cq_RiskRationale := from_option rd_Rationale "" detail |}.

Definition promptConfirmEach a e (call : ToolCall) (server tool reason : string) (layer threshold : Z)
    (detail : option riskPromptDetail) st : consent * consent_state S :=
  let record := decided (ka_sessionID a) server tool in
  if (layer =? 3)%Z && en_Unattended e then
    (Refused (denied_result (kc_Name call) unattended_reason),
     emit (ka_deps a) (ConfirmDecided (with_detail detail (record PathLayer3Timeout layer threshold false unattended_reason))) st)
  else
    let req := confirm_request a e call server tool reason threshold detail in
    let '(bus, answer) := Pending (st_bus st) req (en_Wait e) in
    let st := with_bus bus st in
    match answer with
    | Err err =>
        if (layer =? 3)%Z && negb (en_CtxErr e) then
          let why := "no confirmation received within " +:+ Duration_String (layer3_wait a) +:+
                     "; risk-rated layer-3 prompts deny on deadline rather than parking indefinitely" in
          (Refused (denied_result (kc_Name call) why),
           emit (ka_deps a) (ConfirmDecided (with_request req false false
             (with_detail detail (record PathLayer3Timeout layer threshold false why)))) st)
        else (Aborted ("chat: tool confirmation: " +:+ err), st)
    | Ok d =>
        let st := if cd_Approved d && cd_RememberSession d
                  then with_grants (sg_Grant (st_grants st) (ka_sessionID a) server tool) st else st in
        let '(persisted, st) := if cd_Approved d && cd_Persist d then writePersistentGrant a e server tool st else (false, st) in
        let st := emit (ka_deps a) (ConfirmDecided (with_request req (cd_Approved d && cd_RememberSession d) persisted
                    (record PathPrompted layer threshold (cd_Approved d) (cd_Reason d)))) st in
        if cd_Approved d then (Proceed, st)
        else (Refused (denied_result (kc_Name call) (if bool_decide (cd_Reason d = "") then "not approved by user" else cd_Reason d)), st)
    end.

Definition resolveLayer3OfflineFloor a e (call : ToolCall) (server tool : string) (threshold : Z) (rerr : string) st :
    consent * consent_state S :=
  let family := ClassifyToolFamily tool in
  let offlineScore := ApplyFamilyFloor family 0 in
  let tier := BandFor offlineScore in
  let approved := (offlineScore <? threshold)%Z in
  let reason := "risk rater unreachable (" +:+ rerr +:+ "); running on the offline floor for family " +:+ fmt_q family +:+
                " (score " +:+ fmt_d offlineScore +:+ ") against threshold " +:+ fmt_d threshold in
  let detail rationale := {| rd_Score := offlineScore; rd_Tier := tier; rd_Model := ""; rd_PromptVersion := ""; rd_CacheHit := false; rd_Rationale := rationale |} in
  let st := emit (ka_deps a) (ConfirmDecided (with_detail (Some (detail ""))
              (decided (ka_sessionID a) server tool PathLayer3OfflineFloor 3 threshold approved reason))) st in
  if approved then (Proceed, st)
  else promptConfirmEach a e call server tool reason 3 threshold (Some (detail reason)) st.

Definition resolveLayer3Rating a (rate : string -> string -> string -> result Rating RateErr) e (call : ToolCall)
    (server tool : string) (threshold : Z) st : consent * consent_state S :=
  match rate (kc_Name call) (marshal_args (kc_Args call)) (ka_sessionID a) with
  | Err err =>
      if re_Unreachable err then resolveLayer3OfflineFloor a e call server tool threshold (re_Msg err) st
      else promptConfirmEach a e call server tool ("layer 3: risk rater failed (" +:+ re_Msg err +:+ "); asking") 3 threshold None st
  | Ok rating =>
      let floored := ApplyFamilyFloor (ClassifyToolFamily tool) (rt_Score rating) in
      let detail rationale :=
        {| rd_Score := floored; rd_Tier := BandFor floored; rd_Model := rt_Model rating; rd_PromptVersion := rt_PromptVersion rating;
           rd_CacheHit := rt_CacheHit rating; rd_Rationale := rationale |} in
      let scores := fmt_d (rt_Score rating) +:+ " (floored " +:+ fmt_d floored +:+ ")" in
      if (floored <? threshold)%Z then
        (Proceed, emit (ka_deps a) (ConfirmDecided (with_detail (Some (detail ""))
           (decided (ka_sessionID a) server tool PathLayer3RaterAllow 3 threshold true
              ("risk rating " +:+ scores +:+ " below threshold " +:+ fmt_d threshold +:+ ": " +:+ rt_Rationale rating)))) st)
      else
        promptConfirmEach a e call server tool
          ("layer 3: risk rating " +:+ scores +:+ " at/above threshold " +:+ fmt_d threshold +:+ ": " +:+ rt_Rationale rating)
          3 threshold (Some (detail (rt_Rationale rating))) st
  end.

(** ** The ladder *)

Definition effective_headless (unattended : bool) (deps : ConfirmDeps) : string :=
  if bool_decide ((if unattended then HeadlessDeny else dp_Headless deps) = HeadlessAllow) then HeadlessAllow else HeadlessDeny.

Definition headless_reason (unattended : bool) (deps : ConfirmDeps) : string :=
  if unattended then "unattended run (scheduled dispatch): confirm_each denies by construction"
  else if dp_HeadlessExplicit deps
       then "deployment declared headless by operator; headless policy: " +:+ effective_headless unattended deps
       else "no confirmation channel is attached; headless policy: " +:+ effective_headless unattended deps.

Definition no_channel (bus : option ConfirmBus) : bool := negb (from_option HasChannel false bus).

(** Rungs 1 to 6. *)
Definition confirm_rungs a e (call : ToolCall) (server tool reason : string) st : consent * consent_state S :=
  let deps := ka_deps a in
  let rung path approved why st := emit deps (ConfirmDecided (decided (ka_sessionID a) server tool path 0 0 approved why)) st in
  if from_option (fun knobs => SkipsTool (promptSkipSet knobs) tool) false (ka_autonomy a) then
    (Proceed, rung PathSkipSet true ("autonomy posture auto-approves family " +:+ ClassifyToolFamily tool) st)
  else if negb (default true (dp_Enabled deps)) then
    (Proceed, rung PathToggleOff true "confirm-each disabled in Settings" st)
  else if sg_Has (st_grants st) (ka_sessionID a) server tool then
    (Proceed, rung PathSessionGrant true "session grant" st)
  else if from_option (fun s => HasGrant s server tool) false (st_store st) then
    (Proceed, rung PathPersistedGrant true "persisted allow rule" st)
  else if en_Unattended e || dp_HeadlessExplicit deps || no_channel (st_bus st) then
    let approved := bool_decide (effective_headless (en_Unattended e) deps = HeadlessAllow) in
    let why := headless_reason (en_Unattended e) deps in
    (if approved then Proceed else Refused (denied_result (kc_Name call) why), rung PathHeadlessPolicy approved why st)
  else promptConfirmEach a e call server tool reason 0 0 None st.

Definition threshold_of a : Z := from_option rk_RiskThreshold 0%Z (ka_autonomy a).

Definition resolveConfirmEach a e (call : ToolCall) (server tool reason : string) st : consent * consent_state S :=
  match ka_gate a with
  | None => confirm_rungs a e call server tool reason st
  | Some g =>
      let threshold := threshold_of a in
      let d := ThreeLayerResolve g ActionUseTool (ToolID server tool) threshold in
      let layer path n approved := emit (ka_deps a) (ConfirmDecided (decided (ka_sessionID a) server tool path n threshold approved (dc_Reason d))) st in
      match dc_Outcome d with
      | Deny => (Refused (denied_result (kc_Name call) (dc_Reason d)), layer PathLayer1Forbid 1%Z false)
      | Allow => (Proceed, layer PathLayer2Permit 2%Z true)
      | Confirm =>
          match ka_rater a with
          | Some rate =>
              if (0 <? threshold)%Z then resolveLayer3Rating a rate e call server tool threshold st
              else promptConfirmEach a e call server tool (dc_Reason d) 3 threshold None st
          | None => promptConfirmEach a e call server tool (dc_Reason d) 3 threshold None st
          end
      | _ => confirm_rungs a e call server tool reason st
      end
  end.

(** * Dispatch *)

Definition splitName (name : string) : option (string * string) :=
  match index_of (list_of "__") (list_of name) with
  | None => None
  | Some i =>
      let s := take i (list_of name) in
      let t := drop (i + 2) (list_of name) in
      match s, t with [], _ | _, [] => None | _, _ => Some (of_list s, of_list t) end
  end.

(** [ToolPool]: the catalog and the tools themselves. *)
Record ToolPool := {
  tp_Tools : result (list (string * string)) string;
  tp_Call : string -> string -> string -> result string string
}.

(** The adapter with what [dispatchCall] needs besides: the exposure gate stops a call or
    lets it pass; [dk_Moves] tells whether the journal records. *)
Record dispatcher := {
  dk_adapter : kernelToolAdapter;
  dk_pool : option ToolPool;
  dk_perms : option (string -> string -> result Resolution string);
  dk_exposure : option (string -> option ToolResult);
  dk_Moves : bool
}.

Inductive move := MoveCall (call : ToolCall) | MoveResult (call : ToolCall) (res : ToolResult).

Record dispatch_state := {
  ds_consent : consent_state S;
  ds_catalog : option (list (string * string));
  ds_called : list string;
  ds_runs : list (string * string * string);
  ds_moves : list move
}.

Implicit Types (dk : dispatcher) (ds : dispatch_state).

Definition with_consent st ds : dispatch_state :=
  {| ds_consent := st; ds_catalog := ds_catalog ds; ds_called := ds_called ds; ds_runs := ds_runs ds; ds_moves := ds_moves ds |}.

(** The server and tool of a call: by the separator, else by the catalog. *)
Definition locate (pool : ToolPool) (name : string) ds : dispatch_state * result (string * string) string :=
  match splitName name with
  | Some st => (ds, Ok st)
  | None =>
      let catalog := match ds_catalog ds with Some c => Ok c | None => tp_Tools pool end in
      match catalog with
      | Err err => (ds, Err ("chat: tool catalog: " +:+ err))
      | Ok c =>
          ({| ds_consent := ds_consent ds; ds_catalog := Some c; ds_called := ds_called ds; ds_runs := ds_runs ds; ds_moves := ds_moves ds |},
           match find (fun t => bool_decide (t.2 = name)) c with
           | Some t => Ok t
           | None => Err ("chat: unknown tool " +:+ fmt_q name)
           end)
      end
  end.

(** The permission switch: the result of a refusal, or permission to go on. *)
Definition permit dk e (call : ToolCall) (server tool : string) st : result (option ToolResult) string * consent_state S :=
  match dk_perms dk with
  | None => (Ok None, st)
  | Some resolve =>
      match resolve server tool with
      | Err err => (Err ("chat: permission resolve: " +:+ err), st)
      | Ok v =>
          if bool_decide (rs_Policy v = PolicyAutoAllow) then (Ok None, st)
          else if bool_decide (rs_Policy v = PolicyDeny) then
            (Ok (Some (as_denied (denied_result (kc_Name call) (if bool_decide (rs_Reason v = "") then "denied by permission policy" else rs_Reason v)))), st)
          else if bool_decide (rs_Policy v = PolicyConfirmEach) then
            match resolveConfirmEach (dk_adapter dk) e call server tool (rs_Reason v) st with
            | (Aborted err, st) => (Err err, st)
            | (Refused res, st) => (Ok (Some (as_denied res)), st)
            | (Proceed, st) => (Ok None, st)
            end
          else (Ok (Some (as_denied (denied_result (kc_Name call) ("unrecognised permission policy " +:+ fmt_q (rs_Policy v))))), st)
      end
  end.

(** Past every gate. *)
Definition run_tool dk (pool : ToolPool) e (call : ToolCall) (server tool : string) ds : result ToolResult string * dispatch_state :=
  let args := marshal_args (kc_Args call) in
  let ds :=
    {| ds_consent := ds_consent ds; ds_catalog := ds_catalog ds;
       ds_called := match dk_exposure dk with Some _ => ds_called ds ++ [server +:+ "__" +:+ tool] | None => ds_called ds end;
       ds_runs := ds_runs ds ++ [(server, tool, args)]; ds_moves := ds_moves ds |} in
  (Ok match tp_Call pool server tool args with
      | Err err =>
          {| tr_Content := AppendEnvironmentDriftHint err; tr_IsError := true;
             tr_Outcome := if en_CtxErr e then ToolOutcomeCancelled else "" |}
      | Ok out => {| tr_Content := out; tr_IsError := false; tr_Outcome := "" |}
      end, ds).

Definition dispatchCall dk e (call : ToolCall) ds : result ToolResult string * dispatch_state :=
  match dk_pool dk with
  | None => (Err "chat: nil tool pool adapter", ds)
  | Some pool =>
      let '(ds, found) := locate pool (kc_Name call) ds in
      match found with
      | Err err => (Err err, ds)
      | Ok (server, tool) =>
          match dk_exposure dk ≫= fun gateCall => gateCall (server +:+ "__" +:+ tool) with
          | Some res => (Ok (as_denied res), ds)
          | None =>
              let '(verdict, st) := permit dk e call server tool (ds_consent ds) in
              let ds := with_consent st ds in
              match verdict with
              | Err err => (Err err, ds)
              | Ok (Some res) => (Ok res, ds)
              | Ok None => run_tool dk pool e call server tool ds
              end
          end
      end
  end.

Definition record_move dk (m : move) ds : dispatch_state :=
  if dk_Moves dk
  then {| ds_consent := ds_consent ds; ds_catalog := ds_catalog ds; ds_called := ds_called ds; ds_runs := ds_runs ds; ds_moves := ds_moves ds ++ [m] |}
  else ds.

(** [Call]: the request is on record before the dispatch, its result after. *)
Definition Call dk e (call : ToolCall) ds : result ToolResult string * dispatch_state :=
  let '(res, ds) := dispatchCall dk e call (record_move dk (MoveCall call) ds) in
  let shown := match res with Ok r => r | Err err => {| tr_Content := err; tr_IsError := true; tr_Outcome := "" |} end in
  (res, record_move dk (MoveResult call shown) ds).
End Consent.
Arguments dispatch_state : clear implicits.
