(* ===== verification/ConsentProps.v ===== *)
(** What the consent gate guarantees: who let a call through, what the audit trail says of
    it, and what an approval is worth afterwards. *)
From S2P Require Import Prelude GoString Utf8 Json Autonomy Risk RiskProps Perms ConfirmBus Grants GrantsProps AgentGraph ToolArgs Consent.
From stdpp Require Import gmap.
From Stdlib Require Import Ascii.
Local Open Scope nat_scope.

Section Consent.
Context {S Io : Type} `{!PersistentGrantStore S Io}.
Implicit Types (a : kernelToolAdapter) (e : consent_env Io) (st : consent_state S).

(** The user's decision on a call: it was parked, and answered. *)
Definition user_decision a e st : option ConfirmDecision :=
  match st_bus st, en_Wait e with
  | Some b, WAnswered d =>
      if bool_decide (en_CallID e = "") || bool_decide (is_Some (cb_pending b !! confirmKey (ka_sessionID a) (en_CallID e))) then None else Some d
  | _, _ => None
  end.

Definition user_approves a e st : bool := from_option cd_Approved false (user_decision a e st).

Definition proceeds (r : consent * consent_state S) : bool := match r.1 with Proceed => true | _ => false end.

(** The trail [st'] adds to the one of [st]: it ends with the decision, and no other record
    approves anything. *)
Definition approving (ev : audit_event) : bool := match ev with ConfirmDecided p => cp_Approved p | GrantWritten _ => false end.

Definition audited st (r : consent * consent_state S) : Prop :=
  exists evs, st_audit r.2 = st_audit st ++ evs /\
  match r.1 with
  | Proceed => exists p, last evs = Some (ConfirmDecided p) /\ cp_Approved p = true
  | Refused _ => (exists p, last evs = Some (ConfirmDecided p)) /\ Forall (fun ev => approving ev = false) evs
  | Aborted _ => Forall (fun ev => approving ev = false) evs
  end.

Lemma Pending_decision a e st call server tool reason threshold detail bus answer :
  Pending (st_bus st) (confirm_request a e call server tool reason threshold detail) (en_Wait e) = (bus, answer) ->
  match user_decision a e st with Some d => answer = Ok d | None => exists err, answer = Err err end.
Proof.
  unfold user_decision. destruct (st_bus st) as [b|]; [|by intros [= <- <-]; eexists].
  destruct (Pending_spec b (confirm_request a e call server tool reason threshold detail) (en_Wait e)) as (b' & Hp & _).
  rewrite Hp. intros [= <- <-]. unfold req_key. cbn [cq_CallID cq_SessionID confirm_request].
  destruct (en_Wait e) as [d|err]; repeat case_bool_decide; cbn [orb]; eauto.
Qed.

Lemma write_audit a e server tool st : dp_Audit (ka_deps a) = true ->
  exists ev, st_audit (writePersistentGrant a e server tool st).2 = st_audit st ++ [ev] /\ approving ev = false.
Proof.
  intros Ha. unfold writePersistentGrant. destruct (st_store st) as [s|]; [destruct (WriteGrant _ s server tool) as [s' [err|]]|];
    unfold emit; rewrite Ha; cbn; eexists; done.
Qed.

Lemma emit_audit deps ev st : dp_Audit deps = true -> st_audit (emit deps ev st) = st_audit st ++ [ev].
Proof. intros Ha. unfold emit. by rewrite Ha. Qed.

Lemma approving_detail d p : approving (ConfirmDecided (with_detail d p)) = cp_Approved p.
Proof. by destruct d. Qed.

(** The prompt lets a call through exactly when the user approves it, and is audited. *)
Lemma prompt_spec a e call server tool reason layer threshold detail st :
  let r := promptConfirmEach a e call server tool reason layer threshold detail st in
  proceeds r = negb ((layer =? 3)%Z && en_Unattended e) && user_approves a e st /\
  (dp_Audit (ka_deps a) = true -> audited st r).
Proof.
  cbn zeta. unfold promptConfirmEach. destruct ((layer =? 3)%Z && en_Unattended e); cbn [negb andb].
  - split; [done|]. intros Ha. eexists; split; [by apply emit_audit|]. split; [by eexists|].
    repeat constructor. by rewrite approving_detail.
  - destruct (Pending _ _ _) as [bus answer] eqn:Hp. apply Pending_decision in Hp. unfold user_approves.
    destruct (user_decision a e st) as [d|].
    + subst answer. set (st1 := if cd_Approved d && cd_RememberSession d then _ else _).
      assert (st_audit st1 = st_audit st) as Hst1 by (unfold st1; by destruct (_ && _)).
      destruct (if cd_Approved d && cd_Persist d then _ else _) as [persisted st2] eqn:Hw.
      assert (dp_Audit (ka_deps a) = true -> exists evs, st_audit st2 = st_audit st ++ evs /\ Forall (fun ev => approving ev = false) evs) as Haud.
      { intros Ha. destruct (cd_Approved d && cd_Persist d).
        - destruct (write_audit a e server tool st1 Ha) as (ev & Hev & Hno). rewrite Hw, Hst1 in Hev. exists [ev]. split; [done|by repeat constructor].
        - injection Hw as _ <-. exists []. by rewrite app_nil_r. }
      cbn [from_option]. destruct (cd_Approved d) eqn:Hd; (split; [done|]); intros Ha; destruct (Haud Ha) as (evs & He & Hno);
        eexists; (split; [cbn [snd]; rewrite emit_audit, He, <- app_assoc by done; reflexivity|]); cbn [fst].
      * eexists. by rewrite last_snoc.
      * split; [eexists; by rewrite last_snoc|]. apply Forall_app. split; [done|]. by repeat constructor.
    + destruct Hp as [err ->]. destruct ((layer =? 3)%Z && negb (en_CtxErr e)); cbn [fst snd].
      * split; [done|]. intros Ha. eexists; split; [cbn [snd]; rewrite emit_audit by done; reflexivity|]. split; [by eexists|].
        repeat constructor. cbn. by destruct detail.
      * split; [done|]. intros _. exists []. split; [by rewrite app_nil_r|constructor].
Qed.

Lemma proceed_audit st deps p : dp_Audit deps = true -> cp_Approved p = true -> audited st (Proceed, emit deps (ConfirmDecided p) st).
Proof. intros Ha Hp. eexists. split; [by apply emit_audit|]. eexists. by split. Qed.

Lemma refuse_audit st deps p res : dp_Audit deps = true -> cp_Approved p = false -> audited st (Refused res, emit deps (ConfirmDecided p) st).
Proof. intros Ha Hp. eexists. split; [by apply emit_audit|]. split; [by eexists|]. by repeat constructor. Qed.

Lemma audited_after st deps p r : dp_Audit deps = true -> cp_Approved p = false ->
  audited (emit deps (ConfirmDecided p) st) r -> audited st r.
Proof.
  intros Ha Hp (evs & He & Hr). rewrite emit_audit in He by done. exists (ConfirmDecided p :: evs). rewrite He, <- app_assoc. split; [done|].
  destruct (r.1).
  - destruct Hr as (q & Hl & Hq). exists q. by rewrite last_cons, Hl.
  - destruct Hr as ((q & Hl) & Hno). split; [exists q; by rewrite last_cons, Hl|]. by constructor.
  - by constructor.
Qed.

(** What the rating of a call is worth: its score, floored by the family; nothing when the
    rater failed in transit; the floor alone when there was no route to it. *)
Definition effective_score a (call : ToolCall) (tool : string) : option Z :=
  match ka_rater a with
  | None => None
  | Some rate =>
      match rate (kc_Name call) (marshal_args (kc_Args call)) (ka_sessionID a) with
      | Ok rating => Some (ApplyFamilyFloor (ClassifyToolFamily tool) (rt_Score rating))
      | Err err => if re_Unreachable err then Some (ApplyFamilyFloor (ClassifyToolFamily tool) 0) else None
      end
  end.

Definition rated_below_threshold a call tool : bool :=
  (0 <? threshold_of a)%Z && from_option (fun score => score <? threshold_of a)%Z false (effective_score a call tool).

Lemma rating_spec a rate e call server tool st : ka_rater a = Some rate -> (0 < threshold_of a)%Z ->
  let r := resolveLayer3Rating a rate e call server tool (threshold_of a) st in
  proceeds r = rated_below_threshold a call tool || negb (en_Unattended e) && user_approves a e st /\
  (dp_Audit (ka_deps a) = true -> audited st r).
Proof.
  intros Hr Ht. cbn zeta. unfold resolveLayer3Rating, rated_below_threshold, effective_score. rewrite Hr.
  assert ((0 <? threshold_of a)%Z = true) as -> by lia. cbn [andb].
  destruct (rate _ _ _) as [rating|err]; cbn [from_option].
  - destruct (_ <? _)%Z; [split; [done|]; intros Ha; by apply proceed_audit|].
    apply (prompt_spec a e call server tool _ 3 (threshold_of a)).
  - destruct (re_Unreachable err); [|apply (prompt_spec a e call server tool _ 3 (threshold_of a))].
    unfold resolveLayer3OfflineFloor. cbn [from_option]. destruct (ApplyFamilyFloor _ 0 <? _)%Z eqn:Hlt.
    + split; [done|]. intros Ha. by apply proceed_audit.
    + set (st1 := emit _ _ st). destruct (prompt_spec a e call server tool
        ("risk rater unreachable (" +:+ re_Msg err +:+ "); running on the offline floor for family " +:+ fmt_q (ClassifyToolFamily tool) +:+
         " (score " +:+ fmt_d (ApplyFamilyFloor (ClassifyToolFamily tool) 0) +:+ ") against threshold " +:+ fmt_d (threshold_of a)) 3 (threshold_of a)
        (Some {| rd_Score := ApplyFamilyFloor (ClassifyToolFamily tool) 0; rd_Tier := BandFor (ApplyFamilyFloor (ClassifyToolFamily tool) 0);
                 rd_Model := ""; rd_PromptVersion := ""; rd_CacheHit := false;
                 rd_Rationale := "risk rater unreachable (" +:+ re_Msg err +:+ "); running on the offline floor for family " +:+ fmt_q (ClassifyToolFamily tool) +:+
         " (score " +:+ fmt_d (ApplyFamilyFloor (ClassifyToolFamily tool) 0) +:+ ") against threshold " +:+ fmt_d (threshold_of a) |}) st1) as [Hp Ha].
      split; [rewrite Hp|intros Hon; by eapply audited_after, Ha].
      cbn [orb]. f_equal. unfold st1, emit, user_approves, user_decision. by destruct (dp_Audit _).
Qed.

(** ** Who lets a call through *)

(** The decision on a call under a confirm-each verdict. *)
Definition consent_given a e call server tool st : bool :=
  match ka_gate a with
  | Some g =>
      match dc_Outcome (g ActionUseTool (ToolID server tool)) with
      | Deny => false
      | Allow => true
      | _ => rated_below_threshold a call tool || negb (en_Unattended e) && user_approves a e st
      end
  | None =>
      from_option (fun knobs => SkipsTool (promptSkipSet knobs) tool) false (ka_autonomy a)
      || negb (default true (dp_Enabled (ka_deps a)))
      || sg_Has (st_grants st) (ka_sessionID a) server tool
      || from_option (fun s => HasGrant s server tool) false (st_store st)
      || (if en_Unattended e || dp_HeadlessExplicit (ka_deps a) || no_channel (st_bus st)
          then bool_decide (effective_headless (en_Unattended e) (ka_deps a) = HeadlessAllow) else user_approves a e st)
  end.

Lemma resolve_spec a e call server tool reason st :
  let r := resolveConfirmEach a e call server tool reason st in
  proceeds r = consent_given a e call server tool st /\ (dp_Audit (ka_deps a) = true -> audited st r).
Proof.
  cbn zeta. unfold resolveConfirmEach, consent_given. destruct (ka_gate a) as [g|].
  - assert (forall why, proceeds (match ka_rater a with
          | Some rate => if (0 <? threshold_of a)%Z then resolveLayer3Rating a rate e call server tool (threshold_of a) st
                         else promptConfirmEach a e call server tool why 3 (threshold_of a) None st
          | None => promptConfirmEach a e call server tool why 3 (threshold_of a) None st end) =
        rated_below_threshold a call tool || negb (en_Unattended e) && user_approves a e st /\
        (dp_Audit (ka_deps a) = true -> audited st (match ka_rater a with
          | Some rate => if (0 <? threshold_of a)%Z then resolveLayer3Rating a rate e call server tool (threshold_of a) st
                         else promptConfirmEach a e call server tool why 3 (threshold_of a) None st
          | None => promptConfirmEach a e call server tool why 3 (threshold_of a) None st end))) as Hl3.
    { intros why. destruct (ka_rater a) as [rate|] eqn:Hr; [destruct (0 <? threshold_of a)%Z eqn:Ht|].
      - apply (rating_spec a rate); [done|lia].
      - unfold rated_below_threshold. rewrite Ht. apply (prompt_spec a e call server tool why 3).
      - unfold rated_below_threshold, effective_score. rewrite Hr, andb_false_r. apply (prompt_spec a e call server tool why 3). }
    unfold ThreeLayerResolve. destruct (dc_Outcome (g _ _)); cbn [redecide dc_Outcome dc_Reason]; try apply Hl3.
    + split; [done|]. intros Ha. by apply proceed_audit.
    + split; [done|]. intros Ha. by apply refuse_audit.
  - unfold confirm_rungs. destruct (from_option (fun knobs => SkipsTool _ tool) _ _); cbn [orb]; [split; [done|]; intros; by apply proceed_audit|].
    destruct (negb (default true _)); cbn [orb]; [split; [done|]; intros; by apply proceed_audit|].
    destruct (sg_Has _ _ _ _); cbn [orb]; [split; [done|]; intros; by apply proceed_audit|].
    destruct (from_option (fun s => HasGrant s server tool) _ _); cbn [orb]; [split; [done|]; intros; by apply proceed_audit|].
    destruct (_ || _ || _).
    + case_bool_decide; (split; [done|]; intros; by (apply proceed_audit || apply refuse_audit)).
    + apply (prompt_spec a e call server tool reason 0 0 None).
Qed.

(** The server and tool a dispatch may run, if any gate does not stop it first. *)
Definition admitted (dk : dispatcher) e (call : ToolCall) (ds : dispatch_state S) : option (string * string) :=
  match dk_pool dk with
  | None => None
  | Some pool =>
      match (locate pool (kc_Name call) ds).2 with
      | Err _ => None
      | Ok (server, tool) =>
          match dk_exposure dk ≫= fun gateCall => gateCall (server +:+ "__" +:+ tool) with
          | Some _ => None
          | None =>
              match dk_perms dk with
              | None => Some (server, tool)
              | Some resolve =>
                  match resolve server tool with
                  | Err _ => None
                  | Ok v =>
                      if bool_decide (rs_Policy v = PolicyAutoAllow) then Some (server, tool)
                      else if bool_decide (rs_Policy v = PolicyConfirmEach) && consent_given (dk_adapter dk) e call server tool (ds_consent ds)
                           then Some (server, tool) else None
                  end
              end
          end
      end
  end.

Lemma locate_keeps pool name (ds : dispatch_state S) :
  ds_runs (locate pool name ds).1 = ds_runs ds /\ ds_consent (locate pool name ds).1 = ds_consent ds.
Proof.
  unfold locate. destruct (splitName name); [done|]. destruct (ds_catalog ds); [done|]. by destruct (tp_Tools pool).
Qed.

Lemma permit_spec dk e call server tool st :
  match dk_perms dk with
  | None => (permit dk e call server tool st).1 = Ok None
  | Some resolve =>
      match resolve server tool with
      | Err _ => exists err, (permit dk e call server tool st).1 = Err err
      | Ok v =>
          if bool_decide (rs_Policy v = PolicyAutoAllow)
             || bool_decide (rs_Policy v = PolicyConfirmEach) && consent_given (dk_adapter dk) e call server tool st
          then (permit dk e call server tool st).1 = Ok None
          else (exists err, (permit dk e call server tool st).1 = Err err) \/
               exists res, (permit dk e call server tool st).1 = Ok (Some res) /\ tr_Outcome res = ToolOutcomeDenied
      end
  end.
Proof.
  unfold permit. destruct (dk_perms dk) as [resolve|]; [|done]. destruct (resolve server tool) as [v|err]; [|by eexists].
  destruct (bool_decide (rs_Policy v = PolicyAutoAllow)) eqn:Hauto; cbn [orb]; [done|].
  destruct (bool_decide (rs_Policy v = PolicyDeny)) eqn:Hdeny.
  - apply bool_decide_eq_true in Hdeny. rewrite Hdeny. cbn. right. eexists. by split.
  - destruct (bool_decide (rs_Policy v = PolicyConfirmEach)) eqn:Hc; cbn [andb]; [|right; eexists; by split].
    destruct (resolve_spec (dk_adapter dk) e call server tool (rs_Reason v) st) as [Hp _]. rewrite <- Hp. unfold proceeds.
    destruct (resolveConfirmEach _ _ _ _ _ _ _) as [[|res|err] st']; cbn [fst]; [done|right; eexists; by split|left; by eexists].
Qed.

(** C4: a tool runs exactly when its call is located, shown to the session, and either
    auto-allowed or under a confirm-each verdict to which consent was given; it runs once,
    with the arguments of the call, and a call that does not run ends in an error of the
    run or a result marked as denied.  Denied and unknown policies never run anything. *)
Theorem tool_runs_only_by_consent dk e call (ds : dispatch_state S) :
  let '(res, ds') := dispatchCall dk e call ds in
  ds_runs ds' = ds_runs ds ++ match admitted dk e call ds with
                              | Some (server, tool) => [(server, tool, marshal_args (kc_Args call))]
                              | None => []
                              end /\
  (admitted dk e call ds = None -> (exists err, res = Err err) \/ exists r, res = Ok r /\ tr_Outcome r = ToolOutcomeDenied).
Proof.
  unfold dispatchCall, admitted. destruct (dk_pool dk) as [pool|]; [|rewrite app_nil_r; naive_solver].
  destruct (locate_keeps pool (kc_Name call) ds) as [Hruns Hst]. destruct (locate pool (kc_Name call) ds) as [ds1 [[server tool]|err]]; cbn [fst snd] in *;
    [|rewrite app_nil_r; naive_solver].
  destruct (dk_exposure dk ≫= _); [rewrite app_nil_r; naive_solver|]. rewrite Hst.
  pose proof (permit_spec dk e call server tool (ds_consent ds)) as Hp.
  destruct (permit dk e call server tool (ds_consent ds)) as [verdict st]. cbn [fst] in Hp.
  destruct (dk_perms dk) as [resolve|]; [destruct (resolve server tool) as [v|err]|].
  - destruct (bool_decide (rs_Policy v = PolicyAutoAllow)); cbn [orb] in Hp; [subst verdict; cbn; by rewrite Hruns|].
    destruct (_ && _); [subst verdict; cbn; by rewrite Hruns|].
    rewrite app_nil_r. destruct Hp as [[err ->]|(r & -> & Hr)]; cbn [with_consent ds_runs]; naive_solver.
  - destruct Hp as [err' ->]. rewrite app_nil_r. cbn [with_consent ds_runs]. naive_solver.
  - subst verdict. cbn. by rewrite Hruns.
Qed.

(** Under a confirm-each verdict with a gate wired, a call of a dangerous family proceeds
    on Cedar's permit or a person's approval: below the floor no rating counts. *)
Lemma dangerous_consent a e call server tool st g :
  ka_gate a = Some g -> ClassifyToolFamily tool = FamilyDestructive \/ ClassifyToolFamily tool = FamilyUnknown ->
  (threshold_of a <= 81)%Z -> consent_given a e call server tool st = true ->
  dc_Outcome (g ActionUseTool (ToolID server tool)) = Allow \/ en_Unattended e = false /\ user_approves a e st = true.
Proof.
  intros Hg Hf Ht. unfold consent_given. rewrite Hg.
  assert (rated_below_threshold a call tool = false) as ->.
  { unfold rated_below_threshold, effective_score. destruct (ka_rater a) as [rate|]; [|apply andb_false_r].
    assert (forall score, (ApplyFamilyFloor (ClassifyToolFamily tool) score <? threshold_of a)%Z = false) as Hno
      by (intros score; destruct (floor_bounds (ClassifyToolFamily tool) score) as [_ Hb]; specialize (Hb Hf); unfold familyFloorScore in Hb; lia).
    destruct (rate _ _ _) as [rating|err]; [|destruct (re_Unreachable err)]; cbn [from_option]; rewrite ?Hno; apply andb_false_r. }
  cbn [orb]. destruct (dc_Outcome _); [by left|done|rewrite andb_true_iff, negb_true_iff; by right..].
Qed.

(** The tool a dispatch ran, if it ran one. *)
Definition ran (ds ds' : dispatch_state S) : option (string * string) :=
  match drop (length (ds_runs ds)) (ds_runs ds') with (server, tool, _) :: _ => Some (server, tool) | [] => None end.

Lemma ran_admitted dk e call ds : ran ds (dispatchCall dk e call ds).2 = admitted dk e call ds.
Proof.
  unfold ran, dispatchCall, admitted. destruct (dk_pool dk) as [pool|]; [|by rewrite drop_all].
  destruct (locate_keeps pool (kc_Name call) ds) as [Hruns Hst]. destruct (locate pool (kc_Name call) ds) as [ds1 [[server tool]|err]]; cbn [fst snd] in *;
    [|by rewrite Hruns, drop_all].
  destruct (dk_exposure dk ≫= _); [cbn; by rewrite Hruns, drop_all|]. rewrite Hst.
  pose proof (permit_spec dk e call server tool (ds_consent ds)) as Hp.
  destruct (permit dk e call server tool (ds_consent ds)) as [verdict st]. cbn [fst] in Hp.
  assert (drop (length (ds_runs ds)) (ds_runs (with_consent st ds1)) = []) as Hno by (cbn; by rewrite Hruns, drop_all).
  destruct (dk_perms dk) as [resolve|]; [destruct (resolve server tool) as [v|err]|].
  - destruct (bool_decide (rs_Policy v = PolicyAutoAllow)); cbn [orb] in Hp; [subst verdict; cbn; by rewrite Hruns, drop_app_length|].
    destruct (_ && _); [subst verdict; cbn; by rewrite Hruns, drop_app_length|].
    destruct Hp as [[err ->]|(r & -> & Hr)]; cbn [snd]; by rewrite Hno.
  - destruct Hp as [err' ->]. cbn [snd]. by rewrite Hno.
  - subst verdict. cbn. by rewrite Hruns, drop_app_length.
Qed.

(** C5: with a Cedar gate wired and the threshold at most 81, a destructive or
    unclassifiable tool is run by a dispatch only if the permission policy auto-allows it
    (or no policy is wired), or if the policy asks for confirmation and Cedar permits the
    tool, or the run is attended and the user approves the call.  Under confirm-each no
    rating, reachable or not, is enough.  (The auto-allow policy is the one way a
    dangerous tool runs with neither Cedar nor a person consulted.) *)
Theorem dangerous_call_needs_consent dk e call (ds : dispatch_state S) g server tool :
  ka_gate (dk_adapter dk) = Some g ->
  ClassifyToolFamily tool = FamilyDestructive \/ ClassifyToolFamily tool = FamilyUnknown ->
  (threshold_of (dk_adapter dk) <= 81)%Z ->
  ran ds (dispatchCall dk e call ds).2 = Some (server, tool) ->
  match dk_perms dk with
  | None => True
  | Some resolve =>
      exists v, resolve server tool = Ok v /\
      (rs_Policy v = PolicyAutoAllow \/
       rs_Policy v = PolicyConfirmEach /\
       (dc_Outcome (g ActionUseTool (ToolID server tool)) = Allow \/
        en_Unattended e = false /\ user_approves (dk_adapter dk) e (ds_consent ds) = true))
  end.
Proof.
  intros Hg Hf Ht. rewrite ran_admitted. unfold admitted.
  destruct (dk_pool dk) as [pool|]; [|done]. destruct ((locate pool (kc_Name call) ds).2) as [[s t]|]; [|done].
  destruct (dk_exposure dk ≫= _); [done|]. destruct (dk_perms dk) as [resolve|]; [|done].
  destruct (resolve s t) as [v|] eqn:Hv; [|done].
  case_bool_decide as Hauto; [intros [= <- <-]; by exists v; split; [|left]|].
  destruct (bool_decide (rs_Policy v = PolicyConfirmEach)) eqn:Hc; [|done]. cbn [andb].
  destruct (consent_given (dk_adapter dk) e call s t (ds_consent ds)) eqn:Hcg; [|done]. intros [= <- <-].
  exists v. split; [done|]. right. split; [by apply bool_decide_eq_true in Hc|]. by eapply dangerous_consent.
Qed.

(** C10: with the audit trail on, every decision on a confirm-each verdict is recorded:
    what a call adds to the trail ends with an approving record exactly when the call
    proceeds and with a refusing one when it is refused, and a call that does not proceed
    adds no approving record. *)
Theorem every_decision_audited a e call server tool reason st : dp_Audit (ka_deps a) = true ->
  let '(outcome, st') := resolveConfirmEach a e call server tool reason st in
  exists evs, st_audit st' = st_audit st ++ evs /\
  match outcome with
  | Proceed => exists p, last evs = Some (ConfirmDecided p) /\ cp_Approved p = true
  | Refused _ => (exists p, last evs = Some (ConfirmDecided p) /\ cp_Approved p = false) /\ Forall (fun ev => approving ev = false) evs
  | Aborted _ => Forall (fun ev => approving ev = false) evs
  end.
Proof.
  intros Ha. destruct (resolve_spec a e call server tool reason st) as [_ Haud]. destruct (Haud Ha) as (evs & He & Hr).
  destruct (resolveConfirmEach _ _ _ _ _ _ _) as [outcome st']. exists evs. split; [done|]. destruct outcome; [done| |done].
  destruct Hr as [[p Hl] Hno]. split; [|done]. exists p. split; [done|].
  rewrite Forall_forall in Hno. apply (Hno (ConfirmDecided p)). by apply last_Some_elem_of.
Qed.

(** With a gate wired, nothing but the gate, the rating and the user decides: the
    session grants, the durable grants, the toggle, the skip set and the headless policy,
    declared or not, are without effect. *)
Theorem gate_bypasses_grants a a' e call server tool reason reason' st st' g :
  ka_gate a = Some g -> ka_gate a' = Some g -> ka_rater a = ka_rater a' -> threshold_of a = threshold_of a' ->
  ka_sessionID a = ka_sessionID a' -> st_bus st = st_bus st' ->
  proceeds (resolveConfirmEach a e call server tool reason st) = proceeds (resolveConfirmEach a' e call server tool reason' st').
Proof.
  intros Hg Hg' Hr Ht Hs Hb. destruct (resolve_spec a e call server tool reason st) as [-> _].
  destruct (resolve_spec a' e call server tool reason' st') as [-> _]. unfold consent_given. rewrite Hg, Hg'.
  unfold rated_below_threshold, effective_score, user_approves, user_decision. by rewrite Hr, Ht, Hs, Hb.
Qed.

(** ** Unattended runs *)

Lemma prompt_unattended a e e' call server tool reason threshold detail st :
  en_Unattended e = true -> en_Unattended e' = true ->
  promptConfirmEach a e call server tool reason 3 threshold detail st = promptConfirmEach a e' call server tool reason 3 threshold detail st /\
  st_bus (promptConfirmEach a e call server tool reason 3 threshold detail st).2 = st_bus st /\
  exists res, (promptConfirmEach a e call server tool reason 3 threshold detail st).1 = Refused res.
Proof.
  intros He He'. unfold promptConfirmEach. rewrite He, He'. cbn. split_and!; [done| |by eexists]. unfold emit. by destruct (dp_Audit _).
Qed.

Lemma emit_bus deps ev st : st_bus (emit deps ev st) = st_bus st.
Proof. unfold emit. by destruct (dp_Audit deps). Qed.

Lemma layer3_unattended a rate e e' call server tool threshold st :
  en_Unattended e = true -> en_Unattended e' = true ->
  resolveLayer3Rating a rate e call server tool threshold st = resolveLayer3Rating a rate e' call server tool threshold st /\
  st_bus (resolveLayer3Rating a rate e call server tool threshold st).2 = st_bus st /\
  forall err, (resolveLayer3Rating a rate e call server tool threshold st).1 <> Aborted err.
Proof.
  intros He He'. unfold resolveLayer3Rating. destruct (rate _ _ _) as [rating|err].
  - destruct (_ <? _)%Z; [split_and!; [done|apply emit_bus|done]|]. destruct (prompt_unattended a e e' call server tool
      ("layer 3: risk rating " +:+ (fmt_d (rt_Score rating) +:+ " (floored " +:+ fmt_d (ApplyFamilyFloor (ClassifyToolFamily tool) (rt_Score rating)) +:+ ")") +:+
       " at/above threshold " +:+ fmt_d threshold +:+ ": " +:+ rt_Rationale rating) threshold
      (Some {| rd_Score := ApplyFamilyFloor (ClassifyToolFamily tool) (rt_Score rating); rd_Tier := BandFor (ApplyFamilyFloor (ClassifyToolFamily tool) (rt_Score rating));
               rd_Model := rt_Model rating; rd_PromptVersion := rt_PromptVersion rating; rd_CacheHit := rt_CacheHit rating; rd_Rationale := rt_Rationale rating |})
      st He He') as (H1 & H2 & res & H3). split_and!; [done|done|]. intros err. rewrite H3. done.
  - destruct (re_Unreachable err).
    + unfold resolveLayer3OfflineFloor. destruct (_ <? _)%Z; [split_and!; [done|apply emit_bus|done]|].
      match goal with |- context [promptConfirmEach _ _ _ _ _ ?why 3 _ ?d ?s] =>
        destruct (prompt_unattended a e e' call server tool why threshold d s He He') as (H1 & H2 & res & H3) end.
      rewrite H2, H3, emit_bus. split_and!; done.
    + destruct (prompt_unattended a e e' call server tool ("layer 3: risk rater failed (" +:+ re_Msg err +:+ "); asking") threshold None st He He')
        as (H1 & H2 & res & H3). rewrite H2, H3. split_and!; done.
Qed.

(** C11: an unattended run never waits on the bus: whatever the user, the context and the
    clock would do, its calls are decided alike, at once, and nothing is parked. *)
Theorem unattended_run_never_parks a e e' call server tool reason st :
  en_Unattended e = true -> en_Unattended e' = true ->
  resolveConfirmEach a e call server tool reason st = resolveConfirmEach a e' call server tool reason st /\
  st_bus (resolveConfirmEach a e call server tool reason st).2 = st_bus st /\
  forall err, (resolveConfirmEach a e call server tool reason st).1 <> Aborted err.
Proof.
  intros He He'. assert (confirm_rungs a e call server tool reason st = confirm_rungs a e' call server tool reason st /\
    st_bus (confirm_rungs a e call server tool reason st).2 = st_bus st /\ forall err, (confirm_rungs a e call server tool reason st).1 <> Aborted err) as Hrungs.
  { unfold confirm_rungs. rewrite He, He'. cbn [orb]. repeat case_if; cbn [fst snd]; rewrite ?emit_bus; done. }
  unfold resolveConfirmEach. destruct (ka_gate a) as [g|]; [|done]. destruct (dc_Outcome _); cbn [fst snd]; [by rewrite emit_bus..|done| |done].
  assert (forall why, promptConfirmEach a e call server tool why 3 (threshold_of a) None st = promptConfirmEach a e' call server tool why 3 (threshold_of a) None st /\
    st_bus (promptConfirmEach a e call server tool why 3 (threshold_of a) None st).2 = st_bus st /\
    forall err, (promptConfirmEach a e call server tool why 3 (threshold_of a) None st).1 <> Aborted err) as Hp.
  { intros why. destruct (prompt_unattended a e e' call server tool why (threshold_of a) None st He He') as (H1 & H2 & res & H3).
    rewrite H2, H3. split_and!; done. }
  destruct (ka_rater a) as [rate|]; [destruct (0 <? _)%Z|]; [by apply layer3_unattended|apply Hp..].
Qed.

(** ** Remembered answers *)

Lemma emit_grants deps ev st : st_grants (emit deps ev st) = st_grants st.
Proof. unfold emit. by destruct (dp_Audit deps). Qed.

Lemma emit_store deps ev st : st_store (emit deps ev st) = st_store st.
Proof. unfold emit. by destruct (dp_Audit deps). Qed.

Lemma write_state a e server tool st :
  st_grants (writePersistentGrant a e server tool st).2 = st_grants st /\
  st_store (writePersistentGrant a e server tool st).2 = (fun s => (WriteGrant (en_Io e) s server tool).1) <$> st_store st.
Proof.
  unfold writePersistentGrant. destruct (st_store st) as [s|] eqn:Hs; cbn [fmap option_fmap option_map].
  - destruct (WriteGrant (en_Io e) s server tool) as [s' [err|]]; cbn [fst snd]; by rewrite emit_grants, emit_store.
  - cbn [snd]. by rewrite emit_grants, emit_store.
Qed.

Lemma prompt_decided a e call server tool reason layer threshold detail st d :
  ((layer =? 3)%Z && en_Unattended e) = false -> user_decision a e st = Some d -> cd_Approved d = true ->
  let st' := (promptConfirmEach a e call server tool reason layer threshold detail st).2 in
  st_grants st' = (if cd_RememberSession d then sg_Grant (st_grants st) (ka_sessionID a) server tool else st_grants st) /\
  st_store st' = (if cd_Persist d then (fun s => (WriteGrant (en_Io e) s server tool).1) <$> st_store st else st_store st).
Proof.
  intros Hl Hd Ha. cbn zeta. unfold promptConfirmEach. rewrite Hl. destruct (Pending _ _ _) as [bus answer] eqn:Hp.
  apply Pending_decision in Hp. rewrite Hd in Hp. subst answer. rewrite Ha. cbn [andb].
  set (st1 := if cd_RememberSession d then _ else _). destruct (write_state a e server tool st1) as [Hg Hs].
  destruct (cd_Persist d); [destruct (writePersistentGrant a e server tool st1) as [persisted st2]; cbn [snd] in Hg, Hs|]; cbn [snd];
    rewrite emit_grants, emit_store, ?Hg, ?Hs; unfold st1; by destruct (cd_RememberSession d).
Qed.
End Consent.

Section Remembered.
Context {S Io : Type} `{!PersistentGrantStore S Io} `{!PersistentGrantLaws S Io}.

(** Without a gate, an approval is worth what the user asked: with "allow for this
    session" every later call of the tool in the session proceeds, with "always allow"
    and a successful write every later call in any session does, neither parking
    anything, until the grant is revoked. *)
Theorem approval_is_remembered (a a' : kernelToolAdapter) (e e' : consent_env Io) call call' server tool reason reason' st d :
  user_decision a e st = Some d -> cd_Approved d = true -> ka_gate a' = None ->
  let st' := (promptConfirmEach a e call server tool reason 0 0 None st).2 in
  (cd_RememberSession d = true -> tool <> "" -> is_Some (st_grants st) -> ka_sessionID a' = ka_sessionID a ->
     (resolveConfirmEach a' e' call' server tool reason' st').1 = Proceed /\
     st_bus (resolveConfirmEach a' e' call' server tool reason' st').2 = st_bus st') /\
  (forall (s s' : S), cd_Persist d = true -> st_store st = Some s -> WriteGrant (en_Io e) s server tool = (s', None) ->
     (resolveConfirmEach a' e' call' server tool reason' st').1 = Proceed /\
     st_bus (resolveConfirmEach a' e' call' server tool reason' st').2 = st_bus st').
Proof.
  intros Hd Ha Hg. cbn zeta. destruct (prompt_decided a e call server tool reason 0 0 None st d eq_refl Hd Ha) as [Hgr Hst].
  set (st' := (promptConfirmEach a e call server tool reason 0 0 None st).2) in *.
  assert (sg_Has (st_grants st') (ka_sessionID a') server tool = true \/ from_option (fun s => HasGrant s server tool) false (st_store st') = true ->
    (resolveConfirmEach a' e' call' server tool reason' st').1 = Proceed /\
    st_bus (resolveConfirmEach a' e' call' server tool reason' st').2 = st_bus st') as Hgo.
  { intros Hor. unfold resolveConfirmEach. rewrite Hg. unfold confirm_rungs.
    destruct (from_option (fun knobs => SkipsTool _ tool) _ _); [cbn [fst snd]; by rewrite emit_bus|]. destruct (negb _); [cbn [fst snd]; by rewrite emit_bus|].
    destruct (sg_Has _ _ _ _); [cbn [fst snd]; by rewrite emit_bus|].
    destruct Hor as [Hh| ->]; [done|cbn [fst snd]; by rewrite emit_bus]. }
  split.
  - intros Hr Ht [g Hgs] Hs. apply Hgo. left. rewrite Hgr, Hr, Hgs, Hs. cbn. rewrite bool_decide_false by done. cbn. apply bool_decide_eq_true. set_solver.
  - intros s s' Hp Hs Hw. apply Hgo. right. rewrite Hst, Hp, Hs. cbn. rewrite Hw. cbn. by eapply written_is_found.
Qed.
End Remembered.

(** * A session of calls *)

Section Demo.
#[local] Instance demo_store : PersistentGrantStore cedarToolGrantStore grant_io := cedar_store (fun s => s) (fun _ => true).
#[local] Instance demo_laws : PersistentGrantLaws cedarToolGrantStore grant_io := cedar_laws (fun s => s) (fun _ => true) (fun s _ => eq_refl).

Definition demo_deps : ConfirmDeps := {| dp_Enabled := Some true; dp_Headless := HeadlessDeny; dp_HeadlessExplicit := false; dp_Audit := true |}.

Definition demo_knobs (overrides : gmap Knob kval) : ResolvedKnobs :=
  Autonomy.Resolve emptyLayer emptyLayer
    {| l_Level := Some TierAutonomous; l_Overrides := overrides; l_PostureMode := None; l_PrePlanLayer := None |}.

(** Cedar forbids wiping disks, permits reading files and has no opinion on the rest. *)
Definition demo_gate : Gate := fun action resource =>
  {| dc_Outcome := if bool_decide (resource = "disk__wipe") then Deny else if bool_decide (resource = "fs__read_file") then Allow else NotApplicable;
     dc_Action := action; dc_Resource := resource; dc_MatchedPolicy := ""; dc_Reason := "" |}.

(** The rater takes everything for harmless. *)
Definition demo_rater (tool args session : string) : result Rating RateErr :=
  Ok {| rt_Score := 0; rt_Rationale := "fine"; rt_Model := "m"; rt_PromptVersion := llmRaterPromptVersion; rt_CacheHit := false |}.

Definition demo_adapter (gate : option Gate) (overrides : gmap Knob kval) : kernelToolAdapter :=
  {| ka_sessionID := "s"; ka_autonomy := match gate with Some _ => Some (demo_knobs overrides) | None => None end; ka_gate := gate;
     ka_rater := Some demo_rater; ka_layer3PromptTimeout := 0; ka_deps := demo_deps |}.

Definition demo_answer (approved remember persist : bool) : ConfirmDecision :=
  {| cd_Approved := approved; cd_Reason := ""; cd_RememberSession := remember; cd_Persist := persist |}.

Definition demo_env (unattended : bool) (w : wait_end) : consent_env grant_io :=
  {| en_Unattended := unattended; en_Batch := ""; en_NewBatch := "batch-1"; en_CallID := "confirm-1"; en_Wait := w; en_CtxErr := false; en_Io := smooth |}.

Definition demo_state : consent_state cedarToolGrantStore :=
  {| st_bus := Some (NewConfirmBus true); st_grants := Some ∅; st_store := Some {| cs_dataDir := "/data"; cs_dir := ∅ |}; st_audit := [] |}.

Definition demo_call (name : string) : ToolCall := {| kc_Name := name; kc_Args := {["path" := JStr "/tmp/x"]} |}.

(** A dispatcher whose policy asks for every tool. *)
Definition demo_dispatcher : dispatcher :=
  {| dk_adapter := demo_adapter (Some demo_gate) ∅;
     dk_pool := Some {| tp_Tools := Ok []; tp_Call := fun _ _ _ => Ok "done" |};
     dk_perms := Some (fun _ _ => Ok {| rs_Policy := PolicyConfirmEach; rs_Reason := "" |});
     dk_exposure := None; dk_Moves := false |}.

Definition demo_dispatch : dispatch_state cedarToolGrantStore :=
  {| ds_consent := demo_state; ds_catalog := None; ds_called := []; ds_runs := []; ds_moves := [] |}.

Lemma dangerous_call_needs_consent_witness :
  let e := demo_env false (WAnswered (demo_answer true false false)) in
  let policy : Resolution := {| rs_Policy := PolicyConfirmEach; rs_Reason := "" |} in
  ran demo_dispatch (dispatchCall demo_dispatcher e (demo_call "fs__delete_file") demo_dispatch).2 = Some ("fs", "delete_file") /\
  exists v, (Ok policy : result Resolution string) = Ok v /\
  (rs_Policy v = PolicyAutoAllow \/
   rs_Policy v = PolicyConfirmEach /\
   (dc_Outcome (demo_gate ActionUseTool (ToolID "fs" "delete_file")) = Allow \/
    en_Unattended e = false /\ user_approves (dk_adapter demo_dispatcher) e (ds_consent demo_dispatch) = true)).
Proof.
  split; [vm_compute; reflexivity|].
  apply (dangerous_call_needs_consent demo_dispatcher (demo_env false (WAnswered (demo_answer true false false)))
    (demo_call "fs__delete_file") demo_dispatch demo_gate "fs" "delete_file");
    [reflexivity|left; vm_compute; reflexivity|vm_compute; discriminate|vm_compute; reflexivity].
Defined.

(** A threshold set by hand to 82 is past the floor: the same call runs unasked. *)
Example floor_ends_at_81 :
  let a := demo_adapter (Some demo_gate) {[KnobRiskThreshold := KInt 82]} in
  ClassifyToolFamily "delete_file" = FamilyDestructive /\
  (resolveConfirmEach a (demo_env true (WEnded ErrCancelled)) (demo_call "fs__delete_file") "fs" "delete_file" "" demo_state).1 = Proceed.
Proof. vm_compute. split; reflexivity. Qed.

Lemma every_decision_audited_witness :
  let '(outcome, st') := resolveConfirmEach (demo_adapter (Some demo_gate) ∅) (demo_env false (WAnswered (demo_answer false true true)))
                           (demo_call "fs__delete_file") "fs" "delete_file" "" demo_state in
  exists evs, st_audit st' = st_audit demo_state ++ evs /\
  match outcome with
  | Proceed => exists p, last evs = Some (ConfirmDecided p) /\ cp_Approved p = true
  | Refused _ => (exists p, last evs = Some (ConfirmDecided p) /\ cp_Approved p = false) /\ Forall (fun ev => approving ev = false) evs
  | Aborted _ => Forall (fun ev => approving ev = false) evs
  end.
Proof. apply every_decision_audited. reflexivity. Defined.

Lemma gate_bypasses_grants_witness :
  let once := resolveConfirmEach (demo_adapter (Some demo_gate) ∅) (demo_env false (WAnswered (demo_answer true true true)))
                (demo_call "fs__delete_file") "fs" "delete_file" "" demo_state in
  once.1 = Proceed /\ sg_Has (st_grants once.2) "s" "fs" "delete_file" = true /\
  proceeds (resolveConfirmEach (demo_adapter (Some demo_gate) ∅) (demo_env false (WEnded ErrCancelled))
    (demo_call "fs__delete_file") "fs" "delete_file" "" (with_grants (Some {[grantKey "s" "fs" "delete_file"]}) demo_state)) =
  proceeds (resolveConfirmEach (demo_adapter (Some demo_gate) ∅) (demo_env false (WEnded ErrCancelled))
    (demo_call "fs__delete_file") "fs" "delete_file" "" demo_state).
Proof.
  split; [vm_compute; reflexivity|]. split; [vm_compute; reflexivity|].
  apply (gate_bypasses_grants (demo_adapter (Some demo_gate) ∅) (demo_adapter (Some demo_gate) ∅) (demo_env false (WEnded ErrCancelled))
    (demo_call "fs__delete_file") "fs" "delete_file" "" "" (with_grants (Some {[grantKey "s" "fs" "delete_file"]}) demo_state) demo_state demo_gate); reflexivity.
Defined.

Lemma unattended_run_never_parks_witness :
  resolveConfirmEach (demo_adapter (Some demo_gate) ∅) (demo_env true (WAnswered (demo_answer true true true)))
    (demo_call "fs__delete_file") "fs" "delete_file" "" demo_state =
  resolveConfirmEach (demo_adapter (Some demo_gate) ∅) (demo_env true (WEnded ErrCancelled))
    (demo_call "fs__delete_file") "fs" "delete_file" "" demo_state.
Proof.
  apply (unattended_run_never_parks (demo_adapter (Some demo_gate) ∅) (demo_env true (WAnswered (demo_answer true true true)))
    (demo_env true (WEnded ErrCancelled)) (demo_call "fs__delete_file") "fs" "delete_file" "" demo_state); reflexivity.
Defined.

Lemma approval_is_remembered_witness :
  let st' := (promptConfirmEach (demo_adapter None ∅) (demo_env false (WAnswered (demo_answer true true false)))
                (demo_call "fs__write") "fs" "write" "" 0 0 None demo_state).2 in
  (resolveConfirmEach (demo_adapter None ∅) (demo_env true (WEnded ErrCancelled)) (demo_call "fs__write") "fs" "write" "" st').1 = Proceed.
Proof.
  apply (approval_is_remembered (demo_adapter None ∅) (demo_adapter None ∅) (demo_env false (WAnswered (demo_answer true true false)))
    (demo_env true (WEnded ErrCancelled)) (demo_call "fs__write") (demo_call "fs__write") "fs" "write" "" "" demo_state (demo_answer true true false));
    [vm_compute; reflexivity|reflexivity|reflexivity|reflexivity|discriminate|by eexists|reflexivity].
Defined.

(** The record of a prompt that followed a rating leaves the rating out. *)
Example prompted_record_drops_the_rating :
  exists p, last (st_audit (resolveConfirmEach (demo_adapter (Some demo_gate) ∅) (demo_env false (WAnswered (demo_answer true false false)))
    (demo_call "fs__delete_file") "fs" "delete_file" "" demo_state).2) = Some (ConfirmDecided p) /\
    cp_Path p = PathPrompted /\ cp_Layer p = 3%Z /\ cp_Score p = 0%Z /\ cp_Tier p = "".
Proof. eexists. vm_compute. split_and!; reflexivity. Qed.
End Demo.
