(* ===== verification/ToolGate.v ===== *)
(** The gates of the other two ways to call a tool: a slash command's and a workflow
    step's (core/rpc/wf_adapters.go, slashToolDispatcherAdapter and wfToolGate). *)
From S2P Require Import Prelude GoString Json Risk Perms ConfirmBus Grants AgentGraph ToolArgs Consent.
From stdpp Require Import gmap.
From Stdlib Require Import Ascii.
Local Open Scope nat_scope.

Section ToolGate.
Context {S Io : Type} `{!PersistentGrantStore S Io}.
Implicit Types (e : consent_env Io) (st : consent_state S) (deps : ConfirmDeps).

Definition gate_rung deps (sessionID server tool path : string) (approved : bool) (why : string) st : consent_state S :=
  emit deps (ConfirmDecided (decided sessionID server tool path 0 0 approved why)) st.

(** The request of both ladders carries no summary of the arguments. *)
Definition bare_request e (sessionID server tool reason : string) : ConfirmRequest :=
  {| cq_SessionID := sessionID; cq_CallID := en_CallID e;
     cq_BatchID := if bool_decide (en_Batch e = "") then en_NewBatch e else en_Batch e;
     cq_Server := server; cq_Tool := tool; cq_ArgsSummary := ""; cq_Reason := reason;
     cq_HasRiskRating := false; cq_RiskScore := 0; cq_RiskTier := ""; cq_RiskThreshold := 0; cq_RiskRationale := "" |}.

(** Both ladders' treatment of a decision: remember, store, record. *)
Definition take_decision deps e (sessionID server tool reason : string) (d : ConfirmDecision) st : bool * string * consent_state S :=
  let st := if cd_Approved d && cd_RememberSession d then with_grants (sg_Grant (st_grants st) sessionID server tool) st else st in
  let st := if cd_Approved d && cd_Persist d
            then with_store ((fun s => (WriteGrant (en_Io e) s server tool).1) <$> st_store st) st else st in
  let why := if negb (cd_Approved d) && bool_decide (cd_Reason d = "") then "not approved by user" else cd_Reason d in
  (cd_Approved d, why,
   emit deps (ConfirmDecided (with_request (bare_request e sessionID server tool reason) (cd_Approved d && cd_RememberSession d) false
     (decided sessionID server tool PathPrompted 0 0 (cd_Approved d) why))) st).

(** ** Slash commands *)

Definition slash_resolveConfirmEach deps e (sessionID server tool reason : string) st :
    result (bool * string) string * consent_state S :=
  let rung := gate_rung deps sessionID server tool in
  if negb (default true (dp_Enabled deps)) then (Ok (true, ""), rung PathToggleOff true "confirm-each disabled in Settings" st)
  else if sg_Has (st_grants st) sessionID server tool then (Ok (true, ""), rung PathSessionGrant true "session grant" st)
  else if from_option (fun s => HasGrant s server tool) false (st_store st) then
    (Ok (true, ""), rung PathPersistedGrant true "persisted allow rule" st)
  else if no_channel (st_bus st) || dp_HeadlessExplicit deps then
    let ok := bool_decide (effective_headless false deps = HeadlessAllow) in
    let why := headless_reason false deps in
    (Ok (if ok then (true, "") else (false, why)), rung PathHeadlessPolicy ok why st)
  else
    let '(bus, answer) := Pending (st_bus st) (bare_request e sessionID server tool reason) (en_Wait e) in
    let st := with_bus bus st in
    match answer with
    | Err err => (Err err, st)
    | Ok d => let '(approved, why, st) := take_decision deps e sessionID server tool reason d st in (Ok (approved, why), st)
    end.

(** ** Workflows *)

Definition defaultWorkflowConfirmTimeout : Z := 600000000000.

Definition confirmWaitTimeout (confirmTimeout : Z) : Z :=
  if (0 <? confirmTimeout)%Z then confirmTimeout else defaultWorkflowConfirmTimeout.

Definition wf_headless_reason (unattended : bool) deps : string :=
  if unattended then "unattended workflow run (scheduled dispatch): confirm_each denies by construction" else headless_reason false deps.

Definition wf_resolveConfirmEach deps (confirmTimeout : Z) e (sessionID server tool reason : string) st :
    result (bool * string) string * consent_state S :=
  let rung := gate_rung deps sessionID server tool in
  if negb (default true (dp_Enabled deps)) then (Ok (true, ""), rung PathToggleOff true "confirm-each disabled in Settings" st)
  else if sg_Has (st_grants st) sessionID server tool then (Ok (true, ""), rung PathSessionGrant true "session grant" st)
  else if from_option (fun s => HasGrant s server tool) false (st_store st) then
    (Ok (true, ""), rung PathPersistedGrant true "persisted allow rule" st)
  else if en_Unattended e || no_channel (st_bus st) || dp_HeadlessExplicit deps then
    let ok := bool_decide (effective_headless (en_Unattended e) deps = HeadlessAllow) in
    let why := wf_headless_reason (en_Unattended e) deps in
    (Ok (if ok then (true, "") else (false, why)), rung PathHeadlessPolicy ok why st)
  else
    let req := bare_request e sessionID server tool reason in
    let '(bus, answer) := Pending (st_bus st) req (en_Wait e) in
    let st := with_bus bus st in
    match answer with
    | Err err =>
        if bool_decide (err = ErrDeadline) then
          let why := "no one answered the tool confirmation within " +:+ Duration_String (confirmWaitTimeout confirmTimeout) +:+
                     "; denying rather than hanging the run indefinitely" in
          (Ok (false, why), emit deps (ConfirmDecided (with_request req false false
             (decided sessionID server tool PathPrompted 0 0 false why))) st)
        else (Err err, st)
    | Ok d => let '(approved, why, st) := take_decision deps e sessionID server tool reason d st in (Ok (approved, why), st)
    end.

(** ** The permission and Cedar legs around a ladder *)

(** [shown] is the name of the tool in the messages, [leg] the prefix of the errors. *)
Definition gate_legs (leg shown : string) (perms : option (string -> string -> result Resolution string)) (gate : option Gate)
    (confirm : string -> result (bool * string) string * consent_state S) (server tool : string) st :
    option string * consent_state S :=
  let cedar st :=
    match CheckTool gate server tool with
    | Some why => (Some ("tool " +:+ fmt_q shown +:+ " denied: " +:+ why), st)
    | None => (None, st)
    end in
  match perms with
  | None => cedar st
  | Some resolve =>
      match resolve server tool with
      | Err err => (Some (leg +:+ ": permission resolve: " +:+ err), st)
      | Ok v =>
          if bool_decide (rs_Policy v = PolicyAutoAllow) then cedar st
          else if bool_decide (rs_Policy v = PolicyDeny) then
            (Some ("tool " +:+ fmt_q shown +:+ " denied: " +:+ (if bool_decide (rs_Reason v = "") then "denied by permission policy" else rs_Reason v)), st)
          else if bool_decide (rs_Policy v = PolicyConfirmEach) then
            match confirm (rs_Reason v) with
            | (Err err, st) => (Some (leg +:+ ": tool confirmation: " +:+ err), st)
            | (Ok (false, why), st) => (Some ("tool " +:+ fmt_q shown +:+ " denied: " +:+ why), st)
            | (Ok (true, _), st) => cedar st
            end
          else (Some ("tool " +:+ fmt_q shown +:+ " denied: unrecognised permission policy " +:+ fmt_q (rs_Policy v)), st)
      end
  end.

Record wfToolGate := {
  wg_perms : option (string -> string -> result Resolution string); wg_gate : option Gate; wg_deps : ConfirmDeps; wg_confirmTimeout : Z
}.

(** The error of [authorize]; a nil gate lets everything through. *)
Definition authorize (g : option wfToolGate) e (sessionID server tool : string) st : option string * consent_state S :=
  match g with
  | None => (None, st)
  | Some g =>
      gate_legs "workflow tool dispatch" (server +:+ "__" +:+ tool) (wg_perms g) (wg_gate g)
        (fun reason => wf_resolveConfirmEach (wg_deps g) (wg_confirmTimeout g) e sessionID server tool reason st) server tool st
  end.

(** A JSON string result is unwrapped to its text. *)
Definition unwrap_result (raw : string) : string := default raw (unmarshal_string raw).

(** [splitToolName]: no separator, no server. *)
Definition splitToolName (name : string) : string * string :=
  match index_of (list_of "__") (list_of name) with
  | None => ("", name)
  | Some i => (of_list (take i (list_of name)), of_list (drop (i + 2) (list_of name)))
  end.

Definition ToolFn : Type := string -> string -> string -> result string string.

(** The tools that ran, with their arguments. *)
Definition runs : Type := list (string * string * string).

(** [wfToolDispatcherAdapter.Dispatch]. *)
Definition wf_Dispatch (pool : option ToolFn) (g : option wfToolGate) e (sessionID name input : string) st :
    result string string * consent_state S * runs :=
  match pool with
  | None => (Err "tool dispatcher not wired (no MCP pool)", st, [])
  | Some tool_fn =>
      let '(server, tool) := splitToolName name in
      match authorize g e sessionID server tool st with
      | (Some err, st) => (Err err, st, [])
      | (None, st) =>
          (match tool_fn server tool input with Err err => Err err | Ok raw => Ok (unwrap_result raw) end, st, [(server, tool, input)])
      end
  end.

Record slashToolDispatcherAdapter := {
  sd_pool : option ToolFn; sd_perms : option (string -> string -> result Resolution string); sd_gate : option Gate; sd_deps : ConfirmDeps
}.

Definition DispatchTool (a : slashToolDispatcherAdapter) e (sessionID toolName : string) (args : list string) st :
    result string string * consent_state S * runs :=
  match sd_pool a with
  | None => (Err "slash tool dispatch: no tool pool wired", st, [])
  | Some tool_fn =>
      let '(server, tool) := splitToolName toolName in
      if bool_decide (server = "") then
        (Err ("slash tool dispatch: " +:+ fmt_q toolName +:+ " is not a namespaced tool name (want " +:+ dquote +:+ "server__tool" +:+ dquote +:+ ")"), st, [])
      else
        match gate_legs "slash tool dispatch" toolName (sd_perms a) (sd_gate a)
                (fun reason => slash_resolveConfirmEach (sd_deps a) e sessionID server tool reason st) server tool st with
        | (Some err, st) => (Err err, st, [])
        | (None, st) =>
            let input := of_list (print_json (JArr (map JStr args))) in
            (match tool_fn server tool input with Err err => Err err | Ok raw => Ok (unwrap_result raw) end, st, [(server, tool, input)])
        end
  end.
End ToolGate.
