(* ===== verification/ToolGateProps.v ===== *)
(** The three ladders of confirmation side by side: where slash commands and workflows
    decide as a chat does, and where they do not. *)
From S2P Require Import Prelude GoString Json Risk Perms ConfirmBus Grants AgentGraph ToolArgs Consent ConsentProps ToolGate.
From stdpp Require Import gmap.
From Stdlib Require Import Ascii.
Local Open Scope nat_scope.

Section Agree.
Context {S Io : Type} `{!PersistentGrantStore S Io}.
Implicit Types (a : kernelToolAdapter) (e : consent_env Io) (st : consent_state S).

Definition ladder_approves (r : result (bool * string) string * consent_state S) : bool :=
  match r.1 with Ok (approved, _) => approved | Err _ => false end.

(** What a later call can see of a state. *)
Definition same_memory st st' : Prop :=
  st_grants st = st_grants st' /\ st_store st = st_store st' /\ (cb_pending <$> st_bus st) = (cb_pending <$> st_bus st').

Lemma Pending_user a e st req bus answer : cq_SessionID req = ka_sessionID a -> cq_CallID req = en_CallID e ->
  Pending (st_bus st) req (en_Wait e) = (bus, answer) ->
  (cb_pending <$> bus) = (cb_pending <$> st_bus st) /\
  match user_decision a e st with Some d => answer = Ok d | None => exists err, answer = Err err end.
Proof.
  intros Hs Hc. unfold user_decision. destruct (st_bus st) as [b|]; [|by intros [= <- <-]; eauto].
  destruct (Pending_spec b req (en_Wait e)) as (b' & Hp & _ & Hpend). rewrite Hp. intros [= <- <-]. cbn. rewrite Hpend. split; [done|].
  unfold req_key. rewrite Hs, Hc. destruct (en_Wait e) as [d|err]; repeat case_bool_decide; cbn [orb]; eauto.
Qed.

Lemma emit_memory deps ev st : same_memory (emit deps ev st) st.
Proof. unfold same_memory. by rewrite emit_grants, emit_store, emit_bus. Qed.

#[local] Instance same_memory_equiv : Equivalence same_memory.
Proof. split; [done|intros ? ? (? & ? & ?); by split_and!|intros ? ? ? (? & ? & ?) (? & ? & ?); split_and!; congruence]. Qed.

Lemma emit_both deps ev ev' st : same_memory (emit deps ev st) (emit deps ev' st).
Proof. by rewrite !emit_memory. Qed.

(** What the decision [d] leaves behind. *)
Definition remembered a e (server tool : string) (d : ConfirmDecision) st st' : Prop :=
  st_grants st' = (if cd_Approved d && cd_RememberSession d then sg_Grant (st_grants st) (ka_sessionID a) server tool else st_grants st) /\
  st_store st' = (if cd_Approved d && cd_Persist d then (fun s => (WriteGrant (en_Io e) s server tool).1) <$> st_store st else st_store st) /\
  (cb_pending <$> st_bus st') = (cb_pending <$> st_bus st).

Lemma remembered_unique a e server tool d st st1 st2 :
  remembered a e server tool d st st1 -> remembered a e server tool d st st2 -> same_memory st1 st2.
Proof. intros (? & ? & ?) (? & ? & ?). split_and!; congruence. Qed.

Lemma write_bus a e server tool st : st_bus (writePersistentGrant a e server tool st).2 = st_bus st.
Proof.
  unfold writePersistentGrant. destruct (st_store st) as [s|]; [destruct (WriteGrant _ s server tool) as [s' [err|]]|]; cbn [snd]; by rewrite emit_bus.
Qed.

Lemma chat_prompt a e call server tool reason st :
  let r := promptConfirmEach a e call server tool reason 0 0 None st in
  proceeds r = user_approves a e st /\
  match user_decision a e st with Some d => remembered a e server tool d st r.2 | None => same_memory r.2 st end.
Proof.
  cbn zeta. split; [by destruct (prompt_spec a e call server tool reason 0 0 None st) as [-> _]|].
  unfold promptConfirmEach. cbn [Z.eqb andb]. destruct (Pending _ _ _) as [bus answer] eqn:Hp.
  apply (Pending_user a) in Hp as [Hb Hd]; [|done..]. destruct (user_decision a e st) as [d|]; [subst answer|destruct Hd as [err ->]; by split_and!].
  set (st1 := if cd_Approved d && cd_RememberSession d then _ else _).
  assert (st_bus st1 = bus /\ st_store st1 = st_store st /\
    st_grants st1 = (if cd_Approved d && cd_RememberSession d then sg_Grant (st_grants st) (ka_sessionID a) server tool else st_grants st)) as (H1 & H2 & H3)
    by (unfold st1; by destruct (cd_Approved d && cd_RememberSession d)).
  destruct (if cd_Approved d && cd_Persist d then _ else _) as [persisted st2] eqn:Hw.
  assert (remembered a e server tool d st st2) as Hr.
  { unfold remembered. destruct (cd_Approved d && cd_Persist d).
    - destruct (write_state a e server tool st1) as [Hg Hs]. pose proof (write_bus a e server tool st1) as Hbus.
      rewrite Hw in Hg, Hs, Hbus. cbn [snd] in *. rewrite Hg, Hs, Hbus, H1, H2, H3. done.
    - injection Hw as _ <-. by rewrite H1, H2, H3. }
  destruct (cd_Approved d); cbn [snd]; unfold remembered in *; by rewrite emit_grants, emit_store, emit_bus.
Qed.

Lemma take_decision_spec a e server tool reason d st :
  (take_decision (ka_deps a) e (ka_sessionID a) server tool reason d st).1.1 = cd_Approved d /\
  remembered a e server tool d st (take_decision (ka_deps a) e (ka_sessionID a) server tool reason d st).2.
Proof.
  unfold take_decision, remembered. cbn [fst snd]. rewrite emit_grants, emit_store, emit_bus.
  destruct (cd_Approved d), (cd_RememberSession d), (cd_Persist d); done.
Qed.

(** On a session without a gate and without an autonomy posture, a workflow approves a
    call exactly when a chat does, and so does a slash command in an attended run, all of
    them leaving the same grants and the same calls on the bus. *)
Theorem ladders_agree a e call server tool reason st timeout : ka_gate a = None -> ka_autonomy a = None ->
  let chat := resolveConfirmEach a e call server tool reason st in
  let wf := wf_resolveConfirmEach (ka_deps a) timeout e (ka_sessionID a) server tool reason st in
  let slash := slash_resolveConfirmEach (ka_deps a) e (ka_sessionID a) server tool reason st in
  (ladder_approves wf = proceeds chat /\ same_memory wf.2 chat.2) /\
  (en_Unattended e = false -> ladder_approves slash = proceeds chat /\ same_memory slash.2 chat.2).
Proof.
  intros Hg Hk. cbn zeta. unfold resolveConfirmEach, confirm_rungs, wf_resolveConfirmEach, slash_resolveConfirmEach, gate_rung. rewrite Hg, Hk.
  cbn [from_option]. destruct (negb (default true _)); [split; [by split; [|apply emit_both]|intros _; by split; [|apply emit_both]]|].
  destruct (sg_Has _ _ _ _); [split; [by split; [|apply emit_both]|intros _; by split; [|apply emit_both]]|]. destruct (from_option (fun s => HasGrant s server tool) _ _); [split; [by split; [|apply emit_both]|intros _; by split; [|apply emit_both]]|].
  destruct (chat_prompt a e call server tool reason st) as [Hok Hmem].
  assert (forall bus answer, Pending (st_bus st) (bare_request e (ka_sessionID a) server tool reason) (en_Wait e) = (bus, answer) ->
    match answer with
    | Ok d => let r := take_decision (ka_deps a) e (ka_sessionID a) server tool reason d (with_bus bus st) in
              r.1.1 = user_approves a e st /\ same_memory r.2 (promptConfirmEach a e call server tool reason 0 0 None st).2
    | Err _ => false = user_approves a e st /\ same_memory (with_bus bus st) (promptConfirmEach a e call server tool reason 0 0 None st).2
    end) as Hprompt.
  { intros bus answer Hp. apply (Pending_user a) in Hp as [Hb Hd]; [|done..]. unfold user_approves.
    destruct (user_decision a e st) as [d|]; [subst answer|destruct Hd as [err ->]].
    - cbn zeta. destruct (take_decision_spec a e server tool reason d (with_bus bus st)) as [H1 (H2 & H3 & H4)]. split; [done|].
      eapply remembered_unique; [|done]. split_and!; [done..|]. by rewrite H4.
    - split; [done|]. rewrite Hmem. by split_and!. }
  split; [|intros Ha; rewrite Ha; cbn [orb]].
  - replace (en_Unattended e || no_channel (st_bus st) || dp_HeadlessExplicit (ka_deps a))
      with (en_Unattended e || dp_HeadlessExplicit (ka_deps a) || no_channel (st_bus st))
      by (destruct (en_Unattended e), (dp_HeadlessExplicit (ka_deps a)); by rewrite ?orb_true_r, ?orb_false_r).
    destruct (_ || _ || _); [split; [unfold ladder_approves, proceeds; cbn [fst]; by case_bool_decide|apply emit_both]|].
    destruct (Pending _ _ _) as [bus answer]. specialize (Hprompt bus answer eq_refl). rewrite Hok. destruct answer as [d|err].
    + cbn zeta in Hprompt. by destruct (take_decision _ _ _ _ _ _ _ _) as [[approved why] st'].
    + destruct Hprompt as [<- Hm]. case_bool_decide; (split; [done|]); cbn [snd]; [by rewrite emit_memory|done].
  - replace (no_channel (st_bus st) || dp_HeadlessExplicit (ka_deps a)) with (dp_HeadlessExplicit (ka_deps a) || no_channel (st_bus st)) by apply orb_comm.
    destruct (_ || _); [split; [unfold ladder_approves, proceeds; cbn [fst]; by case_bool_decide|apply emit_both]|].
    destruct (Pending _ _ _) as [bus answer]. specialize (Hprompt bus answer eq_refl). rewrite Hok. destruct answer as [d|err].
    + cbn zeta in Hprompt. by destruct (take_decision _ _ _ _ _ _ _ _) as [[approved why] st'].
    + destruct Hprompt as [<- Hm]. by split.
Qed.
End Agree.

Section Demo.
#[local] Instance gate_demo_store : PersistentGrantStore cedarToolGrantStore grant_io := cedar_store (fun s => s) (fun _ => true).

Lemma ladders_agree_witness :
  (ladder_approves (slash_resolveConfirmEach demo_deps (demo_env false (WAnswered (demo_answer true true true))) "s" "fs" "write" "" demo_state) =
   proceeds (resolveConfirmEach (demo_adapter None ∅) (demo_env false (WAnswered (demo_answer true true true)))
     (demo_call "fs__write") "fs" "write" "" demo_state)) /\
  ladder_approves (slash_resolveConfirmEach demo_deps (demo_env false (WAnswered (demo_answer true true true))) "s" "fs" "write" "" demo_state) = true.
Proof.
  split; [|vm_compute; reflexivity].
  destruct (ladders_agree (demo_adapter None ∅) (demo_env false (WAnswered (demo_answer true true true))) (demo_call "fs__write") "fs" "write" "" demo_state 0
    eq_refl eq_refl) as [_ Hslash].
  destruct (Hslash eq_refl) as [Happ _]. exact Happ.
Defined.

(** In an unattended run the ladders part: on a deployment that allows unasked calls, a
    slash command the model runs goes through where a chat and a workflow refuse, and on
    an interactive one it waits for an answer. *)
Theorem slash_ignores_unattended :
  let allow := {| dp_Enabled := None; dp_Headless := HeadlessAllow; dp_HeadlessExplicit := true; dp_Audit := true |} in
  let a := {| ka_sessionID := "s"; ka_autonomy := None; ka_gate := None; ka_rater := None; ka_layer3PromptTimeout := 0; ka_deps := allow |} in
  let e := demo_env true (WAnswered (demo_answer true false false)) in
  ladder_approves (slash_resolveConfirmEach allow e "s" "fs" "write" "" demo_state) = true /\
  ladder_approves (wf_resolveConfirmEach allow 0 e "s" "fs" "write" "" demo_state) = false /\
  proceeds (resolveConfirmEach a e (demo_call "fs__write") "fs" "write" "" demo_state) = false /\
  ladder_approves (slash_resolveConfirmEach demo_deps e "s" "fs" "write" "" demo_state) = true /\
  ladder_approves (slash_resolveConfirmEach demo_deps (demo_env true (WEnded ErrCancelled)) "s" "fs" "write" "" demo_state) = false.
Proof. vm_compute. split_and!; reflexivity. Qed.
End Demo.
