(* ===== verification/PlanMode.v ===== *)
(** Plan mode: the stores of a session's autonomy layer (core/session/autonomy.go and
    store.go, core/projects/autonomy.go), the tools that enter and leave plan mode
    (core/tools/planmode), its approval (core/rpc/views/planmode/approve.go) and the gate
    it narrows (core/policy/cedar/posture.go, PolicyGateAdapter of
    core/rpc/views/agentgraph/env_deps_policy.go). *)
From S2P Require Import Prelude GoString Utf8 Json Autonomy Grants AgentGraph ToolArgs Consent ToolGate.
From stdpp Require Import gmap.
From Stdlib Require Import Ascii.
Local Open Scope nat_scope.

(** * The store of a session's layer *)

(** [SessionPostureManager] over a store [St]. *)
Class SessionPostureManager (St : Type) := {
  LoadAutonomyProfile : St -> string -> result Layer string;
  SaveAutonomyProfile : St -> string -> Layer -> result St string
}.

(** The part of a layer the session and project stores have columns for. *)
Definition stored_part (l : Layer) : Layer :=
  {| l_Level := l_Level l; l_Overrides := l_Overrides l; l_PostureMode := None; l_PrePlanLayer := None |}.

Definition ErrSessionNotFound : string := "session: not found".

(** [memStore]: the record keeps the level and the overrides, nil when there are none. *)
Definition cloneAutonomyLayer (l : Layer) : option Tier * option (gmap Knob kval) :=
  (l_Level l, if size (l_Overrides l) =? 0 then None else Some (l_Overrides l)).

Definition autonomyLayerFromRecord (r : option Tier * option (gmap Knob kval)) : Layer :=
  {| l_Level := r.1; l_Overrides := default ∅ r.2; l_PostureMode := None; l_PrePlanLayer := None |}.

Record memStore := { ms_records : gmap string (option Tier * option (gmap Knob kval)) }.

#[export] Instance memStore_posture : SessionPostureManager memStore := {
  LoadAutonomyProfile s id := match ms_records s !! id with Some r => Ok (autonomyLayerFromRecord r) | None => Err ErrSessionNotFound end;
  SaveAutonomyProfile s id l :=
    match ms_records s !! id with
    | Some _ => Ok {| ms_records := <[id := cloneAutonomyLayer l]> (ms_records s) |}
    | None => Err ErrSessionNotFound
    end
}.

(** [sqlStore]: the columns autonomy_level and autonomy_overrides, null or a value. *)
Definition encodeAutonomySQL (l : Layer) : option Z * option string :=
  (l_Level l, if size (l_Overrides l) =? 0 then None else Some (of_list (print_json (marshalOverrides (l_Overrides l))))).

Definition layer_err (e : LayerErr) : string :=
  match e with ErrJSON => "autonomy: unmarshal layer" | ErrTier msg => msg | ErrOverrides => "autonomy: unmarshal overrides" end.

Definition overrides_envelope (raw : string) : string :=
  "{" +:+ dquote +:+ "level" +:+ dquote +:+ ":null," +:+ dquote +:+ "overrides" +:+ dquote +:+ ":" +:+ raw +:+ "}".

Definition decodeAutonomySQL (row : option Z * option string) : result Layer string :=
  match row.2 with
  | None | Some "" => Ok {| l_Level := row.1; l_Overrides := ∅; l_PostureMode := None; l_PrePlanLayer := None |}
  | Some raw =>
      match UnmarshalJSON (overrides_envelope raw) with
      | Err e => Err (layer_err e)
      | Ok l => Ok {| l_Level := row.1; l_Overrides := l_Overrides l; l_PostureMode := None; l_PrePlanLayer := None |}
      end
  end.

Record sqlStore := { ss_rows : gmap string (option Z * option string) }.

#[export] Instance sqlStore_posture : SessionPostureManager sqlStore := {
  LoadAutonomyProfile s id := match ss_rows s !! id with Some row => decodeAutonomySQL row | None => Err ErrSessionNotFound end;
  SaveAutonomyProfile s id l :=
    match ss_rows s !! id with
    | Some _ => Ok {| ss_rows := <[id := encodeAutonomySQL l]> (ss_rows s) |}
    | None => Err ErrSessionNotFound
    end
}.

(** * The tools *)

(** What a tool answers: its outcome, or an error result for the model. *)
Inductive tool_answer (A : Type) := Answered (a : A) | ToolError (kind message : string).
Arguments Answered {A} _. Arguments ToolError {A} _ _.

(** Decoding JSON into a struct with one string field: names match without case, null
    leaves the field, another type is an error. *)
Definition struct_member (name : string) (acc : option string) (kv : string * json) : option string :=
  match acc with
  | None => None
  | Some s => if EqualFold kv.1 name then match kv.2 with JStr s => Some s | JNull => Some s | _ => None end else Some s
  end.

Definition decode_struct (name text : string) : option string :=
  match json_valid text with
  | Some (JObj l) => foldl (struct_member name) (Some "") l
  | Some JNull => Some ""
  | _ => None
  end.

Section Tools.
Context {St : Type} `{SessionPostureManager St}.
Implicit Types (st : St).

Definition in_plan_mode (l : Layer) : bool := bool_decide (l_PostureMode l = Some PostureModePlanMode).

(** [prePlanSnapshot]: the layer without posture and snapshot, as JSON. *)
Definition prePlanSnapshot (l : Layer) : string := MarshalJSON (stored_part l).

Definition plan_layer (l : Layer) : Layer :=
  {| l_Level := l_Level l; l_Overrides := l_Overrides l; l_PostureMode := Some PostureModePlanMode; l_PrePlanLayer := Some (prePlanSnapshot l) |}.

(** [EnterTool.Call]; the answer tells whether the session was in plan mode already. *)
Definition Enter st (sessionID args : string) : tool_answer bool * St :=
  if bool_decide (sessionID = "") then (ToolError "no_session" "no session id in context", st)
  else if negb (bool_decide (args = "")) && negb (bool_decide (is_Some (decode_struct "reason" args))) then
    (ToolError "invalid_args" "parse args", st)
  else match LoadAutonomyProfile st sessionID with
       | Err err => (ToolError "load_failed" ("load session layer: " +:+ err), st)
       | Ok current =>
           if in_plan_mode current then (Answered true, st)
           else match SaveAutonomyProfile st sessionID (plan_layer current) with
                | Err err => (ToolError "save_failed" ("save session layer: " +:+ err), st)
                | Ok st' => (Answered false, st')
                end
       end.

Definition MaxPlanBytes : nat := 1024 * 1024.

(** [ExitTool.Call]: the id of the captured plan and its text.  [capture] is the artifact
    manager on this plan: the ids it made, or an error. *)
Definition Exit (capture : string -> result (list string) string) st (sessionID args : string) : tool_answer (string * string) :=
  if bool_decide (sessionID = "") then ToolError "no_session" "no session id in context"
  else if bool_decide (args = "") then ToolError "invalid_args" "empty args"
  else match decode_struct "plan" args with
       | None => ToolError "invalid_args" "parse args"
       | Some plan =>
           let plan := TrimSpace plan in
           if bool_decide (plan = "") then ToolError "invalid_args" "plan is required and must not be empty"
           else if (Z.of_nat MaxPlanBytes <? Z.of_nat (String.length plan))%Z then
             ToolError "plan_too_large" ("plan exceeds " +:+ fmt_d (Z.of_nat MaxPlanBytes) +:+ " bytes")
           else match LoadAutonomyProfile st sessionID with
                | Err err => ToolError "load_failed" ("load session layer: " +:+ err)
                | Ok current =>
                    if negb (in_plan_mode current) then
                      ToolError "not_in_plan_mode" "session is not in plan_mode; call __enter_plan_mode first"
                    else match capture plan with
                         | Err err => ToolError "capture_failed" ("persist plan artifact: " +:+ err)
                         | Ok [] => ToolError "capture_failed" "artifact manager returned zero artifacts"
                         | Ok (id :: _) => Answered (id, plan)
                         end
                end
       end.

Definition RestorePrePlanLayer st (sessionID : string) : result (Layer * St) string :=
  match LoadAutonomyProfile st sessionID with
  | Err err => Err ("planmode: restore: load: " +:+ err)
  | Ok current =>
      match l_PrePlanLayer current with
      | None =>
          match SaveAutonomyProfile st sessionID DefaultLayer with
          | Err err => Err ("planmode: restore: save default: " +:+ err)
          | Ok st' => Ok (DefaultLayer, st')
          end
      | Some text =>
          match UnmarshalJSON text with
          | Err e => Err ("planmode: restore: decode snapshot: " +:+ layer_err e)
          | Ok snap =>
              match SaveAutonomyProfile st sessionID (stored_part snap) with
              | Err err => Err ("planmode: restore: save: " +:+ err)
              | Ok st' => Ok (stored_part snap, st')
              end
          end
      end
  end.

(** * The approval *)

Inductive verdict := VApprove | VDiscard | VEdit (editedPlan : string).

Record outcome_event := { oe_SessionID : string; oe_Outcome : string; oe_PlanID : string }.

Definition verdict_text (v : verdict) : string :=
  match v with VApprove => "approved" | VDiscard => "discarded" | VEdit _ => "edited_and_approved" end.

(** [Approve], [Discard] and [Edit]: whether the plan is approved, the event sent, the
    store.  [write] is the artifact updater, when there is one. *)
Definition decide_plan (write : option (string -> string -> option string)) st (sessionID planID : string) (v : verdict) :
    result (bool * outcome_event * St) string :=
  if bool_decide (sessionID = "") then Err "planmode: empty session_id"
  else
    let edit_failure :=
      match v with
      | VEdit text =>
          if bool_decide (planID = "") then Some "planmode.Edit: empty plan_id"
          else match write with
               | Some write => if bool_decide (text = "") then None
                               else match write planID text with Some e => Some ("planmode.Edit: write version: " +:+ e) | None => None end
               | None => None
               end
      | _ => None
      end in
    match edit_failure with
    | Some e => Err e
    | None =>
        match RestorePrePlanLayer st sessionID with
        | Err e => Err ("planmode: " +:+ e)
        | Ok (_, st') =>
            Ok (match v with VDiscard => false | _ => true end,
                {| oe_SessionID := sessionID; oe_Outcome := verdict_text v; oe_PlanID := planID |}, st')
        end
    end.
End Tools.

(** * The gate *)

Definition PlanModeDeniedActions : list string :=
  ["file_write"; "write_filesystem"; "state_write"; "memory_write"; "run_bash_command"; "workflow.save"; "workflow.delete";
   "artifact.update"; "tool.scheduled_run.create"; "tool.scheduled_run.delete"; "tool.scheduled_run.execute"].

Definition WithPostureMode (mode : string) (inner : Gate) : Gate :=
  if bool_decide (mode = PostureModePlanMode) then
    fun action resource =>
      if bool_decide (action ∈ PlanModeDeniedActions)
      then {| dc_Outcome := Deny; dc_Action := action; dc_Resource := resource; dc_MatchedPolicy := "plan_mode:read_only";
              dc_Reason := "plan_mode:read_only" |}
      else inner action resource
  else inner.

(** [PolicyGateAdapter]: the nil gate answers that no policy applies. *)
Definition AllowAll : Gate := fun action resource =>
  {| dc_Outcome := NotApplicable; dc_Action := action; dc_Resource := resource; dc_MatchedPolicy := ""; dc_Reason := "no engine wired (AllowAll fallback)" |}.

Definition NewPolicyGateAdapter (g : option Gate) : Gate := default AllowAll g.

Definition CheckUseTool (g : option Gate) (server tool : string) : option string :=
  match g with None => None | Some g => enforce (g ActionUseTool (ToolID server tool)) end.

Definition adapter_CheckTool (g : Gate) (toolName : string) : option string :=
  let '(server, tool) := splitToolName toolName in
  match CheckUseTool (Some g) server tool with
  | Some err => Some err
  | None => CheckTool (Some g) server tool
  end.

(** The checks of the file, state and memory executors all have this shape. *)
Definition check_action (g : Gate) (action resource : string) : option string := enforce (g action resource).
