(* ===== verification/PlanModeProps.v ===== *)
(** What becomes of plan mode over the session stores, what they keep of a layer, and what
    the plan-mode gate stops. *)
From S2P Require Import Prelude GoString Utf8 Json Decimal JsonProps Autonomy AutonomyProps Grants AgentGraph ToolArgs Consent ToolGate PlanMode.
From stdpp Require Import gmap.
From Stdlib Require Import Ascii.
Local Open Scope nat_scope.

(** ** The session stores *)

(** What the stores with two columns do to a layer. *)
Class ColumnPosture (St : Type) `{SessionPostureManager St} := {
  loads_columns (st : St) id l : LoadAutonomyProfile st id = Ok l -> stored_part l = l;
  keeps_default (st st' : St) id : SaveAutonomyProfile st id DefaultLayer = Ok st' -> LoadAutonomyProfile st' id = Ok DefaultLayer
}.

#[export] Instance memStore_columns : ColumnPosture memStore.
Proof.
  split.
  - intros st id l. cbn. destruct (ms_records st !! id) as [r|]; [|done]. by intros [= <-].
  - intros st st' id. cbn. destruct (ms_records st !! id) as [r|]; [|done]. intros [= <-]. cbn. by rewrite lookup_insert_eq.
Qed.

#[export] Instance sqlStore_columns : ColumnPosture sqlStore.
Proof.
  split.
  - intros st id l. cbn. destruct (ss_rows st !! id) as [r|]; [|done]. unfold decodeAutonomySQL.
    destruct r.2 as [[|c raw]|]; [by intros [= <-]| |by intros [= <-]]. destruct (UnmarshalJSON _); [|done]. by intros [= <-].
  - intros st st' id. cbn. destruct (ss_rows st !! id) as [r|]; [|done]. intros [= <-]. cbn. by rewrite lookup_insert_eq.
Qed.

(** C32: over the session stores plan mode never takes effect: entering it answers success
    every time and changes no knob of the session, leaving it is always refused, and a
    decision on a plan replaces the session's level and overrides by the default. *)
Theorem plan_mode_never_holds {St : Type} `{!SessionPostureManager St} `{!ColumnPosture St} (st : St) id :
  (forall args st', Enter st id args <> (Answered true, st')) /\
  (forall l, LoadAutonomyProfile st id = Ok l -> forall g p, activePosture g p l = activePosture g p emptyLayer) /\
  (forall capture plan r, Exit capture st id plan <> Answered r) /\
  (forall write planID v ok ev st', decide_plan write st id planID v = Ok (ok, ev, st') -> LoadAutonomyProfile st' id = Ok DefaultLayer).
Proof.
  assert (forall l, LoadAutonomyProfile st id = Ok l -> l_PostureMode l = None /\ l_PrePlanLayer l = None) as Hnone
    by (intros l Hl; rewrite <- (loads_columns st id l Hl); done).
  split_and!.
  - intros args st'. unfold Enter. case_bool_decide; [done|]. destruct (_ && _); [done|].
    destruct (LoadAutonomyProfile st id) as [l|] eqn:Hl; [|done]. destruct (Hnone l eq_refl) as [Hp _].
    unfold in_plan_mode. rewrite Hp, bool_decide_false by done. by destruct (SaveAutonomyProfile _ _ _).
  - intros l Hl g p. destruct (Hnone l Hl) as [Hp _]. unfold activePosture. by rewrite Hp.
  - intros capture plan r. unfold Exit. repeat (case_bool_decide; [done|]). destruct (decode_struct _ _); [|done].
    case_bool_decide; [done|]. destruct (_ <? _)%Z; [done|]. destruct (LoadAutonomyProfile st id) as [l|] eqn:Hl; [|done].
    destruct (Hnone l eq_refl) as [Hp _]. unfold in_plan_mode. by rewrite Hp, bool_decide_false.
  - intros write planID v ok ev st'. unfold decide_plan. case_bool_decide; [done|]. destruct (match v with VEdit _ => _ | _ => None end); [done|].
    unfold RestorePrePlanLayer. destruct (LoadAutonomyProfile st id) as [l|] eqn:Hl; [|done]. destruct (Hnone l eq_refl) as [_ Hs]. rewrite Hs.
    destruct (SaveAutonomyProfile st id DefaultLayer) as [s|] eqn:Hsave; [|done]. intros [= _ _ <-]. by eapply keeps_default.
Qed.

(** ** What the stores keep *)

Lemma envelope_print m : overrides_envelope (of_list (print_json (marshalOverrides m))) =
  MarshalJSON {| l_Level := None; l_Overrides := m; l_PostureMode := None; l_PrePlanLayer := None |}.
Proof.
  apply list_of_inj. unfold overrides_envelope, MarshalJSON. rewrite !list_of_app, !list_of_of_list.
  unfold layer_json. cbn [l_Level l_Overrides l_PostureMode l_PrePlanLayer optional_str pre_plan_member app].
  cbn [print_json print_members]. generalize (print_json (marshalOverrides m)). intros text. vm_compute. reflexivity.
Qed.

Lemma decode_encode l : layer_wf l -> decodeAutonomySQL (encodeAutonomySQL l) = Ok (stored_part l).
Proof.
  intros Hl. unfold encodeAutonomySQL, decodeAutonomySQL. cbn [fst snd]. destruct (Nat.eqb_spec (size (l_Overrides l)) 0) as [H0|H0].
  - apply map_size_empty_inv in H0. unfold stored_part. by rewrite H0.
  - rewrite envelope_print. rewrite layer_reads_back; [|destruct Hl; by split].
    destruct (of_list (print_json (marshalOverrides (l_Overrides l)))) as [|c text] eqn:He; [|done].
    exfalso. apply (f_equal list_of) in He. rewrite list_of_of_list in He. by unfold marshalOverrides in He.
Qed.

Lemma record_clone l : autonomyLayerFromRecord (cloneAutonomyLayer l) = stored_part l.
Proof.
  unfold autonomyLayerFromRecord, cloneAutonomyLayer, stored_part. cbn. destruct (Nat.eqb_spec (size (l_Overrides l)) 0) as [H0|H0]; [|done].
  apply map_size_empty_inv in H0. by rewrite H0.
Qed.

(** C31: What is saved for a session is what is loaded, level and overrides alike, in the
    memory store and through the SQL columns, and the two stores answer alike; the other
    sessions keep what they had. *)
Theorem stored_layer_round_trip (mem : memStore) (sql : sqlStore) id l mem' sql' : layer_wf l ->
  SaveAutonomyProfile mem id l = Ok mem' -> SaveAutonomyProfile sql id l = Ok sql' ->
  LoadAutonomyProfile mem' id = Ok (stored_part l) /\ LoadAutonomyProfile sql' id = Ok (stored_part l) /\
  forall id', id' <> id -> LoadAutonomyProfile mem' id' = LoadAutonomyProfile mem id' /\ LoadAutonomyProfile sql' id' = LoadAutonomyProfile sql id'.
Proof.
  intros Hl. cbn. destruct (ms_records mem !! id) as [r|]; [|done]. intros [= <-]. destruct (ss_rows sql !! id) as [row|]; [|done]. intros [= <-].
  cbn. rewrite !lookup_insert_eq, record_clone, decode_encode by done. split_and!; [done..|].
  intros id' Hne. by rewrite !lookup_insert_ne by done.
Qed.

(** ** The gate *)

(** The plan-mode gate only narrows: it denies the write actions, leaves every other
    answer to the gate it wraps, and in no other mode changes anything; but the actions
    of a tool dispatch are not among the write actions, so no tool is stopped by it. *)
Theorem plan_gate_narrows mode inner action resource :
  (mode = PostureModePlanMode -> action ∈ PlanModeDeniedActions -> is_Some (check_action (WithPostureMode mode inner) action resource)) /\
  (mode <> PostureModePlanMode \/ action ∉ PlanModeDeniedActions -> WithPostureMode mode inner action resource = inner action resource) /\
  (check_action (WithPostureMode mode inner) action resource = None -> check_action inner action resource = None) /\
  forall toolName, adapter_CheckTool (WithPostureMode mode inner) toolName = adapter_CheckTool inner toolName.
Proof.
  assert (forall a r, a ∉ PlanModeDeniedActions -> WithPostureMode mode inner a r = inner a r) as Hout.
  { intros a r Ha. unfold WithPostureMode. case_bool_decide; [by rewrite bool_decide_false|done]. }
  split_and!.
  - intros -> Ha. unfold check_action, WithPostureMode. rewrite bool_decide_true, bool_decide_true by done. by eexists.
  - intros [Hm|Ha]; [|by apply Hout]. unfold WithPostureMode. by rewrite bool_decide_false.
  - unfold check_action. destruct (decide (action ∈ PlanModeDeniedActions)) as [Ha|Ha]; [|by rewrite Hout].
    unfold WithPostureMode. case_bool_decide; [by rewrite bool_decide_true|done].
  - intros toolName. unfold adapter_CheckTool, CheckUseTool, CheckTool. destruct (splitToolName toolName) as [server tool].
    by rewrite !Hout by (by apply (bool_decide_unpack _); vm_compute).
Qed.

(** * A session *)

Definition p_layer : Layer :=
  {| l_Level := Some TierBold; l_Overrides := {[KnobMaxIterations := KInt 7]}; l_PostureMode := None; l_PrePlanLayer := None |}.

Lemma p_layer_wf : layer_wf p_layer.
Proof.
  split; cbn.
  - intros t [= <-]. unfold TierBold. lia.
  - intros k v [<- <-]%lookup_singleton_Some. split_and!; [by apply in_knobs; vm_compute|reflexivity|unfold kval_wf, in_int64; lia].
  - done.
  - done.
Qed.

Lemma plan_mode_never_holds_witness :
  let st := {| ss_rows := {["s" := encodeAutonomySQL p_layer]} |} in
  exists ok ev st', decide_plan None st "s" "p" VApprove = Ok (ok, ev, st') /\ LoadAutonomyProfile st' "s" = Ok DefaultLayer.
Proof.
  cbn zeta. set (st := {| ss_rows := {["s" := encodeAutonomySQL p_layer]} |}).
  destruct (plan_mode_never_holds st "s") as (_ & _ & _ & Hd).
  destruct (decide_plan None st "s" "p" VApprove) as [[[ok ev] st2]|err] eqn:Hp; [|exfalso; vm_compute in Hp; discriminate Hp].
  exists ok, ev, st2. split; [reflexivity|exact (Hd None "p" VApprove ok ev st2 Hp)].
Defined.

Lemma stored_layer_round_trip_witness :
  let sql := {| ss_rows := {["s" := (None, None)]} |} in
  let mem := {| ms_records := {["s" := (None, None)]} |} in
  exists (mem' : memStore) (sql' : sqlStore), LoadAutonomyProfile mem' "s" = Ok (stored_part p_layer) /\ LoadAutonomyProfile sql' "s" = Ok (stored_part p_layer).
Proof.
  cbn zeta. destruct (stored_layer_round_trip {| ms_records := {["s" := (None, None)]} |} {| ss_rows := {["s" := (None, None)]} |} "s" p_layer
    {| ms_records := {["s" := cloneAutonomyLayer p_layer]} |} {| ss_rows := {["s" := encodeAutonomySQL p_layer]} |} p_layer_wf) as (H1 & H2 & _);
    [reflexivity|reflexivity|]. exists {| ms_records := {["s" := cloneAutonomyLayer p_layer]} |}, {| ss_rows := {["s" := encodeAutonomySQL p_layer]} |}.
  split; [exact H1|exact H2].
Defined.

Lemma plan_gate_narrows_witness : is_Some (check_action (WithPostureMode "plan_mode" AllowAll) "file_write" "/etc/hosts") /\
  adapter_CheckTool (WithPostureMode "plan_mode" AllowAll) "fs__write_file" = None.
Proof.
  destruct (plan_gate_narrows "plan_mode" AllowAll "file_write" "/etc/hosts") as (H1 & _ & _ & H4). split.
  - apply H1; [reflexivity|by apply (bool_decide_unpack _); vm_compute].
  - rewrite (H4 "fs__write_file"). reflexivity.
Defined.
