(* ===== verification/AuditLog.v ===== *)
(** The audit event log: rows in per-session hash chains, the backends that store them
    (core/event/log/store.go, sqlbackend.go), the verifier (chain.go), the retention sweep
    (retention.go) and the fleet's check of a batch (core/fleet/audit_chain_verifier.go).
    A digest is the string of its 32 bytes; SHA-256 is a parameter.  A time is in
    nanoseconds.  Contexts are live and the database does not fail. *)
From S2P Require Import Prelude GoString Json.
From stdpp Require Import gmap.
From Stdlib Require Import Ascii.
Local Open Scope nat_scope.

(** * Rows *)

Record Row := {
  ro_EventID : string; ro_SessionID : string; ro_EmitterID : string; ro_Kind : string; ro_EmittedAt : Z; ro_Payload : string;
  ro_PayloadHash : string; ro_PrevHash : string; ro_RedactionSummary : string; ro_SchemaVersion : Z
}.

#[export] Instance Row_eq_dec : EqDecision Row.
Proof. solve_decision. Defined.

Definition ZeroHash : string := of_list (repeat (chr 0) 32).

Definition UnixMilli (t : Z) : Z := (t / 1000000)%Z.

(** [%x]: two digits for a byte. *)
Definition hex_char (n : N) : ascii := if (n <? 10)%N then chr (48 + n) else chr (87 + n).
Definition hex_byte (c : ascii) : list ascii := [hex_char (N_of_ascii c / 16); hex_char (N_of_ascii c mod 16)].
Definition hex (s : string) : string := of_list (flat_map hex_byte (list_of s)).

Definition canonicalSerialize (r : Row) : string :=
  hex (ro_PrevHash r) +:+ "|" +:+ ro_Kind r +:+ "|" +:+ fmt_d (UnixMilli (ro_EmittedAt r)) +:+ "|" +:+ ro_Payload r.

Definition with_hashes (r : Row) (prev payload : string) : Row :=
  {| ro_EventID := ro_EventID r; ro_SessionID := ro_SessionID r; ro_EmitterID := ro_EmitterID r; ro_Kind := ro_Kind r;
     ro_EmittedAt := ro_EmittedAt r; ro_Payload := ro_Payload r; ro_PayloadHash := payload; ro_PrevHash := prev;
     ro_RedactionSummary := ro_RedactionSummary r; ro_SchemaVersion := ro_SchemaVersion r |}.

Definition with_time (r : Row) (t : Z) : Row :=
  {| ro_EventID := ro_EventID r; ro_SessionID := ro_SessionID r; ro_EmitterID := ro_EmitterID r; ro_Kind := ro_Kind r;
     ro_EmittedAt := t; ro_Payload := ro_Payload r; ro_PayloadHash := ro_PayloadHash r; ro_PrevHash := ro_PrevHash r;
     ro_RedactionSummary := ro_RedactionSummary r; ro_SchemaVersion := ro_SchemaVersion r |}.

(** * Backends *)

Inductive AppendErr := ErrChainHeadMismatch | ErrCollision.

(** [HeadFor] gives the digest and the id of the last row of a session; the select has a
    lower and an upper time bound, a cursor, a limit (zero for none) and a direction. *)
Class Backend (B : Type) := {
  AppendRow : B -> Row -> string -> B * option AppendErr;
  HeadFor : B -> string -> option (string * string);
  SelectByTimeRange : B -> option Z -> option Z -> string -> nat -> bool -> list Row;
  DeleteRows : B -> list string -> B
}.

Definition chain_head {B} `{Backend B} (b : B) (sid : string) : string := from_option fst ZeroHash (HeadFor b sid).
Definition all_rows {B} `{Backend B} (b : B) : list Row := SelectByTimeRange b None None "" 0 false.

Definition id_le (r r' : Row) : Prop := String.le (ro_EventID r) (ro_EventID r').
#[export] Instance id_le_dec : RelDecision id_le.
Proof. intros r r'. unfold id_le. apply _. Defined.

Definition id_after (after : string) (r : Row) : bool :=
  bool_decide (after = "") || negb (bool_decide (String.le (ro_EventID r) after)).

(** What a backend promises.  [stored] is a row as it comes back: it may lose the part of
    the time below the millisecond. *)
Class BackendLaws (B : Type) `{Backend B} := {
  stored : Row -> Row;
  stored_row r : exists t, stored r = with_time r t /\ UnixMilli t = UnixMilli (ro_EmittedAt r);
  backend_ok : B -> Prop;
  rows_sorted b : backend_ok b -> Sorted id_le (all_rows b) /\ NoDup (map ro_EventID (all_rows b));
  select_page b after limit : backend_ok b -> 0 < limit ->
    SelectByTimeRange b None None after limit false = take limit (List.filter (id_after after) (all_rows b));
  append_mismatch b r h : chain_head b (ro_SessionID r) <> h -> AppendRow b r h = (b, Some ErrChainHeadMismatch);
  append_collision b r h : backend_ok b -> chain_head b (ro_SessionID r) = h -> ro_EventID r ∈ map ro_EventID (all_rows b) ->
    AppendRow b r h = (b, Some ErrCollision);
  append_row b r h : backend_ok b -> chain_head b (ro_SessionID r) = h -> ro_EventID r ∉ map ro_EventID (all_rows b) ->
    let '(b', e) := AppendRow b r h in
    e = None /\ backend_ok b' /\ all_rows b' ≡ₚ stored r :: all_rows b /\
    forall sid, chain_head b' sid = if bool_decide (sid = ro_SessionID r) then ro_PayloadHash r else chain_head b sid;
  delete_rows b ids : backend_ok b ->
    backend_ok (DeleteRows b ids) /\
    all_rows (DeleteRows b ids) = List.filter (fun r => negb (bool_decide (ro_EventID r ∈ ids))) (all_rows b) /\
    forall sid, chain_head (DeleteRows b ids) sid = chain_head b sid
}.

(** Both backends: rows by id, and the head of each session, as id and digest. *)
Record headState := { hs_headID : string; hs_headHash : string }.

(** The rows a select keeps, ordered, cut. *)
Definition select_rows (rows : list Row) (keep : Row -> bool) (after : string) (limit : nat) (reverse : bool) : list Row :=
  let out := List.filter (fun r => keep r && (bool_decide (after = "") ||
               (if reverse then negb (bool_decide (String.le after (ro_EventID r))) else negb (bool_decide (String.le (ro_EventID r) after))))) rows in
  let out := if reverse then merge_sort (flip id_le) out else merge_sort id_le out in
  if limit =? 0 then out else take limit out.

Definition in_range (from to : option Z) (t : Z) : bool :=
  from_option (fun f => (f <=? t)%Z) true from && from_option (fun u => (t <=? u)%Z) true to.

Record MemoryBackend := { me_rows : gmap string Row; me_heads : gmap string headState; me_totalSize : Z }.

Definition NewMemoryBackend : MemoryBackend := {| me_rows := ∅; me_heads := ∅; me_totalSize := 0 |}.

Definition mem_AppendRow (m : MemoryBackend) (row : Row) (expectedHead : string) : MemoryBackend * option AppendErr :=
  let matches := match me_heads m !! ro_SessionID row with
                 | Some h => bool_decide (hs_headHash h = expectedHead)
                 | None => bool_decide (expectedHead = ZeroHash)
                 end in
  if negb matches then (m, Some ErrChainHeadMismatch)
  else match me_rows m !! ro_EventID row with
       | Some _ => (m, Some ErrCollision)
       | None =>
           ({| me_rows := <[ro_EventID row := row]> (me_rows m);
               me_heads := <[ro_SessionID row := {| hs_headID := ro_EventID row; hs_headHash := ro_PayloadHash row |}]> (me_heads m);
               me_totalSize := (me_totalSize m + Z.of_nat (String.length (ro_Payload row)))%Z |}, None)
       end.

#[export] Instance MemoryBackend_Backend : Backend MemoryBackend := {
  AppendRow := mem_AppendRow;
  HeadFor m sid := (fun h => (hs_headHash h, hs_headID h)) <$> me_heads m !! sid;
  SelectByTimeRange m from to after limit reverse :=
    select_rows (map snd (map_to_list (me_rows m))) (fun r => in_range from to (ro_EmittedAt r)) after limit reverse;
  DeleteRows m ids :=
    {| me_rows := foldl (fun rows id => delete id rows) (me_rows m) ids; me_heads := me_heads m; me_totalSize := me_totalSize m |}
}.

(** The SQL backend: the tables events and event_chain_heads by their primary keys; a time
    is a column of milliseconds. *)
Record SQLBackend := { sq_events : gmap string Row; sq_heads : gmap string headState }.

Definition sql_row (r : Row) : Row := with_time r (UnixMilli (ro_EmittedAt r) * 1000000)%Z.

Definition sql_AppendRow (b : SQLBackend) (row : Row) (expectedHead : string) : SQLBackend * option AppendErr :=
  let mismatch := match sq_heads b !! ro_SessionID row with
                  | Some h => negb (bool_decide (hs_headHash h = expectedHead))
                  | None => negb (bool_decide (expectedHead = ZeroHash))
                  end in
  if mismatch then (b, Some ErrChainHeadMismatch)
  else if bool_decide (is_Some (sq_events b !! ro_EventID row)) then (b, Some ErrCollision)
  else ({| sq_events := <[ro_EventID row := sql_row row]> (sq_events b);
           sq_heads := <[ro_SessionID row := {| hs_headID := ro_EventID row; hs_headHash := ro_PayloadHash row |}]> (sq_heads b) |}, None).

#[export] Instance SQLBackend_Backend : Backend SQLBackend := {
  AppendRow := sql_AppendRow;
  HeadFor b sid := (fun h => (hs_headHash h, hs_headID h)) <$> sq_heads b !! sid;
  SelectByTimeRange b from to after limit reverse :=
    select_rows (map snd (map_to_list (sq_events b)))
      (fun r => in_range (UnixMilli <$> from) (UnixMilli <$> to) (UnixMilli (ro_EmittedAt r))) after limit reverse;
  DeleteRows b ids := {| sq_events := foldl (fun rows id => delete id rows) (sq_events b) ids; sq_heads := sq_heads b |}
}.

(** * Writing and verifying *)

Record VerifyChainResult := { vr_Verified : bool; vr_RowsChecked : nat; vr_BrokenAtID : string }.

Definition verifyBatchSize : nat := 10000.
Definition appendComputedMaxAttempts : nat := 64.

Section Chain.
Variable sha : string -> string.

Definition recomputeHash (r : Row) : string := sha (canonicalSerialize r).

Definition link (r : Row) (prev : string) : Row := with_hashes r prev (recomputeHash (with_hashes r prev (ro_PayloadHash r))).

Section Ops.
Context {B : Type} `{Backend B}.

(** [AppendComputed]; [others i] is what other writers do between the read of the head and
    the append of attempt [i]. *)
Fixpoint append_attempts (left_ attempt : nat) (others : nat -> B -> B) (b : B) (row : Row) : B * option AppendErr :=
  match left_ with
  | 0 => (b, Some ErrChainHeadMismatch)
  | S left_ =>
      let prevHash := chain_head b (ro_SessionID row) in
      match AppendRow (others attempt b) (link row prevHash) prevHash with
      | (b, None) => (b, None)
      | (b, Some ErrChainHeadMismatch) => append_attempts left_ (S attempt) others b row
      | (b, Some e) => (b, Some e)
      end
  end.

Definition AppendComputed (others : nat -> B -> B) (b : B) (row : Row) : B * option AppendErr :=
  append_attempts appendComputedMaxAttempts 0 others b row.

(** ** VerifyChain *)

Definition in_window (fromID toID : string) (r : Row) : bool :=
  (bool_decide (fromID = "") || bool_decide (String.le fromID (ro_EventID r))) &&
  (bool_decide (toID = "") || bool_decide (String.le (ro_EventID r) toID)).

(** The loop over pages; it ends at a short page or past the window.  All pages are of one
    state of the log: a row appended between two of them is not modelled. *)
Fixpoint fetch (fuel size : nat) (b : B) (fromID toID after : string) (acc : list Row) : option (list Row) :=
  match fuel with
  | 0 => None
  | S fuel =>
      let batch := SelectByTimeRange b None None after size false in
      let acc := acc ++ List.filter (in_window fromID toID) batch in
      if length batch <? size then Some acc
      else
        let after := from_option ro_EventID "" (last batch) in
        if negb (bool_decide (toID = "")) && bool_decide (String.le toID after) then Some acc
        else fetch fuel size b fromID toID after acc
  end.

Fixpoint verify_rows (sessionExpected : gmap string string) (checked : nat) (rows : list Row) : VerifyChainResult :=
  match rows with
  | [] => {| vr_Verified := true; vr_RowsChecked := checked; vr_BrokenAtID := "" |}
  | r :: rows =>
      let broken := {| vr_Verified := false; vr_RowsChecked := S checked; vr_BrokenAtID := ro_EventID r |} in
      let expectedPrev := default ZeroHash (sessionExpected !! ro_SessionID r) in
      if negb (bool_decide (ro_PrevHash r = ZeroHash)) && negb (bool_decide (ro_PrevHash r = expectedPrev)) then broken
      else if negb (bool_decide (recomputeHash r = ro_PayloadHash r)) then broken
      else verify_rows (<[ro_SessionID r := ro_PayloadHash r]> sessionExpected) (S checked) rows
  end.

(** The pages are at most as many as the rows, and one. *)
Definition verify_pages (size : nat) (b : B) (fromID toID : string) : option VerifyChainResult :=
  (fun rows => verify_rows ∅ 0 (merge_sort id_le rows)) <$> fetch (S (S (length (all_rows b)))) size b fromID toID "" [].

Definition VerifyChain : B -> string -> string -> option VerifyChainResult := verify_pages verifyBatchSize.

(** ** The retention sweep *)

Inductive RetentionStrategy := RetentionKeepForever | RetentionDeleteAfterWindow | RetentionArchiveAfterWindow.

Record RetentionResult := { rr_Purged : nat; rr_Archived : nat; rr_ArchivePath : string; rr_ChainVerified : bool }.

(** [archive] writes the rows: the path and number of what it wrote, or an error. *)
Definition ArchiveAndDelete (archive : list Row -> result (string * nat) string) (b : B) (rows : list Row) :
    B * result (nat * string) string :=
  match rows with
  | [] => (b, Ok (0, ""))
  | _ =>
      match archive rows with
      | Err e => (b, Err ("archive-and-delete: archive: " +:+ e))
      | Ok (path, archived) => (DeleteRows b (map ro_EventID rows), Ok (archived, path))
      end
  end.

Definition chain_verified (b : B) : bool := from_option vr_Verified false (VerifyChain b "" "").

Definition RetentionSweep (archive : list Row -> result (string * nat) string) (b : B) (strategy : RetentionStrategy)
    (now window : Z) : B * result RetentionResult string :=
  match strategy with
  | RetentionKeepForever => (b, Ok {| rr_Purged := 0; rr_Archived := 0; rr_ArchivePath := ""; rr_ChainVerified := true |})
  | _ =>
      let old := SelectByTimeRange b None (Some (now - window)%Z) "" 0 false in
      match old with
      | [] => (b, Ok {| rr_Purged := 0; rr_Archived := 0; rr_ArchivePath := ""; rr_ChainVerified := chain_verified b |})
      | _ =>
          match strategy with
          | RetentionArchiveAfterWindow =>
              match ArchiveAndDelete archive b old with
              | (b, Err e) => (b, Err ("retention sweep: " +:+ e))
              | (b, Ok (archived, path)) =>
                  (b, Ok {| rr_Purged := length old; rr_Archived := archived; rr_ArchivePath := path; rr_ChainVerified := chain_verified b |})
              end
          | _ =>
              let b := DeleteRows b (map ro_EventID old) in
              (b, Ok {| rr_Purged := length old; rr_Archived := 0; rr_ArchivePath := ""; rr_ChainVerified := chain_verified b |})
          end
      end
  end.
End Ops.
End Chain.

(** * The fleet's check of a batch *)

Fixpoint batch_from (expectedPrev : string) (events : list Row) : bool * string :=
  match events with
  | [] => (true, "")
  | e :: events =>
      if negb (bool_decide (ro_PrevHash e = ZeroHash)) && negb (bool_decide (ro_PrevHash e = expectedPrev)) then (false, ro_EventID e)
      else batch_from (ro_PayloadHash e) events
  end.

(** [BatchChainVerifier] is its predecessor hash. *)
Definition VerifyBatch (PredecessorHash : string) (events : list Row) : bool * string := batch_from PredecessorHash events.

Definition AdvancePredecessor (PredecessorHash : string) (events : list Row) : string :=
  from_option ro_PayloadHash PredecessorHash (last events).
