(* ===== verification/AuditBackends.v ===== *)
(** The memory and the SQL backend of the audit log keep the promise [BackendLaws] states,
    on tables whose rows are stored under their own ids. *)
From S2P Require Import Prelude GoString AuditLog.
From stdpp Require Import gmap.
From Stdlib Require Import Ascii.
Local Open Scope nat_scope.

(** * Rows in order of their ids *)

#[export] Instance id_le_total : Total id_le.
Proof. intros r r'. apply (total String.le). Qed.
#[export] Instance id_le_trans : Transitive id_le.
Proof. intros r r' r'' H1 H2. by eapply (transitivity (R := String.le)). Qed.

#[export] Instance id_le_refl : Reflexive id_le.
Proof. intros r. unfold id_le. reflexivity. Qed.

Lemma id_le_antisym r r' : id_le r r' -> id_le r' r -> ro_EventID r = ro_EventID r'.
Proof. apply (anti_symm String.le). Qed.

Notation ids rows := (map ro_EventID rows).

Lemma ids_inj rows r r' : NoDup (ids rows) -> r ∈ rows -> r' ∈ rows -> ro_EventID r = ro_EventID r' -> r = r'.
Proof.
  induction rows as [|x rows IH]; [intros _ H; by apply elem_of_nil in H|]. cbn. intros [Hx Hn]%NoDup_cons [->|Hr]%elem_of_cons [->|Hr']%elem_of_cons He;
    [done|..|by apply IH]; exfalso; apply Hx; [rewrite He|rewrite <- He]; by apply list_elem_of_fmap_2.
Qed.

Lemma sorted_ids_unique l l' : Sorted id_le l -> Sorted id_le l' -> l ≡ₚ l' -> NoDup (ids l) -> l = l'.
Proof.
  intros Hs Hs' Hp Hn. apply Sorted_StronglySorted in Hs, Hs'; [|apply _..].
  revert l' Hs' Hp. induction Hs as [|r l Hl IH Hr]; intros l' Hs' Hp; [by apply Permutation_nil in Hp|].
  destruct Hs' as [|r' l' Hs' Hr']; [by symmetry in Hp; apply Permutation_nil in Hp|].
  assert (r = r') as <-.
  { apply (ids_inj (r :: l)); [done|by left|rewrite Hp; by left|]. apply id_le_antisym.
    - assert (r' ∈ r :: l) as [->|H]%elem_of_cons by (rewrite Hp; by left); [reflexivity|]. rewrite Forall_forall in Hr. by apply Hr.
    - assert (r ∈ r' :: l') as [->|H]%elem_of_cons by (rewrite <- Hp; by left); [reflexivity|]. rewrite Forall_forall in Hr'. by apply Hr'. }
  f_equal. apply IH; [by apply NoDup_cons in Hn as [_ ?]|done|by apply Permutation_cons_inv in Hp].
Qed.

Lemma sort_sorted l : Sorted id_le l -> NoDup (ids l) -> merge_sort id_le l = l.
Proof.
  intros Hs Hn. symmetry. apply sorted_ids_unique; [done|apply Sorted_merge_sort; apply _|by rewrite merge_sort_Permutation|done].
Qed.

Lemma sorted_filter f l : Sorted id_le l -> Sorted id_le (List.filter f l).
Proof.
  intros Hs. apply Sorted_StronglySorted in Hs; [|apply _]. apply StronglySorted_Sorted.
  induction Hs as [|r l Hl IH Hr]; [constructor|]. cbn. destruct (f r); [|done]. constructor; [done|].
  rewrite Forall_forall in Hr |- *. intros x [Hx _]%elem_of_filter_bool. by apply Hr.
Qed.

Lemma nodup_ids_filter f l : NoDup (ids l) -> NoDup (ids (List.filter f l)).
Proof.
  induction l as [|r l IH]; [done|]. cbn. intros [Hr Hn]%NoDup_cons. destruct (f r); [|by apply IH]. cbn. constructor; [|by apply IH].
  intros (x & Hx & [Hin _]%elem_of_filter_bool)%list_elem_of_fmap. apply Hr. rewrite Hx. by apply list_elem_of_fmap_2.
Qed.

Lemma sorted_perm f l l' : NoDup (ids l) -> l' ≡ₚ List.filter f l -> merge_sort id_le l' = merge_sort id_le (List.filter f l).
Proof.
  intros Hn Hp. apply sorted_ids_unique; [apply Sorted_merge_sort; apply _..| |].
  - by rewrite !merge_sort_Permutation.
  - rewrite merge_sort_Permutation, Hp. by apply nodup_ids_filter.
Qed.

Lemma sort_filter f l : NoDup (ids l) -> merge_sort id_le (List.filter f l) = List.filter f (merge_sort id_le l).
Proof.
  intros Hn. apply sorted_ids_unique.
  - apply Sorted_merge_sort; apply _.
  - apply sorted_filter, Sorted_merge_sort; apply _.
  - rewrite merge_sort_Permutation. apply filter_bool_perm. by rewrite merge_sort_Permutation.
  - rewrite merge_sort_Permutation. by apply nodup_ids_filter.
Qed.

(** * The backends keep their promise *)

(** A table of rows by their ids, as both backends have one. *)
Definition table_ok (m : gmap string Row) : Prop := map_Forall (fun id r => ro_EventID r = id) m.
Notation table_rows m := (map snd (map_to_list (m : gmap string Row))).

Lemma table_ids m : table_ok m -> ids (table_rows m) = map fst (map_to_list m).
Proof.
  intros Hm. rewrite map_map. apply map_ext_in. intros [id r] Hin%list_elem_of_In%elem_of_map_to_list. by apply Hm.
Qed.

Lemma table_nodup m : table_ok m -> NoDup (ids (table_rows m)).
Proof. intros Hm. rewrite table_ids by done. apply NoDup_fst_map_to_list. Qed.

Lemma elem_table_rows m r : table_ok m -> r ∈ table_rows m <-> m !! ro_EventID r = Some r.
Proof.
  intros Hm. split.
  - intros ([id r'] & -> & Hin%elem_of_map_to_list)%list_elem_of_fmap. cbn. by rewrite (Hm _ _ Hin).
  - intros Hin. apply list_elem_of_fmap. exists (ro_EventID r, r). split; [done|by apply elem_of_map_to_list].
Qed.

Lemma elem_table_ids m id : table_ok m -> id ∈ ids (table_rows m) <-> is_Some (m !! id).
Proof.
  intros Hm. rewrite table_ids by done. split.
  - intros ([id' r] & -> & Hin%elem_of_map_to_list)%list_elem_of_fmap. by exists r.
  - intros [r Hr]. apply list_elem_of_fmap. exists (id, r). split; [done|by apply elem_of_map_to_list].
Qed.

Lemma table_insert m r : table_ok m -> table_ok (<[ro_EventID r := r]> m).
Proof. intros Hm. by apply map_Forall_insert_2. Qed.

Lemma table_rows_insert (m : gmap string Row) id r : m !! id = None -> table_rows (<[id := r]> m) ≡ₚ r :: table_rows m.
Proof. intros Hn. by rewrite (map_to_list_insert m id r Hn). Qed.

Lemma lookup_delete_all (m : gmap string Row) del id :
  foldl (fun rows i => delete i rows) m del !! id = if bool_decide (id ∈ del) then None else m !! id.
Proof.
  revert m. induction del as [|i del IH]; intros m; cbn; [done|]. rewrite IH. case_bool_decide as H1; case_bool_decide as H2; try done.
  - exfalso. by apply H2; right.
  - apply elem_of_cons in H2 as [->|]; [apply lookup_delete_eq|done].
  - apply not_elem_of_cons in H2 as [Hn _]. by rewrite lookup_delete_ne.
Qed.

Lemma table_delete m del : table_ok m -> table_ok (foldl (fun rows i => delete i rows) m del).
Proof. intros Hm id r. rewrite lookup_delete_all. case_bool_decide; [done|]. apply Hm. Qed.

Lemma table_rows_delete m del : table_ok m ->
  table_rows (foldl (fun rows i => delete i rows) m del) ≡ₚ List.filter (fun r => negb (bool_decide (ro_EventID r ∈ del))) (table_rows m).
Proof.
  intros Hm. apply NoDup_Permutation.
  - by eapply NoDup_fmap_1, table_nodup, table_delete.
  - by eapply NoDup_fmap_1, nodup_ids_filter, table_nodup.
  - intros r. rewrite elem_table_rows by by apply table_delete. rewrite lookup_delete_all, elem_of_filter_bool, elem_table_rows by done.
    case_bool_decide; naive_solver.
Qed.

Lemma select_all m from to key : table_ok m -> (forall r, in_range from to (key r) = true) ->
  select_rows (table_rows m) (fun r => in_range from to (key r)) "" 0 false = merge_sort id_le (table_rows m).
Proof.
  intros Hm Hr. unfold select_rows. cbn. f_equal. apply filter_bool_all. intros r _. by rewrite Hr.
Qed.

Lemma select_after m after limit key : table_ok m -> 0 < limit ->
  select_rows (table_rows m) (fun r => in_range None None (key r)) after limit false
  = take limit (List.filter (id_after after) (merge_sort id_le (table_rows m))).
Proof.
  intros Hm Hl. unfold select_rows. destruct (Nat.eqb_spec limit 0); [lia|]. rewrite <- sort_filter by by apply table_nodup.
  by f_equal.
Qed.

Lemma sorted_table m : table_ok m ->
  Sorted id_le (merge_sort id_le (table_rows m)) /\ NoDup (ids (merge_sort id_le (table_rows m))).
Proof.
  intros Hm. split; [apply Sorted_merge_sort; apply _|]. rewrite merge_sort_Permutation. by apply table_nodup.
Qed.

Lemma elem_sorted_ids m id : table_ok m -> id ∈ ids (merge_sort id_le (table_rows m)) <-> is_Some (m !! id).
Proof. intros Hm. rewrite merge_sort_Permutation. by apply elem_table_ids. Qed.

Lemma with_time_same r : with_time r (ro_EmittedAt r) = r.
Proof. by destruct r. Qed.

Lemma heads_insert (heads : gmap string headState) sid id hash sid' :
  from_option fst ZeroHash ((fun h => (hs_headHash h, hs_headID h)) <$> <[sid := {| hs_headID := id; hs_headHash := hash |}]> heads !! sid')
  = if bool_decide (sid' = sid) then hash
    else from_option fst ZeroHash ((fun h => (hs_headHash h, hs_headID h)) <$> heads !! sid').
Proof. case_bool_decide as He; [subst; by rewrite lookup_insert_eq|by rewrite lookup_insert_ne]. Qed.

Lemma mem_all_rows (m : MemoryBackend) : table_ok (me_rows m) -> all_rows m = merge_sort id_le (table_rows (me_rows m)).
Proof. intros Hm. by apply (select_all _ None None ro_EmittedAt). Qed.

Lemma sql_all_rows (b : SQLBackend) : table_ok (sq_events b) -> all_rows b = merge_sort id_le (table_rows (sq_events b)).
Proof. intros Hm. by apply (select_all _ None None (fun r => UnixMilli (ro_EmittedAt r))). Qed.

#[local] Obligation Tactic := idtac.

#[export] Program Instance MemoryBackend_laws : BackendLaws MemoryBackend := {
  stored r := r;
  backend_ok m := table_ok (me_rows m)
}.
Next Obligation. intros r. exists (ro_EmittedAt r). by rewrite with_time_same. Qed.
Next Obligation. intros m Hm. rewrite mem_all_rows by done. by apply sorted_table. Qed.
Next Obligation. intros m after limit Hm Hl. rewrite mem_all_rows by done. by apply (select_after _ after limit ro_EmittedAt). Qed.
Next Obligation.
  intros m r h Hh. unfold chain_head in Hh. cbn in *. unfold mem_AppendRow. destruct (me_heads m !! ro_SessionID r); cbn in *; by rewrite bool_decide_eq_false_2 by done.
Qed.
Next Obligation.
  intros m r h Hm Hh Hin. unfold chain_head in *. rewrite mem_all_rows in Hin by done. cbn in Hh, Hin. apply elem_sorted_ids in Hin as [r' Hr']; [|done].
  cbn. unfold mem_AppendRow. destruct (me_heads m !! ro_SessionID r); cbn in *; subst; rewrite bool_decide_eq_true_2 by done; by rewrite Hr'.
Qed.
Next Obligation.
  intros m r h Hm Hh Hin. unfold chain_head in *. rewrite mem_all_rows in Hin by done. cbn in Hh, Hin. rewrite elem_sorted_ids, <- eq_None_not_Some in Hin by done.
  assert (AppendRow m r h = ({| me_rows := <[ro_EventID r := r]> (me_rows m);
      me_heads := <[ro_SessionID r := {| hs_headID := ro_EventID r; hs_headHash := ro_PayloadHash r |}]> (me_heads m);
      me_totalSize := (me_totalSize m + Z.of_nat (String.length (ro_Payload r)))%Z |}, None)) as ->.
  { cbn. unfold mem_AppendRow. destruct (me_heads m !! ro_SessionID r); cbn in *; subst; rewrite bool_decide_eq_true_2 by done; by rewrite Hin. }
  pose proof (table_insert _ r Hm) as Hm'. split_and!; [done|done| |].
  - rewrite !mem_all_rows, !merge_sort_Permutation by done. cbn. by apply table_rows_insert.
  - intros sid. apply heads_insert.
Qed.
Next Obligation.
  intros m del Hm. pose proof (table_delete _ del Hm) as Hm'. split_and!; [done| |done].
  rewrite !mem_all_rows by done. cbn. rewrite <- sort_filter by by apply table_nodup. apply sorted_perm; [by apply table_nodup|].
  by apply table_rows_delete.
Qed.

#[export] Program Instance SQLBackend_laws : BackendLaws SQLBackend := {
  stored := sql_row;
  backend_ok b := table_ok (sq_events b)
}.
Next Obligation. intros r. eexists. split; [done|]. unfold UnixMilli. by rewrite Z.div_mul. Qed.
Next Obligation. intros b Hm. rewrite sql_all_rows by done. by apply sorted_table. Qed.
Next Obligation. intros b after limit Hm Hl. rewrite sql_all_rows by done. by apply (select_after _ after limit (fun r => UnixMilli (ro_EmittedAt r))). Qed.
Next Obligation.
  intros b r h Hh. unfold chain_head in Hh. cbn in *. unfold sql_AppendRow. destruct (sq_heads b !! ro_SessionID r); cbn in *; by rewrite bool_decide_eq_false_2 by done.
Qed.
Next Obligation.
  intros b r h Hm Hh Hin. unfold chain_head in *. rewrite sql_all_rows in Hin by done. cbn in Hh, Hin. apply elem_sorted_ids in Hin; [|done].
  cbn. unfold sql_AppendRow. destruct (sq_heads b !! ro_SessionID r); cbn in *; subst; rewrite bool_decide_eq_true_2 by done; cbn; by rewrite bool_decide_eq_true_2.
Qed.
Next Obligation.
  intros b r h Hm Hh Hin. unfold chain_head in *. rewrite sql_all_rows in Hin by done. cbn in Hh, Hin. rewrite elem_sorted_ids in Hin by done.
  assert (AppendRow b r h = ({| sq_events := <[ro_EventID r := sql_row r]> (sq_events b);
      sq_heads := <[ro_SessionID r := {| hs_headID := ro_EventID r; hs_headHash := ro_PayloadHash r |}]> (sq_heads b) |}, None)) as ->.
  { cbn. unfold sql_AppendRow. destruct (sq_heads b !! ro_SessionID r); cbn in *; subst; rewrite bool_decide_eq_true_2 by done; cbn; by rewrite bool_decide_eq_false_2. }
  pose proof (table_insert _ (sql_row r) Hm) as Hm'. split_and!; [done|done| |].
  - rewrite !sql_all_rows, !merge_sort_Permutation by done. cbn. change (ro_EventID r) with (ro_EventID (sql_row r)).
    apply table_rows_insert. by apply eq_None_not_Some.
  - intros sid. apply heads_insert.
Qed.
Next Obligation.
  intros b del Hm. pose proof (table_delete _ del Hm) as Hm'. split_and!; [done| |done].
  rewrite !sql_all_rows by done. cbn. rewrite <- sort_filter by by apply table_nodup. apply sorted_perm; [by apply table_nodup|].
  by apply table_rows_delete.
Qed.
