(* ===== verification/AuditLogProps.v ===== *)
(** The verifier of the audit log decides the chain condition page by page; what is appended
    under contention verifies, and what verifies cannot be altered below its head without a
    collision, but an intact log can fail to verify. *)
From S2P Require Import Prelude GoString Json Decimal AuditLog AuditBackends.
From stdpp Require Import gmap.
From Stdlib Require Import Ascii.
Local Open Scope nat_scope.

Notation ids rows := (map ro_EventID rows).

(** * Pages *)

Lemma string_le_nil s : String.le s "" -> s = "".
Proof. by destruct s. Qed.

Lemma after_row pre x post : Sorted id_le (pre ++ x :: post) -> NoDup (ids (pre ++ x :: post)) -> ro_EventID x <> "" ->
  List.filter (id_after (ro_EventID x)) (pre ++ x :: post) = post.
Proof.
  intros Hs Hn Hx. apply Sorted_StronglySorted in Hs; [|apply _]. rewrite map_app in Hn. cbn in Hn.
  apply NoDup_app in Hn as (_ & _ & [Hxp _]%NoDup_cons).
  rewrite List.filter_app, filter_bool_none, app_nil_l; cbn.
  - unfold id_after at 1. rewrite bool_decide_eq_false_2 by done. cbn. rewrite bool_decide_eq_true_2 by apply id_le_refl.
    apply filter_bool_all. intros y Hy. unfold id_after. rewrite orb_true_iff, negb_true_iff, bool_decide_eq_false. right. intros Hle.
    apply Hxp. rewrite (id_le_antisym x y); [by apply list_elem_of_fmap_2| |done].
    apply StronglySorted_app_1_r in Hs. apply StronglySorted_inv in Hs as [_ Hf]. rewrite Forall_forall in Hf. by apply Hf.
  - intros y Hy. unfold id_after. rewrite bool_decide_eq_false_2 by done. cbn. rewrite bool_decide_eq_true_2; [done|].
    eapply (StronglySorted_app_1_elem_of id_le); [exact Hs|done|by left].
Qed.

Lemma after_later after x : id_after after x = true -> forall y, id_after (ro_EventID x) y = true -> ro_EventID x <> "" -> id_after after y = true.
Proof.
  unfold id_after. intros Hx y Hy Hn. rewrite orb_true_iff, negb_true_iff, bool_decide_eq_false, bool_decide_eq_true in Hx, Hy |- *.
  destruct Hx as [->|Hx]; [by left|]. destruct Hy as [|Hy]; [done|]. right. intros Hle.
  destruct (total String.le (ro_EventID x) (ro_EventID y)); [|done]. apply Hx. by transitivity (ro_EventID y).
Qed.

Lemma after_cursor rows after x pre post : Sorted id_le rows -> NoDup (ids rows) -> ro_EventID x <> "" ->
  List.filter (id_after after) rows = pre ++ x :: post -> List.filter (id_after (ro_EventID x)) rows = post.
Proof.
  intros Hs Hn Hx Hf.
  assert (Hin : id_after after x = true).
  { assert (x ∈ List.filter (id_after after) rows) as [_ ?]%elem_of_filter_bool by (rewrite Hf; set_solver). done. }
  rewrite <- (after_row pre x post); [|rewrite <- Hf; by apply sorted_filter|rewrite <- Hf; by apply nodup_ids_filter|done].
  rewrite <- Hf, filter_bool_filter. apply filter_bool_ext. intros y _. apply eq_bool_prop_intro. rewrite andb_True. split; [|tauto].
  intros H. split; [|done]. apply Is_true_eq_left, (after_later after x); [done|by apply Is_true_eq_true|done].
Qed.

(** The last row of a full page has an id. *)
Lemma page_cursor pre y x post : Sorted id_le (pre ++ y :: x :: post) -> NoDup (ids (pre ++ y :: x :: post)) -> ro_EventID x <> "".
Proof.
  intros Hs Hn Hx. apply Sorted_StronglySorted in Hs; [|apply _]. apply StronglySorted_app_1_r, StronglySorted_inv in Hs as [_ Hy].
  rewrite map_app in Hn. cbn in Hn. apply NoDup_app in Hn as (_ & _ & [Hyx _]%NoDup_cons). apply Forall_cons in Hy as [Hyx' _].
  unfold id_le in Hyx'. rewrite Hx in Hyx', Hyx. apply string_le_nil in Hyx'. apply Hyx. rewrite Hyx'. by left.
Qed.

Lemma full_page (l : list Row) size : 2 <= size -> length (take size l) = size -> exists pre y x, l = pre ++ y :: x :: drop size l /\ take size l = pre ++ [y; x].
Proof.
  intros Hs Hl. destruct (take size l) as [|x t _] eqn:E using rev_ind; [cbn in Hl; lia|].
  destruct t as [|y t _] using rev_ind; [cbn in Hl; lia|]. exists t, y, x. split; [|by rewrite <- app_assoc].
  rewrite <- (take_drop size l) at 1. rewrite E, <- !app_assoc. done.
Qed.

Section Fetch.
Context {B : Type} `{BackendLaws B} (b : B) (size : nat) (fromID toID : string).
Hypothesis (Hok : backend_ok b) (Hsize : 2 <= size).

Lemma fetch_pages fuel after acc : length (List.filter (id_after after) (all_rows b)) < fuel ->
  fetch fuel size b fromID toID after acc = Some (acc ++ List.filter (in_window fromID toID) (List.filter (id_after after) (all_rows b))).
Proof.
  destruct (rows_sorted b Hok) as [Hs Hn]. revert after acc. induction fuel as [|fuel IH]; intros after acc Hf; [lia|].
  cbn -[Nat.ltb]. rewrite select_page by (done || lia). set (rest := List.filter (id_after after) (all_rows b)) in *.
  destruct (Nat.ltb_spec (length (take size rest)) size) as [Hl|Hl].
  { rewrite take_ge; [done|]. rewrite length_take in Hl. lia. }
  destruct (full_page rest size) as (pre & y & x & Hrest & Htake); [done|rewrite length_take in *; lia|].
  assert (Hsr : Sorted id_le rest) by by apply sorted_filter. assert (Hnr : NoDup (ids rest)) by by apply nodup_ids_filter.
  rewrite Hrest in Hsr, Hnr. pose proof (page_cursor _ _ _ _ Hsr Hnr) as Hx.
  rewrite Htake. change [y; x] with ([y] ++ [x]). rewrite (app_assoc pre), last_snoc. cbn [from_option].
  assert (Hnext : List.filter (id_after (ro_EventID x)) (all_rows b) = drop size rest).
  { apply (after_cursor _ after x (pre ++ [y])); [done..|]. fold rest. by rewrite <- app_assoc. }
  assert (Hall : List.filter (in_window fromID toID) rest =
                 List.filter (in_window fromID toID) (pre ++ [y] ++ [x]) ++ List.filter (in_window fromID toID) (drop size rest)).
  { rewrite Hrest at 1. change (y :: x :: drop size rest) with ([y] ++ [x] ++ drop size rest).
    rewrite !List.filter_app. by rewrite <- !app_assoc. }
  rewrite Hall, <- app_assoc. destruct (negb (bool_decide (toID = "")) && _) eqn:Ht.
  - rewrite andb_true_iff, negb_true_iff, bool_decide_eq_false, bool_decide_eq_true in Ht. destruct Ht as [Hto Hle].
    rewrite (filter_bool_none _ (drop size rest)), app_nil_r; [done|]. rewrite <- Hnext. intros r [_ Hr]%elem_of_filter_bool.
    unfold in_window. apply andb_false_iff. right. rewrite bool_decide_eq_false_2 by done. cbn. apply bool_decide_eq_false. intros Hrt.
    unfold id_after in Hr. rewrite bool_decide_eq_false_2 in Hr by done. cbn in Hr. apply negb_true_iff, bool_decide_eq_false in Hr.
    apply Hr. by transitivity toID.
  - rewrite IH, Hnext; [by rewrite <- !app_assoc|]. rewrite Hnext, length_drop. rewrite length_take in Hl. lia.
Qed.

Lemma fetch_window : fetch (S (S (length (all_rows b)))) size b fromID toID "" [] = Some (List.filter (in_window fromID toID) (all_rows b)).
Proof.
  rewrite fetch_pages, (filter_bool_all (id_after "")); [done|done|]. rewrite filter_bool_all by done. lia.
Qed.

Lemma verify_pages_window sha :
  verify_pages sha size b fromID toID = Some (verify_rows sha ∅ 0 (List.filter (in_window fromID toID) (all_rows b))).
Proof.
  unfold verify_pages. rewrite fetch_window. cbn. destruct (rows_sorted b Hok) as [Hs Hn].
  rewrite sort_sorted; [done|by apply sorted_filter|by apply nodup_ids_filter].
Qed.
End Fetch.

Lemma VerifyChain_window {B} `{BackendLaws B} sha (b : B) fromID toID :
  backend_ok b -> VerifyChain sha b fromID toID = Some (verify_rows sha ∅ 0 (List.filter (in_window fromID toID) (all_rows b))).
Proof. intros Hok. apply verify_pages_window; [done|]. apply Nat.leb_le. by vm_compute. Qed.

(** * The chain condition *)

Definition in_session (sid : string) (r : Row) : bool := bool_decide (ro_SessionID r = sid).

(** The digest of the last row of a session among some rows. *)
Definition session_digest (rows : list Row) (sid : string) : string := from_option ro_PayloadHash ZeroHash (last (List.filter (in_session sid) rows)).

(** A row is linked to the last row of its session before it, or to none, and carries its
    own digest. *)
Definition row_ok (sha : string -> string) (before : list Row) (r : Row) : Prop :=
  (ro_PrevHash r = ZeroHash \/ ro_PrevHash r = session_digest before (ro_SessionID r)) /\ recomputeHash sha r = ro_PayloadHash r.

#[export] Instance row_ok_dec sha before r : Decision (row_ok sha before r).
Proof. unfold row_ok. apply _. Defined.

(** Every row is good after those before it. *)
Definition rows_ok (sha : string -> string) (rows : list Row) : Prop := forall i r, rows !! i = Some r -> row_ok sha (take i rows) r.

Lemma session_digest_snoc rows r sid :
  session_digest (rows ++ [r]) sid = if bool_decide (ro_SessionID r = sid) then ro_PayloadHash r else session_digest rows sid.
Proof.
  unfold session_digest. rewrite List.filter_app. cbn. unfold in_session at 2. case_bool_decide; [by rewrite last_snoc|by rewrite app_nil_r].
Qed.

Lemma verify_rows_step sha m n r rows before :
  (forall sid, default ZeroHash (m !! sid) = session_digest before sid) ->
  verify_rows sha m n (r :: rows) =
    if bool_decide (row_ok sha before r) then verify_rows sha (<[ro_SessionID r := ro_PayloadHash r]> m) (S n) rows
    else {| vr_Verified := false; vr_RowsChecked := S n; vr_BrokenAtID := ro_EventID r |}.
Proof.
  intros Hm. cbn. rewrite Hm. unfold row_ok.
  destruct (decide (ro_PrevHash r = ZeroHash)) as [Hz|Hz]; [rewrite (bool_decide_eq_true_2 (ro_PrevHash r = ZeroHash)) by done|
    rewrite (bool_decide_eq_false_2 (ro_PrevHash r = ZeroHash)) by done]; cbn; repeat case_bool_decide; cbn; tauto.
Qed.

Lemma digest_step (m : gmap string string) before r :
  (forall sid, default ZeroHash (m !! sid) = session_digest before sid) ->
  forall sid, default ZeroHash (<[ro_SessionID r := ro_PayloadHash r]> m !! sid) = session_digest (before ++ [r]) sid.
Proof.
  intros Hm sid. rewrite session_digest_snoc. case_bool_decide as He; [subst; by rewrite lookup_insert_eq|by rewrite lookup_insert_ne].
Qed.

Lemma verify_rows_from sha m before rows res :
  (forall sid, default ZeroHash (m !! sid) = session_digest before sid) -> verify_rows sha m (length before) rows = res ->
  (res = {| vr_Verified := true; vr_RowsChecked := length before + length rows; vr_BrokenAtID := "" |} /\
   forall i r, rows !! i = Some r -> row_ok sha (before ++ take i rows) r) \/
  (exists i r, rows !! i = Some r /\ ~ row_ok sha (before ++ take i rows) r /\
     (forall j s, j < i -> rows !! j = Some s -> row_ok sha (before ++ take j rows) s) /\
     res = {| vr_Verified := false; vr_RowsChecked := S (length before + i); vr_BrokenAtID := ro_EventID r |}).
Proof.
  revert m before. induction rows as [|r rows IH]; intros m before Hm Hres.
  { left. cbn in *. subst res. by rewrite Nat.add_0_r. }
  rewrite (verify_rows_step sha m _ r rows before Hm) in Hres. case_bool_decide as Hr.
  - pose proof (digest_step _ _ r Hm) as Hm'. replace (S (length before)) with (length (before ++ [r])) in Hres by (rewrite length_app; cbn; lia).
    destruct (IH _ _ Hm' Hres) as [[-> Hok]|(i & s & Hs & Hbad & Hbefore & ->)]; rewrite length_app; cbn.
    + left. split; [f_equal; lia|]. intros [|i] s Hi; cbn in *; [simplify_eq; by rewrite app_nil_r|]. specialize (Hok _ _ Hi).
      by rewrite <- app_assoc in Hok.
    + right. exists (S i), s. rewrite <- app_assoc in Hbad. split_and!; [done|done| |f_equal; lia].
      intros [|j] s' Hj Hs'; cbn in *; [simplify_eq; by rewrite app_nil_r|]. specialize (Hbefore j s' ltac:(lia) Hs').
      by rewrite <- app_assoc in Hbefore.
  - right. exists 0, r. cbn. rewrite app_nil_r. split_and!; [done|done|lia|]. subst res. f_equal. lia.
Qed.

Lemma verify_rows_all sha rows :
  (verify_rows sha ∅ 0 rows = {| vr_Verified := true; vr_RowsChecked := length rows; vr_BrokenAtID := "" |} /\ rows_ok sha rows) \/
  (exists i r, rows !! i = Some r /\ ~ row_ok sha (take i rows) r /\ (forall j s, j < i -> rows !! j = Some s -> row_ok sha (take j rows) s) /\
     verify_rows sha ∅ 0 rows = {| vr_Verified := false; vr_RowsChecked := S i; vr_BrokenAtID := ro_EventID r |}).
Proof. by apply (verify_rows_from sha ∅ []). Qed.

Lemma verify_rows_ok sha rows : rows_ok sha rows <-> vr_Verified (verify_rows sha ∅ 0 rows) = true.
Proof.
  destruct (verify_rows_all sha rows) as [[-> Hok]|(i & r & Hr & Hbad & _ & ->)]; [done|]. cbn.
  split; [|done]. intros H. by destruct (Hbad (H i r Hr)).
Qed.

(** C33: The verifier pages through the log and decides the chain condition of the rows of its
    window, in the order of their ids: it verifies exactly when each row is linked to the
    row of its session before it in the window (or to none) and carries its own digest, and
    otherwise names the first row that is not, having counted up to it. *)
Theorem verify_decides {B} `{BackendLaws B} sha (b : B) fromID toID :
  backend_ok b ->
  let rows := List.filter (in_window fromID toID) (all_rows b) in
  (rows_ok sha rows /\
   VerifyChain sha b fromID toID = Some {| vr_Verified := true; vr_RowsChecked := length rows; vr_BrokenAtID := "" |}) \/
  (exists i r, rows !! i = Some r /\ ~ row_ok sha (take i rows) r /\ (forall j s, j < i -> rows !! j = Some s -> row_ok sha (take j rows) s) /\
   VerifyChain sha b fromID toID = Some {| vr_Verified := false; vr_RowsChecked := S i; vr_BrokenAtID := ro_EventID r |}).
Proof.
  intros Hok rows. rewrite VerifyChain_window by done. fold rows.
  destruct (verify_rows_all sha rows) as [[-> Hall]|(i & r & Hr & Hbad & Hb & ->)]; [by left|].
  right. by exists i, r.
Qed.

(** * Sessions are chained apart *)

Lemma rows_ok_snoc sha rows r : rows_ok sha (rows ++ [r]) <-> rows_ok sha rows /\ row_ok sha rows r.
Proof.
  split.
  - intros H. split.
    + intros i s Hs. specialize (H i s). rewrite lookup_app_l in H by by eapply lookup_lt_Some. specialize (H Hs).
      apply lookup_lt_Some in Hs. rewrite take_app_le in H by lia. done.
    + specialize (H (length rows) r). rewrite list_lookup_middle in H by done. specialize (H eq_refl). by rewrite take_app_length in H.
  - intros [Hrows Hr] i s Hs. destruct (decide (i < length rows)) as [Hi|Hi].
    + rewrite lookup_app_l in Hs by done. rewrite take_app_le by lia. by apply Hrows.
    + apply lookup_snoc_Some in Hs as [[? _]|[-> <-]]; [done|]. by rewrite take_app_length.
Qed.

Lemma filter_snoc {A} (f : A -> bool) l x : List.filter f (l ++ [x]) = List.filter f l ++ (if f x then [x] else []).
Proof. rewrite List.filter_app. cbn. by destruct (f x). Qed.

Lemma session_digest_own rows sid : session_digest (List.filter (in_session sid) rows) sid = session_digest rows sid.
Proof.
  unfold session_digest. rewrite filter_bool_filter. do 2 f_equal. apply filter_bool_ext. intros x _. by destruct (in_session sid x).
Qed.

Lemma row_ok_session sha rows r : row_ok sha (List.filter (in_session (ro_SessionID r)) rows) r <-> row_ok sha rows r.
Proof. unfold row_ok. by rewrite session_digest_own. Qed.

Lemma rows_ok_sessions sha rows : rows_ok sha rows <-> forall sid, rows_ok sha (List.filter (in_session sid) rows).
Proof.
  induction rows as [|r rows IH] using rev_ind; [split; [done|intros H; apply (H "")]|]. rewrite rows_ok_snoc, IH. split.
  - intros [Hrows Hr] sid. rewrite filter_snoc. destruct (in_session sid r) eqn:He; [|by rewrite app_nil_r].
    apply rows_ok_snoc. apply bool_decide_eq_true in He as <-. by rewrite row_ok_session.
  - intros Hall. split.
    + intros sid. specialize (Hall sid). rewrite filter_snoc in Hall. destruct (in_session sid r); [by apply rows_ok_snoc in Hall as [? _]|by rewrite app_nil_r in Hall].
    + specialize (Hall (ro_SessionID r)). rewrite filter_snoc in Hall.
      replace (in_session (ro_SessionID r) r) with true in Hall by (symmetry; by apply bool_decide_eq_true). apply rows_ok_snoc in Hall as [_ Hr]. by apply row_ok_session.
Qed.

(** A row whose id comes after those of its session goes to the end of its session. *)
Lemma session_rows_append rows rows' r : Sorted id_le rows -> NoDup (ids rows) -> Sorted id_le rows' -> NoDup (ids rows') ->
  rows' ≡ₚ r :: rows -> (forall x, x ∈ rows -> ro_SessionID x = ro_SessionID r -> id_le x r) -> forall sid,
  List.filter (in_session sid) rows' = List.filter (in_session sid) rows ++ (if in_session sid r then [r] else []).
Proof.
  intros Hs Hn Hs' Hn' Hp Hle sid. apply sorted_ids_unique; [by apply sorted_filter| | |by apply nodup_ids_filter].
  - destruct (in_session sid r) eqn:Hr; [|rewrite app_nil_r; by apply sorted_filter]. apply StronglySorted_Sorted, StronglySorted_app.
    split_and!; [|apply Sorted_StronglySorted; [apply _|by apply sorted_filter]|repeat constructor].
    intros x y [Hx Hxs]%elem_of_filter_bool ->%list_elem_of_singleton. apply bool_decide_eq_true in Hr, Hxs. apply Hle; [done|congruence].
  - rewrite (filter_bool_perm _ _ _ Hp). cbn. destruct (in_session sid r); [by rewrite Permutation_app_comm|by rewrite app_nil_r].
Qed.

(** * Appending *)

Lemma recompute_with_time sha r t : UnixMilli t = UnixMilli (ro_EmittedAt r) -> recomputeHash sha (with_time r t) = recomputeHash sha r.
Proof. intros H. unfold recomputeHash, canonicalSerialize. cbn. by rewrite H. Qed.

(** What [AppendComputed] keeps. *)
Record intact {B} `{BackendLaws B} (sha : string -> string) (b : B) : Prop := {
  in_ok : backend_ok b;
  in_rows : rows_ok sha (all_rows b);
  in_heads sid : chain_head b sid = session_digest (all_rows b) sid
}.

(** The id of a row to append comes after those of its session. *)
Definition behind {B} `{Backend B} (row : Row) (b : B) : Prop :=
  ro_EventID row ∉ ids (all_rows b) /\ forall r, r ∈ all_rows b -> ro_SessionID r = ro_SessionID row -> id_le r row.

(** The log before attempt [i], when every attempt before it failed. *)
Fixpoint moved {B} (others : nat -> B -> B) (first i : nat) (b : B) : B :=
  match i with
  | 0 => b
  | S i => moved others (S first) i (others first b)
  end.

Section Append.
Context {B : Type} `{BackendLaws B} (sha : string -> string) (row : Row).

Lemma append_intact b : intact sha b -> behind row b ->
  exists b', AppendRow b (link sha row (chain_head b (ro_SessionID row))) (chain_head b (ro_SessionID row)) = (b', None) /\
    intact sha b' /\ stored (link sha row (chain_head b (ro_SessionID row))) ∈ all_rows b'.
Proof.
  intros Hi [Hnew Hlast]. set (h := chain_head b (ro_SessionID row)).
  pose proof (append_row b (link sha row h) h (in_ok sha b Hi) eq_refl Hnew) as Happ.
  destruct (AppendRow b (link sha row h) h) as [b' e]. destruct Happ as (-> & Hok & Hp & Hh). exists b'. split; [done|].
  destruct (stored_row (link sha row h)) as (t & Hst & Ht). set (r := stored (link sha row h)) in *.
  assert (HrP : ro_PayloadHash r = recomputeHash sha r).
  { rewrite Hst at 2. rewrite recompute_with_time by done. by rewrite Hst. }
  destruct (rows_sorted b (in_ok sha b Hi)) as [Hs Hn]. destruct (rows_sorted b' Hok) as [Hs' Hn'].
  assert (Hid : ro_EventID r = ro_EventID row) by by rewrite Hst. assert (Hsid : ro_SessionID r = ro_SessionID row) by by rewrite Hst.
  pose proof (session_rows_append _ _ r Hs Hn Hs' Hn' Hp) as Hrows.
  assert (Hle : forall x, x ∈ all_rows b -> ro_SessionID x = ro_SessionID r -> id_le x r).
  { intros x Hx Hxs. unfold id_le. rewrite Hid. apply Hlast; congruence. }
  specialize (Hrows Hle). split; [|rewrite Hp; by left]. constructor; [done| |].
  - apply rows_ok_sessions. intros sid. rewrite Hrows. pose proof (in_rows sha b Hi) as Hrs. rewrite rows_ok_sessions in Hrs. specialize (Hrs sid).
    destruct (in_session sid r) eqn:Hin; [|by rewrite app_nil_r]. apply bool_decide_eq_true in Hin as <-. apply rows_ok_snoc. split; [done|].
    apply row_ok_session. split; [right|done]. rewrite Hsid, <- (in_heads sha b Hi). by rewrite Hst.
  - intros sid. rewrite Hh. cbn [link with_hashes ro_SessionID ro_PayloadHash]. unfold session_digest. rewrite Hrows. unfold in_session at 2. rewrite Hsid.
    rewrite (bool_decide_same (sid = _) (ro_SessionID row = sid)) by naive_solver. case_bool_decide as He.
    + rewrite last_snoc. cbn. by rewrite Hst.
    + rewrite app_nil_r. apply (in_heads sha b Hi).
Qed.

Lemma attempts_intact others left_ first b :
  (forall i b, intact sha b -> behind row b -> intact sha (others i b) /\ behind row (others i b)) -> intact sha b -> behind row b ->
  let '(b', e) := append_attempts sha left_ first others b row in
  intact sha b' /\
  match e with
  | None => exists prev, stored (link sha row prev) ∈ all_rows b'
  | Some e => e = ErrChainHeadMismatch /\ b' = moved others first left_ b /\
      forall i, i < left_ -> chain_head (moved others first (S i) b) (ro_SessionID row) <> chain_head (moved others first i b) (ro_SessionID row)
  end.
Proof.
  intros Hrely. revert first b. induction left_ as [|left_ IH]; intros first b Hi Hb; cbn; [split_and!; [done..|lia]|].
  destruct (Hrely first b Hi Hb) as [Hi' Hb']. set (h := chain_head b (ro_SessionID row)).
  destruct (decide (chain_head (others first b) (ro_SessionID row) = h)) as [He|He].
  - destruct (append_intact (others first b) Hi' Hb') as (b' & Happ & Hi'' & Hin). rewrite He in Happ, Hin. rewrite Happ. eauto.
  - rewrite append_mismatch by done. specialize (IH (S first) (others first b) Hi' Hb').
    destruct (append_attempts sha left_ (S first) others (others first b) row) as [b' [e|]]; [|done].
    destruct IH as (Hi'' & -> & -> & Hmoved). split_and!; [done..|]. intros [|i] Hlt; [exact He|]. apply (Hmoved i). lia.
Qed.
End Append.


(** * What the digests fix *)

Definition pipe : ascii := chr 124.

(** The kind of a row has no separator. *)
Definition kind_plain (r : Row) : Prop := pipe ∉ list_of (ro_Kind r).

(** What the digest of a row covers. *)
Definition same_content (r r' : Row) : Prop :=
  ro_PrevHash r = ro_PrevHash r' /\ ro_Kind r = ro_Kind r' /\ UnixMilli (ro_EmittedAt r) = UnixMilli (ro_EmittedAt r') /\ ro_Payload r = ro_Payload r'.

Lemma hex_char_cases n : (n < 16)%N -> hex_char n <> pipe /\ forall m, (m < 16)%N -> hex_char n = hex_char m -> n = m.
Proof.
  intros Hn. assert (Hv : forall k, (k < 16)%N -> N_of_ascii (hex_char k) = if (k <? 10)%N then (48 + k)%N else (87 + k)%N).
  { intros k Hk. unfold hex_char. destruct (N.ltb_spec k 10); unfold chr; rewrite N_ascii_embedding; lia. }
  split.
  - intros He%(f_equal N_of_ascii). rewrite Hv in He by done. change (N_of_ascii pipe) with 124%N in He. destruct (N.ltb_spec n 10); lia.
  - intros m Hm He%(f_equal N_of_ascii). rewrite !Hv in He by done. destruct (N.ltb_spec n 10), (N.ltb_spec m 10); lia.
Qed.

Lemma byte_halves c : (N_of_ascii c / 16 < 16 /\ N_of_ascii c mod 16 < 16)%N.
Proof. pose proof (N_ascii_bounded c). split; [apply N.Div0.div_lt_upper_bound; lia|apply N.mod_lt; lia]. Qed.

Lemma hex_plain s : pipe ∉ list_of (hex s).
Proof.
  unfold hex. rewrite list_of_of_list. intros (c & _ & Hp)%list_elem_of_In%in_flat_map.
  destruct (byte_halves c) as [H1 H2]. destruct Hp as [Hp|[Hp|[]]].
  - by destruct (hex_char_cases _ H1) as [? _].
  - by destruct (hex_char_cases _ H2) as [? _].
Qed.

Lemma hex_inj s s' : hex s = hex s' -> s = s'.
Proof.
  unfold hex. intros He%(f_equal list_of). rewrite !list_of_of_list in He. apply list_of_inj. revert He. generalize (list_of s), (list_of s').
  induction l as [|c l IH]; intros [|c' l'] He; [done..|]. cbn in He. injection He as H1 H2 He. f_equal; [|by apply IH].
  destruct (byte_halves c) as [Hc1 Hc2], (byte_halves c') as [Hc1' Hc2'].
  apply (proj2 (hex_char_cases _ Hc1)) in H1; [|done]. apply (proj2 (hex_char_cases _ Hc2)) in H2; [|done].
  rewrite <- (ascii_N_embedding c), <- (ascii_N_embedding c'). f_equal.
  rewrite (N.div_mod' (N_of_ascii c) 16), (N.div_mod' (N_of_ascii c') 16). congruence.
Qed.

Lemma fmt_d_plain z : pipe ∉ list_of (fmt_d z).
Proof. intros Hp. pose proof (fmt_d_chars z) as H. rewrite Forall_forall in H. by destruct (H _ Hp). Qed.

Lemma pipe_cut s s' r r' : pipe ∉ list_of s -> pipe ∉ list_of s' -> s +:+ "|" +:+ r = s' +:+ "|" +:+ r' -> s = s' /\ r = r'.
Proof.
  intros Hs Hs' He%(f_equal list_of). rewrite !list_of_app in He. apply (split_at_sep pipe) in He as [H1 H2]; [|done..].
  split; by apply list_of_inj.
Qed.

Lemma canonical_inj r r' : kind_plain r -> kind_plain r' -> canonicalSerialize r = canonicalSerialize r' -> same_content r r'.
Proof.
  unfold canonicalSerialize. intros Hk Hk' He. apply pipe_cut in He as [H1 He]; [|apply hex_plain..].
  apply pipe_cut in He as [H2 He]; [|done..]. apply pipe_cut in He as [H3 H4]; [|apply fmt_d_plain..].
  split_and!; [by apply hex_inj|done|by apply (inj pretty)|done].
Qed.

(** The newest rows first, down to the first that is linked to none. *)
Fixpoint since_checkpoint (rows : list Row) : list Row :=
  match rows with
  | [] => []
  | r :: rows => if bool_decide (ro_PrevHash r = ZeroHash) then [r] else r :: since_checkpoint rows
  end.

Definition collision (sha : string -> string) : Prop := exists x y, x <> y /\ sha x = sha y.

Lemma digest_newest rows sid : Forall (fun r => ro_SessionID r = sid) rows ->
  session_digest (rev rows) sid = from_option ro_PayloadHash ZeroHash (head rows).
Proof.
  intros Hf. unfold session_digest. rewrite filter_bool_all.
  - destruct rows as [|r rows]; [done|]. cbn. by rewrite last_snoc.
  - intros r Hr. rewrite list_elem_of_In, <- in_rev, <- list_elem_of_In in Hr. rewrite Forall_forall in Hf. by apply bool_decide_eq_true, Hf.
Qed.

Lemma chains_agree sha sid l l' :
  Forall (fun r => ro_SessionID r = sid) l -> Forall (fun r => ro_SessionID r = sid) l' -> Forall kind_plain l -> Forall kind_plain l' ->
  rows_ok sha (rev l) -> rows_ok sha (rev l') -> l <> [] -> l' <> [] -> ro_PayloadHash <$> head l = ro_PayloadHash <$> head l' ->
  Forall2 same_content (since_checkpoint l) (since_checkpoint l') \/ collision sha.
Proof.
  revert l'. induction l as [|r l IH]; intros [|r' l'] Hs Hs' Hk Hk' Hl Hl' Hne Hne' He; try done.
  apply Forall_cons in Hs as [Hr Hs], Hs' as [Hr' Hs'], Hk as [Hkr Hk], Hk' as [Hkr' Hk']. cbn in Hl, Hl', He.
  apply rows_ok_snoc in Hl as [Hl [Hprev Hown]], Hl' as [Hl' [Hprev' Hown']].
  rewrite Hr, digest_newest in Hprev by done. rewrite Hr', digest_newest in Hprev' by done. injection He as He.
  destruct (decide (canonicalSerialize r = canonicalSerialize r')) as [Hc|Hc].
  - apply canonical_inj in Hc; [|done..]. pose proof Hc as (Hp & _). cbn [since_checkpoint]. rewrite <- Hp in *.
    case_bool_decide as Hz; [left; constructor; [done|constructor]|]. destruct Hprev as [|Hprev], Hprev' as [|Hprev']; [done..|].
    destruct l as [|x l], l' as [|x' l']; [done..|]. cbn in Hprev, Hprev'.
    destruct (IH (x' :: l')) as [Ha|Ha]; try done; [cbn; congruence|left; by constructor|by right].
  - right. exists (canonicalSerialize r), (canonicalSerialize r'). split; [done|]. unfold recomputeHash in *. congruence.
Qed.

(** The rows of a session, newest first. *)
Definition newest_first {B} `{Backend B} (b : B) (sid : string) : list Row := rev (List.filter (in_session sid) (all_rows b)).

(** Tampering needs a collision.  When two logs verify and the newest rows of a session
    carry the same digest in both, the session agrees on kind, millisecond, payload and link
    of every row back to the last checkpoint, unless two different texts have the same
    digest. *)
Theorem tampering_needs_collision {B} `{BackendLaws B} sha (b b' : B) sid :
  backend_ok b -> backend_ok b' -> chain_verified sha b = true -> chain_verified sha b' = true ->
  Forall kind_plain (newest_first b sid) -> Forall kind_plain (newest_first b' sid) -> newest_first b sid <> [] ->
  ro_PayloadHash <$> head (newest_first b sid) = ro_PayloadHash <$> head (newest_first b' sid) ->
  Forall2 same_content (since_checkpoint (newest_first b sid)) (since_checkpoint (newest_first b' sid)) \/ collision sha.
Proof.
  intros Hb Hb' Hv Hv' Hk Hk' Hne Hhead. unfold chain_verified in Hv, Hv'. rewrite VerifyChain_window, filter_bool_all in Hv, Hv' by done.
  apply verify_rows_ok in Hv, Hv'. rewrite rows_ok_sessions in Hv, Hv'.
  assert (Hin : forall c : B, Forall (fun r => ro_SessionID r = sid) (newest_first c sid)).
  { intros c. apply Forall_rev, Forall_forall. intros r [_ Hr%bool_decide_eq_true]%elem_of_filter_bool. done. }
  apply (chains_agree sha sid); try done; [by unfold newest_first; rewrite rev_involutive..|].
  intros He. rewrite He in Hhead. by destruct (newest_first b sid).
Qed.

(** * Intact logs that do not verify *)

(** A linked row that comes first of its session in the window breaks the chain. *)
Lemma headless_breaks {B} `{BackendLaws B} sha (b : B) fromID toID r :
  backend_ok b -> r ∈ all_rows b -> in_window fromID toID r = true -> ro_PrevHash r <> ZeroHash ->
  (forall x, x ∈ all_rows b -> in_window fromID toID x = true -> ro_SessionID x = ro_SessionID r -> id_le r x) ->
  vr_Verified <$> VerifyChain sha b fromID toID = Some false.
Proof.
  intros Hb Hr Hw Hz Hfirst. rewrite VerifyChain_window by done. cbn. f_equal. apply not_true_iff_false. rewrite <- verify_rows_ok. intros Hok.
  destruct (rows_sorted b Hb) as [Hs Hn]. set (rows := List.filter (in_window fromID toID) (all_rows b)) in *.
  assert (Hin : r ∈ rows) by by apply elem_of_filter_bool. apply list_elem_of_lookup_1 in Hin as [i Hi].
  destruct (Hok i r Hi) as [[|Hd] _]; [done|]. apply Hz. rewrite Hd. unfold session_digest. rewrite filter_bool_none; [done|].
  intros x Hx. apply bool_decide_eq_false. intros Hsx.
  assert (Hsplit : rows = take i rows ++ r :: drop (S i) rows) by by rewrite take_drop_middle.
  assert (Hsr : Sorted id_le rows) by by apply sorted_filter. assert (Hnr : NoDup (ids rows)) by by apply nodup_ids_filter.
  rewrite Hsplit in Hsr, Hnr. rewrite map_app in Hnr. apply NoDup_app in Hnr as (_ & Hdisj & _). apply Sorted_StronglySorted in Hsr; [|apply _].
  assert (Hxr : x ∈ rows) by (rewrite Hsplit; set_solver). apply elem_of_filter_bool in Hxr as [Hxb Hxw].
  apply (Hdisj (ro_EventID x)); [by apply list_elem_of_fmap_2|].
  rewrite (id_le_antisym x r); [by left|by eapply (StronglySorted_app_1_elem_of id_le); [exact Hsr|done|left]|by apply Hfirst].
Qed.

(** Ids out of order break an intact log.  A row appended to a session whose ids all come
    after its own is accepted, and from then on the whole log does not verify: the verifier
    goes by the order of the ids, the links by the order of the appends. *)
Theorem out_of_order_ids_break {B} `{BackendLaws B} sha (b : B) row :
  intact sha b -> ro_EventID row ∉ ids (all_rows b) -> chain_head b (ro_SessionID row) <> ZeroHash ->
  (forall x, x ∈ all_rows b -> ro_SessionID x = ro_SessionID row -> id_le row x) ->
  snd (AppendComputed sha (fun _ b => b) b row) = None /\
  vr_Verified <$> VerifyChain sha (fst (AppendComputed sha (fun _ b => b) b row)) "" "" = Some false.
Proof.
  intros Hi Hnew Hz Hfirst. unfold AppendComputed, appendComputedMaxAttempts. cbn [append_attempts]. set (h := chain_head b (ro_SessionID row)) in *.
  pose proof (append_row b (link sha row h) h (in_ok sha b Hi) eq_refl Hnew) as Happ.
  destruct (AppendRow b (link sha row h) h) as [b' e]. destruct Happ as (-> & Hok & Hp & _). split; [done|]. cbn.
  destruct (stored_row (link sha row h)) as (t & Hst & _).
  apply (headless_breaks sha b' "" "" (stored (link sha row h))); [done|rewrite Hp; by left|done|by rewrite Hst|].
  intros x Hx _ Hxs. rewrite Hp in Hx. apply elem_of_cons in Hx as [->|Hx]; [apply id_le_refl|].
  unfold id_le. rewrite Hst. cbn. apply Hfirst; [done|]. by rewrite Hst in Hxs.
Qed.

(** A sweep that purges the first rows of a session and leaves a linked one reports the
    chain of an intact log as broken. *)
Theorem sweep_reports_broken {B} `{BackendLaws B} sha (b : B) archive now window r :
  intact sha b -> r ∈ all_rows b -> ro_PrevHash r <> ZeroHash ->
  let old := SelectByTimeRange b None (Some (now - window)%Z) "" 0 false in
  old <> [] -> ro_EventID r ∉ ids old -> (forall x, x ∈ all_rows b -> ro_SessionID x = ro_SessionID r -> id_le r x \/ ro_EventID x ∈ ids old) ->
  snd (RetentionSweep sha archive b RetentionDeleteAfterWindow now window)
  = Ok {| rr_Purged := length old; rr_Archived := 0; rr_ArchivePath := ""; rr_ChainVerified := false |}.
Proof.
  intros Hi Hr Hz old Hne Hkept Hold. unfold RetentionSweep. fold old. destruct (delete_rows b (ids old) (in_ok sha b Hi)) as (Hok & Hrows & _).
  destruct old as [|o old'] eqn:E; [done|]. cbn [snd]. rewrite <- E in *. do 2 f_equal. unfold chain_verified.
  assert (Hv : vr_Verified <$> VerifyChain sha (DeleteRows b (ids old)) "" "" = Some false).
  { apply (headless_breaks sha _ "" "" r); [done| |done|done|].
    - rewrite Hrows. apply elem_of_filter_bool. split; [done|]. by rewrite bool_decide_eq_false_2.
    - intros x Hx _ Hxs. rewrite Hrows in Hx. apply elem_of_filter_bool in Hx as [Hx Hd%negb_true_iff%bool_decide_eq_false].
      by destruct (Hold x Hx Hxs). }
  destruct (VerifyChain sha (DeleteRows b (ids old)) "" "") as [[]|]; [|done]. cbn in *. congruence.
Qed.

(** * Small logs *)

(** A digest of thirty-two bytes: the last ones of the text, backwards. *)
Definition toy_sha (s : string) : string := of_list (take 32 (rev (list_of s) ++ repeat (chr 48) 32)).

Definition plain_row (id sid kind payload : string) (ms : Z) : Row :=
  {| ro_EventID := id; ro_SessionID := sid; ro_EmitterID := "core"; ro_Kind := kind; ro_EmittedAt := ms * 1000000; ro_Payload := payload;
     ro_PayloadHash := ""; ro_PrevHash := ""; ro_RedactionSummary := ""; ro_SchemaVersion := 1 |}.

Definition confirm_row : Row := plain_row "tool-confirm-1" "" "tool_confirm" "{}" 1000.
Definition search_row : Row := plain_row "search-2" "" "search" "[]" 2000.
Definition usage_row : Row := plain_row "usage-3" "" "usage" "1" 3000.

Definition appended (b : MemoryBackend) (r : Row) : MemoryBackend := fst (AppendComputed toy_sha (fun _ b => b) b r).
Definition one_row : MemoryBackend := appended NewMemoryBackend confirm_row.
Definition two_rows : MemoryBackend := appended one_row usage_row.

Lemma no_rows : all_rows NewMemoryBackend = [].
Proof. by vm_compute. Qed.

Lemma intact_new sha : intact sha NewMemoryBackend.
Proof.
  constructor; [apply map_Forall_empty|by rewrite no_rows|by rewrite no_rows].
Qed.

Lemma intact_appended b r : intact toy_sha b -> behind r b -> intact toy_sha (appended b r).
Proof.
  intros Hi Hb. unfold appended. pose proof (attempts_intact toy_sha r (fun _ b => b) 64 0 b ltac:(done) Hi Hb) as H.
  unfold AppendComputed, appendComputedMaxAttempts. destruct (append_attempts toy_sha 64 0 _ b r) as [b' e]. by destruct H.
Qed.

(** Whether [behind] holds, read off the rows. *)
Definition behindb (row : Row) (rows : list Row) : bool :=
  bool_decide (ro_EventID row ∉ ids rows) && bool_decide (Forall (fun r => ro_SessionID r = ro_SessionID row -> id_le r row) rows).

Lemma behindb_behind (b : MemoryBackend) row : behindb row (all_rows b) = true -> behind row b.
Proof. unfold behindb. intros [H1%bool_decide_eq_true H2%bool_decide_eq_true]%andb_true_iff. split; [done|]. by rewrite Forall_forall in H2. Qed.

Lemma one_row_intact : intact toy_sha one_row.
Proof. apply intact_appended; [apply intact_new|apply behindb_behind; by vm_compute]. Qed.

Lemma two_rows_intact : intact toy_sha two_rows.
Proof. apply intact_appended; [apply one_row_intact|]. apply behindb_behind. by vm_compute. Qed.

Lemma verify_decides_witness :
  backend_ok two_rows /\
  let rows := List.filter (in_window "u" "") (all_rows two_rows) in
  (rows_ok toy_sha rows /\
   VerifyChain toy_sha two_rows "u" "" = Some {| vr_Verified := true; vr_RowsChecked := length rows; vr_BrokenAtID := "" |}) \/
  (exists i r, rows !! i = Some r /\ ~ row_ok toy_sha (take i rows) r /\
     (forall j s, j < i -> rows !! j = Some s -> row_ok toy_sha (take j rows) s) /\
   VerifyChain toy_sha two_rows "u" "" = Some {| vr_Verified := false; vr_RowsChecked := S i; vr_BrokenAtID := ro_EventID r |}).
Proof. split; [apply two_rows_intact|]. apply (verify_decides toy_sha two_rows "u" ""). apply two_rows_intact. Defined.


(** Boolean readings of what the examples need. *)
Lemma forallb_Forall {A} (f : A -> bool) (P : A -> Prop) l : (forall x, f x = true -> P x) -> forallb f l = true -> Forall P l.
Proof. intros Hf Hl. apply Forall_forall. intros x Hx. apply Hf. rewrite forallb_forall in Hl. apply Hl. by apply list_elem_of_In. Qed.

Definition plainb (r : Row) : bool := negb (existsb (Ascii.eqb pipe) (list_of (ro_Kind r))).

Lemma plainb_plain r : plainb r = true -> kind_plain r.
Proof.
  unfold plainb, kind_plain. intros H%negb_true_iff Hp. rewrite <- not_true_iff_false, existsb_exists in H. apply H. exists pipe.
  split; [by apply list_elem_of_In|apply Ascii.eqb_refl].
Qed.

Lemma tampering_needs_collision_witness :
  since_checkpoint (newest_first two_rows "") <> [] /\
  (Forall2 same_content (since_checkpoint (newest_first two_rows "")) (since_checkpoint (newest_first two_rows "")) \/ collision toy_sha).
Proof.
  assert (Hk : Forall kind_plain (newest_first two_rows "")) by (apply (forallb_Forall plainb); [apply plainb_plain|by vm_compute]).
  assert (Hv : chain_verified toy_sha two_rows = true) by by vm_compute.
  split; [by vm_compute|].
  apply (tampering_needs_collision toy_sha two_rows two_rows "" (in_ok _ _ two_rows_intact) (in_ok _ _ two_rows_intact) Hv Hv Hk Hk);
    [by vm_compute|reflexivity].
Defined.

Lemma out_of_order_ids_break_witness :
  snd (AppendComputed toy_sha (fun _ b => b) two_rows search_row) = None /\
  vr_Verified <$> VerifyChain toy_sha (fst (AppendComputed toy_sha (fun _ b => b) two_rows search_row)) "" "" = Some false.
Proof.
  assert (Hn : ro_EventID search_row ∉ ids (all_rows two_rows)) by (apply (proj1 (bool_decide_eq_true (ro_EventID search_row ∉ ids (all_rows two_rows)))); by vm_compute).
  assert (Hh : chain_head two_rows "" <> ZeroHash) by by vm_compute.
  assert (Hf : Forall (id_le search_row) (all_rows two_rows)) by (apply (forallb_Forall (fun x => bool_decide (id_le search_row x)));
    [intros x; apply bool_decide_eq_true|by vm_compute]).
  rewrite Forall_forall in Hf. apply (out_of_order_ids_break toy_sha two_rows search_row two_rows_intact Hn Hh).
  intros x Hx _. by apply Hf.
Defined.

(** A sweep of a day's window that purges the first of two rows. *)
Example sweep_of_two_rows :
  snd (RetentionSweep toy_sha (fun _ => Ok ("audit-archive/events.jsonl", 1)) two_rows RetentionArchiveAfterWindow 86402000000000 86400000000000)
  = Ok {| rr_Purged := 1; rr_Archived := 1; rr_ArchivePath := "audit-archive/events.jsonl"; rr_ChainVerified := false |}.
Proof. by vm_compute. Qed.

(** The rows of two interleaved sessions, each linked within its own: the log verifies, the
    fleet's check of the batch does not pass. *)
Definition other_row : Row := plain_row "usage-2" "s2" "usage" "2" 2500.
Definition interleaved : MemoryBackend := appended (appended one_row other_row) usage_row.

Example batch_false_alarm :
  VerifyChain toy_sha interleaved "" "" = Some {| vr_Verified := true; vr_RowsChecked := 3; vr_BrokenAtID := "" |} /\
  VerifyBatch ZeroHash (all_rows interleaved) = (false, "usage-3").
Proof. split; by vm_compute. Qed.
