(* ===== verification/Io.v ===== *)
(** Programs that ask their environment: a program is a value or a request whose answer it
    continues with.  A run is the list of requests with their answers; what a program
    guarantees is stated of all its runs.  Model calls are written this way. *)
From S2P Require Import Prelude.
Local Open Scope nat_scope.

Section Io.
Context {E : Type -> Type}.

Inductive io (R : Type) : Type :=
| Ret (r : R)
| Vis {A : Type} (e : E A) (k : A -> io R).
Arguments Ret {R} _.
Arguments Vis {R A} _ _.

Definition ask {A} (e : E A) : io A := Vis e Ret.

Fixpoint bind {A B} (p : io A) (f : A -> io B) : io B :=
  match p with
  | Ret a => f a
  | Vis e k => Vis e (fun x => bind (k x) f)
  end.

(** A request and its answer. *)
Inductive obs : Type := | Obs {A : Type} (e : E A) (a : A).

(** The program makes exactly these requests, given these answers, and returns [r]. *)
Fixpoint runs {R} (p : io R) (t : list obs) (r : R) : Prop :=
  match p with
  | Ret r' => t = [] /\ r = r'
  | Vis e k => exists a t', t = Obs e a :: t' /\ runs (k a) t' r
  end.

(** Running against an environment with a state. *)
Fixpoint play {S R} (env : forall A, E A -> S -> A * S) (p : io R) (s : S) : list obs * R * S :=
  match p with
  | Ret r => ([], r, s)
  | Vis e k => let '(a, s) := env _ e s in let '(t, r, s) := play env (k a) s in (Obs e a :: t, r, s)
  end.

Lemma play_runs {S R} (env : forall A, E A -> S -> A * S) (p : io R) s :
  let '(t, r, _) := play env p s in runs p t r.
Proof.
  revert s. induction p as [r|A e k IH]; intros s; cbn; [done|]. destruct (env A e s) as [a s']. specialize (IH a s').
  destruct (play env (k a) s') as [[t r] s'']. by exists a, t.
Qed.

Lemma runs_ret {R} (r r' : R) t : runs (Ret r) t r' <-> t = [] /\ r' = r.
Proof. done. Qed.

Lemma runs_ask {A} (e : E A) t r : runs (ask e) t r <-> t = [Obs e r].
Proof. cbn. split; [intros (a & t' & -> & -> & ->); done|intros ->; by exists r, []]. Qed.

Lemma runs_bind {A B} (p : io A) (f : A -> io B) t r :
  runs (bind p f) t r <-> exists a t1 t2, t = t1 ++ t2 /\ runs p t1 a /\ runs (f a) t2 r.
Proof.
  revert t. induction p as [x|C e k IH]; intros t; cbn.
  - split; [intros H; by exists x, [], t|intros (a & t1 & t2 & -> & [-> ->] & H); done].
  - split.
    + intros (c & t' & -> & H). apply IH in H as (a & t1 & t2 & -> & H1 & H2).
      exists a, (Obs e c :: t1), t2. split; [done|]. split; [by exists c, t1|done].
    + intros (a & t1 & t2 & -> & (c & t' & -> & H1) & H2). exists c, (t' ++ t2). split; [done|]. apply IH. by exists a, t', t2.
Qed.

(** Every run keeps the postcondition. *)
Definition ensures {R} (p : io R) (Q : list obs -> R -> Prop) : Prop := forall t r, runs p t r -> Q t r.

Lemma ensures_ret {R} (r : R) (Q : list obs -> R -> Prop) : Q [] r -> ensures (Ret r) Q.
Proof. by intros H t r' [-> ->]. Qed.

Lemma ensures_vis {A R} (e : E A) (k : A -> io R) (Q : list obs -> R -> Prop) :
  (forall a, ensures (k a) (fun t r => Q (Obs e a :: t) r)) -> ensures (Vis e k) Q.
Proof. intros H t r (a & t' & -> & Hr). by apply H. Qed.

Lemma ensures_bind {A B} (p : io A) (f : A -> io B) (P : list obs -> A -> Prop) (Q : list obs -> B -> Prop) :
  ensures p P -> (forall a t1, P t1 a -> ensures (f a) (fun t2 r => Q (t1 ++ t2) r)) -> ensures (bind p f) Q.
Proof. intros Hp Hf t r (a & t1 & t2 & -> & H1 & H2)%runs_bind. by apply (Hf a t1 (Hp _ _ H1)). Qed.

Lemma ensures_weaken {R} (p : io R) (P Q : list obs -> R -> Prop) : ensures p P -> (forall t r, P t r -> Q t r) -> ensures p Q.
Proof. intros H HPQ t r Hr. apply HPQ, H, Hr. Qed.

(** Counting the requests of a kind. *)
Definition count (f : obs -> bool) (t : list obs) : nat := countb f t.

Lemma count_app f t1 t2 : count f (t1 ++ t2) = count f t1 + count f t2.
Proof. apply countb_app. Qed.

Definition at_most {R} (f : obs -> bool) (n : nat) (p : io R) : Prop := ensures p (fun t _ => count f t <= n).

Lemma count_nil f : count f [] = 0.
Proof. done. Qed.

Lemma count_cons f o t : count f (o :: t) = (if f o then 1 else 0) + count f t.
Proof. apply countb_cons. Qed.

Lemma at_most_ret {R} f n (r : R) : at_most f n (Ret r).
Proof. apply ensures_ret. rewrite count_nil. lia. Qed.

Lemma at_most_le {R} f n m (p : io R) : at_most f n p -> n <= m -> at_most f m p.
Proof. intros H Hn. eapply ensures_weaken; [exact H|]. intros t r Ht. cbn beta in Ht |- *. lia. Qed.

Lemma at_most_bind {A B} f n m (p : io A) (g : A -> io B) : at_most f n p -> (forall a, at_most f m (g a)) -> at_most f (n + m) (bind p g).
Proof.
  intros Hp Hg. eapply ensures_bind; [exact Hp|]. intros a t1 H1. eapply ensures_weaken; [apply Hg|]. intros t2 r H2. cbn beta in H1, H2 |- *. rewrite count_app. lia.
Qed.

Lemma at_most_bind0 {A B} f m (p : io A) (g : A -> io B) : at_most f 0 p -> (forall a, at_most f m (g a)) -> at_most f m (bind p g).
Proof. intros Hp Hg. exact (at_most_bind f 0 m p g Hp Hg). Qed.

Lemma at_most_vis {A R} f n (e : E A) (k : A -> io R) : (forall a, f (Obs e a) = false) -> (forall a, at_most f n (k a)) -> at_most f n (Vis e k).
Proof.
  intros He Hk. apply ensures_vis. intros a. eapply ensures_weaken; [apply Hk|]. intros t r H. cbn beta in H |- *. by rewrite count_cons, He.
Qed.

Lemma at_most_vis_one {A R} f n (e : E A) (k : A -> io R) : (forall a, at_most f n (k a)) -> at_most f (S n) (Vis e k).
Proof.
  intros Hk. apply ensures_vis. intros a. eapply ensures_weaken; [apply Hk|]. intros t r H. cbn beta in H |- *. rewrite count_cons. destruct (f _); lia.
Qed.

(** What the result satisfies, whatever the answers. *)
Definition returns {R} (P : R -> Prop) (p : io R) : Prop := ensures p (fun _ r => P r).

Lemma returns_bind {A B} (Q : A -> Prop) (P : B -> Prop) (p : io A) (g : A -> io B) :
  returns Q p -> (forall a, Q a -> returns P (g a)) -> returns P (bind p g).
Proof. intros Hp Hg. eapply ensures_bind; [exact Hp|]. intros a t1 Ha. exact (Hg a Ha). Qed.

Lemma returns_ret {R} (P : R -> Prop) r : P r -> returns P (Ret r).
Proof. intros. by apply ensures_ret. Qed.

Lemma returns_any {R} (p : io R) : returns (fun _ => True) p.
Proof. done. Qed.

Lemma at_most_bind_ret {A B} f n m (P : A -> Prop) (p : io A) (g : A -> io B) :
  at_most f n p -> returns P p -> (forall a, P a -> at_most f m (g a)) -> at_most f (n + m) (bind p g).
Proof.
  intros Hp Hr Hg t r (a & t1 & t2 & -> & H1 & H2)%runs_bind. rewrite count_app.
  specialize (Hp _ _ H1). specialize (Hg a (Hr _ _ H1) _ _ H2). cbn beta in Hp, Hg. lia.
Qed.

(** Every request made, with its answer, is of this kind. *)
Definition all_obs {R} (P : obs -> Prop) (p : io R) : Prop := ensures p (fun t _ => Forall P t).

Lemma all_obs_ret {R} P (r : R) : all_obs P (Ret r).
Proof. by apply ensures_ret. Qed.

Lemma all_obs_ask {A} P (e : E A) : (forall a, P (Obs e a)) -> all_obs P (ask e).
Proof. intros H t r ->%runs_ask. repeat constructor. apply H. Qed.

Lemma all_obs_bind {A B} P (p : io A) (g : A -> io B) : all_obs P p -> (forall a, all_obs P (g a)) -> all_obs P (bind p g).
Proof. intros Hp Hg. eapply ensures_bind; [exact Hp|]. intros a t1 H1 t2 r Hr. apply Forall_app. split; [done|by eapply Hg]. Qed.

Lemma all_obs_at_most {R} f (p : io R) : all_obs (fun o => f o = false) p -> at_most f 0 p.
Proof.
  intros H t r Hr. specialize (H t r Hr). cbn beta in H |- *. clear Hr. induction H as [|o t Ho _ IH]; [by rewrite count_nil|].
  by rewrite count_cons, Ho.
Qed.

Lemma at_most_ask {A} f (e : E A) : at_most f 1 (ask e).
Proof. apply at_most_vis_one. intros. apply at_most_ret. Qed.

(** Both. *)
Lemma ensures_and {R} (p : io R) (P Q : list obs -> R -> Prop) : ensures p P -> ensures p Q -> ensures p (fun t r => P t r /\ Q t r).
Proof. intros HP HQ t r Hr. split; [by apply HP|by apply HQ]. Qed.
End Io.

Arguments io : clear implicits.
Arguments obs : clear implicits.
Arguments Ret {E R} _.
Arguments Vis {E R A} _ _.

Notation "'do!' x ':=' p 'in' k" := (bind p (fun x => k))
  (at level 10, x pattern, p at level 100, k at level 200, format "'[v' 'do!'  x  ':='  p  'in' '/' k ']'") : kenaz_scope.
Notation "'run!' p ; k" := (bind p (fun _ : unit => k)) (at level 10, p at level 100, k at level 200, format "'[v' 'run!'  p ; '/' k ']'") : kenaz_scope.
