(* ===== verification/Catalog.v ===== *)
(** The capability catalog of models and the gates it feeds (core/llm/capabilities: loader.go,
    gate.go, knob_policy.go; core/llm/registry/knob_params.go; core/llm/capabilities.go).
    A provider's YAML file is taken as decoded.  A record's capability flags are a map from
    their YAML keys, which are also the capabilities' names; a key that is absent is a flag
    the record does not set. *)
From S2P Require Import Prelude GoString.
From Stdlib Require Import Ascii.
Local Open Scope Z_scope.

(** * Dynamic values *)

(** A float64 is an integer times a power of two. *)
Record f64 := { f_m : Z; f_e : Z }.

(** [int] and [int64] are both [AInt]. *)
Inductive any := ABool (b : bool) | AInt (z : Z) | AFloat (f : f64) | AFloat32 (f : f64) | AStr (s : string) | ASeq (l : list any) | AOther (text : string).

(** Conversion of a float to a 64-bit integer: towards zero; outside the range, amd64's answer. *)
Definition f64_to_int (f : f64) : Z :=
  let z := if 0 <=? f_e f then f_m f * 2 ^ f_e f else Z.quot (f_m f) (2 ^ (- f_e f)) in
  if (- 2 ^ 63 <=? z) && (z <? 2 ^ 63) then z else - 2 ^ 63.

(** Conversion of a 64-bit integer: 53 bits, to the nearest, ties to even. *)
Definition int_to_f64 (z : Z) : f64 :=
  let n := Z.log2 (Z.abs z) in
  if n <? 53 then {| f_m := z; f_e := 0 |}
  else
    let s := n - 52 in let a := Z.abs z in let q := a / 2 ^ s in let r := a mod 2 ^ s in let half := 2 ^ (s - 1) in
    let q := if (half <? r) || ((r =? half) && Z.odd q) then q + 1 else q in
    {| f_m := Z.sgn z * q; f_e := s |}.

(** [intFromAny] *)
Definition intFromAny (v : option any) : option Z :=
  match v with Some (AInt z) => Some z | Some (AFloat f) => Some (f64_to_int f) | _ => None end.
Definition anySliceToStrings (l : list any) : list string := omap (fun v => match v with AStr s => Some s | _ => None end) l.
Definition bool_of (v : option any) : option bool := match v with Some (ABool b) => Some b | _ => None end.
Definition str_of (v : option any) : option string := match v with Some (AStr s) => Some s | _ => None end.

(** * The records of a provider *)

Definition AllCapabilities : list string :=
  ["streaming"; "tool_calling"; "vision"; "documents"; "json_mode"; "reasoning"; "cancellation"; "usage_reporting";
   "structured_output"; "grammar"; "regex_grammar"; "image_output"].

(** The flags of a rich record beyond the capabilities. *)
Definition knob_flags : list string :=
  ["parallel_tool_calls"; "seed"; "logprobs"; "top_k"; "top_p"; "frequency_penalty"; "presence_penalty"; "batch"; "response_format"].
Definition flag_names : list string := AllCapabilities ++ knob_flags.

Inductive ReasoningStyle := ReasoningNone | ReasoningEffortString | ReasoningTokenBudget | ReasoningBoth.

Definition parseReasoningStyle (s : string) : ReasoningStyle :=
  if bool_decide (s = "effort_string") then ReasoningEffortString
  else if bool_decide (s = "token_budget") then ReasoningTokenBudget
  else if bool_decide (s = "both") then ReasoningBoth else ReasoningNone.

Record AttachmentDescriptor := {
  ad_ImageInput : bool; ad_DocumentInput : bool; ad_MaxImageBytes : Z; ad_MaxDocumentBytes : Z; ad_MaxImageCountPerMessage : Z;
  ad_MaxImagePixels : Z; ad_MaxDocumentPages : Z; ad_ImageInputMimeTypes : list string; ad_DocumentInputMimeTypes : list string
}.

(** A model row: [me_Flags] has the flags the row sets; [me_Attach] its attachment fields. *)
Record modelEntry := {
  me_Match : string; me_Flags : gmap string bool; me_ContextWindow : Z; me_MaxOutputTokens : Z; me_ReasoningStyle : string;
  me_Attach : AttachmentDescriptor
}.
Record tierEntry := { te_Match : string; te_Tier : string }.
Record providerSpec := { ps_Defaults : gmap string any; ps_Models : list modelEntry; ps_Tiers : list tierEntry }.

(** By provider. *)
Definition Catalog : Type := gmap string providerSpec.

Record ProviderCapabilities := {
  pc_Provider : string; pc_Model : string; pc_Flags : gmap string bool; pc_Reasoning_ : ReasoningStyle;
  pc_ContextWindow : Z; pc_MaxOutputTokens : Z; pc_Probed : list string
}.

Definition pc_flag (c : ProviderCapabilities) (k : string) : bool := default false (pc_Flags c !! k).

(** Notes are left out. *)
Record CapabilityDescriptor := { cd_Provider : string; cd_Model : string; cd_Supported : gmap string bool }.
Definition Has (d : CapabilityDescriptor) (cap : string) : bool := default false (cd_Supported d !! cap).

(** * Lookups *)

Definition star : ascii := ascii_of_N 42.
Definition is_star (c : ascii) : bool := bool_decide (c = star).
Definition trim_star_suffix (s : string) : string := of_list (rev (tl (rev (list_of s)))).
Definition trim_star_prefix (s : string) : string := of_list (tl (list_of s)).

Definition matchGlob (pattern s : string) : bool :=
  if bool_decide (pattern = "") then false
  else if bool_decide (pattern = "*") then true
  else if HasSuffix pattern "*" then HasPrefix s (trim_star_suffix pattern)
  else if HasPrefix pattern "*" then HasSuffix s (trim_star_prefix pattern)
  else bool_decide (pattern = s).

Definition resolveProvider (provider : string) : string := if bool_decide (provider = "azure-openai") then "openai" else provider.

Definition row_of (spec : providerSpec) (model : string) : option modelEntry := List.find (fun m => matchGlob (me_Match m) model) (ps_Models spec).

Definition only (names : list string) (m : gmap string bool) : gmap string bool := filter (fun kv => kv.1 ∈ names) m.

Definition applyDefaults (sup : gmap string bool) (defaults : gmap string any) : gmap string bool :=
  only AllCapabilities (omap (fun v => bool_of (Some v)) defaults) ∪ sup.

Definition Describe (c : Catalog) (provider model : string) : CapabilityDescriptor :=
  let sup :=
    match c !! resolveProvider provider with
    | None => <["usage_reporting" := true]> (<["streaming" := true]> ∅)
    | Some spec =>
        let sup := applyDefaults ∅ (ps_Defaults spec) in
        match row_of spec model with Some m => only AllCapabilities (me_Flags m) ∪ sup | None => sup end
    end in
  {| cd_Provider := provider; cd_Model := model; cd_Supported := sup |}.

Definition applyRichDefaults (c : ProviderCapabilities) (defaults : gmap string any) : ProviderCapabilities :=
  {| pc_Provider := pc_Provider c; pc_Model := pc_Model c;
     pc_Flags := list_to_map (map (fun k => (k, default false (bool_of (defaults !! k)))) flag_names);
     pc_Reasoning_ := match str_of (defaults !! "reasoning_style") with Some s => parseReasoningStyle s | None => pc_Reasoning_ c end;
     pc_ContextWindow := pc_ContextWindow c; pc_MaxOutputTokens := pc_MaxOutputTokens c; pc_Probed := pc_Probed c |}.

Definition applyRichEntry (c : ProviderCapabilities) (m : modelEntry) : ProviderCapabilities :=
  {| pc_Provider := pc_Provider c; pc_Model := pc_Model c;
     pc_Flags := only flag_names (me_Flags m) ∪ pc_Flags c;
     pc_Reasoning_ := if bool_decide (me_ReasoningStyle m = "") then pc_Reasoning_ c else parseReasoningStyle (me_ReasoningStyle m);
     pc_ContextWindow := if me_ContextWindow m =? 0 then pc_ContextWindow c else me_ContextWindow m;
     pc_MaxOutputTokens := if me_MaxOutputTokens m =? 0 then pc_MaxOutputTokens c else me_MaxOutputTokens m;
     pc_Probed := pc_Probed c |}.

Definition DescribeRich (c : Catalog) (provider model : string) : ProviderCapabilities :=
  let caps flags := {| pc_Provider := provider; pc_Model := model; pc_Flags := flags; pc_Reasoning_ := ReasoningNone;
                       pc_ContextWindow := 0; pc_MaxOutputTokens := 0; pc_Probed := [] |} in
  match c !! resolveProvider provider with
  | None => caps (<["usage_reporting" := true]> (<["streaming" := true]> ∅))
  | Some spec =>
      let caps := applyRichDefaults (caps ∅) (ps_Defaults spec) in
      match row_of spec model with Some m => applyRichEntry caps m | None => caps end
  end.

(** These two look the provider up without its alias. *)
Definition ContextWindow (c : Catalog) (provider model : string) : Z :=
  match c !! provider with
  | Some spec => match row_of spec model with Some m => me_ContextWindow m | None => 0 end
  | None => 0
  end.
Definition MaxOutputTokens (c : Catalog) (provider model : string) : Z :=
  match c !! provider with
  | Some spec => match row_of spec model with Some m => me_MaxOutputTokens m | None => 0 end
  | None => 0
  end.

Definition Tier (c : Catalog) (provider model : string) : option string :=
  match c !! resolveProvider provider with
  | None => None
  | Some spec =>
      match List.find (fun t => matchGlob (te_Match t) model) (ps_Tiers spec) with
      | Some t => Some (te_Tier t)
      | None => match str_of (ps_Defaults spec !! "tier") with Some t => if bool_decide (t = "") then None else Some t | None => None end
      end
  end.

(** The providers in the order of their names. *)
Definition TierAny (c : Catalog) (model : string) : option string :=
  let names := sort_strings (map fst (map_to_list c)) in
  let rows name := match c !! name with Some spec => ps_Tiers spec | None => [] end in
  te_Tier <$> List.find (fun t => matchGlob (te_Match t) model) (concat (map rows names)).

Definition KnownModels (c : Catalog) (provider : string) : list (string * string) :=
  match c !! resolveProvider provider with
  | None => []
  | Some spec => map (fun t => (te_Match t, te_Tier t)) (List.filter (fun t => negb (Contains (te_Match t) "*")) (ps_Tiers spec))
  end.

(** ** Attachments *)

Definition pick {A} (o : option A) (d : A) : A := match o with Some x => x | None => d end.
Definition strings_of (v : option any) : option (list string) := match v with Some (ASeq l) => Some (anySliceToStrings l) | _ => None end.

Definition applyAttachmentDefaults (d : AttachmentDescriptor) (defaults : gmap string any) : AttachmentDescriptor :=
  {| ad_ImageInput := pick (bool_of (defaults !! "image_input")) (ad_ImageInput d);
     ad_DocumentInput := pick (bool_of (defaults !! "document_input")) (ad_DocumentInput d);
     ad_MaxImageBytes := pick (intFromAny (defaults !! "max_image_bytes")) (ad_MaxImageBytes d);
     ad_MaxDocumentBytes := pick (intFromAny (defaults !! "max_document_bytes")) (ad_MaxDocumentBytes d);
     ad_MaxImageCountPerMessage := pick (intFromAny (defaults !! "max_image_count_per_message")) (ad_MaxImageCountPerMessage d);
     ad_MaxImagePixels := pick (intFromAny (defaults !! "max_image_pixels")) (ad_MaxImagePixels d);
     ad_MaxDocumentPages := pick (intFromAny (defaults !! "max_document_pages")) (ad_MaxDocumentPages d);
     ad_ImageInputMimeTypes := pick (strings_of (defaults !! "image_input_mime_types")) (ad_ImageInputMimeTypes d);
     ad_DocumentInputMimeTypes := pick (strings_of (defaults !! "document_input_mime_types")) (ad_DocumentInputMimeTypes d) |}.

Definition positive_or (z d : Z) : Z := if 0 <? z then z else d.
Definition nonempty_or {A} (l d : list A) : list A := match l with [] => d | _ => l end.

Definition applyAttachmentEntry (d m : AttachmentDescriptor) : AttachmentDescriptor :=
  {| ad_ImageInput := ad_ImageInput m; ad_DocumentInput := ad_DocumentInput m;
     ad_MaxImageBytes := positive_or (ad_MaxImageBytes m) (ad_MaxImageBytes d);
     ad_MaxDocumentBytes := positive_or (ad_MaxDocumentBytes m) (ad_MaxDocumentBytes d);
     ad_MaxImageCountPerMessage := positive_or (ad_MaxImageCountPerMessage m) (ad_MaxImageCountPerMessage d);
     ad_MaxImagePixels := positive_or (ad_MaxImagePixels m) (ad_MaxImagePixels d);
     ad_MaxDocumentPages := positive_or (ad_MaxDocumentPages m) (ad_MaxDocumentPages d);
     ad_ImageInputMimeTypes := nonempty_or (ad_ImageInputMimeTypes m) (ad_ImageInputMimeTypes d);
     ad_DocumentInputMimeTypes := nonempty_or (ad_DocumentInputMimeTypes m) (ad_DocumentInputMimeTypes d) |}.

(** [multimodal] is [MultimodalInEnabled], the environment's switch. *)
Definition MultimodalInEnabled (env : string) : bool := negb (bool_decide (ToLower (TrimSpace env) = "off")).

Definition AttachmentLimits (multimodal : bool) (c : Catalog) (provider model : string) : AttachmentDescriptor :=
  let out := {| ad_ImageInput := false; ad_DocumentInput := false; ad_MaxImageBytes := 0; ad_MaxDocumentBytes := 0;
                ad_MaxImageCountPerMessage := 0; ad_MaxImagePixels := 0; ad_MaxDocumentPages := 0;
                ad_ImageInputMimeTypes := ["image/png"; "image/jpeg"; "image/gif"; "image/webp"];
                ad_DocumentInputMimeTypes := ["application/pdf"] |} in
  match c !! resolveProvider provider with
  | None => out
  | Some spec =>
      let out := applyAttachmentDefaults out (ps_Defaults spec) in
      let out := match row_of spec model with Some m => applyAttachmentEntry out (me_Attach m) | None => out end in
      if multimodal then out
      else {| ad_ImageInput := false; ad_DocumentInput := false; ad_MaxImageBytes := ad_MaxImageBytes out;
              ad_MaxDocumentBytes := ad_MaxDocumentBytes out; ad_MaxImageCountPerMessage := ad_MaxImageCountPerMessage out;
              ad_MaxImagePixels := ad_MaxImagePixels out; ad_MaxDocumentPages := ad_MaxDocumentPages out;
              ad_ImageInputMimeTypes := ad_ImageInputMimeTypes out; ad_DocumentInputMimeTypes := ad_DocumentInputMimeTypes out |}
  end.
