(* ===== verification/ModelErr.v ===== *)
(** The errors of model requests (core/llm/errors.go), how a provider's status becomes one
    (classifystatus.go), what the user is told about one (failure.go) and which of them a
    fallback entry fires on (fallback/chain.go, evaluator.go).  An error keeps what the
    code reads of it; texts for people are left out, but for the one-line summary. *)
From S2P Require Import Prelude GoString Catalog.
From Stdlib Require Import Ascii.
Local Open Scope Z_scope.

(** * Errors *)

(** [ERetryBudgetExhausted] has the number of attempts and the error of the last;
    [ETransient] a Retry-After in milliseconds, zero for none. *)
Inductive llm_err :=
| EAuth (status : Z) (msg : string)
| EPaymentRequired (status : Z) (msg : string)
| EInvalidRequest (status : Z) (msg : string)
| ETransient (status : Z) (msg : string) (cause : option llm_err) (retryAfter : Z)
| ERetryBudgetExhausted (attempts : nat) (last_ : option llm_err)
| EProviderAuthFailed (provider profile model reason : string) (cause : option llm_err)
| EProviderPaymentRequired (provider profile model reason : string) (cause : llm_err)
| ECapabilityUnsupported (provider model : string) (capabilities : list string)
| EUnsupportedFeature (feature : string)
| EUnsupportedModality (modality model : string)
| EAttachmentAudioUnsupported (mime : string)
| EAttachmentMimeUnsupported (provider mime : string)
| EAttachmentTooLarge (provider mime : string) (given cap : Z)
| EAttachmentDimensionExceeded (provider : string) (given cap : Z)
| EAttachmentCountExceeded (provider : string) (given cap : Z)
| EResponseValidationFailed (mode : string)
| ECredentialResolution (profile : string) (cause : option llm_err)
| EPolicyDenied (reason : string)
| ECancelled (reason : string)
| EFallbackExhausted (chain : string) (attempts : nat) (last_ : llm_err)
| EContextCanceled
| EDeadlineExceeded
| ENet (timeout : bool) (msg : string)
| EWrap (prefix : string) (err : llm_err)
| EMsg (msg : string).

(** [errors.As]: the first error of the chain that [f] takes. *)
Fixpoint as_ {T} (f : llm_err -> option T) (e : llm_err) : option T :=
  match f e with
  | Some x => Some x
  | None =>
      match e with
      | ETransient _ _ (Some c) _ | ERetryBudgetExhausted _ (Some c) | EProviderAuthFailed _ _ _ _ (Some c)
      | EProviderPaymentRequired _ _ _ _ c | ECredentialResolution _ (Some c) | EFallbackExhausted _ _ c | EWrap _ c => as_ f c
      | _ => None
      end
  end.

Definition as_transient : llm_err -> option (Z * string * Z) :=
  as_ (fun e => match e with ETransient s m _ r => Some (s, m, r) | _ => None end).
Definition as_auth : llm_err -> option (Z * string) := as_ (fun e => match e with EAuth s m => Some (s, m) | _ => None end).
Definition as_payment : llm_err -> option (Z * string) := as_ (fun e => match e with EPaymentRequired s m => Some (s, m) | _ => None end).
Definition as_invalid : llm_err -> option (Z * string) := as_ (fun e => match e with EInvalidRequest s m => Some (s, m) | _ => None end).
Definition as_provider_auth : llm_err -> option string :=
  as_ (fun e => match e with EProviderAuthFailed p _ _ _ _ => Some p | _ => None end).
Definition as_provider_payment : llm_err -> option string :=
  as_ (fun e => match e with EProviderPaymentRequired p _ _ _ _ => Some p | _ => None end).

Definition is_some {A} (o : option A) : bool := match o with Some _ => true | None => false end.

Definition IsTransient (e : llm_err) : bool := is_some (as_transient e).

(** * From a status *)

(** Package net/http's text of a status. *)
Definition StatusText (code : Z) : string :=
  match code with
  | 100 => "Continue" | 101 => "Switching Protocols" | 102 => "Processing" | 103 => "Early Hints"
  | 200 => "OK" | 201 => "Created" | 202 => "Accepted" | 203 => "Non-Authoritative Information" | 204 => "No Content"
  | 205 => "Reset Content" | 206 => "Partial Content" | 207 => "Multi-Status" | 208 => "Already Reported" | 226 => "IM Used"
  | 300 => "Multiple Choices" | 301 => "Moved Permanently" | 302 => "Found" | 303 => "See Other" | 304 => "Not Modified"
  | 305 => "Use Proxy" | 307 => "Temporary Redirect" | 308 => "Permanent Redirect"
  | 400 => "Bad Request" | 401 => "Unauthorized" | 402 => "Payment Required" | 403 => "Forbidden" | 404 => "Not Found"
  | 405 => "Method Not Allowed" | 406 => "Not Acceptable" | 407 => "Proxy Authentication Required" | 408 => "Request Timeout"
  | 409 => "Conflict" | 410 => "Gone" | 411 => "Length Required" | 412 => "Precondition Failed"
  | 413 => "Request Entity Too Large" | 414 => "Request URI Too Long" | 415 => "Unsupported Media Type"
  | 416 => "Requested Range Not Satisfiable" | 417 => "Expectation Failed" | 418 => "I'm a teapot" | 421 => "Misdirected Request"
  | 422 => "Unprocessable Entity" | 423 => "Locked" | 424 => "Failed Dependency" | 425 => "Too Early" | 426 => "Upgrade Required"
  | 428 => "Precondition Required" | 429 => "Too Many Requests" | 431 => "Request Header Fields Too Large"
  | 451 => "Unavailable For Legal Reasons"
  | 500 => "Internal Server Error" | 501 => "Not Implemented" | 502 => "Bad Gateway" | 503 => "Service Unavailable"
  | 504 => "Gateway Timeout" | 505 => "HTTP Version Not Supported" | 506 => "Variant Also Negotiates"
  | 507 => "Insufficient Storage" | 508 => "Loop Detected" | 510 => "Not Extended" | 511 => "Network Authentication Required"
  | _ => ""
  end.

Definition ClassifyStatusMessage (status : Z) (msg : string) : llm_err :=
  let msg := if bool_decide (msg = "") then StatusText status else msg in
  if (status =? 401) || (status =? 403) then EAuth status msg
  else if status =? 402 then EPaymentRequired status msg
  else if (status =? 408) || (status =? 425) || (status =? 429) then ETransient status msg None 0
  else if (500 <=? status) && (status <? 600) then ETransient status msg None 0
  else EInvalidRequest status msg.

(** * What the user is told *)

Inductive FailureClass := FailureUserActionable | FailureTransient | FailureUnknown.

Inductive FailureCode :=
| FailureCodePaymentRequired | FailureCodeAuthInvalid | FailureCodeForbidden | FailureCodeModelNotFound | FailureCodeInvalidRequest
| FailureCodeUnsupported | FailureCodeRateLimited | FailureCodeProviderDown | FailureCodeNetwork | FailureCodeTimeout | FailureCodeUnknown.

(** Without the provider's own message. *)
Record RunFailure := { rf_Class : FailureClass; rf_Code : FailureCode; rf_Status : Z; rf_Provider : string; rf_Summary : string }.

Definition looksLikeModelNotFound (msg : string) : bool :=
  let m := ToLower msg in
  Contains m "model" &&
  (Contains m "not found" || Contains m "does not exist" || Contains m "not a valid model" || Contains m "no endpoints found").

Definition ProviderDisplayName (kind : string) : string :=
  let k := ToLower kind in
  if bool_decide (k = "openrouter") then "OpenRouter" else if bool_decide (k = "openai") then "OpenAI"
  else if bool_decide (k = "anthropic") then "Anthropic" else if bool_decide (k = "azure-openai") then "Azure OpenAI"
  else if bool_decide (k = "bedrock") then "AWS Bedrock" else if bool_decide (k = "gemini") then "Google Gemini"
  else if bool_decide (k = "ollama") then "Ollama" else if bool_decide (k = "custom-openai") then "your custom endpoint"
  else if bool_decide (k = "") then "the provider" else kind.

Definition failureSummary (code : FailureCode) (provider : string) : string :=
  let who := ProviderDisplayName provider in
  match code with
  | FailureCodePaymentRequired => "Out of credits with " +:+ who
  | FailureCodeAuthInvalid => who +:+ " rejected the API key"
  | FailureCodeForbidden => who +:+ " refused access to this model"
  | FailureCodeModelNotFound => who +:+ " does not recognise this model"
  | FailureCodeInvalidRequest => who +:+ " rejected the request"
  | FailureCodeUnsupported => "This model cannot accept this request"
  | FailureCodeRateLimited => who +:+ " is rate-limiting requests"
  | FailureCodeProviderDown => who +:+ " is unavailable right now"
  | FailureCodeNetwork => "Could not reach " +:+ who
  | FailureCodeTimeout => who +:+ " timed out"
  | FailureCodeUnknown => "The model request failed"
  end.

Definition transient_code (status : Z) : FailureCode :=
  if status =? 429 then FailureCodeRateLimited else if status =? 408 then FailureCodeTimeout
  else if 500 <=? status then FailureCodeProviderDown else if status =? 0 then FailureCodeNetwork else FailureCodeProviderDown.

Definition is_credential (e : llm_err) : option unit := match e with ECredentialResolution _ _ => Some tt | _ => None end.
Definition is_unsupported (e : llm_err) : option unit :=
  match e with ECapabilityUnsupported _ _ _ | EUnsupportedFeature _ | EUnsupportedModality _ _ => Some tt | _ => None end.
Definition is_deadline (e : llm_err) : option unit := match e with EDeadlineExceeded => Some tt | _ => None end.
Definition net_error (e : llm_err) : option bool := match e with ENet t _ => Some t | EDeadlineExceeded => Some true | _ => None end.

(** Class, code and status of an error. *)
Definition failure_kind (e : llm_err) : FailureClass * FailureCode * Z :=
  match as_payment e with
  | Some (s, _) => (FailureUserActionable, FailureCodePaymentRequired, s)
  | None =>
  match as_auth e with
  | Some (s, _) => (FailureUserActionable, if s =? 403 then FailureCodeForbidden else FailureCodeAuthInvalid, s)
  | None =>
  if is_some (as_ is_credential e) then (FailureUserActionable, FailureCodeAuthInvalid, 0) else
  match as_invalid e with
  | Some (s, m) => (FailureUserActionable, if (s =? 404) || looksLikeModelNotFound m then FailureCodeModelNotFound else FailureCodeInvalidRequest, s)
  | None =>
  if is_some (as_ is_unsupported e) then (FailureUserActionable, FailureCodeUnsupported, 0) else
  match as_transient e with
  | Some (s, _, _) => (FailureTransient, transient_code s, s)
  | None =>
  if is_some (as_ is_deadline e) then (FailureTransient, FailureCodeTimeout, 0) else
  match as_ net_error e with
  | Some t => (FailureTransient, if t then FailureCodeTimeout else FailureCodeNetwork, 0)
  | None => (FailureUnknown, FailureCodeUnknown, 0)
  end end end end end.

Definition ClassifyFailure (e : llm_err) (providerKind : string) : RunFailure :=
  let named (o : option string) (d : string) := match o with Some p => if bool_decide (p = "") then d else p | None => d end in
  let provider := named (as_provider_auth e) (named (as_provider_payment e) providerKind) in
  let '(cls, code, status) := failure_kind e in
  {| rf_Class := cls; rf_Code := code; rf_Status := status; rf_Provider := provider; rf_Summary := failureSummary code provider |}.

(** * Fallback triggers *)

Inductive TriggerCondition :=
| TriggerError5xx | TriggerError429 | TriggerErrorAuthFailed | TriggerErrorContextOverflow | TriggerErrorSafetyBlock | TriggerErrorAny
| TriggerOther (name : string).

Definition IsKnown (t : TriggerCondition) : bool := match t with TriggerOther _ => false | _ => true end.

Definition matchOne (e : llm_err) (t : TriggerCondition) : bool :=
  match t with
  | TriggerErrorAny => true
  | TriggerError5xx => match as_transient e with Some (s, _, _) => ((500 <=? s) && (s <? 600)) || (s =? 429) || (s =? 529) | None => false end
  | TriggerError429 => match as_transient e with Some (s, _, _) => s =? 429 | None => false end
  | TriggerErrorAuthFailed => is_some (as_auth e) || is_some (as_provider_auth e)
  | TriggerErrorContextOverflow =>
      match as_invalid e with
      | Some (s, m) => (s =? 400) && (let m := ToLower m in Contains m "context" || Contains m "token" || Contains m "length" ||
                                      Contains m "too long" || Contains m "maximum context")
      | None => false
      end
  | TriggerErrorSafetyBlock =>
      match as_invalid e with
      | Some (s, m) => (s =? 400) && (let m := ToLower m in Contains m "safety" || Contains m "content_policy" || Contains m "content policy" ||
                                      Contains m "blocked" || Contains m "harm")
      | None => false
      end
  | TriggerOther _ => false
  end.

(** The first trigger that matches. *)
Fixpoint Match (e : llm_err) (triggers : list TriggerCondition) : option TriggerCondition :=
  match triggers with
  | [] => None
  | t :: ts => if matchOne e t then Some t else Match e ts
  end.

Definition MaxWholeChainAttempts : nat := 5.

Record ChainEntry := {
  ce_ProviderID : string; ce_Model : string; ce_ParamOverrides : gmap string any; ce_Triggers : list TriggerCondition; ce_MaxAttempts : Z
}.
Record Chain := { ch_ID : string; ch_Name : string; ch_Entries : list ChainEntry }.

Definition entry_ok (e : ChainEntry) : bool :=
  negb (bool_decide (ce_ProviderID e = "")) && (match ce_Triggers e with [] => false | ts => forallb IsKnown ts end) &&
  ((if ce_MaxAttempts e =? 0 then 1 else ce_MaxAttempts e) <=? Z.of_nat MaxWholeChainAttempts).

(** [Chain.Validate] finds nothing wrong. *)
Definition Validate (c : Chain) : bool := negb (bool_decide (ch_ID c = "")) && negb (bool_decide (ch_Name c = "")) && forallb entry_ok (ch_Entries c).
