(* ===== verification/ModelGates.v ===== *)
(** What a model request is, and the gates it passes before it may reach a provider:
    core/llm/llm.go (requests), prompt_cache.go (the system prompt), toolcall_id.go,
    capabilities/gate.go, capabilities/knob_policy.go, registry/knob_params.go and
    registry/registry.go's overlay of probed capabilities. *)
From S2P Require Import Prelude GoString ModelErr Catalog.
Local Open Scope Z_scope.

(** * Requests *)

(** Of a media source, what the gates read; zero is an unknown size. *)
Record MediaSource := { ms_MediaType : string; ms_SizeBytes : Z; ms_Dimensions : option (Z * Z) }.

Record ContentBlock := {
  cb_Type : string; cb_Text : string; cb_Source : option MediaSource;
  cb_ToolUse : option (string * string);  (** id and name *)
  cb_ToolResult : option string  (** the id of the call it answers *)
}.
Record Message := { msg_Role : string; msg_Content : list ContentBlock }.

Record ReasoningConfig := { rc_OpenAIEffort : string; rc_AnthropicThinkingBudget : Z }.

(** The knobs the policy reads. *)
Record RequestKnobs := {
  rk_Reasoning : option ReasoningConfig; rk_Seed : option Z; rk_TopP : option f64; rk_TopK : option Z;
  rk_FrequencyPenalty : option f64; rk_PresencePenalty : option f64; rk_ParallelToolCalls : option bool
}.

Record RetryPolicy := { rp_MaxAttempts : Z; rp_BaseMS : Z; rp_MaxMS : Z; rp_Jitter : string }.
Record ResponseFormat := { fmt_Mode : string; fmt_Schema : string; fmt_Strict : bool }.

Record GenerationRequest := {
  gr_ProfileID : string; gr_Model : string; gr_System : string; gr_SystemVolatile : string; gr_Messages : list Message;
  gr_Tools : list string; gr_Attachments : nat; gr_JSONMode : bool; gr_Reasoning : bool; gr_ResponseFormat : option ResponseFormat;
  gr_ImageOutput : bool; gr_Params : gmap string any; gr_RetryOverride : option RetryPolicy; gr_SessionID : string;
  gr_Knobs : option RequestKnobs
}.

Definition with_system (r : GenerationRequest) (system volatile : string) : GenerationRequest :=
  {| gr_ProfileID := gr_ProfileID r; gr_Model := gr_Model r; gr_System := system; gr_SystemVolatile := volatile;
     gr_Messages := gr_Messages r; gr_Tools := gr_Tools r; gr_Attachments := gr_Attachments r; gr_JSONMode := gr_JSONMode r;
     gr_Reasoning := gr_Reasoning r; gr_ResponseFormat := gr_ResponseFormat r; gr_ImageOutput := gr_ImageOutput r;
     gr_Params := gr_Params r; gr_RetryOverride := gr_RetryOverride r; gr_SessionID := gr_SessionID r; gr_Knobs := gr_Knobs r |}.

Definition with_knobs (r : GenerationRequest) (params : gmap string any) (knobs : option RequestKnobs) : GenerationRequest :=
  {| gr_ProfileID := gr_ProfileID r; gr_Model := gr_Model r; gr_System := gr_System r; gr_SystemVolatile := gr_SystemVolatile r;
     gr_Messages := gr_Messages r; gr_Tools := gr_Tools r; gr_Attachments := gr_Attachments r; gr_JSONMode := gr_JSONMode r;
     gr_Reasoning := gr_Reasoning r; gr_ResponseFormat := gr_ResponseFormat r; gr_ImageOutput := gr_ImageOutput r;
     gr_Params := params; gr_RetryOverride := gr_RetryOverride r; gr_SessionID := gr_SessionID r; gr_Knobs := knobs |}.

Definition FullSystem (r : GenerationRequest) : string :=
  let stable := TrimSpace (gr_System r) in
  let volatile := TrimSpace (gr_SystemVolatile r) in
  if bool_decide (volatile = "") then gr_System r
  else if bool_decide (stable = "") then volatile else stable +:+ nl +:+ nl +:+ volatile.

Definition FoldSystemSegments (r : GenerationRequest) : GenerationRequest :=
  if bool_decide (gr_SystemVolatile r = "") then r else with_system r (FullSystem r) "".

(** * Tool-call ids *)

Definition SynthesizeToolCallID (genID : string) (index : Z) : string :=
  if bool_decide (genID = "") then "call_" +:+ fmt_d index else genID +:+ "-" +:+ fmt_d index.

Definition EnsureToolCallID (id genID : string) (index : Z) : string :=
  if bool_decide (TrimSpace id = "") then SynthesizeToolCallID genID index else id.

Definition block_id_ok (b : ContentBlock) : bool :=
  if bool_decide (cb_Type b = "tool_use") then match cb_ToolUse b with Some (id, _) => negb (bool_decide (TrimSpace id = "")) | None => true end
  else if bool_decide (cb_Type b = "tool_result") then match cb_ToolResult b with Some id => negb (bool_decide (TrimSpace id = "")) | None => true end
  else true.

Definition ValidateToolCallIDs (messages : list Message) : option llm_err :=
  if forallb (fun m => forallb block_id_ok (msg_Content m)) messages then None else Some (EMsg "llm: a tool call or result has an empty id").

(** * The capability gate *)

Definition RequestedCapabilities (r : GenerationRequest) : list string :=
  ["streaming"] ++ (match gr_Tools r with [] => [] | _ => ["tool_calling"] end) ++ (match gr_Attachments r with O => [] | _ => ["vision"] end)
    ++ (if gr_JSONMode r then ["json_mode"] else []) ++ (if gr_Reasoning r then ["reasoning"] else [])
    ++ (match gr_ResponseFormat r with
        | Some f => if bool_decide (fmt_Mode f = "json_schema") then ["structured_output"]
                    else if bool_decide (fmt_Mode f = "grammar") then ["grammar"] else []
        | None => []
        end)
    ++ (if gr_ImageOutput r then ["image_output"] else []).

Definition applyCapabilityHints (d : CapabilityDescriptor) (hints : gmap string bool) : CapabilityDescriptor :=
  {| cd_Provider := cd_Provider d; cd_Model := cd_Model d; cd_Supported := hints ∪ cd_Supported d |}.

Definition gate_check (c : Catalog) (r : GenerationRequest) (kind model : string) (hints : gmap string bool) : option llm_err :=
  let desc := applyCapabilityHints (Describe c kind model) hints in
  match List.filter (fun cap => negb (Has desc cap)) (RequestedCapabilities r) with
  | [] => None
  | missing => Some (ECapabilityUnsupported kind model missing)
  end.

Definition defaultVisionMimeTypes : list string := ["image/png"; "image/jpeg"; "image/gif"; "image/webp"].

Definition with_images (d : AttachmentDescriptor) (on : bool) (mimes : list string) : AttachmentDescriptor :=
  {| ad_ImageInput := on; ad_DocumentInput := ad_DocumentInput d; ad_MaxImageBytes := ad_MaxImageBytes d;
     ad_MaxDocumentBytes := ad_MaxDocumentBytes d; ad_MaxImageCountPerMessage := ad_MaxImageCountPerMessage d;
     ad_MaxImagePixels := ad_MaxImagePixels d; ad_MaxDocumentPages := ad_MaxDocumentPages d; ad_ImageInputMimeTypes := mimes;
     ad_DocumentInputMimeTypes := ad_DocumentInputMimeTypes d |}.

Definition applyVisionHintToAttachments (d : AttachmentDescriptor) (hints : gmap string bool) : AttachmentDescriptor :=
  match hints !! "vision" with
  | None => d
  | Some v => with_images d v (if v then nonempty_or (ad_ImageInputMimeTypes d) defaultVisionMimeTypes else ad_ImageInputMimeTypes d)
  end.

Definition mimeOf (s : option MediaSource) : string := match s with Some s => ms_MediaType s | None => "" end.
Definition mimeAllowed (mime : string) (allowed : list string) : bool := existsb (fun a => bool_decide (ToLower a = ToLower mime)) allowed.
Definition is_audio (s : option MediaSource) : bool := match s with Some s => HasPrefix (ms_MediaType s) "audio/" | None => false end.

Definition Pixels (d : Z * Z) : Z := let '(w, h) := d in if (w <=? 0) || (h <=? 0) then 0 else int64 (w * h).

Definition size_check (kind : string) (s : option MediaSource) (cap : Z) : option llm_err :=
  match s with
  | Some s => if (0 <? ms_SizeBytes s) && (0 <? cap) && (cap <? ms_SizeBytes s)
              then Some (EAttachmentTooLarge kind (ms_MediaType s) (ms_SizeBytes s) cap) else None
  | None => None
  end.

Definition pixel_check (kind : string) (s : option MediaSource) (cap : Z) : option llm_err :=
  match s with
  | Some s => match ms_Dimensions s with
              | Some d => if (0 <? cap) && (0 <? Pixels d) && (cap <? Pixels d) then Some (EAttachmentDimensionExceeded kind (Pixels d) cap) else None
              | None => None
              end
  | None => None
  end.

Definition orelse {A} (a b : option A) : option A := match a with Some x => Some x | None => b end.
Notation "a <||> b" := (orelse a b) (at level 60, right associativity).
Definition guard_err {E} (ok : bool) (e : E) : option E := if ok then None else Some e.

(** The first thing wrong with a block. *)
Definition block_check (d : AttachmentDescriptor) (kind : string) (b : ContentBlock) : option llm_err :=
  let mime := mimeOf (cb_Source b) in
  if bool_decide (cb_Type b = "image") then
    guard_err (negb (is_audio (cb_Source b))) (EAttachmentAudioUnsupported mime)
    <||> guard_err (ad_ImageInput d) (EAttachmentMimeUnsupported kind mime)
    <||> guard_err (mimeAllowed mime (ad_ImageInputMimeTypes d)) (EAttachmentMimeUnsupported kind mime)
    <||> size_check kind (cb_Source b) (ad_MaxImageBytes d)
    <||> pixel_check kind (cb_Source b) (ad_MaxImagePixels d)
  else if bool_decide (cb_Type b = "document") then
    guard_err (negb (is_audio (cb_Source b))) (EAttachmentAudioUnsupported mime)
    <||> guard_err (ad_DocumentInput d) (EAttachmentMimeUnsupported kind mime)
    <||> guard_err (mimeAllowed mime (ad_DocumentInputMimeTypes d)) (EAttachmentMimeUnsupported kind mime)
    <||> size_check kind (cb_Source b) (ad_MaxDocumentBytes d)
  else guard_err (negb (is_audio (cb_Source b))) (EAttachmentAudioUnsupported mime).

Fixpoint first_err {A} (f : A -> option llm_err) (l : list A) : option llm_err :=
  match l with [] => None | x :: l => f x <||> first_err f l end.

Definition image_count (m : Message) : Z := Z.of_nat (countb (fun b => bool_decide (cb_Type b = "image")) (msg_Content m)).

Definition message_check (d : AttachmentDescriptor) (kind : string) (m : Message) : option llm_err :=
  first_err (block_check d kind) (msg_Content m)
  <||> guard_err (negb ((0 <? ad_MaxImageCountPerMessage d) && (ad_MaxImageCountPerMessage d <? image_count m)))
         (EAttachmentCountExceeded kind (image_count m) (ad_MaxImageCountPerMessage d)).

Definition CheckAttachments (multimodal : bool) (c : Catalog) (r : GenerationRequest) (kind model : string) (hints : gmap string bool) : option llm_err :=
  let d := applyVisionHintToAttachments (AttachmentLimits multimodal c kind model) hints in
  first_err (message_check d kind) (gr_Messages r).

(** * Probed capabilities *)

Definition ToDescriptor (c : ProviderCapabilities) : CapabilityDescriptor :=
  {| cd_Provider := pc_Provider c; cd_Model := pc_Model c; cd_Supported := list_to_map (map (fun k => (k, pc_flag c k)) AllCapabilities) |}.

Definition ProbedSupported (c : ProviderCapabilities) : gmap string bool := only (pc_Probed c) (cd_Supported (ToDescriptor c)).

Definition mergeCapabilityHints (cached explicit : gmap string bool) : gmap string bool := explicit ∪ cached.

(** * Knobs *)

(** [applyReasoning]: the knob kept, whether it is dropped, or a refusal. *)
Definition applyReasoning (caps : ProviderCapabilities) (r : ReasoningConfig) : result (option ReasoningConfig * list string) llm_err :=
  if negb (pc_flag caps "reasoning") then Ok (None, ["reasoning"])
  else
    let hasEffort := negb (bool_decide (rc_OpenAIEffort r = "")) in
    let hasBudget := 0 <? rc_AnthropicThinkingBudget r in
    match pc_Reasoning_ caps with
    | ReasoningEffortString => if hasBudget && negb hasEffort then Err (EUnsupportedFeature "reasoning.anthropic_thinking_budget") else Ok (Some r, [])
    | ReasoningTokenBudget => if hasEffort && negb hasBudget then Err (EUnsupportedFeature "reasoning.openai_effort") else Ok (Some r, [])
    | ReasoningBoth | ReasoningNone => Ok (Some r, [])
    end.

(** A knob whose flag is off is dropped. *)
Definition keep_if {A} (caps : ProviderCapabilities) (key : string) (o : option A) : option A := if pc_flag caps key then o else None.
Definition drop_if {A} (caps : ProviderCapabilities) (key : string) (o : option A) : list string :=
  match o with Some _ => if pc_flag caps key then [] else [key] | None => [] end.

(** The cleaned knobs and the names of those dropped. *)
Definition Apply (caps : ProviderCapabilities) (k : RequestKnobs) : result (RequestKnobs * list string) llm_err :=
  let! (reasoning, d0) := match rk_Reasoning k with Some r => applyReasoning caps r | None => Ok (None, []) end in
  Ok ({| rk_Reasoning := reasoning; rk_Seed := keep_if caps "seed" (rk_Seed k); rk_TopP := keep_if caps "top_p" (rk_TopP k);
         rk_TopK := keep_if caps "top_k" (rk_TopK k); rk_FrequencyPenalty := keep_if caps "frequency_penalty" (rk_FrequencyPenalty k);
         rk_PresencePenalty := keep_if caps "presence_penalty" (rk_PresencePenalty k);
         rk_ParallelToolCalls := keep_if caps "parallel_tool_calls" (rk_ParallelToolCalls k) |},
      d0 ++ drop_if caps "seed" (rk_Seed k) ++ drop_if caps "top_k" (rk_TopK k) ++ drop_if caps "top_p" (rk_TopP k)
         ++ drop_if caps "frequency_penalty" (rk_FrequencyPenalty k) ++ drop_if caps "presence_penalty" (rk_PresencePenalty k)
         ++ drop_if caps "parallel_tool_calls" (rk_ParallelToolCalls k)).

Definition numToInt (v : any) : option Z := match v with AInt z => Some z | AFloat f => Some (f64_to_int f) | _ => None end.
Definition numToFloat (v : any) : option f64 := match v with AFloat f | AFloat32 f => Some f | AInt z => Some (int_to_f64 z) | _ => None end.

(** The keys found with a type the function knows are those set in the result. *)
Definition read_params (params : gmap string any) : RequestKnobs :=
  {| rk_Reasoning := None; rk_Seed := (params !! "seed") ≫= numToInt; rk_TopP := (params !! "top_p") ≫= numToFloat;
     rk_TopK := (params !! "top_k") ≫= numToInt; rk_FrequencyPenalty := (params !! "frequency_penalty") ≫= numToFloat;
     rk_PresencePenalty := (params !! "presence_penalty") ≫= numToFloat; rk_ParallelToolCalls := bool_of (params !! "parallel_tool_calls") |}.

Definition any_knob (k : RequestKnobs) : bool :=
  is_some (rk_Seed k) || is_some (rk_TopK k) || is_some (rk_TopP k) || is_some (rk_FrequencyPenalty k) || is_some (rk_PresencePenalty k)
  || is_some (rk_ParallelToolCalls k).

Definition knobsFromParams (params : gmap string any) : option RequestKnobs :=
  let k := read_params params in if any_knob k then Some k else None.

Definition mergeRequestKnobs (existing fromParams : option RequestKnobs) : option RequestKnobs :=
  match existing, fromParams with
  | None, p => p
  | e, None => e
  | Some e, Some p =>
      Some {| rk_Reasoning := rk_Reasoning e; rk_Seed := rk_Seed e <||> rk_Seed p; rk_TopP := rk_TopP e <||> rk_TopP p;
              rk_TopK := rk_TopK e <||> rk_TopK p; rk_FrequencyPenalty := rk_FrequencyPenalty e <||> rk_FrequencyPenalty p;
              rk_PresencePenalty := rk_PresencePenalty e <||> rk_PresencePenalty p;
              rk_ParallelToolCalls := rk_ParallelToolCalls e <||> rk_ParallelToolCalls p |}
  end.

Definition set_param (had : bool) (key : string) (v : option any) (params : gmap string any) : gmap string any :=
  if had then match v with Some x => <[key := x]> params | None => delete key params end else params.

(** [from] has the keys that were in the map. *)
Definition writeKnobsToParams (params : gmap string any) (from cleaned : RequestKnobs) : gmap string any :=
  set_param (is_some (rk_ParallelToolCalls from)) "parallel_tool_calls" (ABool <$> rk_ParallelToolCalls cleaned)
  (set_param (is_some (rk_PresencePenalty from)) "presence_penalty" (AFloat <$> rk_PresencePenalty cleaned)
  (set_param (is_some (rk_FrequencyPenalty from)) "frequency_penalty" (AFloat <$> rk_FrequencyPenalty cleaned)
  (set_param (is_some (rk_TopP from)) "top_p" (AFloat <$> rk_TopP cleaned)
  (set_param (is_some (rk_TopK from)) "top_k" (AInt <$> rk_TopK cleaned)
  (set_param (is_some (rk_Seed from)) "seed" (AInt <$> rk_Seed cleaned) params))))).

(** The knob step of the registry's Stream. *)
Definition sanitize (caps : ProviderCapabilities) (r : GenerationRequest) : result GenerationRequest llm_err :=
  let from := knobsFromParams (gr_Params r) in
  match mergeRequestKnobs (gr_Knobs r) from with
  | None => Ok r
  | Some merged =>
      let! (cleaned, _) := Apply caps merged in
      Ok (with_knobs r (match from with Some p => writeKnobsToParams (gr_Params r) p cleaned | None => gr_Params r end)
            (match gr_Knobs r with Some _ => Some cleaned | None => None end))
  end.
