(* ===== verification/CatalogProps.v ===== *)
(** Theorems on the capability catalog and the gates before a model call: the two
    projections of a catalog row agree, a live probe changes only what it determined, the
    attachment switch, and the knobs that may reach a provider. *)
From S2P Require Import Prelude GoString Catalog ModelErr ModelGates.
Local Open Scope Z_scope.

(** * The catalog *)

Lemma only_lookup names (m : gmap string bool) k : only names m !! k = if decide (k ∈ names) then m !! k else None.
Proof.
  unfold only. destruct (decide (k ∈ names)) as [Hk|Hk].
  - destruct (m !! k) as [b|] eqn:E; [by apply map_lookup_filter_Some|apply map_lookup_filter_None; by left].
  - apply map_lookup_filter_None. by right.
Qed.

Lemma flags_lookup {A} (f : string -> A) l k : k ∈ l -> (list_to_map (map (fun k => (k, f k)) l) : gmap string A) !! k = Some (f k).
Proof.
  induction l as [|x l IH]; intros Hk; [by apply not_elem_of_nil in Hk|]. cbn. destruct (decide (x = k)) as [->|Hx]; [apply lookup_insert_eq|].
  rewrite lookup_insert_ne by done. apply IH. by apply elem_of_cons in Hk as [->|].
Qed.

Lemma applyDefaults_lookup d k : k ∈ AllCapabilities -> applyDefaults ∅ d !! k = bool_of (d !! k).
Proof.
  intros Hk. unfold applyDefaults. rewrite map_union_empty, only_lookup, decide_True by done. rewrite lookup_omap. by destruct (d !! k).
Qed.

Lemma cap_is_flag k : k ∈ AllCapabilities -> k ∈ flag_names.
Proof. intros H. unfold flag_names. apply elem_of_app. by left. Qed.

Lemma has_descriptor c k : k ∈ AllCapabilities -> Has (ToDescriptor c) k = pc_flag c k.
Proof. intros Hk. unfold Has, ToDescriptor. cbn -[AllCapabilities]. by rewrite flags_lookup. Qed.

(** The gate's descriptor and the rich record answer alike: for every catalog,
    provider, model and capability the descriptor [Describe] builds supports exactly what
    the descriptor of [DescribeRich]'s record supports. *)
Theorem descriptors_agree c provider model cap :
  cap ∈ AllCapabilities -> Has (Describe c provider model) cap = Has (ToDescriptor (DescribeRich c provider model)) cap.
Proof.
  intros Hk. rewrite has_descriptor by done. unfold Has, Describe, DescribeRich, pc_flag. cbn [cd_Supported].
  destruct (c !! resolveProvider provider) as [spec|]; [|done].
  assert (HR : pc_Flags (applyRichDefaults {| pc_Provider := provider; pc_Model := model; pc_Flags := ∅; pc_Reasoning_ := ReasoningNone;
            pc_ContextWindow := 0; pc_MaxOutputTokens := 0; pc_Probed := [] |} (ps_Defaults spec)) !! cap
          = Some (default false (bool_of (ps_Defaults spec !! cap)))).
  { unfold applyRichDefaults. cbn [pc_Flags]. apply (flags_lookup (fun k => default false (bool_of (ps_Defaults spec !! k)))). by apply cap_is_flag. }
  destruct (row_of spec model) as [m|].
  - unfold applyRichEntry. cbn [pc_Flags]. rewrite !lookup_union, !only_lookup, decide_True, decide_True by (done || by apply cap_is_flag).
    rewrite HR, applyDefaults_lookup by done. by destruct (me_Flags m !! cap), (bool_of (ps_Defaults spec !! cap)).
  - rewrite HR, applyDefaults_lookup by done. by destruct (bool_of _).
Qed.

Definition demo_row (m : string) (flags : gmap string bool) : modelEntry :=
  {| me_Match := m; me_Flags := flags; me_ContextWindow := 200000; me_MaxOutputTokens := 0; me_ReasoningStyle := "";
     me_Attach := {| ad_ImageInput := false; ad_DocumentInput := false; ad_MaxImageBytes := 0; ad_MaxDocumentBytes := 0; ad_MaxImageCountPerMessage := 0;
                     ad_MaxImagePixels := 0; ad_MaxDocumentPages := 0; ad_ImageInputMimeTypes := []; ad_DocumentInputMimeTypes := [] |} |}.
Definition demo_catalog : Catalog :=
  {[ "openai" := {| ps_Defaults := <["streaming" := ABool true]> (<["tool_calling" := ABool true]> (<["seed" := ABool true]> ∅));
                    ps_Models := [demo_row "gpt-*" (<["vision" := true]> (<["tool_calling" := false]> ∅))]; ps_Tiers := [] |} ]}.

Lemma descriptors_agree_witness :
  "tool_calling" ∈ AllCapabilities /\
  Has (Describe demo_catalog "azure-openai" "gpt-4o") "tool_calling" = Has (ToDescriptor (DescribeRich demo_catalog "azure-openai" "gpt-4o")) "tool_calling" /\
  Has (Describe demo_catalog "azure-openai" "gpt-4o") "tool_calling" = false /\ Has (Describe demo_catalog "azure-openai" "o1") "tool_calling" = true.
Proof.
  assert (H : "tool_calling" ∈ AllCapabilities) by (apply (bool_decide_unpack _); by vm_compute).
  split; [exact H|]. split; [exact (descriptors_agree demo_catalog "azure-openai" "gpt-4o" "tool_calling" H)|by vm_compute].
Defined.

(** The window of an aliased provider is not looked up through the alias. *)
Example azure_has_no_window :
  ContextWindow demo_catalog "openai" "gpt-4o" = 200000 /\ pc_ContextWindow (DescribeRich demo_catalog "azure-openai" "gpt-4o") = 200000 /\
  ContextWindow demo_catalog "azure-openai" "gpt-4o" = 0.
Proof. by vm_compute. Qed.

(** * Probes *)

(** What a cached probe record does to the gate.  For a capability, the profile's own
    hint decides; without one, the record decides when its probe determined that
    capability; otherwise the static catalog does, whatever else the record carries. *)
Theorem probe_overlay d cached explicit cap :
  cap ∈ AllCapabilities ->
  Has (applyCapabilityHints d (mergeCapabilityHints (ProbedSupported cached) explicit)) cap =
  match explicit !! cap with
  | Some b => b
  | None => if bool_decide (cap ∈ pc_Probed cached) then pc_flag cached cap else Has d cap
  end.
Proof.
  intros Hk. unfold Has, applyCapabilityHints, mergeCapabilityHints, ProbedSupported. cbn -[AllCapabilities]. rewrite !lookup_union, only_lookup.
  rewrite flags_lookup by done.
  case_bool_decide as HP; [rewrite (decide_True _ _ HP)|rewrite (decide_False _ _ HP)]; by destruct (explicit !! cap), (cd_Supported d !! cap).
Qed.

Definition demo_probe : ProviderCapabilities :=
  {| pc_Provider := "ollama"; pc_Model := "m"; pc_Flags := <["vision" := true]> ∅; pc_Reasoning_ := ReasoningNone; pc_ContextWindow := 0;
     pc_MaxOutputTokens := 0; pc_Probed := ["vision"] |}.

Lemma probe_overlay_witness :
  "streaming" ∈ AllCapabilities /\
  Has (applyCapabilityHints (Describe demo_catalog "openai" "gpt-4o") (mergeCapabilityHints (ProbedSupported demo_probe) ∅)) "streaming" = true.
Proof.
  assert (H : "streaming" ∈ AllCapabilities) by (apply (bool_decide_unpack _); by vm_compute).
  split; [exact H|]. rewrite (probe_overlay _ demo_probe ∅ "streaming" H). by vm_compute.
Defined.

(** * Attachments *)

Definition attaches (b : ContentBlock) : bool := bool_decide (cb_Type b = "image") || bool_decide (cb_Type b = "document").

Lemma orelse_none {A} (a b : option A) : orelse a b = None <-> a = None /\ b = None.
Proof. destruct a; cbn; naive_solver. Qed.

Lemma guard_none {E} ok (e : E) : guard_err ok e = None <-> ok = true.
Proof. by destruct ok. Qed.

Lemma first_err_none {A} (f : A -> option llm_err) l : first_err f l = None <-> forall x, x ∈ l -> f x = None.
Proof.
  induction l as [|x l IH]; cbn; [set_solver|]. rewrite orelse_none, IH. set_solver.
Qed.

Lemma limits_off c kind model : ad_ImageInput (AttachmentLimits false c kind model) = false /\ ad_DocumentInput (AttachmentLimits false c kind model) = false.
Proof. unfold AttachmentLimits. by destruct (c !! resolveProvider kind). Qed.

Lemma hint_keeps_documents d hints : ad_DocumentInput (applyVisionHintToAttachments d hints) = ad_DocumentInput d.
Proof. unfold applyVisionHintToAttachments. by destruct (hints !! "vision"). Qed.

Lemma hint_sets_images d hints :
  ad_ImageInput (applyVisionHintToAttachments d hints) = match hints !! "vision" with Some v => v | None => ad_ImageInput d end.
Proof. unfold applyVisionHintToAttachments. by destruct (hints !! "vision"). Qed.

Lemma block_needs d kind b : block_check d kind b = None -> attaches b = true ->
  (cb_Type b = "image" /\ ad_ImageInput d = true) \/ (cb_Type b = "document" /\ ad_DocumentInput d = true).
Proof.
  unfold block_check, attaches. case_bool_decide as HI; [intros H _; left|].
  - rewrite !orelse_none, !guard_none in H. naive_solver.
  - case_bool_decide as HD; [intros H _; right|done]. rewrite !orelse_none, !guard_none in H. naive_solver.
Qed.

(** With multimodal input switched off no document passes the attachment gate, and an
    image passes only when the profile's hints, probed or its own, claim vision. *)
Theorem attachments_switched_off c r kind model hints m b :
  CheckAttachments false c r kind model hints = None -> m ∈ gr_Messages r -> b ∈ msg_Content m -> attaches b = true ->
  cb_Type b = "image" /\ hints !! "vision" = Some true.
Proof.
  intros H Hm Hb Ha. unfold CheckAttachments in H. rewrite first_err_none in H. specialize (H m Hm).
  unfold message_check in H. rewrite orelse_none in H. destruct H as [H _]. rewrite first_err_none in H.
  destruct (limits_off c kind model) as [HI HD]. destruct (block_needs _ _ _ (H b Hb) Ha) as [[Ht Hon]|[Ht Hon]].
  - rewrite hint_sets_images, HI in Hon. split; [done|]. by destruct (hints !! "vision") as [[]|].
  - by rewrite hint_keeps_documents, HD in Hon.
Qed.

Definition png_block : ContentBlock :=
  {| cb_Type := "image"; cb_Text := ""; cb_Source := Some {| ms_MediaType := "image/PNG"; ms_SizeBytes := 0; ms_Dimensions := Some (10, 10) |};
     cb_ToolUse := None; cb_ToolResult := None |}.
Definition demo_request (model : string) (l : list Message) : GenerationRequest :=
  {| gr_ProfileID := "p"; gr_Model := model; gr_System := ""; gr_SystemVolatile := ""; gr_Messages := l; gr_Tools := []; gr_Attachments := 0;
     gr_JSONMode := false; gr_Reasoning := false; gr_ResponseFormat := None; gr_ImageOutput := false; gr_Params := ∅; gr_RetryOverride := None;
     gr_SessionID := "s"; gr_Knobs := None |}.
Definition png_request : GenerationRequest := demo_request "" [{| msg_Role := "user"; msg_Content := [png_block] |}].

(** The switch is off and the image passes, because a probe found vision. *)
Lemma attachments_switched_off_witness :
  CheckAttachments false demo_catalog png_request "openai" "gpt-4o" (ProbedSupported demo_probe) = None /\
  CheckAttachments false demo_catalog png_request "openai" "gpt-4o" ∅ <> None /\
  cb_Type png_block = "image" /\ ProbedSupported demo_probe !! "vision" = Some true.
Proof.
  assert (H : CheckAttachments false demo_catalog png_request "openai" "gpt-4o" (ProbedSupported demo_probe) = None) by (by vm_compute).
  split; [exact H|]. split; [by vm_compute|].
  exact (attachments_switched_off demo_catalog png_request "openai" "gpt-4o" (ProbedSupported demo_probe) _ png_block H
           (list_elem_of_here _ _) (list_elem_of_here _ _) eq_refl).
Defined.

(** A picture of more pixels than a 64-bit integer holds is within every cap. *)
Example huge_picture_passes :
  Pixels (4294967296, 4294967296) = 0 /\
  pixel_check "openai" (Some {| ms_MediaType := "image/png"; ms_SizeBytes := 0; ms_Dimensions := Some (4294967296, 4294967296) |}) 1000000 = None.
Proof. by vm_compute. Qed.

(** * Knobs *)

(** Every knob that is set is one the model supports. *)
Definition knobs_allowed (caps : ProviderCapabilities) (k : RequestKnobs) : Prop :=
  (is_some (rk_Seed k) = true -> pc_flag caps "seed" = true) /\ (is_some (rk_TopK k) = true -> pc_flag caps "top_k" = true) /\
  (is_some (rk_TopP k) = true -> pc_flag caps "top_p" = true) /\
  (is_some (rk_FrequencyPenalty k) = true -> pc_flag caps "frequency_penalty" = true) /\
  (is_some (rk_PresencePenalty k) = true -> pc_flag caps "presence_penalty" = true) /\
  (is_some (rk_ParallelToolCalls k) = true -> pc_flag caps "parallel_tool_calls" = true).

Definition knob_keys : list string := ["seed"; "top_k"; "top_p"; "frequency_penalty"; "presence_penalty"; "parallel_tool_calls"].

Lemma keep_if_flag {A} caps key (o : option A) : is_some (keep_if caps key o) = true -> pc_flag caps key = true.
Proof. unfold keep_if. by destruct (pc_flag caps key). Qed.

Lemma Apply_keeps caps k cl d : Apply caps k = Ok (cl, d) ->
  rk_Seed cl = keep_if caps "seed" (rk_Seed k) /\ rk_TopK cl = keep_if caps "top_k" (rk_TopK k) /\ rk_TopP cl = keep_if caps "top_p" (rk_TopP k) /\
  rk_FrequencyPenalty cl = keep_if caps "frequency_penalty" (rk_FrequencyPenalty k) /\
  rk_PresencePenalty cl = keep_if caps "presence_penalty" (rk_PresencePenalty k) /\
  rk_ParallelToolCalls cl = keep_if caps "parallel_tool_calls" (rk_ParallelToolCalls k).
Proof. unfold Apply. destruct (match rk_Reasoning k with Some r => _ | None => _ end) as [[]|]; cbn; [|done]. intros. inv_ok. by repeat split. Qed.

Lemma Apply_allowed caps k cl d : Apply caps k = Ok (cl, d) -> knobs_allowed caps cl.
Proof.
  intros (H1 & H2 & H3 & H4 & H5 & H6)%Apply_keeps. unfold knobs_allowed. rewrite H1, H2, H3, H4, H5, H6.
  repeat split; apply keep_if_flag.
Qed.

Lemma set_param_lookup had key v params k :
  set_param had key v params !! k = if decide (k = key) then (if had then v else params !! k) else params !! k.
Proof.
  unfold set_param. destruct had; [|by destruct (decide _)]. destruct v as [x|].
  - destruct (decide (k = key)) as [->|]; [apply lookup_insert_eq|by apply lookup_insert_ne].
  - destruct (decide (k = key)) as [->|]; [apply lookup_delete_eq|by apply lookup_delete_ne].
Qed.

Lemma write_other params from cl k : k ∉ knob_keys -> writeKnobsToParams params from cl !! k = params !! k.
Proof. intros Hk. unfold writeKnobsToParams. rewrite !set_param_lookup. unfold knob_keys in Hk. repeat (rewrite decide_False by set_solver). done. Qed.

Ltac at_key := unfold writeKnobsToParams; rewrite !set_param_lookup; rewrite ?decide_True by done; repeat (rewrite decide_False by done); done.

Lemma write_keys params from cl :
  let p := writeKnobsToParams params from cl in
  p !! "seed" = (if is_some (rk_Seed from) then AInt <$> rk_Seed cl else params !! "seed") /\
  p !! "top_k" = (if is_some (rk_TopK from) then AInt <$> rk_TopK cl else params !! "top_k") /\
  p !! "top_p" = (if is_some (rk_TopP from) then AFloat <$> rk_TopP cl else params !! "top_p") /\
  p !! "frequency_penalty" = (if is_some (rk_FrequencyPenalty from) then AFloat <$> rk_FrequencyPenalty cl else params !! "frequency_penalty") /\
  p !! "presence_penalty" = (if is_some (rk_PresencePenalty from) then AFloat <$> rk_PresencePenalty cl else params !! "presence_penalty") /\
  p !! "parallel_tool_calls" = (if is_some (rk_ParallelToolCalls from) then ABool <$> rk_ParallelToolCalls cl else params !! "parallel_tool_calls").
Proof. cbn zeta. repeat split; at_key. Qed.

(** Reading a key back after the write. *)
Lemma read_back {A} (f : any -> option A) (g : A -> any) (fl : bool) old new :
  (forall x, f (g x) = Some x) -> (is_some new = true -> fl = true) ->
  is_some ((if is_some (old ≫= f) then g <$> new else old) ≫= f) = true -> fl = true.
Proof. intros Hfg Hn H. destruct (is_some (old ≫= f)) eqn:E; [|by rewrite E in H]. destruct new; [by apply Hn|done]. Qed.

Lemma written_allowed caps params cl : knobs_allowed caps cl -> knobs_allowed caps (read_params (writeKnobsToParams params (read_params params) cl)).
Proof.
  intros (H1 & H2 & H3 & H4 & H5 & H6). destruct (write_keys params (read_params params) cl) as (K1 & K2 & K3 & K4 & K5 & K6).
  set (q := writeKnobsToParams params (read_params params) cl) in *. clearbody q. unfold knobs_allowed.
  cbn [read_params rk_Seed rk_TopK rk_TopP rk_FrequencyPenalty rk_PresencePenalty rk_ParallelToolCalls] in *. rewrite K1, K2, K3, K4, K5, K6.
  repeat split; (apply read_back; [done|assumption]).
Qed.

Lemma nothing_allowed caps k : any_knob k = false -> knobs_allowed caps k.
Proof.
  unfold any_knob. rewrite !orb_false_iff. intros [[[[[H1 H2] H3] H4] H5] H6]. unfold knobs_allowed. rewrite H1, H2, H3, H4, H5, H6. by repeat split.
Qed.

Lemma knobsFromParams_some p k : knobsFromParams p = Some k -> k = read_params p.
Proof. unfold knobsFromParams. case_if; intros; by simplify_eq. Qed.

(** The knobs that go to the adapter.  After the knob step, the sampling knobs a
    request carries, in its typed field and in the parameter map adapters read, are all
    ones the model's record supports; every other parameter is untouched, and so is the
    rest of the request. *)
Theorem sent_knobs_supported caps r r' :
  sanitize caps r = Ok r' ->
  knobs_allowed caps (read_params (gr_Params r')) /\ (forall k, gr_Knobs r' = Some k -> knobs_allowed caps k) /\
  (forall key, key ∉ knob_keys -> gr_Params r' !! key = gr_Params r !! key) /\ r' = with_knobs r (gr_Params r') (gr_Knobs r').
Proof.
  unfold sanitize. destruct (mergeRequestKnobs (gr_Knobs r) (knobsFromParams (gr_Params r))) as [merged|] eqn:EM.
  - destruct (Apply caps merged) as [[cl d]|] eqn:EA; cbn [rbind]; [|done]. intros. inv_ok. cbn [gr_Params gr_Knobs with_knobs].
    pose proof (Apply_allowed _ _ _ _ EA) as Hal. split; [|split; [|split; [|done]]].
    + unfold knobsFromParams. destruct (any_knob _) eqn:EK; [by apply written_allowed|by apply nothing_allowed].
    + destruct (gr_Knobs r); intros; by simplify_eq.
    + intros key Hk. destruct (knobsFromParams _); [by apply write_other|done].
  - intros. inv_ok. destruct (gr_Knobs r') as [k|] eqn:EK; cbn in EM; [by destruct (knobsFromParams _)|].
    split; [|split; [done|split; [done|by destruct r'; cbn in *; subst]]].
    apply nothing_allowed. unfold knobsFromParams in EM. by destruct (any_knob _).
Qed.

Definition knob_request : GenerationRequest :=
  with_knobs (demo_request "" []) (<["seed" := AInt 7]> (<["top_k" := AFloat {| f_m := 81; f_e := -1 |}]> (<["max_tokens" := AInt 100]> ∅))) None.

(** The demonstration model takes a seed and no top_k. *)
Lemma sent_knobs_supported_witness :
  exists r', sanitize (DescribeRich demo_catalog "openai" "gpt-4o") knob_request = Ok r' /\
    knobs_allowed (DescribeRich demo_catalog "openai" "gpt-4o") (read_params (gr_Params r')) /\
    gr_Params r' !! "seed" = Some (AInt 7) /\ gr_Params r' !! "top_k" = None /\ gr_Params r' !! "max_tokens" = Some (AInt 100).
Proof.
  eexists. split; [by vm_compute|]. split.
  - refine (proj1 (sent_knobs_supported (DescribeRich demo_catalog "openai" "gpt-4o") knob_request _ _)). by vm_compute.
  - by vm_compute.
Defined.

(** The session's typed default replaces the parameter a node set. *)
Example session_default_replaces_node_seed :
  let node := with_knobs knob_request (<["seed" := AInt 7]> ∅)
                (Some {| rk_Reasoning := None; rk_Seed := Some 1; rk_TopP := None; rk_TopK := None; rk_FrequencyPenalty := None;
                         rk_PresencePenalty := None; rk_ParallelToolCalls := None |}) in
  match sanitize (DescribeRich demo_catalog "openai" "gpt-4o") node with Ok r => gr_Params r !! "seed" | Err _ => None end = Some (AInt 1).
Proof. by vm_compute. Qed.

(** A knob given as text is no knob to the policy, and goes out. *)
Example text_knob_passes :
  match sanitize (DescribeRich demo_catalog "openai" "gpt-4o") (with_knobs knob_request (<["top_k" := AStr "40"]> ∅) None) with
  | Ok r => gr_Params r !! "top_k"
  | Err _ => None
  end = Some (AStr "40").
Proof. by vm_compute. Qed.
