(* ===== verification/ModelReg.v ===== *)
(** The provider profiles and the cache of probed capabilities: core/llm/llm.go and
    profile_schema.go (profiles and their validation), registry/registry.go (loading,
    evicting, capability refresh) and capabilities/cache.go, refresh.go (the memory cache and
    its background refresh).  The refresh goroutines are tasks that take their steps in any
    order with the registry's operations. *)
From S2P Require Import Prelude GoString ModelErr Catalog ModelGates.
From Stdlib Require Import Ascii.
Local Open Scope Z_scope.

(** * Profiles *)

Record CredentialReference := { cr_Kind : string; cr_Locator : string; cr_Source : string; cr_CredentialID : string }.
#[global] Instance cred_eq : EqDecision CredentialReference.
Proof. solve_decision. Defined.

Definition no_cred : CredentialReference := {| cr_Kind := ""; cr_Locator := ""; cr_Source := ""; cr_CredentialID := "" |}.
Definition IsZero (r : CredentialReference) : bool := bool_decide (r = no_cred).

(** [pf_AuthSchemeDefault] is the profile's default of that name, when it is a string. *)
Record ProviderProfile := {
  pf_ID : string; pf_Kind : string; pf_Model : string; pf_Models : list string; pf_Cred : CredentialReference; pf_Region : string;
  pf_Endpoint : string; pf_CapabilityHints : gmap string bool; pf_AuthSchemeDefault : string; pf_Retry : option RetryPolicy;
  pf_GeminiEndpointKind : string; pf_Project : string; pf_AuthScheme : string
}.

Definition AvailableModels (p : ProviderProfile) : list string :=
  match pf_Models p with [] => if bool_decide (pf_Model p = "") then [] else [pf_Model p] | l => l end.
Definition DispatchModel (p : ProviderProfile) (override : string) : string := if bool_decide (override = "") then pf_Model p else override.

Definition IsFleet (s : string) : bool := bool_decide (s ∈ ["user_sync"; "org"; "team"]).
Definition ValidSource (s : string) : bool := bool_decide (s ∈ [""; "local"; "user_sync"; "org"; "team"]).
Definition validCredKinds : list string := ["env"; "keychain"; "file"; "aws_profile"; "kms"].
Definition plaintextCredentialPrefixes : list string := ["sk-ant-"; "sk-"; "AKIA"; "ASIA"; "ya29."; "AIza"].

Definition alnum (c : ascii) : bool := is_lower c || is_upper c || is_digit c.
Definition id_char (c : ascii) : bool := alnum c || bool_decide (c = ascii_of_N 46) || bool_decide (c = ascii_of_N 95) || bool_decide (c = ascii_of_N 45).
Definition ValidCredentialID (id : string) : bool :=
  match list_of id with
  | [] => false
  | c :: l => (Z.of_nat (length (c :: l)) <=? 128) && alnum c && forallb id_char l
  end.

Definition validateCredRef (r : CredentialReference) : bool :=
  let kind := TrimSpace (cr_Kind r) in
  bool_decide (kind ∈ validCredKinds) && ValidSource (cr_Source r) &&
  (if IsFleet (cr_Source r) then bool_decide (kind = "keychain") && ValidCredentialID (cr_CredentialID r)
   else bool_decide (cr_CredentialID r = "") && negb (bool_decide (TrimSpace (cr_Locator r) = ""))
        && negb (existsb (HasPrefix (cr_Locator r)) plaintextCredentialPrefixes) && (Z.of_nat (String.length (cr_Locator r)) <=? 256)).

Definition validateRetryPolicy (r : RetryPolicy) : bool :=
  (1 <=? rp_MaxAttempts r) && (0 <=? rp_BaseMS r) && (0 <=? rp_MaxMS r) && negb ((0 <? rp_MaxMS r) && (rp_MaxMS r <? rp_BaseMS r)).

Definition credentialless (p : ProviderProfile) : bool :=
  bool_decide (pf_Kind p = "custom-openai") && IsZero (pf_Cred p) && bool_decide (pf_AuthSchemeDefault p = "none").

Definition blank (s : string) : bool := bool_decide (TrimSpace s = "").

(** [ValidateProfile] returns no error. *)
Definition ValidateProfile (p : ProviderProfile) : bool :=
  negb (blank (pf_ID p)) && negb (blank (pf_Kind p)) && negb (blank (pf_Model p)) &&
  (credentialless p || validateCredRef (pf_Cred p)) &&
  negb (bool_decide (pf_Kind p = "custom-openai") && blank (pf_Endpoint p)) &&
  negb (bool_decide (pf_Kind p = "bedrock") && blank (pf_Region p)) &&
  negb (bool_decide (pf_Kind p = "gemini") && bool_decide (pf_GeminiEndpointKind p = "vertex") && (blank (pf_Project p) || blank (pf_Region p))) &&
  match pf_Retry p with Some r => validateRetryPolicy r | None => true end.

Definition NormalizeAuthScheme (p : ProviderProfile) : ProviderProfile :=
  if negb (bool_decide (pf_Kind p = "custom-openai")) || bool_decide (pf_AuthScheme p = "") || negb (bool_decide (pf_AuthSchemeDefault p = "")) then p
  else {| pf_ID := pf_ID p; pf_Kind := pf_Kind p; pf_Model := pf_Model p; pf_Models := pf_Models p; pf_Cred := pf_Cred p; pf_Region := pf_Region p;
          pf_Endpoint := pf_Endpoint p; pf_CapabilityHints := pf_CapabilityHints p; pf_AuthSchemeDefault := pf_AuthScheme p; pf_Retry := pf_Retry p;
          pf_GeminiEndpointKind := pf_GeminiEndpointKind p; pf_Project := pf_Project p; pf_AuthScheme := pf_AuthScheme p |}.

(** * Loading *)

Abbreviation Profiles := (gmap string ProviderProfile).

Definition install (profs : list ProviderProfile) (t : Profiles) : Profiles := fold_left (fun t p => <[pf_ID p := p]> t) profs t.

(** [None] is an error: the table is unchanged. *)
Definition LoadProfiles (profs : list ProviderProfile) (t : Profiles) : option Profiles :=
  if forallb ValidateProfile profs && bool_decide (NoDup (map pf_ID profs)) && forallb (fun p => negb (is_some (t !! pf_ID p))) profs
  then Some (install profs t) else None.

Definition MergePersonalProfiles (profs : list ProviderProfile) (t : Profiles) : option Profiles :=
  if forallb ValidateProfile profs
  then Some (fold_left (fun t p => if is_some (t !! pf_ID p) then t else <[pf_ID p := p]> t) profs t) else None.

(** * The cache *)

Definition CapabilitySchemaVersion : Z := 1.
(** In milliseconds. *)
Definition cacheTTL : Z := 7 * 24 * 3600 * 1000.

Record cacheEntry := { ce_caps : ProviderCapabilities; ce_fetchedAt : Z; ce_version : Z }.
Abbreviation Cache := (gmap string cacheEntry).

Definition cacheKey (profileID modelID : string) : string := profileID +:+ nul +:+ modelID.

(** The record, and whether it may be used without a refresh. *)
Definition cache_Get (now : Z) (c : Cache) (profileID modelID : string) : option ProviderCapabilities * bool :=
  match c !! cacheKey profileID modelID with
  | None => (None, false)
  | Some e => if negb (ce_version e =? CapabilitySchemaVersion) then (None, false)
              else (Some (ce_caps e), now - ce_fetchedAt e <=? cacheTTL)
  end.

Definition cache_Put (now : Z) (c : Cache) (profileID modelID : string) (caps : ProviderCapabilities) : Cache :=
  <[cacheKey profileID modelID := {| ce_caps := caps; ce_fetchedAt := now; ce_version := CapabilitySchemaVersion |}]> c.

Definition cache_Invalidate (c : Cache) (profileID : string) : Cache :=
  filter (fun kv => HasPrefix kv.1 (profileID +:+ nul) = false) c.

Definition cache_InvalidateSchemaVersion (c : Cache) : Cache := filter (fun kv => ce_version kv.2 = CapabilitySchemaVersion) c.

(** * Background refresh *)

(** A refresh has yet to read its profile, is waiting for the probe of an endpoint, has its
    answer to store, or has stored it and must leave the table of running refreshes. *)
Inductive phase := TStart | TProbing (kind endpoint : string) | TPut (caps : ProviderCapabilities) | TEnd.
Record task := { tk_Profile : string; tk_Model : string; tk_Phase : phase }.

Definition tk_key (t : task) : string := cacheKey (tk_Profile t) (tk_Model t).
Definition at_phase (t : task) (p : phase) : task := {| tk_Profile := tk_Profile t; tk_Model := tk_Model t; tk_Phase := p |}.

(** [w_Probes] are the adapter kinds that can probe. *)
Record world := { w_Profiles : Profiles; w_Probes : gset string; w_Cache : Cache; w_InFlight : gset string; w_Tasks : list task; w_Now : Z }.

Definition set_w (w : world) (p : Profiles) (c : Cache) (f : gset string) (ts : list task) : world :=
  {| w_Profiles := p; w_Probes := w_Probes w; w_Cache := c; w_InFlight := f; w_Tasks := ts; w_Now := w_Now w |}.

Inductive action :=
| ALoad (profs : list ProviderProfile)
| AMerge (profs : list ProviderProfile)
| AEvict (id : string)
| AMaybeRefresh (profileID modelID : string)
| ATask (i : nat) (answer : option ProviderCapabilities)
| ATick (ms : nat).

Definition Evict (w : world) (id : string) : world :=
  set_w w (delete id (w_Profiles w)) (cache_Invalidate (w_Cache w) id) (w_InFlight w) (w_Tasks w).

Definition MaybeRefresh (w : world) (profileID modelID : string) : world :=
  let '(_, fresh) := cache_Get (w_Now w) (w_Cache w) profileID modelID in
  if fresh then w
  else
    let key := cacheKey profileID modelID in
    if bool_decide (key ∈ w_InFlight w) then w
    else set_w w (w_Profiles w) (w_Cache w) ({[key]} ∪ w_InFlight w)
           (w_Tasks w ++ [{| tk_Profile := profileID; tk_Model := modelID; tk_Phase := TStart |}]).

(** The refresh's next step; [answer] is the probe's, when it is waiting for one.  The
    profile is read under the lock, before the probe. *)
Definition task_step (w : world) (i : nat) (answer : option ProviderCapabilities) : world :=
  match w_Tasks w !! i with
  | None => w
  | Some t =>
      let to p := set_w w (w_Profiles w) (w_Cache w) (w_InFlight w) (<[i := at_phase t p]> (w_Tasks w)) in
      match tk_Phase t with
      | TStart =>
          match w_Profiles w !! tk_Profile t with
          | Some prof => if bool_decide (pf_Kind prof ∈ w_Probes w) then to (TProbing (pf_Kind prof) (pf_Endpoint prof)) else to TEnd
          | None => to TEnd
          end
      | TProbing _ _ => match answer with Some caps => to (TPut caps) | None => to TEnd end
      | TPut caps =>
          set_w w (w_Profiles w) (cache_Put (w_Now w) (w_Cache w) (tk_Profile t) (tk_Model t) caps) (w_InFlight w) (<[i := at_phase t TEnd]> (w_Tasks w))
      | TEnd => set_w w (w_Profiles w) (w_Cache w) (w_InFlight w ∖ {[tk_key t]}) (delete i (w_Tasks w))
      end
  end.

Definition step (w : world) (a : action) : world :=
  match a with
  | ALoad profs => match LoadProfiles profs (w_Profiles w) with Some p => set_w w p (w_Cache w) (w_InFlight w) (w_Tasks w) | None => w end
  | AMerge profs => match MergePersonalProfiles profs (w_Profiles w) with Some p => set_w w p (w_Cache w) (w_InFlight w) (w_Tasks w) | None => w end
  | AEvict id => Evict w id
  | AMaybeRefresh p m => MaybeRefresh w p m
  | ATask i answer => task_step w i answer
  | ATick ms => {| w_Profiles := w_Profiles w; w_Probes := w_Probes w; w_Cache := w_Cache w; w_InFlight := w_InFlight w; w_Tasks := w_Tasks w;
                   w_Now := w_Now w + Z.of_nat ms |}
  end.

Definition steps (w : world) (l : list action) : world := fold_left step l w.

Definition start_world (probes : gset string) : world :=
  {| w_Profiles := ∅; w_Probes := probes; w_Cache := ∅; w_InFlight := ∅; w_Tasks := []; w_Now := 0 |}.
