(* ===== verification/ModelRegProps.v ===== *)
(** Theorems on the profile table and the capability cache: the invariant of every
    interleaving of registry operations and refreshes, what evicting a profile forgets,
    and the refresh that outlives it. *)
From S2P Require Import Prelude GoString ModelErr Catalog ModelGates ModelReg.
Local Open Scope Z_scope.

(** * Lists of keys *)

Lemma delete_set `{Countable A} (l : list A) i x : NoDup l -> l !! i = Some x -> (list_to_set (delete i l) : gset A) = list_to_set l ∖ {[x]}.
Proof.
  revert i. induction l as [|a l IH]; intros i Hn Hi; [done|]. apply NoDup_cons in Hn as [Ha Hn].
  destruct i as [|i]; cbn in Hi; [simplify_eq; cbn [delete list_delete]; rewrite list_to_set_cons; set_solver|].
  change (delete (S i) (a :: l)) with (a :: delete i l). rewrite !list_to_set_cons, (IH i Hn Hi). apply list_elem_of_lookup_2 in Hi. set_solver.
Qed.

Lemma fmap_delete {A B} (f : A -> B) (l : list A) (i : nat) : f <$> delete i l = delete i (f <$> l).
Proof. revert i. induction l as [|x l IH]; intros [|i]; cbn; [done..|]. f_equal. apply IH. Qed.

Lemma NoDup_delete {A} (l : list A) i : NoDup l -> NoDup (delete i l).
Proof. intros H. by apply (sublist_NoDup _ l), sublist_delete. Qed.

(** * The invariant *)

(** Every profile of the table was validated and stands under its own id; the table of
    running refreshes is the keys of the tasks, each once. *)
Definition profiles_ok (t : Profiles) : Prop := forall id p, t !! id = Some p -> pf_ID p = id /\ ValidateProfile p = true.
Definition world_ok (w : world) : Prop :=
  profiles_ok (w_Profiles w) /\ NoDup (tk_key <$> w_Tasks w) /\ w_InFlight w = list_to_set (tk_key <$> w_Tasks w).

Lemma install_ok profs t : forallb ValidateProfile profs = true -> profiles_ok t -> profiles_ok (install profs t).
Proof.
  unfold install. revert t. induction profs as [|p profs IH]; intros t; cbn; [done|]. intros [Hp Hps]%andb_true_iff Ht. apply IH; [done|].
  intros id q [[<- <-]|[_ Hq]]%lookup_insert_Some; [done|by apply Ht].
Qed.

Lemma merge_ok profs t t' : MergePersonalProfiles profs t = Some t' -> profiles_ok t -> profiles_ok t'.
Proof.
  unfold MergePersonalProfiles. destruct (forallb _ _) eqn:E; [|done]. intros; simplify_eq. revert t H0 E.
  induction profs as [|p profs IH]; intros t Ht; cbn; [done|]. intros [Hp Hps]%andb_true_iff. apply IH; [|done].
  destruct (is_some _); [done|]. intros id q [[<- <-]|[_ Hq]]%lookup_insert_Some; [done|by apply Ht].
Qed.

Lemma load_ok profs t t' : LoadProfiles profs t = Some t' -> profiles_ok t -> profiles_ok t'.
Proof. unfold LoadProfiles. case_if; [|done]. intros; simplify_eq. apply install_ok; [|done]. by apply andb_true_iff in Heqb as [[? _]%andb_true_iff _]. Qed.

Lemma keys_at (ts : list task) i t ph : ts !! i = Some t -> tk_key <$> <[i := at_phase t ph]> ts = tk_key <$> ts.
Proof. intros Hi. rewrite list_fmap_insert. apply list_insert_id. by rewrite list_lookup_fmap, Hi. Qed.

Lemma task_step_ok w i answer : world_ok w -> world_ok (task_step w i answer).
Proof.
  intros (Hp & Hn & Hf). unfold task_step. destruct (w_Tasks w !! i) as [t|] eqn:Hi; [|done].
  destruct (tk_Phase t); repeat case_match; unfold world_ok; cbn; rewrite ?(keys_at _ _ _ _ Hi); try done.
  assert (Hk : (tk_key <$> w_Tasks w) !! i = Some (tk_key t)) by (by rewrite list_lookup_fmap, Hi).
  rewrite fmap_delete. split; [done|]. split; [by apply NoDup_delete|]. rewrite Hf. symmetry. by apply delete_set.
Qed.

Lemma step_ok w a : world_ok w -> world_ok (step w a).
Proof.
  intros (Hp & Hn & Hf). destruct a as [profs|profs|id|p m|i answer|ms]; cbn [step].
  - destruct (LoadProfiles _ _) eqn:E; [|done]. split; [by eapply load_ok|done].
  - destruct (MergePersonalProfiles _ _) eqn:E; [|done]. split; [by eapply merge_ok|done].
  - split; [|done]. intros id1 q Hq. cbn in Hq. apply lookup_delete_Some in Hq as [_ Hq]. by apply Hp.
  - unfold MaybeRefresh. destruct (cache_Get _ _ _ _) as [_ []]; [done|]. case_bool_decide as HK; [done|].
    unfold world_ok; cbn. rewrite fmap_app. split; [done|]. split.
    + apply NoDup_app. split; [done|]. split; [|by apply NoDup_singleton]. intros x Hx Hx'. cbn in Hx'. apply list_elem_of_singleton in Hx' as ->.
      apply HK. rewrite Hf. by apply elem_of_list_to_set.
    + rewrite list_to_set_app_L, Hf. cbn. unfold tk_key at 3. cbn. set_solver.
  - by apply task_step_ok.
  - done.
Qed.

(** C19: however the loads, merges, evictions and the steps of the background refreshes
    interleave, every profile of the table is a validated one under its own id, at most one
    refresh runs for a profile and model, and the table of running refreshes lists exactly
    those. *)
Theorem registry_invariant probes l : world_ok (steps (start_world probes) l).
Proof.
  assert (H : forall w, world_ok w -> world_ok (steps w l)).
  { unfold steps. induction l as [|a l IH]; intros w Hw; [done|]. cbn. apply IH. by apply step_ok. }
  apply H. split; [|by split; [apply NoDup_nil_2|]]. intros id p Hl. exfalso. exact (lookup_empty_Some (M:=gmap string) id p Hl).
Qed.

(** * Evicting *)

Lemma key_prefix id id' m : nul_free id -> nul_free id' -> HasPrefix (cacheKey id' m) (id +:+ nul) = true <-> id' = id.
Proof.
  intros Hn Hn'. rewrite HasPrefix_spec. unfold cacheKey. split.
  - intros [k Hk]. rewrite append_assoc in Hk. by apply nul_cut in Hk as [-> _].
  - intros ->. exists m. by rewrite append_assoc.
Qed.

Lemma Invalidate_lookup (c : Cache) id k : cache_Invalidate c id !! k = if HasPrefix k (id +:+ nul) then None else c !! k.
Proof.
  unfold cache_Invalidate. destruct (HasPrefix k (id +:+ nul)) eqn:E.
  - apply map_lookup_filter_None. right. intros x _. cbn. by rewrite E.
  - destruct (c !! k) as [e|] eqn:Ek; [by apply map_lookup_filter_Some|apply map_lookup_filter_None; by left].
Qed.

(** Evicting a profile forgets what the cache held for it, for every model, and
    nothing of another profile. *)
Theorem evict_forgets_its_profile_only w id id' m :
  nul_free id -> nul_free id' ->
  cache_Get (w_Now w) (w_Cache (Evict w id)) id' m = if decide (id' = id) then (None, false) else cache_Get (w_Now w) (w_Cache w) id' m.
Proof.
  intros Hn Hn'. unfold cache_Get. cbn [Evict set_w w_Cache w_Now]. rewrite Invalidate_lookup.
  pose proof (key_prefix id id' m Hn Hn') as HK. case_decide as Hid; destruct (HasPrefix _ _); naive_solver.
Qed.

(** A refresh that was probing when its profile was evicted is not stopped: when the
    profile is loaded again, with whatever endpoint, and the old probe answers, the answer
    is in the cache under the new profile as a fresh record. *)
Theorem evicted_probe_returns w i t kind endpoint p caps :
  w_Tasks w !! i = Some t -> tk_Phase t = TProbing kind endpoint -> tk_Profile t = pf_ID p -> ValidateProfile p = true ->
  let w' := steps w [AEvict (pf_ID p); ALoad [p]; ATask i (Some caps); ATask i None] in
  w_Profiles w' !! pf_ID p = Some p /\ cache_Get (w_Now w') (w_Cache w') (pf_ID p) (tk_Model t) = (Some caps, true).
Proof.
  intros Hi Hph Hid Hp. cbn [steps fold_left step].
  assert (HL : LoadProfiles [p] (w_Profiles (Evict w (pf_ID p))) = Some (<[pf_ID p := p]> (w_Profiles (Evict w (pf_ID p))))).
  { unfold LoadProfiles. cbn [map forallb]. rewrite Hp, bool_decide_eq_true_2 by apply NoDup_singleton.
    assert (HD : w_Profiles (Evict w (pf_ID p)) !! pf_ID p = None) by apply (lookup_delete_eq (M:=gmap string)). by rewrite HD. }
  rewrite HL. set (w1 := set_w _ _ _ _ _).
  assert (H1 : task_step w1 i (Some caps) = set_w w1 (w_Profiles w1) (w_Cache w1) (w_InFlight w1) (<[i := at_phase t (TPut caps)]> (w_Tasks w1))).
  { unfold task_step. change (w_Tasks w1) with (w_Tasks w). by rewrite Hi, Hph. }
  rewrite H1. set (w2 := set_w w1 _ _ _ _). assert (H2 : w_Tasks w2 !! i = Some (at_phase t (TPut caps))).
  { apply list_lookup_insert_eq. by eapply lookup_lt_Some. }
  unfold task_step. rewrite H2. cbn [tk_Phase at_phase]. split; [apply lookup_insert_eq|].
  unfold cache_Get, cache_Put. cbn [set_w w_Cache w_Now tk_Profile tk_Model at_phase]. rewrite Hid, lookup_insert_eq. cbn.
  f_equal. apply Z.leb_le. unfold cacheTTL. lia.
Qed.

Definition demo_profile (endpoint : string) : ProviderProfile :=
  {| pf_ID := "local"; pf_Kind := "ollama"; pf_Model := "m"; pf_Models := []; pf_Cred := {| cr_Kind := "env"; cr_Locator := "KEY"; cr_Source := ""; cr_CredentialID := "" |};
     pf_Region := ""; pf_Endpoint := endpoint; pf_CapabilityHints := ∅; pf_AuthSchemeDefault := ""; pf_Retry := None; pf_GeminiEndpointKind := "";
     pf_Project := ""; pf_AuthScheme := "" |}.

Definition caps_of_old_host : ProviderCapabilities :=
  {| pc_Provider := "ollama"; pc_Model := "m"; pc_Flags := <["vision" := true]> ∅; pc_Reasoning_ := ReasoningNone; pc_ContextWindow := 0;
     pc_MaxOutputTokens := 0; pc_Probed := ["vision"] |}.

Definition probing_world : world := steps (start_world {["ollama"]}) [ALoad [demo_profile "http://old"]; AMaybeRefresh "local" "m"; ATask 0 None].

(** The new endpoint answers with what the old one can do. *)
Lemma evicted_probe_returns_witness :
  exists t, w_Tasks probing_world !! O = Some t /\ tk_Phase t = TProbing "ollama" "http://old" /\
    let w' := steps probing_world [AEvict "local"; ALoad [demo_profile "http://new"]; ATask 0 (Some caps_of_old_host); ATask 0 None] in
    w_Profiles w' !! "local" = Some (demo_profile "http://new") /\ cache_Get (w_Now w') (w_Cache w') "local" "m" = (Some caps_of_old_host, true).
Proof.
  exists {| tk_Profile := "local"; tk_Model := "m"; tk_Phase := TProbing "ollama" "http://old" |}.
  assert (H1 : w_Tasks probing_world !! O = Some {| tk_Profile := "local"; tk_Model := "m"; tk_Phase := TProbing "ollama" "http://old" |}) by (by vm_compute).
  assert (H2 : ValidateProfile (demo_profile "http://new") = true) by (by vm_compute).
  split; [exact H1|]. split; [reflexivity|].
  exact (evicted_probe_returns probing_world 0 _ "ollama" "http://old" (demo_profile "http://new") caps_of_old_host H1 eq_refl eq_refl H2).
Defined.

Lemma evict_forgets_its_profile_only_witness :
  nul_free "local" /\
  let w := steps probing_world [ATask 0 (Some caps_of_old_host); ATask 0 None] in
  cache_Get (w_Now w) (w_Cache w) "local" "m" = (Some caps_of_old_host, true) /\ cache_Get (w_Now w) (w_Cache (Evict w "local")) "local" "m" = (None, false).
Proof.
  assert (H : nul_free "local") by (unfold nul_free; apply (bool_decide_unpack _); by vm_compute).
  split; [exact H|]. cbv zeta. split; [by vm_compute|].
  rewrite (evict_forgets_its_profile_only _ "local" "local" "m" H H). by rewrite decide_True.
Defined.

(** * Loading *)

(** A batch of profiles is loaded as a whole or not at all, and neither loading nor
    merging replaces a profile that is there; loading refuses an id that is. *)
Theorem loading_never_replaces profs t id p :
  t !! id = Some p ->
  (forall t', LoadProfiles profs t = Some t' -> t' !! id = Some p /\ id ∉ map pf_ID profs) /\
  (forall t', MergePersonalProfiles profs t = Some t' -> t' !! id = Some p).
Proof.
  intros Ht. split; intros t'.
  - unfold LoadProfiles. case_if; [|done]. intros; simplify_eq. apply andb_true_iff in Heqb as [_ HF]. rewrite forallb_forall in HF.
    assert (Hni : id ∉ map pf_ID profs).
    { intros (q & -> & Hq)%list_elem_of_fmap. specialize (HF q). rewrite Ht in HF. by apply list_elem_of_In in Hq; apply HF in Hq. }
    split; [|done]. unfold install. clear HF. revert t Ht. induction profs as [|q profs IH]; intros t Ht; [done|]. cbn in Hni |- *.
    apply not_elem_of_cons in Hni as [Hq Hni]. apply IH; [done|]. by rewrite lookup_insert_ne.
  - unfold MergePersonalProfiles. case_if; [|done]. intros; simplify_eq. clear Heqb. revert t Ht. induction profs as [|q profs IH]; intros t Ht; [done|].
    cbn. apply IH. destruct (t !! pf_ID q) as [|] eqn:Eq; cbn; [done|]. rewrite lookup_insert_ne; [done|]. intros Hid. rewrite Hid in Eq. by rewrite Ht in Eq.
Qed.

Lemma loading_never_replaces_witness :
  let t := install [demo_profile "http://a"] ∅ in
  t !! "local" = Some (demo_profile "http://a") /\ LoadProfiles [demo_profile "http://b"] t = None /\
  (forall t', MergePersonalProfiles [demo_profile "http://b"] t = Some t' -> t' !! "local" = Some (demo_profile "http://a")).
Proof.
  cbv zeta. assert (H : install [demo_profile "http://a"] ∅ !! "local" = Some (demo_profile "http://a")) by (by vm_compute).
  split; [exact H|]. split; [by vm_compute|]. exact (proj2 (loading_never_replaces [demo_profile "http://b"] _ "local" _ H)).
Defined.
