(* ===== verification/ModelCall.v ===== *)
(** One model request from the chat adapter to the providers: the retry middleware and its
    backoff (core/llm/retry), the registry's pipeline and the audited stream
    (core/llm/registry), the fallback runner and its resolver (core/llm/fallback), and the
    stream retry and the draining of the chat adapter's Generate
    (core/rpc/views/agentgraph/chat/llm_provider_adapter.go).  The providers, the context,
    timers, the random source, the policy engine, the keychain and the audit sink are the
    environment these programs ask.  A stream an adapter has opened is the list of its
    events with its final answer.  Tracing, logging, costs and per-chunk audit are left out. *)
From S2P Require Import Prelude GoString ModelErr Io Catalog ModelGates ModelReg.
Local Open Scope Z_scope.

(** * Streams *)

Inductive StreamEvent :=
| SEText (text : string) | SETool (id name : string) | SEReasoning (text : string) | SEUsage (tokens : Z) | SEFinish (reason : string)
| SEError (msg : string) | SEImage (data : string).

Record Usage := { us_Input : Z; us_Output : Z; us_CachedRead : Z; us_CachedWrite : Z }.
(** A tool call is id, name and arguments. *)
Record Response := {
  resp_Content : list ContentBlock; resp_ToolCalls : list (string * string * string); resp_FinishReason : string; resp_Usage : Usage;
  resp_Attempts : nat
}.
Record RawStream := { rs_events : list StreamEvent; rs_final : result Response llm_err }.

(** * What the programs ask *)

Inductive audit :=
| AuCapabilityRejected (capabilities : list string) | AuError (e : llm_err) | AuPolicyDenied (e : llm_err) | AuRequestSubmitted
| AuRetryAttempted (attempt : nat) (plannedMS actualMS : Z) (e : llm_err) | AuResponseFinal (r : Response).

Inductive ev : Type -> Type :=
| Dispatch (r : GenerationRequest) (p : ProviderProfile) (cred : option string) : ev (result RawStream llm_err)
| CtxErr : ev (option llm_err)
| Sleep (ns : Z) : ev (option llm_err)
| FullJitter (plannedMS : Z) : ev Z
| TenPercent (delayNS : Z) : ev Z
| PolicyAllow (r : GenerationRequest) (p : ProviderProfile) : ev (option llm_err)
| ResolveCred (id : string) (ref : CredentialReference) : ev (result string llm_err)
| Emit (a : audit) : ev unit
| Refresh (profileID modelID : string) : ev unit
| CheckReply (schema text : string) : ev (option string)
| FallbackPolicy (chainID : string) : ev (option llm_err)
| FallbackAttempted (toProfile toModel : string) (reason : TriggerCondition) (attempt : nat) : ev unit
| FallbackBlocked (chainID : string) : ev unit
| StoreGet (chainID : string) : ev (result (option Chain) llm_err)
| SessionDefault (sessionID : string) : ev (result string llm_err)
| AppDefault : ev (result string llm_err)
| Bundled : ev (result (list Chain) llm_err)
| Deliver (e : StreamEvent) : ev unit.

Definition prog : Type -> Type := io ev.

(** * Retry policies (retry/policy.go) *)

Record Policy := { po_MaxAttempts : Z; po_BaseMS : Z; po_MaxMS : Z; po_Full : bool }.

Definition FromLLM (p : option RetryPolicy) : Policy :=
  match p with
  | None => {| po_MaxAttempts := 3; po_BaseMS := 250; po_MaxMS := 5000; po_Full := true |}
  | Some p => {| po_MaxAttempts := positive_or (rp_MaxAttempts p) 3; po_BaseMS := positive_or (rp_BaseMS p) 250;
                 po_MaxMS := positive_or (rp_MaxMS p) 5000;
                 po_Full := bool_decide (rp_Jitter p = "") || bool_decide (rp_Jitter p = "full") |}
  end.

(** Delays in nanoseconds; the jitter is ten per cent or none. *)
Record StreamPolicy := { sp_MaxAttempts : Z; sp_BaseDelay : Z; sp_Jitter : bool }.

Definition millisecond : Z := 1000000.
Definition StreamPolicyFromLLM (p : option RetryPolicy) : StreamPolicy :=
  let r := FromLLM p in {| sp_MaxAttempts := po_MaxAttempts r; sp_BaseDelay := int64 (po_BaseMS r * millisecond); sp_Jitter := po_Full r |}.

(** [StreamPolicy.apply] *)
Definition sp_apply (p : StreamPolicy) : StreamPolicy :=
  {| sp_MaxAttempts := if sp_MaxAttempts p <? 1 then 3 else sp_MaxAttempts p;
     sp_BaseDelay := if sp_BaseDelay p <=? 0 then 500 * millisecond else sp_BaseDelay p; sp_Jitter := sp_Jitter p |}.

(** * The retry middleware (retry/middleware.go) *)

(** [n] doublings are left. *)
Fixpoint backoff_loop (maxMS : Z) (n : nat) (delay : Z) : Z :=
  match n with
  | O => if (0 <? maxMS) && (maxMS <? delay) then maxMS else delay
  | S n => let delay := int64 (delay * 2) in if (0 <? maxMS) && (maxMS <=? delay) then maxMS else backoff_loop maxMS n delay
  end.
Definition computeBackoff (p : Policy) (attempt : nat) : Z := backoff_loop (po_MaxMS p) (attempt - 1) (po_BaseMS p).

Definition retryAfterMS (e : llm_err) : Z := match as_transient e with Some (_, _, ms) => if 0 <? ms then ms else 0 | None => 0 end.

(** [sleep] of the middleware and [sleepCtx]: nothing to wait for only looks at the context. *)
Definition sleep (ns : Z) : prog (option llm_err) := if ns <=? 0 then ask CtxErr else ask (Sleep ns).

(** The last answer of an exhausted budget is the error of the last attempt. *)
Fixpoint Run_from {T} (p : Policy) (fn : prog (result T llm_err)) (more attempt : nat) : prog (result (T * nat) llm_err) :=
  match more with
  | O => Ret (Err (ERetryBudgetExhausted (attempt - 1) None))
  | S more =>
      do! cancelled := ask CtxErr in
      match cancelled with
      | Some e => Ret (Err e)
      | None =>
          do! res := fn in
          match res with
          | Ok x => Ret (Ok (x, attempt))
          | Err e =>
              if negb (IsTransient e) then Ret (Err e)
              else
                let planned := computeBackoff p attempt in
                do! jittered := if po_Full p then ask (FullJitter planned) else Ret planned in
                let actual := Z.max (retryAfterMS e) jittered in
                run! ask (Emit (AuRetryAttempted attempt planned actual e));
                match more with
                | O => Ret (Err (ERetryBudgetExhausted attempt (Some e)))
                | S _ =>
                    do! woken := sleep (int64 (actual * millisecond)) in
                    match woken with Some e => Ret (Err e) | None => Run_from p fn more (S attempt) end
                end
          end
      end
  end.

Definition Run {T} (p : Policy) (fn : prog (result T llm_err)) : prog (result (T * nat) llm_err) :=
  Run_from p fn (Z.to_nat (Z.max 1 (po_MaxAttempts p))) 1.

(** * The registry's pipeline (registry/registry.go) *)

(** [ad_Volatile]: the adapter places the volatile part of the system prompt itself. *)
Record adapter := { ad_Volatile : bool; ad_Probes : bool }.
Record Registry := {
  rg_Catalog : Catalog; rg_Multimodal : bool; rg_Profiles : Profiles; rg_Adapters : gmap string adapter; rg_Cache : Cache; rg_Now : Z;
  rg_Resolver : bool; rg_NoRepair : bool
}.

(** The stream [Registry.Stream] returns. *)
Record AStream := { as_raw : RawStream; as_req : GenerationRequest; as_prof : ProviderProfile; as_cred : option string; as_policy : Policy; as_attempts : nat }.

Definition with_model (p : ProviderProfile) (model : string) (hints : gmap string bool) : ProviderProfile :=
  {| pf_ID := pf_ID p; pf_Kind := pf_Kind p; pf_Model := model; pf_Models := pf_Models p; pf_Cred := pf_Cred p; pf_Region := pf_Region p;
     pf_Endpoint := pf_Endpoint p; pf_CapabilityHints := hints; pf_AuthSchemeDefault := pf_AuthSchemeDefault p; pf_Retry := pf_Retry p;
     pf_GeminiEndpointKind := pf_GeminiEndpointKind p; pf_Project := pf_Project p; pf_AuthScheme := pf_AuthScheme p |}.

Definition hints_of (rg : Registry) (p : ProviderProfile) (model : string) : gmap string bool :=
  match cache_Get (rg_Now rg) (rg_Cache rg) (pf_ID p) model with
  | (Some cached, true) => mergeCapabilityHints (ProbedSupported cached) (pf_CapabilityHints p)
  | _ => pf_CapabilityHints p
  end.

Definition decorate (p : ProviderProfile) (e : llm_err) : llm_err :=
  match as_auth e with
  | Some (s, m) => EProviderAuthFailed (pf_Kind p) (pf_ID p) (pf_Model p) m (Some (EAuth s m))
  | None => match as_payment e with
            | Some (s, m) => EProviderPaymentRequired (pf_Kind p) (pf_ID p) (pf_Model p) m (EPaymentRequired s m)
            | None => e
            end
  end.

Definition fail_audited {A} (e : llm_err) : prog (result A llm_err) := run! ask (Emit (AuError e)); Ret (Err e).

(** The profile a request is sent with, or why it is not: the steps before the gates. *)
Definition resolve (rg : Registry) (r : GenerationRequest) : result (GenerationRequest * ProviderProfile * adapter) llm_err :=
  match rg_Profiles rg !! gr_ProfileID r with
  | None => Err (EMsg "llm: profile not registered")
  | Some prof =>
      match rg_Adapters rg !! pf_Kind prof with
      | None => Err (EMsg "llm: no adapter registered")
      | Some ad =>
          match ValidateToolCallIDs (gr_Messages r) with
          | Some e => Err e
          | None =>
              let r := if ad_Volatile ad then r else FoldSystemSegments r in
              let want := DispatchModel prof (gr_Model r) in
              if bool_decide (want ∈ AvailableModels prof) then Ok (r, with_model prof want (hints_of rg prof want), ad)
              else Err (EMsg "llm: model is not authorised for profile")
          end
      end
  end.

Definition policy_of (p : ProviderProfile) (r : GenerationRequest) : Policy :=
  FromLLM (match gr_RetryOverride r with Some o => Some o | None => pf_Retry p end).

Definition credential (rg : Registry) (p : ProviderProfile) : prog (result (option string) llm_err) :=
  if rg_Resolver rg && negb (IsZero (pf_Cred p)) then
    do! res := ask (ResolveCred (pf_ID p) (pf_Cred p)) in
    Ret (match res with Ok c => Ok (Some c) | Err e => Err e end)
  else Ret (Ok None).

(** Steps 5 to 7. *)
Definition submit (r : GenerationRequest) (prof : ProviderProfile) (cred : option string) : prog (result AStream llm_err) :=
  run! ask (Emit AuRequestSubmitted);
  do! res := Run (policy_of prof r) (ask (Dispatch r prof cred)) in
  match res with
  | Err e => fail_audited (decorate prof e)
  | Ok (raw, attempts) =>
      Ret (Ok {| as_raw := raw; as_req := r; as_prof := prof; as_cred := cred; as_policy := policy_of prof r; as_attempts := attempts |})
  end.

(** [Registry.Stream] *)
Definition Registry_Stream (rg : Registry) (r : GenerationRequest) : prog (result AStream llm_err) :=
  match resolve rg r with
  | Err e => Ret (Err e)
  | Ok (r, prof, ad) =>
      run! (if ad_Probes ad then ask (Refresh (pf_ID prof) (pf_Model prof)) else Ret tt);
      match gate_check (rg_Catalog rg) r (pf_Kind prof) (pf_Model prof) (pf_CapabilityHints prof) with
      | Some e => run! ask (Emit (AuCapabilityRejected (match e with ECapabilityUnsupported _ _ l => l | _ => [] end))); Ret (Err e)
      | None =>
      match CheckAttachments (rg_Multimodal rg) (rg_Catalog rg) r (pf_Kind prof) (pf_Model prof) (pf_CapabilityHints prof) with
      | Some e => Ret (Err e)
      | None =>
      match sanitize (DescribeRich (rg_Catalog rg) (pf_Kind prof) (pf_Model prof)) r with
      | Err e => fail_audited e
      | Ok r =>
          do! denied := ask (PolicyAllow r prof) in
          match denied with
          | Some e => run! ask (Emit (AuPolicyDenied e)); Ret (Err e)
          | None =>
              do! cred := credential rg prof in
              match cred with
              | Err e => fail_audited e
              | Ok cred => submit r prof cred
              end
          end
      end end end
  end.

(** [Message.Text]: the text blocks, a blank line between them. *)
Definition text_blocks (l : list ContentBlock) : list string :=
  omap (fun b => if (bool_decide (cb_Type b = "text") || bool_decide (cb_Type b = "")) && negb (bool_decide (cb_Text b = "")) then Some (cb_Text b) else None) l.
Definition blocks_text (l : list ContentBlock) : string := Join (text_blocks l) (nl +:+ nl).

Definition text_message (role text : string) : Message :=
  {| msg_Role := role; msg_Content := [{| cb_Type := "text"; cb_Text := text; cb_Source := None; cb_ToolUse := None; cb_ToolResult := None |}] |}.

Definition with_messages (r : GenerationRequest) (l : list Message) : GenerationRequest :=
  {| gr_ProfileID := gr_ProfileID r; gr_Model := gr_Model r; gr_System := gr_System r; gr_SystemVolatile := gr_SystemVolatile r;
     gr_Messages := l; gr_Tools := gr_Tools r; gr_Attachments := gr_Attachments r; gr_JSONMode := gr_JSONMode r;
     gr_Reasoning := gr_Reasoning r; gr_ResponseFormat := gr_ResponseFormat r; gr_ImageOutput := gr_ImageOutput r;
     gr_Params := gr_Params r; gr_RetryOverride := gr_RetryOverride r; gr_SessionID := gr_SessionID r; gr_Knobs := gr_Knobs r |}.

Definition json_format (r : GenerationRequest) : option ResponseFormat :=
  match gr_ResponseFormat r with
  | Some f => if bool_decide (fmt_Mode f = "json") || bool_decide (fmt_Mode f = "json_schema") then Some f else None
  | None => None
  end.

(** [structuredStream.Final] with [structured.WithRetry]: one corrective call.  Whether a
    reply fits the schema is the environment's answer. *)
Definition repair (norepair : bool) (s : AStream) (f : ResponseFormat) (resp : Response) : prog (result Response llm_err) :=
  do! verr := ask (CheckReply (fmt_Schema f) (blocks_text (resp_Content resp))) in
  match verr with
  | None => Ret (Ok resp)
  | Some v =>
      if fmt_Strict f || norepair then Ret (Err (EResponseValidationFailed (fmt_Mode f)))
      else
        let hint := "Your previous response was invalid: " +:+ v +:+ ". Please correct it and respond with valid JSON that matches the required schema." in
        let r2 := with_messages (as_req s) (gr_Messages (as_req s) ++ [{| msg_Role := "assistant"; msg_Content := resp_Content resp |}; text_message "user" hint]) in
        do! res := Run (as_policy s) (ask (Dispatch r2 (as_prof s) (as_cred s))) in
        match res with
        | Err e => Ret (Err e)
        | Ok (raw2, _) =>
            match rs_final raw2 with
            | Err e => Ret (Err e)
            | Ok resp2 =>
                do! verr2 := ask (CheckReply (fmt_Schema f) (blocks_text (resp_Content resp2))) in
                Ret (match verr2 with None => Ok resp2 | Some _ => Err (EResponseValidationFailed (fmt_Mode f)) end)
            end
        end
  end.

Definition with_attempts (r : Response) (n : nat) : Response :=
  {| resp_Content := resp_Content r; resp_ToolCalls := resp_ToolCalls r; resp_FinishReason := resp_FinishReason r; resp_Usage := resp_Usage r; resp_Attempts := n |}.

(** [auditedStream.Final], called once. *)
Definition Final (norepair : bool) (s : AStream) : prog (result Response llm_err) :=
  do! res := match rs_final (as_raw s) with
             | Err e => Ret (Err e)
             | Ok resp => match json_format (as_req s) with Some f => repair norepair s f resp | None => Ret (Ok resp) end
             end in
  match res with
  | Err e => fail_audited e
  | Ok resp => let resp := with_attempts resp (as_attempts s) in run! ask (Emit (AuResponseFinal resp)); Ret (Ok resp)
  end.

(** * Fallback (fallback/runner.go, resolver.go) *)

(** Which of the optional collaborators are there. *)
Record StoreResolver := { sr_Store : bool; sr_Session : bool; sr_App : bool }.
Record Runner := { rn_Resolver : StoreResolver; rn_Check : bool; rn_OnAttempt : bool; rn_OnBlocked : bool }.

(** [override] is the node's chain id, when its context carries one. *)
Definition resolveChainID (s : StoreResolver) (override sessionID : string) : prog (result string llm_err) :=
  if negb (bool_decide (override = "")) then Ret (Ok override)
  else
    do! session := if sr_Session s then ask (SessionDefault sessionID) else Ret (Ok "") in
    match session with
    | Err e => Ret (Err e)
    | Ok id => if negb (bool_decide (id = "")) then Ret (Ok id) else if sr_App s then ask AppDefault else Ret (Ok "")
    end.

Definition Resolve (s : StoreResolver) (override sessionID : string) : prog (result (option Chain) llm_err) :=
  do! id := resolveChainID s override sessionID in
  match id with
  | Err e => Ret (Err (EWrap "fallback.StoreResolver: resolving chain id" e))
  | Ok id =>
      if bool_decide (id = "") then Ret (Ok None)
      else
        do! stored := if sr_Store s then ask (StoreGet id) else Ret (Ok None) in
        match stored with
        | Err e => Ret (Err (EWrap "fallback.StoreResolver: store lookup" e))
        | Ok (Some c) => Ret (Ok (Some c))
        | Ok None =>
            do! bundled := ask Bundled in
            match bundled with
            | Err e => Ret (Err (EWrap "fallback.StoreResolver: load bundled" e))
            | Ok l => Ret (Ok (List.find (fun c => bool_decide (ch_ID c = id)) l))
            end
        end
  end.

Definition hop_request (r : GenerationRequest) (e : ChainEntry) : GenerationRequest :=
  {| gr_ProfileID := ce_ProviderID e; gr_Model := if bool_decide (ce_Model e = "") then gr_Model r else ce_Model e; gr_System := gr_System r;
     gr_SystemVolatile := gr_SystemVolatile r; gr_Messages := gr_Messages r; gr_Tools := gr_Tools r; gr_Attachments := gr_Attachments r;
     gr_JSONMode := gr_JSONMode r; gr_Reasoning := gr_Reasoning r; gr_ResponseFormat := gr_ResponseFormat r; gr_ImageOutput := gr_ImageOutput r;
     gr_Params := ce_ParamOverrides e ∪ gr_Params r; gr_RetryOverride := gr_RetryOverride r; gr_SessionID := gr_SessionID r;
     gr_Knobs := gr_Knobs r |}.

Definition exhausted {A} (c : Chain) (primary last_ : llm_err) (total : nat) : result A llm_err :=
  Err (if (MaxWholeChainAttempts <=? total)%nat then EFallbackExhausted (ch_ID c) total last_ else primary).

Fixpoint walk (stream : GenerationRequest -> prog (result AStream llm_err)) (rn : Runner) (c : Chain) (r : GenerationRequest) (primary last_ : llm_err)
    (total : nat) (entries : list ChainEntry) : prog (result AStream llm_err) :=
  match entries with
  | [] => Ret (exhausted c primary last_ total)
  | e :: entries =>
      if (MaxWholeChainAttempts <=? total)%nat then Ret (exhausted c primary last_ total)
      else
        match Match last_ (ce_Triggers e) with
        | None => walk stream rn c r primary last_ total entries
        | Some trigger =>
            do! denied := if rn_Check rn then ask (FallbackPolicy (ch_ID c)) else Ret None in
            match denied with
            | Some _ => run! (if rn_OnBlocked rn then ask (FallbackBlocked (ch_ID c)) else Ret tt); Ret (Err primary)
            | None =>
                run! (if rn_OnAttempt rn then ask (FallbackAttempted (ce_ProviderID e) (ce_Model e) trigger (S total)) else Ret tt);
                do! hop := stream (hop_request r e) in
                match hop with
                | Ok s => Ret (Ok s)
                | Err e' => walk stream rn c r primary e' (S total) entries
                end
            end
        end
  end.

(** [Runner.Stream] *)
Definition Runner_Stream (stream : GenerationRequest -> prog (result AStream llm_err)) (rn : Runner) (override : string) (r : GenerationRequest) :
    prog (result AStream llm_err) :=
  do! first := stream r in
  match first with
  | Ok s => Ret (Ok s)
  | Err primary =>
      do! chain := Resolve (rn_Resolver rn) override (gr_SessionID r) in
      match chain with
      | Ok (Some c) => walk stream rn c r primary primary 0 (ch_Entries c)
      | _ => Ret (Err primary)
      end
  end.

(** * Stream retry (retry/retry.go) *)

Fixpoint doubled (n : nat) (d : Z) : Z := match n with O => d | S n => doubled n (int64 (d * 2)) end.

Definition jitteredDelay (p : StreamPolicy) (attempt : nat) : prog Z :=
  let d := doubled (attempt - 1) (sp_BaseDelay p) in
  if sp_Jitter p then do! d := ask (TenPercent d) in Ret (Z.max 0 d) else Ret d.

Section Retry.
Context (fn : prog (result AStream llm_err)) (final : AStream -> prog (result Response llm_err)) (p : StreamPolicy).

(** Opening the first stream. *)
Fixpoint open_from (more attempt : nat) : prog (result AStream llm_err) :=
  match more with
  | O => Ret (Err (EMsg ""))
  | S more =>
      do! cancelled := ask CtxErr in
      match cancelled with
      | Some e => Ret (Err e)
      | None =>
          do! res := fn in
          match res with
          | Ok s => Ret (Ok s)
          | Err e =>
              if negb (IsTransient e) then Ret (Err e)
              else
                do! backoff := jitteredDelay p attempt in
                match more with
                | O => Ret (Err e)
                | S _ =>
                    do! woken := sleep backoff in
                    match woken with Some e => Ret (Err e) | None => open_from more (S attempt) end
                end
          end
      end
  end.

(** The stream a pump reads, or a stub that only fails. *)
Definition current : Type := AStream + llm_err.
Definition events_of (s : current) : list StreamEvent := match s with inl s => rs_events (as_raw s) | inr _ => [] end.
Definition final_of (s : current) : prog (result Response llm_err) := match s with inl s => final s | inr e => Ret (Err e) end.

(** What stops a restart: text or a tool event. *)
Definition is_content (e : StreamEvent) : bool := match e with SEText t => negb (bool_decide (t = "")) | SETool _ _ => true | _ => false end.

Fixpoint deliver (l : list StreamEvent) : prog unit := match l with [] => Ret tt | e :: l => run! ask (Deliver e); deliver l end.

Fixpoint pump (more attempt : nat) (s : current) : prog (result Response llm_err) :=
  match more with
  | O => Ret (Err (EMsg ""))
  | S more =>
      run! deliver (events_of s);
      do! res := final_of s in
      match res with
      | Ok r => Ret (Ok r)
      | Err e =>
          if negb (IsTransient e) then Ret (Err e)
          else if existsb is_content (events_of s) then Ret (Err e)
          else
            match more with
            | O => Ret (Err e)
            | S _ =>
                do! backoff := jitteredDelay p attempt in
                do! woken := sleep backoff in
                match woken with
                | Some e => Ret (Err e)
                | None =>
                    do! again := fn in
                    match again with
                    | Ok s => pump more (S attempt) (inl s)
                    | Err e => if negb (IsTransient e) then Ret (Err e) else pump more (S attempt) (inr e)
                    end
                end
            end
      end
  end.
End Retry.

Definition attempts_of (p : StreamPolicy) : nat := Z.to_nat (sp_MaxAttempts (sp_apply p)).

(** [RetryStream]: the opened stream. *)
Definition RetryStream (p : StreamPolicy) (fn : prog (result AStream llm_err)) : prog (result AStream llm_err) :=
  open_from fn (sp_apply p) (attempts_of p) 1.

(** Draining [Events] and calling [Final] of the stream [RetryStream] returned. *)
Definition drain (norepair : bool) (p : StreamPolicy) (fn : prog (result AStream llm_err)) (s : AStream) : prog (result Response llm_err) :=
  pump fn (Final norepair) (sp_apply p) (attempts_of p) 1 (inl s).

(** * Generate *)

Definition InputExcludesCache (kind : string) : bool := bool_decide (kind = "anthropic").
Definition PromptTokensTotal (u : Usage) (kind : string) : Z :=
  if InputExcludesCache kind then int64 (us_Input u + us_CachedRead u + us_CachedWrite u) else us_Input u.

Record LLMResponse := { lr_Content : string; lr_FinishReason : string; lr_TokensUsed : Z; lr_ToolCalls : list (string * string * string) }.

Definition to_llm (r : Response) (kind : string) : LLMResponse :=
  {| lr_Content := blocks_text (resp_Content r); lr_FinishReason := resp_FinishReason r;
     lr_TokensUsed := int64 (PromptTokensTotal (resp_Usage r) kind + us_Output (resp_Usage r)); lr_ToolCalls := resp_ToolCalls r |}.

(** The runner Generate builds has no policy check, no hooks and an empty resolver. *)
Definition production_runner : Runner :=
  {| rn_Resolver := {| sr_Store := false; sr_Session := false; sr_App := false |}; rn_Check := false; rn_OnAttempt := false; rn_OnBlocked := false |}.

Definition stream_fn (rg : Registry) (fallbackChainId : string) (gen : GenerationRequest) : prog (result AStream llm_err) :=
  if bool_decide (fallbackChainId = "") then Registry_Stream rg gen
  else Runner_Stream (Registry_Stream rg) production_runner fallbackChainId gen.

(** Generate from the finished request on. *)
Definition Generate (rg : Registry) (fallbackChainId : string) (gen : GenerationRequest) : prog (result LLMResponse llm_err) :=
  let retry := match rg_Profiles rg !! gr_ProfileID gen with Some p => pf_Retry p | None => None end in
  let kind := match rg_Profiles rg !! gr_ProfileID gen with Some p => pf_Kind p | None => "" end in
  let p := StreamPolicyFromLLM retry in
  let fn := stream_fn rg fallbackChainId gen in
  do! opened := RetryStream p fn in
  match opened with
  | Err e => Ret (Err (EWrap "chat: registry stream" e))
  | Ok s =>
      do! res := drain (rg_NoRepair rg) p fn s in
      Ret (match res with Err e => Err (EWrap "chat: stream final" e) | Ok r => Ok (to_llm r kind) end)
  end.
