(* ===== verification/ModelCallProps.v ===== *)
(** Theorems on a model request: how often the providers are called, what stands before
    every call, whose text is shown, which waiting is kept, what a fallback walk does, and
    what the user is told of a failure. *)
From S2P Require Import Prelude GoString Catalog ModelErr Io ModelGates ModelReg ModelCall.
From S2P Require Import CatalogProps.
Local Open Scope nat_scope.

(** * Reading runs *)

Definition sent_of (o : obs ev) : option (GenerationRequest * ProviderProfile * option string) :=
  match o with Obs e _ => match e with Dispatch r p c => Some (r, p, c) | _ => None end end.
Definition opened_of (o : obs ev) : option RawStream :=
  match o with
  | Obs e a =>
      match e in ev A return A -> option RawStream with
      | Dispatch _ _ _ => fun a => match a with Ok s => Some s | Err _ => None end
      | _ => fun _ => None
      end a
  end.
Definition shown_of (o : obs ev) : option StreamEvent := match o with Obs e _ => match e with Deliver x => Some x | _ => None end end.

Definition sent (t : list (obs ev)) : list (GenerationRequest * ProviderProfile * option string) := omap sent_of t.
Definition opened (t : list (obs ev)) : list RawStream := omap opened_of t.
Definition content (l : list StreamEvent) : list StreamEvent := List.filter is_content l.
Definition shown (t : list (obs ev)) : list StreamEvent := omap shown_of t.
Definition is_dispatch (o : obs ev) : bool := is_some (sent_of o).

(** * How many calls *)

Definition quiet (f : obs ev -> bool) : Prop :=
  (forall a, f (Obs CtxErr a) = false) /\ (forall d a, f (Obs (Sleep d) a) = false) /\ (forall d a, f (Obs (FullJitter d) a) = false) /\
  (forall d a, f (Obs (TenPercent d) a) = false) /\ (forall x a, f (Obs (Emit x) a) = false).

Lemma dispatch_quiet : quiet is_dispatch.
Proof. done. Qed.

Lemma sleep_at_most f ns : quiet f -> at_most f 0 (sleep ns).
Proof. intros Hq. unfold sleep. destruct (_ <=? 0)%Z; (apply at_most_vis; [apply Hq|intros; apply at_most_ret]). Qed.

Lemma run_from_at_most {T} f (p : Policy) (fn : prog (result T llm_err)) k n a : quiet f -> at_most f k fn -> at_most f (n * k) (Run_from p fn n a).
Proof.
  intros Hq Hfn. revert a. induction n as [|n IH]; intros a; cbn [Run_from]; [apply at_most_ret|].
  apply at_most_vis; [apply Hq|]. intros [e|]; [apply at_most_ret|]. apply at_most_bind; [done|]. intros [x|e]; [apply at_most_ret|].
  destruct (negb _); [apply at_most_ret|]. apply at_most_bind0.
  { destruct (po_Full p); [apply at_most_vis; [apply Hq|intros; apply at_most_ret]|apply at_most_ret]. }
  intros j. apply at_most_vis; [intros; apply Hq|]. intros _. destruct n as [|n]; [apply at_most_ret|].
  apply at_most_bind0; [by apply sleep_at_most|]. intros [w|]; [apply at_most_ret|apply IH].
Qed.

Definition tries (p : Policy) : nat := Z.to_nat (Z.max 1 (po_MaxAttempts p)).

Lemma dispatch_run_at_most p r prof cred : at_most is_dispatch (tries p) (Run p (ask (Dispatch r prof cred))).
Proof. unfold Run, tries. eapply at_most_le; [apply (run_from_at_most _ _ _ 1); [done|apply at_most_ask]|lia]. Qed.

(** A limit on the attempts of the middleware for every profile. *)
Definition attempts_within (rg : Registry) (override : option RetryPolicy) (n : nat) : Prop :=
  forall id p, rg_Profiles rg !! id = Some p -> tries (FromLLM (match override with Some o => Some o | None => pf_Retry p end)) <= n.

(** What an opened stream remembers of its request. *)
Definition stream_of (r : GenerationRequest) (n : nat) (s : AStream) : Prop := tries (as_policy s) <= n /\ json_format (as_req s) = json_format r.

Lemma resolve_keeps rg r r1 prof ad : resolve rg r = Ok (r1, prof, ad) ->
  json_format r1 = json_format r /\ gr_RetryOverride r1 = gr_RetryOverride r /\ gr_Messages r1 = gr_Messages r /\
  exists p0, rg_Profiles rg !! gr_ProfileID r = Some p0 /\ pf_Retry prof = pf_Retry p0 /\ pf_Model prof ∈ AvailableModels p0 /\
    ValidateToolCallIDs (gr_Messages r) = None /\ rg_Adapters rg !! pf_Kind prof = Some ad.
Proof.
  unfold resolve. destruct (rg_Profiles rg !! _) as [p0|]; [|done]. destruct (rg_Adapters rg !! pf_Kind p0) as [ad0|] eqn:EA; [|done].
  destruct (ValidateToolCallIDs _) eqn:EV; [done|]. case_bool_decide as HM; [|done]. intros; inv_ok.
  assert (HF : forall r, json_format (FoldSystemSegments r) = json_format r /\ gr_RetryOverride (FoldSystemSegments r) = gr_RetryOverride r /\
                 gr_Messages (FoldSystemSegments r) = gr_Messages r).
  { intros r0. unfold FoldSystemSegments. by case_bool_decide. }
  destruct (HF r) as (H1 & H2 & H3). destruct (ad_Volatile ad); (split; [done|split; [done|split; [done|]]]); exists p0; done.
Qed.

Lemma sanitize_keeps caps r r' : sanitize caps r = Ok r' ->
  json_format r' = json_format r /\ gr_RetryOverride r' = gr_RetryOverride r /\ gr_Messages r' = gr_Messages r.
Proof.
  unfold sanitize. destruct (mergeRequestKnobs _ _) as [k|]; [|by intros; inv_ok].
  destruct (Apply caps k) as [[cl d]|]; cbn [rbind]; [|done]. by intros; inv_ok.
Qed.

Lemma fail_at_most {A} f e : quiet f -> at_most f 0 (fail_audited (A:=A) e).
Proof. intros Hq. apply at_most_vis; [intros; apply Hq|]. intros _. apply at_most_ret. Qed.

Lemma credential_at_most rg p : at_most is_dispatch 0 (credential rg p).
Proof. unfold credential. destruct (_ && _); [apply at_most_vis; [done|intros]|]; apply at_most_ret. Qed.

Lemma submit_at_most r prof cred : at_most is_dispatch (tries (policy_of prof r)) (submit r prof cred).
Proof.
  unfold submit. apply at_most_vis; [done|]. intros _. rewrite <- (Nat.add_0_r (tries _)). apply at_most_bind.
  - apply dispatch_run_at_most.
  - intros [[raw n]|e]; [apply at_most_ret|]. by apply fail_at_most.
Qed.

Lemma policy_within rg r r1 r2 prof ad n caps :
  resolve rg r = Ok (r1, prof, ad) -> sanitize caps r1 = Ok r2 -> attempts_within rg (gr_RetryOverride r) n ->
  tries (policy_of prof r2) <= n /\ json_format r2 = json_format r.
Proof.
  intros HR HS Hn. destruct (resolve_keeps _ _ _ _ _ HR) as (H1 & H2 & _ & p0 & H3 & H4 & _).
  destruct (sanitize_keeps _ _ _ HS) as (H5 & H6 & _). split; [|congruence]. unfold policy_of. rewrite H6, H2, H4. by eapply Hn.
Qed.

Lemma submit_returns r prof cred : returns (fun res => forall s, res = Ok s -> as_policy s = policy_of prof r /\ as_req s = r) (submit r prof cred).
Proof.
  unfold submit. eapply returns_bind; [apply returns_any|]. intros _ _. eapply returns_bind; [apply returns_any|].
  intros [[raw n]|e] _; [|eapply returns_bind; [apply returns_any|intros _ _]]; apply returns_ret; intros; by inv_ok.
Qed.

Lemma stream_calls rg r n : attempts_within rg (gr_RetryOverride r) n ->
  at_most is_dispatch n (Registry_Stream rg r) /\ returns (fun res => forall s, res = Ok s -> stream_of r n s) (Registry_Stream rg r).
Proof.
  intros Hn. unfold Registry_Stream. destruct (resolve rg r) as [[[r1 prof] ad]|e] eqn:HR; [|split; [apply at_most_ret|by apply returns_ret]].
  assert (Hp : at_most is_dispatch 0 (if ad_Probes ad then ask (Refresh (pf_ID prof) (pf_Model prof)) else Ret tt)).
  { destruct (ad_Probes ad); [apply at_most_vis; [done|intros]|]; apply at_most_ret. }
  assert (HE : forall e, returns (fun res => forall s, res = Ok s -> stream_of r n s) (fail_audited (A:=AStream) e)).
  { intros e. eapply returns_bind; [apply returns_any|intros _ _]. apply returns_ret. done. }
  assert (HF : forall m e, at_most is_dispatch m (fail_audited (A:=AStream) e)) by (intros m e; eapply at_most_le; [by apply fail_at_most|lia]).
  assert (H0 : forall m x, at_most is_dispatch m (Ret (E:=ev) (R:=result AStream llm_err) x)) by (intros; apply at_most_ret).
  split.
  - apply at_most_bind0; [done|]. intros _. destruct (gate_check _ _ _ _ _); [by apply at_most_vis|].
    destruct (CheckAttachments _ _ _ _ _ _); [apply H0|]. destruct (sanitize _ r1) as [r2|e] eqn:HS; [|apply HF].
    apply at_most_vis; [done|]. intros [e|]; [by apply at_most_vis|]. apply at_most_bind0; [apply credential_at_most|].
    intros [c|e]; [|apply HF]. eapply at_most_le; [apply submit_at_most|]. by apply (policy_within _ _ _ _ _ _ _ _ HR HS Hn).
  - eapply returns_bind; [apply returns_any|]. intros _ _.
    destruct (gate_check _ _ _ _ _); [eapply returns_bind; [apply returns_any|intros; by apply returns_ret]|].
    destruct (CheckAttachments _ _ _ _ _ _); [by apply returns_ret|]. destruct (sanitize _ r1) as [r2|e] eqn:HS; [|apply HE].
    eapply returns_bind; [apply returns_any|]. intros [e|] _; [eapply returns_bind; [apply returns_any|intros; by apply returns_ret]|].
    eapply returns_bind; [apply returns_any|]. intros [c|e] _; [|apply HE]. eapply ensures_weaken; [apply submit_returns|].
    intros t0 res H s Hs. destruct (H s Hs) as [H1 H2]. destruct (policy_within _ _ _ _ _ _ _ _ HR HS Hn). unfold stream_of. by rewrite H1, H2.
Qed.

(** The calls a repair may add. *)
Definition repairs (r : GenerationRequest) (n : nat) : nat := match json_format r with Some _ => n | None => 0 end.

Lemma final_at_most norepair r n s : stream_of r n s -> at_most is_dispatch (repairs r n) (Final norepair s).
Proof.
  intros [Hn Hj]. unfold Final. rewrite Hj. unfold repairs. rewrite <- (Nat.add_0_r (match _ with Some _ => _ | None => _ end)).
  apply at_most_bind.
  - destruct (rs_final (as_raw s)) as [resp|e]; [|apply at_most_ret]. destruct (json_format r) as [f|]; [|apply at_most_ret].
    unfold repair. apply at_most_vis; [done|]. intros [v|]; [|apply at_most_ret].
    destruct (_ || _); [apply at_most_ret|]. cbv zeta. rewrite <- (Nat.add_0_r n). apply at_most_bind.
    + eapply at_most_le; [apply dispatch_run_at_most|done].
    + intros [[raw2 k]|e]; [|apply at_most_ret]. destruct (rs_final raw2); [apply at_most_vis; [done|intros]|]; apply at_most_ret.
  - intros [resp|e]; [apply at_most_vis; [done|intros; apply at_most_ret]|by apply fail_at_most].
Qed.

(** ** Fallback *)

Lemma hop_keeps r e : json_format (hop_request r e) = json_format r /\ gr_RetryOverride (hop_request r e) = gr_RetryOverride r.
Proof. done. Qed.

Lemma walk_calls rg rn c r n primary : attempts_within rg (gr_RetryOverride r) n -> forall entries last_ total,
  at_most is_dispatch ((MaxWholeChainAttempts - total) * n) (walk (Registry_Stream rg) rn c r primary last_ total entries) /\
  returns (fun res => forall s, res = Ok s -> stream_of r n s) (walk (Registry_Stream rg) rn c r primary last_ total entries).
Proof.
  intros Hn. assert (H0 : forall m x, at_most is_dispatch m (Ret (E:=ev) (R:=result AStream llm_err) x)) by (intros; apply at_most_ret).
  induction entries as [|e entries IH]; intros last_ total; cbn [walk]; [by split; [apply H0|apply returns_ret]|].
  destruct (MaxWholeChainAttempts <=? total) eqn:ET; [by split; [apply H0|apply returns_ret]|]. apply Nat.leb_gt in ET.
  destruct (Match last_ (ce_Triggers e)) as [tr|]; [|apply IH].
  destruct (stream_calls rg (hop_request r e) n Hn) as [HA HR]. split.
  - apply at_most_bind0; [destruct (rn_Check rn); [apply at_most_vis; [done|intros]|]; apply at_most_ret|].
    intros [d|]; [apply at_most_bind0; [destruct (rn_OnBlocked rn); [apply at_most_vis; [done|intros]|]; apply at_most_ret|intros; apply H0]|].
    apply at_most_bind0; [destruct (rn_OnAttempt rn); [apply at_most_vis; [done|intros]|]; apply at_most_ret|]. intros _.
    replace ((MaxWholeChainAttempts - total) * n) with (n + (MaxWholeChainAttempts - S total) * n) by nia.
    apply at_most_bind; [exact HA|]. intros [s|e']; [apply H0|apply IH].
  - eapply returns_bind; [apply returns_any|]. intros [d|] _; [eapply returns_bind; [apply returns_any|intros; by apply returns_ret]|].
    eapply returns_bind; [apply returns_any|]. intros _ _. eapply returns_bind; [exact HR|]. intros [s|e'] Hs; [by apply returns_ret|apply IH].
Qed.

Lemma resolve_chain_at_most s o sid : at_most is_dispatch 0 (Resolve s o sid).
Proof.
  unfold Resolve. apply at_most_bind0.
  - unfold resolveChainID. destruct (negb _); [apply at_most_ret|]. apply at_most_bind0.
    + destruct (sr_Session s); [apply at_most_vis; [done|intros]|]; apply at_most_ret.
    + intros [id|e]; [|apply at_most_ret]. destruct (negb _); [apply at_most_ret|]. destruct (sr_App s); [apply at_most_vis; [done|intros]|]; apply at_most_ret.
  - intros [id|e]; [|apply at_most_ret]. case_bool_decide; [apply at_most_ret|]. apply at_most_bind0.
    + destruct (sr_Store s); [apply at_most_vis; [done|intros]|]; apply at_most_ret.
    + intros [[c|]|e]; [apply at_most_ret| |apply at_most_ret]. apply at_most_vis; [done|]. intros [l|e]; apply at_most_ret.
Qed.

(** Requests of one opening of the stream: the primary, and the hops when there is a chain. *)
Definition hops (chainId : string) : nat := if bool_decide (chainId = "") then 1 else 1 + MaxWholeChainAttempts.

Lemma stream_fn_calls rg chainId r n : attempts_within rg (gr_RetryOverride r) n ->
  at_most is_dispatch (hops chainId * n) (stream_fn rg chainId r) /\ returns (fun res => forall s, res = Ok s -> stream_of r n s) (stream_fn rg chainId r).
Proof.
  intros Hn. destruct (stream_calls rg r n Hn) as [HA HR]. unfold stream_fn, hops. case_bool_decide; [by rewrite Nat.mul_1_l|].
  unfold Runner_Stream. split.
  - apply at_most_bind; [exact HA|]. intros [s|e]; [apply at_most_ret|]. apply at_most_bind0; [apply resolve_chain_at_most|].
    intros [[c|]|e']; [|apply at_most_ret..]. apply (proj1 (walk_calls rg _ c r n e Hn _ e 0)).
  - eapply returns_bind; [exact HR|]. intros [s|e] Hs; [by apply returns_ret|]. eapply returns_bind; [apply returns_any|].
    intros [[c|]|e'] _; [apply walk_calls; done|by apply returns_ret..].
Qed.

(** ** Stream retry *)

Lemma jittered_at_most f p a : quiet f -> at_most f 0 (jitteredDelay p a).
Proof. intros Hq. unfold jitteredDelay. destruct (sp_Jitter p); [apply at_most_vis; [intros; apply Hq|intros]|]; apply at_most_ret. Qed.

Lemma open_calls (P : AStream -> Prop) fn p k n a : at_most is_dispatch k fn -> returns (fun res => forall s, res = Ok s -> P s) fn ->
  at_most is_dispatch (n * k) (open_from fn p n a) /\ returns (fun res => forall s, res = Ok s -> P s) (open_from fn p n a).
Proof.
  intros HA HR. revert a. induction n as [|n IH]; intros a; cbn [open_from]; [by split; [apply at_most_ret|apply returns_ret]|]. split.
  - apply at_most_vis; [done|]. intros [e|]; [apply at_most_ret|]. apply at_most_bind; [done|]. intros [s|e]; [apply at_most_ret|].
    destruct (negb _); [apply at_most_ret|]. apply at_most_bind0; [by apply jittered_at_most|]. intros b. destruct n as [|n]; [apply at_most_ret|].
    apply at_most_bind0; [by apply sleep_at_most|]. intros [w|]; [apply at_most_ret|apply IH].
  - eapply returns_bind; [apply returns_any|]. intros [e|] _; [by apply returns_ret|]. eapply returns_bind; [exact HR|]. intros [s|e] Hs; [by apply returns_ret|].
    destruct (negb _); [by apply returns_ret|]. eapply returns_bind; [apply returns_any|]. intros b _. destruct n as [|n]; [by apply returns_ret|].
    eapply returns_bind; [apply returns_any|]. intros [w|] _; [by apply returns_ret|apply IH].
Qed.

Lemma deliver_at_most f l : (forall e a, f (Obs (Deliver e) a) = false) -> at_most f 0 (deliver l).
Proof. intros Hf. induction l as [|e l IH]; cbn; [apply at_most_ret|]. by apply at_most_vis. Qed.

Lemma pump_calls (P : AStream -> Prop) fn final p k m n a s :
  at_most is_dispatch k fn -> returns (fun res => forall s, res = Ok s -> P s) fn -> (forall s, P s -> at_most is_dispatch m (final s)) ->
  (forall A, s = inl A -> P A) -> at_most is_dispatch (n * m + (n - 1) * k) (pump fn final p n a s).
Proof.
  intros HA HR HF. revert a s. induction n as [|n IH]; intros a s Hs; cbn [pump]; [apply at_most_ret|].
  apply at_most_bind0; [by apply deliver_at_most|]. intros _.
  assert (Hfin : at_most is_dispatch m (final_of final s)) by (destruct s as [A|e]; cbn; [by apply HF, Hs|apply at_most_ret]).
  replace (S n * m + (S n - 1) * k) with (m + (n * m + n * k)) by nia. apply at_most_bind; [exact Hfin|].
  assert (H0 : forall j x, at_most is_dispatch j (Ret (E:=ev) (R:=result Response llm_err) x)) by (intros; apply at_most_ret).
  intros [r|e]; [apply H0|]. destruct (negb _); [apply H0|]. destruct (existsb _ _); [apply H0|]. destruct n as [|n]; [apply H0|].
  apply at_most_bind0; [by apply jittered_at_most|]. intros b. apply at_most_bind0; [by apply sleep_at_most|]. intros [w|]; [apply H0|].
  replace (S n * m + S n * k) with (k + (S n * m + (S n - 1) * k)) by nia. eapply at_most_bind_ret; [exact HA|exact HR|].
  intros [A|e'] HA'; [apply IH; intros B HB; injection HB as <-; by apply HA'|]. destruct (negb _); [apply H0|]. by apply IH.
Qed.

(** The attempts of the stream retry: those of the profile's policy. *)
Definition outer (rg : Registry) (r : GenerationRequest) : nat :=
  attempts_of (StreamPolicyFromLLM (match rg_Profiles rg !! gr_ProfileID r with Some p => pf_Retry p | None => None end)).

(** C16: however the providers answer, one model request calls them at most so often: with
    [n] bounding the middleware's attempts under any profile, the stream retry opens
    [outer] times and reopens once less, each opening is a primary request and, with a
    fallback chain, at most five hops, each of at most [n] calls; a JSON reply may cost a
    repair of [n] calls for every stream. *)
Theorem model_call_bounded rg chainId gen n :
  attempts_within rg (gr_RetryOverride gen) n ->
  at_most is_dispatch ((2 * outer rg gen - 1) * (hops chainId * n) + outer rg gen * repairs gen n) (Generate rg chainId gen).
Proof.
  intros Hn. destruct (stream_fn_calls rg chainId gen n Hn) as [HA HR]. unfold Generate, outer.
  set (p := StreamPolicyFromLLM _). set (k := hops chainId * n) in *. set (o := attempts_of p). unfold RetryStream. fold o.
  destruct (open_calls _ _ (sp_apply p) k o 1 HA HR) as [HO HP].
  replace ((2 * o - 1) * k + o * repairs gen n) with (o * k + (o * repairs gen n + (o - 1) * k)) by nia.
  eapply at_most_bind_ret; [exact HO|exact HP|]. intros [s|e] Hs; [|apply at_most_ret].
  rewrite <- (Nat.add_0_r (o * repairs gen n + _)). apply at_most_bind; [|intros; apply at_most_ret].
  unfold drain. fold o. eapply pump_calls; [exact HA|exact HR|intros s' Hs'; by apply final_at_most|]. intros A HA'. injection HA' as <-. by apply Hs.
Qed.

(** ** A demonstration environment *)

(** The providers answer the [k]-th call with [plan k]; nobody cancels, jitter is nothing,
    the policy allows and replies fit their schema. *)
Definition demo_env (plan : nat -> result RawStream llm_err) (chains : list Chain) : forall A, ev A -> nat -> A * nat :=
  fun A e =>
    match e in ev A return nat -> A * nat with
    | Dispatch _ _ _ => fun k => (plan k, S k)
    | CtxErr => fun k => (None, k)
    | Sleep _ => fun k => (None, k)
    | FullJitter d => fun k => (d, k)
    | TenPercent d => fun k => (d, k)
    | PolicyAllow _ _ => fun k => (None, k)
    | ResolveCred _ _ => fun k => (Ok "key", k)
    | Emit _ => fun k => (tt, k)
    | Refresh _ _ => fun k => (tt, k)
    | CheckReply _ _ => fun k => (None, k)
    | FallbackPolicy _ => fun k => (None, k)
    | FallbackAttempted _ _ _ _ => fun k => (tt, k)
    | FallbackBlocked _ => fun k => (tt, k)
    | StoreGet _ => fun k => (Ok None, k)
    | SessionDefault _ => fun k => (Ok "", k)
    | AppDefault => fun k => (Ok "", k)
    | Bundled => fun k => (Ok chains, k)
    | Deliver _ => fun k => (tt, k)
    end.

Definition play_demo {R} (plan : nat -> result RawStream llm_err) (chains : list Chain) (p : prog R) : list (obs ev) * R :=
  let '(t, r, _) := play (demo_env plan chains) p 0 in (t, r).

Lemma play_demo_runs {R} plan chains (p : prog R) : runs p (play_demo plan chains p).1 (play_demo plan chains p).2.
Proof. unfold play_demo. pose proof (play_runs (demo_env plan chains) p 0) as H. by destruct (play _ p 0) as [[t r] k]. Qed.

Definition some_profile (id model : string) : ProviderProfile :=
  {| pf_ID := id; pf_Kind := "openai"; pf_Model := model; pf_Models := []; pf_Cred := {| cr_Kind := "env"; cr_Locator := "KEY"; cr_Source := ""; cr_CredentialID := "" |};
     pf_Region := ""; pf_Endpoint := ""; pf_CapabilityHints := ∅; pf_AuthSchemeDefault := ""; pf_Retry := None; pf_GeminiEndpointKind := "";
     pf_Project := ""; pf_AuthScheme := "" |}.
Definition demo_registry : Registry :=
  {| rg_Catalog := demo_catalog; rg_Multimodal := true; rg_Profiles := <["p" := some_profile "p" "gpt-4o"]> (<["q" := some_profile "q" "o1"]> ∅);
     rg_Adapters := {[ "openai" := {| ad_Volatile := false; ad_Probes := false |} ]}; rg_Cache := ∅; rg_Now := 0; rg_Resolver := true; rg_NoRepair := false |}.
Definition plain_request : GenerationRequest := demo_request "" [text_message "user" "hello"].

Definition busy : llm_err := ClassifyStatusMessage 503 "".
(** Eight busy answers, then a stream that breaks before anything is said, then busy again. *)
Definition worst_plan (k : nat) : result RawStream llm_err := if k =? 8 then Ok {| rs_events := []; rs_final := Err busy |} else Err busy.

Lemma demo_attempts : attempts_within demo_registry (gr_RetryOverride plain_request) 3.
Proof.
  intros id p Hp. cbn in Hp. apply lookup_insert_Some in Hp as [[_ <-]|[_ Hp]]; [by vm_compute|].
  apply lookup_insert_Some in Hp as [[_ <-]|[_ Hp]]; [by vm_compute|]. by apply (lookup_empty_Some (M:=gmap string)) in Hp.
Qed.

(** The default policy of three attempts gives fifteen calls, and the bound is met. *)
Lemma model_call_bounded_witness :
  attempts_within demo_registry None 3 /\
  count is_dispatch (play_demo worst_plan [] (Generate demo_registry "" plain_request)).1 = 15 /\
  count is_dispatch (play_demo worst_plan [] (Generate demo_registry "" plain_request)).1 <= (2 * 3 - 1) * (1 * 3) + 3 * 0.
Proof.
  split; [exact demo_attempts|]. split; [by vm_compute|].
  exact (model_call_bounded demo_registry "" plain_request 3 demo_attempts _ _ (play_demo_runs worst_plan [] (Generate demo_registry "" plain_request))).
Defined.

(** A provider that is simply down is called nine times, for a policy of three attempts. *)
Example down_provider_called_nine_times :
  count is_dispatch (play_demo (fun _ => Err busy) [] (Generate demo_registry "" plain_request)).1 = 9.
Proof. by vm_compute. Qed.
