(* ===== verification/ModelCallSafety.v ===== *)
(** Safety of a model request: what every call to a provider has passed, whose text the
    user sees, and which waiting the middleware keeps. *)
From S2P Require Import Prelude GoString Catalog ModelErr Io ModelGates ModelReg ModelCall CatalogProps ModelCallProps.
Local Open Scope nat_scope.

Definition call : Type := GenerationRequest * ProviderProfile * option string.

(** * What stands before a call *)

(** Every call of a run satisfies [G] of what was asked before it. *)
Definition guards {R} (G : list (obs ev) -> call -> Prop) (p : prog R) : Prop :=
  ensures p (fun t _ => forall t1 o t2 d, t = t1 ++ o :: t2 -> sent_of o = Some d -> G t1 d).

Definition grows (G : list (obs ev) -> call -> Prop) : Prop := forall t t' d, G t d -> (forall o, o ∈ t -> o ∈ t') -> G t' d.

Lemma guards_app G pre tail : grows G -> (forall o, o ∈ pre -> sent_of o = None) -> (forall o d, o ∈ tail -> sent_of o = Some d -> G pre d) ->
  forall t1 o t2 d, pre ++ tail = t1 ++ o :: t2 -> sent_of o = Some d -> G t1 d.
Proof.
  intros HG Hpre Htail t1 o t2 d Heq Ho. apply app_eq_inv in Heq as [(k & -> & Hk)|(k & -> & ->)].
  - destruct k as [|o' k]; cbn in Hk.
    + eapply HG; [eapply (Htail o); [rewrite <- Hk; by left|done]|]. intros x. by rewrite app_nil_r.
    + injection Hk as -> _. specialize (Hpre o'). rewrite Ho in Hpre. by discriminate Hpre; set_solver.
  - eapply HG; [eapply (Htail o); [set_solver|done]|]. set_solver.
Qed.

Lemma guards_ret {R} G (r : R) : guards G (Ret r).
Proof. apply ensures_ret. intros t1 o t2 d H. by destruct t1. Qed.

Lemma guards_bind {A B} G (P : A -> Prop) (p : prog A) (f : A -> prog B) :
  grows G -> guards G p -> returns P p -> (forall a, P a -> guards G (f a)) -> guards G (bind p f).
Proof.
  intros HG Hp HP Hf t r (a & t1 & t2 & -> & H1 & H2)%runs_bind s o s' d Heq Ho.
  apply app_eq_inv in Heq as [(k & -> & Hk)|(k & -> & ->)].
  - destruct k as [|o' k]; cbn in Hk.
    + rewrite app_nil_r in *. eapply HG; [by eapply (Hf a (HP _ _ H1) _ _ H2 [])|]. intros x Hx. by apply not_elem_of_nil in Hx.
    + injection Hk as -> ->. by eapply (Hp _ _ H1).
  - eapply HG; [by eapply (Hf a (HP _ _ H1) _ _ H2)|]. set_solver.
Qed.

Lemma no_call t : count is_dispatch t = 0 -> forall t1 o t2 d, t = t1 ++ o :: t2 -> sent_of o = Some d -> False.
Proof.
  intros H t1 o t2 d -> Ho. rewrite count_app, count_cons in H. unfold is_dispatch at 2 in H. rewrite Ho in H. cbn in H. lia.
Qed.

Lemma guards_silent {R} G (p : prog R) : at_most is_dispatch 0 p -> guards G p.
Proof. intros H t r Hr t1 o t2 d Heq Ho. specialize (H _ _ Hr). cbn beta in H. exfalso. eapply no_call; [|exact Heq|exact Ho]. lia. Qed.

Lemma guards_bind0 {A B} G (p : prog A) (f : A -> prog B) : grows G -> at_most is_dispatch 0 p -> (forall a, guards G (f a)) -> guards G (bind p f).
Proof. intros HG Hp Hf. apply (guards_bind G (fun _ => True)); [done|by apply guards_silent|apply returns_any|auto]. Qed.

Lemma guards_run {T} G (p : Policy) (fn : prog (result T llm_err)) n a : grows G -> guards G fn -> guards G (Run_from p fn n a).
Proof.
  intros HG Hfn. revert a. induction n as [|n IH]; intros a; cbn [Run_from]; [apply guards_ret|].
  apply guards_bind0; [done|by apply at_most_vis; [|intros; apply at_most_ret]|]. intros [e|]; [apply guards_ret|].
  apply (guards_bind G (fun _ => True)); [done|done|apply returns_any|]. intros [x|e] _; [apply guards_ret|]. destruct (negb _); [apply guards_ret|].
  apply guards_bind0; [done|destruct (po_Full p); [by apply at_most_vis; [|intros; apply at_most_ret]|apply at_most_ret]|]. intros j.
  apply guards_bind0; [done|by apply at_most_vis; [|intros; apply at_most_ret]|]. intros _. destruct n as [|n]; [apply guards_ret|].
  apply guards_bind0; [done|by apply sleep_at_most|]. intros [w|]; [apply guards_ret|apply IH].
Qed.

(** What a call has passed: the profile is registered and serves the model; ids,
    capabilities, attachments and knobs were checked on the request that goes out; the
    policy allowed exactly that request; the credential is the one that was resolved; the
    audit log has the submission. *)
Definition admitted (rg : Registry) (r : GenerationRequest) (before : list (obs ev)) (d : call) : Prop :=
  let '(r2, prof, cred) := d in
  exists p0 r1 ad,
    rg_Profiles rg !! gr_ProfileID r = Some p0 /\ resolve rg r = Ok (r1, prof, ad) /\ pf_Model prof ∈ AvailableModels p0 /\
    ValidateToolCallIDs (gr_Messages r2) = None /\
    gate_check (rg_Catalog rg) r1 (pf_Kind prof) (pf_Model prof) (pf_CapabilityHints prof) = None /\
    CheckAttachments (rg_Multimodal rg) (rg_Catalog rg) r1 (pf_Kind prof) (pf_Model prof) (pf_CapabilityHints prof) = None /\
    sanitize (DescribeRich (rg_Catalog rg) (pf_Kind prof) (pf_Model prof)) r1 = Ok r2 /\
    Obs (PolicyAllow r2 prof) None ∈ before /\ Obs (Emit AuRequestSubmitted) tt ∈ before /\
    match cred with
    | Some c => Obs (ResolveCred (pf_ID prof) (pf_Cred prof)) (Ok c) ∈ before
    | None => rg_Resolver rg && negb (IsZero (pf_Cred prof)) = false
    end.

Lemma admitted_grows rg r : grows (admitted rg r).
Proof.
  intros t t' [[r2 prof] cred] (p0 & r1 & ad & H1 & H2 & H3 & H4 & H5 & H6 & H7 & H8 & H9 & H10) Hsub.
  exists p0, r1, ad. repeat (split; [by auto|]). destruct cred; auto.
Qed.

Lemma credential_runs rg p t c : runs (credential rg p) t (Ok c) ->
  (forall o, o ∈ t -> sent_of o = None) /\
  match c with Some x => Obs (ResolveCred (pf_ID p) (pf_Cred p)) (Ok x) ∈ t | None => rg_Resolver rg && negb (IsZero (pf_Cred p)) = false end.
Proof.
  unfold credential. destruct (_ && _) eqn:E.
  - intros (a & t' & -> & -> & Ha). split; [set_solver|]. destruct a as [x|e]; inv_ok. set_solver.
  - intros [-> Ha]. inv_ok. split; [set_solver|done].
Qed.

Lemma fail_runs {A} e t (r : result A llm_err) : runs (fail_audited e) t r -> t = [Obs (Emit (AuError e)) tt] /\ r = Err e.
Proof. unfold fail_audited. cbn. by intros ([] & t' & -> & -> & ->). Qed.

Lemma stream_guarded rg r : guards (admitted rg r) (Registry_Stream rg r).
Proof.
  unfold Registry_Stream. destruct (resolve rg r) as [[[r1 prof] ad]|e] eqn:HR; [|apply guards_ret].
  pose proof (admitted_grows rg r) as HG. apply guards_bind0; [done|destruct (ad_Probes ad); [by apply at_most_vis; [|intros; apply at_most_ret]|apply at_most_ret]|].
  intros _. destruct (gate_check _ _ _ _ _) eqn:HGC; [by apply guards_silent, at_most_vis; [|intros; apply at_most_ret]|].
  destruct (CheckAttachments _ _ _ _ _ _) eqn:HCA; [apply guards_ret|].
  destruct (sanitize _ r1) as [r2|e] eqn:HS; [|by apply guards_silent, fail_at_most].
  intros t res (denied & t' & -> & H). destruct denied as [e|].
  { destruct H as ([] & t1 & -> & -> & _). intros s o s' d Heq Ho. exfalso. by eapply no_call; [|exact Heq|exact Ho]. }
  cbn [bind] in H. apply runs_bind in H as (c & t1 & t2 & -> & Hc & H). destruct c as [c|e]; cycle 1.
  { apply fail_runs in H as [-> _]. intros s o s' d Heq Ho.
    assert (Hsil : count is_dispatch t1 <= 0) by exact (credential_at_most rg prof _ _ Hc). exfalso.
    eapply no_call; [|exact Heq|exact Ho]. rewrite count_cons, count_app, count_cons, count_nil. cbn. lia. }
  destruct (credential_runs _ _ _ _ Hc) as [Hnone Hcred]. destruct H as ([] & t3 & -> & H).
  assert (Hall : forall o d, o ∈ t3 -> sent_of o = Some d -> d = (r2, prof, c)).
  { cbn [bind] in H. apply runs_bind in H as (x & s1 & s2 & -> & Hrun & H). intros o d [Ho|Ho]%elem_of_app Hd.
    - assert (HA : guards (fun _ d => d = (r2, prof, c)) (Run (policy_of prof r2) (ask (Dispatch r2 prof c)))).
      { apply guards_run; [by intros ????|]. intros s res' ->%runs_ask [|o1 [|]] o2 s2' d'; cbn; intros; by simplify_eq/=. }
      apply list_elem_of_split in Ho as (u1 & u2 & ->). exact (HA _ _ Hrun u1 o u2 d eq_refl Hd).
    - destruct x as [[raw k]|e]; [by destruct H as [-> _]; apply not_elem_of_nil in Ho|]. apply fail_runs in H as [-> _].
      apply list_elem_of_singleton in Ho as ->. done. }
  change (Obs (PolicyAllow r2 prof) None :: t1 ++ Obs (Emit AuRequestSubmitted) tt :: t3) with ([Obs (PolicyAllow r2 prof) None] ++ t1 ++ [Obs (Emit AuRequestSubmitted) tt] ++ t3).
  rewrite !app_assoc. apply guards_app; [done|set_solver|]. intros o d Ho Hd. rewrite (Hall o d Ho Hd).
  destruct (resolve_keeps _ _ _ _ _ HR) as (_ & _ & HM & p0 & Hp0 & _ & Hmod & Hids & _). destruct (sanitize_keeps _ _ _ HS) as (_ & _ & HM').
  exists p0, r1, ad. rewrite HM', HM. repeat (split; [done || set_solver|]). destruct c; [set_solver|done].
Qed.

(** ** Through fallback and stream retry *)

Definition weaker (G G' : list (obs ev) -> call -> Prop) : Prop := forall t d, G t d -> G' t d.

Lemma guards_weaker {R} G G' (p : prog R) : weaker G G' -> guards G p -> guards G' p.
Proof. intros HW H t r Hr t1 o t2 d Heq Ho. apply HW. by eapply H. Qed.

Lemma guards_walk G stream rn c r : grows G -> (forall e, guards G (stream (hop_request r e))) -> forall entries primary last_ total,
  guards G (walk stream rn c r primary last_ total entries).
Proof.
  intros HG Hs. induction entries as [|e entries IH]; intros primary last_ total; cbn [walk]; [apply guards_ret|].
  destruct (_ <=? total); [apply guards_ret|]. destruct (Match last_ (ce_Triggers e)) as [tr|]; [|apply IH].
  apply guards_bind0; [done|destruct (rn_Check rn); [by apply at_most_vis; [|intros; apply at_most_ret]|apply at_most_ret]|].
  intros [d|]; [apply guards_bind0; [done|destruct (rn_OnBlocked rn); [by apply at_most_vis; [|intros; apply at_most_ret]|apply at_most_ret]|intros; apply guards_ret]|].
  apply guards_bind0; [done|destruct (rn_OnAttempt rn); [by apply at_most_vis; [|intros; apply at_most_ret]|apply at_most_ret]|]. intros _.
  apply (guards_bind G (fun _ => True)); [done|apply Hs|apply returns_any|]. intros [s|e'] _; [apply guards_ret|apply IH].
Qed.

Lemma guards_open G fn p n a : grows G -> guards G fn -> guards G (open_from fn p n a).
Proof.
  intros HG Hfn. revert a. induction n as [|n IH]; intros a; cbn [open_from]; [apply guards_ret|].
  apply guards_bind0; [done|by apply at_most_vis; [|intros; apply at_most_ret]|]. intros [e|]; [apply guards_ret|].
  apply (guards_bind G (fun _ => True)); [done|done|apply returns_any|]. intros [s|e] _; [apply guards_ret|]. destruct (negb _); [apply guards_ret|].
  apply guards_bind0; [done|by apply jittered_at_most|]. intros b. destruct n as [|n]; [apply guards_ret|].
  apply guards_bind0; [done|by apply sleep_at_most|]. intros [w|]; [apply guards_ret|apply IH].
Qed.

(** ** After a prefix *)

(** Calls of a program that runs after [pre]. *)
Definition guards_at {R} (G : list (obs ev) -> call -> Prop) (pre : list (obs ev)) (p : prog R) : Prop :=
  ensures p (fun t _ => forall t1 o t2 d, t = t1 ++ o :: t2 -> sent_of o = Some d -> G (pre ++ t1) d).

Lemma guards_at_weak {R} G pre (p : prog R) : grows G -> guards G p -> guards_at G pre p.
Proof. intros HG H t r Hr t1 o t2 d Heq Ho. eapply HG; [by eapply (H _ _ Hr)|]. set_solver. Qed.

Lemma guards_at_bind {A B} G pre (p : prog A) (f : A -> prog B) :
  guards_at G pre p -> (forall t a, runs p t a -> guards_at G (pre ++ t) (f a)) -> guards_at G pre (bind p f).
Proof.
  intros Hp Hf t r (a & t1 & t2 & -> & H1 & H2)%runs_bind s o s' d Heq Ho.
  apply app_eq_inv in Heq as [(k & -> & Hk)|(k & -> & ->)].
  - destruct k as [|o' k]; cbn in Hk.
    + specialize (Hf _ _ H1 _ _ H2 [] o s' d (eq_sym Hk) Ho). by rewrite !app_nil_r in *.
    + injection Hk as -> ->. by eapply (Hp _ _ H1).
  - rewrite app_assoc. by eapply (Hf _ _ H1 _ _ H2).
Qed.

Lemma guards_at_ret {R} G pre (r : R) : guards_at G pre (Ret r).
Proof. apply ensures_ret. intros t1 o t2 d H. by destruct t1. Qed.

Lemma guards_at_silent {R} G pre (p : prog R) : at_most is_dispatch 0 p -> guards_at G pre p.
Proof. intros H t r Hr t1 o t2 d Heq Ho. specialize (H _ _ Hr). cbn beta in H. exfalso. eapply no_call; [|exact Heq|exact Ho]. lia. Qed.

(** ** Where a stream comes from *)

Definition call_of (s : AStream) : call := (as_req s, as_prof s, as_cred s).

(** The stream of this call was opened. *)
Definition sent_stream (t : list (obs ev)) (s : AStream) : Prop := Obs (Dispatch (as_req s) (as_prof s) (as_cred s)) (Ok (as_raw s)) ∈ t.

Definition opens (p : prog (result AStream llm_err)) : Prop := ensures p (fun t res => forall s, res = Ok s -> sent_stream t s).

Lemma opens_err e : opens (Ret (Err e)).
Proof. by apply ensures_ret. Qed.

Lemma opens_bind {A} (p : prog A) (f : A -> prog (result AStream llm_err)) : (forall a, opens (f a)) -> opens (bind p f).
Proof. intros Hf t r (a & t1 & t2 & -> & H1 & H2)%runs_bind s Hs. apply elem_of_app. right. by eapply (Hf a). Qed.

(** A stream or, when it fails, another try. *)
Lemma opens_or (p : prog (result AStream llm_err)) (f : llm_err -> prog (result AStream llm_err)) : opens p -> (forall e, opens (f e)) ->
  opens (bind p (fun res => match res with Ok s => Ret (Ok s) | Err e => f e end)).
Proof.
  intros Hp Hf t r ([s|e] & t1 & t2 & -> & H1 & H2)%runs_bind s' Hs'; apply elem_of_app.
  - destruct H2 as [_ ->]. injection Hs' as <-. left. by apply (Hp _ _ H1).
  - right. by eapply (Hf e).
Qed.

Lemma run_opens p r prof cred n a : ensures (Run_from p (ask (Dispatch r prof cred)) n a)
  (fun t res => forall raw k, res = Ok (raw, k) -> Obs (Dispatch r prof cred) (Ok raw) ∈ t).
Proof.
  revert a. induction n as [|n IH]; intros a t res; cbn [Run_from]; [by intros [_ ->]|].
  intros (c & t1 & -> & H). cbn [bind] in H. destruct c as [e|]; [by destruct H as [_ ->]|].
  destruct H as (x & t2 & -> & H). cbn [bind] in H. destruct x as [raw|e]; [destruct H as [-> ->]; intros ? ? [= <- <-]; set_solver|].
  destruct (negb (IsTransient e)); [by destruct H as [_ ->]|]. apply runs_bind in H as (j & t3 & t4 & -> & H3 & H). destruct H as ([] & t5 & -> & H).
  cbn [bind] in H. destruct n as [|n]; [by destruct H as [_ ->]|]. apply runs_bind in H as (w & t6 & t7 & -> & H6 & H).
  destruct w as [e'|]; [by destruct H as [_ ->]|]. intros raw k Hres. specialize (IH _ _ _ H raw k Hres). set_solver.
Qed.

Lemma submit_opens r prof cred : opens (submit r prof cred).
Proof.
  unfold submit. apply opens_bind. intros _ t res (x & t1 & t2 & -> & H1 & H2)%runs_bind s Hs.
  destruct x as [[raw k]|e]; [|apply fail_runs in H2 as [_ ->]; done]. destruct H2 as [_ ->]. injection Hs as <-.
  apply elem_of_app. left. by apply (run_opens _ _ _ _ _ _ _ _ H1 raw k).
Qed.

Lemma stream_opens rg r : opens (Registry_Stream rg r).
Proof.
  unfold Registry_Stream. destruct (resolve rg r) as [[[r1 prof] ad]|e]; [|apply opens_err]. apply opens_bind. intros _.
  destruct (gate_check _ _ _ _ _); [apply opens_bind; intros _; apply opens_err|]. destruct (CheckAttachments _ _ _ _ _ _); [apply opens_err|].
  destruct (sanitize _ r1) as [r2|e]; [|apply opens_bind; intros _; apply opens_err]. apply opens_bind. intros [e|]; [apply opens_bind; intros _; apply opens_err|].
  apply opens_bind. intros [c|e]; [apply submit_opens|apply opens_bind; intros _; apply opens_err].
Qed.

Lemma walk_opens stream rn c r entries primary last_ total : (forall r', opens (stream r')) -> opens (walk stream rn c r primary last_ total entries).
Proof.
  intros Hs. revert last_ total. induction entries as [|e entries IH]; intros last_ total; cbn [walk]; [unfold exhausted; apply opens_err|].
  destruct (_ <=? total); [unfold exhausted; apply opens_err|]. destruct (Match _ _); [|apply IH]. apply opens_bind. intros [d|]; (apply opens_bind; intros _); [apply opens_err|].
  by apply opens_or.
Qed.

Lemma fn_opens rg chainId r : opens (stream_fn rg chainId r).
Proof.
  unfold stream_fn. case_bool_decide; [apply stream_opens|]. unfold Runner_Stream. apply opens_or; [apply stream_opens|]. intros e. apply opens_bind.
  intros [[c|]|e']; [|apply opens_err..]. apply walk_opens. intros; apply stream_opens.
Qed.

Lemma open_opens fn p n a : opens fn -> opens (open_from fn p n a).
Proof.
  intros Hfn. revert a. induction n as [|n IH]; intros a; cbn [open_from]; [apply opens_err|]. apply opens_bind. intros [e|]; [apply opens_err|].
  apply opens_or; [done|]. intros e. destruct (negb _); [apply opens_err|]. apply opens_bind. intros b. destruct n as [|n]; [apply opens_err|].
  apply opens_bind. intros [w|]; [apply opens_err|apply IH].
Qed.

(** The stream a pump reads was opened before, as one of [P]. *)
Definition stream_at (P : list (obs ev) -> AStream -> Prop) (t : list (obs ev)) (s : current) : Prop := forall A, s = inl A -> P t A.

Lemma guards_pump G P fn final p : grows G -> guards G fn ->
  (forall pre, ensures fn (fun t res => forall s, res = Ok s -> P (pre ++ t) s)) ->
  (forall t t' s, P t s -> (forall o, o ∈ t -> o ∈ t') -> P t' s) ->
  (forall pre s, P pre s -> guards_at G pre (final s)) -> forall n a s pre, stream_at P pre s -> guards_at G pre (pump fn final p n a s).
Proof.
  intros HG Hfn HR HP HF. induction n as [|n IH]; intros a s pre Hs; cbn [pump]; [apply guards_at_ret|].
  apply guards_at_bind; [by apply guards_at_silent, deliver_at_most|]. intros t1 [] _. apply guards_at_bind.
  { destruct s as [A|e]; cbn [final_of]; [|apply guards_at_ret]. apply HF. eapply HP; [by apply Hs|]. set_solver. }
  intros t2 [r|e] _; [apply guards_at_ret|]. destruct (negb _); [apply guards_at_ret|]. destruct (existsb _ _); [apply guards_at_ret|]. destruct n as [|n]; [apply guards_at_ret|].
  apply guards_at_bind; [by apply guards_at_silent, jittered_at_most|]. intros t3 b _. apply guards_at_bind; [by apply guards_at_silent, sleep_at_most|].
  intros t4 [w|] _; [apply guards_at_ret|]. apply guards_at_bind; [by apply guards_at_weak|]. intros t5 [A|e'] H5.
  - apply IH. intros B [= <-]. by apply (HR _ _ _ H5).
  - destruct (negb _); [apply guards_at_ret|]. by apply IH.
Qed.

Lemma attempts_exist rg override : exists n, attempts_within rg override n.
Proof.
  unfold attempts_within. induction (rg_Profiles rg) as [|id p m Hm IH] using map_ind.
  - exists 0. intros id p Hp. by apply (lookup_empty_Some (M:=gmap string)) in Hp.
  - destruct IH as [n Hn]. exists (Nat.max n (tries (FromLLM (match override with Some o => Some o | None => pf_Retry p end)))).
    intros id' q [[_ <-]|[_ Hq]]%lookup_insert_Some; [lia|]. specialize (Hn id' q Hq). lia.
Qed.

(** The request itself, or a hop of a fallback chain. *)
Definition request_or_hop (chainId : string) (gen r : GenerationRequest) : Prop := r = gen \/ (chainId <> "" /\ exists e, r = hop_request gen e).

(** The one corrective call for a reply that does not fit the JSON format [f]: the call
    [d0] again, with the reply and a hint behind its messages. *)
Definition repair_of (f : ResponseFormat) (before : list (obs ev)) (d0 d : call) : Prop :=
  let '(r, prof, cred) := d0 in
  exists raw resp v hint,
    Obs (Dispatch r prof cred) (Ok raw) ∈ before /\ rs_final raw = Ok resp /\
    Obs (CheckReply (fmt_Schema f) (blocks_text (resp_Content resp))) (Some v) ∈ before /\
    d = (with_messages r (gr_Messages r ++ [{| msg_Role := "assistant"; msg_Content := resp_Content resp |}; text_message "user" hint]), prof, cred).

(** The call [d0] was admitted for the request or a hop. *)
Definition cleared (rg : Registry) (chainId : string) (gen : GenerationRequest) (before : list (obs ev)) (d0 : call) : Prop :=
  exists r, request_or_hop chainId gen r /\ admitted rg r before d0.

Definition cleared_or_repair (rg : Registry) (chainId : string) (gen : GenerationRequest) (before : list (obs ev)) (d : call) : Prop :=
  cleared rg chainId gen before d \/
  exists f d0, json_format gen = Some f /\ fmt_Strict f = false /\ rg_NoRepair rg = false /\
    cleared rg chainId gen before d0 /\ repair_of f before d0 d.

Lemma cleared_grows rg chainId gen : grows (cleared rg chainId gen).
Proof. intros t t' d (r & Hr & Ha) Hsub. exists r. split; [done|]. by eapply admitted_grows. Qed.

Lemma cleared_or_repair_grows rg chainId gen : grows (cleared_or_repair rg chainId gen).
Proof.
  intros t t' d [H|(f & [[r prof] cred] & H1 & H2 & H3 & H4 & (raw & resp & v & hint & H5 & H6 & H7 & H8))] Hsub; [left; by eapply cleared_grows|].
  right. exists f, (r, prof, cred). split_and!; [done..|by eapply cleared_grows|]. exists raw, resp, v, hint. split_and!; [by apply Hsub|done|by apply Hsub|done].
Qed.

Lemma fn_cleared rg chainId gen : guards (cleared rg chainId gen) (stream_fn rg chainId gen).
Proof.
  pose proof (cleared_grows rg chainId gen) as HG.
  assert (Hgen : guards (cleared rg chainId gen) (Registry_Stream rg gen)).
  { eapply guards_weaker; [|apply stream_guarded]. intros t d Ha. exists gen. split; [by left|done]. }
  unfold stream_fn. case_bool_decide as Hc; [done|]. unfold Runner_Stream.
  apply (guards_bind _ (fun _ => True)); [done|done|apply returns_any|]. intros [s|e] _; [apply guards_ret|].
  apply guards_bind0; [done|apply resolve_chain_at_most|]. intros [[c|]|e']; [|apply guards_ret..]. apply guards_walk; [done|]. intros en.
  eapply guards_weaker; [|apply stream_guarded]. intros t d Ha. exists (hop_request gen en). split; [right; by eauto|done].
Qed.

(** A stream that the run opened: its call was cleared. *)
Definition cleared_stream rg chainId gen (t : list (obs ev)) (s : AStream) : Prop :=
  cleared rg chainId gen t (call_of s) /\ sent_stream t s /\ json_format (as_req s) = json_format gen.

Lemma opened_cleared rg chainId gen (fn : prog (result AStream llm_err)) :
  guards (cleared rg chainId gen) fn -> opens fn -> returns (fun res => forall s, res = Ok s -> json_format (as_req s) = json_format gen) fn ->
  forall pre, ensures fn (fun t res => forall s, res = Ok s -> cleared_stream rg chainId gen (pre ++ t) s).
Proof.
  intros Hg Ho Hj pre t res Hr s Hs. pose proof (Ho _ _ Hr s Hs) as Hsent. split_and!; [|unfold sent_stream in *; set_solver|by apply (Hj _ _ Hr)].
  apply list_elem_of_split in Hsent as (t1 & t2 & Ht). eapply cleared_grows; [by eapply (Hg _ _ Hr _ _ _ (call_of s) Ht)|]. rewrite Ht. set_solver.
Qed.

Lemma final_guarded rg chainId gen s pre : cleared_stream rg chainId gen pre s ->
  guards_at (cleared_or_repair rg chainId gen) pre (Final (rg_NoRepair rg) s).
Proof.
  intros (Hc & Hsent & Hj). unfold Final. apply guards_at_bind; [|by intros t [resp|e] _; apply guards_at_silent; [apply at_most_vis; [done|intros; apply at_most_ret]|apply fail_at_most]].
  destruct (rs_final (as_raw s)) as [resp|e] eqn:Hf; [|apply guards_at_ret]. rewrite Hj. destruct (json_format gen) as [f|] eqn:Hg; [|apply guards_at_ret].
  unfold repair. apply guards_at_bind; [by apply guards_at_silent, at_most_vis; [|intros; apply at_most_ret]|]. intros t1 [v|] ->%runs_ask; [|apply guards_at_ret].
  destruct (fmt_Strict f || rg_NoRepair rg) eqn:Hs; [apply guards_at_ret|]. apply orb_false_iff in Hs as [Hs1 Hs2].
  set (r2 := with_messages _ _). apply guards_at_bind.
  - intros t res Hr u1 o u2 d Heq Ho.
    assert (HA : guards (fun _ d => d = (r2, as_prof s, as_cred s)) (Run (as_policy s) (ask (Dispatch r2 (as_prof s) (as_cred s))))).
    { apply guards_run; [by intros ????|]. intros x res' ->%runs_ask [|o1 [|]] o2 s2' d'; cbn; intros; by simplify_eq/=. }
    specialize (HA _ _ Hr _ _ _ _ Heq Ho). cbn beta in HA. right. exists f, (call_of s). split_and!; [done..|eapply cleared_grows; [exact Hc|set_solver]|].
    exists (as_raw s), resp, v. eexists. split_and!; [unfold sent_stream in Hsent; set_solver|done|set_solver|exact HA].
  - intros t2 [[raw2 k]|e] _; [|apply guards_at_ret]. destruct (rs_final raw2) as [resp2|e]; [|apply guards_at_ret].
    by apply guards_at_silent, at_most_vis; [|intros; apply at_most_ret].
Qed.

(** C14: every call of a model request to a provider, first tries, retries, reopened streams
    and fallback hops alike, was admitted by every gate on its own account: for the request
    or the hop it carries the model is one its profile serves, ids, capabilities,
    attachments and knobs were checked, and before the call the policy had allowed exactly
    this request and profile, the credential had been resolved and the submission audited.
    The one exception is the repair of a JSON reply, which passes no gate of its own: it is
    sent only when the format is not strict and repairs are on, after the schema check
    rejected the reply to an admitted call of this run, and it is that call again, to the
    same profile with the same credential, with the reply and a hint added. *)
Theorem every_call_is_admitted rg chainId gen : guards (cleared_or_repair rg chainId gen) (Generate rg chainId gen).
Proof.
  pose proof (cleared_or_repair_grows rg chainId gen) as HG.
  assert (Hfn : guards (cleared_or_repair rg chainId gen) (stream_fn rg chainId gen)) by (eapply guards_weaker; [|apply fn_cleared]; by intros t d; left).
  destruct (attempts_exist rg (gr_RetryOverride gen)) as [n Hn]. destruct (stream_fn_calls rg chainId gen n Hn) as [_ HR].
  assert (HJ : returns (fun res => forall s, res = Ok s -> json_format (as_req s) = json_format gen) (stream_fn rg chainId gen)).
  { intros t res Hr s Hs. by apply (HR _ _ Hr). }
  unfold Generate. set (p := StreamPolicyFromLLM _).
  destruct (open_calls _ (stream_fn rg chainId gen) (sp_apply p) (hops chainId * n) (attempts_of p) 1 (proj1 (stream_fn_calls rg chainId gen n Hn)) HR) as [_ HP].
  assert (Hopen : forall pre, ensures (RetryStream p (stream_fn rg chainId gen)) (fun t res => forall s, res = Ok s -> cleared_stream rg chainId gen (pre ++ t) s)).
  { apply opened_cleared; [apply guards_open; [apply cleared_grows|apply fn_cleared]|apply open_opens, fn_opens|]. intros t res Hr s Hs. by apply (HP _ _ Hr). }
  change (guards_at (cleared_or_repair rg chainId gen) [] (bind (RetryStream p (stream_fn rg chainId gen))
    (fun opened => match opened with Err e => Ret (Err (EWrap "chat: registry stream" e)) | Ok s =>
       bind (drain (rg_NoRepair rg) p (stream_fn rg chainId gen) s) (fun res => Ret (match res with Err e => Err (EWrap "chat: stream final" e)
         | Ok r => Ok (to_llm r (match rg_Profiles rg !! gr_ProfileID gen with Some p => pf_Kind p | None => "" end)) end)) end))).
  apply guards_at_bind; [by apply guards_at_weak, guards_open|]. intros t1 [s|e] H1; [|apply guards_at_ret]. apply guards_at_bind; [|intros; apply guards_at_ret].
  apply (guards_pump _ (cleared_stream rg chainId gen)); [done|done|by apply opened_cleared; [apply fn_cleared|apply fn_opens|]| |intros pre s' Hs'; by apply final_guarded|].
  - intros t t' A (HA & HB & HC) Hsub. split_and!; [by eapply cleared_grows|by apply Hsub|done].
  - intros A [= <-]. by apply (Hopen [] _ _ H1).
Qed.

