(* ===== verification/ModelCallShown.v ===== *)
(** What the user sees of a model request: the text and the tool calls that are shown come
    from one stream a provider opened, and so does the answer. *)
From S2P Require Import Prelude GoString Catalog ModelErr Io ModelGates ModelReg ModelCall CatalogProps ModelCallProps ModelCallSafety.
Local Open Scope nat_scope.

Definition is_shown (o : obs ev) : bool := is_some (shown_of o).

Lemma shown_quiet : quiet is_shown.
Proof. done. Qed.

Lemma shown_app t1 t2 : shown (t1 ++ t2) = shown t1 ++ shown t2.
Proof. apply omap_app. Qed.
Lemma opened_app t1 t2 : opened (t1 ++ t2) = opened t1 ++ opened t2.
Proof. apply omap_app. Qed.
Lemma content_app l1 l2 : content (l1 ++ l2) = content l1 ++ content l2.
Proof. apply List.filter_app. Qed.

Lemma none_shown t : count is_shown t <= 0 -> shown t = [].
Proof.
  induction t as [|o t IH]; [done|]. rewrite count_cons. unfold is_shown at 1. intros H. unfold shown. cbn.
  destruct (shown_of o); cbn in H; [lia|]. by apply IH.
Qed.

(** Shows nothing: decomposes a program into its steps. *)
Ltac hushed :=
  repeat match goal with
  | |- at_most _ _ (Ret _) => apply at_most_ret
  | |- at_most _ _ (bind _ _) => apply at_most_bind0; [|intros]
  | |- at_most _ _ (ask _) => apply at_most_vis; [by intros|intros]
  | |- at_most _ _ (match ?x with _ => _ end) => destruct x
  end.

Lemma run_hushed p r prof cred : at_most is_shown 0 (Run p (ask (Dispatch r prof cred))).
Proof. unfold Run. eapply at_most_le; [apply (run_from_at_most _ _ _ 0); [done|by hushed]|lia]. Qed.

Lemma stream_hushed rg r : at_most is_shown 0 (Registry_Stream rg r).
Proof. unfold Registry_Stream, submit, credential, fail_audited. hushed. all: apply run_hushed. Qed.

Lemma walk_hushed rg rn c r entries primary last_ total : at_most is_shown 0 (walk (Registry_Stream rg) rn c r primary last_ total entries).
Proof.
  revert last_ total. induction entries as [|e entries IH]; intros last_ total; cbn [walk]; hushed; try apply stream_hushed; apply IH.
Qed.

Lemma fn_hushed rg chainId r : at_most is_shown 0 (stream_fn rg chainId r).
Proof.
  unfold stream_fn, Runner_Stream, Resolve, resolveChainID. hushed; try apply stream_hushed; apply walk_hushed.
Qed.

Lemma open_hushed rg chainId r p n a : at_most is_shown 0 (open_from (stream_fn rg chainId r) p n a).
Proof.
  revert a. induction n as [|n IH]; intros a; cbn [open_from]; [apply at_most_ret|]. unfold jitteredDelay, sleep. hushed; try apply fn_hushed; apply IH.
Qed.

Lemma final_hushed norepair s : at_most is_shown 0 (Final norepair s).
Proof. unfold Final, repair, fail_audited. hushed. apply run_hushed. Qed.

Lemma deliver_shows l t r : runs (deliver l) t r -> shown t = l.
Proof. revert t. induction l as [|e l IH]; intros t; cbn; [by intros [-> _]|]. intros ([] & t' & -> & H). cbn. f_equal. by apply IH. Qed.

(** * Where an opened stream comes from *)

(** The stream [sel] finds in the result was opened in the run, or is [from]. *)
Definition yields {R} (from : option RawStream) (sel : R -> option RawStream) (p : prog R) : Prop :=
  ensures p (fun t r => forall raw, sel r = Some raw -> raw ∈ opened t \/ from = Some raw).

Lemma yields_ret {R} from sel (r : R) : (sel r = None \/ sel r = from) -> yields from sel (Ret r).
Proof. intros H. apply ensures_ret. intros raw Hr. right. destruct H; congruence. Qed.

Lemma yields_bind {A B} from (selA : A -> option RawStream) sel (p : prog A) (f : A -> prog B) :
  yields from selA p -> (forall a, yields (selA a) sel (f a)) -> yields from sel (bind p f).
Proof.
  intros Hp Hf t r (a & t1 & t2 & -> & H1 & H2)%runs_bind raw Hr. rewrite opened_app, elem_of_app.
  destruct (Hf a _ _ H2 raw Hr) as [H|H]; [by left; right|]. destruct (Hp _ _ H1 raw H); auto.
Qed.

Lemma yields_none {R} from (p : prog R) : yields from (fun _ => None) p.
Proof. done. Qed.

(** Of a program that keeps no stream. *)
Lemma yields_seq {A B} from sel (p : prog A) (f : A -> prog B) : (forall a, yields None sel (f a)) -> yields from sel (bind p f).
Proof. intros Hf. apply (yields_bind from (fun _ => None)); [apply yields_none|done]. Qed.

Definition sel_of {A} (f : A -> RawStream) (r : result A llm_err) : option RawStream := match r with Ok x => Some (f x) | Err _ => None end.

Lemma dispatch_yields r prof cred : yields None (sel_of id) (ask (Dispatch r prof cred)).
Proof. intros t a ->%runs_ask raw Hr. left. destruct a as [s|e]; cbn in Hr; [|done]. injection Hr as <-. by left. Qed.

Lemma run_yields {T} (g : T -> RawStream) p (fn : prog (result T llm_err)) n a : yields None (sel_of g) fn -> yields None (sel_of (fun x : T * nat => g x.1)) (Run_from p fn n a).
Proof.
  intros Hfn. revert a. induction n as [|n IH]; intros a; cbn [Run_from]; [apply yields_ret; by left|].
  apply yields_seq. intros [e|]; [apply yields_ret; by left|]. eapply yields_bind; [exact Hfn|]. intros [x|e]; [apply yields_ret; by right|].
  destruct (negb _); [apply yields_ret; by left|]. apply yields_seq. intros j. apply yields_seq. intros _. destruct n as [|n]; [apply yields_ret; by left|].
  apply yields_seq. intros [w|]; [apply yields_ret; by left|apply IH].
Qed.

Lemma stream_yields rg r : yields None (sel_of as_raw) (Registry_Stream rg r).
Proof.
  unfold Registry_Stream. destruct (resolve rg r) as [[[r1 prof] ad]|e]; [|apply yields_ret; by left]. apply yields_seq. intros _.
  assert (HE : forall e, yields None (sel_of as_raw) (fail_audited e)) by (intros e; apply yields_seq; intros _; apply yields_ret; by left).
  destruct (gate_check _ _ _ _ _); [apply yields_seq; intros _; apply yields_ret; by left|]. destruct (CheckAttachments _ _ _ _ _ _); [apply yields_ret; by left|].
  destruct (sanitize _ r1) as [r2|e]; [|apply HE]. apply yields_seq. intros [e|]; [apply yields_seq; intros _; apply yields_ret; by left|].
  apply yields_seq. intros [c|e]; [|apply HE]. apply yields_seq. intros _.
  eapply yields_bind; [apply (run_yields id), dispatch_yields|]. intros [[raw k]|e]; [apply yields_ret; by right|apply HE].
Qed.

Lemma walk_yields rg rn c r entries primary last_ total : yields None (sel_of as_raw) (walk (Registry_Stream rg) rn c r primary last_ total entries).
Proof.
  revert last_ total. induction entries as [|e entries IH]; intros last_ total; cbn [walk]; [apply yields_ret; by left|].
  destruct (_ <=? total); [apply yields_ret; by left|]. destruct (Match _ _); [|apply IH]. apply yields_seq. intros [d|].
  - apply yields_seq. intros _. apply yields_ret; by left.
  - apply yields_seq. intros _. eapply yields_bind; [apply stream_yields|]. intros [s|e']; [apply yields_ret; by right|apply IH].
Qed.

Lemma fn_yields rg chainId r : yields None (sel_of as_raw) (stream_fn rg chainId r).
Proof.
  unfold stream_fn, Runner_Stream. case_bool_decide; [apply stream_yields|]. eapply yields_bind; [apply stream_yields|]. intros [s|e]; [apply yields_ret; by right|].
  apply yields_seq. intros [[c|]|e']; [apply walk_yields|apply yields_ret; by left..].
Qed.

Lemma open_yields rg chainId r p n a : yields None (sel_of as_raw) (open_from (stream_fn rg chainId r) p n a).
Proof.
  revert a. induction n as [|n IH]; intros a; cbn [open_from]; [apply yields_ret; by left|]. apply yields_seq. intros [e|]; [apply yields_ret; by left|].
  eapply yields_bind; [apply fn_yields|]. intros [s|e]; [apply yields_ret; by right|]. destruct (negb _); [apply yields_ret; by left|].
  apply yields_seq. intros b. destruct n as [|n]; [apply yields_ret; by left|]. apply yields_seq. intros [w|]; [apply yields_ret; by left|apply IH].
Qed.

(** * The answer *)

Definition same_reply (r resp : Response) : Prop := resp_Content r = resp_Content resp /\ resp_ToolCalls r = resp_ToolCalls resp.

(** The schema check passed the text of a reply. *)
Definition fits (f : ResponseFormat) (resp : Response) (t : list (obs ev)) : Prop :=
  Obs (CheckReply (fmt_Schema f) (blocks_text (resp_Content resp))) None ∈ t.
Definition misfits (f : ResponseFormat) (resp : Response) (t : list (obs ev)) : Prop :=
  exists v, Obs (CheckReply (fmt_Schema f) (blocks_text (resp_Content resp))) (Some v) ∈ t.

(** The reply is the one the stream ended with or, when a JSON format is asked for and that
    one does not fit, the one a second stream of the run ended with, which fits. *)
Definition answers (s : AStream) (t : list (obs ev)) (r : Response) : Prop :=
  exists resp, rs_final (as_raw s) = Ok resp /\
    (same_reply r resp /\ (forall f, json_format (as_req s) = Some f -> fits f resp t) \/
     exists f raw2 resp2, json_format (as_req s) = Some f /\ fmt_Strict f = false /\ misfits f resp t /\
       raw2 ∈ opened t /\ rs_final raw2 = Ok resp2 /\ fits f resp2 t /\ same_reply r resp2).

Lemma elem_opened raw t t' : (forall o, o ∈ t -> o ∈ t') -> raw ∈ opened t -> raw ∈ opened t'.
Proof. intros H (o & Ho & Hr)%list_elem_of_omap. apply list_elem_of_omap. eauto. Qed.

Lemma answers_grow s t t' r : (forall o, o ∈ t -> o ∈ t') -> answers s t r -> answers s t' r.
Proof.
  intros Hsub (resp & Hf & [(H1 & H2)|(f & raw2 & resp2 & H1 & H2 & (v & H3) & H4 & H5 & H6 & H7)]); exists resp; (split; [done|]).
  - left. split; [done|]. intros f Hj. by apply Hsub, H2.
  - right. exists f, raw2, resp2. split_and!; [done..|by exists v; apply Hsub|by eapply elem_opened|done|by apply Hsub|done].
Qed.

Lemma repair_answers norepair s f resp : rs_final (as_raw s) = Ok resp -> json_format (as_req s) = Some f ->
  ensures (repair norepair s f resp) (fun t res => forall r, res = Ok r -> answers s t r).
Proof.
  intros Hf Hj t res. unfold repair. intros (v & t1 & -> & H). destruct v as [v|]; cbn [bind] in H.
  2: { destruct H as [-> ->]. intros r [= <-]. exists resp. split; [done|]. left. split; [done|]. intros f' Hf'. rewrite Hj in Hf'. injection Hf' as <-.
       unfold fits. set_solver. }
  destruct (fmt_Strict f || norepair) eqn:Hs; [by destruct H as [-> ->]|]. apply orb_false_iff in Hs as [Hs _].
  apply runs_bind in H as (x & t2 & t3 & -> & H2 & H). destruct x as [[raw2 k]|e]; [|by destruct H as [-> ->]].
  pose proof (run_yields id _ _ _ _ (dispatch_yields _ _ _) _ _ H2 raw2 eq_refl) as [Hop|]; [|done].
  destruct (rs_final raw2) as [resp2|e] eqn:Hf2; [|by destruct H as [-> ->]]. destruct H as (v2 & t4 & -> & [-> ->]).
  destruct v2 as [v2|]; [done|]. intros r [= <-]. exists resp. split; [done|]. right. exists f, raw2, resp2.
  split_and!; try done; [exists v; set_solver| |unfold fits; set_solver].
  eapply elem_opened; [|exact Hop]. set_solver.
Qed.

Lemma final_answers norepair s : ensures (Final norepair s) (fun t res => forall r, res = Ok r -> answers s t r).
Proof.
  unfold Final. intros t res (fin & t1 & t2 & -> & H1 & H2)%runs_bind. destruct fin as [resp|e]; [|apply fail_runs in H2 as [_ ->]; done].
  destruct H2 as ([] & t3 & -> & [-> ->]). intros r [= <-].
  assert (answers s t1 resp) as Ha.
  { destruct (rs_final (as_raw s)) as [resp0|e] eqn:Hf; [|by destruct H1]. destruct (json_format (as_req s)) as [f|] eqn:Hj.
    - by eapply repair_answers.
    - destruct H1 as [-> [= <-]]. exists resp. split; [done|]. left. split; [done|]. by rewrite Hj. }
  eapply answers_grow; [|exact Ha]. set_solver.
Qed.

(** * The pump *)

Definition from_run (t : list (obs ev)) (J : AStream -> Prop) (s s' : current) : Prop :=
  s' = s \/ (exists A, s' = inl A /\ as_raw A ∈ opened t /\ J A) \/ (exists e, s' = inr e).

(** The content shown is that of one stream [s'] of the run, or nothing; an answer is of that stream. *)
Definition one_stream (J : AStream -> Prop) (s : current) (t : list (obs ev)) (res : result Response llm_err) : Prop :=
  exists s', from_run t J s s' /\ (content (shown t) = [] \/ content (shown t) = content (events_of s')) /\
    forall resp, res = Ok resp -> content (shown t) = content (events_of s') /\ exists A, s' = inl A /\ answers A t resp.

Lemma pump_shows rg chainId r norepair p (J : AStream -> Prop) : returns (fun res => forall s, res = Ok s -> J s) (stream_fn rg chainId r) -> forall n a s,
  ensures (pump (stream_fn rg chainId r) (Final norepair) p n a s)
    (one_stream J s).
Proof.
  intros HJ. induction n as [|n IH]; intros a s t res; cbn [pump]; [intros [-> ->]; exists s; split; [by left|]; split; [by left|done]|].
  intros ([] & t1 & t0 & -> & H1 & H)%runs_bind. apply deliver_shows in H1. apply runs_bind in H as (fin & t2 & t3 & -> & H2 & H).
  assert (Hs2 : shown t2 = []).
  { apply none_shown. destruct s as [A|e]; [exact (final_hushed _ _ _ _ H2)|]. destruct H2 as [-> _]. done. }
  assert (Hstop : forall res', fin = res' -> t3 = [] -> res = res' -> one_stream J s (t1 ++ t2 ++ t3) res).
  { intros res' <- -> ->. unfold one_stream. rewrite !shown_app, H1, Hs2, !app_nil_r. exists s. split; [by left|]. split; [by right|]. intros resp ->. split; [done|].
    destruct s as [A|e]; [|by destruct H2]. exists A. split; [done|]. eapply answers_grow; [|by apply (final_answers _ _ _ _ H2)]. set_solver. }
  destruct fin as [resp|e]; [destruct H as [-> ->]; by eapply Hstop|]. destruct (negb (IsTransient e)); [destruct H as [-> ->]; by eapply Hstop|].
  destruct (existsb is_content (events_of s)) eqn:EC; [destruct H as [-> ->]; by eapply Hstop|]. destruct n as [|n]; [destruct H as [-> ->]; by eapply Hstop|].
  assert (Hno : content (shown (t1 ++ t2)) = []).
  { rewrite shown_app, H1, Hs2, app_nil_r. unfold content. apply filter_bool_none. intros x Hx.
    destruct (is_content x) eqn:Ex; [|done]. rewrite (proj2 (existsb_exists _ _)) in EC; [done|]. exists x. split; [by apply list_elem_of_In|done]. }
  apply runs_bind in H as (b & t4 & t5 & -> & H4 & H). apply runs_bind in H as (w & t6 & t7 & -> & H6 & H).
  assert (Hs4 : shown t4 = []) by (apply none_shown; exact (jittered_at_most is_shown _ _ shown_quiet _ _ H4)).
  assert (Hs6 : shown t6 = []) by (apply none_shown; exact (sleep_at_most is_shown _ shown_quiet _ _ H6)).
  assert (Hpre : forall u, content (shown (t1 ++ t2 ++ t4 ++ t6 ++ u)) = content (shown u)).
  { intros u. rewrite app_assoc, shown_app, content_app, Hno. by rewrite !shown_app, Hs4, Hs6. }
  assert (Herr : forall u e0, shown u = [] -> res = Err e0 -> one_stream J s (t1 ++ t2 ++ t4 ++ t6 ++ u) res).
  { intros u e0 Hu ->. unfold one_stream. rewrite Hpre, Hu. exists s. split; [by left|]. split; [by left|done]. }
  destruct w as [ew|]; [destruct H as [-> ->]; by eapply Herr|]. apply runs_bind in H as (again & t8 & t9 & -> & H8 & H).
  assert (Hs8 : shown t8 = []) by (apply none_shown; exact (fn_hushed _ _ _ _ _ H8)).
  assert (Hgo : forall s1, (exists A, s1 = inl A /\ as_raw A ∈ opened t8 /\ J A) \/ (exists e, s1 = inr e) ->
            runs (pump (stream_fn rg chainId r) (Final norepair) p (S n) (S a) s1) t9 res -> one_stream J s (t1 ++ t2 ++ t4 ++ t6 ++ t8 ++ t9) res).
  { intros s1 Hs1 Hrun. destruct (IH _ _ _ _ Hrun) as (s' & Hf & Hsh & Hok). unfold one_stream. rewrite Hpre, shown_app, Hs8. exists s'.
    split; [|split; [done|intros resp Hres; destruct (Hok resp Hres) as (Hc & A & HA & Hans); split; [done|exists A; split; [done|eapply answers_grow; [|exact Hans]; set_solver]]]]. right.
    destruct Hf as [->|[(A & -> & HA & HJA)|He]]; [|left; exists A; rewrite !opened_app; set_solver|by right].
    destruct Hs1 as [(A & -> & HA & HJA)|He]; [left; exists A; rewrite !opened_app; set_solver|by right]. }
  destruct again as [A|e'].
  - apply (Hgo (inl A)); [|done]. left. exists A. split; [done|]. split; [|by apply (HJ _ _ H8)]. by destruct (fn_yields _ _ _ _ _ H8 (as_raw A) eq_refl).
  - destruct (negb (IsTransient e')); [destruct H as [-> ->]; apply (Herr _ e'); [by rewrite app_nil_r|done]|]. apply (Hgo (inr e')); [right; by eexists|done].
Qed.

(** C15: nothing the user is shown mixes two attempts.  In every run of a model request the
    text and tool calls that were delivered are exactly those of one stream that a provider
    opened in this run, or there are none.  A successful answer is the reply [resp] which
    that same stream ended with; only when the request asks for JSON, not strictly, and the
    check rejected [resp] is it the reply of a second, repairing stream, never shown.  The
    answer to a request for JSON is one the schema check accepted. *)
Theorem shown_text_is_of_one_stream rg chainId gen :
  ensures (Generate rg chainId gen) (fun t res =>
    (content (shown t) = [] \/ exists raw, raw ∈ opened t /\ content (shown t) = content (rs_events raw)) /\
    forall out, res = Ok out -> exists raw resp,
      raw ∈ opened t /\ content (shown t) = content (rs_events raw) /\ rs_final raw = Ok resp /\
      (forall f, json_format gen = Some f -> Obs (CheckReply (fmt_Schema f) (lr_Content out)) None ∈ t) /\
      (lr_Content out = blocks_text (resp_Content resp) /\ lr_ToolCalls out = resp_ToolCalls resp \/
       exists f raw2 resp2, json_format gen = Some f /\ fmt_Strict f = false /\ misfits f resp t /\
         raw2 ∈ opened t /\ rs_final raw2 = Ok resp2 /\
         lr_Content out = blocks_text (resp_Content resp2) /\ lr_ToolCalls out = resp_ToolCalls resp2)).
Proof.
  destruct (attempts_exist rg (gr_RetryOverride gen)) as [n Hn]. destruct (stream_fn_calls rg chainId gen n Hn) as [HA HR].
  set (J := fun s => stream_of gen n s) in *. unfold Generate. set (p := StreamPolicyFromLLM _). intros t res (o & t1 & t2 & -> & H1 & H2)%runs_bind.
  destruct (open_calls J _ (sp_apply p) _ (attempts_of p) 1 HA HR) as [_ HP].
  assert (Hs1 : shown t1 = []).
  { apply none_shown. exact (open_hushed _ _ _ _ _ _ _ _ H1). }
  destruct o as [s|e]; [|destruct H2 as [-> ->]; rewrite app_nil_r, Hs1; split; [by left|done]].
  apply runs_bind in H2 as (fin & t3 & t4 & -> & H3 & [-> ->]). rewrite app_nil_r, shown_app, Hs1. cbn [app].
  assert (Hraw : as_raw s ∈ opened t1) by (by destruct (open_yields _ _ _ _ _ _ _ _ H1 (as_raw s) eq_refl)).
  destruct (pump_shows rg chainId gen _ _ J HR _ _ _ _ _ H3) as (s' & Hf & Hsh & Hok).
  assert (Hfrom : forall A, s' = inl A -> as_raw A ∈ opened (t1 ++ t3) /\ J A).
  { intros A ->. rewrite opened_app, elem_of_app. destruct Hf as [HA'|[(B & HB & HB1 & HB2)|(e & He)]]; [|by injection HB as ->; auto|done].
    injection HA' as ->. split; [by left|]. by apply (HP _ _ H1). }
  split.
  - destruct Hsh as [H|H]; [by left|]. destruct s' as [A|e]; [|by left]. right. exists (as_raw A). split; [by apply Hfrom|done].
  - intros out Hout. destruct fin as [r|e]; [|done]. injection Hout as <-. destruct (Hok r eq_refl) as (Hc & A & -> & resp & Hfin & Hans).
    destruct (Hfrom A eq_refl) as [HinA [_ HjA]]. exists (as_raw A), resp. split; [done|]. split; [done|]. split; [done|].
    rewrite <- HjA. destruct Hans as [[[Hcont Htc] Hfit]|(f & raw2 & resp2 & Hj & Hst & (v & Hv) & Hop & Hf2 & Hfit & Hcont & Htc)]; cbn [to_llm lr_Content lr_ToolCalls].
    + split; [intros f Hj; rewrite Hcont; by apply elem_of_app; right; apply Hfit|]. left. by rewrite Hcont.
    + split; [intros f' Hj'; rewrite Hj in Hj'; injection Hj' as <-; rewrite Hcont; by apply elem_of_app; right|].
      right. exists f, raw2, resp2. split_and!; [done..|exists v; by apply elem_of_app; right|rewrite opened_app; by apply elem_of_app; right|done|by rewrite Hcont|done].
Qed.
