(* ===== verification/ModelCallRetry.v ===== *)
(** The retry and fallback rules of a model request: the backoff schedule, the waiting a
    provider asks for, what a walk of a fallback chain records and returns, and the failure
    class the user is told. *)
From S2P Require Import Prelude GoString Catalog ModelErr Io ModelGates ModelReg ModelCall CatalogProps ModelCallProps.
Local Open Scope Z_scope.

(** * The backoff schedule *)

Lemma backoff_loop_min maxMS n delay : 0 < maxMS <= 2 ^ 62 -> 0 < delay < 2 ^ 62 -> backoff_loop maxMS n delay = Z.min maxMS (delay * 2 ^ Z.of_nat n).
Proof.
  intros Hm. revert delay. induction n as [|n IH]; intros delay Hd; cbn [backoff_loop].
  - rewrite (proj2 (Z.ltb_lt 0 maxMS)) by lia. cbn. destruct (maxMS <? delay) eqn:E; lia.
  - rewrite int64_small by lia. rewrite (proj2 (Z.ltb_lt 0 maxMS)) by lia. cbn [andb]. rewrite Nat2Z.inj_succ, Z.pow_succ_r by lia.
    assert (H1 : 1 <= 2 ^ Z.of_nat n) by (pose proof (Z.pow_pos_nonneg 2 (Z.of_nat n)); lia).
    destruct (maxMS <=? delay * 2) eqn:E; [apply Z.leb_le in E; nia|]. apply Z.leb_gt in E. rewrite IH by lia. f_equal. lia.
Qed.

(** The delay the middleware computes after an attempt is the base doubled once per
    earlier attempt, capped at the maximum; no doubling overflows, however many attempts a
    policy allows. *)
Theorem model_backoff_schedule p attempt :
  0 < po_MaxMS p <= 2 ^ 62 -> 0 < po_BaseMS p < 2 ^ 62 -> computeBackoff p (S attempt) = Z.min (po_MaxMS p) (po_BaseMS p * 2 ^ Z.of_nat attempt).
Proof. intros Hm Hb. unfold computeBackoff. rewrite backoff_loop_min by done. do 4 f_equal. lia. Qed.

Lemma model_backoff_schedule_witness :
  (0 < po_MaxMS (FromLLM None) <= 2 ^ 62) /\ (0 < po_BaseMS (FromLLM None) < 2 ^ 62) /\
  map (fun a => computeBackoff (FromLLM None) (S a)) (seq 0 6) = [250; 500; 1000; 2000; 4000; 5000] /\
  computeBackoff (FromLLM None) (S 1000) = Z.min 5000 (250 * 2 ^ 1000).
Proof.
  assert (H1 : 0 < po_MaxMS (FromLLM None) <= 2 ^ 62) by (cbn; lia). assert (H2 : 0 < po_BaseMS (FromLLM None) < 2 ^ 62) by (cbn; lia).
  split; [exact H1|]. split; [exact H2|]. split; [by vm_compute|]. exact (model_backoff_schedule (FromLLM None) 1000 H1 H2).
Defined.

(** The stream retry's delay has no cap: from a quarter of a second the thirty-sixth
    doubling runs past a 64-bit integer. *)
Example stream_backoff_overflows : doubled 36 (250 * millisecond) < 0.
Proof. by vm_compute. Qed.

(** * The waiting a provider asks for *)

Inductive mark := MCall (owed : Z) | MWait (ns : Z) | MOther.

Definition mark_of (o : obs ev) : mark :=
  match o with
  | Obs e a =>
      match e in ev A return A -> mark with
      | Dispatch _ _ _ => fun a => MCall (match a with Err e => retryAfterMS e * millisecond | Ok _ => 0 end)
      | Sleep ns => fun a => match a with None => MWait ns | Some _ => MOther end
      | _ => fun _ => MOther
      end a
  end.

(** No call is made while a waiting time is owed; one uninterrupted wait of that length pays it. *)
Fixpoint patient (owed : Z) (l : list mark) : Prop :=
  match l with
  | [] => True
  | MCall o :: l => owed <= 0 /\ patient o l
  | MWait ns :: l => patient (if owed <=? ns then 0 else owed) l
  | MOther :: l => patient owed l
  end.

(** The largest number of milliseconds a duration holds. *)
Definition max_duration_ms : Z := 9223372036854.

(** What the random source and the providers answer fits a duration. *)
Definition sane (o : obs ev) : Prop :=
  match o with
  | Obs e a =>
      match e in ev A return A -> Prop with
      | Dispatch _ _ _ => fun a => match a with Err e => retryAfterMS e <= max_duration_ms | Ok _ => True end
      | FullJitter _ => fun a => 0 <= a <= max_duration_ms
      | _ => fun _ => True
      end a
  end.

Lemma retryAfterMS_nonneg e : 0 <= retryAfterMS e.
Proof. unfold retryAfterMS. destruct (as_transient e) as [[[s m] ms]|]; [|lia]. destruct (0 <? ms) eqn:E; lia. Qed.

Lemma computeBackoff_range p a : 0 < po_MaxMS p <= 2 ^ 62 -> 0 < po_BaseMS p < 2 ^ 62 -> 0 < computeBackoff p a <= po_MaxMS p.
Proof.
  intros Hm Hb. unfold computeBackoff. rewrite backoff_loop_min by done.
  assert (H1 : 1 <= 2 ^ Z.of_nat (a - 1)) by (pose proof (Z.pow_pos_nonneg 2 (Z.of_nat (a - 1))); lia). nia.
Qed.

(** The middleware's pause between two attempts. *)
Lemma pause_pays (actual server : Z) t w rest : 0 <= server <= actual -> actual <= max_duration_ms ->
  runs (sleep (int64 (actual * millisecond))) t w -> (w = None -> patient 0 (map mark_of rest)) -> (w <> None -> rest = []) ->
  patient (server * millisecond) (map mark_of (t ++ rest)).
Proof.
  intros Hs Ha Hr Hn Hw. unfold max_duration_ms in Ha. unfold millisecond in *. rewrite int64_small in Hr by lia. unfold sleep in Hr.
  destruct (actual * 1000000 <=? 0) eqn:E; apply runs_ask in Hr as ->; cbn.
  - assert (server = 0) as -> by lia. destruct w as [e|]; [by rewrite Hw|by apply Hn].
  - destruct w as [e|]; [by rewrite Hw|]. cbn. rewrite (proj2 (Z.leb_le _ _)) by lia. by apply Hn.
Qed.

(** C17: a provider's Retry-After is kept between the middleware's attempts: whatever the
    providers and the random source answer, within one run of the middleware no call is made
    before one uninterrupted wait at least as long as the last answer asked for. *)
Theorem retry_after_is_kept p r prof cred :
  0 < po_MaxMS p <= max_duration_ms -> 0 < po_BaseMS p < 2 ^ 62 ->
  ensures (Run p (ask (Dispatch r prof cred))) (fun t _ => Forall sane t -> patient 0 (map mark_of t)).
Proof.
  intros Hm Hb. unfold Run. generalize 1%nat as a. induction (Z.to_nat _) as [|n IH]; intros a t res; cbn [Run_from]; [by intros [-> _]|].
  intros (c & t1 & -> & H1) [_ HF]%Forall_cons_1. cbn. destruct c as [e|]; [by destruct H1 as [-> _]|].
  destruct H1 as (x & t2 & -> & H2). apply Forall_cons_1 in HF as [Hx HF]. cbn [map patient mark_of]. cbn in Hx. split; [lia|].
  cbn [bind] in H2. destruct x as [x|e]; [by destruct H2 as [-> _]|]. destruct (negb (IsTransient e)); [by destruct H2 as [-> _]|].
  pose proof (retryAfterMS_nonneg e) as H0. assert (Hmax : po_MaxMS p <= 2 ^ 62) by (unfold max_duration_ms in Hm; lia).
  pose proof (computeBackoff_range p a (conj (proj1 Hm) Hmax) Hb) as Hcb. apply runs_bind in H2 as (j & t3 & t4 & -> & H3 & H4).
  apply Forall_app in HF as [HF3 HF4].
  assert (Hj : 0 <= j <= max_duration_ms /\ forall o l, patient o (map mark_of (t3 ++ l)) <-> patient o (map mark_of l)).
  { destruct (po_Full p); [apply runs_ask in H3 as ->; apply Forall_cons_1 in HF3 as [HF3 _]; done|].
    destruct H3 as [-> ->]. split; [lia|done]. }
  destruct Hj as [Hj Hskip]. rewrite Hskip. destruct H4 as ([] & t5 & -> & H5). cbn [map patient mark_of]. apply Forall_cons_1 in HF4 as [_ HF5].
  cbn [bind] in H5. destruct n as [|n]; [by destruct H5 as [-> _]|]. apply runs_bind in H5 as (w & t6 & t7 & -> & H6 & H7). apply Forall_app in HF5 as [_ HF7].
  eapply (pause_pays _ _ _ w); [|  |exact H6| |]; [lia|lia| |].
  - intros ->. by apply (IH (S a) _ _ H7).
  - intros Hw. destruct w; [by destruct H7|done].
Qed.

Definition asking (ms : Z) : llm_err := ETransient 429 "slow down" None ms.

Lemma retry_after_is_kept_witness :
  (0 < po_MaxMS (FromLLM None) <= max_duration_ms) /\ (0 < po_BaseMS (FromLLM None) < 2 ^ 62) /\
  let t := (play_demo (fun _ => Err (asking 30000)) [] (Run (FromLLM None) (ask (Dispatch plain_request (some_profile "p" "m") None)))).1 in
  count is_dispatch t = 3%nat /\ (Forall sane t -> patient 0 (map mark_of t)).
Proof.
  assert (H1 : 0 < po_MaxMS (FromLLM None) <= max_duration_ms) by (unfold max_duration_ms; cbn; lia).
  assert (H2 : 0 < po_BaseMS (FromLLM None) < 2 ^ 62) by (cbn; lia). split; [exact H1|]. split; [exact H2|]. cbv zeta. split; [by vm_compute|].
  exact (retry_after_is_kept (FromLLM None) plain_request (some_profile "p" "m") None H1 H2 _ _ (play_demo_runs _ [] _)).
Defined.

(** The stream retry around it does not keep it: the provider asks for thirty seconds, and
    the fourth call comes a quarter of a second after the third. *)
Example outer_retry_is_impatient :
  map mark_of (play_demo (fun _ => Err (asking 30000)) [] (Generate demo_registry "" plain_request)).1 =
    let call := MCall 30000000000 in let wait := MWait 30000000000 in
    let three := [MOther; MOther; MOther; MOther; MOther; call; MOther; MOther; wait; MOther; call; MOther; MOther; wait; MOther; call; MOther; MOther; MOther] in
    three ++ [MOther; MWait 250000000] ++ three ++ [MOther; MWait 500000000] ++ three ++ [MOther].
Proof. by vm_compute. Qed.

(** * The fallback walk *)

Local Open Scope nat_scope.

Definition attempt_of (o : obs ev) : option (string * string * TriggerCondition * nat) :=
  match o with Obs e _ => match e with FallbackAttempted p m t k => Some (p, m, t, k) | _ => None end end.
Definition attempts (t : list (obs ev)) : list (string * string * TriggerCondition * nat) := omap attempt_of t.

Lemma attempts_app t1 t2 : attempts (t1 ++ t2) = attempts t1 ++ attempts t2.
Proof. apply omap_app. Qed.

(** What a trigger stands for. *)
Definition says (words : list string) (m : string) : Prop := Exists (fun w => Contains (ToLower m) w = true) words.

Definition applies (e : llm_err) (t : TriggerCondition) : Prop :=
  match t with
  | TriggerErrorAny => True
  | TriggerError5xx => exists s m ms, as_transient e = Some (s, m, ms) /\ (500 <= s < 600 \/ s = 429)%Z
  | TriggerError429 => exists m ms, as_transient e = Some (429%Z, m, ms)
  | TriggerErrorAuthFailed => as_auth e <> None \/ as_provider_auth e <> None
  | TriggerErrorContextOverflow =>
      exists m, as_invalid e = Some (400%Z, m) /\ says ["context"; "token"; "length"; "too long"; "maximum context"] m
  | TriggerErrorSafetyBlock => exists m, as_invalid e = Some (400%Z, m) /\ says ["safety"; "content_policy"; "content policy"; "blocked"; "harm"] m
  | TriggerOther _ => False
  end.

Lemma says_iff words m : says words m <-> existsb (Contains (ToLower m)) words = true.
Proof.
  unfold says. induction words as [|w words IH]; cbn; [by rewrite Exists_nil|]. by rewrite Exists_cons, orb_true_iff, IH.
Qed.

Lemma invalid_says e words : (exists m, as_invalid e = Some (400%Z, m) /\ says words m) <->
  match as_invalid e with Some (s, m) => (s =? 400)%Z && existsb (Contains (ToLower m)) words | None => false end = true.
Proof.
  destruct (as_invalid e) as [[s m]|]; [|naive_solver]. rewrite andb_true_iff, Z.eqb_eq, <- says_iff. naive_solver.
Qed.

Lemma matchOne_applies e t : matchOne e t = true <-> applies e t.
Proof.
  destruct t; cbn [matchOne applies].
  - destruct (as_transient e) as [[[s m] ms]|]; [|naive_solver].
    rewrite !orb_true_iff, andb_true_iff, Z.leb_le, Z.ltb_lt, !Z.eqb_eq. split.
    + intros H. exists s, m, ms. split; [done|]. lia.
    + intros (? & ? & ? & ? & ?). simplify_eq. lia.
  - destruct (as_transient e) as [[[s m] ms]|]; [|naive_solver]. rewrite Z.eqb_eq. naive_solver.
  - rewrite orb_true_iff. destruct (as_auth e), (as_provider_auth e); cbn; naive_solver.
  - rewrite invalid_says. destruct (as_invalid e) as [[s m]|]; [|done]. cbn [existsb]. cbv zeta. by rewrite orb_false_r, <- !orb_assoc.
  - rewrite invalid_says. destruct (as_invalid e) as [[s m]|]; [|done]. cbn [existsb]. cbv zeta. by rewrite orb_false_r, <- !orb_assoc.
  - done.
  - done.
Qed.

(** None of an entry's triggers applies; [tr] is the first one that does. *)
Definition passed_over (e : llm_err) (en : ChainEntry) : Prop := Forall (fun t => ~ applies e t) (ce_Triggers en).
Definition picked_for (e : llm_err) (en : ChainEntry) (tr : TriggerCondition) : Prop :=
  exists before after, ce_Triggers en = before ++ tr :: after /\ Forall (fun t => ~ applies e t) before /\ applies e tr.

Lemma Match_picks e en : match Match e (ce_Triggers en) with Some tr => picked_for e en tr | None => passed_over e en end.
Proof.
  unfold picked_for, passed_over. induction (ce_Triggers en) as [|t ts IH]; cbn [Match]; [constructor|].
  destruct (matchOne e t) eqn:E; [exists [], ts; split_and!; [done|constructor|by apply matchOne_applies]|].
  assert (~ applies e t) by (rewrite <- matchOne_applies; by rewrite E). destruct (Match e ts).
  - destruct IH as (b & a & -> & Hb & Ha). exists (t :: b), a. split_and!; [done|by constructor|done].
  - by constructor.
Qed.

(** The request of a hop: the entry's profile and model, its parameters over those of the
    request, everything else unchanged. *)
Definition redirected (r : GenerationRequest) (en : ChainEntry) (r' : GenerationRequest) : Prop :=
  gr_ProfileID r' = ce_ProviderID en /\
  gr_Model r' = (if bool_decide (ce_Model en = "") then gr_Model r else ce_Model en) /\
  (forall k, gr_Params r' !! k = match ce_ParamOverrides en !! k with Some v => Some v | None => gr_Params r !! k end) /\
  (gr_Messages r', gr_System r', gr_SystemVolatile r', gr_Tools r', gr_Attachments r', gr_SessionID r', gr_ResponseFormat r', gr_RetryOverride r') =
  (gr_Messages r, gr_System r, gr_SystemVolatile r, gr_Tools r, gr_Attachments r, gr_SessionID r, gr_ResponseFormat r, gr_RetryOverride r).

Lemma hop_request_redirected r en : redirected r en (hop_request r en).
Proof.
  split_and!; [done|done| |done]. intros k. cbn. rewrite lookup_union. by destruct (ce_ParamOverrides en !! k), (gr_Params r !! k).
Qed.

(** A hop: the entries passed over before it, its entry and trigger, what was asked in it and
    how it ended. *)
Record hop := {
  hp_skipped : list ChainEntry; hp_entry : ChainEntry; hp_trigger : TriggerCondition;
  hp_trace : list (obs ev); hp_result : result AStream llm_err
}.

(** Each hop answers the error before it, the primary's or the last hop's: the entries in
    between do not match that error, its own does, and it sends the redirected request. *)
Fixpoint chained (stream : GenerationRequest -> prog (result AStream llm_err)) (r : GenerationRequest) (last_ : llm_err) (hops : list hop) : Prop :=
  match hops with
  | [] => True
  | h :: hops =>
      Forall (passed_over last_) (hp_skipped h) /\ picked_for last_ (hp_entry h) (hp_trigger h) /\
      (exists r', redirected r (hp_entry h) r' /\ runs (stream r') (hp_trace h) (hp_result h)) /\
      match hp_result h with Ok _ => hops = [] | Err e => chained stream r e hops end
  end.

(** The error the walk stands at after these hops, or the stream it got. *)
Fixpoint reached (last_ : llm_err) (hops : list hop) : result AStream llm_err :=
  match hops with
  | [] => Err last_
  | h :: hops => match hp_result h with Ok s => Ok s | Err e => reached e hops end
  end.

Definition visited (hops : list hop) : list ChainEntry := concat (map (fun h => hp_skipped h ++ [hp_entry h]) hops).
Definition hop_sent (hops : list hop) : list (GenerationRequest * ProviderProfile * option string) := concat (map (fun h => sent (hp_trace h)) hops).

(** The audit records of hops, numbered from [k]. *)
Fixpoint hop_records (k : nat) (hops : list hop) : list (string * string * TriggerCondition * nat) :=
  match hops with
  | [] => []
  | h :: hops => (ce_ProviderID (hp_entry h), ce_Model (hp_entry h), hp_trigger h, k) :: hop_records (S k) hops
  end.

(** The policy forbade the fallback. *)
Definition blocked (c : Chain) (t : list (obs ev)) : Prop := exists e, Obs (FallbackPolicy (ch_ID c)) (Some e) ∈ t.

(** What a walk over [entries] from error [last_] on does, [total] hops behind it. *)
Definition walked stream (rn : Runner) (c : Chain) r (primary last_ : llm_err) (total : nat) (entries : list ChainEntry)
    (t : list (obs ev)) (res : result AStream llm_err) : Prop :=
  exists hops rest,
    entries = visited hops ++ rest /\ chained stream r last_ hops /\ total + length hops <= MaxWholeChainAttempts /\
    sent t = hop_sent hops /\ attempts t = (if rn_OnAttempt rn then hop_records (S total) hops else []) /\
    match reached last_ hops with
    | Ok s => res = Ok s
    | Err e =>
        total + length hops = MaxWholeChainAttempts /\ res = Err (EFallbackExhausted (ch_ID c) MaxWholeChainAttempts e) \/
        total + length hops < MaxWholeChainAttempts /\ res = Err primary /\ (Forall (passed_over e) rest \/ blocked c t)
    end.

Lemma walked_skip stream rn c r primary last_ total en entries t res : passed_over last_ en ->
  walked stream rn c r primary last_ total entries t res -> walked stream rn c r primary last_ total (en :: entries) t res.
Proof.
  intros Hp (hops & rest & -> & Hc & Hn & Hs & Ha & Hres). destruct hops as [|h hops].
  - exists [], (en :: rest). split_and!; try done. cbn in *. destruct Hres as [?|(? & ? & [Hf|?])]; [by left|right..]; split_and!; try done; [left; by constructor|by right].
  - exists ({| hp_skipped := en :: hp_skipped h; hp_entry := hp_entry h; hp_trigger := hp_trigger h; hp_trace := hp_trace h; hp_result := hp_result h |} :: hops), rest.
    destruct Hc as (H1 & H2 & H3 & H4). cbn in *. split_and!; try done. by constructor.
Qed.

Lemma walked_end stream rn c r primary last_ total entries : total <= MaxWholeChainAttempts ->
  (total < MaxWholeChainAttempts -> entries = []) -> walked stream rn c r primary last_ total entries [] (exhausted c primary last_ total).
Proof.
  intros Ht He. exists [], entries. cbn [visited hop_sent hop_records chained length app map concat].
  split_and!; [done|done|lia|done|by destruct (rn_OnAttempt rn)|]. cbn [reached length]. unfold exhausted.
  destruct (Nat.leb_spec MaxWholeChainAttempts total).
  - left. split; [lia|]. do 2 f_equal. lia.
  - right. split_and!; [lia|done|]. left. rewrite He by lia. constructor.
Qed.

Lemma sent_app t1 t2 : sent (t1 ++ t2) = sent t1 ++ sent t2.
Proof. apply omap_app. Qed.

Lemma blocked_mono c t t' : (forall o, o ∈ t -> o ∈ t') -> blocked c t -> blocked c t'.
Proof. intros H [e He]. exists e. auto. Qed.

(** One more hop in front. *)
Lemma walked_hop stream rn c r primary last_ total en tr entries t0 t1 t2 hop res :
  total < MaxWholeChainAttempts -> picked_for last_ en tr -> sent t0 = [] -> attempts t0 = (if rn_OnAttempt rn then [(ce_ProviderID en, ce_Model en, tr, S total)] else []) ->
  attempts t1 = [] -> runs (stream (hop_request r en)) t1 hop ->
  match hop with
  | Ok s => t2 = [] /\ res = Ok s
  | Err e => walked stream rn c r primary e (S total) entries t2 res
  end -> walked stream rn c r primary last_ total (en :: entries) (t0 ++ t1 ++ t2) res.
Proof.
  intros Ht Hp Hs0 Ha0 Ha1 Hr H. unfold walked.
  set (h := {| hp_skipped := []; hp_entry := en; hp_trigger := tr; hp_trace := t1; hp_result := hop |}).
  assert (exists r', redirected r en r' /\ runs (stream r') t1 hop) as Hrr by (eexists; split; [apply hop_request_redirected|done]).
  destruct hop as [s|e].
  - destruct H as [-> ->]. exists [h], entries. rewrite sent_app, attempts_app, !app_nil_r, Hs0, Ha0, Ha1. cbn.
    rewrite !app_nil_r. split_and!; [done|constructor|done|done|done|lia|done|by destruct (rn_OnAttempt rn)|done].
  - destruct H as (hops & rest & -> & Hc & Hn & Hs & Ha & Hres). exists (h :: hops), rest. rewrite !sent_app, !attempts_app, Hs0, Ha0, Ha1, Hs, Ha. cbn.
    split_and!; [done|constructor|done|done|done|lia|done|by destruct (rn_OnAttempt rn)|]. destruct (reached e hops) as [s|e']; [done|].
    destruct Hres as [[Hl ->]|(Hl & -> & [Hf|Hb])]; [left; split; [lia|done]|right; split_and!; [lia|done|by left]|right; split_and!; [lia|done|]].
    right. eapply blocked_mono; [|exact Hb]. set_solver.
Qed.

(** C18: what the walk of a fallback chain does.  It is a list of
    hops, at most five.  Each answers the error before it, the primary's or the last hop's:
    the entries passed over do not apply to that error, the entry taken does, by the first
    of its triggers that applies, and the hop sends the request with the entry's profile,
    model and parameters and nothing else changed.  No other call is made; with the
    audit hook wired the records name the hops and their triggers, numbered from one.  The walk ends with the stream of
    the first hop that succeeds.  Without one it ends with the fallback error, around the
    last error, exactly when five hops were made, and otherwise with the primary's error,
    and then no entry that is left applies, or the policy forbade to go on. *)
Theorem walk_is_recorded stream rn c r primary :
  (forall r', ensures (stream r') (fun t _ => attempts t = [])) ->
  ensures (walk stream rn c r primary primary 0 (ch_Entries c)) (walked stream rn c r primary primary 0 (ch_Entries c)).
Proof.
  intros Hstream. assert (0 <= MaxWholeChainAttempts) as H0 by lia. revert H0. generalize 0 as total. generalize primary at 2 4 as last_.
  induction (ch_Entries c) as [|en entries IH]; intros last_ total Ht t res; cbn [walk]; [intros [-> ->]; by apply walked_end|].
  destruct (Nat.leb_spec MaxWholeChainAttempts total) as [Hmax|Hmax]; [intros [-> ->]; apply walked_end; [done|lia]|].
  pose proof (Match_picks last_ en) as Hm. destruct (Match last_ (ce_Triggers en)) as [tr|]; [|intros Hr; apply walked_skip; [done|by apply IH]].
  intros (denied & t1 & t2 & -> & H1 & H2)%runs_bind.
  assert (attempts t1 = [] /\ sent t1 = [] /\ (is_some denied = true -> blocked c t1)) as (Ha1 & Hs1 & Hb1).
  { destruct (rn_Check rn); [apply runs_ask in H1 as ->|by destruct H1 as [-> ->]]. split_and!; [done..|]. destruct denied as [d|]; [|done].
    intros _. exists d. by left. }
  destruct denied as [d|].
  - apply runs_bind in H2 as ([] & t3 & t4 & -> & H3 & [-> ->]).
    assert (attempts t3 = [] /\ sent t3 = []) as [Ha3 Hs3] by (destruct (rn_OnBlocked rn); [by apply runs_ask in H3 as ->|by destruct H3 as [-> _]]).
    exists [], (en :: entries). rewrite app_nil_r, attempts_app, sent_app, Ha1, Ha3, Hs1, Hs3. cbn. split_and!; [done..|lia|done|by destruct (rn_OnAttempt rn)|].
    right. split_and!; [lia|done|right]. eapply blocked_mono; [|by apply Hb1]. set_solver.
  - apply runs_bind in H2 as ([] & t3 & t4 & -> & H3 & H4).
    assert (sent t3 = [] /\ attempts t3 = if rn_OnAttempt rn then [(ce_ProviderID en, ce_Model en, tr, S total)] else []) as [Hs3 Ha3]
      by (destruct (rn_OnAttempt rn); [by apply runs_ask in H3 as ->|by destruct H3 as [-> _]]).
    apply runs_bind in H4 as (hop & t5 & t6 & -> & H5 & H6).
    rewrite app_assoc. eapply (walked_hop _ _ _ _ _ _ _ _ tr _ _ _ _ hop); [done|done|by rewrite sent_app, Hs1, Hs3|by rewrite attempts_app, Ha1, Ha3|by eapply Hstream|done|].
    destruct hop as [s|e']; [done|]. by apply IH; [lia|].
Qed.

Lemma no_attempts {R} (p : prog R) : at_most (fun o => is_some (attempt_of o)) 0 p -> ensures p (fun t _ => attempts t = []).
Proof.
  intros H t r Hr. specialize (H t r Hr). cbn beta in H. clear Hr. induction t as [|o t IH]; [done|]. rewrite count_cons in H. unfold attempts. cbn.
  destruct (attempt_of o); cbn in H; [lia|]. by apply IH.
Qed.

Definition entry (p m : string) (ts : list TriggerCondition) : ChainEntry :=
  {| ce_ProviderID := p; ce_Model := m; ce_ParamOverrides := ∅; ce_Triggers := ts; ce_MaxAttempts := 3 |}.
Definition demo_chain : Chain :=
  {| ch_ID := "c"; ch_Name := "chain"; ch_Entries := [entry "a" "" [TriggerErrorAuthFailed]; entry "b" "" [TriggerError429; TriggerError5xx]; entry "q" "o1" [TriggerErrorAny]] |}.
Definition hooked : Runner :=
  {| rn_Resolver := {| sr_Store := true; sr_Session := true; sr_App := true |}; rn_Check := true; rn_OnAttempt := true; rn_OnBlocked := true |}.

Definition all_down (r : GenerationRequest) : prog (result AStream llm_err) := Ret (Err (EMsg "down")).

(** A chain of three entries is exhausted after two hops, and the primary error comes back. *)
Lemma walk_is_recorded_witness :
  (forall r', ensures (all_down r') (fun t _ => attempts t = [])) /\
  let run := play_demo (fun _ => Err busy) [] (walk all_down hooked demo_chain plain_request busy busy 0 (ch_Entries demo_chain)) in
  attempts run.1 = [("b", "", TriggerError5xx, 1); ("q", "o1", TriggerErrorAny, 2)] /\ run.2 = Err busy /\
  walked all_down hooked demo_chain plain_request busy busy 0 (ch_Entries demo_chain) run.1 run.2.
Proof.
  assert (Hs : forall r', ensures (all_down r') (fun t _ => attempts t = [])) by (intros r' t r [-> _]; reflexivity).
  split; [exact Hs|]. cbv zeta. split; [by vm_compute|]. split; [by vm_compute|].
  exact (walk_is_recorded all_down hooked demo_chain plain_request busy Hs _ _
           (play_demo_runs (fun _ => Err busy) [] (walk all_down hooked demo_chain plain_request busy busy 0 (ch_Entries demo_chain)))).
Defined.

(** * What the user is told *)

(** Errors that began as a provider's status: wrapped, decorated by the registry, the last of
    an exhausted budget or of an exhausted chain. *)
Inductive of_status : llm_err -> Prop :=
| OSBase s m : of_status (ClassifyStatusMessage s m)
| OSRetryAfter s m ms : of_status (ETransient s m None ms)
| OSWrap prefix e : of_status e -> of_status (EWrap prefix e)
| OSDecorate p e : of_status e -> of_status (decorate p e)
| OSBudget n e : of_status e -> IsTransient e = true -> of_status (ERetryBudgetExhausted n (Some e))
| OSFallback c n e : of_status e -> of_status (EFallbackExhausted c n e).

(** Transient, or one of the three user errors, and never both. *)
Definition one_kind (e : llm_err) : Prop :=
  as_ is_credential e = None /\ as_ is_unsupported e = None /\
  ((IsTransient e = true /\ as_auth e = None /\ as_payment e = None /\ as_invalid e = None) \/
   (IsTransient e = false /\ (is_some (as_auth e) || is_some (as_payment e) || is_some (as_invalid e)) = true)).

Lemma of_status_one_kind e : of_status e -> one_kind e.
Proof.
  induction 1 as [s m|s m ms|prefix e _ IH|p e _ IH|n e _ IH Ht|c n e _ IH]; try exact IH.
  - unfold ClassifyStatusMessage. repeat case_if; (split; [done|]; split; [done|]); first [by left|by right].
  - split; [done|]. split; [done|]. by left.
  - unfold decorate. destruct (as_auth e) as [[s m]|] eqn:EA; [|destruct (as_payment e) as [[s m]|] eqn:EP; [|done]];
      (split; [done|]; split; [done|]; by right).
Qed.

(** For an error that began as a provider's status, however it was wrapped on the way,
    the user is told of a temporary failure exactly when the retry layers take it for one. *)
Theorem failure_class_agrees e provider : of_status e -> rf_Class (ClassifyFailure e provider) = FailureTransient <-> IsTransient e = true.
Proof.
  intros (H1 & H2 & H3)%of_status_one_kind. unfold ClassifyFailure. destruct (failure_kind e) as [[cls code] st] eqn:EK. cbn.
  unfold failure_kind in EK. rewrite H1, H2 in EK. unfold IsTransient in *. destruct H3 as [(H3 & H4 & H5 & H6)|[H3 H4]].
  - rewrite H5, H4, H6 in EK. cbn in EK. destruct (as_transient e) as [[[s m] ms]|]; [|done]. by injection EK as <- _ _.
  - destruct (as_transient e) as [[[s m] ms]|]; [done|]. split; [|done]. intros ->.
    destruct (as_payment e) as [[s m]|]; [done|]. destruct (as_auth e) as [[s m]|]; [done|]. cbn in EK. destruct (as_invalid e) as [[s m]|]; [done|]. done.
Qed.

Lemma failure_class_agrees_witness :
  let e := EWrap "chat: registry stream" (ERetryBudgetExhausted 3 (Some (ClassifyStatusMessage 503 ""))) in
  of_status e /\ (rf_Class (ClassifyFailure e "openai") = FailureTransient <-> IsTransient e = true) /\ IsTransient e = true /\
  rf_Summary (ClassifyFailure e "openai") = "OpenAI is unavailable right now".
Proof.
  cbv zeta. assert (H : of_status (EWrap "chat: registry stream" (ERetryBudgetExhausted 3 (Some (ClassifyStatusMessage 503 ""))))) by
    (apply OSWrap, OSBudget; [apply OSBase|reflexivity]).
  split; [exact H|]. split; [exact (failure_class_agrees _ "openai" H)|by vm_compute].
Defined.

(** An error of the network alone is told as temporary, and is not retried. *)
Example network_error_is_not_retried :
  rf_Class (ClassifyFailure (ENet true "timeout") "openai") = FailureTransient /\ IsTransient (ENet true "timeout") = false.
Proof. done. Qed.
