(* ===== verification/Exposure.v ===== *)
(** How much of each tool a model is shown (core/toolexposure: exposure.go, org.go, resolve.go,
    partition.go, budget.go): the layers that set a tier per tool, their resolution for one
    session, the segments one call is built from, and the schema budget they are fitted to.
    Also the order of a request's tools and its cache marker (core/llm/prompt_cache.go).
    A source that a [Deps] names is what it answers; deep copies are left out. *)
From S2P Require Import Prelude GoString.
From Stdlib Require Import Ascii.
Local Open Scope Z_scope.

(** * Tiers and layers *)

Definition TierFull : string := "full".
Definition TierSummary : string := "summary".
Definition TierOff : string := "off".
Definition Tier_Valid (t : string) : bool := bool_decide (t ∈ [TierFull; TierSummary; TierOff]).

Definition BuiltinServer : string := "kenaz".
Definition NameSeparator : string := "__".
Definition LoadToolsName : string := BuiltinServer +:+ NameSeparator +:+ "load_tools".

Definition DefaultSchemaBudgetTokens : Z := 24000.
Definition MaxSchemaBudgetTokens : Z := 2000000.
Definition DefaultActivationTTLTurns : Z := 6.
Definition MaxActivationTTLTurns : Z := 1000.

Definition hotSet : list string :=
  [LoadToolsName; "kenaz__read_file"; "kenaz__list_dir"; "kenaz__glob"; "kenaz__grep"; "kenaz__bash"; "kenaz__write_file"; "kenaz__edit_file";
   "kenaz__web_fetch"; "kenaz__web_search"; "kenaz__ask_user_question"; "kenaz__todo_write"; "kenaz__save_artifact"; "kenaz__skill";
   "kenaz__fork_conversation"].
Definition InHotSet (name : string) : bool := bool_decide (name ∈ hotSet).

(** The empty tier is no opinion. *)
Record ServerExposure := { se_Tier : string; se_Tools : gmap string string }.
Record Exposure := { ex_Servers : gmap string ServerExposure }.

Definition no_exposure : Exposure := {| ex_Servers := ∅ |}.

Definition Exposure_IsZero (e : Exposure) : bool :=
  forallb (fun s => bool_decide (se_Tier s = "") && bool_decide (se_Tools s = ∅)) (map snd (map_to_list (ex_Servers e))).

Definition ValidateServerEntry (server tier : string) : bool :=
  negb (bool_decide (TrimSpace server = "")) && (bool_decide (tier = "") || Tier_Valid tier).

Definition ValidateToolEntry (server tool tier : string) : bool :=
  negb (bool_decide (TrimSpace tool = "")) && negb (HasPrefix tool (server +:+ NameSeparator)) && Tier_Valid tier.

(** No error, whatever the order the maps are walked in. *)
Definition Exposure_Validate (e : Exposure) : bool :=
  forallb (fun kv => ValidateServerEntry kv.1 (se_Tier kv.2) && forallb (fun tt => ValidateToolEntry kv.1 tt.1 tt.2) (map_to_list (se_Tools kv.2)))
    (map_to_list (ex_Servers e)).

(** [TierFor] and [lookup]: this layer's tier, or none. *)
Definition lookup_tier (e : Exposure) (server tool : string) : string :=
  match ex_Servers e !! server with
  | None => ""
  | Some s =>
      let server_wide := if Tier_Valid (se_Tier s) then se_Tier s else "" in
      match se_Tools s !! tool with
      | Some t => if Tier_Valid t then t else server_wide
      | None => server_wide
      end
  end.

(** * Activations and settings *)

Record Activation := { ac_Name : string; ac_Server : string; ac_LastUsedTurn : Z; ac_Sticky : bool }.
#[global] Instance Activation_eq : EqDecision Activation.
Proof. solve_decision. Defined.

(** The first activation that is wrong, told as the code tells it. *)
Fixpoint validate_activations (seen : list string) (l : list Activation) : option string :=
  match l with
  | [] => None
  | a :: l =>
      let p := ac_Server a +:+ NameSeparator in
      let told what := Some ("toolexposure: activation " +:+ fmt_q (ac_Name a) +:+ what) in
      if bool_decide (TrimSpace (ac_Server a) = "") then told " has no server"
      else if negb (HasPrefix (ac_Name a) p) || bool_decide (String.length (ac_Name a) = String.length p) then told (": name must be " +:+ p +:+ "<tool>")
      else if ac_LastUsedTurn a <? 0 then told ": negative lastUsedTurn"
      else if bool_decide (ac_Name a ∈ seen) then told " listed twice"
      else validate_activations (ac_Name a :: seen) l
  end.
Definition ValidateActivations : list Activation -> option string := validate_activations [].

(** Without the read-only view of the organisation's entries. *)
Record Settings := {
  st_Exposure : Exposure; st_SchemaBudgetTokens : Z; st_ActivationTTLTurns : Z; st_EffectiveSchemaBudgetTokens : Z;
  st_EffectiveActivationTTLTurns : Z
}.

Definition Settings_Validate (s : Settings) : bool :=
  (0 <=? st_SchemaBudgetTokens s) && (st_SchemaBudgetTokens s <=? MaxSchemaBudgetTokens) &&
  (0 <=? st_ActivationTTLTurns s) && (st_ActivationTTLTurns s <=? MaxActivationTTLTurns) && Exposure_Validate (st_Exposure s).

Definition WithEffective (s : Settings) : Settings :=
  {| st_Exposure := st_Exposure s; st_SchemaBudgetTokens := st_SchemaBudgetTokens s; st_ActivationTTLTurns := st_ActivationTTLTurns s;
     st_EffectiveSchemaBudgetTokens := if st_SchemaBudgetTokens s <=? 0 then DefaultSchemaBudgetTokens else st_SchemaBudgetTokens s;
     st_EffectiveActivationTTLTurns := if st_ActivationTTLTurns s <=? 0 then DefaultActivationTTLTurns else st_ActivationTTLTurns s |}.

(** * The organisation's policy (org.go) *)

Record OrgPolicy := { op_Pins : Exposure; op_Defaults : Exposure; op_SchemaBudgetTokens : Z; op_HotSetExtra : list string; op_BundleID : Z }.
Definition no_policy : OrgPolicy :=
  {| op_Pins := no_exposure; op_Defaults := no_exposure; op_SchemaBudgetTokens := 0; op_HotSetExtra := []; op_BundleID := 0 |}.

Definition OrgPolicy_IsZero (p : OrgPolicy) : bool :=
  Exposure_IsZero (op_Pins p) && Exposure_IsZero (op_Defaults p) && (op_SchemaBudgetTokens p <=? 0) && bool_decide (op_HotSetExtra p = []).
Definition inHotSetExtra (p : OrgPolicy) (name : string) : bool := existsb (fun n => bool_decide (n = name)) (op_HotSetExtra p).

(** [PinnedError]: the entry, its tier or budget, and the bundle it came from. *)
Record PinnedError := { pe_Server : string; pe_Tool : string; pe_Tier : string; pe_Budget : Z; pe_BundleID : Z }.

Definition pin_of (org : OrgPolicy) (server : string) : ServerExposure :=
  default {| se_Tier := ""; se_Tools := ∅ |} (ex_Servers (op_Pins org) !! server).

Definition pinned (org : OrgPolicy) (server tool tier : string) : option PinnedError :=
  Some {| pe_Server := server; pe_Tool := tool; pe_Tier := tier; pe_Budget := 0; pe_BundleID := op_BundleID org |}.

(** What is wrong with one tool entry of a write. *)
Definition tool_pin (org : OrgPolicy) (server tool : string) (stored proposed : gmap string string) : option PinnedError :=
  let pin := pin_of org server in
  let v := default "" (proposed !! tool) in
  if bool_decide (v = "") || bool_decide (v = default "" (stored !! tool)) then None
  else if inHotSetExtra org (server +:+ NameSeparator +:+ tool) then pinned org server tool TierFull
  else if Tier_Valid (default "" (se_Tools pin !! tool)) then pinned org server tool (default "" (se_Tools pin !! tool))
  else if Tier_Valid (se_Tier pin) then pinned org server tool (se_Tier pin)
  else None.

Fixpoint first_pin {A} (f : A -> option PinnedError) (l : list A) : option PinnedError :=
  match l with [] => None | x :: l => match f x with Some e => Some e | None => first_pin f l end end.

Definition keys {A} (m : gmap string A) : list string := sort_strings (map fst (map_to_list m)).

Definition server_pin (org : OrgPolicy) (stored proposed : Exposure) (server : string) : option PinnedError :=
  let none := {| se_Tier := ""; se_Tools := ∅ |} in
  let ps := default none (ex_Servers proposed !! server) in
  let ss := default none (ex_Servers stored !! server) in
  let pin := pin_of org server in
  if negb (bool_decide (se_Tier ps = "")) && negb (bool_decide (se_Tier ps = se_Tier ss)) && Tier_Valid (se_Tier pin)
  then pinned org server "" (se_Tier pin)
  else first_pin (fun tool => tool_pin org server tool (se_Tools ss) (se_Tools ps)) (keys (se_Tools ps)).

Definition CheckOrgPins (org : OrgPolicy) (stored proposed : Exposure) : option PinnedError :=
  first_pin (server_pin org stored proposed) (keys (ex_Servers proposed)).

Definition CheckOrgBudget (org : OrgPolicy) (stored proposed : Z) : option PinnedError :=
  if (0 <? op_SchemaBudgetTokens org) && negb (proposed =? stored)
  then Some {| pe_Server := ""; pe_Tool := ""; pe_Tier := ""; pe_Budget := op_SchemaBudgetTokens org; pe_BundleID := op_BundleID org |} else None.

(** * Resolution (resolve.go) *)

Inductive Level := LevelOrgPin | LevelSession | LevelProject | LevelUser | LevelOrgDefault | LevelDefault | LevelOrgHotSet | LevelInvariant.
#[global] Instance Level_eq : EqDecision Level.
Proof. solve_decision. Defined.

Record CatalogTool := { ct_Name : string; ct_Server : string; ct_Running : bool; ct_Probe : bool }.

Definition bareName (c : CatalogTool) : string :=
  let p := ct_Server c +:+ NameSeparator in
  if HasPrefix (ct_Name c) p then of_list (drop (String.length p) (list_of (ct_Name c))) else ct_Name c.

Record ResolvedTool := { rt_Name : string; rt_Server : string; rt_Running : bool; rt_Probe : bool; rt_Tier : string; rt_Source : Level }.
#[global] Instance ResolvedTool_eq : EqDecision ResolvedTool.
Proof. solve_decision. Defined.

Record ResolvedCatalog := {
  rc_Tools : list ResolvedTool; rc_Activations : list Activation; rc_SchemaBudgetTokens : Z; rc_ActivationTTLTurns : Z; rc_OrgBundleID : Z;
  rc_byName : gmap string nat
}.

Definition Tool (c : ResolvedCatalog) (name : string) : option ResolvedTool := rc_byName c !! name ≫= fun i => rc_Tools c !! i.

Record SessionState := { ss_ProjectID : string; ss_Override : Exposure; ss_Activations : list Activation }.

(** [None] is a source that is not wired. *)
Record Deps := {
  de_Settings : option (result Settings string); de_Sessions : option (string -> result SessionState string);
  de_Projects : option (string -> result Exposure string); de_Pins : option (result OrgPolicy string)
}.

Definition ErrMissingDep : string := "toolexposure: resolver dependency not wired".

Definition map_err {A} (prefix : string) (r : result A string) : result A string := match r with Ok x => Ok x | Err e => Err (prefix +:+ e) end.

(** The layers in the order they are asked. *)
Definition layers_of (org : OrgPolicy) (session project user : Exposure) : list (Level * Exposure) :=
  [(LevelOrgPin, op_Pins org); (LevelSession, session); (LevelProject, project); (LevelUser, user); (LevelOrgDefault, op_Defaults org)].

Fixpoint first_opinion (layers : list (Level * Exposure)) (server tool : string) : option (string * Level) :=
  match layers with
  | [] => None
  | (level, e) :: layers => let t := lookup_tier e server tool in if bool_decide (t = "") then first_opinion layers server tool else Some (t, level)
  end.

Definition DefaultTier (c : CatalogTool) : string :=
  if bool_decide (ct_Server c = BuiltinServer) && InHotSet (ct_Name c) then TierFull else TierSummary.

(** One tool, before the rule for [LoadToolsName]. *)
Definition resolve_tool (org : OrgPolicy) (layers : list (Level * Exposure)) (c : CatalogTool) : ResolvedTool :=
  let '(tier, source) :=
    if negb (ct_Probe c) && inHotSetExtra org (ct_Name c) then (TierFull, LevelOrgHotSet)
    else match first_opinion layers (ct_Server c) (if ct_Probe c then "" else bareName c) with
         | Some x => x
         | None => (DefaultTier c, LevelDefault)
         end in
  {| rt_Name := ct_Name c; rt_Server := ct_Server c; rt_Running := ct_Running c; rt_Probe := ct_Probe c; rt_Tier := tier; rt_Source := source |}.

(** The index of each name: the last one's. *)
Fixpoint index_from (i : nat) (tools : list ResolvedTool) (m : gmap string nat) : gmap string nat :=
  match tools with [] => m | t :: tools => index_from (S i) tools (<[rt_Name t := i]> m) end.
Definition index_names (tools : list ResolvedTool) : gmap string nat := index_from O tools ∅.

Definition wants_loader (t : ResolvedTool) : bool := bool_decide (rt_Tier t = TierSummary) && negb (bool_decide (rt_Name t = LoadToolsName)).

Definition force_full (t : ResolvedTool) : ResolvedTool :=
  {| rt_Name := rt_Name t; rt_Server := rt_Server t; rt_Running := rt_Running t; rt_Probe := rt_Probe t; rt_Tier := TierFull; rt_Source := LevelInvariant |}.

Definition apply_invariant (byName : gmap string nat) (tools : list ResolvedTool) : list ResolvedTool :=
  match byName !! LoadToolsName with
  | Some i =>
      match tools !! i with
      | Some t => if existsb wants_loader tools && negb (bool_decide (rt_Tier t = TierFull)) then <[i := force_full t]> tools else tools
      | None => tools
      end
  | None => tools
  end.

Definition resolve_catalog (user : Settings) (sess : SessionState) (project : Exposure) (org : OrgPolicy) (catalog : list CatalogTool) : ResolvedCatalog :=
  let user := WithEffective user in
  let tools := map (resolve_tool org (layers_of org (ss_Override sess) project (st_Exposure user))) catalog in
  {| rc_Tools := apply_invariant (index_names tools) tools; rc_Activations := ss_Activations sess;
     rc_SchemaBudgetTokens := if 0 <? op_SchemaBudgetTokens org then op_SchemaBudgetTokens org else st_EffectiveSchemaBudgetTokens user;
     rc_ActivationTTLTurns := st_EffectiveActivationTTLTurns user; rc_OrgBundleID := op_BundleID org; rc_byName := index_names tools |}.

Definition Resolve (d : Deps) (sessionID : string) (catalog : list CatalogTool) : result ResolvedCatalog string :=
  match de_Settings d, de_Sessions d, de_Projects d with
  | Some settings, Some sessions, Some projects =>
      let! user := map_err "toolexposure: settings: " settings in
      let! sess := map_err ("toolexposure: session " +:+ sessionID +:+ ": ") (sessions sessionID) in
      let! project := if bool_decide (ss_ProjectID sess = "") then Ok no_exposure
                      else map_err ("toolexposure: project " +:+ ss_ProjectID sess +:+ ": ") (projects (ss_ProjectID sess)) in
      let! org := match de_Pins d with Some pins => map_err "toolexposure: org pins: " pins | None => Ok no_policy end in
      Ok (resolve_catalog user sess project org catalog)
  | _, _, _ => Err ErrMissingDep
  end.

(** ** Proposed writes *)

Record LayerWrite := { lw_Level : Level; lw_ProjectID : string; lw_SessionID : string; lw_Exposure : Exposure }.

Definition with_exposure (s : Settings) (e : Exposure) : Settings :=
  {| st_Exposure := e; st_SchemaBudgetTokens := st_SchemaBudgetTokens s; st_ActivationTTLTurns := st_ActivationTTLTurns s;
     st_EffectiveSchemaBudgetTokens := st_EffectiveSchemaBudgetTokens s; st_EffectiveActivationTTLTurns := st_EffectiveActivationTTLTurns s |}.
Definition with_override (s : SessionState) (e : Exposure) : SessionState :=
  {| ss_ProjectID := ss_ProjectID s; ss_Override := e; ss_Activations := ss_Activations s |}.
Definition bareSession (projectID : string) : SessionState := {| ss_ProjectID := projectID; ss_Override := no_exposure; ss_Activations := [] |}.

Definition WithLayer (d : Deps) (w : LayerWrite) : Deps :=
  match lw_Level w with
  | LevelUser =>
      {| de_Settings := (fun r => let! s := r in Ok (with_exposure s (lw_Exposure w))) <$> de_Settings d;
         de_Sessions := Some (fun _ => Ok (bareSession "")); de_Projects := de_Projects d; de_Pins := de_Pins d |}
  | LevelProject =>
      {| de_Settings := de_Settings d; de_Sessions := Some (fun _ => Ok (bareSession (lw_ProjectID w)));
         de_Projects := (fun f id => if bool_decide (id = lw_ProjectID w) then Ok (lw_Exposure w) else f id) <$> de_Projects d; de_Pins := de_Pins d |}
  | LevelSession =>
      {| de_Settings := de_Settings d;
         de_Sessions := (fun f id => let! st := f id in Ok (if bool_decide (id = lw_SessionID w) then with_override st (lw_Exposure w) else st)) <$> de_Sessions d;
         de_Projects := de_Projects d; de_Pins := de_Pins d |}
  | _ => d
  end.

(** * Segments (partition.go) *)

Definition Activated (c : ResolvedCatalog) (name : string) : option Activation := List.find (fun a => bool_decide (ac_Name a = name)) (rc_Activations c).

Definition Sendable (c : ResolvedCatalog) (name : string) : bool :=
  match Tool c name with
  | None => false
  | Some t =>
      if negb (rt_Running t) || rt_Probe t then false
      else if bool_decide (rt_Tier t = TierFull) then true
      else if bool_decide (rt_Tier t = TierSummary) then match Activated c name with Some _ => true | None => false end
      else false
  end.

Record Partition := {
  pa_Hot : list ResolvedTool; pa_Pinned : list ResolvedTool; pa_Activated : list ResolvedTool; pa_Digest : list ResolvedTool;
  pa_Stopped : list ResolvedTool
}.

Inductive segment := SegHot | SegPinned | SegActivated | SegDigest | SegStopped.
#[global] Instance segment_eq : EqDecision segment.
Proof. solve_decision. Defined.

(** The segment a tool is put into. *)
Definition segment_of (c : ResolvedCatalog) (t : ResolvedTool) : option segment :=
  if negb (rt_Running t) || rt_Probe t then (if bool_decide (rt_Tier t = TierOff) then None else Some SegStopped)
  else if bool_decide (rt_Tier t = TierFull) then
    Some (if bool_decide (rt_Source t ∈ [LevelDefault; LevelInvariant; LevelOrgHotSet]) then SegHot else SegPinned)
  else if bool_decide (rt_Tier t = TierSummary) then
    match Activated c (rt_Name t) with
    | None => Some SegDigest
    | Some a => Some (if ac_Sticky a then SegPinned else SegActivated)
    end
  else None.

Definition in_segment (c : ResolvedCatalog) (s : segment) : list ResolvedTool := List.filter (fun t => bool_decide (segment_of c t = Some s)) (rc_Tools c).

Definition name_le (t t' : ResolvedTool) : Prop := String.le (rt_Name t) (rt_Name t').
#[global] Instance name_le_dec : RelDecision name_le.
Proof. intros t t'. unfold name_le. apply _. Defined.

Definition lastUsed (c : ResolvedCatalog) (name : string) : Z := match Activated c name with Some a => ac_LastUsedTurn a | None => 0 end.

(** Most recently used first, then by name. *)
Definition recent_le (c : ResolvedCatalog) (t t' : ResolvedTool) : Prop :=
  lastUsed c (rt_Name t') < lastUsed c (rt_Name t) \/ (lastUsed c (rt_Name t') = lastUsed c (rt_Name t) /\ name_le t t').
#[global] Instance recent_le_dec c : RelDecision (recent_le c).
Proof. intros t t'. unfold recent_le. apply _. Defined.

Definition partition (c : ResolvedCatalog) : Partition :=
  {| pa_Hot := merge_sort name_le (in_segment c SegHot); pa_Pinned := merge_sort name_le (in_segment c SegPinned);
     pa_Activated := merge_sort (recent_le c) (in_segment c SegActivated); pa_Digest := merge_sort name_le (in_segment c SegDigest);
     pa_Stopped := merge_sort name_le (in_segment c SegStopped) |}.

Definition sendNames (p : Partition) : list string := map rt_Name (pa_Hot p ++ pa_Pinned p ++ pa_Activated p).

Definition ServerProbe (server : string) : CatalogTool := {| ct_Name := server +:+ NameSeparator; ct_Server := server; ct_Running := false; ct_Probe := true |}.

(** * The schema budget (budget.go) *)

Definition BudgetWindowPercent : Z := 15.

Definition EffectiveBudget (setting window : Z) : Z :=
  let setting := if setting <=? 0 then DefaultSchemaBudgetTokens else setting in
  if window <=? 0 then setting
  else
    let capped := Z.quot (int64 (window * BudgetWindowPercent)) 100 in
    let capped := if capped <? 1 then 1 else capped in
    if capped <? setting then capped else setting.

Record BudgetFit := {
  fi_Partition : Partition; fi_Budget : Z; fi_Tokens : Z; fi_OverBy : Z; fi_Evicted : list ResolvedTool; fi_PinnedEvicted : nat;
  fi_ProtectedEvicted : list string; fi_PinnedOverBy : Z; fi_HotOverBy : Z; fi_Remaining : Z
}.

Section Fit.
Variable size : ResolvedTool -> Z.
Variable immune protected : string -> bool.

Definition segSize (seg : list ResolvedTool) : Z := foldr (fun t n => size t + n) 0 seg.

(** The loop of the eviction: what is out by name, in what order, the overage left. *)
Record evict_state := { es_gone : gset string; es_Evicted : list ResolvedTool; es_Protected : list string; es_over : Z }.

Definition evict_one (takeProtected : bool) (t : ResolvedTool) (s : evict_state) : evict_state * nat :=
  if es_over s <=? 0 then (s, O)
  else if bool_decide (rt_Name t ∈ es_gone s) || immune (rt_Name t) || negb (Bool.eqb (protected (rt_Name t)) takeProtected) then (s, O)
  else ({| es_gone := {[rt_Name t]} ∪ es_gone s; es_Evicted := es_Evicted s ++ [t];
           es_Protected := if takeProtected then es_Protected s ++ [rt_Name t] else es_Protected s; es_over := es_over s - size t |}, 1%nat).

(** The segment from its tail. *)
Fixpoint evict_rev (takeProtected : bool) (rseg : list ResolvedTool) (s : evict_state) : evict_state * nat :=
  match rseg with
  | [] => (s, O)
  | t :: rseg =>
      let '(s, k) := evict_one takeProtected t s in
      let '(s, n) := evict_rev takeProtected rseg s in (s, (k + n)%nat)
  end.
Definition evictFrom (takeProtected : bool) (seg : list ResolvedTool) (s : evict_state) : evict_state * nat := evict_rev takeProtected (rev seg) s.

Definition fit_partition (p : Partition) (s : evict_state) : Partition :=
  let keep := List.filter (fun t => negb (bool_decide (rt_Name t ∈ es_gone s))) in
  {| pa_Hot := pa_Hot p; pa_Pinned := keep (pa_Pinned p); pa_Activated := keep (pa_Activated p);
     pa_Digest := merge_sort name_le (pa_Digest p ++ es_Evicted s); pa_Stopped := pa_Stopped p |}.

Definition FitBudget (p : Partition) (budget : Z) : BudgetFit :=
  let hot := segSize (pa_Hot p) in
  let pinned := segSize (pa_Pinned p) in
  let total := hot + pinned + segSize (pa_Activated p) in
  let hotOver := if (0 <? budget) && (budget <? hot) then hot - budget else 0 in
  let over := total - budget in
  if (budget <=? 0) || (over <=? 0) then
    {| fi_Partition := p; fi_Budget := budget; fi_Tokens := total; fi_OverBy := 0; fi_Evicted := []; fi_PinnedEvicted := O;
       fi_ProtectedEvicted := []; fi_PinnedOverBy := 0; fi_HotOverBy := hotOver; fi_Remaining := 0 |}
  else
    let s := {| es_gone := ∅; es_Evicted := []; es_Protected := []; es_over := over |} in
    let '(s, _) := evictFrom false (pa_Activated p) s in
    let '(s, pinnedOver, n) :=
      if (0 <? es_over s) && negb (bool_decide (pa_Pinned p = []))
      then let '(s', n) := evictFrom false (pa_Pinned p) s in (s', Z.min (es_over s) pinned, n)
      else (s, 0, O) in
    let '(s, n) :=
      if 0 <? es_over s
      then let '(s, _) := evictFrom true (pa_Activated p) s in let '(s, m) := evictFrom true (pa_Pinned p) s in (s, (n + m)%nat)
      else (s, n) in
    {| fi_Partition := fit_partition p s; fi_Budget := budget; fi_Tokens := total - segSize (es_Evicted s); fi_OverBy := over;
       fi_Evicted := es_Evicted s; fi_PinnedEvicted := n; fi_ProtectedEvicted := es_Protected s; fi_PinnedOverBy := pinnedOver;
       fi_HotOverBy := hotOver; fi_Remaining := if 0 <? es_over s then es_over s else 0 |}.
End Fit.

Definition ActivationExpired (a : Activation) (turn ttl : Z) : bool :=
  if ac_Sticky a then false
  else let ttl := if ttl <=? 0 then DefaultActivationTTLTurns else ttl in ttl <? turn - ac_LastUsedTurn a.

Definition ExpireActivations (l : list Activation) (turn ttl : Z) : list Activation * list Activation :=
  (List.filter (fun a => negb (ActivationExpired a turn ttl)) l, List.filter (fun a => ActivationExpired a turn ttl) l).

(** * The request's tools (prompt_cache.go) *)

Section OrderTools.
Context {T : Type} (name : T -> string).

(** The tools whose name no earlier segment or tool has; the names seen by now. *)
Fixpoint take_new (seen : gset string) (seg : list T) : list T * gset string :=
  match seg with
  | [] => ([], seen)
  | t :: seg =>
      if bool_decide (name t ∈ seen) then take_new seen seg
      else let '(out, seen) := take_new ({[name t]} ∪ seen) seg in (t :: out, seen)
  end.

Definition tool_le (t t' : T) : Prop := String.le (name t) (name t').
#[global] Instance tool_le_dec : RelDecision tool_le.
Proof. intros t t'. unfold tool_le. apply _. Defined.

Definition OrderTools (hot pinned activated : list T) : list T * Z :=
  let '(h, seen) := take_new ∅ hot in
  let '(p, seen) := take_new seen pinned in
  let '(a, _) := take_new seen activated in
  (merge_sort tool_le h ++ merge_sort tool_le p ++ a, Z.of_nat (length h + length p)).
End OrderTools.

(** [SetTools]: the value of CacheStableTools. *)
Definition SetTools {T} (tools : list T) (stable : Z) : Z := match tools with [] => 0 | _ => if stable <=? 0 then -1 else stable end.

Definition CacheMarkerToolIndex {T} (tools : list T) (CacheStableTools : Z) : Z :=
  let n := Z.of_nat (length tools) in
  if (n =? 0) || (CacheStableTools <? 0) then -1
  else if (CacheStableTools =? 0) || (n <=? CacheStableTools) then n - 1 else CacheStableTools - 1.
