(* ===== verification/ExposureProps.v ===== *)
(** Theorems on tool exposure: what a resolution promises of every tool, which tools a call
    carries, and how the schema budget evicts. *)
From S2P Require Import Prelude GoString Exposure.
From Stdlib Require Import Ascii.
Local Open Scope Z_scope.

(** * Layers *)

Lemma lookup_tier_valid e server tool : lookup_tier e server tool = "" \/ Tier_Valid (lookup_tier e server tool) = true.
Proof.
  unfold lookup_tier. destruct (ex_Servers e !! server) as [s|]; [|by left].
  assert (H : forall t, (if Tier_Valid t then t else "") = "" \/ Tier_Valid (if Tier_Valid t then t else "") = true).
  { intros t. destruct (Tier_Valid t) eqn:E; [by right|by left]. }
  destruct (se_Tools s !! tool) as [t|]; [|apply H]. destruct (Tier_Valid t) eqn:E; [by right|apply H].
Qed.

Lemma valid_nonempty t : Tier_Valid t = true -> t <> "".
Proof. by intros H ->. Qed.

Lemma valid_cases t : Tier_Valid t = true <-> t = TierFull \/ t = TierSummary \/ t = TierOff.
Proof. unfold Tier_Valid. rewrite bool_decide_eq_true. set_solver. Qed.

Lemma first_opinion_valid layers server tool t l : first_opinion layers server tool = Some (t, l) -> Tier_Valid t = true.
Proof.
  induction layers as [|[l' e] layers IH]; [done|]. cbn. case_bool_decide as H; [done|]. intros [= <- _].
  by destruct (lookup_tier_valid e server tool).
Qed.

Lemma resolve_tool_valid org layers c : Tier_Valid (rt_Tier (resolve_tool org layers c)) = true.
Proof.
  unfold resolve_tool. destruct (negb (ct_Probe c) && _); [done|]. destruct (first_opinion _ _ _) as [[t l]|] eqn:E; cbn; [by eapply first_opinion_valid|].
  unfold DefaultTier. by destruct (_ && _).
Qed.

Lemma resolve_tool_same org layers c : rt_Name (resolve_tool org layers c) = ct_Name c /\ rt_Server (resolve_tool org layers c) = ct_Server c /\
  rt_Running (resolve_tool org layers c) = ct_Running c /\ rt_Probe (resolve_tool org layers c) = ct_Probe c.
Proof. unfold resolve_tool. by destruct (if negb (ct_Probe c) && _ then _ else _) as [t l]. Qed.

Lemma resolved_names org layers catalog : map rt_Name (map (resolve_tool org layers) catalog) = map ct_Name catalog.
Proof. rewrite map_map. apply map_ext. intros c. by destruct (resolve_tool_same org layers c) as [-> _]. Qed.

(** * Finding a tool by name *)

Lemma index_from_lookup tools i0 m name :
  index_from i0 tools m !! name = match last (List.filter (fun jt => bool_decide (rt_Name jt.2 = name)) (zip (seq i0 (length tools)) tools)) with
                                  | Some (j, _) => Some j | None => m !! name end.
Proof.
  revert i0 m. induction tools as [|t tools IH]; intros i0 m; [done|]. cbn. rewrite IH. case_bool_decide as H; cbn.
  - subst. rewrite last_cons. destruct (last _) as [[]|]; [done|]. by rewrite lookup_insert_eq.
  - destruct (last _) as [[]|]; [done|]. by rewrite lookup_insert_ne.
Qed.

Lemma zip_seq_elem {A} (l : list A) i0 j x : (j, x) ∈ zip (seq i0 (length l)) l -> (i0 <= j)%nat /\ l !! (j - i0)%nat = Some x.
Proof.
  revert i0. induction l as [|a l IH]; intros i0; [by intros H%elem_of_nil|]. cbn. intros [[= -> ->]|H]%elem_of_cons.
  - split; [lia|]. by rewrite Nat.sub_diag.
  - apply IH in H as [Hle H]. split; [lia|]. by replace (j - i0)%nat with (S (j - S i0)) by lia.
Qed.

Lemma zip_seq_has {A} (l : list A) i0 j x : l !! j = Some x -> ((i0 + j)%nat, x) ∈ zip (seq i0 (length l)) l.
Proof.
  revert i0 j. induction l as [|a l IH]; intros i0 j Hj; [done|]. cbn. destruct j as [|j]; cbn in Hj.
  - injection Hj as ->. rewrite Nat.add_0_r. by left.
  - right. replace (i0 + S j)%nat with (S i0 + j)%nat by lia. by apply IH.
Qed.

Lemma index_names_cases tools name : match index_names tools !! name with
  | Some i => exists t, tools !! i = Some t /\ rt_Name t = name
  | None => name ∉ map rt_Name tools end.
Proof.
  unfold index_names. rewrite index_from_lookup, lookup_empty. destruct (last _) as [[j t]|] eqn:E.
  - apply last_Some_elem_of, elem_of_filter_bool in E as [Hin He]. apply zip_seq_elem in Hin as [_ H]. rewrite Nat.sub_0_r in H.
    apply bool_decide_eq_true in He. by exists t.
  - apply last_None in E. intros (t & -> & [j Hj]%list_elem_of_lookup_1)%list_elem_of_fmap. apply (zip_seq_has _ 0) in Hj.
    assert (H : (j, t) ∈ List.filter (fun jt : nat * ResolvedTool => bool_decide (rt_Name jt.2 = rt_Name t)) (zip (seq 0 (length tools)) tools))
      by (apply elem_of_filter_bool; split; [done|]; by apply bool_decide_eq_true).
    rewrite E in H. by apply elem_of_nil in H.
Qed.

(** A catalog as a resolution leaves it: unique names, found by name, valid tiers. *)
Record catalog_ok (c : ResolvedCatalog) : Prop := {
  co_names : NoDup (map rt_Name (rc_Tools c));
  co_find : forall t, t ∈ rc_Tools c -> Tool c (rt_Name t) = Some t;
  co_found : forall name t, Tool c name = Some t -> t ∈ rc_Tools c /\ rt_Name t = name;
  co_valid : forall t, t ∈ rc_Tools c -> Tier_Valid (rt_Tier t) = true
}.

Lemma names_inj (tools : list ResolvedTool) i j t t' : NoDup (map rt_Name tools) -> tools !! i = Some t -> tools !! j = Some t' -> rt_Name t = rt_Name t' -> i = j.
Proof. intros Hn Hi Hj He. eapply NoDup_lookup; [exact Hn|..]; rewrite list_lookup_fmap; [by rewrite Hi|]. rewrite Hj. cbn. by rewrite He. Qed.

Lemma Tool_indexed c : NoDup (map rt_Name (rc_Tools c)) -> rc_byName c = index_names (rc_Tools c) ->
  forall name t, Tool c name = Some t <-> t ∈ rc_Tools c /\ rt_Name t = name.
Proof.
  intros Hn Hb name t. unfold Tool. rewrite Hb. pose proof (index_names_cases (rc_Tools c) name) as H.
  destruct (index_names (rc_Tools c) !! name) as [i|]; cbn.
  - destruct H as (t' & Ht' & Hname). rewrite Ht'. split.
    + intros [= <-]. split; [by eapply list_elem_of_lookup_2|done].
    + intros [[j Hj]%list_elem_of_lookup_1 He]. assert (i = j) as -> by (apply (names_inj (rc_Tools c) i j t' t Hn Ht' Hj); congruence). congruence.
  - split; [done|]. intros [Ht <-]. exfalso. by apply H, list_elem_of_fmap_2.
Qed.

(** ** The rule for the loader *)

Lemma force_full_same t : rt_Name (force_full t) = rt_Name t /\ rt_Server (force_full t) = rt_Server t /\ rt_Running (force_full t) = rt_Running t /\
  rt_Probe (force_full t) = rt_Probe t.
Proof. done. Qed.

(** The tools after the rule: the loader is full when another tool is summary. *)
Definition ruled (tools : list ResolvedTool) (t : ResolvedTool) : ResolvedTool :=
  if bool_decide (rt_Name t = LoadToolsName) && existsb wants_loader tools && negb (bool_decide (rt_Tier t = TierFull)) then force_full t else t.

Lemma map_at {A} (f : A -> A) (l : list A) i x : l !! i = Some x -> (forall j y, l !! j = Some y -> j <> i -> f y = y) -> map f l = <[i := f x]> l.
Proof.
  revert i. induction l as [|a l IH]; intros i Hi Hf; [done|]. destruct i as [|i]; cbn in Hi |- *.
  - injection Hi as ->. f_equal. transitivity (map id l); [|apply map_id]. apply map_ext_in. intros y Hy. apply list_elem_of_In, list_elem_of_lookup_1 in Hy as [j Hj].
    by apply (Hf (S j) y).
  - f_equal; [by apply (Hf O a)|]. apply IH; [done|]. intros j y Hj Hne. apply (Hf (S j) y); [done|lia].
Qed.

Lemma map_ruled_id (tools : list ResolvedTool) (l : list ResolvedTool) : (forall t, t ∈ l -> ruled tools t = t) -> map (ruled tools) l = l.
Proof. intros H. transitivity (map id l); [|apply map_id]. apply map_ext_in. intros t Ht%list_elem_of_In. by apply H. Qed.

Lemma apply_invariant_map tools : NoDup (map rt_Name tools) -> apply_invariant (index_names tools) tools = map (ruled tools) tools.
Proof.
  intros Hn. unfold apply_invariant. pose proof (index_names_cases tools LoadToolsName) as H.
  destruct (index_names tools !! LoadToolsName) as [i|].
  - destruct H as (t & Ht & Hname). rewrite Ht. destruct (existsb wants_loader tools && negb (bool_decide (rt_Tier t = TierFull))) eqn:E.
    + assert (Hr : ruled tools t = force_full t).
      { unfold ruled. rewrite bool_decide_eq_true_2 by done. cbn. by rewrite E. }
      rewrite <- Hr. symmetry. apply map_at; [done|]. intros j y Hj Hne. unfold ruled. rewrite bool_decide_eq_false_2; [done|].
      intros Hy. apply Hne. eapply (names_inj tools); [exact Hn|exact Hj|exact Ht|]. by rewrite Hname, Hy.
    + symmetry. apply map_ruled_id. intros y [j Hj]%list_elem_of_lookup_1. unfold ruled.
      destruct (decide (rt_Name y = LoadToolsName)) as [Hy|Hy]; [|by rewrite bool_decide_eq_false_2]. rewrite bool_decide_eq_true_2 by done. cbn.
      assert (j = i) as -> by (apply (names_inj tools j i y t Hn Hj Ht); congruence). simplify_eq. by rewrite E.
  - symmetry. apply map_ruled_id. intros y Hy. unfold ruled. rewrite bool_decide_eq_false_2; [done|]. intros Hname. apply H. rewrite <- Hname.
    by apply list_elem_of_fmap_2.
Qed.

Lemma ruled_name tools t : rt_Name (ruled tools t) = rt_Name t.
Proof. unfold ruled. by destruct (_ && _). Qed.

Lemma ruled_names tools l : map rt_Name (map (ruled tools) l) = map rt_Name l.
Proof. rewrite map_map. apply map_ext, ruled_name. Qed.

Lemma ruled_valid tools t : Tier_Valid (rt_Tier t) = true -> Tier_Valid (rt_Tier (ruled tools t)) = true.
Proof. unfold ruled. by destruct (_ && _). Qed.

Lemma index_names_ext tools tools' : map rt_Name tools = map rt_Name tools' -> index_names tools = index_names tools'.
Proof.
  unfold index_names. generalize (∅ : gmap string nat) as m, O as i. revert tools'.
  induction tools as [|t tools IH]; intros [|t' tools'] m i H; try done. cbn in H |- *. injection H as -> H. by apply IH.
Qed.

(** What a resolution returns, tool by tool. *)
Lemma resolve_tools user sess project org catalog : NoDup (map ct_Name catalog) ->
  let tools := map (resolve_tool org (layers_of org (ss_Override sess) project (st_Exposure user))) catalog in
  rc_Tools (resolve_catalog user sess project org catalog) = map (ruled tools) tools.
Proof. intros Hn tools. cbn. rewrite apply_invariant_map; [done|]. by rewrite resolved_names. Qed.

Lemma resolve_catalog_ok user sess project org catalog : NoDup (map ct_Name catalog) -> catalog_ok (resolve_catalog user sess project org catalog).
Proof.
  intros Hn. pose proof (resolve_tools user sess project org catalog Hn) as HT. cbn zeta in HT.
  set (layers := layers_of org (ss_Override sess) project (st_Exposure user)) in *. set (tools := map (resolve_tool org layers) catalog) in *.
  set (c := resolve_catalog user sess project org catalog) in *. assert (Hnt : map rt_Name tools = map ct_Name catalog) by apply resolved_names.
  assert (Hnames : NoDup (map rt_Name (rc_Tools c))) by (rewrite HT, ruled_names, Hnt; exact Hn).
  assert (Hfind : forall name t, Tool c name = Some t <-> t ∈ rc_Tools c /\ rt_Name t = name).
  { apply Tool_indexed; [done|]. change (rc_byName c) with (index_names tools). apply index_names_ext. by rewrite HT, ruled_names. }
  split; [done| | |].
  - intros t Ht. by apply Hfind.
  - intros name t. apply Hfind.
  - intros t Ht. rewrite HT in Ht. apply list_elem_of_fmap in Ht as (t0 & -> & (x & -> & _)%list_elem_of_fmap). apply ruled_valid, resolve_tool_valid.
Qed.

Lemma Resolve_ok d sid catalog rc : Resolve d sid catalog = Ok rc -> exists user sess project org, rc = resolve_catalog user sess project org catalog.
Proof.
  unfold Resolve. destruct (de_Settings d) as [st|]; [|done]. destruct (de_Sessions d) as [f|]; [|done]. destruct (de_Projects d) as [g|]; [|done].
  intros (user & _ & H)%rbind_ok. apply rbind_ok in H as (sess & _ & H). apply rbind_ok in H as (project & _ & H). apply rbind_ok in H as (org & _ & H).
  injection H as <-. by exists user, sess, project, org.
Qed.

(** * Segments *)

Definition sent (p : Partition) : list ResolvedTool := pa_Hot p ++ pa_Pinned p ++ pa_Activated p.

Lemma segments_perm {A} (f : A -> option segment) (l : list A) :
  let seg s := List.filter (fun t => bool_decide (f t = Some s)) l in
  seg SegHot ++ seg SegPinned ++ seg SegActivated ++ seg SegDigest ++ seg SegStopped ≡ₚ List.filter (fun t => negb (bool_decide (f t = None))) l.
Proof.
  induction l as [|a l IH]; [done|]. cbn in IH |- *. destruct (f a) as [s|]; cbn; [|done].
  rewrite <- IH. destruct s; cbn; repeat (done || (rewrite <- Permutation_middle; apply perm_skip) || apply Permutation_app_head || (etransitivity; [|symmetry; apply Permutation_middle])).
Qed.

Lemma elem_segment c s t : t ∈ in_segment c s <-> t ∈ rc_Tools c /\ segment_of c t = Some s.
Proof. unfold in_segment. by rewrite elem_of_filter_bool, bool_decide_eq_true. Qed.

Lemma elem_sent c t : t ∈ sent (partition c) <-> t ∈ rc_Tools c /\ (segment_of c t = Some SegHot \/ segment_of c t = Some SegPinned \/ segment_of c t = Some SegActivated).
Proof. unfold sent, partition. cbn. rewrite !elem_of_app, !merge_sort_Permutation, !elem_segment. tauto. Qed.

Lemma sendable_segment c t : catalog_ok c -> t ∈ rc_Tools c ->
  Sendable c (rt_Name t) = true <-> segment_of c t = Some SegHot \/ segment_of c t = Some SegPinned \/ segment_of c t = Some SegActivated.
Proof.
  intros Hc Ht. unfold Sendable, segment_of. rewrite (co_find c Hc t Ht).
  destruct (negb (rt_Running t) || rt_Probe t); [case_bool_decide; split; [done|naive_solver|done|naive_solver]|].
  destruct (decide (rt_Tier t = TierFull)) as [Hf|Hf]; [rewrite !(bool_decide_eq_true_2 (rt_Tier t = TierFull)) by done|rewrite !(bool_decide_eq_false_2 (rt_Tier t = TierFull)) by done].
  { split; [|done]. intros _. case_bool_decide; auto. }
  case_bool_decide; [|split; [done|naive_solver]]. destruct (Activated c (rt_Name t)) as [a|]; [|split; [done|naive_solver]].
  split; [|done]. intros _. destruct (ac_Sticky a); auto.
Qed.

Lemma segment_none c t : Tier_Valid (rt_Tier t) = true -> segment_of c t = None <-> rt_Tier t = TierOff.
Proof.
  intros Hv%valid_cases. unfold segment_of. destruct (negb (rt_Running t) || rt_Probe t).
  { case_bool_decide; [by split|]. by split. }
  destruct Hv as [->|[->| ->]]; cbn.
  - by split; [case_bool_decide|].
  - destruct (Activated c (rt_Name t)) as [a|]; [by split; [destruct (ac_Sticky a)|]|by split].
  - done.
Qed.

(** The segments of a call, for any resolved catalog. *)
Lemma partition_ok rc : catalog_ok rc -> let p := partition rc in
  (forall name, name ∈ sendNames p <-> Sendable rc name = true) /\ NoDup (sendNames p) /\
  pa_Hot p ++ pa_Pinned p ++ pa_Activated p ++ pa_Digest p ++ pa_Stopped p ≡ₚ List.filter (fun t => negb (bool_decide (rt_Tier t = TierOff))) (rc_Tools rc).
Proof.
  intros Hc p.
  assert (Hperm : pa_Hot p ++ pa_Pinned p ++ pa_Activated p ++ pa_Digest p ++ pa_Stopped p ≡ₚ
                  List.filter (fun t => negb (bool_decide (rt_Tier t = TierOff))) (rc_Tools rc)).
  { unfold p, partition. cbn. rewrite !merge_sort_Permutation. etransitivity; [apply (segments_perm (segment_of rc) (rc_Tools rc))|].
    erewrite filter_bool_ext; [reflexivity|]. intros t Ht. cbn. f_equal. apply bool_decide_same. by apply segment_none, (co_valid rc Hc). }
  split; [|split; [|done]].
  - intros name. unfold sendNames. split.
    + intros (t & -> & Ht)%list_elem_of_fmap. apply elem_sent in Ht as [Ht Hs]. by apply sendable_segment.
    + intros Hs. assert (exists t, Tool rc name = Some t) as [t Ht] by (unfold Sendable in Hs; destruct (Tool rc name) as [t|]; [by exists t|done]).
      destruct (co_found rc Hc name t Ht) as [Hin <-]. apply list_elem_of_fmap_2. apply elem_sent. split; [done|]. by apply sendable_segment.
  - unfold sendNames. apply (NoDup_app (map rt_Name (pa_Hot p ++ pa_Pinned p ++ pa_Activated p)) (map rt_Name (pa_Digest p ++ pa_Stopped p))).
    rewrite <- map_app, <- !app_assoc, Hperm. pose proof (co_names rc Hc) as Hnames. clear -Hnames.
    induction (rc_Tools rc) as [|t l IH]; [constructor|]. cbn in Hnames |- *. apply NoDup_cons in Hnames as [Ht Hl]. destruct (negb _); [|by apply IH].
    cbn. constructor; [|by apply IH]. intros (t' & He & [Hin _]%elem_of_filter_bool)%list_elem_of_fmap. apply Ht. rewrite He. by apply list_elem_of_fmap_2.
Qed.

(** A call carries exactly the tools that may be sent.  For the catalog a session
    resolves to, the three segments of a call list a name exactly when [Sendable] admits it,
    each name once; with the digest and the stopped entries they divide up the tools that
    are not off, and no off tool is anywhere. *)
Theorem partition_sends_sendable d sid catalog rc :
  Resolve d sid catalog = Ok rc -> NoDup (map ct_Name catalog) ->
  let p := partition rc in
  (forall name, name ∈ sendNames p <-> Sendable rc name = true) /\ NoDup (sendNames p) /\
  pa_Hot p ++ pa_Pinned p ++ pa_Activated p ++ pa_Digest p ++ pa_Stopped p ≡ₚ List.filter (fun t => negb (bool_decide (rt_Tier t = TierOff))) (rc_Tools rc).
Proof. intros (user & sess & project & org & ->)%Resolve_ok Hn. by apply partition_ok, resolve_catalog_ok. Qed.

(** * What a resolution promises *)

Lemma resolved_at user sess project org catalog i c : NoDup (map ct_Name catalog) -> catalog !! i = Some c ->
  let layers := layers_of org (ss_Override sess) project (st_Exposure user) in
  rc_Tools (resolve_catalog user sess project org catalog) !! i = Some (ruled (map (resolve_tool org layers) catalog) (resolve_tool org layers c)).
Proof. intros Hn Hi layers. rewrite resolve_tools, !list_lookup_fmap by done. unfold layers. cbn. by rewrite Hi. Qed.

(** A tool outside the loader that the organisation pins, or adds to the hot set, has
    the tier the organisation says, whatever the session, the project and the user set: no
    layer below can raise or lower it. *)
Theorem org_pin_holds d sid catalog rc org c :
  Resolve d sid catalog = Ok rc -> NoDup (map ct_Name catalog) -> de_Pins d = Some (Ok org) -> c ∈ catalog -> ct_Probe c = false -> ct_Name c <> LoadToolsName ->
  exists t, Tool rc (ct_Name c) = Some t /\
    (inHotSetExtra org (ct_Name c) = true -> rt_Tier t = TierFull /\ rt_Source t = LevelOrgHotSet) /\
    (inHotSetExtra org (ct_Name c) = false -> lookup_tier (op_Pins org) (ct_Server c) (bareName c) <> "" ->
       rt_Tier t = lookup_tier (op_Pins org) (ct_Server c) (bareName c) /\ rt_Source t = LevelOrgPin).
Proof.
  intros HR Hn Hpins [i Hi]%list_elem_of_lookup_1 Hprobe Hname. unfold Resolve in HR. rewrite Hpins in HR.
  destruct (de_Settings d) as [st|]; [|done]. destruct (de_Sessions d) as [f|]; [|done]. destruct (de_Projects d) as [g|]; [|done].
  apply rbind_ok in HR as (user & _ & HR). apply rbind_ok in HR as (sess & _ & HR). apply rbind_ok in HR as (project & _ & HR). cbn in HR. injection HR as <-.
  pose proof (resolved_at user sess project org catalog i c Hn Hi) as Ht. cbn zeta in Ht. set (layers := layers_of _ _ _ _) in Ht.
  set (t := ruled _ _) in Ht. pose proof (resolve_catalog_ok user sess project org catalog Hn) as Hc.
  destruct (resolve_tool_same org layers c) as (Hsn & _). assert (Htn : rt_Name t = ct_Name c) by (unfold t; by rewrite ruled_name, Hsn).
  exists t. split; [rewrite <- Htn; apply (co_find _ Hc); by eapply list_elem_of_lookup_2|].
  assert (Hrt : t = resolve_tool org layers c) by (unfold t, ruled; rewrite bool_decide_eq_false_2; [done|by rewrite Hsn]).
  rewrite Hrt. unfold resolve_tool. rewrite Hprobe. split; [by intros ->|]. intros -> Hpin. cbn. rewrite bool_decide_eq_false_2 by done. done.
Qed.

(** The loader is never out of reach: in a resolved catalog that holds it, if any other
    tool, running or not, is in the summary tier, the loader's tier is full, so it is sent
    when it runs, whatever any layer says. *)
Theorem loader_stays_reachable d sid catalog rc t :
  Resolve d sid catalog = Ok rc -> NoDup (map ct_Name catalog) -> t ∈ rc_Tools rc -> rt_Tier t = TierSummary -> rt_Name t <> LoadToolsName ->
  forall l, Tool rc LoadToolsName = Some l -> rt_Tier l = TierFull /\ (rt_Running l = true -> rt_Probe l = false -> Sendable rc LoadToolsName = true).
Proof.
  intros (user & sess & project & org & ->)%Resolve_ok Hn Ht Hs Hname l Hl. pose proof (resolve_catalog_ok user sess project org catalog Hn) as Hc.
  enough (Hf : rt_Tier l = TierFull). { split; [done|]. intros Hr Hp. unfold Sendable. rewrite Hl, Hr, Hp, Hf. done. }
  destruct (co_found _ Hc _ _ Hl) as [Hin Hln]. rewrite resolve_tools in Ht, Hin by done.
  set (tools := map (resolve_tool org _) catalog) in *.
  apply list_elem_of_fmap in Ht as (t0 & -> & Ht0). rewrite ruled_name in Hname. unfold ruled in Hs. rewrite bool_decide_eq_false_2 in Hs by done. cbn in Hs.
  apply list_elem_of_fmap in Hin as (l0 & -> & Hl0). rewrite ruled_name in Hln. unfold ruled. rewrite bool_decide_eq_true_2 by done.
  assert (existsb wants_loader tools = true) as ->.
  { apply existsb_exists. exists t0. split; [by apply list_elem_of_In|]. unfold wants_loader. rewrite bool_decide_eq_true_2 by done. cbn. by rewrite bool_decide_eq_false_2. }
  cbn. destruct (decide (rt_Tier l0 = TierFull)) as [Hf|Hf]; [by rewrite bool_decide_eq_true_2|by rewrite bool_decide_eq_false_2].
Qed.

(** * The budget *)

Section Fit.
Variable size : ResolvedTool -> Z.
Variable immune protected : string -> bool.
Notation segSize := (segSize size).
Notation evict_rev := (evict_rev size immune protected).
Notation FitBudget := (FitBudget size immune protected).

(** The shortest prefix that covers the overage. *)
Fixpoint until (over : Z) (l : list ResolvedTool) : list ResolvedTool :=
  match l with [] => [] | t :: l => if over <=? 0 then [] else t :: until (over - size t) l end.

Definition evictable (last_resort : bool) (t : ResolvedTool) : bool := negb (immune (rt_Name t)) && Bool.eqb (protected (rt_Name t)) last_resort.

(** What may be evicted, in order: the activated and then the pinned segment, each from its
    tail; at last the protected tools the same way. *)
Definition candidates (p : Partition) : list ResolvedTool :=
  let from last_resort seg := List.filter (evictable last_resort) (rev seg) in
  from false (pa_Activated p) ++ from false (pa_Pinned p) ++ from true (pa_Activated p) ++ from true (pa_Pinned p).

Lemma segSize_app l1 l2 : segSize (l1 ++ l2) = segSize l1 + segSize l2.
Proof. induction l1; cbn; [done|]. unfold Exposure.segSize in *. cbn in *. lia. Qed.

Lemma segSize_perm l1 l2 : l1 ≡ₚ l2 -> segSize l1 = segSize l2.
Proof. induction 1; cbn in *; unfold Exposure.segSize in *; cbn in *; lia. Qed.

Lemma until_done over l : over <= 0 -> until over l = [].
Proof. intros H. destruct l; cbn; [done|]. by rewrite (proj2 (Z.leb_le over 0) H). Qed.

Lemma until_app over l1 l2 : until over (l1 ++ l2) = until over l1 ++ until (over - segSize (until over l1)) l2.
Proof.
  revert over. induction l1 as [|t l1 IH]; intros over; cbn.
  - by rewrite Z.sub_0_r.
  - destruct (Z.leb_spec over 0); cbn; [by rewrite until_done by lia|]. rewrite IH. do 3 f_equal. unfold Exposure.segSize. lia.
Qed.

Lemma until_sub over l t : t ∈ until over l -> t ∈ l.
Proof. revert over. induction l as [|x l IH]; intros over; cbn; [done|]. destruct (over <=? 0); [by intros H%elem_of_nil|]. intros [->|H]%elem_of_cons; [by left|right; by eapply IH]. Qed.

Lemma until_prefix over l : until over l `prefix_of` l.
Proof. revert over. induction l as [|x l IH]; intros over; cbn; [done|]. destruct (over <=? 0); [apply prefix_nil|by apply prefix_cons]. Qed.

Lemma until_rest over l : over - segSize (until over l) <= 0 \/ until over l = l.
Proof.
  revert over. induction l as [|x l IH]; intros over; cbn; [by right|]. destruct (Z.leb_spec over 0); [left; cbn; lia|].
  destruct (IH (over - size x)) as [H'| ->]; [left; unfold Exposure.segSize in *; cbn; lia|by right].
Qed.

Lemma until_last over l l' t : until over l = l' ++ [t] -> 0 < over - segSize l'.
Proof.
  revert over l'. induction l as [|x l IH]; intros over l'; cbn; [by destruct l'|]. destruct (Z.leb_spec over 0); [by destruct l'|].
  destruct l' as [|y l']; cbn; [intros _; lia|]. intros [= <- H']. apply IH in H'. unfold Exposure.segSize in *. lia.
Qed.

Definition good_state (s0 : Z) (s : evict_state) : Prop :=
  es_over s = s0 - segSize (es_Evicted s) /\ es_gone s = list_to_set (map rt_Name (es_Evicted s)).

(** One pass evicts the shortest prefix of its candidates. *)
Lemma evict_rev_until b over0 l s : NoDup (map rt_Name l) -> (forall t, t ∈ l -> evictable b t = true -> rt_Name t ∉ es_gone s) -> good_state over0 s ->
  let r := until (es_over s) (List.filter (evictable b) l) in
  es_Evicted (fst (evict_rev b l s)) = es_Evicted s ++ r /\ good_state over0 (fst (evict_rev b l s)) /\ snd (evict_rev b l s) = length r.
Proof.
  revert s. induction l as [|t l IH]; intros s Hn Hg Hs; [cbn; rewrite app_nil_r; done|]. cbn in Hn. apply NoDup_cons in Hn as [Ht Hn]. cbn zeta. cbn [Exposure.evict_rev].
  unfold evict_one. destruct (Z.leb_spec (es_over s) 0) as [Ho|Ho].
  { specialize (IH s Hn (fun t' H' => Hg t' (list_elem_of_further _ _ _ H')) Hs). rewrite !until_done in * by done. by destruct (evict_rev b l s). }
  assert (Hstep : bool_decide (rt_Name t ∈ es_gone s) || immune (rt_Name t) || negb (Bool.eqb (protected (rt_Name t)) b) = negb (evictable b t)).
  { destruct (evictable b t) eqn:E; cbn.
    - rewrite bool_decide_eq_false_2 by (apply Hg; [by left|done]). unfold evictable in E. by destruct (immune _), (Bool.eqb _ _).
    - unfold evictable in E. destruct (immune _), (Bool.eqb _ _); try done; by rewrite ?orb_true_r. }
  rewrite Hstep. cbn [List.filter]. destruct (evictable b t) eqn:E; cbn [negb].
  - set (s1 := Build_evict_state _ _ _ _). destruct Hs as [Hov Hgone].
    assert (Hs1 : good_state over0 s1) by (split; [change (es_over s - size t = over0 - segSize (es_Evicted s ++ [t])); rewrite segSize_app, Hov; unfold Exposure.segSize; cbn; lia|
        cbn; rewrite map_app, list_to_set_app_L, Hgone; cbn; set_solver]).
    assert (Hg1 : forall t', t' ∈ l -> evictable b t' = true -> rt_Name t' ∉ es_gone s1).
    { intros t' Hin He. cbn. apply not_elem_of_union. split; [|apply Hg; [by right|done]]. intros Heq%elem_of_singleton. apply Ht. rewrite <- Heq. by apply list_elem_of_fmap_2. }
    destruct (IH s1 Hn Hg1 Hs1) as (H1 & H2 & H3). destruct (evict_rev b l s1) as [s2 n]. cbn in *.
    rewrite (proj2 (Z.leb_gt (es_over s) 0) Ho). cbn. split; [rewrite H1, <- app_assoc; done|]. by rewrite H3.
  - destruct (IH s Hn (fun t' H' => Hg t' (list_elem_of_further _ _ _ H')) Hs) as (H1 & H2 & H3). by destruct (evict_rev b l s).
Qed.

Lemma evict_rev_done b l s : es_over s <= 0 -> evict_rev b l s = (s, O).
Proof. intros H. induction l as [|t l IH]; [done|]. cbn [Exposure.evict_rev]. unfold evict_one. by rewrite (proj2 (Z.leb_le _ 0) H), IH. Qed.

Definition pass (b : bool) (seg : list ResolvedTool) (s : evict_state) : evict_state := fst (evictFrom size immune protected b seg s).

Lemma pass_done b seg s : es_over s <= 0 -> pass b seg s = s.
Proof. intros H. unfold pass, evictFrom. by rewrite evict_rev_done. Qed.

Lemma pass_until b over0 seg s cand : es_Evicted s = until over0 cand -> NoDup (map rt_Name seg) -> (forall t, t ∈ seg -> evictable b t = true -> rt_Name t ∉ map rt_Name (es_Evicted s)) ->
  good_state over0 s ->
  let s' := pass b seg s in
  es_Evicted s' = until over0 (cand ++ List.filter (evictable b) (rev seg)) /\ good_state over0 s'.
Proof.
  intros He Hn Hg Hs. assert (Hr : NoDup (map rt_Name (rev seg))) by (rewrite map_rev; by apply NoDup_ListNoDup, List.NoDup_rev, NoDup_ListNoDup).
  destruct (evict_rev_until b over0 (rev seg) s Hr) as (H1 & H2 & _); [|done|].
  { intros t Ht Hev. rewrite (proj2 Hs), elem_of_list_to_set. apply Hg; [|done]. by apply list_elem_of_In, in_rev, list_elem_of_In. }
  cbn zeta. unfold pass, evictFrom. split; [|done]. rewrite H1, until_app, <- He. do 2 f_equal. apply Hs.
Qed.

(** The state a fit ends its evictions in. *)
Definition fitted (p : Partition) (over : Z) : evict_state :=
  pass true (pa_Pinned p) (pass true (pa_Activated p) (pass false (pa_Pinned p) (pass false (pa_Activated p)
    {| es_gone := ∅; es_Evicted := []; es_Protected := []; es_over := over |}))).

Lemma fit_state p budget : 0 < budget -> budget < segSize (sent p) ->
  let s := fitted p (segSize (sent p) - budget) in let f := FitBudget p budget in
  fi_Evicted f = es_Evicted s /\ fi_Remaining f = Z.max 0 (es_over s) /\ fi_Tokens f = segSize (sent p) - segSize (es_Evicted s) /\
  fi_Partition f = fit_partition p s.
Proof.
  intros Hb Hlt. cbn zeta. unfold fitted, Exposure.FitBudget.
  assert (HT : segSize (pa_Hot p) + segSize (pa_Pinned p) + segSize (pa_Activated p) = segSize (sent p)) by (unfold sent; rewrite !segSize_app; lia).
  rewrite HT, (proj2 (Z.leb_gt budget 0) Hb), (proj2 (Z.leb_gt (segSize (sent p) - budget) 0)) by lia. cbn [orb].
  set (s0 := {| es_gone := ∅; es_Evicted := []; es_Protected := []; es_over := segSize (sent p) - budget |}).
  change (pass false (pa_Activated p) s0) with (fst (evictFrom size immune protected false (pa_Activated p) s0)).
  destruct (evictFrom size immune protected false (pa_Activated p) s0) as [s1 n1]. cbn [fst].
  assert (H2 : exists po n, (if (0 <? es_over s1) && negb (bool_decide (pa_Pinned p = []))
                     then let '(s', n) := evictFrom size immune protected false (pa_Pinned p) s1 in (s', Z.min (es_over s1) (segSize (pa_Pinned p)), n)
                     else (s1, 0, O)) = (pass false (pa_Pinned p) s1, po, n)).
  { destruct (Z.ltb_spec 0 (es_over s1)) as [Ho|Ho]; cbn [andb]; [|rewrite pass_done by done; eauto]. case_bool_decide as Hp; cbn [negb].
    - rewrite Hp. eauto.
    - unfold pass. destruct (evictFrom _ _ _ _ _ _). eauto. }
  destruct H2 as (po & n & ->). set (s2 := pass false (pa_Pinned p) s1).
  assert (H3 : exists n', (if 0 <? es_over s2
                  then let '(s, _) := evictFrom size immune protected true (pa_Activated p) s2 in
                       let '(s, m) := evictFrom size immune protected true (pa_Pinned p) s in (s, (n + m)%nat)
                  else (s2, n)) = (pass true (pa_Pinned p) (pass true (pa_Activated p) s2), n')).
  { destruct (Z.ltb_spec 0 (es_over s2)) as [Ho|Ho]; [|rewrite !pass_done by (rewrite ?pass_done; done); eauto].
    unfold pass. destruct (evictFrom _ _ _ true (pa_Activated p) s2) as [s3 n3]. cbn [fst]. destruct (evictFrom _ _ _ _ _ _). eauto. }
  destruct H3 as (n' & ->). cbn [fi_Evicted fi_Remaining fi_Tokens fi_Partition]. split_and!; try done.
  destruct (Z.ltb_spec 0 (es_over (pass true (pa_Pinned p) (pass true (pa_Activated p) s2)))); lia.
Qed.

Lemma elem_from b seg t over cand : t ∈ until over (cand ++ List.filter (evictable b) (rev seg)) -> t ∈ cand \/ (t ∈ seg /\ evictable b t = true).
Proof.
  intros [H|[H He]%elem_of_filter_bool]%until_sub%elem_of_app; [by left|right]. split; [|done]. by apply list_elem_of_In, in_rev, list_elem_of_In.
Qed.

Lemma evictable_once t t' : rt_Name t = rt_Name t' -> evictable true t = true -> evictable false t' = false.
Proof. unfold evictable. intros ->. by destruct (immune _), (protected _). Qed.

Lemma fitted_until p over : NoDup (map rt_Name (sent p)) -> let s := fitted p over in
  es_Evicted s = until over (candidates p) /\ good_state over s.
Proof.
  unfold sent. rewrite !map_app. intros (_ & _ & (Hnp & Hdisj & Hna)%NoDup_app)%NoDup_app. cbn zeta. unfold fitted, candidates.
  set (s0 := {| es_gone := ∅; es_Evicted := []; es_Protected := []; es_over := over |}).
  assert (Hd : forall t t', t ∈ pa_Pinned p -> t' ∈ pa_Activated p -> rt_Name t = rt_Name t' -> False).
  { intros t t' Ht Ht' He. apply (Hdisj (rt_Name t)); [by apply list_elem_of_fmap_2|]. rewrite He. by apply list_elem_of_fmap_2. }
  destruct (pass_until false over (pa_Activated p) s0 [] eq_refl Hna) as [E1 G1]; [by intros t _ _ ?%elem_of_nil|split; cbn; [lia|done]|]. cbn [app] in E1.
  set (s1 := pass false (pa_Activated p) s0) in *.
  destruct (pass_until false over (pa_Pinned p) s1 _ E1 Hnp) as [E2 G2]; [|exact G1|].
  { rewrite E1. intros t Ht _ (t' & He & H)%list_elem_of_fmap. apply (elem_from false (pa_Activated p) t' over []) in H as [?%elem_of_nil|[H _]]; [done|by eapply Hd]. }
  set (s2 := pass false (pa_Pinned p) s1) in *.
  destruct (pass_until true over (pa_Activated p) s2 _ E2 Hna) as [E3 G3]; [|exact G2|].
  { rewrite E2. intros t Ht Hev (t' & He & H)%list_elem_of_fmap. apply elem_from in H as [[_ H]%elem_of_filter_bool|[_ H]];
      by rewrite (evictable_once t t') in H. }
  set (s3 := pass true (pa_Activated p) s2) in *.
  destruct (pass_until true over (pa_Pinned p) s3 _ E3 Hnp) as [E4 G4]; [|exact G3|].
  { rewrite E3. intros t Ht Hev (t' & He & H)%list_elem_of_fmap. apply elem_from in H as [[[_ H]%elem_of_filter_bool|[_ H]%elem_of_filter_bool]%elem_of_app|[H _]];
      [by rewrite (evictable_once t t') in H|by rewrite (evictable_once t t') in H|by eapply Hd]. }
  split; [|done]. rewrite E4. by rewrite <- !app_assoc.
Qed.

(** The loaded tools that may be evicted at all. *)
Definition loaded_evictable (p : Partition) : list ResolvedTool := List.filter (fun t => negb (immune (rt_Name t))) (pa_Pinned p ++ pa_Activated p).

Lemma evictable_split seg :
  List.filter (evictable false) seg ++ List.filter (evictable true) seg ≡ₚ List.filter (fun t => negb (immune (rt_Name t))) seg.
Proof.
  induction seg as [|t seg IH]; [done|]. cbn.
  assert (Hb : forall b, evictable b t = negb (immune (rt_Name t)) && Bool.eqb (protected (rt_Name t)) b) by done.
  rewrite !Hb. destruct (immune (rt_Name t)), (protected (rt_Name t)); cbn; try exact IH; [|by rewrite IH].
  by rewrite <- Permutation_middle, IH.
Qed.

Lemma candidates_perm p : candidates p ≡ₚ loaded_evictable p.
Proof.
  unfold candidates, loaded_evictable. rewrite List.filter_app, <- !evictable_split.
  assert (Hr : forall b seg, List.filter (evictable b) (rev seg) ≡ₚ List.filter (evictable b) seg).
  { intros b seg. rewrite List.filter_rev. symmetry. apply Permutation_rev. }
  rewrite !Hr. solve_Permutation.
Qed.

Lemma NoDup_names l : NoDup (map rt_Name l) -> NoDup l.
Proof. apply NoDup_fmap_1. Qed.

Lemma filter_NoDup {A} (f : A -> bool) l : NoDup l -> NoDup (List.filter f l).
Proof. intros H. by apply NoDup_ListNoDup, List.NoDup_filter, NoDup_ListNoDup. Qed.

Lemma kept_or_evicted p over : NoDup (map rt_Name (sent p)) ->
  let s := fitted p over in sent (fit_partition p s) ++ es_Evicted s ≡ₚ sent p.
Proof.
  intros Hn. cbn zeta. destruct (fitted_until p over Hn) as [He [_ Hg]]. set (s := fitted p over) in *.
  assert (Hsub : forall t, t ∈ es_Evicted s -> t ∈ pa_Pinned p ++ pa_Activated p).
  { intros t Ht. rewrite He in Ht. apply until_sub in Ht. rewrite candidates_perm in Ht. by apply elem_of_filter_bool in Ht as [Ht _]. }
  assert (Hnd : NoDup (pa_Pinned p ++ pa_Activated p)).
  { apply NoDup_names. unfold sent in Hn. rewrite map_app in Hn. by apply NoDup_app in Hn as (_ & _ & Hn). }
  unfold sent, fit_partition. cbn [pa_Hot pa_Pinned pa_Activated]. rewrite <- !app_assoc. apply Permutation_app_head. rewrite app_assoc, <- List.filter_app.
  assert (Hkept : forall t, t ∈ List.filter (fun t => negb (bool_decide (rt_Name t ∈ es_gone s))) (pa_Pinned p ++ pa_Activated p) <->
                            t ∈ pa_Pinned p ++ pa_Activated p /\ t ∉ es_Evicted s).
  { intros t. rewrite elem_of_filter_bool, negb_true_iff, bool_decide_eq_false, Hg, elem_of_list_to_set. split; intros [Ht Hnot]; (split; [done|]).
    - intros Hin. apply Hnot. by apply list_elem_of_fmap_2.
    - intros (t' & Heq & Hin)%list_elem_of_fmap. apply Hnot. apply list_elem_of_lookup in Ht as [i Hi]. pose proof (Hsub _ Hin) as [j Hj]%list_elem_of_lookup.
      unfold sent in Hn. rewrite map_app in Hn. apply NoDup_app in Hn as (_ & _ & Hn).
      assert (i = j) as -> by (by apply (names_inj (pa_Pinned p ++ pa_Activated p) i j t t')). congruence. }
  apply NoDup_Permutation; [|done|].
  - apply NoDup_app. split; [by apply filter_NoDup|]. split; [by intros t [_ Ht]%Hkept|]. rewrite He. destruct (until_prefix over (candidates p)) as [k Hk].
    assert (Hc : NoDup (candidates p)) by (rewrite candidates_perm; by apply filter_NoDup). rewrite Hk in Hc. by apply NoDup_app in Hc as (Hc & _ & _).
  - intros t. rewrite elem_of_app, Hkept. split; [intros [[Ht _]|Ht]; [done|by apply Hsub]|]. intros Ht. destruct (decide (t ∈ es_Evicted s)); [by right|by left].
Qed.
End Fit.

(** What a fit leaves of a partition with unique names. *)
Lemma FitBudget_spec size immune protected p budget :
  NoDup (map rt_Name (sent p)) -> 0 < budget ->
  let f := FitBudget size immune protected p budget in
  let over := segSize size (sent p) - budget in
  fi_Evicted f = until size over (candidates immune protected p) /\
  sent (fi_Partition f) ++ fi_Evicted f ≡ₚ sent p /\ pa_Hot (fi_Partition f) = pa_Hot p /\
  fi_Tokens f = segSize size (sent (fi_Partition f)) /\ fi_Remaining f = Z.max 0 (fi_Tokens f - budget) /\
  (fi_Remaining f = 0 \/ fi_Evicted f ≡ₚ loaded_evictable immune p) /\
  (forall evicted t, fi_Evicted f = evicted ++ [t] -> budget < segSize size (sent p) - segSize size evicted).
Proof.
  intros Hn Hb f over. assert (HT : segSize size (pa_Hot p) + segSize size (pa_Pinned p) + segSize size (pa_Activated p) = segSize size (sent p))
    by (unfold sent; rewrite !segSize_app; lia).
  destruct (Z.le_gt_cases over 0) as [Hle|Hgt].
  - assert (Hf : fi_Evicted f = [] /\ fi_Partition f = p /\ fi_Tokens f = segSize size (sent p) /\ fi_Remaining f = 0).
    { unfold f, FitBudget. rewrite HT. fold over. by rewrite (proj2 (Z.leb_le over 0) Hle), orb_true_r. }
    destruct Hf as (-> & -> & -> & ->). rewrite until_done, app_nil_r by done. split_and!; try done; [lia|by left|]. by intros [].
  - destruct (fit_state size immune protected p budget Hb ltac:(lia)) as (H1 & H2 & H3 & H4). fold over f in H1, H2, H3, H4.
    destruct (fitted_until size immune protected p over Hn) as [He [Ho _]]. pose proof (kept_or_evicted size immune protected p over Hn) as Hk. cbn zeta in Hk.
    assert (Htok : fi_Tokens f = segSize size (sent (fi_Partition f))).
    { rewrite H3, H4, <- (segSize_perm size _ _ Hk), segSize_app. lia. }
    rewrite H1, H4. split_and!; try done.
    + by rewrite <- H4.
    + rewrite H2, Ho, H3. f_equal. lia.
    + destruct (until_rest size over (candidates immune protected p)) as [Hr|Hr].
      * left. rewrite H2, Ho, He. lia.
      * right. rewrite He, Hr. apply candidates_perm.
    + intros evicted t Heq. rewrite He in Heq. apply until_last in Heq. lia.
Qed.

(** ** What goes last *)

Lemma until_past size over l1 l2 t : t ∈ until size over (l1 ++ l2) -> t ∉ l1 -> segSize size l1 < over.
Proof.
  revert over. induction l1 as [|x l1 IH]; intros over Ht Hn; cbn.
  - destruct l2 as [|y l2]; [by apply not_elem_of_nil in Ht|]. cbn in Ht. destruct (Z.leb_spec over 0); [by apply not_elem_of_nil in Ht|done].
  - cbn in Ht. destruct (Z.leb_spec over 0); [by apply not_elem_of_nil in Ht|]. apply not_elem_of_cons in Hn as [Hx Hn].
    apply elem_of_cons in Ht as [?|Ht]; [done|]. specialize (IH _ Ht Hn). unfold segSize in *. lia.
Qed.

(** The core tools, and of the others those that are immune or protected. *)
Definition kept_first (immune protected : string -> bool) (p : Partition) : list ResolvedTool :=
  pa_Hot p ++ List.filter (fun t => immune (rt_Name t) || protected (rt_Name t)) (pa_Pinned p ++ pa_Activated p).

Lemma kept_first_size size immune protected p :
  segSize size (sent p) = segSize size (kept_first immune protected p) +
    segSize size (List.filter (evictable immune protected false) (rev (pa_Activated p)) ++ List.filter (evictable immune protected false) (rev (pa_Pinned p))).
Proof.
  assert (forall seg, segSize size seg = segSize size (List.filter (fun t => immune (rt_Name t) || protected (rt_Name t)) seg) +
                                         segSize size (List.filter (evictable immune protected false) (rev seg))) as Hseg.
  { intros seg. rewrite (segSize_perm size (List.filter _ (rev seg)) (List.filter (evictable immune protected false) seg))
      by (rewrite List.filter_rev; symmetry; apply Permutation_rev).
    induction seg as [|t seg IH]; [done|]. cbn. unfold evictable at 1. destruct (immune (rt_Name t)), (protected (rt_Name t)); cbn; unfold segSize in *; cbn; lia. }
  unfold kept_first, sent. rewrite List.filter_app, !segSize_app, (Hseg (pa_Pinned p)), (Hseg (pa_Activated p)). lia.
Qed.

(** A protected tool stays as long as what goes last fits on its own. *)
Lemma protected_stays size immune protected p budget t : NoDup (map rt_Name (sent p)) -> 0 < budget ->
  segSize size (kept_first immune protected p) <= budget -> t ∈ sent p -> protected (rt_Name t) = true ->
  t ∈ sent (fi_Partition (FitBudget size immune protected p budget)).
Proof.
  intros Hn Hb Hfit Ht Hp. destruct (FitBudget_spec size immune protected p budget Hn Hb) as (Hev & Hperm & _). cbn zeta in *.
  rewrite <- Hperm in Ht. apply elem_of_app in Ht as [Ht|Ht]; [done|exfalso]. rewrite Hev in Ht. unfold candidates in Ht. rewrite app_assoc in Ht.
  apply until_past in Ht; [rewrite (kept_first_size size immune protected) in Ht; lia|].
  intros Hin. apply elem_of_app in Hin as [Hin|Hin]; apply elem_of_filter_bool in Hin as [_ Hin]; unfold evictable in Hin; rewrite Hp, andb_false_r in Hin; done.
Qed.

(** C24: the schema budget evicts as little as it can, in the order it promises.  Of a
    partition with unique names over a positive budget, the evicted tools are the shortest
    run of the candidates (activated, then pinned, each from the tail of its segment, the
    tools loaded this turn last) that brings the call within the budget; what is still over
    is only over when every loaded tool that may go is gone; and without the last eviction
    the call would have been over. *)
Theorem budget_fit size immune protected p budget :
  NoDup (map rt_Name (sent p)) -> 0 < budget ->
  let f := FitBudget size immune protected p budget in
  fi_Evicted f = until size (segSize size (sent p) - budget) (candidates immune protected p) /\
  (segSize size (sent (fi_Partition f)) <= budget \/ fi_Evicted f ≡ₚ loaded_evictable immune p) /\
  (forall evicted t, fi_Evicted f = evicted ++ [t] -> budget < segSize size (sent p) - segSize size evicted).
Proof.
  intros Hn Hb. destruct (FitBudget_spec size immune protected p budget Hn Hb) as (H1 & _ & _ & H4 & H5 & H6 & H7). cbn zeta in *.
  split; [done|]. split; [|done]. rewrite <- H4. destruct H6 as [H6|H6]; [left; lia|by right].
Qed.

(** * Instances *)

Definition demo_catalog : list CatalogTool :=
  let tool name server := {| ct_Name := name; ct_Server := server; ct_Running := true; ct_Probe := false |} in
  [tool LoadToolsName "kenaz"; tool "kenaz__read_file" "kenaz"; tool "mail__send" "mail"; tool "mail__list" "mail"; tool "git__log" "git"; ServerProbe "jira"].
Definition off_server (server : string) : Exposure := {| ex_Servers := {[server := {| se_Tier := TierOff; se_Tools := ∅ |}]} |}.
Definition full_tool (server tool : string) : Exposure := {| ex_Servers := {[server := {| se_Tier := ""; se_Tools := {[tool := TierFull]} |}]} |}.
Definition demo_settings : Settings :=
  {| st_Exposure := full_tool "git" "log"; st_SchemaBudgetTokens := 0; st_ActivationTTLTurns := 0; st_EffectiveSchemaBudgetTokens := 0;
     st_EffectiveActivationTTLTurns := 0 |}.
(** The organisation turns git off; the user has its log full. *)
Definition demo_org : OrgPolicy :=
  {| op_Pins := off_server "git"; op_Defaults := no_exposure; op_SchemaBudgetTokens := 0; op_HotSetExtra := []; op_BundleID := 7 |}.
Definition demo_deps (sess : SessionState) : Deps :=
  {| de_Settings := Some (Ok demo_settings); de_Sessions := Some (fun _ => Ok sess); de_Projects := Some (fun _ => Err "no project");
     de_Pins := Some (Ok demo_org) |}.
Definition demo_session (activated : list Activation) : SessionState := {| ss_ProjectID := ""; ss_Override := no_exposure; ss_Activations := activated |}.
Definition act (name server : string) (turn : Z) : Activation := {| ac_Name := name; ac_Server := server; ac_LastUsedTurn := turn; ac_Sticky := false |}.
Definition demo_rc : ResolvedCatalog :=
  resolve_catalog demo_settings (demo_session [act "mail__send" "mail" 1; act "mail__list" "mail" 2]) no_exposure demo_org demo_catalog.

Example demo_names : sendNames (partition demo_rc) = ["kenaz__load_tools"; "kenaz__read_file"; "mail__list"; "mail__send"] /\ Sendable demo_rc "git__log" = false.
Proof. split; by vm_compute. Qed.

Lemma demo_unique : NoDup (map ct_Name demo_catalog).
Proof. by apply (bool_decide_unpack _). Qed.

Lemma partition_sends_sendable_witness :
  ("mail__list" ∈ sendNames (partition demo_rc) <-> Sendable demo_rc "mail__list" = true) /\ NoDup (sendNames (partition demo_rc)).
Proof.
  destruct (partition_sends_sendable (demo_deps (demo_session [act "mail__send" "mail" 1; act "mail__list" "mail" 2])) "s1" demo_catalog demo_rc eq_refl demo_unique) as (H & Hn & _).
  split; [apply H|exact Hn].
Defined.

Lemma org_pin_holds_witness :
  exists t, Tool demo_rc "git__log" = Some t /\ rt_Tier t = TierOff /\ rt_Source t = LevelOrgPin.
Proof.
  destruct (org_pin_holds (demo_deps (demo_session [act "mail__send" "mail" 1; act "mail__list" "mail" 2])) "s1" demo_catalog demo_rc demo_org
    {| ct_Name := "git__log"; ct_Server := "git"; ct_Running := true; ct_Probe := false |} eq_refl demo_unique eq_refl) as (t & Ht & _ & H).
  - do 4 right. by left.
  - done.
  - done.
  - exists t. split; [exact Ht|]. apply H; by vm_compute.
Defined.

Lemma loader_stays_reachable_witness :
  exists rc, Resolve (demo_deps (demo_session [])) "s1" demo_catalog = Ok rc /\ Sendable rc LoadToolsName = true.
Proof.
  set (rc := resolve_catalog demo_settings (demo_session []) no_exposure demo_org demo_catalog). exists rc. split; [done|].
  destruct (loader_stays_reachable (demo_deps (demo_session [])) "s1" demo_catalog rc
    {| rt_Name := "mail__send"; rt_Server := "mail"; rt_Running := true; rt_Probe := false; rt_Tier := TierSummary; rt_Source := LevelDefault |}
    eq_refl demo_unique ltac:(by apply (bool_decide_unpack _); vm_compute) eq_refl ltac:(done)
    {| rt_Name := LoadToolsName; rt_Server := "kenaz"; rt_Running := true; rt_Probe := false; rt_Tier := TierFull; rt_Source := LevelDefault |}
    ltac:(by vm_compute)) as [_ H]. by apply H.
Defined.

Definition demo_fit : BudgetFit :=
  FitBudget (fun _ => 10) (fun n => bool_decide (n = "mail__list")) (fun _ => false) (partition demo_rc) 25.

Lemma budget_fit_witness : map rt_Name (fi_Evicted demo_fit) = ["mail__send"] /\ fi_Remaining demo_fit = 5 /\
  (segSize (fun _ => 10) (sent (fi_Partition demo_fit)) <= 25 \/
   fi_Evicted demo_fit ≡ₚ loaded_evictable (fun n => bool_decide (n = "mail__list")) (partition demo_rc)).
Proof.
  destruct (budget_fit (fun _ => 10) (fun n => bool_decide (n = "mail__list")) (fun _ => false) (partition demo_rc) 25) as (_ & H & _).
  - apply (bool_decide_unpack _). by vm_compute.
  - done.
  - split; [by vm_compute|]. split; [by vm_compute|exact H].
Defined.
