(* ===== verification/LoadTools.v ===== *)
(** Loading tool definitions on demand (core/tools/loadtools/loadtools.go): the load core with
    its activations, their expiry and refresh, the write guard of the exposure layers, and the
    eviction record; with the session's stored exposure (core/session/tool_exposure.go) and the
    digest of what is not loaded (digest.go).
    The [sources] are what the code is wired to; a source that is not wired is [None]. *)
From S2P Require Import Prelude GoString Utf8 Exposure.
From Stdlib Require Import Ascii.
Local Open Scope Z_scope.

(** * The stored sessions (core/session/tool_exposure.go) *)

Record ToolsActivatedPayload := { ta_SessionID : string; ta_Servers : list string; ta_ToolCount : Z; ta_Sticky : bool; ta_By : string }.
Record ToolsEvictedPayload := { te_SessionID : string; te_Servers : list string; te_ToolCount : Z; te_PinnedCount : nat; te_Budget : Z; te_OverBy : Z }.
Inductive audit_row := KindToolsActivated (p : ToolsActivatedPayload) | KindToolsEvicted (p : ToolsEvictedPayload).

(** The sessions, the audit's rows and the last eviction audited per session. *)
Record store := { to_sessions : gmap string SessionState; to_audit : list audit_row; to_lastEvicted : gmap string string }.

Definition ErrSessionNotFound : string := "session: not found".
(** A layer that is not valid: the code names one of the entries that are wrong, in the order
    it walks its maps. *)
Definition ErrInvalidExposure : string := "toolexposure: invalid exposure".

Definition with_sessions (s : store) (m : gmap string SessionState) : store :=
  {| to_sessions := m; to_audit := to_audit s; to_lastEvicted := to_lastEvicted s |}.
Definition record_row (row : audit_row) (s : store) : store :=
  {| to_sessions := to_sessions s; to_audit := to_audit s ++ [row]; to_lastEvicted := to_lastEvicted s |}.
Definition with_activations (st : SessionState) (l : list Activation) : SessionState :=
  {| ss_ProjectID := ss_ProjectID st; ss_Override := ss_Override st; ss_Activations := l |}.

Definition SessionToolExposure (s : store) (id : string) : result SessionState string :=
  match to_sessions s !! id with Some st => Ok st | None => Err ErrSessionNotFound end.

(** What the code is wired to, and the database's answer to a write. *)
Record CatalogEntry := { ce_Name : string; ce_Server : string; ce_TokenEst : Z }.
Record ServerInfo := { si_Name : string; si_Purpose : string; si_State : string; si_Running : bool }.
Record sources := {
  so_Settings : result Settings string; so_Projects : string -> result Exposure string; so_Pins : option (result OrgPolicy string);
  so_Catalog : string -> result (list CatalogEntry) string; so_Servers : option (list ServerInfo); so_Turns : option (string -> result Z string);
  so_audit : bool; so_write : string -> option string
}.

(** [Manager.SetToolActivations] and [Manager.SetToolExposure]. *)
Definition write_session (so : sources) (id : string) (f : SessionState -> SessionState) (s : store) : option string * store :=
  match so_write so id with
  | Some err => (Some err, s)
  | None =>
      match to_sessions s !! id with
      | Some st => (None, with_sessions s (<[id := f st]> (to_sessions s)))
      | None => (Some ErrSessionNotFound, s)
      end
  end.
Definition SetToolActivations (so : sources) (id : string) (l : list Activation) (s : store) : option string * store :=
  match ValidateActivations l with Some err => (Some err, s) | None => write_session so id (fun st => with_activations st l) s end.
Definition SetToolExposure (so : sources) (id : string) (e : Exposure) (s : store) : option string * store :=
  if Exposure_Validate e then write_session so id (fun st => with_override st e) s else (Some ErrInvalidExposure, s).

Definition reset_turn (a : Activation) : Activation :=
  {| ac_Name := ac_Name a; ac_Server := ac_Server a; ac_LastUsedTurn := 0; ac_Sticky := ac_Sticky a |}.

Definition InheritToolExposure (so : sources) (parentID childID : string) (s : store) : option string * store :=
  match SessionToolExposure s parentID with
  | Err err => (Some err, s)
  | Ok st =>
      let '(err, s) := if Exposure_IsZero (ss_Override st) then (None, s) else SetToolExposure so childID (ss_Override st) s in
      match err with
      | Some err => (Some err, s)
      | None =>
          if bool_decide (ss_Activations st = []) then (None, s)
          else let '(_, s) := SetToolActivations so childID (map reset_turn (ss_Activations st)) s in (None, s)
      end
  end.

(** * Resolving a session's catalog *)

Definition deps_of (so : sources) (settings : result Settings string) (s : store) : Deps :=
  {| de_Settings := Some settings; de_Sessions := Some (SessionToolExposure s); de_Projects := Some (so_Projects so); de_Pins := so_Pins so |}.

(** The directory keyed by name: the last entry of a name. *)
Definition servers (so : sources) : gmap string ServerInfo :=
  foldl (fun m si => <[si_Name si := si]> m) ∅ (default [] (so_Servers so)).

Definition CatalogWithProbes (entries : list CatalogEntry) (servers : gmap string ServerInfo) : list CatalogTool :=
  let stopped n := match servers !! n with Some si => negb (si_Running si) | None => false end in
  map (fun e => {| ct_Name := ce_Name e; ct_Server := ce_Server e; ct_Running := true; ct_Probe := false |}) entries ++
  map ServerProbe (List.filter (fun n => stopped n && negb (bool_decide (n ∈ map ce_Server entries))) (sort_strings (map fst (map_to_list servers)))).

Definition ResolveCatalog (d : Deps) (sessionID : string) (entries : list CatalogEntry) (servers : gmap string ServerInfo) : result ResolvedCatalog string :=
  Resolve d sessionID (CatalogWithProbes entries servers).

Definition service_resolve (so : sources) (sessionID : string) (s : store) : result ResolvedCatalog string :=
  let! entries := map_err "loadtools: catalog: " (so_Catalog so sessionID) in
  ResolveCatalog (deps_of so (so_Settings so) s) sessionID entries (servers so).

(** * Naming what was not loaded *)

Record Request := { rq_Servers : list string; rq_Tools : list string; rq_Sticky : bool }.
Record NotLoaded := { nl_Name : string; nl_Reason : string }.
Record LoadResult := {
  lr_Loaded : list string; lr_LoadedByServer : gmap string Z; lr_NextTurn : list string; lr_NotLoaded : list NotLoaded; lr_Summary : string
}.

Definition MaxLoadedNames : nat := 10%nat.
Definition ReasonInvalidGlob : string := "invalid glob: use <server>__<prefix>* for a server in the list".
Definition ReasonOverBudget : string := "over the schema budget".
Definition ReasonPinnedOverBudget : string := "pinned but over the schema budget".
Definition ReasonUnknown : string := "unknown".
Definition ErrEmptyRequest : string := "loadtools: name at least one server or tool".

Definition OffReason (source : Level) : string :=
  match source with
  | LevelOrgPin => "off — set by your organisation"
  | LevelSession => "off — turned off for this session"
  | LevelProject => "off — turned off for this project"
  | LevelUser => "off — turned off in Settings → Capabilities"
  | LevelOrgDefault => "off — your organisation's default (you can change it in Settings → Capabilities)"
  | _ => "off"
  end.

Definition notServedReason (server : string) (servers : gmap string ServerInfo) : string :=
  match servers !! server with
  | Some si =>
      if si_Running si then ReasonUnknown
      else "server " +:+ server +:+ " is not running (state: " +:+ (if bool_decide (si_State si = "") then "stopped" else si_State si) +:+ ")"
  | None => ReasonUnknown
  end.

(** [strings.Index] on characters. *)
Fixpoint Index (p l : list ascii) : option nat :=
  if prefixb p l then Some O else match l with [] => None | _ :: l => S <$> Index p l end.

Definition serverOf (name : string) : string :=
  match Index (list_of NameSeparator) (list_of name) with
  | Some (S i) => of_list (take (S i) (list_of name))
  | _ => name
  end.

(** [strings.CutSuffix(name, "*")] *)
Definition cut_star (name : string) : option string := if HasSuffix name "*" then Some (of_list (removelast (list_of name))) else None.

Definition servable (t : ResolvedTool) : bool := rt_Running t && negb (rt_Probe t).
Definition toolsOf (rc : ResolvedCatalog) (keep : ResolvedTool -> bool) : list ResolvedTool := List.filter (fun t => servable t && keep t) (rc_Tools rc).

(** * The load *)

(** What a load has collected: what counts as loaded, what to activate, what it refused. *)
Record taken := { tk_loaded : gset string; tk_activate : gset string; tk_notLoaded : list NotLoaded }.

Definition refuse (name reason : string) (k : taken) : taken :=
  if bool_decide (name ∈ map nl_Name (tk_notLoaded k)) then k
  else {| tk_loaded := tk_loaded k; tk_activate := tk_activate k; tk_notLoaded := tk_notLoaded k ++ [{| nl_Name := name; nl_Reason := reason |}] |}.

Definition take_one (perTool : bool) (k : taken) (t : ResolvedTool) : taken :=
  if bool_decide (rt_Tier t = TierFull)
  then {| tk_loaded := {[rt_Name t]} ∪ tk_loaded k; tk_activate := tk_activate k; tk_notLoaded := tk_notLoaded k |}
  else if bool_decide (rt_Tier t = TierSummary)
  then {| tk_loaded := {[rt_Name t]} ∪ tk_loaded k; tk_activate := {[rt_Name t]} ∪ tk_activate k; tk_notLoaded := tk_notLoaded k |}
  else if bool_decide (rt_Tier t = TierOff) && perTool then refuse (rt_Name t) (OffReason (rt_Source t)) k
  else k.
Definition take_all (perTool : bool) (matched : list ResolvedTool) (k : taken) : taken := foldl (take_one perTool) k matched.

Definition is_off (t : ResolvedTool) : bool := bool_decide (rt_Tier t = TierOff).
Definition first_off_reason (matched : list ResolvedTool) : string :=
  match List.find is_off matched with Some t => OffReason (rt_Source t) | None => "" end.

(** [takeAll]: of one server name or glob. *)
Definition takeAll (name : string) (matched : list ResolvedTool) (k : taken) : taken :=
  let someLoadable := existsb (fun t => negb (is_off t)) matched in
  let k := take_all someLoadable matched k in
  if someLoadable then k else refuse name (first_off_reason matched) k.

Definition load_server (rc : ResolvedCatalog) (servers : gmap string ServerInfo) (k : taken) (raw : string) : taken :=
  let name := TrimSpace raw in
  if bool_decide (name = "") then k
  else
    let matched := toolsOf rc (fun t => bool_decide (rt_Server t = name)) in
    if bool_decide (matched = []) then refuse name (notServedReason name servers) k else takeAll name matched k.

Definition load_glob (rc : ResolvedCatalog) (servers : gmap string ServerInfo) (name prefix : string) (k : taken) : taken :=
  let server := serverOf prefix in
  if negb (Contains prefix NameSeparator) || bool_decide (server = "") || Contains prefix "*" then refuse name ReasonInvalidGlob k
  else if negb (bool_decide (server ∈ map rt_Server (toolsOf rc (fun _ => true)))) then
    match servers !! server with
    | Some si => refuse name (if si_Running si then ReasonInvalidGlob else notServedReason server servers) k
    | None => refuse name ReasonInvalidGlob k
    end
  else
    let matched := toolsOf rc (fun t => HasPrefix (rt_Name t) prefix) in
    if bool_decide (matched = []) then refuse name ReasonUnknown k else takeAll name matched k.

Definition load_tool (rc : ResolvedCatalog) (servers : gmap string ServerInfo) (k : taken) (raw : string) : taken :=
  let name := TrimSpace raw in
  if bool_decide (name = "") then k
  else
    match cut_star name with
    | Some prefix => load_glob rc servers name prefix k
    | None =>
        match Tool rc name with
        | Some t => if servable t then take_all true [t] k else refuse name (notServedReason (serverOf name) servers) k
        | None => refuse name (notServedReason (serverOf name) servers) k
        end
    end.

Definition collect (rc : ResolvedCatalog) (servers : gmap string ServerInfo) (req : Request) : taken :=
  foldl (load_tool rc servers) (foldl (load_server rc servers) {| tk_loaded := ∅; tk_activate := ∅; tk_notLoaded := [] |} (rq_Servers req)) (rq_Tools req).

Definition sortedKeys (m : gset string) : list string := sort_strings (elements m).

(** [idx]: where the last activation of a name is. *)
Fixpoint last_activation (name : string) (l : list Activation) : option nat :=
  match l with
  | [] => None
  | a :: l => match last_activation name l with Some i => Some (S i) | None => if bool_decide (ac_Name a = name) then Some O else None end
  end.

Definition touch_activation (turn : option Z) (sticky : bool) (a : Activation) : Activation :=
  {| ac_Name := ac_Name a; ac_Server := ac_Server a; ac_LastUsedTurn := default (ac_LastUsedTurn a) turn; ac_Sticky := sticky || ac_Sticky a |}.

(** One name of [activate]; [old] is the set before the load, which [idx] indexes. *)
Definition apply_one (rc : ResolvedCatalog) (old : list Activation) (turn : option Z) (sticky : bool) (x : list Activation * Z) (name : string) :
    list Activation * Z :=
  let '(out, count) := x in
  match last_activation name old with
  | Some i =>
      (alter (touch_activation turn sticky) i out, match out !! i with Some a => if sticky && negb (ac_Sticky a) then count + 1 else count | None => count end)
  | None =>
      let server := match Tool rc name with Some t => rt_Server t | None => "" end in
      (out ++ [{| ac_Name := name; ac_Server := server; ac_LastUsedTurn := default 0 turn; ac_Sticky := sticky |}], count + 1)
  end.

(** [None] is a turn count that could not be read. *)
Definition turn_for_load (so : sources) (sessionID : string) : option Z :=
  match so_Turns so with None => Some 0 | Some f => match f sessionID with Ok n => Some n | Err _ => None end end.

Definition applyActivations (so : sources) (sessionID : string) (rc : ResolvedCatalog) (activate : gset string) (sticky : bool) : option (list Activation) * Z :=
  if bool_decide (activate = ∅) then (None, 0)
  else let '(out, count) := foldl (apply_one rc (rc_Activations rc) (turn_for_load so sessionID) sticky) (rc_Activations rc, 0) (sortedKeys activate) in
       (Some out, count).

Definition serversOf (names : gset string) (rc : ResolvedCatalog) : list string :=
  sortedKeys (list_to_set (omap (fun n => rt_Server <$> Tool rc n) (elements names))).

(** The summary text. *)
Definition server_part (n : Z) (server : string) : string :=
  if n =? 1 then "1 tool from " +:+ server else fmt_d n +:+ " tools from " +:+ server.
Definition summarise (byServer : gmap string Z) (nextTurn notLoaded : nat) (loaded : nat) (activated : Z) : string :=
  (match loaded with
   | O => "loaded no tools"
   | _ =>
       "loaded " +:+ Join (map (fun sv => server_part (default 0 (byServer !! sv)) sv) (sort_strings (map fst (map_to_list byServer)))) ", " +:+
       (if activated =? 0 then " (already loaded)" else "") +:+
       (if bool_decide (nextTurn = loaded) then "; available from your next turn"
        else if bool_decide (nextTurn = O) then "; definitions are sent on your next call"
        else "; definitions are sent on your next call, except " +:+ fmt_d (Z.of_nat nextTurn) +:+ " available from your next turn (see next_turn)")
   end) +:+
  (match notLoaded with O => "" | _ => "; " +:+ fmt_d (Z.of_nat notLoaded) +:+ " could not be loaded (see not_loaded)" end).

Section Load.
(** The calling turn, its view of its next call and its schema budget; [None] outside a turn. *)
Context {T : Type}.
Variable so : sources.
Variable view : option (T -> store -> string -> bool).
Variable budget : option (T -> store -> list string -> T * gmap string string).

(** The reasons of the turn's budget, per loaded name. *)
Definition apply_reason (x : taken * nat) (nr : string * string) : taken * nat :=
  let '(k, over) := x in
  if bool_decide (nr.1 ∈ tk_loaded k)
  then (refuse nr.1 nr.2 {| tk_loaded := tk_loaded k ∖ {[nr.1]}; tk_activate := tk_activate k; tk_notLoaded := tk_notLoaded k |}, S over)
  else (k, over).

Definition notLoaded_le (a b : NotLoaded) : Prop := String.le (nl_Name a) (nl_Name b).
#[global] Instance notLoaded_le_dec : RelDecision notLoaded_le.
Proof. intros a b. unfold notLoaded_le. apply _. Defined.

Definition fit_load (turn : T) (s : store) (k : taken) : T * (taken * nat) :=
  match budget with
  | Some fit =>
      if bool_decide (tk_loaded k = ∅) then (turn, (k, O))
      else
        let '(turn, reasons) := fit turn s (sortedKeys (tk_loaded k)) in
        let '(k, over) := foldl apply_reason (k, O) (map_to_list reasons) in
        (turn, ({| tk_loaded := tk_loaded k; tk_activate := tk_activate k; tk_notLoaded := merge_sort notLoaded_le (tk_notLoaded k) |}, over))
  | None => (turn, (k, O))
  end.

Definition count_server (rc : ResolvedCatalog) (m : gmap string Z) (n : string) : gmap string Z :=
  let server := match Tool rc n with Some t => rt_Server t | None => "" end in <[server := default 0 (m !! server) + 1]> m.

Definition load_result (rc : ResolvedCatalog) (turn : T) (s : store) (k : taken) (count : Z) (overBudget : nat) : LoadResult :=
  let names := sortedKeys (tk_loaded k) in
  let byServer := foldl (count_server rc) ∅ names in
  let nextTurn := match view with Some v => List.filter (fun n => negb (v turn s n)) names | None => [] end in
  {| lr_Loaded := if bool_decide (length names <= MaxLoadedNames)%nat then names else []; lr_LoadedByServer := byServer; lr_NextTurn := nextTurn;
     lr_NotLoaded := tk_notLoaded k;
     lr_Summary := summarise byServer (length nextTurn) (length (tk_notLoaded k)) (length names) count +:+
       (match overBudget with
        | O => ""
        | _ => "; " +:+ fmt_d (Z.of_nat overBudget) +:+ " loaded but over the schema budget — unload others or pick a larger model"
        end) |}.

Definition load (turn : T) (s : store) (sessionID : string) (req : Request) (by_ : string) : result (LoadResult * Z) string * T * store :=
  if bool_decide (rq_Servers req = []) && bool_decide (rq_Tools req = []) then (Err ErrEmptyRequest, turn, s)
  else
    match service_resolve so sessionID s with
    | Err e => (Err e, turn, s)
    | Ok rc =>
        let k := collect rc (servers so) req in
        let '(changed, count) := applyActivations so sessionID rc (tk_activate k) (rq_Sticky req) in
        let '(err, s) := match changed with Some l => SetToolActivations so sessionID l s | None => (None, s) end in
        match err with
        | Some e => (Err ("loadtools: save activations: " +:+ e), turn, s)
        | None =>
            let s :=
              if (0 <? count) && so_audit so
              then record_row (KindToolsActivated {| ta_SessionID := sessionID; ta_Servers := serversOf (tk_activate k) rc; ta_ToolCount := count;
                                               ta_Sticky := rq_Sticky req; ta_By := by_ |}) s
              else s in
            let '(turn, (k, overBudget)) := fit_load turn s k in
            (Ok (load_result rc turn s k count overBudget, count), turn, s)
        end
    end.
End Load.

(** [Load] and [AutoActivate]; the latter is called outside any view. *)
Definition Load {T} so view budget (turn : T) (s : store) (sessionID : string) (req : Request) (by_ : string) : result LoadResult string * T * store :=
  let '(r, turn, s) := load so view budget turn s sessionID req by_ in (let! x := r in Ok x.1, turn, s).

Definition ToolsActivatedByModel : string := "model".
Definition ToolsActivatedByAuto : string := "auto".

Definition AutoActivate (so : sources) (s : store) (sessionID name : string) : bool * option string * store :=
  let '(r, _, s) := load (T := unit) so None None tt s sessionID {| rq_Servers := []; rq_Tools := [name]; rq_Sticky := false |} ToolsActivatedByAuto in
  match r with Ok (_, n) => (0 <? n, None, s) | Err e => (false, Some e, s) end.

(** * The set over time *)

Definition TurnOrdinal (so : sources) (sessionID : string) : result Z string :=
  match so_Turns so with None => Ok 0 | Some f => f sessionID end.

(** [Service.ExpireActivations] *)
Definition expire_session (so : sources) (s : store) (sessionID : string) (turn ttl : Z) : result (list Activation) string * store :=
  match SessionToolExposure s sessionID with
  | Err e => (Err ("loadtools: read activations: " +:+ e), s)
  | Ok st =>
      let '(kept, expired) := ExpireActivations (ss_Activations st) turn ttl in
      if bool_decide (expired = []) then (Ok [], s)
      else
        let '(err, s) := SetToolActivations so sessionID kept s in
        match err with Some e => (Err ("loadtools: save activations: " +:+ e), s) | None => (Ok expired, s) end
  end.

(** The first activation of a name. *)
Fixpoint first_activation (name : string) (l : list Activation) : option nat :=
  match l with [] => None | a :: l => if bool_decide (ac_Name a = name) then Some O else S <$> first_activation name l end.

Definition stamp_turn (turn : Z) (a : Activation) : Activation :=
  {| ac_Name := ac_Name a; ac_Server := ac_Server a; ac_LastUsedTurn := turn; ac_Sticky := ac_Sticky a |}.

Definition MarkUsed (so : sources) (s : store) (sessionID name : string) (turn : Z) : result bool string * store :=
  match SessionToolExposure s sessionID with
  | Err e => (Err ("loadtools: read activations: " +:+ e), s)
  | Ok st =>
      match first_activation name (ss_Activations st) with
      | None => (Ok false, s)
      | Some i =>
          if bool_decide (ac_LastUsedTurn <$> ss_Activations st !! i = Some turn) then (Ok false, s)
          else
            let '(err, s) := SetToolActivations so sessionID (alter (stamp_turn turn) i (ss_Activations st)) s in
            match err with Some e => (Err ("loadtools: save activations: " +:+ e), s) | None => (Ok true, s) end
      end
  end.

Definition RecordEviction (so : sources) (s : store) (sessionID : string) (fit : BudgetFit) : store :=
  let key := Join (sort_strings (map rt_Name (fi_Evicted fit))) "," in
  let same := bool_decide (default "" (to_lastEvicted s !! sessionID) = key) in
  let s := {| to_sessions := to_sessions s; to_audit := to_audit s;
              to_lastEvicted := if bool_decide (key = "") then delete sessionID (to_lastEvicted s) else <[sessionID := key]> (to_lastEvicted s) |} in
  if same || bool_decide (key = "") || negb (so_audit so) then s
  else record_row (KindToolsEvicted {| te_SessionID := sessionID; te_Servers := sortedKeys (list_to_set (map rt_Server (fi_Evicted fit)));
                                 te_ToolCount := Z.of_nat (length (fi_Evicted fit)); te_PinnedCount := fi_PinnedEvicted fit;
                                 te_Budget := fi_Budget fit; te_OverBy := fi_OverBy fit |}) s.

(** * The write guard *)

Inductive guard_error := GuardPinned (e : PinnedError) | GuardLoadToolsRequired (summary : list string) (tier : string) | GuardFailed (e : string).

Definition checkOrgPins (so : sources) (s : store) (w : LayerWrite) : option guard_error :=
  match so_Pins so with
  | None => None
  | Some pins =>
      if bool_decide (lw_Level w = LevelUser) then None
      else
        match pins with
        | Err e => Some (GuardFailed ("loadtools: org pins: " +:+ e))
        | Ok org =>
            if OrgPolicy_IsZero org then None
            else
              let stored :=
                match lw_Level w with
                | LevelProject => so_Projects so (lw_ProjectID w)
                | LevelSession => let! st := SessionToolExposure s (lw_SessionID w) in Ok (ss_Override st)
                | _ => Ok no_exposure
                end in
              match stored with
              | Err e => Some (GuardFailed e)
              | Ok stored => GuardPinned <$> CheckOrgPins org stored (lw_Exposure w)
              end
        end
  end.

Definition summary_line (t : ResolvedTool) : string := if rt_Probe t then rt_Server t +:+ " (stopped)" else rt_Name t.
Definition summary_lines (rc : ResolvedCatalog) : list string := sort_strings (map summary_line (List.filter wants_loader (rc_Tools rc))).

Definition CheckLayerWrite (so : sources) (s : store) (w : LayerWrite) : option guard_error :=
  match checkOrgPins so s w with
  | Some e => Some e
  | None =>
      let tier := lookup_tier (lw_Exposure w) BuiltinServer "load_tools" in
      if bool_decide (tier = TierOff) || bool_decide (tier = TierSummary) then
        match so_Catalog so (lw_SessionID w) with
        | Err e => Some (GuardFailed ("loadtools: catalog: " +:+ e))
        | Ok entries =>
            match ResolveCatalog (WithLayer (deps_of so (so_Settings so) s) w) (lw_SessionID w) entries (servers so) with
            | Err e => Some (GuardFailed e)
            | Ok rc =>
                if match Tool rc LoadToolsName with Some lt => negb (bool_decide (rt_Source lt = LevelInvariant)) | None => false end then None
                else if bool_decide (summary_lines rc = []) then None else Some (GuardLoadToolsRequired (summary_lines rc) tier)
            end
        end
      else None
  end.

(** * The digest of the tools that are available but not loaded (digest.go) *)

Definition maxExamples : nat := 5%nat.
Definition maxPurposeRunes : nat := 140%nat.
Definition DigestHeading : string := "Available but not loaded".
Definition introLine : string :=
  "Call " +:+ LoadToolsName +:+ " with {" +:+ dquote +:+ "servers" +:+ dquote +:+ ": [...]} or {" +:+ dquote +:+ "tools" +:+ dquote +:+ ": [" +:+ dquote +:+
  "server__tool" +:+ dquote +:+ " or " +:+ dquote +:+ "server__prefix*" +:+ dquote +:+ "]} to load any of these; their definitions arrive on your next call.".
Definition NoteDefaultsApply : string := "Tool settings could not be read; defaults apply.".

Record DigestServer := { dg_Name : string; dg_Purpose : string; dg_Count : nat; dg_Examples : list string; dg_Stopped : bool }.
#[global] Instance DigestServer_eq : EqDecision DigestServer.
Proof. solve_decision. Defined.

(** [strings.TrimPrefix] *)
Definition TrimPrefix (s p : string) : string := if HasPrefix s p then of_list (drop (String.length p) (list_of s)) else s.

Definition new_server (purposes : gmap string string) (server : string) : DigestServer :=
  {| dg_Name := server; dg_Purpose := default "" (purposes !! server); dg_Count := O; dg_Examples := []; dg_Stopped := false |}.

Definition add_digest (purposes : gmap string string) (by_ : gmap string DigestServer) (t : ResolvedTool) : gmap string DigestServer :=
  let d := default (new_server purposes (rt_Server t)) (by_ !! rt_Server t) in
  <[rt_Server t := {| dg_Name := dg_Name d; dg_Purpose := dg_Purpose d; dg_Count := S (dg_Count d);
                      dg_Examples := if bool_decide (length (dg_Examples d) < maxExamples)%nat
                                     then dg_Examples d ++ [TrimPrefix (rt_Name t) (rt_Server t +:+ NameSeparator)] else dg_Examples d;
                      dg_Stopped := dg_Stopped d |}]> by_.
Definition add_stopped (purposes : gmap string string) (by_ : gmap string DigestServer) (t : ResolvedTool) : gmap string DigestServer :=
  let d := default (new_server purposes (rt_Server t)) (by_ !! rt_Server t) in
  <[rt_Server t := {| dg_Name := dg_Name d; dg_Purpose := dg_Purpose d; dg_Count := dg_Count d; dg_Examples := dg_Examples d; dg_Stopped := true |}]> by_.

Definition server_le (a b : DigestServer) : Prop := String.le (dg_Name a) (dg_Name b).
#[global] Instance server_le_dec : RelDecision server_le.
Proof. intros a b. unfold server_le. apply _. Defined.

Definition BuildDigest (p : Partition) (purposes : gmap string string) : list DigestServer :=
  let by_ := foldl (add_stopped purposes) (foldl (add_digest purposes) ∅ (pa_Digest p)) (pa_Stopped p) in
  merge_sort server_le (map snd (map_to_list by_)).

Definition Purposes (servers : gmap string ServerInfo) : gmap string string :=
  omap (fun si => if bool_decide (si_Purpose si = "") then None else Some (si_Purpose si)) servers.

(** The code leaves the tools' source unset; nothing reads it. *)
Definition DefaultDigest (entries : list CatalogEntry) (purposes : gmap string string) : list DigestServer :=
  let tool (e : CatalogEntry) :=
    {| rt_Name := ce_Name e; rt_Server := ce_Server e; rt_Running := true; rt_Probe := false; rt_Tier := TierSummary; rt_Source := LevelOrgPin |} in
  let summary (e : CatalogEntry) :=
    bool_decide (DefaultTier {| ct_Name := ce_Name e; ct_Server := ce_Server e; ct_Running := true; ct_Probe := false |} = TierSummary) in
  BuildDigest {| pa_Hot := []; pa_Pinned := []; pa_Activated := []; pa_Digest := merge_sort name_le (map tool (List.filter summary entries)); pa_Stopped := [] |}
    purposes.

(** ** The text *)

(** [strings.Fields]: what is between runs of white space. *)
Fixpoint fields (cur : list ascii) (l : list ascii) : list (list ascii) :=
  let flush := if bool_decide (cur = []) then [] else [rev cur] in
  match l with [] => flush | c :: l => if is_space c then flush ++ fields [] l else fields (c :: cur) l end.
Definition Fields (s : string) : list string := map of_list (fields [] (list_of s)).

(** A conversion to runes, each as the bytes it is written back as. *)
Fixpoint runes (fuel : nat) (l : list ascii) : list (list ascii) :=
  match fuel, l with
  | S fuel, _ :: _ => let '(r, w) := DecodeRune l in default rune_error r :: runes fuel (drop w l)
  | _, _ => []
  end.
Definition to_runes (s : string) : list (list ascii) := runes (String.length s) (list_of s).

Definition TrimSuffix (s p : string) : string :=
  if HasSuffix s p then of_list (take (String.length s - String.length p) (list_of s)) else s.

Definition oneSentence (s : string) : string :=
  let s := Join (Fields s) " " in
  let s := match Index (list_of ". ") (list_of s) with Some i => of_list (take i (list_of s)) | None => s end in
  let s := TrimSuffix s "." in
  if bool_decide (maxPurposeRunes < length (to_runes s))%nat
  then TrimSpace (of_list (concat (take (maxPurposeRunes - 1) (to_runes s)))) +:+ "…" else s.

Definition render_line (s : DigestServer) : string :=
  let purpose := oneSentence (dg_Purpose s) in
  "- " +:+ dg_Name s +:+
  (if dg_Stopped s then " (stopped)" else if bool_decide (dg_Count s = 1%nat) then " (1 tool)" else " (" +:+ fmt_d (Z.of_nat (dg_Count s)) +:+ " tools)") +:+
  (if bool_decide (purpose = "") then "" else ": " +:+ purpose) +:+
  (if bool_decide (dg_Examples s = []) then ""
   else " — e.g. " +:+ Join (dg_Examples s) ", " +:+ (if bool_decide (length (dg_Examples s) < dg_Count s)%nat then ", …" else "")) +:+
  (if dg_Stopped s then " — not running; its tools cannot be loaded until it is started" else "").

Definition RenderDigest (servers : list DigestServer) (note : string) : string :=
  if bool_decide (servers = []) && bool_decide (note = "") then ""
  else
    Join (["## " +:+ DigestHeading] ++ (if bool_decide (note = "") then [] else [note]) ++
          (if bool_decide (servers = []) then [] else [introLine]) ++ map render_line servers) nl.
