(* ===== verification/LoadToolsProps.v ===== *)
(** Theorems on loading: what a load changes of what may be sent, what it reports, and how long
    an activation lives. *)
From S2P Require Import Prelude GoString Exposure LoadTools ExposureProps.
From Stdlib Require Import Ascii.
Local Open Scope Z_scope.

(** * The activated set of a resolved catalog *)

Definition act_names (l : list Activation) : list string := map ac_Name l.
Definition set_acts (rc : ResolvedCatalog) (l : list Activation) : ResolvedCatalog :=
  {| rc_Tools := rc_Tools rc; rc_Activations := l; rc_SchemaBudgetTokens := rc_SchemaBudgetTokens rc;
     rc_ActivationTTLTurns := rc_ActivationTTLTurns rc; rc_OrgBundleID := rc_OrgBundleID rc; rc_byName := rc_byName rc |}.

Lemma Activated_names rc name : (exists a, Activated rc name = Some a) <-> name ∈ act_names (rc_Activations rc).
Proof.
  unfold Activated, act_names. induction (rc_Activations rc) as [|a l IH]; cbn; [split; [by intros []|by intros ?%elem_of_nil]|].
  rewrite elem_of_cons. case_bool_decide as H; [split; [by left|by exists a]|]. rewrite IH. split; [by right|by intros [->|?]].
Qed.

(** When a tool may be sent. *)
Lemma Sendable_iff rc name :
  Sendable rc name = true <-> exists t, Tool rc name = Some t /\ servable t = true /\
    (rt_Tier t = TierFull \/ (rt_Tier t = TierSummary /\ name ∈ act_names (rc_Activations rc))).
Proof.
  unfold Sendable. destruct (Tool rc name) as [t|]; [|split; [done|by intros (t & ? & _)]].
  transitivity (servable t = true /\ (rt_Tier t = TierFull \/ (rt_Tier t = TierSummary /\ name ∈ act_names (rc_Activations rc))));
    [|split; [intros H; by exists t|by intros (t' & [= <-] & H)]].
  unfold servable. destruct (rt_Running t), (rt_Probe t); cbn; try (by split; [|intros []]).
  rewrite <- Activated_names. case_bool_decide as Hf; [by split; [split; [|left]|]|]. case_bool_decide as Hs.
  - destruct (Activated rc name) as [a|]; split; try done; [by split; [|right; split; [|exists a]]|by intros [_ [?|[_ [? ?]]]]].
  - by split; [|intros [_ [?|[? _]]]].
Qed.

Lemma Resolve_after so settings id entries srv s s' rc l st :
  ResolveCatalog (deps_of so settings s) id entries srv = Ok rc ->
  SessionToolExposure s id = Ok st -> SessionToolExposure s' id = Ok (with_activations st l) ->
  rc_Activations rc = ss_Activations st /\ ResolveCatalog (deps_of so settings s') id entries srv = Ok (set_acts rc l).
Proof.
  unfold ResolveCatalog, Resolve. cbn [de_Settings de_Sessions de_Projects de_Pins deps_of]. intros H Hst Hst'. rewrite Hst in H. rewrite Hst'.
  apply rbind_ok in H as (user & -> & H). cbn in H |- *. destruct (if bool_decide (ss_ProjectID st = "") then _ else _) as [project|]; [|done]. cbn in H |- *.
  destruct (match so_Pins so with Some pins => _ | None => _ end) as [org|]; [|done]. cbn in H |- *. by injection H as <-.
Qed.

Lemma write_session_ok so id f s s' : write_session so id f s = (None, s') ->
  exists st, SessionToolExposure s id = Ok st /\ s' = with_sessions s (<[id := f st]> (to_sessions s)) /\ SessionToolExposure s' id = Ok (f st).
Proof.
  unfold write_session, SessionToolExposure. destruct (so_write so id); [done|]. destruct (to_sessions s !! id) as [st|]; [|done].
  intros [= <-]. exists st. split_and!; try done. cbn. by rewrite lookup_insert_eq.
Qed.

Lemma write_session_err so id f s e s' : write_session so id f s = (Some e, s') -> s' = s.
Proof. unfold write_session. destruct (so_write so id); [by intros [= _ <-]|]. destruct (to_sessions s !! id); [done|]. by intros [= _ <-]. Qed.

Lemma SetToolActivations_ok so id l s s' : SetToolActivations so id l s = (None, s') ->
  ValidateActivations l = None /\ exists st, SessionToolExposure s id = Ok st /\ SessionToolExposure s' id = Ok (with_activations st l).
Proof.
  unfold SetToolActivations. destruct (ValidateActivations l); [done|]. intros (st & H1 & _ & H2)%write_session_ok. split; [done|]. by exists st.
Qed.

Lemma SetToolActivations_err so id l s e s' : SetToolActivations so id l s = (Some e, s') -> s' = s.
Proof. unfold SetToolActivations. destruct (ValidateActivations l); [by intros [= _ <-]|apply write_session_err]. Qed.

(** * What a request asks for *)

Definition server_asked (t : ResolvedTool) (raw : string) : bool :=
  negb (bool_decide (TrimSpace raw = "")) && bool_decide (rt_Server t = TrimSpace raw).

Definition valid_glob (rc : ResolvedCatalog) (prefix : string) : bool :=
  Contains prefix NameSeparator && negb (bool_decide (serverOf prefix = "")) && negb (Contains prefix "*") &&
  bool_decide (serverOf prefix ∈ map rt_Server (toolsOf rc (fun _ => true))).

Definition tool_asked (rc : ResolvedCatalog) (t : ResolvedTool) (raw : string) : bool :=
  let name := TrimSpace raw in
  negb (bool_decide (name = "")) &&
  match cut_star name with
  | Some prefix => valid_glob rc prefix && HasPrefix (rt_Name t) prefix
  | None => bool_decide (rt_Name t = name)
  end.

Definition asked (rc : ResolvedCatalog) (req : Request) (t : ResolvedTool) : bool :=
  existsb (server_asked t) (rq_Servers req) || existsb (tool_asked rc t) (rq_Tools req).

(** ** What [collect] puts into the set to activate *)

Lemma refuse_sets name reason k : tk_loaded (refuse name reason k) = tk_loaded k /\ tk_activate (refuse name reason k) = tk_activate k.
Proof. unfold refuse. by case_bool_decide. Qed.

Lemma refuse_names name reason k n : n ∈ map nl_Name (tk_notLoaded (refuse name reason k)) <-> n = name \/ n ∈ map nl_Name (tk_notLoaded k).
Proof. unfold refuse. case_bool_decide; cbn; [naive_solver|]. rewrite map_app. cbn. set_solver. Qed.

Lemma take_one_sets b k t n :
  (n ∈ tk_activate (take_one b k t) <-> n ∈ tk_activate k \/ (rt_Tier t = TierSummary /\ n = rt_Name t)) /\
  (n ∈ tk_loaded (take_one b k t) <-> n ∈ tk_loaded k \/ ((rt_Tier t = TierFull \/ rt_Tier t = TierSummary) /\ n = rt_Name t)).
Proof.
  unfold take_one. case_bool_decide as Hf; cbn; [rewrite Hf; split; set_solver|]. case_bool_decide as Hs; cbn; [split; set_solver|].
  destruct (bool_decide (rt_Tier t = TierOff) && b); [destruct (refuse_sets (rt_Name t) (OffReason (rt_Source t)) k) as [-> ->]|]; split; set_solver.
Qed.

Lemma take_all_sets b l k n :
  (n ∈ tk_activate (take_all b l k) <-> n ∈ tk_activate k \/ exists t, t ∈ l /\ rt_Tier t = TierSummary /\ n = rt_Name t) /\
  (n ∈ tk_loaded (take_all b l k) <-> n ∈ tk_loaded k \/ exists t, t ∈ l /\ (rt_Tier t = TierFull \/ rt_Tier t = TierSummary) /\ n = rt_Name t).
Proof.
  revert k. induction l as [|t l IH]; intros k; cbn.
  - split; split; try (by left); intros [?|(t & ?%elem_of_nil & _)]; done.
  - destruct (IH (take_one b k t)) as [-> ->], (take_one_sets b k t n) as [-> ->]. split; set_solver.
Qed.

(** From [k] to [k'] exactly the tools that satisfy [P] were taken. *)
Definition grows (P : ResolvedTool -> Prop) (k k' : taken) : Prop := forall n,
  (n ∈ tk_activate k' <-> n ∈ tk_activate k \/ exists t, P t /\ rt_Tier t = TierSummary /\ n = rt_Name t) /\
  (n ∈ tk_loaded k' <-> n ∈ tk_loaded k \/ exists t, P t /\ (rt_Tier t = TierFull \/ rt_Tier t = TierSummary) /\ n = rt_Name t).

Lemma grows_ext P Q k k' : (forall t, P t <-> Q t) -> grows P k k' -> grows Q k k'.
Proof. intros H G n. destruct (G n) as [-> ->]. split; f_equiv; apply exist_proper; intros t; by rewrite H. Qed.

Lemma grows_none (P : ResolvedTool -> Prop) k k' :
  (forall t, ~ (P t /\ rt_Tier t <> TierOff)) -> tk_activate k' = tk_activate k -> tk_loaded k' = tk_loaded k -> grows P k k'.
Proof.
  intros H Ha Hl n. rewrite Ha, Hl. split; split; try (by left); intros [?|(t & Ht & He & _)]; try done; exfalso; apply (H t); (split; [done|]); [by rewrite He|].
  by destruct He as [-> | ->].
Qed.

Lemma grows_app P Q k k1 k2 : grows P k k1 -> grows Q k1 k2 -> grows (fun t => P t \/ Q t) k k2.
Proof. intros G1 G2 n. destruct (G1 n) as [H1 H2], (G2 n) as [-> ->]. rewrite H1, H2. split; naive_solver. Qed.

Lemma grows_take b l k : grows (.∈ l) k (take_all b l k).
Proof. intros n. apply take_all_sets. Qed.

Lemma grows_takeAll name l k : grows (.∈ l) k (takeAll name l k).
Proof.
  unfold takeAll. destruct (existsb _ l) eqn:E; [apply grows_take|]. intros n. destruct (refuse_sets name (first_off_reason l) (take_all false l k)) as [-> ->].
  by apply grows_take.
Qed.

Lemma grows_refuse P name reason k : (forall t, ~ P t) -> grows P k (refuse name reason k).
Proof. intros H. destruct (refuse_sets name reason k) as [H1 H2]. apply grows_none; [|done|done]. intros t [Ht _]. by eapply H. Qed.

Lemma grows_matched rc keep name reason k :
  grows (fun t => t ∈ rc_Tools rc /\ servable t = true /\ keep t = true) k
    (if bool_decide (toolsOf rc keep = []) then refuse name reason k else takeAll name (toolsOf rc keep) k).
Proof.
  assert (H : forall t, t ∈ toolsOf rc keep <-> t ∈ rc_Tools rc /\ servable t = true /\ keep t = true).
  { intros t. unfold toolsOf. by rewrite elem_of_filter_bool, andb_true_iff. }
  case_bool_decide as Hn; [|eapply grows_ext; [exact H|apply grows_takeAll]]. apply grows_refuse. intros t Ht%H. rewrite Hn in Ht. by apply elem_of_nil in Ht.
Qed.

Lemma grows_server rc srv k raw : grows (fun t => t ∈ rc_Tools rc /\ servable t = true /\ server_asked t raw = true) k (load_server rc srv k raw).
Proof.
  unfold load_server, server_asked. case_bool_decide as H; cbn [negb andb]; [by apply grows_none; [intros t [(_ & _ & ?) _]|..]|apply grows_matched].
Qed.

Lemma grows_tool rc srv k raw : catalog_ok rc ->
  grows (fun t => t ∈ rc_Tools rc /\ servable t = true /\ tool_asked rc t raw = true) k (load_tool rc srv k raw).
Proof.
  intros Hc. unfold load_tool, tool_asked. case_bool_decide as H; cbn [negb andb]; [by apply grows_none; [intros t [(_ & _ & ?) _]|..]|].
  destruct (cut_star (TrimSpace raw)) as [prefix|].
  - unfold load_glob, valid_glob. destruct (Contains prefix NameSeparator), (bool_decide (serverOf prefix = "")), (Contains prefix "*"); cbn [negb orb andb];
      try (by apply grows_refuse; intros t (_ & _ & ?)).
    case_bool_decide as Hs; cbn [negb]; [apply grows_matched|]. destruct (srv !! serverOf prefix); by apply grows_refuse; intros t (_ & _ & ?).
  - destruct (Tool rc (TrimSpace raw)) as [t|] eqn:E.
    + destruct (co_found rc Hc _ _ E) as [Hin Hname]. destruct (servable t) eqn:Ht.
      * eapply grows_ext; [|apply grows_take]. intros t'. rewrite list_elem_of_singleton. split; [intros ->; split_and!; [done|done|by apply bool_decide_eq_true]|].
        intros (Hin' & _ & He%bool_decide_eq_true). pose proof (co_find rc Hc t' Hin'). congruence.
      * apply grows_refuse. intros t' (Hin' & Ht' & He%bool_decide_eq_true). pose proof (co_find rc Hc t' Hin'). congruence.
    + apply grows_refuse. intros t' (Hin' & Ht' & He%bool_decide_eq_true). pose proof (co_find rc Hc t' Hin'). congruence.
Qed.

Lemma grows_fold {X} (P : X -> ResolvedTool -> bool) rc (f : taken -> X -> taken) l k :
  (forall k x, grows (fun t => t ∈ rc_Tools rc /\ servable t = true /\ P x t = true) k (f k x)) ->
  grows (fun t => t ∈ rc_Tools rc /\ servable t = true /\ existsb (fun x => P x t) l = true) k (foldl f k l).
Proof.
  intros Hf. revert k. induction l as [|x l IH]; intros k; cbn; [by apply grows_none; [intros t [(_ & _ & ?) _]|..]|].
  eapply grows_ext; [|eapply grows_app; [apply Hf|apply IH]]. intros t. cbn. rewrite orb_true_iff. tauto.
Qed.

(** What a request activates and what it counts as loaded. *)
Lemma collect_spec rc srv req : catalog_ok rc ->
  grows (fun t => t ∈ rc_Tools rc /\ servable t = true /\ asked rc req t = true) {| tk_loaded := ∅; tk_activate := ∅; tk_notLoaded := [] |} (collect rc srv req).
Proof.
  intros Hc. eapply grows_ext; [|eapply grows_app].
  2:{ apply (grows_fold (fun raw t => server_asked t raw)). intros k raw. apply grows_server. }
  2:{ apply (grows_fold (fun raw t => tool_asked rc t raw)). intros k raw. by apply grows_tool. }
  intros t. cbn. unfold asked. rewrite orb_true_iff. tauto.
Qed.

(** * The new activated set *)

Lemma last_activation_spec name l : match last_activation name l with
  | Some i => exists a, l !! i = Some a /\ ac_Name a = name
  | None => name ∉ act_names l end.
Proof.
  induction l as [|a l IH]; cbn; [by intros ?%elem_of_nil|]. destruct (last_activation name l) as [i|]; [done|].
  case_bool_decide as H; [by exists a|]. intros [?|?]%elem_of_cons; [congruence|done].
Qed.

Lemma alter_names (f : Activation -> Activation) i l : (forall a, ac_Name (f a) = ac_Name a) -> act_names (alter f i l) = act_names l.
Proof.
  intros Hf. unfold act_names. revert i. induction l as [|a l IH]; intros [|i]; cbn; try done; [by rewrite Hf|]. f_equal. apply (IH i).
Qed.

Lemma apply_one_names rc old turn sticky x name :
  act_names (apply_one rc old turn sticky x name).1 = act_names x.1 ++ (if bool_decide (name ∈ act_names old) then [] else [name]).
Proof.
  destruct x as [out c]. unfold apply_one. pose proof (last_activation_spec name old) as H. destruct (last_activation name old) as [i|]; cbn.
  - destruct H as (a & Ha & <-). rewrite bool_decide_eq_true_2, app_nil_r; [by apply alter_names|]. apply list_elem_of_fmap_2. by eapply list_elem_of_lookup_2.
  - rewrite bool_decide_eq_false_2 by done. unfold act_names. by rewrite map_app.
Qed.

Lemma apply_all_names rc old turn sticky l x n :
  n ∈ act_names (foldl (apply_one rc old turn sticky) x l).1 <-> n ∈ act_names x.1 \/ (n ∈ l /\ n ∉ act_names old).
Proof.
  revert x. induction l as [|name l IH]; intros x; cbn; [split; [by left|by intros [?|[?%elem_of_nil ?]]]|].
  rewrite IH, apply_one_names, elem_of_app, elem_of_cons. case_bool_decide as H; [rewrite elem_of_nil|rewrite list_elem_of_singleton]; naive_solver.
Qed.

Lemma elem_sortedKeys n (m : gset string) : n ∈ sortedKeys m <-> n ∈ m.
Proof. unfold sortedKeys. by rewrite elem_of_sort_strings, elem_of_elements. Qed.

(** The set a load saves, or the one that stays when there is nothing to activate. *)
Lemma applyActivations_names so id rc activate sticky n :
  let '(changed, _) := applyActivations so id rc activate sticky in
  n ∈ act_names (default (rc_Activations rc) changed) <-> n ∈ act_names (rc_Activations rc) \/ n ∈ activate.
Proof.
  unfold applyActivations. case_bool_decide as H; cbn; [rewrite H; set_solver|].
  destruct (foldl _ _ _) as [out count] eqn:E. cbn. pose proof (apply_all_names rc (rc_Activations rc) (turn_for_load so id) sticky (sortedKeys activate) (rc_Activations rc, 0) n) as Hn.
  rewrite E in Hn. cbn in Hn. rewrite Hn, elem_sortedKeys. destruct (decide (n ∈ act_names (rc_Activations rc))); naive_solver.
Qed.

(** * Loading *)

Section Load.
Context {T : Type}.
Variable so : sources.
Variable view : option (T -> store -> string -> bool).
Variable budget : option (T -> store -> list string -> T * gmap string string).

(** What a load that succeeds has done. *)
Lemma load_inv turn s id req who r n turn' s' : load so view budget turn s id req who = (Ok (r, n), turn', s') ->
  exists rc changed over k, service_resolve so id s = Ok rc /\
    applyActivations so id rc (tk_activate (collect rc (servers so) req)) (rq_Sticky req) = (changed, n) /\
    match changed with Some l => exists s1, SetToolActivations so id l s = (None, s1) /\ to_sessions s' = to_sessions s1 | None => to_sessions s' = to_sessions s end /\
    fit_load budget turn s' (collect rc (servers so) req) = (turn', (k, over)) /\ r = load_result view rc turn' s' k n over.
Proof.
  unfold load. destruct (bool_decide _ && _); [done|]. destruct (service_resolve so id s) as [rc|]; [|done].
  set (k := collect rc (servers so) req). destruct (applyActivations so id rc (tk_activate k) (rq_Sticky req)) as [changed count] eqn:E.
  destruct (match changed with Some l => _ | None => _ end) as [err s1] eqn:E1. destruct err as [err|]; [done|].
  set (s2 := if (0 <? count) && so_audit so then _ else s1). destruct (fit_load budget turn s2 k) as [turn2 [k2 over]] eqn:E2. intros [= <- <- <- <-].
  exists rc, changed, over, k2. split_and!; try done. assert (Hs : to_sessions s2 = to_sessions s1) by (unfold s2; by destruct (_ && _)).
  destruct changed as [l|]; [by exists s1|]. injection E1 as <-. done.
Qed.

Lemma same_sessions s s' settings : to_sessions s = to_sessions s' -> deps_of so settings s = deps_of so settings s'.
Proof. intros H. unfold deps_of, SessionToolExposure. by rewrite H. Qed.

Lemma ResolveCatalog_ok d id entries srv rc : ResolveCatalog d id entries srv = Ok rc -> NoDup (map ct_Name (CatalogWithProbes entries srv)) -> catalog_ok rc.
Proof. intros (user & sess & project & org & ->)%Resolve_ok Hn. by apply resolve_catalog_ok. Qed.

(** After a load every catalog of the session resolves as before, with the new set. *)
Lemma load_resolve turn s id req who r n turn' s' rc : load so view budget turn s id req who = (Ok (r, n), turn', s') -> service_resolve so id s = Ok rc ->
  forall settings entries srv rc0, ResolveCatalog (deps_of so settings s) id entries srv = Ok rc0 ->
  exists l, ResolveCatalog (deps_of so settings s') id entries srv = Ok (set_acts rc0 l) /\
    forall name, name ∈ act_names l <-> name ∈ act_names (rc_Activations rc0) \/ name ∈ tk_activate (collect rc (servers so) req).
Proof.
  intros (rc' & changed & over & k & Hrc' & Happ & Hs & _)%load_inv Hrc settings entries srv rc0 H0. rewrite Hrc in Hrc'. injection Hrc' as <-.
  set (kk := tk_activate _) in *.
  assert (Hacts : exists st, SessionToolExposure s id = Ok st /\ rc_Activations rc = ss_Activations st /\ rc_Activations rc0 = ss_Activations st).
  { unfold service_resolve, ResolveCatalog, Resolve in Hrc, H0. apply rbind_ok in Hrc as (es & _ & Hrc). cbn [de_Settings de_Sessions de_Projects de_Pins deps_of] in Hrc, H0.
    apply rbind_ok in Hrc as (u & _ & Hrc). apply rbind_ok in H0 as (u0 & _ & H0). destruct (SessionToolExposure s id) as [st|]; [|done]. cbn in Hrc, H0. exists st. split; [done|].
    destruct (if bool_decide (ss_ProjectID st = "") then _ else _) as [project|]; [|done]. cbn in Hrc, H0.
    destruct (match so_Pins so with Some pins => _ | None => _ end) as [org|]; [|done]. cbn in Hrc, H0. injection Hrc as <-. by injection H0 as <-. }
  destruct Hacts as (st & Hst & Ha & Ha0).
  pose proof (fun name => applyActivations_names so id rc kk (rq_Sticky req) name) as Hn. rewrite Happ in Hn.
  destruct changed as [l|].
  - destruct Hs as (s1 & [_ (st1 & Hst1 & Hst')]%SetToolActivations_ok & Hs). rewrite Hst in Hst1. injection Hst1 as <-.
    rewrite (same_sessions s' s1 settings Hs). exists l. split; [by eapply Resolve_after|]. intros name. rewrite Ha0, <- Ha. apply Hn.
  - rewrite (same_sessions s' s settings Hs). exists (rc_Activations rc0). split; [rewrite H0; by destruct rc0|].
    intros name. rewrite Ha0, <- Ha. apply Hn.
Qed.
End Load.

(** C23: loading makes exactly what was asked for sendable.  When a load succeeds, the session
    resolves afterwards as before except for its activated set, and a tool may be sent exactly
    when it could be sent before, or it is a servable summary tool the request names by its
    server, by a valid glob or by its exact name.  Loading never makes an off tool sendable
    and never takes a tool away. *)
Theorem load_makes_sendable {T} so view budget (turn turn' : T) s s' id req who r n rc :
  load so view budget turn s id req who = (Ok (r, n), turn', s') -> service_resolve so id s = Ok rc ->
  (forall entries, so_Catalog so id = Ok entries -> NoDup (map ct_Name (CatalogWithProbes entries (servers so)))) ->
  exists rc', service_resolve so id s' = Ok rc' /\ rc_Tools rc' = rc_Tools rc /\
    forall name, Sendable rc' name = true <->
      Sendable rc name = true \/
      exists t, t ∈ rc_Tools rc /\ rt_Name t = name /\ servable t = true /\ rt_Tier t = TierSummary /\ asked rc req t = true.
Proof.
  intros Hload Hrc Hn. pose proof Hrc as Hrc0. unfold service_resolve in Hrc0. apply rbind_ok in Hrc0 as (entries & He & H0).
  destruct (load_resolve so view budget turn s id req who r n turn' s' rc Hload Hrc _ _ _ _ H0) as (l & Hl & Hacts).
  assert (Hcat : so_Catalog so id = Ok entries) by (by destruct (so_Catalog so id); cbn in He; [injection He as ->|]).
  pose proof (ResolveCatalog_ok _ _ _ _ _ H0 (Hn _ Hcat)) as Hc. pose proof (collect_spec rc (servers so) req Hc) as Hk.
  exists (set_acts rc l). split; [unfold service_resolve; by rewrite He|]. split; [done|]. intros name. rewrite !Sendable_iff.
  assert (Hact : name ∈ act_names (rc_Activations (set_acts rc l)) <-> name ∈ act_names (rc_Activations rc) \/ name ∈ (∅ : gset string) \/
      exists t, (t ∈ rc_Tools rc /\ servable t = true /\ asked rc req t = true) /\ rt_Tier t = TierSummary /\ name = rt_Name t)
    by (destruct (Hk name) as [Hka _]; cbn [tk_activate] in Hka; rewrite <- Hka; apply Hacts).
  setoid_rewrite Hact. split.
  - intros (t & Ht & Hs & [Hf|[Hsum [Hold|[?|(t' & (Hin & Hs' & Hask) & Hsum' & Hname)]]]]); [left; eauto 10|left; eauto 10|set_solver|].
    right. exists t'. eauto 10.
  - intros [(t & Ht & Hs & Hf)|(t & Hin & <- & Hs & Hsum & Hask)].
    + exists t. split; [done|]. split; [done|]. destruct Hf as [?|[? ?]]; auto.
    + exists t. split; [apply (co_find rc Hc t Hin)|]. split; [done|]. right. split; [done|]. right. right. eauto 10.
Qed.

(** * How long an activation lives *)

Lemma first_activation_spec name l : match first_activation name l with
  | Some i => exists a, l !! i = Some a /\ ac_Name a = name
  | None => name ∉ act_names l end.
Proof.
  induction l as [|a l IH]; cbn; [by intros ?%elem_of_nil|]. case_bool_decide as H; [by exists a|]. destruct (first_activation name l) as [i|]; [done|].
  intros [?|?]%elem_of_cons; [congruence|done].
Qed.

Definition eff_ttl (ttl : Z) : Z := if ttl <=? 0 then DefaultActivationTTLTurns else ttl.

Lemma expired_iff a turn ttl : ActivationExpired a turn ttl = true <-> ac_Sticky a = false /\ eff_ttl ttl < turn - ac_LastUsedTurn a.
Proof. unfold ActivationExpired, eff_ttl. destruct (ac_Sticky a); [by split; [|intros []]|]. rewrite Z.ltb_lt. naive_solver. Qed.

(** What an expiry leaves and returns. *)
Lemma expire_session_spec so s id turn ttl gone s' : expire_session so s id turn ttl = (Ok gone, s') ->
  exists st st', SessionToolExposure s id = Ok st /\ SessionToolExposure s' id = Ok st' /\
    ss_Activations st' = List.filter (fun a => negb (ActivationExpired a turn ttl)) (ss_Activations st) /\
    gone = List.filter (fun a => ActivationExpired a turn ttl) (ss_Activations st).
Proof.
  unfold expire_session. destruct (SessionToolExposure s id) as [st|] eqn:E; [|done]. cbn [ExpireActivations].
  set (kept := List.filter (fun a => negb (ActivationExpired a turn ttl)) _). set (expired := List.filter (fun a => ActivationExpired a turn ttl) _). case_bool_decide as He.
  - intros [= <- <-]. exists st, st. split_and!; try done. unfold kept. revert He. unfold expired. induction (ss_Activations st) as [|a l IH]; [done|]. cbn.
    destruct (ActivationExpired a turn ttl); [done|]. cbn. intros H. f_equal. by apply IH.
  - destruct (SetToolActivations so id kept s) as [err s1] eqn:E1. destruct err as [err|]; [done|]. intros [= <- <-].
    apply SetToolActivations_ok in E1 as (_ & st1 & H1 & H2). rewrite E in H1. injection H1 as <-. by exists st, (with_activations st kept).
Qed.

(** A tool called on a turn stays loaded until more turns than the TTL have passed, and a
    sticky activation for good: whatever else is activated, an expiry at a later turn within
    the TTL leaves it in place. *)
Theorem used_tool_lives so s id name n used s1 m ttl gone s2 st :
  SessionToolExposure s id = Ok st -> name ∈ act_names (ss_Activations st) -> MarkUsed so s id name n = (Ok used, s1) ->
  expire_session so s1 id m ttl = (Ok gone, s2) -> m - n <= eff_ttl ttl ->
  exists st2, SessionToolExposure s2 id = Ok st2 /\ name ∈ act_names (ss_Activations st2) /\
    forall a, a ∈ ss_Activations st -> ac_Sticky a = true -> ac_Name a ∈ act_names (ss_Activations st2).
Proof.
  intros Hst Hname Hmark (st1 & st2 & Hst1 & Hst2 & Hkept & _)%expire_session_spec Hm. exists st2. split; [done|]. rewrite Hkept.
  assert (Hkeep : forall a, a ∈ ss_Activations st1 -> ActivationExpired a m ttl = false -> ac_Name a ∈ act_names (List.filter (fun a => negb (ActivationExpired a m ttl)) (ss_Activations st1))).
  { intros a Ha He. apply list_elem_of_fmap_2. apply elem_of_filter_bool. by rewrite He. }
  assert (Hlive : forall a, ac_LastUsedTurn a = n -> ActivationExpired a m ttl = false).
  { intros a Ha. destruct (ActivationExpired a m ttl) eqn:E; [|done]. apply expired_iff in E as [_ E]. lia. }
  assert (Hsticky : forall a, ac_Sticky a = true -> ActivationExpired a m ttl = false) by (intros a Ha; unfold ActivationExpired; by rewrite Ha).
  unfold MarkUsed in Hmark. rewrite Hst in Hmark. pose proof (first_activation_spec name (ss_Activations st)) as Hi. destruct (first_activation name (ss_Activations st)) as [i|]; [|done].
  destruct Hi as (a & Ha & Hn). rewrite Ha in Hmark. cbn in Hmark. case_bool_decide as Hturn.
  - injection Hmark as _ <-. rewrite Hst in Hst1. injection Hst1 as <-. injection Hturn as Hturn. split.
    + rewrite <- Hn. apply Hkeep; [by eapply list_elem_of_lookup_2|by apply Hlive].
    + intros b Hb Hs. apply Hkeep; [done|by apply Hsticky].
  - destruct (SetToolActivations so id _ s) as [err s1'] eqn:E. destruct err as [err|]; [done|]. injection Hmark as _ <-.
    apply SetToolActivations_ok in E as (_ & st0 & H0 & H1). rewrite Hst in H0. injection H0 as <-. rewrite Hst1 in H1. injection H1 as ->. cbn [with_activations ss_Activations] in *. split.
    + rewrite <- Hn. change (ac_Name a) with (ac_Name (stamp_turn n a)). apply Hkeep; [|by apply Hlive]. eapply (list_elem_of_lookup_2 _ i). by rewrite list_lookup_alter_eq, Ha.
    + intros b [j Hj]%list_elem_of_lookup Hs. destruct (decide (i = j)) as [->|Hne].
      * rewrite Ha in Hj. injection Hj as ->. change (ac_Name b) with (ac_Name (stamp_turn n b)). apply Hkeep; [|by apply Hsticky]. eapply (list_elem_of_lookup_2 _ j).
        by rewrite list_lookup_alter_eq, Ha.
      * apply Hkeep; [|by apply Hsticky]. eapply (list_elem_of_lookup_2 _ j). by rewrite list_lookup_alter_ne.
Qed.

(** * Forks *)

Lemma zero_says_nothing e server tool : Exposure_IsZero e = true -> lookup_tier e server tool = "".
Proof.
  unfold Exposure_IsZero, lookup_tier. rewrite forallb_forall. intros H. destruct (ex_Servers e !! server) as [x|] eqn:E; [|done].
  specialize (H x). rewrite andb_true_iff, !bool_decide_eq_true in H. destruct H as [H1 H2].
  - apply in_map_iff. exists (server, x). split; [done|]. by apply list_elem_of_In, elem_of_map_to_list.
  - by rewrite H1, H2, lookup_empty.
Qed.

(** A fork that succeeds gives the child every opinion the parent's session had: a tool the
    user turned off for the parent is off for the child.  The parent is left as it was. *)
Theorem fork_keeps_opinions so s parent child s' pst : parent <> child -> SessionToolExposure s parent = Ok pst ->
  is_Some (to_sessions s !! child) -> InheritToolExposure so parent child s = (None, s') ->
  SessionToolExposure s' parent = Ok pst /\ exists cst, SessionToolExposure s' child = Ok cst /\
    forall server tool, lookup_tier (ss_Override pst) server tool <> "" -> lookup_tier (ss_Override cst) server tool = lookup_tier (ss_Override pst) server tool.
Proof.
  intros Hne Hp Hchild. unfold InheritToolExposure. rewrite Hp.
  assert (Hother : forall f s1 err s2, write_session so child f s1 = (err, s2) -> SessionToolExposure s1 parent = Ok pst -> SessionToolExposure s2 parent = Ok pst).
  { intros f s1 [e|] s2; [by intros ->%write_session_err|]. intros (st & _ & -> & _)%write_session_ok. unfold SessionToolExposure. cbn. by rewrite lookup_insert_ne. }
  destruct (if Exposure_IsZero (ss_Override pst) then _ else _) as [err s1] eqn:E1. destruct err as [err|]; [done|].
  assert (H1 : SessionToolExposure s1 parent = Ok pst /\ exists cst, SessionToolExposure s1 child = Ok cst /\
    forall server tool, lookup_tier (ss_Override pst) server tool <> "" -> lookup_tier (ss_Override cst) server tool = lookup_tier (ss_Override pst) server tool).
  { destruct (Exposure_IsZero (ss_Override pst)) eqn:Hz.
    - injection E1 as <-. split; [done|]. destruct Hchild as [cst Hc]. exists cst. split; [unfold SessionToolExposure; by rewrite Hc|].
      intros server tool H. by rewrite zero_says_nothing in H.
    - unfold SetToolExposure in E1. destruct (Exposure_Validate (ss_Override pst)); [|done]. split; [by eapply Hother|].
      apply write_session_ok in E1 as (st & _ & _ & H). by eexists. }
  case_bool_decide as Hnil; [by intros [= <-]|]. destruct (SetToolActivations so child _ s1) as [err2 s2] eqn:E2. intros [= <-].
  unfold SetToolActivations in E2. destruct (ValidateActivations _); [by injection E2 as _ <-|]. destruct H1 as [H1 (cst & Hc & Hl)]. split; [by eapply Hother|].
  destruct err2 as [e|]; [apply write_session_err in E2 as ->; by exists cst|]. apply write_session_ok in E2 as (st & Hst & _ & Hw). rewrite Hc in Hst. injection Hst as <-.
  by exists (with_activations cst (map reset_turn (ss_Activations pst))).
Qed.

(** * Instances *)

Definition demo_entries : list CatalogEntry :=
  let entry name server := {| ce_Name := name; ce_Server := server; ce_TokenEst := 0 |} in
  [entry LoadToolsName "kenaz"; entry "kenaz__read_file" "kenaz"; entry "mail__send" "mail"; entry "mail__list" "mail"; entry "git__log" "git"].
Definition demo_servers : list ServerInfo :=
  [{| si_Name := "mail"; si_Purpose := "Read and send mail. Needs an account."; si_State := "running"; si_Running := true |};
   {| si_Name := "jira"; si_Purpose := ""; si_State := "failed"; si_Running := false |}].
Definition demo_sources : sources :=
  {| so_Settings := Ok demo_settings; so_Projects := fun _ => Err "no project"; so_Pins := Some (Ok demo_org); so_Catalog := fun _ => Ok demo_entries;
     so_Servers := Some demo_servers; so_Turns := Some (fun _ => Ok 3); so_audit := true; so_write := fun _ => None |}.
Definition demo_store : store := {| to_sessions := {["s1" := demo_session []; "s2" := demo_session []]}; to_audit := []; to_lastEvicted := ∅ |}.
Definition demo_request : Request := {| rq_Servers := ["git"; "jira"]; rq_Tools := ["mail__*"; "mail__nope"; "*"]; rq_Sticky := false |}.
Definition demo_load := load demo_sources None None tt demo_store "s1" demo_request "model".
Definition demo_loaded : store := demo_load.2.

Example demo_answer :
  match demo_load.1.1 with
  | Ok (r, n) => (lr_Loaded r, n, map nl_Name (lr_NotLoaded r), lr_Summary r) =
      (["mail__list"; "mail__send"], 2, ["git"; "jira"; "mail__nope"; "*"],
       "loaded 2 tools from mail; definitions are sent on your next call; 4 could not be loaded (see not_loaded)")
  | Err _ => False
  end.
Proof. by vm_compute. Qed.

Lemma demo_service_unique entries : so_Catalog demo_sources "s1" = Ok entries -> NoDup (map ct_Name (CatalogWithProbes entries (servers demo_sources))).
Proof. intros [= <-]. apply (bool_decide_unpack _). by vm_compute. Qed.

Definition demo_tool : ResolvedTool :=
  {| rt_Name := "mail__send"; rt_Server := "mail"; rt_Running := true; rt_Probe := false; rt_Tier := TierSummary; rt_Source := LevelDefault |}.
Definition demo_checks (rc : ResolvedCatalog) : bool := bool_decide (demo_tool ∈ rc_Tools rc) && asked rc demo_request demo_tool && negb (Sendable rc "mail__send").

Lemma load_makes_sendable_witness :
  match service_resolve demo_sources "s1" demo_loaded with Ok rc => Sendable rc "mail__send" = true | Err _ => False end.
Proof.
  assert (Hok : is_ok demo_load.1.1 = true) by (by vm_compute).
  assert (Hck : match service_resolve demo_sources "s1" demo_store with Ok rc => demo_checks rc | Err _ => false end = true) by (by vm_compute).
  destruct (service_resolve demo_sources "s1" demo_store) as [rc|e] eqn:Hrc; [|done].
  unfold demo_loaded, demo_load in *. destruct (load _ _ _ _ _ _ _ _) as [[r u] s'] eqn:E. cbn [fst snd] in Hok |- *. destruct r as [[r n]|e]; [|done].
  destruct (load_makes_sendable demo_sources None None tt u demo_store s' "s1" demo_request "model" r n rc E Hrc demo_service_unique) as (rc' & H' & Htools & Hsend).
  rewrite H'. apply Hsend. right. exists demo_tool. unfold demo_checks in Hck. rewrite !andb_true_iff, bool_decide_eq_true in Hck. destruct Hck as [[Hin Hask] _].
  exact (conj Hin (conj eq_refl (conj eq_refl (conj eq_refl Hask)))).
Defined.

(** A glob is checked by its first separator only: one for the server [a] also loads the tools
    of a server [a__b]. *)
Example glob_crosses_servers :
  let tool name server := {| rt_Name := name; rt_Server := server; rt_Running := true; rt_Probe := false; rt_Tier := TierSummary; rt_Source := LevelDefault |} in
  let rc := {| rc_Tools := [tool "a__x" "a"; tool "a__b__y" "a__b"]; rc_Activations := []; rc_SchemaBudgetTokens := 0; rc_ActivationTTLTurns := 0;
               rc_OrgBundleID := 0; rc_byName := ∅ |} in
  elements (tk_activate (collect rc ∅ {| rq_Servers := []; rq_Tools := ["a__*"]; rq_Sticky := false |})) = ["a__b__y"; "a__x"] /\
  tk_notLoaded (collect {| rc_Tools := [tool "a__b__y" "a__b"]; rc_Activations := []; rc_SchemaBudgetTokens := 0; rc_ActivationTTLTurns := 0;
                           rc_OrgBundleID := 0; rc_byName := ∅ |} ∅ {| rq_Servers := []; rq_Tools := ["a__b__*"]; rq_Sticky := false |}) =
    [{| nl_Name := "a__b__*"; nl_Reason := ReasonInvalidGlob |}].
Proof. split; by vm_compute. Qed.
