(* ===== verification/ExposureTurn.v ===== *)
(** One turn's view of tool exposure (core/rpc/views/agentgraph/chat/tool_exposure.go): which
    tools a model call carries within the schema budget, the gate before a call to one, and
    what a call or a load does to the rest of the turn.  The tool service the turn asks is the
    load core of LoadTools.v; the log lines are left out. *)
From S2P Require Import Prelude GoString Exposure LoadTools.
From Stdlib Require Import Ascii.
Local Open Scope Z_scope.

(** A discovered tool, and what its definition costs (core/llm/llm.go, token_estimate.go and
    tokenizer/tokenizer.go). *)
Record ToolSpec := { sp_Name : string; sp_Description : string; sp_InputSchema : string; sp_Server : string; sp_TokenEst : Z }.

Definition schemaBytesPerTokenX10 : Z := 25.
Definition ceilDiv (a b : Z) : Z := if b <=? 0 then 0 else if a <=? 0 then 0 else Z.quot (a + b - 1) b.
Definition CountToolSchema (s : string) : Z :=
  if bool_decide (s = "") then 0 else ceilDiv (Z.of_nat (String.length s) * 10) schemaBytesPerTokenX10.
Definition EstimateToolSpecTokens (t : ToolSpec) : Z := CountToolSchema (sp_Name t +:+ sp_Description t +:+ sp_InputSchema t).
Definition ToolSpecTokens (t : ToolSpec) : Z := if 0 <? sp_TokenEst t then sp_TokenEst t else EstimateToolSpecTokens t.
Definition ToolsTokens (tools : list ToolSpec) : Z := foldl (fun total t => total + ToolSpecTokens t) 0 tools.
Definition no_spec : ToolSpec := {| sp_Name := ""; sp_Description := ""; sp_InputSchema := ""; sp_Server := ""; sp_TokenEst := 0 |}.

(** The turn; [None] for a resolver that could not be made. *)
Record exposureTurn := {
  xt_resolver : option Settings; xt_sessionID : string; xt_entries : list CatalogEntry; xt_byName : gmap string ToolSpec;
  xt_started : bool; xt_turn : Z; xt_turnKnown : bool; xt_autoTried : gset string; xt_autoActivated : Z; xt_called : gset string;
  xt_loaded : gset string; xt_window : Z; xt_lastEvicted : string
}.

Definition newExposureTurn (so : sources) (sessionID : string) (catalog : list ToolSpec) : exposureTurn :=
  {| xt_resolver := match so_Settings so with Ok s => Some s | Err _ => None end; xt_sessionID := sessionID;
     xt_entries := map (fun t => {| ce_Name := sp_Name t; ce_Server := sp_Server t; ce_TokenEst := 0 |}) catalog;
     xt_byName := foldl (fun m t => <[sp_Name t := t]> m) ∅ catalog; xt_started := false; xt_turn := 0; xt_turnKnown := false; xt_autoTried := ∅;
     xt_autoActivated := 0; xt_called := ∅; xt_loaded := ∅; xt_window := 0; xt_lastEvicted := "" |}.

Section Updates.
Variable t : exposureTurn.
Definition set_turn (started known : bool) (turn : Z) : exposureTurn :=
  {| xt_resolver := xt_resolver t; xt_sessionID := xt_sessionID t; xt_entries := xt_entries t; xt_byName := xt_byName t; xt_started := started;
     xt_turn := turn; xt_turnKnown := known; xt_autoTried := xt_autoTried t; xt_autoActivated := xt_autoActivated t; xt_called := xt_called t;
     xt_loaded := xt_loaded t; xt_window := xt_window t; xt_lastEvicted := xt_lastEvicted t |}.
Definition set_sets (tried called loaded : gset string) (auto : Z) : exposureTurn :=
  {| xt_resolver := xt_resolver t; xt_sessionID := xt_sessionID t; xt_entries := xt_entries t; xt_byName := xt_byName t; xt_started := xt_started t;
     xt_turn := xt_turn t; xt_turnKnown := xt_turnKnown t; xt_autoTried := tried; xt_autoActivated := auto; xt_called := called;
     xt_loaded := loaded; xt_window := xt_window t; xt_lastEvicted := xt_lastEvicted t |}.
Definition set_call (window : Z) (lastEvicted : string) : exposureTurn :=
  {| xt_resolver := xt_resolver t; xt_sessionID := xt_sessionID t; xt_entries := xt_entries t; xt_byName := xt_byName t; xt_started := xt_started t;
     xt_turn := xt_turn t; xt_turnKnown := xt_turnKnown t; xt_autoTried := xt_autoTried t; xt_autoActivated := xt_autoActivated t;
     xt_called := xt_called t; xt_loaded := xt_loaded t; xt_window := window; xt_lastEvicted := lastEvicted |}.
End Updates.

Section Turn.
Variable so : sources.

Definition turn_resolve (t : exposureTurn) (s : store) : result ResolvedCatalog string :=
  match xt_resolver t with
  | None => Err "chat: tool exposure: no settings snapshot for this turn"
  | Some settings => ResolveCatalog (deps_of so (Ok settings) s) (xt_sessionID t) (xt_entries t) (servers so)
  end.

(** Once a turn: read the ordinal and drop what is past its TTL. *)
Definition beginTurn (t : exposureTurn) (s : store) : exposureTurn * store :=
  if xt_started t then (t, s)
  else
    match TurnOrdinal so (xt_sessionID t) with
    | Err _ => (set_turn t true (xt_turnKnown t) (xt_turn t), s)
    | Ok turn =>
        let t := set_turn t true true turn in
        match xt_resolver t with
        | None => (t, s)
        | Some settings =>
            let ttl := st_EffectiveActivationTTLTurns (WithEffective settings) in
            (t, snd (expire_session so s (xt_sessionID t) turn ttl))
        end
    end.

Definition fitSize (t : exposureTurn) (rt : ResolvedTool) : Z :=
  let spec := default no_spec (xt_byName t !! rt_Name rt) in
  if 0 <? sp_TokenEst spec then sp_TokenEst spec else EstimateToolSpecTokens spec.
Definition isCalled (t : exposureTurn) (name : string) : bool := bool_decide (name ∈ xt_called t).
Definition isLoaded (t : exposureTurn) (name : string) : bool := bool_decide (name ∈ xt_loaded t).
Definition fit (t : exposureTurn) (p : Partition) (budget : Z) : BudgetFit := FitBudget (fitSize t) (isCalled t) (isLoaded t) p budget.

Definition reportEviction (t : exposureTurn) (s : store) (f : BudgetFit) : exposureTurn * store :=
  (set_call t (xt_window t) (Join (map rt_Name (fi_Evicted f)) ","), RecordEviction so s (xt_sessionID t) f).

Record toolSelection := {
  sl_tools : list ToolSpec; sl_stable : Z; sl_summary : nat; sl_digest : string; sl_autoActivated : Z; sl_budget : Z; sl_evicted : nat;
  sl_pinnedOverBy : Z; sl_hotOverBy : Z
}.

Definition specs (t : exposureTurn) (seg : list ResolvedTool) : list ToolSpec := omap (fun rt => xt_byName t !! rt_Name rt) seg.
Definition assembleRequestTools (hot pinned activated : list ToolSpec) : list ToolSpec * Z := OrderTools sp_Name hot pinned activated.

(** What a call carries when nothing could be resolved: the default full tools. *)
Definition default_full (e : CatalogEntry) : bool :=
  bool_decide (DefaultTier {| ct_Name := ce_Name e; ct_Server := ce_Server e; ct_Running := false; ct_Probe := false |} = TierFull).
Definition fallback_selection (t : exposureTurn) (auto : Z) : toolSelection :=
  let hot := merge_sort (tool_le sp_Name) (map (fun e => default no_spec (xt_byName t !! ce_Name e)) (List.filter default_full (xt_entries t))) in
  let '(tools, stable) := assembleRequestTools hot [] [] in
  let digest := DefaultDigest (xt_entries t) (Purposes (servers so)) in
  {| sl_tools := tools; sl_stable := stable; sl_summary := foldr (fun d n => (dg_Count d + n)%nat) O digest; sl_digest := RenderDigest digest NoteDefaultsApply;
     sl_autoActivated := auto; sl_budget := 0; sl_evicted := O; sl_pinnedOverBy := 0; sl_hotOverBy := 0 |}.

Definition fitted_selection (t : exposureTurn) (f : BudgetFit) (auto budget : Z) : toolSelection :=
  let p := fi_Partition f in
  let '(tools, stable) := assembleRequestTools (specs t (pa_Hot p)) (specs t (pa_Pinned p)) (specs t (pa_Activated p)) in
  {| sl_tools := tools; sl_stable := stable; sl_summary := length (pa_Digest p); sl_digest := RenderDigest (BuildDigest p (Purposes (servers so))) "";
     sl_autoActivated := auto; sl_budget := budget; sl_evicted := length (fi_Evicted f); sl_pinnedOverBy := fi_PinnedOverBy f;
     sl_hotOverBy := fi_HotOverBy f |}.

Definition selectTools (t : exposureTurn) (s : store) (window : Z) : toolSelection * exposureTurn * store :=
  let '(t, s) := beginTurn t s in
  let auto := xt_autoActivated t in
  let t := set_call t window (xt_lastEvicted t) in
  match turn_resolve t s with
  | Err _ => (fallback_selection t auto, t, s)
  | Ok rc =>
      let budget := EffectiveBudget (rc_SchemaBudgetTokens rc) window in
      let f := fit t (partition rc) budget in
      let '(t, s) := reportEviction t s f in
      (fitted_selection t f auto budget, t, s)
  end.

Definition markCalled (t : exposureTurn) (s : store) (name : string) : exposureTurn * store :=
  match xt_byName t !! name with
  | None => (t, s)
  | Some _ =>
      let '(t, s) := beginTurn t s in
      let first := negb (bool_decide (name ∈ xt_called t)) in
      let t := set_sets t (xt_autoTried t) ({[name]} ∪ xt_called t) (xt_loaded t) (xt_autoActivated t) in
      if negb first || negb (xt_turnKnown t) then (t, s) else (t, snd (MarkUsed so s (xt_sessionID t) name (xt_turn t)))
  end.

Definition over_reason (t : exposureTurn) (f : BudgetFit) (e : ResolvedTool) : string :=
  (if bool_decide (rt_Tier e = TierFull) then ReasonPinnedOverBudget else ReasonOverBudget) +:+
  " by " +:+ fmt_d (fi_Remaining f + fitSize t e) +:+ " tokens".

Definition fitLoaded (t : exposureTurn) (s : store) (names : list string) : exposureTurn * gmap string string :=
  let t := set_sets t (xt_autoTried t) (xt_called t) (list_to_set names ∪ xt_loaded t) (xt_autoActivated t) in
  match turn_resolve t s with
  | Err _ => (t, ∅)
  | Ok rc =>
      let f := fit t (partition rc) (EffectiveBudget (rc_SchemaBudgetTokens rc) (xt_window t)) in
      (t, foldl (fun m e => if bool_decide (rt_Name e ∈ names) then <[rt_Name e := over_reason t f e]> m else m) ∅ (fi_Evicted f))
  end.

Definition willSend (t : exposureTurn) (s : store) (name : string) : bool :=
  match xt_byName t !! name with
  | None => false
  | Some _ => match turn_resolve t s with Ok rc => Sendable rc name | Err _ => false end
  end.

(** The answer to a call the gate stops, before it is written as JSON. *)
Record notLoadedResult := { nr_Error : string; nr_Tool : string; nr_Loaded : bool; nr_Message : string }.

Definition not_loaded_message (name : string) (loaded : bool) : string :=
  if loaded
  then "tool " +:+ name +:+ " was not loaded, so this call did not run. It is loaded now: its definition is in your next request — call it again."
  else "tool " +:+ name +:+ " is not loaded — call " +:+ LoadToolsName +:+ " with {" +:+ dquote +:+ "tools" +:+ dquote +:+ ": [" +:+ fmt_q name +:+ "]} first.".

Definition gateCall (t : exposureTurn) (s : store) (name : string) : option notLoadedResult * exposureTurn * store :=
  match xt_byName t !! name with
  | None => (None, t, s)
  | Some _ =>
      match turn_resolve t s with
      | Err _ => (None, t, s)
      | Ok rc =>
          if Sendable rc name then (None, t, s)
          else
            match Tool rc name with
            | None => (None, t, s)
            | Some rt =>
                if bool_decide (rt_Tier rt = TierOff) then
                  (Some {| nr_Error := "not_available"; nr_Tool := name; nr_Loaded := false;
                           nr_Message := "tool " +:+ name +:+ " is not available: " +:+ OffReason (rt_Source rt) |}, t, s)
                else
                  let first := negb (bool_decide (name ∈ xt_autoTried t)) in
                  let t := set_sets t ({[name]} ∪ xt_autoTried t) (xt_called t) (xt_loaded t) (xt_autoActivated t) in
                  let '(activated, s) := if first then let '(a, _, s) := AutoActivate so s (xt_sessionID t) name in (a, s) else (false, s) in
                  let t := if activated then set_sets t (xt_autoTried t) (xt_called t) ({[name]} ∪ xt_loaded t) (xt_autoActivated t + 1) else t in
                  (Some {| nr_Error := "not_loaded"; nr_Tool := name; nr_Loaded := activated; nr_Message := not_loaded_message name activated |}, t, s)
            end
      end
  end.

(** A [kenaz__load_tools] call of the model in this turn. *)
Definition turn_load (t : exposureTurn) (s : store) (req : Request) : result LoadResult string * exposureTurn * store :=
  Load so (Some willSend) (Some fitLoaded) t s (xt_sessionID t) req ToolsActivatedByModel.
End Turn.
