(* ===== verification/ExposureTurnProps.v ===== *)
(** Theorems on one turn's tool exposure: which tools a call carries, that its cached prefix
    stays as it is while tools are loaded, and that the gate's answer can be acted on. *)
From S2P Require Import Prelude GoString Exposure LoadTools ExposureTurn ExposureProps LoadToolsProps.
From Stdlib Require Import Ascii.
Local Open Scope Z_scope.

(** * A turn's catalog *)

Record turn_ok (t : exposureTurn) : Prop := {
  to_names : forall name, is_Some (xt_byName t !! name) <-> name ∈ map ce_Name (xt_entries t);
  to_spec : forall name sp, xt_byName t !! name = Some sp -> sp_Name sp = name
}.

Lemma by_name_spec catalog (m : gmap string ToolSpec) :
  let m' := foldl (fun m t => <[sp_Name t := t]> m) m catalog in
  (forall name, is_Some (m' !! name) <-> name ∈ map sp_Name catalog \/ is_Some (m !! name)) /\
  ((forall name sp, m !! name = Some sp -> sp_Name sp = name) -> forall name sp, m' !! name = Some sp -> sp_Name sp = name).
Proof.
  revert m. induction catalog as [|t l IH]; intros m; cbn; [split; [set_solver|done]|]. destruct (IH (<[sp_Name t := t]> m)) as [H1 H2]. split.
  - intros name. rewrite H1, lookup_insert_is_Some, elem_of_cons. destruct (decide (sp_Name t = name)); naive_solver.
  - intros Hm. apply H2. intros name sp. rewrite lookup_insert. case_decide; [by intros [= <-]|apply Hm].
Qed.

Lemma new_turn_ok so id catalog : turn_ok (newExposureTurn so id catalog).
Proof.
  destruct (by_name_spec catalog ∅) as [H1 H2]. split; cbn.
  - intros name. rewrite H1, map_map, lookup_empty. cbn. split; [by intros [?|[? ?]]|by left].
  - apply H2. intros name sp. by rewrite lookup_empty.
Qed.

(** The parts of a turn that never change. *)
Definition same_turn (t t' : exposureTurn) : Prop :=
  xt_resolver t' = xt_resolver t /\ xt_sessionID t' = xt_sessionID t /\ xt_entries t' = xt_entries t /\ xt_byName t' = xt_byName t.

Lemma same_turn_ok t t' : same_turn t t' -> turn_ok t -> turn_ok t'.
Proof. intros (_ & _ & He & Hb) [H1 H2]. split; rewrite ?He, Hb; done. Qed.

Lemma same_turn_resolve so t t' s : same_turn t t' -> turn_resolve so t' s = turn_resolve so t s.
Proof. intros (Hr & Hi & He & _). unfold turn_resolve. by rewrite Hr, Hi, He. Qed.

Lemma beginTurn_same so t s t' s' : beginTurn so t s = (t', s') -> same_turn t t' /\ xt_called t' = xt_called t /\ xt_loaded t' = xt_loaded t.
Proof.
  unfold beginTurn. destruct (xt_started t); [by intros [= <- _]|]. destruct (TurnOrdinal so (xt_sessionID t)) as [n|]; [|by intros [= <- _]].
  destruct (xt_resolver _); by intros [= <- _].
Qed.

(** The resolution of a turn whose catalog has unique names. *)
Definition unique_catalog (so : sources) (t : exposureTurn) : Prop := NoDup (map ct_Name (CatalogWithProbes (xt_entries t) (servers so))).

Lemma turn_catalog_ok so t s rc : unique_catalog so t -> turn_resolve so t s = Ok rc -> catalog_ok rc.
Proof. unfold turn_resolve. destruct (xt_resolver t); [|done]. intros Hn H. by eapply ResolveCatalog_ok. Qed.

(** A tool of the turn's catalog resolves, and it runs. *)
Lemma turn_tool so t s rc name : turn_ok t -> unique_catalog so t -> turn_resolve so t s = Ok rc -> is_Some (xt_byName t !! name) ->
  exists rt, Tool rc name = Some rt /\ servable rt = true.
Proof.
  intros Ht Hn H (e & -> & [i Hi]%list_elem_of_lookup_1)%(to_names t Ht)%list_elem_of_fmap. pose proof (turn_catalog_ok so t s rc Hn H) as Hc. unfold turn_resolve in H.
  destruct (xt_resolver t) as [st|]; [|done]. apply Resolve_ok in H as (user & sess & project & org & ->).
  set (c := {| ct_Name := ce_Name e; ct_Server := ce_Server e; ct_Running := true; ct_Probe := false |}).
  assert (Hci : CatalogWithProbes (xt_entries t) (servers so) !! i = Some c).
  { unfold CatalogWithProbes. apply lookup_app_l_Some. by rewrite list_lookup_fmap, Hi. }
  pose proof (resolved_at user sess project org _ i c Hn Hci) as Hr. cbn zeta in Hr. set (rt := ruled _ _) in Hr.
  destruct (resolve_tool_same org (layers_of org (ss_Override sess) project (st_Exposure user)) c) as (H1 & _ & H3 & H4).
  assert (Hname : rt_Name rt = ce_Name e) by (unfold rt; by rewrite ruled_name, H1).
  exists rt. split; [rewrite <- Hname; apply (co_find _ Hc); by eapply list_elem_of_lookup_2|].
  assert (Hrp : rt_Running rt = true /\ rt_Probe rt = false) by (unfold rt, ruled; destruct (_ && _); split; [exact H3|exact H4|exact H3|exact H4]).
  unfold servable. by destruct Hrp as [-> ->].
Qed.

(** * The tools of a request *)

Section OrderTools.
Context {T : Type} (name : T -> string).

Lemma take_new_all seen (seg : list T) : NoDup (map name seg) -> (forall t, t ∈ seg -> name t ∉ seen) ->
  take_new name seen seg = (seg, list_to_set (map name seg) ∪ seen).
Proof.
  revert seen. induction seg as [|t seg IH]; intros seen; cbn; [intros; f_equal; set_solver|]. intros [Ht Hn]%NoDup_cons Hs.
  rewrite bool_decide_eq_false_2 by (apply Hs; by left). rewrite IH; [f_equal; set_solver|done|].
  intros t' Ht'. apply not_elem_of_union. split; [|apply Hs; by right]. intros He%elem_of_singleton. apply Ht. rewrite <- He. by apply list_elem_of_fmap_2.
Qed.

Lemma OrderTools_unique (h p a : list T) : NoDup (map name (h ++ p ++ a)) ->
  OrderTools name h p a = (merge_sort (tool_le name) h ++ merge_sort (tool_le name) p ++ a, Z.of_nat (length h + length p)).
Proof.
  rewrite !map_app. intros (Hh & Hd1 & (Hp & Hd2 & Ha)%NoDup_app)%NoDup_app. unfold OrderTools.
  rewrite take_new_all; [|done|set_solver]. rewrite take_new_all; [|done|].
  - rewrite take_new_all; [done|done|]. intros t Ht. rewrite !elem_of_union, !elem_of_list_to_set. intros [H|[H|H]]; [by apply (Hd2 _ H), list_elem_of_fmap_2| |set_solver].
    apply (Hd1 _ H), elem_of_app. right. by apply list_elem_of_fmap_2.
  - intros t Ht. rewrite elem_of_union, elem_of_list_to_set. intros [H|H]; [|set_solver]. apply (Hd1 _ H), elem_of_app. left. by apply list_elem_of_fmap_2.
Qed.
End OrderTools.

Lemma marker_ends_prefix {T} (tools : list T) stable : 0 < stable <= Z.of_nat (length tools) -> CacheMarkerToolIndex tools (SetTools tools stable) = stable - 1.
Proof.
  intros [H1 H2]. destruct tools as [|t l]; [cbn in H2; lia|]. unfold SetTools. rewrite (proj2 (Z.leb_gt stable 0) H1).
  unfold CacheMarkerToolIndex. set (n := Z.of_nat (length (t :: l))) in *. assert (0 < n) by (unfold n; cbn; lia).
  rewrite (proj2 (Z.eqb_neq n 0)), (proj2 (Z.ltb_ge stable 0)), (proj2 (Z.eqb_neq stable 0)) by lia. cbn [orb].
  destruct (Z.leb_spec n stable); lia.
Qed.

Lemma specs_names t seg : turn_ok t -> (forall rt, rt ∈ seg -> is_Some (xt_byName t !! rt_Name rt)) -> map sp_Name (specs t seg) = map rt_Name seg.
Proof.
  intros Ht. induction seg as [|rt seg IH]; intros H; [done|]. unfold specs in *. cbn. destruct (H rt (list_elem_of_here _ _)) as [sp Hsp]. rewrite Hsp. cbn.
  rewrite (to_spec t Ht _ _ Hsp), IH; [done|]. intros rt' Hin. apply H. by right.
Qed.

Lemma tokens_sum tools : ToolsTokens tools = foldr (fun t n => ToolSpecTokens t + n) 0 tools.
Proof.
  unfold ToolsTokens. enough (forall k, foldl (fun total t => total + ToolSpecTokens t) k tools = k + foldr (fun t n => ToolSpecTokens t + n) 0 tools) as -> by lia.
  induction tools as [|t l IH]; intros k; cbn; [lia|]. rewrite IH. lia.
Qed.

Lemma tokens_perm l l' : l ≡ₚ l' -> ToolsTokens l = ToolsTokens l'.
Proof. rewrite !tokens_sum. induction 1; cbn; lia. Qed.

Lemma specs_tokens t seg : (forall rt, rt ∈ seg -> is_Some (xt_byName t !! rt_Name rt)) -> ToolsTokens (specs t seg) = segSize (fitSize t) seg.
Proof.
  rewrite tokens_sum. induction seg as [|rt seg IH]; intros H; [done|]. unfold specs, segSize in *. cbn. destruct (H rt (list_elem_of_here _ _)) as [sp Hsp]. rewrite Hsp. cbn.
  rewrite IH by (intros rt' Hin; apply H; by right). unfold fitSize, ToolSpecTokens. by rewrite Hsp.
Qed.

(** * What a call carries *)

Lemma EffectiveBudget_pos setting window : 0 < EffectiveBudget setting window.
Proof.
  unfold EffectiveBudget. cbv zeta. set (s0 := if setting <=? 0 then DefaultSchemaBudgetTokens else setting).
  assert (H : 0 < s0) by (unfold s0, DefaultSchemaBudgetTokens; destruct (Z.leb_spec setting 0); lia). destruct (window <=? 0); [done|].
  set (c := Z.quot _ _). destruct (Z.ltb_spec c 1); [destruct (Z.ltb_spec 1 s0)|destruct (Z.ltb_spec c s0)]; lia.
Qed.

(** A tool that may be sent is one of the turn's own. *)
Lemma servable_in_turn so t s rc rt : turn_ok t -> turn_resolve so t s = Ok rc -> rt ∈ rc_Tools rc -> servable rt = true ->
  unique_catalog so t -> is_Some (xt_byName t !! rt_Name rt).
Proof.
  intros Ht H Hin Hs Hn. apply (to_names t Ht). unfold turn_resolve in H. destruct (xt_resolver t) as [st|]; [|done].
  apply Resolve_ok in H as (user & sess & project & org & ->). rewrite resolve_tools in Hin by done. set (layers := layers_of _ _ _ _) in Hin.
  apply list_elem_of_fmap in Hin as (rt0 & -> & (c & -> & Hc)%list_elem_of_fmap). rewrite ruled_name. destruct (resolve_tool_same org layers c) as (H1 & _ & H3 & H4).
  rewrite H1. assert (Hrun : ct_Running c = true).
  { assert (Hr : rt_Running (ruled (map (resolve_tool org layers) (CatalogWithProbes (xt_entries t) (servers so))) (resolve_tool org layers c)) = ct_Running c)
      by (unfold ruled; destruct (_ && _); exact H3).
    unfold servable in Hs. rewrite Hr in Hs. by destruct (ct_Running c). }
  unfold CatalogWithProbes in Hc. apply elem_of_app in Hc as [(e & -> & He)%list_elem_of_fmap|(n & -> & _)%list_elem_of_fmap]; [|done].
  by apply (list_elem_of_fmap_2 ce_Name).
Qed.

Lemma sent_in_turn so t s rc : turn_ok t -> turn_resolve so t s = Ok rc -> unique_catalog so t ->
  forall rt, rt ∈ sent (partition rc) -> rt ∈ rc_Tools rc /\ Sendable rc (rt_Name rt) = true /\ is_Some (xt_byName t !! rt_Name rt).
Proof.
  intros Ht H Hn rt Hrt. pose proof (turn_catalog_ok so t s rc Hn H) as Hc. apply elem_sent in Hrt as [Hin Hseg].
  assert (Hsend : Sendable rc (rt_Name rt) = true) by (by apply sendable_segment). split; [done|]. split; [done|].
  apply Sendable_iff in Hsend as (rt' & Hrt' & Hs & _). rewrite (co_find rc Hc rt Hin) in Hrt'. injection Hrt' as <-. by eapply servable_in_turn.
Qed.

(** The request's tools of a fitted partition. *)
Lemma fitted_tools so t s rc budget : turn_ok t -> turn_resolve so t s = Ok rc -> unique_catalog so t -> 0 < budget ->
  let p := fi_Partition (fit t (partition rc) budget) in
  assembleRequestTools (specs t (pa_Hot p)) (specs t (pa_Pinned p)) (specs t (pa_Activated p)) =
    (merge_sort (tool_le sp_Name) (specs t (pa_Hot p)) ++ merge_sort (tool_le sp_Name) (specs t (pa_Pinned p)) ++ specs t (pa_Activated p),
     Z.of_nat (length (pa_Hot p) + length (pa_Pinned p))) /\
  (forall rt, rt ∈ sent p -> is_Some (xt_byName t !! rt_Name rt)) /\ NoDup (map rt_Name (sent p)) /\ (forall rt, rt ∈ sent p -> rt ∈ sent (partition rc)).
Proof.
  intros Ht H Hn Hb p. pose proof (turn_catalog_ok so t s rc Hn H) as Hc. destruct (partition_ok rc Hc) as (_ & Hnd & _).
  assert (Hu : NoDup (map rt_Name (sent (partition rc)))) by exact Hnd.
  destruct (FitBudget_spec (fitSize t) (isCalled t) (isLoaded t) _ budget Hu Hb) as (_ & Hperm & _). fold (fit t (partition rc) budget) in Hperm. fold p in Hperm.
  assert (Hin : forall rt, rt ∈ sent p -> rt ∈ sent (partition rc)) by (intros rt Hrt; rewrite <- Hperm; apply elem_of_app; by left).
  assert (Hby : forall rt, rt ∈ sent p -> is_Some (xt_byName t !! rt_Name rt)) by (intros rt Hrt; by apply (sent_in_turn so t s rc Ht H Hn rt (Hin rt Hrt))).
  assert (Hnp : NoDup (map rt_Name (sent p))) by (rewrite <- Hperm, map_app in Hu; by apply NoDup_app in Hu as (Hu & _)).
  split; [|done]. unfold sent in Hby. setoid_rewrite elem_of_app in Hby. setoid_rewrite elem_of_app in Hby.
  assert (Hlen : forall seg, (forall rt, rt ∈ seg -> is_Some (xt_byName t !! rt_Name rt)) -> length (specs t seg) = length seg).
  { intros seg Hseg. pose proof (specs_names t seg Ht Hseg) as He. apply (f_equal length) in He. by rewrite !length_map in He. }
  unfold assembleRequestTools. rewrite OrderTools_unique.
  - by rewrite !Hlen by (intros rt Hrt; apply Hby; auto).
  - rewrite !map_app, !specs_names by (done || (intros rt Hrt; apply Hby; auto)). by rewrite <- !map_app.
Qed.

Lemma fitted_names t p : turn_ok t -> (forall rt, rt ∈ sent p -> is_Some (xt_byName t !! rt_Name rt)) ->
  let tools := merge_sort (tool_le sp_Name) (specs t (pa_Hot p)) ++ merge_sort (tool_le sp_Name) (specs t (pa_Pinned p)) ++ specs t (pa_Activated p) in
  map sp_Name tools ≡ₚ map rt_Name (sent p) /\ ToolsTokens tools = segSize (fitSize t) (sent p).
Proof.
  intros Ht Hby tools. assert (Hp : tools ≡ₚ specs t (sent p)).
  { unfold tools, sent, specs. rewrite !omap_app, !merge_sort_Permutation. done. }
  split; [|by rewrite (tokens_perm _ _ Hp), specs_tokens]. by rewrite Hp, specs_names.
Qed.

(** C20: what a model call of a turn carries.  Its tools are the turn's own, each once, and
    only tools that may be sent; a tool the model called this turn is always among them if it
    may be sent at all; and the definitions are within the schema budget, unless nothing is
    left but the core tools and the tools already called. *)
Theorem call_carries_what_fits so t s t1 s1 rc window sel t' s' :
  turn_ok t -> unique_catalog so t -> beginTurn so t s = (t1, s1) -> turn_resolve so t1 s1 = Ok rc -> selectTools so t s window = (sel, t', s') ->
  let names := map sp_Name (sl_tools sel) in
  NoDup names /\ (forall name, name ∈ names -> Sendable rc name = true /\ is_Some (xt_byName t !! name)) /\
  (forall name, Sendable rc name = true -> name ∈ xt_called t -> name ∈ names) /\
  (ToolsTokens (sl_tools sel) <= sl_budget sel \/
   forall name, name ∈ names -> name ∈ xt_called t \/ exists rt, rt ∈ pa_Hot (partition rc) /\ rt_Name rt = name) /\
  (length (sl_tools sel) + sl_evicted sel = length (sendNames (partition rc)))%nat.
Proof.
  intros Ht Hn Hbegin Hres. unfold selectTools. rewrite Hbegin. destruct (beginTurn_same so t s t1 s1 Hbegin) as (Hsame & Hcalled & Hloaded).
  set (t2 := set_call t1 window (xt_lastEvicted t1)). assert (Hs2 : same_turn t1 t2) by done. rewrite (same_turn_resolve so t1 t2 s1 Hs2), Hres.
  set (budget := EffectiveBudget _ window). pose proof (EffectiveBudget_pos (rc_SchemaBudgetTokens rc) window : 0 < budget) as Hb.
  destruct (reportEviction so t2 s1 (fit t2 (partition rc) budget)) as [t3 s3] eqn:E3. unfold reportEviction in E3.
  assert (Hs3 : same_turn t2 t3) by (injection E3 as <- <-; done). intros [= <- <- <-]. set (f := fit t2 (partition rc) budget) in *.
  assert (Ht2 : turn_ok t2) by (exact (same_turn_ok t1 t2 Hs2 (same_turn_ok t t1 Hsame Ht))).
  assert (Hu2 : unique_catalog so t2) by (unfold unique_catalog in *; by rewrite (proj1 (proj2 (proj2 Hsame)) : xt_entries t2 = xt_entries t)).
  assert (Hr2 : turn_resolve so t2 s1 = Ok rc) by (by rewrite (same_turn_resolve so t1 t2 s1 Hs2)).
  assert (Hby : xt_byName t2 = xt_byName t) by apply Hsame.
  destruct (fitted_tools so t2 s1 rc budget Ht2 Hr2 Hu2 Hb) as (Hasm & Hin & Hnd & Hsub). fold f in Hasm, Hin, Hnd, Hsub. cbn zeta in *.
  assert (Hsp : forall seg, specs t3 seg = specs t2 seg) by (intros seg; unfold specs; by rewrite (proj2 (proj2 (proj2 Hs3)))).
  unfold fitted_selection. rewrite !Hsp, Hasm. cbn [sl_tools sl_budget sl_evicted]. destruct (fitted_names t2 (fi_Partition f) Ht2 Hin) as [Hnames Htok].
  cbn zeta in Hnames, Htok. set (tools := merge_sort _ _ ++ _) in *.
  destruct (partition_ok rc (turn_catalog_ok so t2 s1 rc Hu2 Hr2)) as (Hsend & Hu & _).
  destruct (FitBudget_spec (fitSize t2) (isCalled t2) (isLoaded t2) (partition rc) budget Hu Hb) as (Hev & Hperm & Hhot & Ht4 & Hrem & Hall & _).
  fold (fit t2 (partition rc) budget) in *. fold f in Hev, Hperm, Hhot, Ht4, Hrem, Hall.
  assert (Hcan : forall rt, rt ∈ fi_Evicted f -> isCalled t2 (rt_Name rt) = false).
  { intros rt Hrt. rewrite Hev in Hrt. apply until_sub in Hrt. rewrite candidates_perm in Hrt. unfold loaded_evictable in Hrt.
    apply elem_of_filter_bool in Hrt as [_ Hrt]. by apply negb_true_iff in Hrt. }
  assert (Hic : forall name, isCalled t2 name = true <-> name ∈ xt_called t) by (intros name; unfold isCalled; rewrite bool_decide_eq_true; change (xt_called t2) with (xt_called t1); by rewrite Hcalled).
  split; [by rewrite Hnames|]. split.
  { intros name Hname. rewrite Hnames in Hname. apply list_elem_of_fmap in Hname as (rt & -> & Hrt). rewrite <- Hby.
    split; [by apply (sent_in_turn so t2 s1 rc Ht2 Hr2 Hu2 rt (Hsub rt Hrt))|by apply Hin]. }
  split.
  { intros name Hname Hc. rewrite Hnames. apply Hsend in Hname. apply list_elem_of_fmap in Hname as (rt & -> & Hrt). fold (sent (partition rc)) in Hrt.
    rewrite <- Hperm in Hrt. apply elem_of_app in Hrt as [Hrt|Hrt]; [by apply list_elem_of_fmap_2|]. apply Hcan in Hrt. apply Hic in Hc. by rewrite Hrt in Hc. }
  split; [|by rewrite <- (length_map sp_Name tools), Hnames, length_map, <- length_app, (Permutation_length Hperm); unfold sendNames; rewrite length_map].
  destruct Hall as [Hz|Hall]; [left; lia|right]. intros name Hname. rewrite Hnames in Hname. apply list_elem_of_fmap in Hname as (rt & -> & Hrt).
  pose proof (Hsub rt Hrt) as Hrt0. unfold sent in Hrt0. apply elem_of_app in Hrt0 as [Hh|Hl]; [right; by exists rt|left]. apply Hic.
  destruct (isCalled t2 (rt_Name rt)) eqn:E; [done|exfalso].
  assert (Hevd : rt ∈ fi_Evicted f) by (rewrite Hall; unfold loaded_evictable; apply elem_of_filter_bool; by rewrite E).
  pose proof Hu as Hu'. change (sendNames (partition rc)) with (map rt_Name (sent (partition rc))) in Hu'. rewrite <- Hperm, map_app in Hu'.
  apply NoDup_app in Hu' as (_ & Hd & _). by apply (Hd (rt_Name rt)); apply list_elem_of_fmap_2.
Qed.

(** * The cached prefix *)

Definition sticky_in (l : list Activation) (name : string) : bool :=
  match List.find (fun a => bool_decide (ac_Name a = name)) l with Some a => ac_Sticky a | None => false end.

Lemma segment_stable c l t seg : sticky_in l (rt_Name t) = sticky_in (rc_Activations c) (rt_Name t) -> seg = SegHot \/ seg = SegPinned ->
  segment_of (set_acts c l) t = Some seg <-> segment_of c t = Some seg.
Proof.
  unfold sticky_in, segment_of, Activated. cbn [set_acts rc_Activations]. intros H Hseg.
  destruct (negb (rt_Running t) || rt_Probe t); [done|]. case_bool_decide; [done|]. case_bool_decide; [|done].
  destruct (List.find _ l) as [a|], (List.find _ (rc_Activations c)) as [b|]; rewrite ?H, <- ?H; by destruct Hseg as [-> | ->].
Qed.

Lemma prefix_segments c l : (forall name, sticky_in l name = sticky_in (rc_Activations c) name) ->
  pa_Hot (partition (set_acts c l)) = pa_Hot (partition c) /\ pa_Pinned (partition (set_acts c l)) = pa_Pinned (partition c).
Proof.
  intros H. assert (Hf : forall seg, seg = SegHot \/ seg = SegPinned -> in_segment (set_acts c l) seg = in_segment c seg).
  { intros seg Hseg. unfold in_segment. apply filter_bool_ext. intros t _. apply bool_decide_same. by apply segment_stable. }
  unfold partition. cbn [pa_Hot pa_Pinned]. by rewrite !Hf by auto.
Qed.

Lemma nothing_evicted size immune protected p budget : NoDup (map rt_Name (sent p)) -> 0 < budget ->
  fi_Evicted (FitBudget size immune protected p budget) = [] ->
  pa_Hot (fi_Partition (FitBudget size immune protected p budget)) = pa_Hot p /\
  pa_Pinned (fi_Partition (FitBudget size immune protected p budget)) = pa_Pinned p.
Proof.
  intros Hn Hb He. destruct (Z.le_gt_cases (segSize size (sent p)) budget) as [Hle|Hgt].
  - assert (HT : segSize size (pa_Hot p) + segSize size (pa_Pinned p) + segSize size (pa_Activated p) = segSize size (sent p))
      by (unfold sent; rewrite !segSize_app; lia).
    unfold FitBudget. rewrite HT, (proj2 (Z.leb_le (segSize size (sent p) - budget) 0)), orb_true_r by lia. done.
  - destruct (fit_state size immune protected p budget Hb Hgt) as (H1 & _ & _ & ->). destruct (fitted_until size immune protected p (segSize size (sent p) - budget) Hn) as [_ [_ Hg]].
    cbn zeta in *. rewrite He in H1. unfold fit_partition. cbn. rewrite Hg, <- H1. split; [done|]. cbn. induction (pa_Pinned p) as [|t q IH]; [done|]. cbn. by rewrite IH.
Qed.

(** The prefix a begun turn sends when nothing is evicted. *)
Lemma selected_prefix so t s rc window sel t' s' : turn_ok t -> unique_catalog so t -> xt_started t = true -> turn_resolve so t s = Ok rc ->
  selectTools so t s window = (sel, t', s') -> sl_evicted sel = O ->
  let prefix := merge_sort (tool_le sp_Name) (specs t (pa_Hot (partition rc))) ++ merge_sort (tool_le sp_Name) (specs t (pa_Pinned (partition rc))) in
  sl_stable sel = Z.of_nat (length prefix) /\ exists rest, sl_tools sel = prefix ++ rest.
Proof.
  intros Ht Hn Hst Hres. unfold selectTools, beginTurn. rewrite Hst. set (t2 := set_call t window (xt_lastEvicted t)). assert (Hs2 : same_turn t t2) by done.
  rewrite (same_turn_resolve so t t2 s Hs2), Hres. set (budget := EffectiveBudget _ window). pose proof (EffectiveBudget_pos (rc_SchemaBudgetTokens rc) window : 0 < budget) as Hb.
  cbn [reportEviction]. set (f := fit t2 (partition rc) budget). set (t3 := set_call t2 _ _). intros [= <- _ _] He.
  assert (Hr2 : turn_resolve so t2 s = Ok rc) by (by rewrite (same_turn_resolve so t t2 s Hs2)).
  destruct (fitted_tools so t2 s rc budget (same_turn_ok t t2 Hs2 Ht) Hr2 Hn Hb) as (Hasm & Hin & _). fold f in Hasm, Hin. cbn zeta in *.
  unfold fitted_selection in *. change (specs t3) with (specs t2) in *. rewrite Hasm in *. cbn [sl_tools sl_evicted sl_stable] in *.
  destruct (partition_ok rc (turn_catalog_ok so t2 s rc Hn Hr2)) as (_ & Hu & _).
  apply length_zero_iff_nil in He. destruct (nothing_evicted (fitSize t2) (isCalled t2) (isLoaded t2) (partition rc) budget Hu Hb He) as [Hh Hp].
  fold (fit t2 (partition rc) budget) in Hh, Hp. fold f in Hh, Hp. rewrite Hh, Hp in *. change (specs t2) with (specs t) in *.
  assert (Hlen : forall seg, (forall rt, rt ∈ seg -> is_Some (xt_byName t !! rt_Name rt)) -> length (specs t seg) = length seg).
  { intros seg Hseg. pose proof (specs_names t seg Ht Hseg) as E. apply (f_equal length) in E. by rewrite !length_map in E. }
  split.
  - rewrite length_app, !merge_sort_Permutation, !Hlen; [done|..]; intros rt Hrt; apply Hin; unfold sent; rewrite Hh, Hp, !elem_of_app; auto.
  - eexists. by rewrite <- app_assoc.
Qed.

(** C22: loading leaves the cached prefix alone.  Two calls of a turn between which the
    session's activations changed in any way but which of them are sticky carry the same
    leading tools, as long as neither call evicts: the same count is marked stable, those
    tools are the same in the same order, and the cache marker sits on the last of them. *)
Theorem cached_prefix_stable so t t' s s' st l rc window window' sel sel' t1 s1 t1' s1' :
  turn_ok t -> unique_catalog so t -> same_turn t t' -> xt_started t = true -> xt_started t' = true ->
  SessionToolExposure s (xt_sessionID t) = Ok st -> SessionToolExposure s' (xt_sessionID t) = Ok (with_activations st l) ->
  (forall name, sticky_in l name = sticky_in (ss_Activations st) name) -> turn_resolve so t s = Ok rc ->
  selectTools so t s window = (sel, t1, s1) -> selectTools so t' s' window' = (sel', t1', s1') -> sl_evicted sel = O -> sl_evicted sel' = O ->
  let n := Z.to_nat (sl_stable sel) in
  sl_stable sel' = sl_stable sel /\ take n (sl_tools sel') = take n (sl_tools sel) /\
  (0 < sl_stable sel -> CacheMarkerToolIndex (sl_tools sel') (SetTools (sl_tools sel') (sl_stable sel')) = sl_stable sel - 1).
Proof.
  intros Ht Hn Hsame Hst Hst' Hs Hs' Hsticky Hres Hsel Hsel' He He' n.
  assert (Hres' : turn_resolve so t s' = Ok (set_acts rc l) /\ rc_Activations rc = ss_Activations st).
  { unfold turn_resolve in *. destruct (xt_resolver t) as [settings|]; [|done].
    by destruct (Resolve_after so (Ok settings) _ _ _ s s' rc l st Hres Hs Hs') as [H1 H2]. }
  destruct Hres' as [Hres' Hacts]. rewrite <- Hacts in Hsticky. destruct (prefix_segments rc l Hsticky) as [Hh Hp].
  destruct (selected_prefix so t s rc window sel t1 s1 Ht Hn Hst Hres Hsel He) as [Hc (rest & Htools)].
  assert (Hn' : unique_catalog so t') by (unfold unique_catalog in *; by rewrite (proj1 (proj2 (proj2 Hsame)) : xt_entries t' = xt_entries t)).
  rewrite <- (same_turn_resolve so t t' s' Hsame) in Hres'.
  destruct (selected_prefix so t' s' _ window' sel' t1' s1' (same_turn_ok t t' Hsame Ht) Hn' Hst' Hres' Hsel' He') as [Hc' (rest' & Htools')].
  assert (Hsp : forall seg, specs t' seg = specs t seg) by (intros seg; unfold specs; by rewrite (proj2 (proj2 (proj2 Hsame)) : xt_byName t' = xt_byName t)).
  rewrite Hh, Hp, !Hsp in Hc', Htools'. cbn zeta in *. set (prefix := merge_sort _ _ ++ merge_sort _ _) in *.
  assert (Hstable : sl_stable sel' = sl_stable sel) by congruence. split; [done|]. split.
  - unfold n. by rewrite Htools, Htools', Hc, Nat2Z.id, !take_app_length.
  - intros Hpos. rewrite Hstable, marker_ends_prefix; [done|]. split; [done|]. rewrite Hc, Htools', length_app. lia.
Qed.

(** * The gate *)

Definition plain_name (name : string) : Prop := TrimSpace name = name /\ name <> "" /\ cut_star name = None.

(** An auto-activation that reports success has activated the tool for every resolution. *)
Lemma AutoActivate_ok so s id name err s' : plain_name name ->
  (forall entries, so_Catalog so id = Ok entries -> NoDup (map ct_Name (CatalogWithProbes entries (servers so)))) ->
  AutoActivate so s id name = (true, err, s') ->
  forall settings entries srv rc0, ResolveCatalog (deps_of so settings s) id entries srv = Ok rc0 ->
  exists l, ResolveCatalog (deps_of so settings s') id entries srv = Ok (set_acts rc0 l) /\ name ∈ act_names l.
Proof.
  intros (Htrim & Hne & Hstar) Hn. unfold AutoActivate. set (req := {| rq_Servers := []; rq_Tools := [name]; rq_Sticky := false |}).
  destruct (load so None None tt s id req ToolsActivatedByAuto) as [[r u] s1] eqn:E. destruct r as [[r n]|e]; [|done]. intros [= Hpos _ <-] settings entries srv rc0 H0.
  apply Z.ltb_lt in Hpos. pose proof E as (rc & changed & over & k & Hrc & Happ & _)%load_inv.
  destruct (load_resolve so None None tt s id req _ r n u s1 rc E Hrc settings entries srv rc0 H0) as (l & Hl & Hnames). exists l. split; [done|]. apply Hnames. right.
  assert (Hcat : catalog_ok rc).
  { unfold service_resolve in Hrc. apply rbind_ok in Hrc as (es & He & Hrc). eapply ResolveCatalog_ok; [exact Hrc|]. apply Hn. by destruct (so_Catalog so id); cbn in He; [injection He as ->|]. }
  pose proof (collect_spec rc (servers so) req Hcat) as Hk. set (act := tk_activate _) in *.
  assert (Hact : act <> ∅) by (intros H; unfold applyActivations in Happ; rewrite bool_decide_eq_true_2 in Happ by done; injection Happ as _ <-; lia).
  apply set_choose_L in Hact as [m Hm]. pose proof Hm as Hm'. apply (Hk m) in Hm' as [H|(t & (_ & _ & Hask) & _ & ->)]; [cbn in H; set_solver|].
  assert (Hname : rt_Name t = name).
  { unfold asked, tool_asked in Hask. cbn in Hask. rewrite Htrim, Hstar, orb_false_r in Hask. apply andb_true_iff in Hask as [_ Hask]. by apply bool_decide_eq_true in Hask. }
  by rewrite Hname in Hm.
Qed.

(** A tool loaded this turn is in the next call if the core tools and those called or loaded
    this turn fit the budget together. *)
Lemma loaded_is_carried so t s rc window sel t' s' name :
  turn_ok t -> unique_catalog so t -> xt_started t = true -> turn_resolve so t s = Ok rc -> Sendable rc name = true -> name ∈ xt_loaded t ->
  selectTools so t s window = (sel, t', s') ->
  segSize (fitSize t) (kept_first (isCalled t) (isLoaded t) (partition rc)) <= sl_budget sel -> name ∈ map sp_Name (sl_tools sel).
Proof.
  intros Ht Hn Hst Hres Hsend Hl. unfold selectTools, beginTurn. rewrite Hst. set (t2 := set_call t window (xt_lastEvicted t)).
  assert (Hs2 : same_turn t t2) by done. rewrite (same_turn_resolve so t t2 s Hs2), Hres.
  set (budget := EffectiveBudget _ window). pose proof (EffectiveBudget_pos (rc_SchemaBudgetTokens rc) window : 0 < budget) as Hb.
  destruct (reportEviction so t2 s (fit t2 (partition rc) budget)) as [t3 s3] eqn:E3. unfold reportEviction in E3.
  assert (Hs3 : same_turn t2 t3) by (injection E3 as <- <-; done). intros [= <- <- <-] Hfit.
  assert (Ht2 : turn_ok t2) by exact (same_turn_ok t t2 Hs2 Ht). assert (Hr2 : turn_resolve so t2 s = Ok rc) by done.
  destruct (fitted_tools so t2 s rc budget Ht2 Hr2 Hn Hb) as (Hasm & Hin & _). cbn zeta in *.
  assert (Hsp : forall seg, specs t3 seg = specs t2 seg) by (intros seg; unfold specs; by rewrite (proj2 (proj2 (proj2 Hs3)))).
  revert Hfit. unfold fitted_selection. rewrite !Hsp, Hasm. cbn [sl_tools sl_budget]. intros Hfit.
  destruct (fitted_names t2 _ Ht2 Hin) as [Hnames _]. cbn zeta in Hnames. rewrite Hnames.
  destruct (partition_ok rc (turn_catalog_ok so t2 s rc Hn Hr2)) as (Hss & Hu & _).
  apply Hss in Hsend. apply list_elem_of_fmap in Hsend as (rt & -> & Hrt). apply list_elem_of_fmap_2.
  apply protected_stays; [exact Hu|done|exact Hfit|exact Hrt|]. by apply bool_decide_eq_true.
Qed.

(** C21: the gate's answer can be acted on.  The gate lets a call through untouched exactly
    when it knows nothing of the tool, cannot resolve, or the tool may be sent.  It stops any
    other call: an off tool is refused with nothing changed; for a summary tool, an answer
    that says it is loaded now is true, so the tool may be sent from then on and the same
    call made again passes the gate; the next call of the turn carries its definition
    whenever the core tools and the tools called or loaded this turn fit the schema budget
    together; and a tool already tried this turn is answered without touching the session. *)
Theorem gate_answer_is_honest so t s name :
  turn_ok t -> unique_catalog so t -> plain_name name ->
  (forall entries, so_Catalog so (xt_sessionID t) = Ok entries -> NoDup (map ct_Name (CatalogWithProbes entries (servers so)))) ->
  let '(r, t', s') := gateCall so t s name in
  match r with
  | None => t' = t /\ s' = s /\ (xt_byName t !! name = None \/ (exists e, turn_resolve so t s = Err e) \/ exists rc, turn_resolve so t s = Ok rc /\ Sendable rc name = true)
  | Some a =>
      exists rc rt, turn_resolve so t s = Ok rc /\ Tool rc name = Some rt /\ Sendable rc name = false /\
        ((rt_Tier rt = TierOff /\ nr_Error a = "not_available" /\ nr_Loaded a = false /\ t' = t /\ s' = s) \/
         (rt_Tier rt = TierSummary /\ nr_Error a = "not_loaded" /\ name ∈ xt_autoTried t' /\
          (name ∈ xt_autoTried t -> nr_Loaded a = false /\ s' = s) /\
          (nr_Loaded a = true -> gateCall so t' s' name = (None, t', s') /\ willSend so t' s' name = true /\ name ∈ xt_loaded t' /\
             exists rc', turn_resolve so t' s' = Ok rc' /\
               forall window sel t2 s2, xt_started t' = true -> selectTools so t' s' window = (sel, t2, s2) ->
                 segSize (fitSize t') (kept_first (isCalled t') (isLoaded t') (partition rc')) <= sl_budget sel ->
                 name ∈ map sp_Name (sl_tools sel))))
  end.
Proof.
  intros Ht Hn Hplain Hs. unfold gateCall at 1. destruct (xt_byName t !! name) as [sp|] eqn:Hb; [|by split_and!; auto].
  destruct (turn_resolve so t s) as [rc|e] eqn:Hr; [|by split_and!; eauto]. destruct (Sendable rc name) eqn:Hsend; [by split_and!; eauto 10|].
  destruct (turn_tool so t s rc name Ht Hn Hr (mk_is_Some _ _ Hb)) as (rt & Hrt & Hrun). rewrite Hrt.
  pose proof (turn_catalog_ok so t s rc Hn Hr) as Hc. destruct (co_found rc Hc name rt Hrt) as [Hin _]. pose proof (co_valid rc Hc rt Hin) as [Hf|[Hsum|Hoff]]%valid_cases.
  { exfalso. enough (Sendable rc name = true) by congruence. apply Sendable_iff. eauto 10. }
  2:{ rewrite Hoff. cbn. exists rc, rt. split_and!; try done. left. done. }
  rewrite Hsum. cbn [bool_decide decide]. set (t2 := set_sets t _ _ _ _). case_bool_decide as Hd; [done|]. clear Hd.
  case_bool_decide as Htried; cbn [negb].
  { exists rc, rt. split_and!; try done. right. split_and!; try done. cbn. set_solver. }
  destruct (AutoActivate so s (xt_sessionID t) name) as [[activated err] s2] eqn:E. change (xt_sessionID t2) with (xt_sessionID t). rewrite E.
  exists rc, rt. split_and!; try done. right. split_and!; try done; [by destruct activated; cbn; set_solver|]. cbn. intros ->. set (t3 := set_sets t2 _ _ _ _).
  assert (Hsame : same_turn t t3) by done. unfold turn_resolve in Hr. destruct (xt_resolver t) as [settings|] eqn:Hset; [|done].
  destruct (AutoActivate_ok so s _ name err s2 Hplain Hs E _ _ _ _ Hr) as (l & Hl & Hname).
  assert (Hr3 : turn_resolve so t3 s2 = Ok (set_acts rc l)) by (rewrite (same_turn_resolve so t t3 s2 Hsame); unfold turn_resolve; by rewrite Hset).
  assert (Hs3 : Sendable (set_acts rc l) name = true) by (apply Sendable_iff; exists rt; eauto 10).
  unfold gateCall, willSend. change (xt_byName t3) with (xt_byName t). rewrite Hb, Hr3, Hs3.
  assert (Hl3 : name ∈ xt_loaded t3) by (cbn; set_solver). split_and!; try done. exists (set_acts rc l). split; [done|].
  intros window sel t4 s4 Hst Hsel Hfit. eapply (loaded_is_carried so t3 s2); [by eapply same_turn_ok|done|done|done|done|done|exact Hsel|exact Hfit].
Qed.

(** * Instances *)

Definition demo_spec (e : CatalogEntry) : ToolSpec :=
  {| sp_Name := ce_Name e; sp_Description := "about " +:+ ce_Name e; sp_InputSchema := "{}"; sp_Server := ce_Server e; sp_TokenEst := 100 |}.
Definition demo_specs : list ToolSpec := map demo_spec demo_entries.
Definition demo_turn : exposureTurn := newExposureTurn demo_sources "s1" demo_specs.
Definition demo_call1 := selectTools demo_sources demo_turn demo_store 200000.
Definition demo_gate := gateCall demo_sources demo_call1.1.2 demo_call1.2 "mail__send".
Definition demo_call2 := selectTools demo_sources demo_gate.1.2 demo_gate.2 200000.
(** The tool was called; the next call's window is 1400 tokens, so its budget 210. *)
Definition demo_called := markCalled demo_sources demo_call2.1.2 demo_call2.2 "mail__send".
Definition demo_small := selectTools demo_sources demo_called.1 demo_called.2 1400.

Example demo_calls :
  map sp_Name (sl_tools demo_call1.1.1) = ["kenaz__load_tools"; "kenaz__read_file"] /\
  map sp_Name (sl_tools demo_call2.1.1) = ["kenaz__load_tools"; "kenaz__read_file"; "mail__send"] /\
  map sp_Name (sl_tools demo_small.1.1) = ["kenaz__load_tools"; "kenaz__read_file"; "mail__send"] /\ sl_budget demo_small.1.1 = 210 /\
  sl_stable demo_call2.1.1 = 2.
Proof. split_and!; by vm_compute. Qed.

Example demo_digest :
  sl_digest demo_call1.1.1 = "## Available but not loaded" +:+ nl +:+ introLine +:+ nl +:+ "- jira (stopped) — not running; its tools cannot be loaded until it is started" +:+ nl +:+
    "- mail (2 tools): Read and send mail — e.g. list, send".
Proof. by vm_compute. Qed.

(** The gate says that the tool is loaded and its definition is in the next request; with a
    window of 1400 tokens the two core tools fill the budget of 210 and it is not. *)
Example loaded_then_evicted :
  let next := selectTools demo_sources demo_gate.1.2 demo_gate.2 1400 in
  nr_Loaded <$> demo_gate.1.1 = Some true /\
  map sp_Name (sl_tools next.1.1) = ["kenaz__load_tools"; "kenaz__read_file"] /\ sl_evicted next.1.1 = 1%nat.
Proof. split_and!; by vm_compute. Qed.

Lemma demo_turn_ok : turn_ok demo_turn.
Proof. apply new_turn_ok. Qed.

Lemma demo_turn_unique : unique_catalog demo_sources demo_turn.
Proof. apply (bool_decide_unpack _). by vm_compute. Qed.

Lemma markCalled_same so t s name : same_turn t (markCalled so t s name).1.
Proof.
  unfold markCalled. destruct (xt_byName t !! name); [|done]. destruct (beginTurn so t s) as [t1 s1] eqn:E. destruct (beginTurn_same so t s t1 s1 E) as [H _].
  by destruct (_ || _).
Qed.

Lemma selectTools_same so t s window : same_turn t (selectTools so t s window).1.2.
Proof.
  unfold selectTools. destruct (beginTurn so t s) as [t1 s1] eqn:E. destruct (beginTurn_same so t s t1 s1 E) as [H _]. by destruct (turn_resolve so _ s1).
Qed.

Lemma same_turn_unique so t t' : same_turn t t' -> unique_catalog so t -> unique_catalog so t'.
Proof. intros (_ & _ & He & _). unfold unique_catalog. by rewrite He. Qed.

Lemma gateCall_same so t s name : same_turn t (gateCall so t s name).1.2.
Proof.
  unfold gateCall. destruct (xt_byName t !! name); [|done]. destruct (turn_resolve so t s) as [rc|]; [|done]. destruct (Sendable rc name); [done|].
  destruct (Tool rc name) as [rt|]; [|done]. case_bool_decide; [done|]. destruct (negb _); [|done]. cbn.
  destruct (AutoActivate so s (xt_sessionID t) name) as [[[] err] s2]; done.
Qed.

Lemma same_turn_trans t1 t2 t3 : same_turn t1 t2 -> same_turn t2 t3 -> same_turn t1 t3.
Proof. unfold same_turn. intros (-> & -> & -> & ->). done. Qed.

Lemma demo_gate_same : same_turn demo_turn demo_gate.1.2.
Proof. eapply same_turn_trans; [apply (selectTools_same demo_sources demo_turn demo_store 200000)|apply gateCall_same]. Qed.

Lemma demo_called_same : same_turn demo_turn demo_called.1.
Proof.
  eapply same_turn_trans; [apply demo_gate_same|]. eapply same_turn_trans; [apply (selectTools_same demo_sources demo_gate.1.2 demo_gate.2 200000)|apply markCalled_same].
Qed.

Lemma call_carries_what_fits_witness : "mail__send" ∈ map sp_Name (sl_tools demo_small.1.1) /\ NoDup (map sp_Name (sl_tools demo_small.1.1)).
Proof.
  assert (Hck : let '(t1, s1) := beginTurn demo_sources demo_called.1 demo_called.2 in
    match turn_resolve demo_sources t1 s1 with Ok rc => Sendable rc "mail__send" && isCalled demo_called.1 "mail__send" | Err _ => false end = true) by (by vm_compute).
  unfold demo_small in *. destruct (beginTurn demo_sources demo_called.1 demo_called.2) as [t1 s1] eqn:Eb. destruct (turn_resolve demo_sources t1 s1) as [rc|] eqn:Er; [|discriminate Hck].
  destruct (selectTools demo_sources demo_called.1 demo_called.2 1400) as [[sel t'] s'] eqn:Es.
  destruct (call_carries_what_fits demo_sources demo_called.1 demo_called.2 t1 s1 rc 1400 sel t' s' (same_turn_ok _ _ demo_called_same demo_turn_ok)
    (same_turn_unique _ _ _ demo_called_same demo_turn_unique) Eb Er Es) as (Hn & _ & Hc & _).
  apply andb_true_iff in Hck as [H1 H2]. cbn [fst]. split; [|exact Hn]. apply (Hc "mail__send" H1). exact (proj1 (bool_decide_eq_true _) H2).
Defined.

Lemma demo_plain : plain_name "mail__send".
Proof. by split_and!. Qed.

Lemma gate_answer_is_honest_witness :
  gateCall demo_sources demo_gate.1.2 demo_gate.2 "mail__send" = (None, demo_gate.1.2, demo_gate.2) /\ willSend demo_sources demo_gate.1.2 demo_gate.2 "mail__send" = true /\
  "mail__send" ∈ map sp_Name (sl_tools demo_call2.1.1).
Proof.
  assert (Hck : match demo_gate.1.1 with Some a => nr_Loaded a | None => false end = true) by (by vm_compute).
  assert (Hfit : forall rc', turn_resolve demo_sources demo_gate.1.2 demo_gate.2 = Ok rc' ->
    xt_started demo_gate.1.2 && (segSize (fitSize demo_gate.1.2) (kept_first (isCalled demo_gate.1.2) (isLoaded demo_gate.1.2) (partition rc')) <=? sl_budget demo_call2.1.1) = true).
  { assert (H : match turn_resolve demo_sources demo_gate.1.2 demo_gate.2 with
      | Ok rc' => xt_started demo_gate.1.2 && (segSize (fitSize demo_gate.1.2) (kept_first (isCalled demo_gate.1.2) (isLoaded demo_gate.1.2) (partition rc')) <=? sl_budget demo_call2.1.1)
      | Err _ => true end = true) by (by vm_compute). intros rc' Hrc. rewrite Hrc in H. exact H. }
  pose proof (gate_answer_is_honest demo_sources demo_call1.1.2 demo_call1.2 "mail__send"
    (same_turn_ok _ _ (selectTools_same demo_sources demo_turn demo_store 200000) demo_turn_ok)
    (same_turn_unique _ _ _ (selectTools_same demo_sources demo_turn demo_store 200000) demo_turn_unique)
    demo_plain (fun entries => demo_service_unique entries)) as H.
  unfold demo_call2 in *. unfold demo_gate in *. destruct (gateCall demo_sources demo_call1.1.2 demo_call1.2 "mail__send") as [[r t'] s'] eqn:E. cbn [fst snd] in *.
  destruct r as [a|]; [|discriminate Hck]. destruct H as (rc & rt & _ & _ & _ & [(_ & _ & Hl & _)|(_ & _ & _ & _ & H)]); [rewrite Hl in Hck; discriminate Hck|].
  destruct (H Hck) as (H1 & H2 & _ & rc' & Hrc & H3). specialize (Hfit rc' Hrc). apply andb_true_iff in Hfit as [Hst Hfit].
  destruct (selectTools demo_sources t' s' 200000) as [[sel t2] s2] eqn:Es. cbn [fst snd] in *.
  exact (conj H1 (conj H2 (H3 200000 sel t2 s2 Hst Es (proj1 (Z.leb_le _ _) Hfit)))).
Defined.

(** A call, and the call after the gate loaded a tool. *)
Definition demo_again := selectTools demo_sources demo_call1.1.2 demo_call1.2 200000.

Lemma cached_prefix_stable_witness : sl_stable demo_call2.1.1 = sl_stable demo_again.1.1 /\ take 2 (sl_tools demo_call2.1.1) = take 2 (sl_tools demo_again.1.1).
Proof.
  assert (Hst : SessionToolExposure demo_call1.2 "s1" = Ok (demo_session [])) by (vm_compute; reflexivity).
  assert (Hst' : SessionToolExposure demo_gate.2 "s1" = Ok (with_activations (demo_session []) [act "mail__send" "mail" 3])) by (vm_compute; reflexivity).
  assert (Hid : xt_sessionID demo_call1.1.2 = "s1" /\ xt_started demo_call1.1.2 = true /\ xt_started demo_gate.1.2 = true) by (vm_compute; tauto).
  assert (Hev : sl_evicted demo_again.1.1 = O /\ sl_evicted demo_call2.1.1 = O /\ sl_stable demo_again.1.1 = 2) by (vm_compute; tauto).
  assert (Hck : match turn_resolve demo_sources demo_call1.1.2 demo_call1.2 with Ok _ => true | Err _ => false end = true) by (vm_compute; reflexivity).
  destruct (turn_resolve demo_sources demo_call1.1.2 demo_call1.2) as [rc|] eqn:Er; [|discriminate Hck]. destruct Hid as (Hid & Hs1 & Hs2). rewrite <- Hid in Hst, Hst'.
  pose proof (selectTools_same demo_sources demo_turn demo_store 200000 : same_turn demo_turn demo_call1.1.2) as Hsame.
  pose proof (gateCall_same demo_sources demo_call1.1.2 demo_call1.2 "mail__send" : same_turn demo_call1.1.2 demo_gate.1.2) as Hsame'.
  unfold demo_again, demo_call2 in *. destruct (selectTools demo_sources demo_call1.1.2 demo_call1.2 200000) as [[sel t1] s1] eqn:E1.
  destruct (selectTools demo_sources demo_gate.1.2 demo_gate.2 200000) as [[sel' t1'] s1'] eqn:E2. cbn [fst] in *. destruct Hev as (He & He' & Hn).
  destruct (cached_prefix_stable demo_sources demo_call1.1.2 demo_gate.1.2 demo_call1.2 demo_gate.2 _ _ rc 200000 200000 sel sel' t1 s1 t1' s1'
    (same_turn_ok _ _ Hsame demo_turn_ok) (same_turn_unique _ _ _ Hsame demo_turn_unique) Hsame' Hs1 Hs2 Hst Hst') as (H1 & H2 & _); [|exact Er|exact E1|exact E2|exact He|exact He'|].
  - intros name. unfold sticky_in. cbn. by case_bool_decide.
  - split; [exact H1|]. rewrite Hn in H2. exact H2.
Defined.
