(* ===== verification/Watermark.v ===== *)
(** The gate of the kernel's automatic compaction sites
    (core/agentgraph/compaction_watermark.go): the first size a run observes becomes its
    baseline, and a site may compact only once the conversation has outgrown it by a
    margin.  Fractions are exact decimals, where the code multiplies float64s. *)
From S2P Require Import Prelude AgentGraph.
Open Scope Z_scope.

Definition DefaultCompactionWatermarkMarginTokens : Z := 8192.
Definition DefaultCompactionWatermarkMarginFraction : dec := {| d_man := 5; d_exp := -1 |}.

Record CompactionWatermarkPolicy := { wp_MarginTokens : Z; wp_MarginFraction : dec }.

Definition resolved (p : CompactionWatermarkPolicy) : CompactionWatermarkPolicy :=
  {| wp_MarginTokens := if wp_MarginTokens p =? 0 then DefaultCompactionWatermarkMarginTokens else wp_MarginTokens p;
     wp_MarginFraction := if d_man (wp_MarginFraction p) =? 0 then DefaultCompactionWatermarkMarginFraction else wp_MarginFraction p |}.

(** [int(float64(baseline) * fraction)], both positive. *)
Definition scale (baseline : Z) (f : dec) : Z :=
  if 0 <=? d_exp f then baseline * d_man f * 10 ^ d_exp f else baseline * d_man f / 10 ^ (- d_exp f).

Definition Margin (p : CompactionWatermarkPolicy) (baseline : Z) : Z :=
  let r := resolved p in
  let margin := if wp_MarginTokens r <? 0 then 0 else wp_MarginTokens r in
  let margin := if (0 <? baseline) && (0 <? d_man (wp_MarginFraction r)) && (margin <? scale baseline (wp_MarginFraction r))
                then scale baseline (wp_MarginFraction r) else margin in
  if margin <? 1 then 1 else margin.

Definition Threshold (p : CompactionWatermarkPolicy) (baseline : Z) : Z := baseline + Margin p baseline.
Definition Exceeds (p : CompactionWatermarkPolicy) (baseline live : Z) : bool := Threshold p baseline <? live.

(** The latched baseline is [None] until something is observed. *)
Record CompactionWatermark := { wm_policy : CompactionWatermarkPolicy; wm_baseline : option Z; wm_crossed : bool }.

Definition NewCompactionWatermark (p : CompactionWatermarkPolicy) : CompactionWatermark :=
  {| wm_policy := resolved p; wm_baseline := None; wm_crossed := false |}.

(** The operations take a nil receiver, [None]: no watermark, no gate. *)
Definition Policy (w : option CompactionWatermark) : CompactionWatermarkPolicy :=
  match w with
  | None => resolved {| wp_MarginTokens := 0; wp_MarginFraction := {| d_man := 0; d_exp := 0 |} |}
  | Some w => wm_policy w
  end.

Definition Baseline (w : option CompactionWatermark) : Z * bool :=
  match w with
  | Some w => match wm_baseline w with Some b => (b, true) | None => (0, false) end
  | None => (0, false)
  end.

Definition Admit (w : option CompactionWatermark) (live : Z) : option CompactionWatermark * bool :=
  match w with
  | None => (None, true)
  | Some w =>
      match wm_baseline w with
      | None => (Some {| wm_policy := wm_policy w; wm_baseline := Some live; wm_crossed := wm_crossed w |}, false)
      | Some b => if Exceeds (wm_policy w) b live
                  then (Some {| wm_policy := wm_policy w; wm_baseline := Some b; wm_crossed := true |}, true)
                  else (Some w, false)
      end
  end.

Definition Crossed (w : option CompactionWatermark) : bool := match w with None => true | Some w => wm_crossed w end.

Definition Rearm (w : option CompactionWatermark) : option CompactionWatermark :=
  match w with
  | None => None
  | Some w => Some {| wm_policy := wm_policy w; wm_baseline := None; wm_crossed := false |}
  end.

(** The gates on the run's environment: without a compactor no site fires. *)
Definition admitAutomaticCompaction (compactor : bool) (w : option CompactionWatermark) (live : Z)
    : option CompactionWatermark * bool :=
  if compactor then Admit w live else (w, false).
Definition automaticCompactionCrossed (compactor : bool) (w : option CompactionWatermark) : bool :=
  if compactor then Crossed w else false.

(** * Histories *)

Lemma Margin_pos p b : 1 <= Margin p b.
Proof. unfold Margin. repeat case_match; lia. Qed.

Lemma resolved_idem p : resolved (resolved p) = resolved p.
Proof.
  unfold resolved. cbn.
  destruct (Z.eqb_spec (wp_MarginTokens p) 0) as [H1|H1]; destruct (Z.eqb_spec (d_man (wp_MarginFraction p)) 0) as [H2|H2]; cbn;
    rewrite ?(proj2 (Z.eqb_neq _ _) H1), ?(proj2 (Z.eqb_neq _ _) H2); reflexivity.
Qed.

Lemma Margin_resolved p b : Margin (resolved p) b = Margin p b.
Proof. unfold Margin. by rewrite resolved_idem. Qed.

Inductive wm_op := OpAdmit (live : Z) | OpRearm.

Definition wm_apply (w : option CompactionWatermark) (o : wm_op) : option CompactionWatermark :=
  match o with OpAdmit live => (Admit w live).1 | OpRearm => Rearm w end.

(** The sizes observed since the last compaction, oldest first. *)
Definition since_rearm (os : list wm_op) : list Z :=
  foldl (fun acc o => match o with OpAdmit live => acc ++ [live] | OpRearm => [] end) [] os.

(** Some observation after the first outgrew the first. *)
Definition outgrown (p : CompactionWatermarkPolicy) (seen : list Z) : bool :=
  match seen with [] => false | b :: later => existsb (fun live => b + Margin p b <? live) later end.

Lemma watermark_state p os :
  foldl wm_apply (Some (NewCompactionWatermark p)) os =
    Some {| wm_policy := resolved p; wm_baseline := head (since_rearm os); wm_crossed := outgrown p (since_rearm os) |}.
Proof.
  induction os as [|o os IH] using rev_ind; [done|]. unfold since_rearm in *. rewrite !foldl_app, IH. cbn [foldl].
  destruct o as [live|]; [|done]. cbn [wm_apply Admit wm_baseline wm_policy wm_crossed].
  destruct (foldl _ [] os) as [|b seen]; [done|]. cbn [head]. unfold Exceeds, Threshold. rewrite Margin_resolved.
  cbn [app head outgrown]. rewrite existsb_app. cbn. rewrite orb_false_r.
  destruct (b + Margin p b <? live); cbn; [by rewrite orb_true_r|by rewrite orb_false_r].
Qed.

(** After any history of a run, an observation is admitted exactly when it exceeds
    the first one since the last compaction by more than the margin, which is at least
    one; so the first one never is.  The sites that ride along are open exactly when one
    was admitted since then. *)
Theorem watermark_admits_growth p os live :
  let w := foldl wm_apply (Some (NewCompactionWatermark p)) os in
  ((Admit w live).2 = true <-> exists b later, since_rearm os = b :: later /\ b + Margin p b < live) /\
  (Crossed w = true <-> exists b later l, since_rearm os = b :: later /\ l ∈ later /\ b + Margin p b < l) /\
  forall b, 1 <= Margin p b.
Proof.
  intros w. unfold w. rewrite watermark_state. split_and!; [| |apply Margin_pos].
  - cbn. destruct (since_rearm os) as [|b later]; cbn; [split; [done|naive_solver]|].
    unfold Exceeds, Threshold. rewrite Margin_resolved. destruct (Z.ltb_spec (b + Margin p b) live) as [Hl|Hl]; cbn.
    + split; [|done]. intros _. by exists b, later.
    + split; [done|]. intros (b' & l' & [= <- <-] & Hx). lia.
  - cbn. destruct (since_rearm os) as [|b later]; cbn; [split; [done|naive_solver]|].
    rewrite existsb_exists. split.
    + intros (l & Hl & Hlt). exists b, later, l. split; [done|]. split; [by apply list_elem_of_In|lia].
    + intros (b' & l' & l & [= <- <-] & Hl & Hlt). exists l. split; [by apply list_elem_of_In|lia].
Qed.

(** The defaults: 8192 tokens, or half of a larger baseline. *)
Example default_margins :
  let p := {| wp_MarginTokens := 0; wp_MarginFraction := {| d_man := 0; d_exp := 0 |} |} in
  map (Margin p) [0; 100; 16384; 16386; 200000] = [8192; 8192; 8192; 8193; 100000].
Proof. vm_compute. reflexivity. Qed.
