(* ===== verification/Dials.v ===== *)
(** The autonomy dial at work: how the settings are folded into the layers
    (core/rpc/api.go) and how the resolved knobs bear on a run, its graph and its budget
    (core/rpc/views/agentgraph/chat/chat_runner.go).  Products of Go's int are those of
    64 bits. *)
From S2P Require Import Prelude GoString Json Autonomy AgentGraph Containers Gates.
From stdpp Require Import gmap.
Local Open Scope nat_scope.

(** * The settings *)

Definition DefaultMaxAgentTurns : Z := 500.

(** [EffectiveMaxAgentTurns] over the stored value, or the error of reading it. *)
Definition effectiveMaxAgentTurnsFromSettings (raw : option Z) : Z :=
  match raw with
  | None => DefaultMaxAgentTurns
  | Some n => if (n <=? 0)%Z then DefaultMaxAgentTurns else n
  end.

Definition permissionModeRiskThreshold (mode : string) : option Z :=
  if bool_decide (mode = "strict") then Some 0%Z
  else if bool_decide (mode = "normal") then Some 40%Z
  else if bool_decide (mode = "permissive") then Some 80%Z else None.

Definition autonomyResolutionHasExplicitRiskThresholdChoice (global project session : Layer) : bool :=
  bool_decide (is_Some (l_Overrides session !! KnobRiskThreshold)) || bool_decide (is_Some (l_Overrides project !! KnobRiskThreshold))
  || bool_decide (is_Some (l_Overrides global !! KnobRiskThreshold))
  || bool_decide (is_Some (l_Level session)) || bool_decide (is_Some (l_Level project)) || bool_decide (is_Some (l_Level global)).

Definition with_override (k : Knob) (v : kval) (l : Layer) : Layer :=
  {| l_Level := l_Level l; l_Overrides := <[k := v]> (l_Overrides l); l_PostureMode := l_PostureMode l; l_PrePlanLayer := l_PrePlanLayer l |}.

Definition foldPermissionModeIntoGlobal (global project session : Layer) (mode : string) : Layer :=
  match permissionModeRiskThreshold mode with
  | None => global
  | Some threshold =>
      if autonomyResolutionHasExplicitRiskThresholdChoice global project session then global
      else with_override KnobRiskThreshold (KInt threshold) global
  end.

Definition resolveAutonomyKnobsWithSettingsFallback (global project session : Layer) (legacyMaxTurns : Z) : ResolvedKnobs :=
  let global :=
    match l_Overrides global !! KnobMaxIterations with
    | Some _ => global
    | None => with_override KnobMaxIterations (KInt legacyMaxTurns) global
    end in
  Resolve global project session.

(** [computeAutonomyKnobs] over what its stores answer: a layer that cannot be read
    contributes nothing; the mode is absent when there is no settings store. *)
Definition computeAutonomyKnobs (global project session : option Layer) (mode : option string) (maxTurns : option Z) : ResolvedKnobs :=
  let global := default emptyLayer global in
  let project := default emptyLayer project in
  let session := default emptyLayer session in
  let global := match mode with Some m => foldPermissionModeIntoGlobal global project session m | None => global end in
  resolveAutonomyKnobsWithSettingsFallback global project session (effectiveMaxAgentTurnsFromSettings maxTurns).

(** * The budget of a run *)

Section Budget.
(** The cost units of one dollar. *)
Context (usd : Z).

Definition set_tokens (b : Budget) (n : Z) : Budget :=
  {| b_MaxTokensPerRun := n; b_MaxWallclockPerRunSecs := b_MaxWallclockPerRunSecs b; b_MaxLLMCallsPerRun := b_MaxLLMCallsPerRun b;
     b_MaxToolCallsPerRun := b_MaxToolCallsPerRun b; b_MaxCostUSDPerRun := b_MaxCostUSDPerRun b;
     b_DoomLoopThreshold := b_DoomLoopThreshold b; b_MaxBacktracksPerRun := b_MaxBacktracksPerRun b |}.

Definition applyTokenCeilingKnob (b : Budget) (knobs : ResolvedKnobs) : Budget :=
  let ceiling := rk_TokenCeilingPerTurn knobs in
  if (ceiling <=? 0)%Z then b
  else if (rk_MaxIterations knobs <=? 0)%Z then b
  else
    let perRun := int64 (ceiling * rk_MaxIterations knobs) in
    if (perRun <=? 0)%Z then b
    else if ((b_MaxTokensPerRun b <=? 0) || (perRun <? b_MaxTokensPerRun b))%Z then set_tokens b perRun else b.

(** The smaller of two caps of which zero and less say nothing. *)
Definition clamp (cap declared : Z) : Z :=
  if ((0 <? cap) && ((declared <=? 0) || (cap <? declared)))%Z then cap else declared.

Definition applyBudgetTierDial (b : Budget) (tier : Tier) : Budget :=
  let ceiling := BudgetCeilingForTier tier in
  {| b_MaxTokensPerRun := b_MaxTokensPerRun b; b_MaxWallclockPerRunSecs := b_MaxWallclockPerRunSecs b;
     b_MaxLLMCallsPerRun := clamp (bc_MaxLLMCallsPerRun ceiling) (b_MaxLLMCallsPerRun b);
     b_MaxToolCallsPerRun := clamp (bc_MaxToolCallsPerRun ceiling) (b_MaxToolCallsPerRun b);
     b_MaxCostUSDPerRun := clamp (bc_MaxCostUSDPerRun ceiling * usd) (b_MaxCostUSDPerRun b);
     b_DoomLoopThreshold := b_DoomLoopThreshold b; b_MaxBacktracksPerRun := b_MaxBacktracksPerRun b |}.

Record SubagentBudget := { sb_Tokens : Z; sb_WallclockSecs : Z }.

Definition applyProfileBudgetClamp (b : Budget) (sb : option SubagentBudget) : Budget :=
  match sb with
  | None => b
  | Some sb =>
      {| b_MaxTokensPerRun := clamp (sb_Tokens sb) (b_MaxTokensPerRun b);
         b_MaxWallclockPerRunSecs := clamp (sb_WallclockSecs sb) (b_MaxWallclockPerRunSecs b);
         b_MaxLLMCallsPerRun := b_MaxLLMCallsPerRun b; b_MaxToolCallsPerRun := b_MaxToolCallsPerRun b;
         b_MaxCostUSDPerRun := b_MaxCostUSDPerRun b;
         b_DoomLoopThreshold := b_DoomLoopThreshold b; b_MaxBacktracksPerRun := b_MaxBacktracksPerRun b |}
  end.

(** The budget [StartStream] gives a run. *)
Definition run_budget (declared : Budget) (knobs : ResolvedKnobs) (sb : option SubagentBudget) : Budget :=
  applyProfileBudgetClamp (applyBudgetTierDial (applyTokenCeilingKnob declared knobs) (rk_EffectiveTier knobs)) sb.
End Budget.

(** ** The message of a cap that was hit *)

Definition budgetCapReasonLabel (reason : string) : string * bool :=
  if bool_decide (reason = "max_tokens_per_run") then ("token", true)
  else if bool_decide (reason = "max_llm_calls_per_run") then ("LLM-call", true)
  else if bool_decide (reason = "max_tool_calls_per_run") then ("tool-call", true)
  else if bool_decide (reason = "max_cost_usd_per_run") then ("cost", false)
  else if bool_decide (reason = "max_wallclock_per_run_seconds") then ("time", false)
  else if bool_decide (reason = "max_backtracks_per_run") then ("backtrack", false)
  else (reason, false).

(** [cap] is the reason of the budget error and its two quantities as texts, when it is
    one. *)
Definition budgetCapMessage (cap : option (string * string * string)) (tier : Tier) : string :=
  match cap with
  | None => "agent reached the per-run budget cap"
  | Some (reason, used, limit) =>
      let '(label, tierGoverned) := budgetCapReasonLabel reason in
      let usedLimit := used +:+ " used of " +:+ limit +:+ " allowed" in
      let head := "agent reached the " +:+ label +:+ " budget cap (" +:+ usedLimit +:+ ")" in
      if negb tierGoverned then
        head +:+ " — this limit is set by the graph's declared budget (or, for a spawned sub-agent, its profile's budget_time_s), not the autonomy tier"
      else if (TierAutonomous <=? tier)%Z then
        head +:+ " at the " +:+ fmt_q (Tier_String tier) +:+
        " autonomy tier — that is already the highest tier's ceiling; raising it further requires editing the graph's declared budget"
      else
        head +:+ " at the " +:+ fmt_q (Tier_String tier) +:+ " autonomy tier — raise the autonomy tier in Settings → Autonomy to raise this cap"
  end.

(** * The graph of a run *)

(** The posture of an unattended run, over the knobs of the session. *)
Definition run_ask_mode (knobs : ResolvedKnobs) (unattended : bool) : string :=
  if unattended then AskNever else rk_AskOnAmbiguity knobs.

(** The cap on turns; [provider] tells whether the knobs were resolved at all. *)
Definition run_max_turns (cfgMaxTurns : Z) (provider : bool) (knobs : ResolvedKnobs) : Z :=
  let maxTurns := if (cfgMaxTurns <=? 0)%Z then 25%Z else cfgMaxTurns in
  if provider && (0 <? rk_MaxIterations knobs)%Z then rk_MaxIterations knobs else maxTurns.

Definition set_attrs (nd : Node) (a : NodeAttrs) : Node :=
  {| n_id := n_id nd; n_kind := n_kind nd; n_title := n_title nd; n_inputs := n_inputs nd; n_outputs := n_outputs nd;
     n_attrs := a; n_dials := n_dials nd |}.

Definition map_nodes (f : Node -> Node) (g : Graph) : Graph :=
  {| g_spec_version := g_spec_version g; g_id := g_id g; g_nodes := map f (g_nodes g); g_edges := g_edges g;
     g_entrypoints := g_entrypoints g; g_dials := g_dials g |}.

Definition set_max_turns (cap : Z) (nd : Node) : Node :=
  if bool_decide (n_kind nd = NodeKindLoop) then
    match n_attrs nd with
    | ALoop a => set_attrs nd (ALoop {| lo_Body := lo_Body a; lo_Condition := lo_Condition a; lo_MaxIterations := cap |})
    | _ => nd
    end
  else nd.

Definition applyMaxTurnsDial (g : Graph) (cap : Z) : Graph := map_nodes (set_max_turns cap) g.

Definition askOnAmbiguityNeverDefaultAnswer : string :=
  "No user input was available (askOnAmbiguity=never); proceeding on best judgement.".

Definition set_default_answer (nd : Node) : Node :=
  if bool_decide (n_kind nd = NodeKindAsk) then
    match n_attrs nd with
    | AAsk a =>
        if bool_decide (ak_DefaultAnswer a = "")
        then set_attrs nd (AAsk {| ak_DefaultAnswer := askOnAmbiguityNeverDefaultAnswer; ak_Question := ak_Question a;
                                   ak_QuestionKind := ak_QuestionKind a; ak_QuestionSpec := ak_QuestionSpec a |})
        else nd
    | _ => nd
    end
  else nd.

Definition applyAskOnAmbiguityDial (g : Graph) (mode : string) : Graph :=
  if bool_decide (mode = AskNever) then map_nodes set_default_answer g else g.

(** The graph [StartStream] runs; the reasoning budget touches model nodes only. *)
Definition run_graph (g : Graph) (knobs : ResolvedKnobs) (cfgMaxTurns : Z) (provider unattended : bool) : Graph :=
  applyAskOnAmbiguityDial (applyMaxTurnsDial g (run_max_turns cfgMaxTurns provider knobs)) (run_ask_mode knobs unattended).

(** * The other knobs of a run *)

Definition withholdsAskTool (mode : string) : bool := bool_decide (mode = AskProceed) || bool_decide (mode = AskNever).

Inductive AskPolicy := AskPolicyAllow | AskPolicyWithhold.

Definition askPolicyFor (mode : string) : AskPolicy := if withholdsAskTool mode then AskPolicyWithhold else AskPolicyAllow.

(** [filterOutTool] over the names of the tools. *)
Definition filterOutTool (tools : list string) (name : string) : list string :=
  if existsb (fun t => bool_decide (t = name)) tools then List.filter (fun t => negb (bool_decide (t = name))) tools else tools.

Definition continueOnErrorPolicy (mode : string) : NodeErrorPolicy :=
  if bool_decide (mode = ErrorRetryOnce) then NodeErrorPolicyRetryOnce
  else if bool_decide (mode = ErrorAdapt) then NodeErrorPolicyAdapt else NodeErrorPolicyStop.
