(* ===== verification/DialsProps.v ===== *)
(** The dials of a run only narrow its budget, the settings stand in for the layers
    exactly where no layer speaks, and an unattended run has nobody to ask. *)
From S2P Require Import Prelude GoString Json Elicitation Autonomy AutonomyProps AgentGraph EventLog RunState Kernel KernelProps Containers Gates Dials.
From stdpp Require Import gmap.
Local Open Scope nat_scope.

(** * The budget *)

(** [final] is at least as narrow a cap as [declared], zero and less being none. *)
Definition tightens (declared final : Z) : Prop := (0 < declared -> 0 < final <= declared)%Z.

Lemma clamp_tightens cap declared : tightens declared (clamp cap declared).
Proof. unfold tightens, clamp. destruct (_ && _)%Z eqn:H; [|lia]. rewrite andb_true_iff, orb_true_iff in H. lia. Qed.

Lemma clamp_caps cap declared : tightens cap (clamp cap declared).
Proof. unfold tightens, clamp. intros Hc. destruct (_ && _)%Z eqn:H; [lia|]. rewrite andb_false_iff, orb_false_iff in H. lia. Qed.

Lemma tightens_trans a b c : tightens a b -> tightens b c -> tightens a c.
Proof. unfold tightens. lia. Qed.

Lemma token_knob_tightens b knobs : tightens (b_MaxTokensPerRun b) (b_MaxTokensPerRun (applyTokenCeilingKnob b knobs)).
Proof.
  unfold tightens, applyTokenCeilingKnob. repeat case_match; cbn [set_tokens b_MaxTokensPerRun]; lia.
Qed.

Lemma token_knob_else b knobs : applyTokenCeilingKnob b knobs = set_tokens b (b_MaxTokensPerRun (applyTokenCeilingKnob b knobs)).
Proof. unfold applyTokenCeilingKnob. by repeat case_match; destruct b. Qed.

Lemma run_budget_caps usd b knobs sb : let r := run_budget usd b knobs sb in
  tightens (b_MaxTokensPerRun b) (b_MaxTokensPerRun r) /\
  tightens (b_MaxWallclockPerRunSecs b) (b_MaxWallclockPerRunSecs r) /\
  tightens (b_MaxLLMCallsPerRun b) (b_MaxLLMCallsPerRun r) /\
  tightens (b_MaxToolCallsPerRun b) (b_MaxToolCallsPerRun r) /\
  tightens (b_MaxCostUSDPerRun b) (b_MaxCostUSDPerRun r).
Proof.
  unfold run_budget. pose proof (token_knob_tightens b knobs) as Ht. rewrite (token_knob_else b knobs).
  destruct sb as [sb|]; cbn; split_and!; try apply clamp_tightens; try done.
  eapply tightens_trans, clamp_tightens. done.
Qed.

(** Whatever the knobs and the profile of a sub-agent, a cap the graph declares is only
    ever lowered; the call and cost ceilings of the tier and the caps of the profile are
    never exceeded either; the doom-loop and backtrack bounds are untouched.  So whoever
    passes the budget check of the run has stayed within the declared budget. *)
Theorem dials_only_tighten (usd : Z) (b : Budget) knobs sb cs now :
  (b_MaxWallclockPerRunSecs b * second < 2 ^ 63)%Z ->
  let r := run_budget usd b knobs sb in
  let tier := BudgetCeilingForTier (rk_EffectiveTier knobs) in
  (tightens (b_MaxTokensPerRun b) (b_MaxTokensPerRun r) /\
   tightens (b_MaxWallclockPerRunSecs b) (b_MaxWallclockPerRunSecs r) /\
   tightens (b_MaxLLMCallsPerRun b) (b_MaxLLMCallsPerRun r) /\
   tightens (b_MaxToolCallsPerRun b) (b_MaxToolCallsPerRun r) /\
   tightens (b_MaxCostUSDPerRun b) (b_MaxCostUSDPerRun r)) /\
  (tightens (bc_MaxLLMCallsPerRun tier) (b_MaxLLMCallsPerRun r) /\
   tightens (bc_MaxToolCallsPerRun tier) (b_MaxToolCallsPerRun r) /\
   tightens (bc_MaxCostUSDPerRun tier * usd) (b_MaxCostUSDPerRun r)) /\
  (forall p, sb = Some p -> tightens (sb_Tokens p) (b_MaxTokensPerRun r) /\ tightens (sb_WallclockSecs p) (b_MaxWallclockPerRunSecs r)) /\
  b_DoomLoopThreshold r = b_DoomLoopThreshold b /\ b_MaxBacktracksPerRun r = b_MaxBacktracksPerRun b /\
  (within_budget r cs now -> within_budget b cs now).
Proof.
  intros Hw r tier. pose proof (run_budget_caps usd b knobs sb) as Hc. cbn zeta in Hc. fold r in Hc.
  split; [done|]. split.
  { subst r tier. unfold run_budget. destruct sb; cbn; split_and!; apply clamp_caps. }
  split. { intros p ->. subst r. cbn. split; apply clamp_caps. }
  assert (b_DoomLoopThreshold r = b_DoomLoopThreshold b /\ b_MaxBacktracksPerRun r = b_MaxBacktracksPerRun b) as [Hd Hb].
  { subst r. unfold run_budget. rewrite (token_knob_else b knobs). by destruct sb. }
  split_and!; [done..|]. destruct Hc as (Ht & Hs & Hl & Hk & Hu). unfold tightens, within_budget in *.
  intros (I1 & I2 & I3 & I4 & I5). split_and!; [lia..|]. intros Hp Hst. specialize (Hs Hp).
  assert (0 < second)%Z as Hsec by done.
  destruct Hs as [Hs0 Hs1]. specialize (I5 Hs0 Hst). clearbody r. rewrite (int64_small (b_MaxWallclockPerRunSecs r * second)) in I5 by nia.
  rewrite (int64_small (b_MaxWallclockPerRunSecs b * second)) by nia. nia.
Qed.

(** * The settings *)

Lemma with_override_other k k' v l : k' <> k -> l_Overrides (with_override k v l) !! k' = l_Overrides l !! k'.
Proof. intros Hk. cbn. by rewrite lookup_insert_ne. Qed.

(** The resolution looks at a layer through its overrides, its level and its posture. *)
Lemma resolve_override_other k k' v g p s : k' ∈ allKnobs -> k' <> k ->
  read_knob (Resolve (with_override k v g) p s) k' = read_knob (Resolve g p s) k'.
Proof.
  intros Hk Hne. destruct (decide (activePosture g p s = PostureModePlanMode)) as [Hm|Hm].
  - destruct (plan_mode_knobs g p s k' Hk Hm) as [-> _].
    by destruct (plan_mode_knobs (with_override k v g) p s k' Hk Hm) as [-> _].
  - assert (known_posture (activePosture g p s) = false) as Hn by by apply bool_decide_eq_false_2.
    rewrite (resolve_precedence_value g p s k' Hk Hn), (resolve_precedence_value _ p s k' Hk) by done.
    unfold knob_choice, nearest. rewrite with_override_other by done. done.
Qed.

Lemma no_explicit_choice g p s : autonomyResolutionHasExplicitRiskThresholdChoice g p s = false ->
  l_Overrides g !! KnobRiskThreshold = None /\ l_Overrides p !! KnobRiskThreshold = None /\
  l_Overrides s !! KnobRiskThreshold = None /\ l_Level g = None /\ l_Level p = None /\ l_Level s = None.
Proof.
  unfold autonomyResolutionHasExplicitRiskThresholdChoice. rewrite !orb_false_iff, !bool_decide_eq_false, <- !eq_None_not_Some.
  naive_solver.
Qed.

Lemma resolve_fallback_other g p s n k : k ∈ allKnobs -> k <> KnobMaxIterations ->
  read_knob (resolveAutonomyKnobsWithSettingsFallback g p s n) k = read_knob (Resolve g p s) k.
Proof.
  intros Hk Hne. unfold resolveAutonomyKnobsWithSettingsFallback. case_match; [done|]. by apply resolve_override_other.
Qed.

(** The permission mode of the settings is consulted exactly when no layer chooses a risk
    threshold, by an override or by a tier: then it gives the threshold (the default
    tier's 40 under an unknown mode), outside plan mode; otherwise the mode changes
    nothing at all, and in no case does it touch another knob. *)
Theorem permission_mode_stands_in g p s mode n :
  let knobs m := computeAutonomyKnobs (Some g) (Some p) (Some s) m n in
  (autonomyResolutionHasExplicitRiskThresholdChoice g p s = true -> knobs (Some mode) = knobs None) /\
  (autonomyResolutionHasExplicitRiskThresholdChoice g p s = false ->
   (known_posture (activePosture g p s) = false ->
    rk_RiskThreshold (knobs (Some mode)) = default 40%Z (permissionModeRiskThreshold mode)) /\
   (known_posture (activePosture g p s) = true -> rk_RiskThreshold (knobs (Some mode)) = 0%Z)) /\
  (forall k, k ∈ allKnobs -> k <> KnobRiskThreshold -> read_knob (knobs (Some mode)) k = read_knob (knobs None) k).
Proof.
  cbn zeta. unfold computeAutonomyKnobs, foldPermissionModeIntoGlobal. cbn [from_option]. unfold id.
  assert (KnobRiskThreshold ∈ allKnobs) as Hin by by apply in_knobs.
  split; [intros ->; by case_match|]. split.
  - intros He. rewrite He. pose proof (no_explicit_choice g p s He) as (Og & Op & Os & Lg & Lp & Ls).
    assert (forall kn x, read_knob kn KnobRiskThreshold = KInt x -> rk_RiskThreshold kn = x) as Hread by by intros ? ? [= ->].
    split; intros Hm; apply Hread.
    + destruct (permissionModeRiskThreshold mode) as [t|]; cbn [default];
        rewrite resolve_fallback_other, resolve_precedence_value by done; unfold knob_choice, nearest; cbn [with_override l_Overrides l_Level];
        rewrite ?lookup_insert_eq, ?Og, ?Op, ?Os, ?Lg, ?Lp, ?Ls; done.
    + apply bool_decide_eq_true_1 in Hm. destruct (permissionModeRiskThreshold mode) as [t|];
        rewrite resolve_fallback_other by done.
      * by rewrite (proj1 (plan_mode_knobs (with_override KnobRiskThreshold (KInt t) g) p s _ Hin Hm)).
      * by rewrite (proj1 (plan_mode_knobs g p s _ Hin Hm)).
  - intros k Hk Hne. destruct (permissionModeRiskThreshold mode) as [t|]; [|done].
    destruct (autonomyResolutionHasExplicitRiskThresholdChoice g p s); [done|].
    destruct (decide (k = KnobMaxIterations)) as [->|Hk'].
    + unfold resolveAutonomyKnobsWithSettingsFallback. rewrite with_override_other by done.
      destruct (l_Overrides g !! KnobMaxIterations); [by apply resolve_override_other|].
      replace (with_override KnobMaxIterations _ (with_override KnobRiskThreshold (KInt t) g))
        with (with_override KnobRiskThreshold (KInt t) (with_override KnobMaxIterations (KInt (effectiveMaxAgentTurnsFromSettings n)) g)).
      * by apply resolve_override_other.
      * unfold with_override. cbn. f_equal. by apply insert_insert_ne.
    + rewrite !resolve_fallback_other by done. by apply resolve_override_other.
Qed.

(** No tier decides how many turns a run gets: unless the session or the project overrides
    the knob, the cap is the global override or else the number of the settings, whatever
    levels the three layers have; the settings always give a positive number. *)
Theorem settings_decide_iterations g p s mode n : known_posture (activePosture g p s) = false ->
  l_Overrides s !! KnobMaxIterations = None -> l_Overrides p !! KnobMaxIterations = None ->
  rk_MaxIterations (computeAutonomyKnobs (Some g) (Some p) (Some s) mode n) =
    match l_Overrides g !! KnobMaxIterations with
    | Some (KInt m) => m
    | Some _ => 0%Z
    | None => effectiveMaxAgentTurnsFromSettings n
    end /\
  (0 < effectiveMaxAgentTurnsFromSettings n)%Z.
Proof.
  intros Hm Hs Hp. unfold computeAutonomyKnobs. cbn [from_option]. unfold id.
  split; [|unfold effectiveMaxAgentTurnsFromSettings, DefaultMaxAgentTurns; repeat case_match; lia].
  set (g' := match mode with Some m => foldPermissionModeIntoGlobal g p s m | None => g end).
  assert (l_Overrides g' !! KnobMaxIterations = l_Overrides g !! KnobMaxIterations /\ activePosture g' p s = activePosture g p s) as [Hg Ha].
  { unfold g', foldPermissionModeIntoGlobal. repeat case_match; try done. by rewrite with_override_other. }
  assert (KnobMaxIterations ∈ allKnobs) as Hin by by apply in_knobs.
  assert (forall kn v, read_knob kn KnobMaxIterations = coerce KnobMaxIterations v ->
    rk_MaxIterations kn = match v with KInt m => m | _ => 0%Z end) as Hread.
  { intros kn v Hkn. destruct v; by injection Hkn. }
  assert (forall l v, l_Overrides l !! KnobMaxIterations = Some v -> activePosture l p s = activePosture g p s ->
    rk_MaxIterations (Resolve l p s) = match v with KInt m => m | _ => 0%Z end) as Hover.
  { intros l v Hl Hal. apply Hread. rewrite resolve_precedence_value by (done || by rewrite Hal).
    unfold knob_choice, nearest. by rewrite Hs, Hp, Hl. }
  unfold resolveAutonomyKnobsWithSettingsFallback. rewrite Hg. destruct (l_Overrides g !! KnobMaxIterations) as [v|] eqn:Ho.
  - by apply Hover.
  - apply (Hover _ (KInt _)); [cbn; by rewrite lookup_insert_eq|done].
Qed.

(** * The graph *)

(** Each node carries the attribute struct of its kind. *)
Definition attrs_match (nd : Node) : Prop :=
  (forall a, n_attrs nd = AAsk a -> n_kind nd = NodeKindAsk) /\ (forall a, n_attrs nd = ALoop a -> n_kind nd = NodeKindLoop).

Lemma run_graph_node nd g knobs cfg provider : nd ∈ g_nodes (run_graph g knobs cfg provider true) ->
  exists nd0, nd0 ∈ g_nodes g /\ nd = set_default_answer (set_max_turns (run_max_turns cfg provider knobs) nd0).
Proof.
  unfold run_graph, applyAskOnAmbiguityDial, run_ask_mode. rewrite bool_decide_true by done.
  unfold applyMaxTurnsDial, map_nodes. cbn [g_nodes]. rewrite map_map.
  intros (nd0 & <- & Hin)%list_elem_of_In%in_map_iff. exists nd0. by rewrite list_elem_of_In.
Qed.

Lemma run_max_turns_pos cfg provider knobs : (0 < run_max_turns cfg provider knobs)%Z.
Proof.
  unfold run_max_turns. destruct (cfg <=? 0)%Z eqn:Hc, (provider && _) eqn:Hp; try apply andb_true_iff in Hp; lia.
Qed.

(** A run nobody attends, whatever its autonomy dial: no ask node of its graph waits for
    an answer on any bus that has none, and what is taken for the answer is not empty; no
    loop is refused for its cap, which is the same positive number for all loops; the
    model is not offered the ask tool and the recovery path may not ask.  Everything
    else of the graph is as it was. *)
Theorem unattended_turn_never_asks {B} `{AskBus B} render hooks (b : B) now run g knobs cfg provider : Forall attrs_match (g_nodes g) ->
  let g' := run_graph g knobs cfg provider true in
  (forall nd a, nd ∈ g_nodes g' -> n_attrs nd = AAsk a ->
   ak_DefaultAnswer a <> "" /\
   exists r, ask_execute render hooks b now run nd = (b, OutOk r) /\ r_Pause r = false /\
     (LookupAnswer b run (n_id nd) = None -> r_Outputs r !! "answer" = Some (VStr (ak_DefaultAnswer a)))) /\
  (forall nd a, nd ∈ g_nodes g' -> n_attrs nd = ALoop a ->
   lo_MaxIterations a = run_max_turns cfg provider knobs /\ (0 < lo_MaxIterations a)%Z) /\
  map n_id (g_nodes g') = map n_id (g_nodes g) /\ map n_kind (g_nodes g') = map n_kind (g_nodes g) /\
  g_edges g' = g_edges g /\ g_entrypoints g' = g_entrypoints g /\
  withholdsAskTool (run_ask_mode knobs true) = true /\ askPolicyFor (run_ask_mode knobs true) = AskPolicyWithhold.
Proof.
  intros Hg g'. rewrite Forall_forall in Hg. split; [|split; [|split; [|split]]].
  - intros nd a (nd0 & Hin & ->)%run_graph_node Ha. destruct (Hg nd0 Hin) as [Hak Hlk].
    assert (ak_DefaultAnswer a <> "") as Hd.
    { revert Ha. unfold set_default_answer, set_max_turns.
      destruct (n_attrs nd0) as [l| | | | | | |ap|a0| | | |] eqn:E; repeat (case_bool_decide; cbn [set_attrs n_kind n_attrs]; rewrite ?E); try done.
      all: intros [= <-]; try done; exfalso; eauto. }
    split; [done|]. unfold ask_execute. rewrite Ha. destruct (LookupAnswer b run _) as [ans|] eqn:El.
    + eexists; split; [reflexivity|]. done.
    + rewrite bool_decide_false by done. cbn [negb]. eexists; split; [reflexivity|]. split; [done|].
      intros _. cbn. by rewrite lookup_singleton_eq.
  - intros nd a (nd0 & Hin & ->)%run_graph_node Ha. destruct (Hg nd0 Hin) as [Hak Hlk].
    assert (lo_MaxIterations a = run_max_turns cfg provider knobs) as ->; [|by split; [|apply run_max_turns_pos]].
    revert Ha. unfold set_default_answer, set_max_turns.
    destruct (n_attrs nd0) as [l| | | | | | |ap|a0| | | |] eqn:E; repeat (case_bool_decide; cbn [set_attrs n_kind n_attrs]; rewrite ?E); try done.
    all: try (intros [= <-]; done); try (exfalso; eauto).
  - subst g'. unfold run_graph, applyAskOnAmbiguityDial, run_ask_mode. rewrite bool_decide_true by done. cbn. rewrite !map_map.
    apply map_ext. intros nd. unfold set_default_answer, set_max_turns. by repeat case_match.
  - subst g'. unfold run_graph, applyAskOnAmbiguityDial, run_ask_mode. rewrite bool_decide_true by done. cbn. rewrite !map_map.
    apply map_ext. intros nd. unfold set_default_answer, set_max_turns. by repeat case_match.
  - subst g'. unfold run_graph, applyAskOnAmbiguityDial, run_ask_mode. by rewrite bool_decide_true by done.
Qed.

(** * Concrete runs *)

Definition d_declared : Budget :=
  {| b_MaxTokensPerRun := 1000000; b_MaxWallclockPerRunSecs := 3600; b_MaxLLMCallsPerRun := 5000;
     b_MaxToolCallsPerRun := 10000; b_MaxCostUSDPerRun := 0; b_DoomLoopThreshold := 3; b_MaxBacktracksPerRun := 2 |}.

Definition d_cautious : Layer :=
  {| l_Level := Some TierCautious; l_Overrides := ∅; l_PostureMode := None; l_PrePlanLayer := None |}.
Definition d_knobs : ResolvedKnobs := computeAutonomyKnobs (Some d_cautious) None None (Some "permissive") (Some 20%Z).
Definition d_used : RunCounters :=
  {| rc_LLMTokensUsed := 600000; rc_LLMCallsMade := 500; rc_ToolCallsMade := 0; rc_CostUSD := 0; rc_WallclockStart := 1; rc_BacktracksUsed := 0 |}.

Lemma dials_only_tighten_witness :
  let r := run_budget 100 d_declared d_knobs (Some {| sb_Tokens := 700000; sb_WallclockSecs := 60 |}) in
  (b_MaxTokensPerRun r = 655360 /\ b_MaxLLMCallsPerRun r = 500 /\ b_MaxCostUSDPerRun r = 500 /\ b_MaxWallclockPerRunSecs r = 60)%Z /\
  within_budget d_declared d_used 5.
Proof.
  cbn zeta. split; [vm_compute; done|].
  apply (dials_only_tighten 100 d_declared d_knobs (Some {| sb_Tokens := 700000; sb_WallclockSecs := 60 |}) d_used 5 eq_refl).
  unfold within_budget. vm_compute. by split_and!.
Defined.

Lemma settings_decide_iterations_witness :
  rk_MaxIterations (computeAutonomyKnobs (Some d_cautious) (Some emptyLayer) (Some d_cautious) (Some "strict") (Some (-3)%Z)) = 500%Z /\
  presetValue TierCautious KnobMaxIterations = KInt 15.
Proof.
  split; [|reflexivity].
  exact (proj1 (settings_decide_iterations d_cautious emptyLayer d_cautious (Some "strict") (Some (-3)%Z) eq_refl eq_refl eq_refl)).
Defined.

Definition d_ask : Node :=
  {| n_id := "q"; n_kind := NodeKindAsk; n_title := ""; n_inputs := []; n_outputs := [];
     n_attrs := AAsk {| ak_DefaultAnswer := ""; ak_Question := "Which?"; ak_QuestionKind := ""; ak_QuestionSpec := [] |}; n_dials := [] |}.
Definition d_ask_graph : Graph :=
  {| g_spec_version := "1"; g_dials := []; g_id := "g"; g_nodes := [d_ask]; g_edges := []; g_entrypoints := ["q"] |}.
Definition d_ask_set : Node := set_default_answer (set_max_turns (run_max_turns 0 true d_knobs) d_ask).

(** With somebody to ask the node parks; without, it goes on. *)
Lemma unattended_turn_never_asks_witness :
  (exists b r, ask_execute (fun _ => "") None NewMemAskBus 1%Z "r" d_ask = (b, OutOk r) /\ r_Pause r = true) /\
  (exists r, ask_execute (fun _ => "") None NewMemAskBus 1%Z "r" d_ask_set = (NewMemAskBus, OutOk r) /\ r_Pause r = false).
Proof.
  split; [do 2 eexists; split; vm_compute; reflexivity|].
  assert (Forall attrs_match (g_nodes d_ask_graph)) as Hg by by apply Forall_singleton.
  destruct (unattended_turn_never_asks (fun _ => "") None NewMemAskBus 1%Z "r" d_ask_graph d_knobs 0 true Hg) as [Ha _].
  destruct (Ha d_ask_set {| ak_DefaultAnswer := askOnAmbiguityNeverDefaultAnswer; ak_Question := "Which?"; ak_QuestionKind := ""; ak_QuestionSpec := [] |})
    as (_ & r & He & Hp & _); [by left|reflexivity|by exists r].
Defined.

(** The tier alone caps the cost of this run, and the message says that the tier has no
    part in it. *)
Example cost_cap_message_blames_the_graph :
  b_MaxCostUSDPerRun (run_budget 100 d_declared d_knobs None) = 500%Z /\
  b_MaxCostUSDPerRun (run_budget 100 d_declared (zeroKnobs "" TierAutonomous) None) = 0%Z /\
  budgetCapReasonLabel "max_cost_usd_per_run" = ("cost", false).
Proof. by vm_compute. Qed.
